(* ===== verification/_CoqProject ===== *)
-Q . S2P
Prelude.v
Modulus.v
Bytes.v
Field.v
Field5x52.v
Field10x26.v
FieldReprs.v
FieldImpl.v
Curve.v
CurveGroup.v
CurveOrder.v
Group.v
GroupConv.v
ScalarAcc.v
ScalarWords.v
Scalar8x32.v
Scalar4x64.v
Scalar.v
ScalarReprs.v
ScalarImpl.v
Endomorphism.v
Hash.v
HashSpec.v
Nums.v
Ecmult.v
Wnaf.v
EcmultSpec.v
EcmultGen.v
EcmultGenSpec.v
EcmultConst.v
EcmultConstSpec.v
Objects.v
Buffer.v
Ecdsa.v
Eckey.v
Secp256k1.v
Recovery.v
Ecdh.v
Der.v
Signatures.v
EcdsaSpec.v
EckeySpec.v
ApiSpec.v
ApiKeys.v
ApiSign.v
ApiEcdh.v
ContextSpec.v
Build.v
X86.v
Operands.v
FieldAsm.v
ScalarAsm.v
Lax.v
LaxSpec.v
FieldTheorems.v
GroupTheorems.v
ScalarTheorems.v
HashTheorems.v
EcmultTheorems.v
ApiTheorems.v
KeyTheorems.v
ErrorTheorems.v
LaxTheorems.v
AsmTheorems.v
Gfp.v
GfpAmd64.v
GfpArm64.v
GfpTheorems.v
Hostname.v
