(* ===== verification/Prelude.v ===== *)
(** * The C code and the assembly of the repository

    This library models the C code of [src/proton/crypto/secp256k1], the bundled
    libsecp256k1 with its x86-64 assembly and the functions [ext.h] adds to it; the
    assembly of the field of the pairing, [src/proton/crypto/bn256/cloudflare]; and
    [hostname.c] of the vendored go-openssl; and proves what they compute.
    The code is modelled as the VERIFY build: a function that contains assertions, or
    calls one that does, returns in the monad [checked] of this file, and a failed
    assertion, a read or write outside an array, or a call that does not return is
    [None].  [Returns m Q] says that [m] returns and that its result satisfies [Q],
    so every theorem of that form also says that no assertion fails.  Machine integers
    are integers with their wrap-around written out ([u32], [u64], [i32], ...).  The
    configuration of [secp256.go] has 10x26 field elements, 8x32 scalars, the builtin
    inverses, no endomorphism and no precomputed table, on a little-endian machine with
    a 64-bit [size_t].  The builds with 5x52 field elements and 4x64 scalars, in C and
    in assembly, and with [USE_ENDOMORPHISM] are modelled too, and the theorems on the
    library hold for all of them.

    ** The parts and their files

    The code is in layers, each generic over the one below through a type class, so
    that the theorems of a layer hold for every representation of the layer below.

    - Field elements.  [Field.v] has the interface of [field.h] as the class
      [FieldOps] and its laws as [FieldLaws]; [Field10x26.v] and [Field5x52.v] model
      [field_10x26_impl.h] and [field_5x52_impl.h] with [field_5x52_int128_impl.h],
      with limbs, magnitudes and normalization flags; [FieldReprs.v] proves the laws for
      both; [FieldImpl.v] models [field_impl.h].
    - The curve.  [Curve.v], [CurveGroup.v] and [CurveOrder.v] are the mathematics: the
      group law, its associativity, the order of the base point and that it generates
      the group.  [Modulus.v] has the two primes with certificates of primality.
    - Group elements.  [Group.v] and [GroupConv.v] model [group_impl.h].
    - Scalars.  [Scalar.v] is the interface of [scalar.h]; [ScalarAcc.v],
      [ScalarWords.v], [Scalar8x32.v], [Scalar4x64.v] model the two representations;
      [ScalarReprs.v] proves the laws; [ScalarImpl.v] models [scalar_impl.h].
      [Endomorphism.v] proves that the map [secp256k1_ge_mul_lambda] is the multiple by
      lambda, and so that the two halves of a split scalar give its multiple.
    - Hashes.  [Hash.v] models [hash_impl.h]; [HashSpec.v] has SHA-256, HMAC and the
      generator of RFC 6979 as the standards define them and the proofs.
    - Multiplications.  [Ecmult.v], [EcmultGen.v] and [EcmultConst.v] model
      [ecmult_impl.h], [ecmult_gen_impl.h] and [ecmult_const_impl.h], the branches of
      [USE_ENDOMORPHISM] being the two values of the class [Config]; [Wnaf.v],
      [EcmultSpec.v], [EcmultGenSpec.v], [EcmultConstSpec.v] have the proofs and
      [Nums.v] the facts about the blinding point of the comb.
    - Objects and callbacks.  [Objects.v] is the memory representation that [memcpy]
      relies on; [Buffer.v] has byte buffers, the callbacks of [util.h] and the macro
      [ARG_CHECK].  A call to the library is an [api] value: the texts it reported to
      the illegal argument callback, in order, with its result.
    - ECDSA and keys.  [Ecdsa.v] and [Eckey.v] model [ecdsa_impl.h] and [eckey_impl.h].
      [Der.v] has the reference definition of DER and the proofs of the parser and the
      serializer; [Signatures.v] defines ECDSA over the curve; [EcdsaSpec.v] and
      [EckeySpec.v] relate the code to them.
    - The programming interface.  [Secp256k1.v] models [secp256k1.c], [Recovery.v] and
      [Ecdh.v] the two modules, [Ecdh.v] also [ext.h]; [ApiSpec.v], [ApiKeys.v],
      [ApiSign.v], [ApiEcdh.v] prove what each function returns; [ContextSpec.v] has
      the life of a context as a step relation with its invariant.
    - The lax parsers.  [Lax.v] models the two files of [contrib]; [LaxSpec.v] has the
      proofs.
    - The assembly of libsecp256k1.  [X86.v] is a machine with the general registers,
      the carry flag and memory in blocks; [Operands.v] has inline assembly statements
      with the constraints of their operands and the places a compiler may give them;
      [FieldAsm.v] and [ScalarAsm.v] are the code of [field_5x52_asm_impl.h] and of
      [scalar_4x64_impl.h], instruction by instruction, as another instance of the
      field and of the scalars.
    - The field of the pairing.  [Gfp.v] models [gfp.go] over any arithmetic with the
      laws of [GfpOps]; [GfpAmd64.v] and [GfpArm64.v] model [gfp_amd64.s] and
      [gfp_arm64.s] with their headers, and prove the laws.
    - Names of certificates.  [Hostname.v] models [hostname.c]; the functions of OpenSSL
      it calls are the parameters of the class [Openssl].
    - [Build.v] has concrete instances and a sample key, message, nonce and context, on
      which the witnesses of the theorems evaluate.

    ** State and operations

    A C struct is a record with the same fields, a pointer that may be NULL an
    [option], an output argument a component of the result, an array a list.  Local
    variables that the code reads only after writing them still have contents before:
    the classes [Memory], [HashMemory] and [ApiMemory] hold them, and no theorem
    depends on what they are.  The nonce function of the signing functions is an
    argument; NULL stands for the one of RFC 6979.

    ** The theorems

    - [ApiTheorems.v]: verification decides the equation of ECDSA; signatures verify
      and their keys are recovered; signing terminates; the default nonce function.
    - [KeyTheorems.v]: the DER parser accepts exactly DER; encodings round trip; parsers
      are safe on every input; tweaks of secrets and public keys commute; both sides of
      ECDH agree.
    - [ErrorTheorems.v]: what each function asks of its arguments, and that it reports
      the first requirement that fails; missing tables and zero keys are refused.
    - [EcmultTheorems.v]: the multiplications compute multiples of points and agree; the
      blinding does not matter; contexts are created as asked; recovered keys verify.
    - [LaxTheorems.v]: the lax parsers.
    - [AsmTheorems.v]: the assembly computes what the C code computes, for every choice
      of places of its operands that works, and which choices do; the builds make the
      same signatures.
    - [GfpTheorems.v]: the three versions of the arithmetic of the pairing field agree;
      inversion and the Montgomery form.
    - [Hostname.v]: which certificates name a host, an e-mail address or an IP address.
    - [FieldTheorems.v], [GroupTheorems.v], [ScalarTheorems.v], [HashTheorems.v]: the
      layers below.

    [Quiet m Q] says that the call [m] returns, reports nothing and has a result that
    satisfies [Q].

    ** Bounds and fuel

    Loops over a fixed range are structural.  Three loops have no bound in the code.
    Signing tries nonces until one is accepted: [fuel] bounds the attempts, and the
    theorems ask that one of the first [fuel] numbers of RFC 6979 gives a signature.
    The default nonce function reads its generator [counter + 1] times, so any [fuel]
    above the counter is enough.  The blinding of a context draws numbers until one is
    in range: [blind_reads_ok] says that this happens within [fuel] draws, and it is
    computed for the blinding of a new context, where the first draws do.  A nonce
    whose point has an abscissa past the order fails an assertion of
    [secp256k1_ecdsa_sig_sign]; [nonces_usable] excludes it.  Parsed inputs are shorter
    than [2^31] bytes, the range of the [int] that [secp256k1_der_read_len] returns.
    The loop of [do_x509_check] over the subject has a [fuel] above the number of the
    entries, as each round finds a later one.

    ** What is not modelled

    The libgmp numbers, the ARM assembly of the 10x26 field and the small groups of the
    exhaustive tests, which are not built; allocation, which is taken to succeed; the
    clearing of secrets from memory, which has no effect on results; timing.  The tests,
    the benchmarks, the Java bindings, the C shim of go-openssl and the Go code above
    the field of the pairing are not part of the model. *)

From Stdlib Require Import ZArith Lia List Bool.
Import ListNotations.

#[local] Open Scope Z_scope.

(** ** Machine integers

    C's unsigned integers are rings modulo a power of two, so an expression
    whose operations all happen at one width may be wrapped once, where its
    value is stored. *)

Definition u8 (x : Z) : Z := x mod 2 ^ 8.
Definition u32 (x : Z) : Z := x mod 2 ^ 32.
Definition u64 (x : Z) : Z := x mod 2 ^ 64.
Definition u128 (x : Z) : Z := x mod 2 ^ 128.

(** Conversions to signed integers (two's complement). *)
Definition i32 (x : Z) : Z := (x + 2 ^ 31) mod 2 ^ 32 - 2 ^ 31.
Definition i64 (x : Z) : Z := (x + 2 ^ 63) mod 2 ^ 64 - 2 ^ 63.

(** ** Assertions

    A [VERIFY] build of the library aborts on a failed assertion.  A computation
    is [None] when it aborts. *)

Definition checked (A : Type) : Type := option A.

Definition ret {A} (x : A) : checked A := Some x.

Definition bind {A B} (m : checked A) (k : A -> checked B) : checked B :=
  match m with
  | Some x => k x
  | None => None
  end.

Definition VERIFY_CHECK (cond : bool) : checked unit :=
  if cond then Some tt else None.

Definition VERIFY_BITS (x n : Z) : checked unit :=
  VERIFY_CHECK (Z.shiftr x n =? 0).

Declare Scope checked_scope.
Delimit Scope checked_scope with checked.

Notation "x <- m ;; k" := (bind m (fun x => k))
  (at level 61, m at next level, right associativity) : checked_scope.
Notation "' pat <- m ;; k" := (bind m (fun x => match x with pat => k end))
  (at level 61, pat pattern, m at next level, right associativity) : checked_scope.
Notation "m ;; k" := (bind m (fun _ => k))
  (at level 61, right associativity) : checked_scope.

#[local] Open Scope checked_scope.

(** [Returns m Q]: the computation reaches its end, no assertion fails on the
    way, and its result satisfies [Q]. *)
Definition Returns {A} (m : checked A) (Q : A -> Prop) : Prop :=
  match m with
  | Some x => Q x
  | None => False
  end.

(** Iteration of a C [for] loop whose counter is not read by the body. *)
Fixpoint repeat_checked {A} (n : nat) (f : A -> checked A) (x : A) : checked A :=
  match n with
  | O => ret x
  | S n' => y <- f x;; repeat_checked n' f y
  end.

(** ** Laws of the assertion monad *)

Lemma Returns_ret {A} (x : A) (Q : A -> Prop) : Q x -> Returns (ret x) Q.
Proof. exact (fun H => H). Qed.

Lemma Returns_bind {A B} (m : checked A) (k : A -> checked B) (P : A -> Prop) Q :
  Returns m P -> (forall x, P x -> Returns (k x) Q) -> Returns (bind m k) Q.
Proof. destruct m; cbn; [auto | contradiction]. Qed.

Lemma Returns_check {B} (b : bool) (k : unit -> checked B) Q :
  b = true -> Returns (k tt) Q -> Returns (bind (VERIFY_CHECK b) k) Q.
Proof. intros ->; exact (fun H => H). Qed.

Lemma Returns_let {A B} (e : A) (k : A -> checked B) Q :
  (forall x, x = e -> Returns (k x) Q) -> Returns (let x := e in k x) Q.
Proof. cbv zeta; auto. Qed.

Lemma bind_some {A B} (m : checked A) (k : A -> checked B) y : bind m k = Some y -> exists x, m = Some x /\ k x = Some y.
Proof. destruct m as [x|]; [intros H; exists x; auto | discriminate]. Qed.

Lemma Returns_mono {A} (m : checked A) (P Q : A -> Prop) :
  Returns m P -> (forall x, P x -> Q x) -> Returns m Q.
Proof. destruct m; cbn; auto. Qed.

Lemma Returns_seq {A B} (m : checked A) (k : A -> checked B) Q :
  Returns m (fun x => Returns (k x) Q) -> Returns (bind m k) Q.
Proof. intros H. eapply Returns_bind; [exact H|]. auto. Qed.

Lemma Returns_exists {A} (m : checked A) (Q : A -> Prop) :
  Returns m Q <-> exists x, m = Some x /\ Q x.
Proof.
  destruct m as [x|]; cbn; split.
  - intros H; exists x; auto.
  - intros (y & [= <-] & H); exact H.
  - contradiction.
  - intros (y & H & _); discriminate.
Qed.

Lemma Returns_repeat {A} (n : nat) (f : A -> checked A) (x : A) (I : nat -> A -> Prop) :
  I O x -> (forall i y, (i < n)%nat -> I i y -> Returns (f y) (I (S i))) ->
  Returns (repeat_checked n f x) (I n).
Proof.
  revert x I; induction n as [|n IH]; intros x I H0 Hstep; [exact H0|].
  cbn [repeat_checked]. eapply Returns_bind; [apply (Hstep O); [lia | exact H0]|].
  intros y Hy. apply (IH y (fun i => I (S i))); [exact Hy|].
  intros i z Hi Hz. apply Hstep; [lia | exact Hz].
Qed.

(** ** Interval arithmetic *)

Lemma bnd_const c : 0 <= c -> 0 <= c <= c.
Proof. lia. Qed.

Lemma bnd_add x y X Y : 0 <= x <= X -> 0 <= y <= Y -> 0 <= x + y <= X + Y.
Proof. lia. Qed.

Lemma bnd_mul x y X Y : 0 <= x <= X -> 0 <= y <= Y -> 0 <= x * y <= X * Y.
Proof. nia. Qed.

Lemma bnd_land_l x m M : 0 <= m <= M -> 0 <= Z.land x m <= M.
Proof.
  intros [Hm HM]. split; [apply Z.land_nonneg; auto|].
  assert (m = Z.lor (Z.land x m) (Z.ldiff m x)) as E.
  { apply Z.bits_inj'; intros i Hi.
    rewrite Z.lor_spec, Z.land_spec, Z.ldiff_spec.
    destruct (Z.testbit x i), (Z.testbit m i); reflexivity. }
  assert (Z.land (Z.land x m) (Z.ldiff m x) = 0) as D.
  { apply Z.bits_inj'; intros i Hi.
    rewrite !Z.land_spec, Z.ldiff_spec, Z.bits_0.
    destruct (Z.testbit x i), (Z.testbit m i); reflexivity. }
  assert (Z.land x m + Z.ldiff m x = m) as S.
  { rewrite E at 3. rewrite <- Z.add_lor_land, D. lia. }
  assert (0 <= Z.ldiff m x) by (apply Z.ldiff_nonneg; auto).
  lia.
Qed.

Lemma bnd_shiftr x k X : 0 <= k -> 0 <= x <= X -> 0 <= Z.shiftr x k <= Z.shiftr X k.
Proof.
  intros Hk [H0 HX]. rewrite !Z.shiftr_div_pow2 by exact Hk.
  pose proof (Z.pow_pos_nonneg 2 k ltac:(lia) Hk).
  split; [apply Z.div_pos; lia | apply Z.div_le_mono; lia].
Qed.

Lemma bnd_shiftl x k X : 0 <= k -> 0 <= x <= X -> 0 <= Z.shiftl x k <= Z.shiftl X k.
Proof.
  intros Hk [H0 HX]. rewrite !Z.shiftl_mul_pow2 by exact Hk.
  pose proof (Z.pow_pos_nonneg 2 k ltac:(lia) Hk). nia.
Qed.

Lemma bnd_lor x y X Y : 0 <= x <= X -> 0 <= y <= Y -> 0 <= Z.lor x y <= X + Y.
Proof.
  intros Hx Hy. assert (0 <= Z.lor x y) by (apply Z.lor_nonneg; lia).
  assert (0 <= Z.land x y) by (apply Z.land_nonneg; lia).
  pose proof (Z.add_lor_land x y). lia.
Qed.

Lemma bnd_lxor x y X Y : 0 <= x <= X -> 0 <= y <= Y -> 0 <= Z.lxor x y <= X + Y.
Proof.
  intros Hx Hy. split; [apply Z.lxor_nonneg; lia|].
  assert (Z.lxor x y + 2 * Z.land x y = x + y) by (rewrite Z.add_lxor_2land; reflexivity).
  assert (0 <= Z.land x y) by (apply Z.land_nonneg; lia). lia.
Qed.

Lemma bnd_b2z b : 0 <= Z.b2z b <= 1.
Proof. destruct b; cbn; lia. Qed.

Lemma mod_pow2_id k x X : 0 <= x <= X -> X < 2 ^ k -> x mod 2 ^ k = x.
Proof. intros. apply Z.mod_small; lia. Qed.

Lemma i32_small x : - 2 ^ 31 <= x < 2 ^ 31 -> i32 x = x.
Proof. intros H. unfold i32. rewrite Z.mod_small; lia. Qed.

Lemma i64_id x X : 0 <= x <= X -> X < 2 ^ 63 -> i64 x = x.
Proof. intros. unfold i64. rewrite Z.mod_small; lia. Qed.

Lemma shiftr_zero x n X : 0 <= n -> 0 <= x <= X -> X < 2 ^ n -> (Z.shiftr x n =? 0) = true.
Proof.
  intros Hn Hx HX. apply Z.eqb_eq. rewrite Z.shiftr_div_pow2 by exact Hn.
  apply Z.div_small; lia.
Qed.

(** A value is its high part, shifted, plus its low part. *)
Lemma split_bits x k X : 0 <= k -> 0 <= x <= X ->
  exists h l, Z.shiftr x k = h /\ Z.land x (Z.ones k) = l /\ l = x - h * 2 ^ k /\
    0 <= h <= Z.shiftr X k /\ 0 <= l <= Z.ones k.
Proof.
  intros Hk Hx. exists (Z.shiftr x k), (Z.land x (Z.ones k)).
  pose proof (Z.pow_pos_nonneg 2 k ltac:(lia) Hk) as HP.
  assert (0 <= Z.ones k) by (rewrite Z.ones_equiv; lia).
  split; [reflexivity|]. split; [reflexivity|].
  split; [|split; [apply bnd_shiftr; assumption | apply bnd_land_l; lia]].
  rewrite Z.shiftr_div_pow2, Z.land_ones by exact Hk.
  pose proof (Z.div_mod x (2 ^ k)). lia.
Qed.

(** Quotient and remainder of a nonnegative value, as linear facts. *)
Lemma div_mod_parts x k : 0 <= x -> 0 < k ->
  exists q r, x / k = q /\ x mod k = r /\ x = q * k + r /\ 0 <= q /\ 0 <= r < k.
Proof.
  intros Hx Hk. exists (x / k), (x mod k). split; [reflexivity|]. split; [reflexivity|].
  split; [pose proof (Z.div_mod x k); lia|]. split; [apply Z.div_pos; lia | apply Z.mod_pos_bound; lia].
Qed.

(** [lor] adds when the two sides have no common bits. *)
Lemma lor_shiftl_add x y k : 0 <= k -> 0 <= x < 2 ^ k -> Z.lor x (Z.shiftl y k) = x + y * 2 ^ k.
Proof.
  intros Hk Hx. rewrite <- Z.shiftl_mul_pow2 by exact Hk.
  assert (Z.land x (Z.shiftl y k) = 0) as D.
  { apply Z.bits_inj'; intros i Hi.
    rewrite Z.land_spec, Z.shiftl_spec, Z.bits_0 by exact Hi.
    destruct (Z.ltb_spec i k).
    - rewrite (Z.testbit_neg_r y) by lia. apply andb_false_r.
    - rewrite <- (Z.mod_small x (2 ^ k)) by exact Hx.
      rewrite Z.mod_pow2_bits_high by lia. reflexivity. }
  rewrite <- Z.add_lor_land, D. lia.
Qed.

Lemma shiftl_lor_add y k x Y X :
  0 <= k -> 0 <= y <= Y -> Y * 2 ^ k < 2 ^ 64 -> 0 <= x <= X -> X < 2 ^ k ->
  Z.lor (u64 (Z.shiftl y k)) x = y * 2 ^ k + x.
Proof.
  intros Hk Hy HY Hx HX. unfold u64. pose proof (Z.pow_pos_nonneg 2 k ltac:(lia) Hk).
  assert (0 <= y * 2 ^ k <= Y * 2 ^ k) by nia.
  rewrite Z.shiftl_mul_pow2, Z.mod_small, <- Z.shiftl_mul_pow2, Z.lor_comm by lia.
  rewrite lor_shiftl_add, ?Z.shiftl_mul_pow2 by lia. lia.
Qed.

Lemma shiftl_lor_add_i64 y k x Y X :
  0 <= k -> 0 <= y <= Y -> Y * 2 ^ k < 2 ^ 63 -> 0 <= x <= X -> X < 2 ^ k ->
  Z.lor (i64 (Z.shiftl y k)) x = y * 2 ^ k + x.
Proof.
  intros Hk Hy HY Hx HX. rewrite <- (shiftl_lor_add y k x Y X) by lia. f_equal.
  unfold u64. pose proof (Z.pow_pos_nonneg 2 k ltac:(lia) Hk).
  assert (0 <= Z.shiftl y k <= Y * 2 ^ k) as B by (rewrite Z.shiftl_mul_pow2 by exact Hk; nia).
  rewrite (i64_id _ _ B HY). symmetry. apply Z.mod_small. lia.
Qed.

(** All bits of a conjunction are set exactly when all bits of both sides are. *)
Lemma land_eq_ones k x y : 0 <= k -> 0 <= x <= Z.ones k -> 0 <= y <= Z.ones k ->
  Z.land x y = Z.ones k <-> x = Z.ones k /\ y = Z.ones k.
Proof.
  intros Hk Hx Hy. split.
  - intros E. pose proof (bnd_land_l x y y ltac:(lia)).
    pose proof (bnd_land_l y x x ltac:(lia)) as Hl. rewrite Z.land_comm in Hl. lia.
  - intros [-> ->]. apply Z.land_diag.
Qed.

Lemma lxor_ones k x y : 0 <= k -> 0 <= x <= Z.ones k -> 0 <= y <= Z.ones k ->
  0 <= Z.lxor x y <= Z.ones k.
Proof.
  intros Hk Hx Hy. assert (Z.lxor x y = Z.land (Z.lxor x y) (Z.ones k)) as E.
  { apply Z.bits_inj'; intros i Hi. rewrite Z.land_spec, Z.lxor_spec.
    destruct (Z.ltb_spec i k); [rewrite Z.ones_spec_low, andb_true_r by lia; reflexivity|].
    rewrite Z.ones_equiv in *.
    rewrite <- (Z.mod_small x (2 ^ k)), <- (Z.mod_small y (2 ^ k)), !Z.mod_pow2_bits_high by lia.
    reflexivity. }
  rewrite E. apply bnd_land_l. lia.
Qed.

Lemma lxor_eq_iff x c d : Z.lxor x c = d <-> x = Z.lxor d c.
Proof.
  split; [intros <- | intros ->];
    rewrite Z.lxor_assoc, Z.lxor_nilpotent, Z.lxor_0_r; reflexivity.
Qed.

(** A value below bit [k] joined with a shifted one, of which the word keeps the
    low part. *)
Lemma lor_shiftl_wrap w k x y : 0 <= k <= w -> 0 <= x < 2 ^ k ->
  Z.lor x ((Z.shiftl y k) mod 2 ^ w) = x + (y mod 2 ^ (w - k)) * 2 ^ k.
Proof.
  intros Hk Hx. rewrite Z.shiftl_mul_pow2 by lia.
  replace (2 ^ w) with (2 ^ (w - k) * 2 ^ k) by (rewrite <- Z.pow_add_r by lia; f_equal; lia).
  rewrite Z.mul_mod_distr_r by (apply Z.pow_nonzero; lia).
  rewrite <- Z.shiftl_mul_pow2, lor_shiftl_add, Z.shiftl_mul_pow2 by lia. reflexivity.
Qed.

(** Masked selection keeps one of its sides. *)
Lemma select_mask w flag x y : 0 <= w -> flag = 0 \/ flag = 1 ->
  0 <= x < 2 ^ w -> 0 <= y < 2 ^ w ->
  let mask0 := (flag + Z.lnot 0 mod 2 ^ w) mod 2 ^ w in
  let mask1 := Z.lnot mask0 mod 2 ^ w in
  Z.lor (Z.land x mask0) (Z.land y mask1) = if flag =? 0 then x else y.
Proof.
  intros Hw Hf Hx Hy. cbv zeta. pose proof (Z.pow_pos_nonneg 2 w ltac:(lia) Hw).
  assert (Z.lnot 0 mod 2 ^ w = Z.ones w) as E.
  { rewrite Z.ones_equiv. symmetry. apply (Z.mod_unique _ _ (-1)); [lia|]. change (Z.lnot 0) with (-1). lia. }
  rewrite E. assert (Z.ones w mod 2 ^ w = Z.ones w) as E1
    by (apply Z.mod_small; rewrite Z.ones_equiv; lia).
  assert (forall z, Z.lnot z mod 2 ^ w = (-1 - z) mod 2 ^ w) as El
    by (intros; f_equal; unfold Z.lnot; lia).
  destruct Hf as [->| ->]; cbn [Z.eqb].
  - rewrite Z.add_0_l, E1, El.
    replace ((-1 - Z.ones w) mod 2 ^ w) with 0
      by (symmetry; rewrite Z.ones_equiv; apply Z.mod_divide; [lia | exists (-1); lia]).
    rewrite Z.land_ones, Z.mod_small, Z.land_0_r, Z.lor_0_r by lia. reflexivity.
  - replace ((1 + Z.ones w) mod 2 ^ w) with 0
      by (symmetry; rewrite Z.ones_equiv; apply Z.mod_divide; [lia | exists 1; lia]).
    rewrite E, Z.land_0_r, Z.lor_0_l, Z.land_ones, Z.mod_small by lia. reflexivity.
Qed.

Lemma land_1_odd x : negb (Z.land x 1 =? 0) = Z.odd x.
Proof.
  change (Z.land x 1) with (Z.land x (Z.ones 1)). rewrite Z.land_ones by lia. change (2 ^ 1) with 2. rewrite Zmod_odd.
  destruct (Z.odd x); reflexivity.
Qed.

Lemma b2z_land3 a b c : Z.land (Z.land (Z.b2z a) (Z.b2z b)) (Z.b2z c) = Z.b2z (a && b && c).
Proof. destruct a, b, c; reflexivity. Qed.

(** ** Tactics

    [ub e] is a proof of [0 <= e <= B], with [B] computed from the bounds the
    context has for the variables of [e]. *)

Ltac is_Z_literal c :=
  lazymatch c with
  | Z0 => idtac
  | Zpos ?p => is_pos_literal p
  end
with is_pos_literal p :=
  lazymatch p with
  | xH => idtac
  | xO ?q => is_pos_literal q
  | xI ?q => is_pos_literal q
  end.

Ltac ub e :=
  lazymatch e with
  | ?x + ?y => let hx := ub x in let hy := ub y in constr:(bnd_add _ _ _ _ hx hy)
  | ?x * ?y => let hx := ub x in let hy := ub y in constr:(bnd_mul _ _ _ _ hx hy)
  | Z.land ?x ?m => let hm := ub m in constr:(bnd_land_l x _ _ hm)
  | Z.shiftr ?x ?k => let hx := ub x in constr:(bnd_shiftr x k _ ltac:(vm_compute; discriminate) hx)
  | Z.shiftl ?x ?k => let hx := ub x in constr:(bnd_shiftl x k _ ltac:(vm_compute; discriminate) hx)
  | Z.lor ?x ?y => let hx := ub x in let hy := ub y in constr:(bnd_lor _ _ _ _ hx hy)
  | Z.lxor ?x ?y => let hx := ub x in let hy := ub y in constr:(bnd_lxor _ _ _ _ hx hy)
  | Z.b2z ?b => constr:(bnd_b2z b)
  | u128 _ => fail
  | u64 _ => fail
  | u32 _ => fail
  | _ =>
      match goal with
      | H : 0 <= e <= _ |- _ => constr:(H)
      | _ => constr:(bnd_const e ltac:(vm_compute; discriminate))
      end
  end.

(** The bound of [e], as a hypothesis with a literal right-hand side. *)
Ltac have_bound e H :=
  let pf := ub e in
  lazymatch type of pf with
  | 0 <= ?e' <= ?B =>
      let B' := eval vm_compute in B in
      assert (0 <= e' <= B') as H by exact pf
  end.

Ltac bnd_lt := vm_compute; reflexivity.

(** Evaluates the literal powers and shifts of the goal. *)
Ltac eval_literals :=
  repeat match goal with
    | |- context [2 ^ ?k] =>
        is_Z_literal k; let v := eval vm_compute in (2 ^ k) in change (2 ^ k) with v
    | |- context [Z.shiftr ?c ?k] =>
        is_Z_literal c; is_Z_literal k;
        let v := eval vm_compute in (Z.shiftr c k) in change (Z.shiftr c k) with v
    | |- context [Z.shiftl ?c ?k] =>
        is_Z_literal c; is_Z_literal k;
        let v := eval vm_compute in (Z.shiftl c k) in change (Z.shiftl c k) with v
    end.


(** Names the low and the high part of [x] at bit [k] and replaces them in the
    goal. *)
Ltac split_at x k Hx :=
  let h := fresh "h" in let l := fresh "l" in
  let Eh := fresh in let El := fresh in let Ex := fresh "Ex" in
  let Bh := fresh "B" in let Bl := fresh "B" in
  lazymatch type of Hx with
  | 0 <= _ <= ?X =>
      let hb := eval vm_compute in (Z.shiftr X k) in
      let lb := eval vm_compute in (Z.ones k) in
      destruct (split_bits x k X ltac:(vm_compute; discriminate) Hx) as (h & l & Eh & El & Ex & Bh & Bl);
      change (0 <= h <= hb) in Bh; change (0 <= l <= lb) in Bl;
      change (Z.land x lb = l) in El;
      rewrite ?Eh, ?El; clear Eh El
  end.

(** After a variable is bound, splits it wherever the rest of the code reads its
    low or its high bits. *)
Ltac split_reads x Hx :=
  lazymatch goal with
  | |- context [Z.shiftr x ?k] => split_at x k Hx
  | |- context [Z.land x (Zpos ?m)] =>
      let k := eval vm_compute in (Z.log2 (Zpos m + 1)) in split_at x k Hx
  | _ => idtac
  end.

(** Removes the wraps inside the expression of the equation [E]. *)
Ltac strip_inner E :=
  repeat lazymatch type of E with
    | _ = ?f ?e =>
        match e with
        | context [u128 ?y] =>
            let H := fresh in have_bound y H; change (u128 y) with (y mod 2 ^ 128) in E;
            rewrite (mod_pow2_id 128 y _ H) in E by bnd_lt; clear H
        | context [u64 ?y] =>
            let H := fresh in have_bound y H; change (u64 y) with (y mod 2 ^ 64) in E;
            rewrite (mod_pow2_id 64 y _ H) in E by bnd_lt; clear H
        | context [u32 ?y] =>
            let H := fresh in have_bound y H; change (u32 y) with (y mod 2 ^ 32) in E;
            rewrite (mod_pow2_id 32 y _ H) in E by bnd_lt; clear H
        | context [Z.shiftl ?y ?k] => rewrite (Z.shiftl_mul_pow2 y k) in E by lia
        end
    end.

Ltac strip_wrap E Hx :=
  lazymatch type of E with _ = ?e =>
  lazymatch e with
  | i64 ?e' => have_bound e' Hx; rewrite (i64_id _ _ Hx) in E by bnd_lt
  | u128 ?e' => have_bound e' Hx; unfold u128 in E; rewrite (mod_pow2_id 128 _ _ Hx) in E by bnd_lt
  | u64 ?e' => have_bound e' Hx; unfold u64 in E; rewrite (mod_pow2_id 64 _ _ Hx) in E by bnd_lt
  | u32 ?e' => have_bound e' Hx; unfold u32 in E; rewrite (mod_pow2_id 32 _ _ Hx) in E by bnd_lt
  | u8 ?e' => have_bound e' Hx; unfold u8 in E; rewrite (mod_pow2_id 8 _ _ Hx) in E by bnd_lt
  | _ => have_bound e Hx
  end end.

(** One statement of straight-line C: an assertion is discharged from the known
    bounds, an assignment is shown not to wrap and leaves an equation and a
    bound. *)
Ltac c_step :=
  cbv beta;
  lazymatch goal with
  | |- Returns (bind (VERIFY_BITS ?x ?n) _) _ =>
      let H := fresh in
      have_bound x H; apply Returns_check; [exact (shiftr_zero x n _ ltac:(vm_compute; discriminate) H ltac:(bnd_lt)) | clear H]
  | |- Returns (bind (VERIFY_CHECK (?x <=? ?c)) _) _ =>
      let H := fresh in
      have_bound x H; apply Returns_check; [apply Z.leb_le; lia | clear H]
  | |- Returns (let x := ?e in @?K x) ?Q =>
      first
        [ is_Z_literal e; change (Returns (K e) Q); cbv beta; eval_literals
        | lazymatch e with
          | Z.lor (u64 (Z.shiftl ?y ?k)) ?x =>
              let Hy := ub y in let Hx := ub x in
              rewrite (shiftl_lor_add y k x _ _ ltac:(lia) Hy ltac:(bnd_lt) Hx ltac:(bnd_lt)); c_step
          | Z.lor (i64 (Z.shiftl ?y ?k)) ?x =>
              let Hy := ub y in let Hx := ub x in
              rewrite (shiftl_lor_add_i64 y k x _ _ ltac:(lia) Hy ltac:(bnd_lt) Hx ltac:(bnd_lt)); c_step
          end
        | refine (Returns_let e K Q _); cbv beta;
          let x := fresh "v" in let E := fresh "E" in let B := fresh "B" in
          intros x E; strip_inner E; strip_wrap E B; rewrite <- E in B;
          lazymatch type of E with
          | x = ?y => first [is_var y; clear B; subst x; try (match goal with H : 0 <= y <= _ |- _ => split_reads y H end)
                            | split_reads x B]
          end ]
  end.

Ltac c_steps := repeat c_step.

(** Splits the inputs the code reads by parts. *)
Ltac c_inputs :=
  repeat match goal with
    | H : 0 <= ?x <= _ |- context [Z.shiftr ?x _] => is_var x; progress (split_reads x H)
    end.

(** Replaces the quotients and remainders of the variables by literals in the goal
    by fresh variables with linear facts. *)
Ltac name_quotients :=
  let go x k :=
    is_var x;
    let q := fresh "q" in let r := fresh "r" in
    let Eq := fresh in let Er := fresh in let Ex := fresh in
    destruct (div_mod_parts x k ltac:(lia) ltac:(vm_compute; reflexivity)) as (q & r & Eq & Er & Ex & ? & ?);
    rewrite ?Eq, ?Er; clear Eq Er in
  repeat match goal with
    | |- context [?x / ?k] => go x k
    | |- context [?x mod ?k] => go x k
    end.

(** ** Digits *)

(** Equal numbers have equal low digits. *)
Lemma low_digit k a b x y : 0 <= a < k -> 0 <= b < k -> a + k * x = b + k * y -> a = b /\ x = y.
Proof. intros Ha Hb E. assert (x = y) as -> by (destruct (Z.lt_trichotomy x y) as [|[|]]; nia). lia. Qed.

(** ** Lists read by index *)

Lemma Forall2_of_nth {A B} (R : A -> B -> Prop) (l : list A) (l' : list B) d d' : length l = length l' ->
  (forall i, (i < length l)%nat -> R (nth i l d) (nth i l' d')) -> Forall2 R l l'.
Proof.
  revert l'. induction l as [|x l IH]; intros [|y l'] Hl H; cbn [length] in *; try discriminate; constructor.
  - exact (H O (Nat.lt_0_succ _)).
  - apply IH; [lia|]. intros i Hi. apply (H (S i)). lia.
Qed.
