(* ===== verification/Modulus.v ===== *)
(** * The two prime fields of secp256k1

    The field prime [p] and the group order [n], certificates that they are
    prime, and the rings [Fp] and [Fn] in which the values of field elements and
    scalars are read, with [ring] and [field] set up for them. *)

From Stdlib Require Import ZArith Lia List Bool Znumtheory.
From Stdlib Require Export Zmod Ring Field.
From S2P Require Import Prelude.
Import ListNotations.

#[local] Open Scope Z_scope.

(** ** Pocklington certificates *)

(** No divisor in [2 .. k+1]. *)
Fixpoint no_divisor_upto (N : Z) (d : Z) (k : nat) : bool :=
  match k with
  | O => true
  | S k' => negb (N mod d =? 0) && no_divisor_upto N (d + 1) k'
  end.

Definition trial_prime (N : Z) : bool :=
  (1 <? N) && no_divisor_upto N 2 (Z.to_nat (Z.sqrt N - 1)).

(** Barrett reduction: [mu] estimates the quotient, and an estimate that is off
    by more than one falls back on division. *)
Definition reduce (m mu k x : Z) : Z :=
  let r := x - Z.shiftr (Z.shiftr x (k - 1) * mu) (k + 9) * m in
  if (0 <=? r) && (r <? m) then r
  else if (m <=? r) && (r <? 2 * m) then r - m
  else x mod m.

Fixpoint pow_mod_pos (m mu k a : Z) (e : positive) : Z :=
  match e with
  | xH => a mod m
  | xO e' => reduce m mu k (Z.square (pow_mod_pos m mu k a e'))
  | xI e' => reduce m mu k (Z.square (pow_mod_pos m mu k a e') * a)
  end.

Definition pow_mod (m a e : Z) : Z :=
  let k := Z.log2 m + 1 in
  match e with
  | Zpos e' => pow_mod_pos m (2 ^ (2 * k + 8) / m) k a e'
  | _ => 0
  end.

(** The test at a prime factor [q] of [N - 1]: [a^((N-1)/q) - 1] is invertible
    modulo [N]. *)
Definition pocklington_test (N a q : Z) : bool :=
  ((N - 1) mod q =? 0) && (Z.gcd (pow_mod N a ((N - 1) / q) - 1) N =? 1).

Definition product (l : list Z) : Z := fold_right Z.mul 1 l.

Fixpoint distinct (l : list Z) : bool :=
  match l with
  | [] => true
  | x :: l' => negb (existsb (Z.eqb x) l') && distinct l'
  end.

Definition pocklington (N a : Z) (qs : list Z) : bool :=
  (1 <? N) && distinct qs && (N <? product qs * product qs) &&
  (pow_mod N a (N - 1) =? 1) && forallb (pocklington_test N a) qs.

Lemma reduce_mod m mu k x : 0 < m -> reduce m mu k x = x mod m.
Proof.
  intros Hm. unfold reduce. cbv zeta.
  set (q := Z.shiftr _ (k + 9)). clearbody q.
  destruct ((0 <=? _) && _) eqn:H1; [|destruct ((m <=? _) && _) eqn:H2; [|reflexivity]].
  - apply andb_prop in H1 as [?%Z.leb_le ?%Z.ltb_lt]. apply (Z.mod_unique _ _ q); lia.
  - apply andb_prop in H2 as [?%Z.leb_le ?%Z.ltb_lt]. apply (Z.mod_unique _ _ (q + 1)); lia.
Qed.

Lemma pow_mod_pos_spec m mu k a e : 0 < m -> pow_mod_pos m mu k a e = a ^ Zpos e mod m.
Proof.
  intros Hm. induction e as [e IH|e IH|]; cbn [pow_mod_pos].
  - rewrite reduce_mod, Z.square_spec, IH by exact Hm.
    rewrite Pos2Z.inj_xI, (Z.mul_comm 2), Z.pow_add_r, Z.pow_mul_r, Z.pow_1_r, Z.pow_2_r by lia.
    rewrite <- Zmult_mod_idemp_l, <- Zmult_mod, Zmult_mod_idemp_l. reflexivity.
  - rewrite reduce_mod, Z.square_spec, IH by exact Hm.
    rewrite Pos2Z.inj_xO, (Z.mul_comm 2), Z.pow_mul_r, Z.pow_2_r by lia.
    symmetry. apply Zmult_mod.
  - rewrite Z.pow_1_r. reflexivity.
Qed.

Lemma pow_mod_spec m a e : 0 < m -> 0 < e -> pow_mod m a e = a ^ e mod m.
Proof. intros Hm He. destruct e; [lia | apply pow_mod_pos_spec; exact Hm | lia]. Qed.

Lemma no_divisor_upto_spec N k : forall d, no_divisor_upto N d k = true ->
  forall e, d <= e < d + Z.of_nat k -> 0 < d -> ~ (e | N).
Proof.
  induction k as [|k IH]; intros d H e He Hd; [lia|].
  cbn in H. apply andb_prop in H as [H1 H2]. intros Hdiv.
  destruct (Z.eq_dec e d) as [->|Hne].
  - apply Z.mod_divide in Hdiv; [|lia]. rewrite Hdiv in H1. discriminate.
  - apply (IH (d + 1) H2 e); [lia | lia | exact Hdiv].
Qed.

(** A divisor or its cofactor is at most the square root. *)
Lemma prime_of_no_small N :
  1 < N -> (forall e, 1 < e -> e * e <= N -> ~ (e | N)) -> Z.prime N.
Proof.
  intros HN Hno. split; [exact HN|]. intros e He [f Hf].
  destruct (Z.le_gt_cases (e * e) N).
  - apply (Hno e); [lia | assumption | exists f; exact Hf].
  - apply (Hno f); [nia | nia | exists e; lia].
Qed.

Lemma trial_prime_spec N : trial_prime N = true -> Z.prime N.
Proof.
  intros H. apply andb_prop in H as [H1 H2]. apply Z.ltb_lt in H1.
  apply prime_of_no_small; [exact H1|]. intros e He Hee.
  apply Z.sqrt_le_square in Hee; [|lia|lia].
  eapply no_divisor_upto_spec; [exact H2 | | lia].
  rewrite Z2Nat.id; lia.
Qed.

(** Every number above one has a prime divisor. *)
Lemma prime_divisor_exists m : 1 < m -> exists r, Z.prime r /\ (r | m).
Proof.
  intros Hm. assert (0 <= m) as H0 by lia. revert Hm. pattern m.
  apply Zlt_0_ind; [|exact H0]. clear m H0. intros m IH _ Hm.
  destruct (prime_dec m) as [Hp|Hp].
  - exists m. split; [apply prime_alt; exact Hp | apply Z.divide_refl].
  - apply not_prime_divide in Hp as (d & Hd & Hdm); [|exact Hm].
    destruct (IH d) as (r & Hr & Hrd); [lia | lia |].
    exists r. split; [exact Hr | eapply Z.divide_trans; eassumption].
Qed.

(** A prime factor [q] of [N - 1] that passes the test divides [r - 1] for every
    prime factor [r] of [N]. *)
Lemma pocklington_step N a q r :
  1 < N -> Z.prime q -> pow_mod N a (N - 1) = 1 -> pocklington_test N a q = true ->
  Z.prime r -> (r | N) -> (q | r - 1).
Proof.
  intros HN Hq Hone H Hr HrN. apply andb_prop in H as [Hdiv Hg].
  apply Z.eqb_eq in Hdiv, Hg.
  pose proof (Z.prime_ge_2 _ Hq). pose proof (Z.prime_ge_2 _ Hr) as Hr2.
  set (e := (N - 1) / q) in *.
  assert (N - 1 = e * q) as He by (unfold e; pose proof (Z.div_mod (N - 1) q); lia).
  assert (0 < e) by nia.
  rewrite pow_mod_spec in Hone, Hg by lia.
  assert (forall x, (x mod N) mod r = x mod r) as Hmod.
  { intros x. apply Z.mod_mod_divide; exact HrN. }
  set (b := Zmod.of_Z r (a ^ e)).
  assert (Zmod.pow b q = Zmod.one) as Hbq.
  { apply Zmod.unsigned_inj. unfold b.
    rewrite Zmod.unsigned_pow_nonneg_r, Zmod.unsigned_of_Z, Z.mod_pow_l by lia.
    rewrite <- Z.pow_mul_r, <- He, <- Hmod, Hone by lia.
    rewrite Zmod.unsigned_1. reflexivity. }
  assert (b <> Zmod.one) as Hb1.
  { intros Hb. apply (f_equal Zmod.to_Z) in Hb. unfold b in Hb.
    rewrite Zmod.unsigned_of_Z, Zmod.unsigned_1, <- Hmod in Hb.
    assert (r | (a ^ e) mod N - 1) as Hd.
    { apply Z.mod_divide; [lia|]. rewrite Zminus_mod, Hb, Z.sub_diag. apply Z.mod_0_l; lia. }
    assert (r | 1) as H1 by (rewrite <- Hg; apply Z.gcd_greatest; assumption).
    apply Z.divide_1_r in H1. lia. }
  assert (b <> Zmod.zero) as Hb0.
  { intros Hb. rewrite Hb, Zmod.pow_0_l in Hbq by lia.
    symmetry in Hbq. revert Hbq. apply Zmod.one_neq_zero. lia. }
  pose proof (Zmod.fermat_nz b Hb0 Hr) as Hf.
  assert (Z.gcd (Zmod.to_Z b) r = 1) as Hcop.
  { rewrite Z.gcd_comm. apply Z.coprime_prime_small; [exact Hr|].
    pose proof (Zmod.unsigned_range b). apply Zmod.unsigned_nz in Hb0. lia. }
  destruct (Z.BoolSpec_divide q (r - 1)) as [Hd|Hd]; [exact Hd|]. exfalso. apply Hb1.
  pose proof (Z.coprime_prime_l q (r - 1) Hq Hd) as Hc.
  apply Z.Bezout_coprime_iff in Hc as (u & v & Huv).
  rewrite <- (Zmod.pow_1_r b), <- Huv.
  rewrite Zmod.pow_add_r_coprime by exact Hcop.
  rewrite (Z.mul_comm u), (Z.mul_comm v), !Zmod.pow_mul_r_coprime by exact Hcop.
  replace (r - 1) with (Z.pred r) by lia.
  rewrite Hbq, Hf, !Zmod.pow_1_l. apply Zmod.mul_1_l.
Qed.

Lemma divide_product qs m :
  distinct qs = true -> (forall q, In q qs -> Z.prime q) ->
  (forall q, In q qs -> (q | m)) -> (product qs | m).
Proof.
  induction qs as [|q qs IH]; intros Hd Hp Hm; [apply Z.divide_1_l|].
  cbn in Hd. apply andb_prop in Hd as [Hq Hd]. cbn [product fold_right].
  assert (Z.coprime q (product qs)) as Hc.
  { assert (forall x, In x qs -> Z.coprime q x) as Hx.
    { intros x Hx. apply Z.coprime_prime_l; [apply Hp; left; reflexivity|].
      intros Hdiv. apply Z.divide_prime_prime in Hdiv; [|apply Hp; left; reflexivity | apply Hp; right; exact Hx].
      subst x. apply negb_true_iff, not_true_iff_false in Hq. apply Hq.
      apply existsb_exists. exists q. split; [exact Hx | apply Z.eqb_refl]. }
    clear - Hx. induction qs as [|x qs IH]; [apply Z.coprime_1_r|].
    apply Z.coprime_mul_r; [apply Hx; left; reflexivity | apply IH].
    intros y Hy; apply Hx; right; exact Hy. }
  destruct (Hm q (or_introl eq_refl)) as [k Hk].
  assert (product qs | k) as Hpk.
  { apply (Z.gauss _ q); [|rewrite Z.gcd_comm; exact Hc].
    rewrite Z.mul_comm, <- Hk. apply IH; auto with datatypes. }
  rewrite Hk, (Z.mul_comm k q). apply Z.mul_divide_mono_l. exact Hpk.
Qed.

Lemma pocklington_spec N a qs :
  pocklington N a qs = true -> (forall q, In q qs -> Z.prime q) -> Z.prime N.
Proof.
  intros H Hqs. apply andb_prop in H as [H Ht]. apply andb_prop in H as [H Hone%Z.eqb_eq].
  apply andb_prop in H as [H Hbig].
  apply andb_prop in H as [HN Hd]. apply Z.ltb_lt in HN, Hbig.
  apply prime_of_no_small; [exact HN|]. intros e He Hee HeN.
  destruct (prime_divisor_exists e He) as (r & Hr & Hre).
  assert (product qs | r - 1) as Hdiv.
  { apply divide_product; [exact Hd | exact Hqs |]. intros q Hq.
    apply (pocklington_step N a q r HN (Hqs q Hq) Hone); [|exact Hr | eapply Z.divide_trans; eassumption].
    rewrite forallb_forall in Ht. apply Ht; exact Hq. }
  pose proof (Z.prime_ge_2 _ Hr).
  assert (r <= e) by (apply Z.divide_pos_le; [lia | exact Hre]).
  assert (product qs <= r - 1) by (apply Z.divide_pos_le; [lia | exact Hdiv]).
  assert (0 <= product qs).
  { clear - Hqs. induction qs as [|q qs IH]; cbn; [lia|].
    pose proof (Z.prime_ge_2 q (Hqs q (or_introl eq_refl))).
    assert (0 <= product qs) by (apply IH; auto with datatypes). unfold product in *. nia. }
  nia.
Qed.

(** ** The field prime and the group order *)

Definition p : Z := 2 ^ 256 - 2 ^ 32 - 977.
Definition n : Z := 0xFFFFFFFFFFFFFFFFFFFFFFFFFFFFFFFEBAAEDCE6AF48A03BBFD25E8CD0364141.

Ltac prime_by_trial := apply trial_prime_spec; vm_cast_no_check (eq_refl true).

Ltac prime_by_factors a qs :=
  apply (pocklington_spec _ a qs); [vm_cast_no_check (eq_refl true)|];
  cbn [In]; intros ? Hin; repeat destruct Hin as [<-|Hin]; [..|destruct Hin].

Lemma prime_q128 : Z.prime 255515944373312847190720520512484175977.
Proof. prime_by_factors 3 [107590001; 7240687; 96557]; prime_by_trial. Qed.

Lemma prime_q237 :
  Z.prime 205115282021455665897114700593932402728804164701536103180137503955397371.
Proof. prime_by_factors 2 [255515944373312847190720520512484175977]. exact prime_q128. Qed.

(** The field characteristic is prime. *)
Lemma p_prime : Z.prime p.
Proof.
  prime_by_factors 3 [205115282021455665897114700593932402728804164701536103180137503955397371].
  exact prime_q237.
Qed.

Lemma prime_q38 : Z.prime 297159362677.
Proof. prime_by_factors 2 [1627771]; prime_by_trial. Qed.

Lemma prime_q95 : Z.prime 29047611873442575647497758179.
Proof.
  prime_by_factors 2 [297159362677; 545358713].
  - exact prime_q38.
  - prime_by_trial.
Qed.

Lemma prime_q108 : Z.prime 341948486974166000522343609283189.
Proof. prime_by_factors 2 [29047611873442575647497758179]. exact prime_q95. Qed.

Lemma prime_q68 : Z.prime 174723607534414371449.
Proof. prime_by_factors 3 [44706919; 120233]; prime_by_trial. Qed.

(** The group order is prime. *)
Lemma n_prime : Z.prime n.
Proof.
  prime_by_factors 7 [341948486974166000522343609283189; 174723607534414371449].
  - exact prime_q108.
  - exact prime_q68.
Qed.

(** ** The rings of values *)

Abbreviation Fp := (Zmod p).
Abbreviation Fn := (Zmod n).

(** The residue of an integer. *)
Definition toFp (x : Z) : Fp := Zmod.of_Z p x.
Definition toFn (x : Z) : Fn := Zmod.of_Z n x.


(** Integer coefficients, compared by their residues. *)
Definition eq_mod (m x y : Z) : bool := x mod m =? y mod m.

Lemma residue_morph m :
  ring_morph (R := Zmod m) Zmod.zero Zmod.one Zmod.add Zmod.mul Zmod.sub Zmod.opp eq
             0 1 Z.add Z.mul Z.sub Z.opp (eq_mod m) (Zmod.of_Z m).
Proof.
  constructor; intros.
  - reflexivity.
  - reflexivity.
  - apply Zmod.of_Z_add.
  - apply Zmod.of_Z_sub.
  - apply Zmod.of_Z_mul.
  - apply Zmod.of_Z_opp.
  - apply Zmod.of_Z_inj, Z.eqb_eq. assumption.
Qed.

Lemma Fp_morph :
  ring_morph (R := Fp) Zmod.zero Zmod.one Zmod.add Zmod.mul Zmod.sub Zmod.opp eq
             0 1 Z.add Z.mul Z.sub Z.opp (eq_mod p) toFp.
Proof. exact (residue_morph p). Qed.

Lemma Fn_morph :
  ring_morph (R := Fn) Zmod.zero Zmod.one Zmod.add Zmod.mul Zmod.sub Zmod.opp eq
             0 1 Z.add Z.mul Z.sub Z.opp (eq_mod n) toFn.
Proof. exact (residue_morph n). Qed.

Lemma Fp_field_theory :
  @field_theory Fp Zmod.zero Zmod.one Zmod.add Zmod.mul Zmod.sub Zmod.opp Zmod.mdiv Zmod.inv eq.
Proof. exact (Zmod.field_theory p p_prime). Qed.

Lemma Fn_field_theory :
  @field_theory Fn Zmod.zero Zmod.one Zmod.add Zmod.mul Zmod.sub Zmod.opp Zmod.mdiv Zmod.inv eq.
Proof. exact (Zmod.field_theory n n_prime). Qed.

Ltac Fp_cst t :=
  lazymatch t with
  | @Zmod.zero _ => constr:(0)
  | @Zmod.one _ => constr:(1)
  | toFp ?c => let t := isZcst c in
      lazymatch t with true => c | _ => constr:(InitialRing.NotConstant) end
  | _ => constr:(InitialRing.NotConstant)
  end.

Ltac Fn_cst t :=
  lazymatch t with
  | @Zmod.zero _ => constr:(0)
  | @Zmod.one _ => constr:(1)
  | toFn ?c => let t := isZcst c in
      lazymatch t with true => c | _ => constr:(InitialRing.NotConstant) end
  | _ => constr:(InitialRing.NotConstant)
  end.

Add Field Fp_field : Fp_field_theory (morphism Fp_morph, constants [Fp_cst]).
Add Field Fn_field : Fn_field_theory (morphism Fn_morph, constants [Fn_cst]).

(** [toFp] is a ring morphism; the database pushes it to the leaves. *)
Lemma toFp_add x y : toFp (x + y) = (toFp x + toFp y)%Zmod.
Proof. apply Zmod.of_Z_add. Qed.
Lemma toFp_sub x y : toFp (x - y) = (toFp x - toFp y)%Zmod.
Proof. apply Zmod.of_Z_sub. Qed.
Lemma toFp_mul x y : toFp (x * y) = (toFp x * toFp y)%Zmod.
Proof. apply Zmod.of_Z_mul. Qed.
Lemma toFp_opp x : toFp (- x) = (- toFp x)%Zmod.
Proof. apply Zmod.of_Z_opp. Qed.
Lemma toFn_add x y : toFn (x + y) = (toFn x + toFn y)%Zmod.
Proof. apply Zmod.of_Z_add. Qed.
Lemma toFn_sub x y : toFn (x - y) = (toFn x - toFn y)%Zmod.
Proof. apply Zmod.of_Z_sub. Qed.
Lemma toFn_mul x y : toFn (x * y) = (toFn x * toFn y)%Zmod.
Proof. apply Zmod.of_Z_mul. Qed.
Lemma toFn_opp x : toFn (- x) = (- toFn x)%Zmod.
Proof. apply Zmod.of_Z_opp. Qed.

Create Rewrite HintDb residue.
#[export] Hint Rewrite toFp_add toFp_sub toFp_mul toFp_opp toFn_add toFn_sub toFn_mul toFn_opp : residue.

Lemma toFp_eq x y : toFp x = toFp y <-> x mod p = y mod p.
Proof. apply Zmod.of_Z_inj. Qed.
Lemma toFn_eq x y : toFn x = toFn y <-> x mod n = y mod n.
Proof. apply Zmod.of_Z_inj. Qed.

Lemma toFp_zero x : toFp x = Zmod.zero <-> x mod p = 0.
Proof. change Zmod.zero with (toFp 0). rewrite toFp_eq. reflexivity. Qed.

Lemma to_Z_toFp x : Zmod.to_Z (toFp x) = x mod p.
Proof. apply Zmod.to_Z_of_Z. Qed.
Lemma to_Z_toFn x : Zmod.to_Z (toFn x) = x mod n.
Proof. apply Zmod.to_Z_of_Z. Qed.

Lemma toFp_to_Z (v : Fp) : toFp (Zmod.to_Z v) = v.
Proof. apply Zmod.of_Z_to_Z. Qed.
Lemma toFn_to_Z (v : Fn) : toFn (Zmod.to_Z v) = v.
Proof. apply Zmod.of_Z_to_Z. Qed.

Lemma toFp_small x : 0 <= x < p -> Zmod.to_Z (toFp x) = x.
Proof. intros H. rewrite to_Z_toFp. apply Z.mod_small. exact H. Qed.
Lemma toFn_small x : 0 <= x < n -> Zmod.to_Z (toFn x) = x.
Proof. intros H. rewrite to_Z_toFn. apply Z.mod_small. exact H. Qed.

Lemma Fp_range (v : Fp) : 0 <= Zmod.to_Z v < p.
Proof. apply Zmod.unsigned_pos_bound. reflexivity. Qed.
Lemma Fn_range (v : Fn) : 0 <= Zmod.to_Z v < n.
Proof. apply Zmod.unsigned_pos_bound. reflexivity. Qed.

Lemma toFp_pow x e : 0 <= e -> toFp (x ^ e) = Zmod.pow (toFp x) e.
Proof. apply Zmod.of_Z_pow. Qed.

#[global] Opaque toFp toFn.


(** Closes an equation between residues of straight-line code: the equations the
    code left are substituted and both sides compared as polynomials over the
    residues. *)
Ltac residue_ring :=
  repeat match goal with H : 0 <= _ <= _ |- _ => clear H end;
  subst; autorewrite with residue; eval_literals; ring.

Lemma p_literal : p = 0xFFFFFFFFFFFFFFFFFFFFFFFFFFFFFFFFFFFFFFFFFFFFFFFFFFFFFFFEFFFFFC2F.
Proof. reflexivity. Qed.

(** The two integers below twice the prime that stand for zero. *)
Lemma zero_iff v q : 0 <= v < 2 * p -> (v + q * p) mod p = 0 <-> v = 0 \/ v = p.
Proof.
  intros Hv. pose proof p_literal as Hp. rewrite Z.mod_add by lia. split.
  - intros H. destruct (Z.lt_ge_cases v p) as [G|G]; [rewrite Z.mod_small in H by lia; lia|].
    rewrite <- (Z.mod_add v (-1)), Z.mod_small in H by lia. lia.
  - intros [->| ->]; [apply Z.mod_0_l | apply Z.mod_same]; lia.
Qed.

(** The last pass of a reduction: adding [2^256 - p] carries past bit 256 exactly
    when the value had reached the prime. *)
Lemma final_carry V W h x :
  0 <= W < 2 ^ 256 -> W + h * 2 ^ 256 = V + x * 0x1000003D1 ->
  x = Z.b2z (p <=? V) -> 0 <= V < 2 * p -> h = x /\ W = V - x * p.
Proof.
  pose proof p_literal as Hp. intros HW E Hx HV. rewrite Hp in *.
  destruct (Z.leb_spec 0xFFFFFFFFFFFFFFFFFFFFFFFFFFFFFFFFFFFFFFFFFFFFFFFFFFFFFFFEFFFFFC2F V); cbn [Z.b2z] in Hx; lia.
Qed.

(** ** Field facts *)

Lemma Fp_mul_zero (x y : Fp) : (x * y)%Zmod = Zmod.zero -> x = Zmod.zero \/ y = Zmod.zero.
Proof.
  intros H. destruct (Zmod.eqb_spec x Zmod.zero) as [|Hx]; [left; assumption|]. right.
  rewrite <- (Zmod.mul_1_l y), <- (Zmod.mul_inv_same_l_prime x p_prime Hx), <- Zmod.mul_assoc, H.
  apply Zmod.mul_0_r.
Qed.

Lemma Fp_mul_nonzero (x y : Fp) : x <> Zmod.zero -> y <> Zmod.zero -> (x * y)%Zmod <> Zmod.zero.
Proof. intros Hx Hy H. apply Fp_mul_zero in H as [H|H]; contradiction. Qed.

Lemma toFp_nonzero c : (c mod p =? 0) = false -> toFp c <> Zmod.zero.
Proof. intros H E. apply toFp_zero in E. rewrite E in H. discriminate. Qed.
