(* ===== verification/Bytes.v ===== *)
(** * Byte strings and digit-by-digit packing

    Big-endian byte strings, and the loop by which the field representations
    copy a byte string into limbs and back, a few bits at a time. *)

From Stdlib Require Import ZArith Lia List Bool.
From S2P Require Import Prelude.
Import ListNotations.

#[local] Open Scope Z_scope.

(** ** Big-endian values *)

Definition is_byte (b : Z) : Prop := 0 <= b < 256.

(** A buffer of [k] bytes. *)
Definition bytes_of_len (k : nat) (l : list Z) : Prop := length l = k /\ Forall is_byte l.

Definition be_value (l : list Z) : Z := fold_left (fun acc b => acc * 256 + b) l 0.

Fixpoint be_bytes (k : nat) (v : Z) : list Z :=
  match k with
  | O => []
  | S k' => be_bytes k' (v / 256) ++ [v mod 256]
  end.

(** The number the eight words of a constant write. *)
Definition words_value (w7 w6 w5 w4 w3 w2 w1 w0 : Z) : Z :=
  w0 + w1 * 2 ^ 32 + w2 * 2 ^ 64 + w3 * 2 ^ 96 + w4 * 2 ^ 128 + w5 * 2 ^ 160 + w6 * 2 ^ 192 + w7 * 2 ^ 224.

Definition is_word (w : Z) : Prop := 0 <= w < 2 ^ 32.

(** ** Arrays *)

(** [l[i] = x] on an array; C leaves an index out of range undefined, and no
    caller uses one. *)
Fixpoint upd {A} (l : list A) (i : nat) (x : A) : list A :=
  match l, i with
  | [], _ => []
  | _ :: l', O => x :: l'
  | y :: l', S i' => y :: upd l' i' x
  end.

(** The C result of a three-way comparison. *)
Definition sign_of (c : comparison) : Z := match c with Lt => -1 | Eq => 0 | Gt => 1 end.

(** The comparison loop over limbs, from the top: the first one that differs
    decides. *)
Fixpoint cmp_limbs (a b : list Z) : Z :=
  match a, b with
  | x :: a', y :: b' => if y <? x then 1 else if x <? y then -1 else cmp_limbs a' b'
  | _, _ => 0
  end.

(** ** Packing loops *)

(** [r[limb] |= digit << shift], for the digit of [s] bits that starts at bit [q]
    of the number, with limbs of [w] bits stored in integers that wrap by [wrap]. *)
Definition pack_digit (wrap : Z -> Z) (w q : nat) (digit : Z) (r : list Z) : list Z :=
  let limb := (q / w)%nat in
  let shift := (q mod w)%nat in
  upd r limb (Z.lor (nth limb r 0) (wrap (Z.shiftl digit (Z.of_nat shift)))).

(** [(n[limb] >> shift) & mask], for the digit that starts at bit [q]. *)
Definition unpack_digit (w q : nat) (mask : Z) (l : list Z) : Z :=
  let limb := (q / w)%nat in
  let shift := (q mod w)%nat in
  Z.land (Z.shiftr (nth limb l 0) (Z.of_nat shift)) mask.

(** [for (i=0; i<32; i++) for (j=0; j<8/s; j++) r->n[limb] |= ...]: a 32-byte
    string into limbs of [w] bits, [s] bits at a time. *)
Definition pack_b32 (wrap : Z -> Z) (w s : nat) (mask : Z) (r : list Z) (a : list Z) : list Z :=
  fold_left (fun r i =>
    fold_left (fun r j =>
      pack_digit wrap w (8 * i + s * j)
        (Z.land (Z.shiftr (nth (31 - i) a 0) (Z.of_nat (s * j))) mask) r)
      (seq 0 (8 / s)) r)
    (seq 0 32) r.

(** [for (i=0; i<32; i++) { c = 0; for (j=0; j<8/s; j++) c |= ...; r[31-i] = c; }]:
    limbs of [w] bits into a 32-byte string. *)
Definition unpack_b32 (w s : nat) (mask : Z) (l : list Z) : list Z :=
  fold_left (fun r i =>
    let c := fold_left (fun c j =>
      Z.lor c (Z.shiftl (unpack_digit w (8 * i + s * j) mask l) (Z.of_nat (s * j))))
      (seq 0 (8 / s)) 0 in
    upd r (31 - i) (u8 c))
    (seq 0 32) (repeat 0 32).

(** The [k] limbs of [w] bits of a number. *)
Definition limbs_of (w k : nat) (v : Z) : list Z :=
  map (fun i => (v / 2 ^ Z.of_nat (w * i)) mod 2 ^ Z.of_nat w) (seq 0 k).

(** ** Lemmas *)

Lemma words_value_nonneg w7 w6 w5 w4 w3 w2 w1 w0 :
  is_word w7 -> is_word w6 -> is_word w5 -> is_word w4 -> is_word w3 -> is_word w2 -> is_word w1 -> is_word w0 ->
  0 <= words_value w7 w6 w5 w4 w3 w2 w1 w0.
Proof. unfold is_word, words_value. lia. Qed.

Lemma length_be_bytes k v : length (be_bytes k v) = k.
Proof. revert v; induction k as [|k IH]; intros v; cbn; [reflexivity|]. rewrite length_app, IH. cbn. lia. Qed.

Lemma be_bytes_wf k v : bytes_of_len k (be_bytes k v).
Proof.
  split; [apply length_be_bytes|]. revert v; induction k as [|k IH]; intros v; cbn; [constructor|].
  apply Forall_app; split; [apply IH|]. constructor; [|constructor].
  red. apply Z.mod_pos_bound; lia.
Qed.

Lemma be_value_snoc l b : be_value (l ++ [b]) = be_value l * 256 + b.
Proof. unfold be_value. rewrite fold_left_app. reflexivity. Qed.

Lemma be_value_range k l : bytes_of_len k l -> 0 <= be_value l < 256 ^ Z.of_nat k.
Proof.
  intros [<- H]. induction l as [|b l IH] using rev_ind; [cbn; lia|].
  apply Forall_app in H as [Hl Hb]. inversion Hb as [|? ? Hb' _]; subst. red in Hb'.
  rewrite be_value_snoc, length_app, Nat.add_1_r, Nat2Z.inj_succ, Z.pow_succ_r by lia.
  specialize (IH Hl). lia.
Qed.

Lemma be_value_bytes k v : 0 <= v < 256 ^ Z.of_nat k -> be_value (be_bytes k v) = v.
Proof.
  revert v; induction k as [|k IH]; intros v Hv; [cbn in *; lia|].
  rewrite Nat2Z.inj_succ, Z.pow_succ_r in Hv by lia.
  cbn [be_bytes]. rewrite be_value_snoc, IH.
  - pose proof (Z.div_mod v 256). lia.
  - split; [apply Z.div_pos; lia | apply Z.div_lt_upper_bound; lia].
Qed.

Lemma be_bytes_value k l : bytes_of_len k l -> be_bytes k (be_value l) = l.
Proof.
  intros [<- H]. induction l as [|b l IH] using rev_ind; [reflexivity|].
  apply Forall_app in H as [Hl Hb]. inversion Hb as [|? ? Hb' _]; subst. red in Hb'.
  rewrite be_value_snoc, length_app, Nat.add_1_r. cbn [be_bytes].
  rewrite Z.div_add_l, Z.div_small, Z.add_0_r, IH by (lia || assumption).
  rewrite Z.add_comm, Z.mod_add, Z.mod_small by lia. reflexivity.
Qed.

Lemma nth_be_bytes k v i : (i < k)%nat ->
  nth (k - 1 - i) (be_bytes k v) 0 = (v / 256 ^ Z.of_nat i) mod 256.
Proof.
  revert v i; induction k as [|k IH]; intros v i Hi; [lia|].
  cbn [be_bytes]. destruct i as [|i].
  - rewrite app_nth2; rewrite length_be_bytes; [|lia].
    replace (S k - 1 - 0 - k)%nat with 0%nat by lia. cbn. rewrite Z.div_1_r. reflexivity.
  - rewrite app_nth1 by (rewrite length_be_bytes; lia).
    replace (S k - 1 - S i)%nat with (k - 1 - i)%nat by lia. rewrite IH by lia.
    rewrite Nat2Z.inj_succ, Z.pow_succ_r, Z.div_div by (try apply Z.pow_pos_nonneg; lia).
    reflexivity.
Qed.

Lemma length_upd {A} (l : list A) i x : length (upd l i x) = length l.
Proof. revert i; induction l as [|y l IH]; intros [|i]; cbn; congruence. Qed.

Lemma nth_upd {A} (l : list A) i j x d : (i < length l)%nat ->
  nth j (upd l i x) d = if (j =? i)%nat then x else nth j l d.
Proof.
  revert i j; induction l as [|y l IH]; intros i j Hi; cbn in Hi; [lia|].
  destruct i as [|i], j as [|j]; cbn; try reflexivity. apply IH. lia.
Qed.

Lemma length_limbs_of w k v : length (limbs_of w k v) = k.
Proof. unfold limbs_of. rewrite length_map, length_seq. reflexivity. Qed.

Lemma nth_limbs_of w k v i : (i < k)%nat ->
  nth i (limbs_of w k v) 0 = (v / 2 ^ Z.of_nat (w * i)) mod 2 ^ Z.of_nat w.
Proof.
  intros Hi. unfold limbs_of. set (f := fun i => (v / 2 ^ Z.of_nat (w * i)) mod 2 ^ Z.of_nat w).
  rewrite (nth_indep _ 0 (f 0%nat)) by (rewrite length_map, length_seq; exact Hi).
  rewrite (map_nth f), seq_nth by exact Hi. reflexivity.
Qed.

Lemma pow2_pos k : 0 < 2 ^ Z.of_nat k.
Proof. apply Z.pow_pos_nonneg; lia. Qed.

Lemma pow2_add a b : 2 ^ Z.of_nat (a + b) = 2 ^ Z.of_nat a * 2 ^ Z.of_nat b.
Proof. rewrite Nat2Z.inj_add, Z.pow_add_r by lia. reflexivity. Qed.

Section Digits.
Context (s : nat).

(** The number whose digits of [s] bits are [digit 0], [digit 1], ... *)
Fixpoint digits_value (digit : nat -> Z) (m : nat) : Z :=
  match m with
  | O => 0
  | S m' => digits_value digit m' + digit m' * 2 ^ Z.of_nat (s * m')
  end.

Lemma digits_value_range digit m :
  (forall t, (t < m)%nat -> 0 <= digit t < 2 ^ Z.of_nat s) ->
  0 <= digits_value digit m < 2 ^ Z.of_nat (s * m).
Proof.
  induction m as [|m IH]; intros Hd; [cbn; rewrite Nat.mul_0_r; cbn; lia|].
  cbn [digits_value]. specialize (IH (fun t Ht => Hd t ltac:(lia))).
  specialize (Hd m ltac:(lia)). replace (s * S m)%nat with (s * m + s)%nat by lia.
  rewrite pow2_add. pose proof (pow2_pos (s * m)). nia.
Qed.

Lemma lor_digits digit m :
  (forall t, (t < m)%nat -> 0 <= digit t < 2 ^ Z.of_nat s) ->
  fold_left (fun c j => Z.lor c (Z.shiftl (digit j) (Z.of_nat (s * j)))) (seq 0 m) 0
    = digits_value digit m.
Proof.
  induction m as [|m IH]; intros Hd; [reflexivity|].
  rewrite seq_S, fold_left_app, IH by (intros; apply Hd; lia).
  cbn [fold_left Nat.add digits_value]. apply lor_shiftl_add; [lia|].
  apply digits_value_range. intros; apply Hd; lia.
Qed.

(** The digits of a number. *)
Lemma digits_value_mod v m :
  digits_value (fun t => (v / 2 ^ Z.of_nat (s * t)) mod 2 ^ Z.of_nat s) m
    = v mod 2 ^ Z.of_nat (s * m).
Proof.
  induction m as [|m IH]; [cbn; rewrite Nat.mul_0_r; cbn; rewrite Z.mod_1_r; reflexivity|].
  cbn [digits_value]. rewrite IH. replace (s * S m)%nat with (s * m + s)%nat by lia.
  pose proof (pow2_pos (s * m)). pose proof (pow2_pos s).
  rewrite pow2_add, Z.rem_mul_r by lia. ring.
Qed.

Lemma digits_value_ext f g m :
  (forall t, (t < m)%nat -> f t = g t) -> digits_value f m = digits_value g m.
Proof.
  induction m as [|m IH]; intros H; [reflexivity|].
  cbn [digits_value]. rewrite IH, H by (intros; try apply H; lia). reflexivity.
Qed.
(** The digits of a number given by its digits. *)
Lemma digits_value_nth digit m i :
  (forall t, (t < m)%nat -> 0 <= digit t < 2 ^ Z.of_nat s) -> (i < m)%nat ->
  (digits_value digit m / 2 ^ Z.of_nat (s * i)) mod 2 ^ Z.of_nat s = digit i.
Proof.
  intros Hd Hi. induction m as [|m IH]; [lia|]. cbn [digits_value].
  pose proof (pow2_pos (s * i)). pose proof (pow2_pos s).
  destruct (Nat.eq_dec i m) as [->|Hne].
  - rewrite Z.div_add, Z.div_small, Z.add_0_l by (try apply digits_value_range; intros; try apply Hd; lia).
    apply Z.mod_small, Hd. lia.
  - rewrite <- IH by (intros; try apply Hd; lia).
    assert (exists e, (s * m = s * i + (s + e))%nat) as [e He] by (exists (s * m - s * i - s)%nat; nia).
    rewrite He, !pow2_add.
    replace (digit m * _) with (digit m * 2 ^ Z.of_nat e * 2 ^ Z.of_nat s * 2 ^ Z.of_nat (s * i)) by ring.
    rewrite Z.div_add, Z.mod_add by lia. reflexivity.
Qed.
End Digits.

Lemma limbs_of_digits w k l : length l = k ->
  (forall t, (t < k)%nat -> 0 <= nth t l 0 < 2 ^ Z.of_nat w) ->
  limbs_of w k (digits_value w (fun t => nth t l 0) k) = l.
Proof.
  intros Hlen Hl. apply (nth_ext _ _ 0 0); [rewrite length_limbs_of; symmetry; exact Hlen|].
  intros i Hi. rewrite length_limbs_of in Hi. rewrite nth_limbs_of by exact Hi.
  apply (digits_value_nth w (fun t => nth t l 0)); assumption.
Qed.

Lemma digits_limbs_of w k v :
  digits_value w (fun t => nth t (limbs_of w k v) 0) k = v mod 2 ^ Z.of_nat (w * k).
Proof.
  rewrite <- digits_value_mod. apply digits_value_ext. intros t Ht. apply nth_limbs_of. exact Ht.
Qed.

Section Packing.
Context (w s : nat).
Hypothesis s_pos : (0 < s)%nat.
Hypothesis s_divides : (w mod s = 0)%nat.
Hypothesis w_pos : (0 < w)%nat.

(** A digit does not cross a limb boundary. *)
Lemma digit_in_limb t : ((s * t) mod w + s <= w)%nat.
Proof.
  destruct (Nat.eq_dec w 0) as [->|]; [lia|].
  pose proof (Nat.div_mod_eq w s) as Hw. rewrite s_divides, Nat.add_0_r in Hw.
  set (c := (w / s)%nat) in *. assert (c <> 0)%nat by nia.
  rewrite Hw, Nat.Div0.mul_mod_distr_l.
  pose proof (Nat.mod_upper_bound t c ltac:(lia)). nia.
Qed.

Lemma unpack_limbs k v t : (s * t < w * k)%nat ->
  unpack_digit w (s * t) (Z.ones (Z.of_nat s)) (limbs_of w k v)
    = (v / 2 ^ Z.of_nat (s * t)) mod 2 ^ Z.of_nat s.
Proof.
  intros Hk. unfold unpack_digit.
  pose proof (digit_in_limb t) as Hin. pose proof (Nat.div_mod_eq (s * t) w) as Hq.
  set (limb := (s * t / w)%nat) in *. set (shift := ((s * t) mod w)%nat) in *.
  rewrite nth_limbs_of by nia. rewrite Z.shiftr_div_pow2, Z.land_ones by lia.
  rewrite Hq, pow2_add. pose proof (pow2_pos (w * limb)). pose proof (pow2_pos shift).
  rewrite <- Z.div_div by lia.
  set (x := v / 2 ^ Z.of_nat (w * limb)).
  replace w with (shift + (w - shift))%nat at 1 by lia. rewrite pow2_add.
  rewrite Z.rem_mul_r by (pose proof (pow2_pos (w - shift)); lia).
  rewrite Z.mul_comm, Z.div_add, Z.div_small, Z.add_0_l by (try apply Z.mod_pos_bound; lia).
  apply Z.mod_mod_divide. exists (2 ^ Z.of_nat (w - shift - s)).
  rewrite <- pow2_add. f_equal. lia.
Qed.
Context (wrap : Z -> Z).
Hypothesis wrap_id : forall x, 0 <= x < 2 ^ Z.of_nat w -> wrap x = x.

Lemma pack_step k t v digit :
  0 <= v < 2 ^ Z.of_nat (s * t) -> 0 <= digit < 2 ^ Z.of_nat s -> (s * t < w * k)%nat ->
  pack_digit wrap w (s * t) digit (limbs_of w k v)
    = limbs_of w k (v + digit * 2 ^ Z.of_nat (s * t)).
Proof.
  intros Hv Hd Hk. unfold pack_digit.
  pose proof (digit_in_limb t) as Hin.
  pose proof (Nat.div_mod_eq (s * t) w) as Hq.
  set (limb := (s * t / w)%nat) in *. set (shift := ((s * t) mod w)%nat) in *.
  assert (limb < k)%nat as Hlimb by nia.
  assert (2 ^ Z.of_nat (s * t) = 2 ^ Z.of_nat (w * limb) * 2 ^ Z.of_nat shift) as Hpow
    by (rewrite Hq, pow2_add; reflexivity).
  pose proof (pow2_pos (w * limb)) as P1. pose proof (pow2_pos shift) as P2.
  assert (2 ^ Z.of_nat shift * 2 ^ Z.of_nat s <= 2 ^ Z.of_nat w) as Hfit.
  { rewrite <- pow2_add. apply Z.pow_le_mono_r; lia. }
  pose proof (pow2_pos s) as P3.
  apply (nth_ext _ _ 0 0); [rewrite length_upd, !length_limbs_of; reflexivity|].
  intros i Hi. rewrite length_upd, length_limbs_of in Hi.
  rewrite nth_upd by (rewrite length_limbs_of; exact Hlimb).
  rewrite !nth_limbs_of by assumption.
  destruct (Nat.eqb_spec i limb) as [->|Hne].
  - assert (0 <= v / 2 ^ Z.of_nat (w * limb) < 2 ^ Z.of_nat shift) as Hlow.
    { split; [apply Z.div_pos; lia | apply Z.div_lt_upper_bound; lia]. }
    rewrite (Z.mod_small (v / _)) by nia.
    rewrite wrap_id by (rewrite Z.shiftl_mul_pow2 by lia; nia).
    rewrite lor_shiftl_add by lia. rewrite Hpow.
    replace (v + digit * (2 ^ Z.of_nat (w * limb) * 2 ^ Z.of_nat shift))
      with (digit * 2 ^ Z.of_nat shift * 2 ^ Z.of_nat (w * limb) + v) by ring.
    rewrite Z.div_add_l by lia. rewrite Z.mod_small by nia. ring.
  - destruct (Nat.lt_ge_cases i limb) as [Hlt|Hge].
    + assert (exists e, (s * t = w * i + w + e)%nat) as [e He] by (exists (s * t - w * i - w)%nat; nia).
      rewrite He, !pow2_add.
      replace (v + digit * (2 ^ Z.of_nat (w * i) * 2 ^ Z.of_nat w * 2 ^ Z.of_nat e))
        with (digit * 2 ^ Z.of_nat e * 2 ^ Z.of_nat w * 2 ^ Z.of_nat (w * i) + v) by ring.
      rewrite Z.div_add_l by (pose proof (pow2_pos (w * i)); lia).
      rewrite Z.add_comm, Z.mod_add by (pose proof (pow2_pos w); lia). reflexivity.
    + assert (2 ^ Z.of_nat (s * t) * 2 ^ Z.of_nat s <= 2 ^ Z.of_nat (w * i)) as Hbig.
      { rewrite <- pow2_add. apply Z.pow_le_mono_r; [lia|]. nia. }
      rewrite !Z.div_small; [reflexivity | nia | nia].
Qed.

Lemma pack_loop k digit m :
  (forall t, (t < m)%nat -> 0 <= digit t < 2 ^ Z.of_nat s) -> (s * m <= w * k)%nat ->
  fold_left (fun r t => pack_digit wrap w (s * t) (digit t) r) (seq 0 m) (repeat 0 k)
    = limbs_of w k (digits_value s digit m).
Proof.
  induction m as [|m IH]; intros Hd Hk.
  - cbn. apply (nth_ext _ _ 0 0); [rewrite repeat_length, length_limbs_of; reflexivity|].
    intros i Hi. rewrite repeat_length in Hi. rewrite nth_limbs_of, nth_repeat by exact Hi.
    rewrite Z.div_0_l, Z.mod_0_l; [reflexivity | pose proof (pow2_pos w); lia|].
    pose proof (pow2_pos (w * i)). lia.
  - rewrite seq_S, fold_left_app, IH by (intros; (apply Hd || nia); lia).
    cbn [fold_left Nat.add digits_value]. apply pack_step; [|apply Hd; lia | nia].
    apply digits_value_range. intros; apply Hd; lia.
Qed.

End Packing.

Lemma nested_loop {A} (f : A -> nat -> A) per m r :
  fold_left (fun r i => fold_left (fun r j => f r (i * per + j)%nat) (seq 0 per) r) (seq 0 m) r
    = fold_left f (seq 0 (m * per)) r.
Proof.
  induction m as [|m IH]; [reflexivity|].
  rewrite seq_S, fold_left_app, IH. cbn [fold_left Nat.add Nat.mul].
  rewrite Nat.add_comm, seq_app, fold_left_app. cbn [Nat.add].
  set (x := fold_left f _ _). clearbody x. clear IH.
  assert (forall st, fold_left (fun r j => f r (m * per + j)%nat) (seq st per) x
                     = fold_left f (seq (m * per + st) per) x) as H.
  { generalize per at 2 4. intros k. revert x. induction k as [|k IH]; intros x st; [reflexivity|].
    cbn [seq fold_left]. rewrite IH, Nat.add_succ_r. reflexivity. }
  rewrite H, Nat.add_0_r. reflexivity.
Qed.

Lemma fold_left_ext_in {A B} (f g : A -> B -> A) l r :
  (forall x y, In y l -> f x y = g x y) -> fold_left f l r = fold_left g l r.
Proof.
  revert r; induction l as [|y l IH]; intros r H; [reflexivity|].
  cbn. rewrite H by (left; reflexivity). apply IH. intros; apply H; right; assumption.
Qed.

Lemma fold_upd_rev m (f : nat -> Z) r : length r = m ->
  forall k, (k <= m)%nat ->
  let r' := fold_left (fun r i => upd r (m - 1 - i) (f i)) (seq 0 k) r in
  length r' = m /\ forall i, (i < m)%nat ->
    nth (m - 1 - i) r' 0 = if (i <? k)%nat then f i else nth (m - 1 - i) r 0.
Proof.
  intros Hr. induction k as [|k IH]; intros Hk; cbv zeta.
  - split; [exact Hr|]. intros i Hi. reflexivity.
  - rewrite seq_S, fold_left_app. cbn [fold_left Nat.add].
    destruct (IH ltac:(lia)) as [Hl Hn]. clear IH.
    rewrite length_upd. split; [exact Hl|]. intros i Hi.
    rewrite nth_upd by lia. destruct (Nat.eqb_spec (m - 1 - i) (m - 1 - k)).
    + replace i with k by lia. destruct (Nat.ltb_spec k (S k)); [reflexivity | lia].
    + rewrite Hn by exact Hi.
      destruct (Nat.ltb_spec i k), (Nat.ltb_spec i (S k)); (reflexivity || lia).
Qed.

Section Packing32.
Context (wrap : Z -> Z) (w s : nat).
Hypothesis s_pos : (0 < s)%nat.
Hypothesis s_byte : (8 mod s = 0)%nat.
Hypothesis s_divides : (w mod s = 0)%nat.
Hypothesis w_pos : (0 < w)%nat.
Hypothesis wrap_id : forall x, 0 <= x < 2 ^ Z.of_nat w -> wrap x = x.

Let per := (8 / s)%nat.

Lemma per_s : (s * per = 8)%nat.
Proof. unfold per. pose proof (Nat.div_mod_eq 8 s). lia. Qed.

Lemma digit_of_byte v i j : (j < per)%nat ->
  ((v / 256 ^ Z.of_nat i) mod 256 / 2 ^ Z.of_nat (s * j)) mod 2 ^ Z.of_nat s
    = (v / 2 ^ Z.of_nat (s * (i * per + j))) mod 2 ^ Z.of_nat s.
Proof.
  intros Hj. pose proof per_s as Hp.
  replace (s * (i * per + j))%nat with (8 * i + s * j)%nat by nia.
  rewrite pow2_add, <- Z.div_div by (pose proof (pow2_pos (8 * i)); pose proof (pow2_pos (s * j)); lia).
  replace (256 ^ Z.of_nat i) with (2 ^ Z.of_nat (8 * i))
    by (rewrite Nat2Z.inj_mul, Z.pow_mul_r by lia; reflexivity).
  set (x := v / _). assert (s * j + s <= 8)%nat by nia.
  replace 256 with (2 ^ Z.of_nat (s * j) * 2 ^ Z.of_nat (8 - s * j))
    by (rewrite <- pow2_add; replace (s * j + (8 - s * j))%nat with 8%nat by lia; reflexivity).
  pose proof (pow2_pos (s * j)). pose proof (pow2_pos (8 - s * j)).
  rewrite Z.rem_mul_r, Z.mul_comm, Z.div_add, Z.div_small, Z.add_0_l by (try apply Z.mod_pos_bound; lia).
  apply Z.mod_mod_divide. exists (2 ^ Z.of_nat (8 - s * j - s)).
  rewrite <- pow2_add. f_equal. lia.
Qed.

(** The limbs of a 32-byte string are those of its big-endian value. *)
Lemma pack_b32_spec k a : bytes_of_len 32 a -> (256 <= w * k)%nat ->
  pack_b32 wrap w s (Z.ones (Z.of_nat s)) (repeat 0 k) a = limbs_of w k (be_value a).
Proof.
  intros Ha Hk. pose proof per_s as Hp. pose proof (be_value_range _ _ Ha) as Hv.
  set (v := be_value a) in *.
  set (digit := fun t => (v / 2 ^ Z.of_nat (s * t)) mod 2 ^ Z.of_nat s).
  transitivity (fold_left (fun r t => pack_digit wrap w (s * t) (digit t) r) (seq 0 (32 * per)) (repeat 0 k)).
  - rewrite <- nested_loop. unfold pack_b32. apply fold_left_ext_in. intros r i Hi.
    apply fold_left_ext_in. intros r' j Hj. apply in_seq in Hi, Hj.
    replace (8 * i + s * j)%nat with (s * (i * per + j))%nat by nia. f_equal.
    rewrite <- (be_bytes_value _ _ Ha) at 1. fold v.
    replace (31 - i)%nat with (32 - 1 - i)%nat by lia. rewrite nth_be_bytes by lia.
    rewrite Z.land_ones, Z.shiftr_div_pow2 by lia. apply digit_of_byte. fold per in Hj. lia.
  - rewrite pack_loop; try assumption.
    + f_equal. unfold digit. rewrite digits_value_mod.
      replace (s * (32 * per))%nat with 256%nat by lia. apply Z.mod_small. exact Hv.
    + intros t _. apply Z.mod_pos_bound, pow2_pos.
    + lia.
Qed.

(** And back. *)
Lemma unpack_b32_spec k v : 0 <= v < 2 ^ 256 -> (256 <= w * k)%nat ->
  unpack_b32 w s (Z.ones (Z.of_nat s)) (limbs_of w k v) = be_bytes 32 v.
Proof.
  intros Hv Hk. pose proof per_s as Hp. unfold unpack_b32.
  set (f := fun i => (v / 256 ^ Z.of_nat i) mod 256).
  transitivity (fold_left (fun r i => upd r (32 - 1 - i) (f i)) (seq 0 32) (repeat 0 32)).
  - apply fold_left_ext_in. intros r i Hi. apply in_seq in Hi. cbv zeta.
    replace (32 - 1 - i)%nat with (31 - i)%nat by lia. f_equal.
    rewrite (fold_left_ext_in _
      (fun c j => Z.lor c (Z.shiftl ((f i / 2 ^ Z.of_nat (s * j)) mod 2 ^ Z.of_nat s) (Z.of_nat (s * j))))).
    + rewrite (lor_digits s (fun j => (f i / 2 ^ Z.of_nat (s * j)) mod 2 ^ Z.of_nat s)); try assumption.
      * rewrite digits_value_mod; try assumption. fold per. rewrite Hp. unfold u8, f.
        change (2 ^ Z.of_nat 8) with 256. change (2 ^ 8) with 256. rewrite !Z.mod_mod by lia. reflexivity.
      * intros. apply Z.mod_pos_bound, pow2_pos.
    + intros c j Hj. apply in_seq in Hj. fold per in Hj. unfold f. rewrite digit_of_byte by lia.
      replace (8 * i + s * j)%nat with (s * (i * per + j))%nat by nia.
      rewrite unpack_limbs; try assumption; [reflexivity|]. nia.
  - destruct (fold_upd_rev 32 f (repeat 0 32) eq_refl 32 ltac:(lia)) as [Hl Hn].
    set (l := fold_left _ _ _) in *. clearbody l.
    apply (nth_ext _ _ 0 0); [rewrite length_be_bytes; exact Hl|]. intros i Hi.
    replace i with (32 - 1 - (31 - i))%nat by lia.
    rewrite Hn, nth_be_bytes by lia.
    destruct (Nat.ltb_spec (31 - i) 32); [reflexivity | lia].
Qed.
End Packing32.

(** ** Byte strings read by index *)

Lemma list_as_nth (b : list Z) k : length b = k -> b = map (fun i => nth i b 0) (seq 0 k).
Proof.
  intros <-. apply (nth_ext _ _ 0 0); [rewrite length_map, length_seq; reflexivity|]. intros i Hi.
  rewrite (nth_indep (map _ _) 0 (nth 0 b 0)) by (rewrite length_map, length_seq; exact Hi).
  rewrite (map_nth (fun i => nth i b 0)), seq_nth by exact Hi. reflexivity.
Qed.

Lemma byte_nth k b i : bytes_of_len k b -> is_byte (nth i b 0).
Proof.
  intros [_ Hb]. destruct (Nat.lt_ge_cases i (length b)) as [Hi|Hi].
  - rewrite Forall_forall in Hb. apply Hb, nth_In, Hi.
  - rewrite nth_overflow by exact Hi. unfold is_byte. lia.
Qed.

(** The value of a byte string by the bytes the code reads. *)
Lemma be_value_nth k b : bytes_of_len k b ->
  be_value b = fold_left (fun v i => v * 256 + nth i b 0) (seq 0 k) 0.
Proof.
  intros [Hl _]. unfold be_value. rewrite (list_as_nth b k Hl) at 1. generalize 0 at 2 4 as v.
  induction (seq 0 k) as [|i l IH]; intros v; [reflexivity|]. cbn [map fold_left]. apply IH.
Qed.

Lemma fold_left_cons {A B} (f : A -> B -> A) x l a : fold_left f (x :: l) a = fold_left f l (f a x).
Proof. reflexivity. Qed.

Lemma fold_left_nil {A B} (f : A -> B -> A) a : fold_left f [] a = a.
Proof. reflexivity. Qed.

Lemma bytes_of_len_test b : ((length b =? 32)%nat && forallb (fun x => (0 <=? x) && (x <? 256)) b) = true -> bytes_of_len 32 b.
Proof.
  intros [H1%Nat.eqb_eq H2]%andb_prop. split; [exact H1|]. apply Forall_forall. intros x Hx.
  rewrite forallb_forall in H2. specialize (H2 x Hx). unfold is_byte. lia.
Qed.

Lemma Forall_firstn {A} (P : A -> Prop) k l : Forall P l -> Forall P (firstn k l).
Proof. intros H. rewrite <- (firstn_skipn k l) in H. exact (proj1 (proj1 (Forall_app P _ _) H)). Qed.

Lemma Forall_skipn {A} (P : A -> Prop) k l : Forall P l -> Forall P (skipn k l).
Proof. intros H. rewrite <- (firstn_skipn k l) in H. exact (proj2 (proj1 (Forall_app P _ _) H)). Qed.
