(* ===== verification/Field.v ===== *)
(** * The field interface: [field.h]

    [field.h] declares the operations of a field element and includes one of two
    representations, chosen when the library is built.  [FieldOps] is the list of
    declarations and [FieldLaws] what the header promises about them; the code
    above the field is modelled and proved against the two classes. *)

From Stdlib Require Import ZArith Lia List Bool.
From S2P Require Import Prelude Modulus Bytes.

#[local] Open Scope Z_scope.
#[local] Open Scope checked_scope.

(** ** Declarations *)

Class FieldOps : Type := {
  secp256k1_fe : Type;
  secp256k1_fe_storage : Type;
  SECP256K1_FE_CONST : Z -> Z -> Z -> Z -> Z -> Z -> Z -> Z -> secp256k1_fe;
  SECP256K1_FE_STORAGE_CONST : Z -> Z -> Z -> Z -> Z -> Z -> Z -> Z -> secp256k1_fe_storage;
  secp256k1_fe_normalize : secp256k1_fe -> checked secp256k1_fe;
  secp256k1_fe_normalize_weak : secp256k1_fe -> checked secp256k1_fe;
  secp256k1_fe_normalize_var : secp256k1_fe -> checked secp256k1_fe;
  secp256k1_fe_normalizes_to_zero : secp256k1_fe -> checked bool;
  secp256k1_fe_normalizes_to_zero_var : secp256k1_fe -> checked bool;
  secp256k1_fe_set_int : Z -> checked secp256k1_fe;
  secp256k1_fe_clear : secp256k1_fe;
  secp256k1_fe_is_zero : secp256k1_fe -> checked bool;
  secp256k1_fe_is_odd : secp256k1_fe -> checked bool;
  secp256k1_fe_cmp_var : secp256k1_fe -> secp256k1_fe -> checked Z;
  secp256k1_fe_set_b32 : secp256k1_fe -> list Z -> checked (bool * secp256k1_fe);
  secp256k1_fe_get_b32 : secp256k1_fe -> checked (list Z);
  secp256k1_fe_negate : secp256k1_fe -> Z -> checked secp256k1_fe;
  secp256k1_fe_mul_int : secp256k1_fe -> Z -> checked secp256k1_fe;
  secp256k1_fe_add : secp256k1_fe -> secp256k1_fe -> checked secp256k1_fe;
  secp256k1_fe_mul : secp256k1_fe -> secp256k1_fe -> checked secp256k1_fe;
  secp256k1_fe_sqr : secp256k1_fe -> checked secp256k1_fe;
  secp256k1_fe_cmov : secp256k1_fe -> secp256k1_fe -> Z -> secp256k1_fe;
  secp256k1_fe_storage_cmov : secp256k1_fe_storage -> secp256k1_fe_storage -> Z -> secp256k1_fe_storage;
  secp256k1_fe_to_storage : secp256k1_fe -> checked secp256k1_fe_storage;
  secp256k1_fe_from_storage : secp256k1_fe_storage -> secp256k1_fe
}.

(** ** Laws

    A representation has an invariant, the [magnitude] and [normalized] members of
    the [VERIFY] build, and the integer its limbs write.  Magnitudes go up to
    [fe_cap]; an element of magnitude [fe_cap] must not be normalized, its limbs
    may be full. *)

Class FieldLaws (F : FieldOps) : Type := {
  fe_wf : secp256k1_fe -> Prop;
  fe_magnitude : secp256k1_fe -> Z;
  fe_normalized : secp256k1_fe -> bool;
  fe_Z : secp256k1_fe -> Z;
  storage_wf : secp256k1_fe_storage -> Prop;
  storage_Z : secp256k1_fe_storage -> Z;
  fe_cap : Z;
  fe_cap_ge : 32 <= fe_cap;
  fe_normalized_law a : fe_wf a -> fe_normalized a = true -> fe_magnitude a <= 1 /\ 0 <= fe_Z a < p;
  FE_CONST_law w7 w6 w5 w4 w3 w2 w1 w0 :
    is_word w7 -> is_word w6 -> is_word w5 -> is_word w4 -> is_word w3 -> is_word w2 -> is_word w1 -> is_word w0 ->
    words_value w7 w6 w5 w4 w3 w2 w1 w0 < p ->
    let r := SECP256K1_FE_CONST w7 w6 w5 w4 w3 w2 w1 w0 in
    fe_wf r /\ fe_normalized r = true /\ fe_Z r = words_value w7 w6 w5 w4 w3 w2 w1 w0;
  STORAGE_CONST_law w7 w6 w5 w4 w3 w2 w1 w0 :
    is_word w7 -> is_word w6 -> is_word w5 -> is_word w4 -> is_word w3 -> is_word w2 -> is_word w1 -> is_word w0 ->
    let s := SECP256K1_FE_STORAGE_CONST w7 w6 w5 w4 w3 w2 w1 w0 in
    storage_wf s /\ storage_Z s = words_value w7 w6 w5 w4 w3 w2 w1 w0;
  fe_normalize_law a : fe_wf a -> fe_magnitude a < fe_cap ->
    Returns (secp256k1_fe_normalize a) (fun r =>
      fe_wf r /\ fe_magnitude r = 1 /\ fe_normalized r = true /\ fe_Z r = fe_Z a mod p);
  fe_normalize_weak_law a : fe_wf a -> fe_magnitude a < fe_cap ->
    Returns (secp256k1_fe_normalize_weak a) (fun r =>
      fe_wf r /\ fe_magnitude r = 1 /\ fe_normalized r = fe_normalized a /\ toFp (fe_Z r) = toFp (fe_Z a));
  fe_normalize_var_law a : fe_wf a -> fe_magnitude a < fe_cap ->
    Returns (secp256k1_fe_normalize_var a) (fun r =>
      fe_wf r /\ fe_magnitude r = 1 /\ fe_normalized r = true /\ fe_Z r = fe_Z a mod p);
  fe_normalizes_to_zero_law a : fe_wf a -> fe_magnitude a < fe_cap ->
    Returns (secp256k1_fe_normalizes_to_zero a) (fun b => b = true <-> toFp (fe_Z a) = Zmod.zero);
  fe_normalizes_to_zero_var_law a : fe_wf a -> fe_magnitude a < fe_cap ->
    Returns (secp256k1_fe_normalizes_to_zero_var a) (fun b => b = true <-> toFp (fe_Z a) = Zmod.zero);
  fe_set_int_law a : 0 <= a <= 0x3FFFFFF ->
    Returns (secp256k1_fe_set_int a) (fun r =>
      fe_wf r /\ fe_magnitude r = 1 /\ fe_normalized r = true /\ fe_Z r = a);
  fe_clear_law : fe_wf secp256k1_fe_clear /\ fe_normalized secp256k1_fe_clear = true /\ fe_Z secp256k1_fe_clear = 0;
  fe_is_zero_law a : fe_wf a -> fe_normalized a = true ->
    Returns (secp256k1_fe_is_zero a) (fun b => b = (fe_Z a =? 0));
  fe_is_odd_law a : fe_wf a -> fe_normalized a = true ->
    Returns (secp256k1_fe_is_odd a) (fun b => b = Z.odd (fe_Z a));
  fe_cmp_var_law a b : fe_wf a -> fe_wf b -> fe_normalized a = true -> fe_normalized b = true ->
    Returns (secp256k1_fe_cmp_var a b) (fun c => c = sign_of (fe_Z a ?= fe_Z b));
  fe_set_b32_law r a : bytes_of_len 32 a ->
    Returns (secp256k1_fe_set_b32 r a) (fun '(ok, r') =>
      ok = (be_value a <? p) /\ fe_Z r' = be_value a /\
      (ok = true -> fe_wf r' /\ fe_magnitude r' = 1 /\ fe_normalized r' = true));
  fe_get_b32_law a : fe_wf a -> fe_normalized a = true ->
    Returns (secp256k1_fe_get_b32 a) (fun b => b = be_bytes 32 (fe_Z a));
  fe_negate_law a m : fe_wf a -> fe_magnitude a <= m -> m < fe_cap ->
    Returns (secp256k1_fe_negate a m) (fun r =>
      fe_wf r /\ fe_magnitude r = m + 1 /\ fe_normalized r = false /\ toFp (fe_Z r) = (- toFp (fe_Z a))%Zmod);
  fe_mul_int_law a k : fe_wf a -> 0 <= k -> fe_magnitude a * k <= fe_cap ->
    Returns (secp256k1_fe_mul_int a k) (fun r =>
      fe_wf r /\ fe_magnitude r = fe_magnitude a * k /\ fe_normalized r = false /\
      toFp (fe_Z r) = (toFp (fe_Z a) * toFp k)%Zmod);
  fe_add_law a b : fe_wf a -> fe_wf b -> fe_magnitude a + fe_magnitude b <= fe_cap ->
    Returns (secp256k1_fe_add a b) (fun r =>
      fe_wf r /\ fe_magnitude r = fe_magnitude a + fe_magnitude b /\ fe_normalized r = false /\
      toFp (fe_Z r) = (toFp (fe_Z a) + toFp (fe_Z b))%Zmod);
  fe_mul_law a b : fe_wf a -> fe_wf b -> fe_magnitude a <= 8 -> fe_magnitude b <= 8 ->
    Returns (secp256k1_fe_mul a b) (fun r =>
      fe_wf r /\ fe_magnitude r = 1 /\ fe_normalized r = false /\
      toFp (fe_Z r) = (toFp (fe_Z a) * toFp (fe_Z b))%Zmod);
  fe_sqr_law a : fe_wf a -> fe_magnitude a <= 8 ->
    Returns (secp256k1_fe_sqr a) (fun r =>
      fe_wf r /\ fe_magnitude r = 1 /\ fe_normalized r = false /\
      toFp (fe_Z r) = (toFp (fe_Z a) * toFp (fe_Z a))%Zmod);
  fe_cmov_law r a flag : fe_wf r -> fe_wf a -> flag = 0 \/ flag = 1 ->
    let r' := secp256k1_fe_cmov r a flag in
    fe_wf r' /\ fe_magnitude r' = Z.max (fe_magnitude r) (fe_magnitude a) /\
    fe_normalized r' = fe_normalized r && fe_normalized a /\
    fe_Z r' = if flag =? 0 then fe_Z r else fe_Z a;
  fe_storage_cmov_law r a flag : storage_wf r -> storage_wf a -> flag = 0 \/ flag = 1 ->
    secp256k1_fe_storage_cmov r a flag = if flag =? 0 then r else a;
  fe_to_storage_law a : fe_wf a -> fe_normalized a = true ->
    Returns (secp256k1_fe_to_storage a) (fun s => storage_wf s /\ storage_Z s = fe_Z a);
  fe_from_storage_law s : storage_wf s -> storage_Z s < p ->
    let r := secp256k1_fe_from_storage s in
    fe_wf r /\ fe_magnitude r = 1 /\ fe_normalized r = true /\ fe_Z r = storage_Z s
}.

(** ** Elements by the residue they stand for

    [fe_ok a m v]: [a] is a well-formed element of magnitude at most [m] that
    stands for [v].  [fe_norm a v]: [a] is the normalized form of [v].
    [storage_ok s v]: [s] holds [v]. *)

Section Elements.
Context {F : FieldOps} {L : FieldLaws F}.

Definition fe_ok (a : secp256k1_fe) (m : Z) (v : Fp) : Prop :=
  fe_wf a /\ fe_magnitude a <= m /\ toFp (fe_Z a) = v.

Definition fe_norm (a : secp256k1_fe) (v : Fp) : Prop :=
  fe_wf a /\ fe_normalized a = true /\ fe_Z a = Zmod.to_Z v.

Definition storage_ok (s : secp256k1_fe_storage) (v : Fp) : Prop :=
  storage_wf s /\ storage_Z s = Zmod.to_Z v.

Lemma fe_ok_mono a m m' v : fe_ok a m v -> m <= m' -> fe_ok a m' v.
Proof. intros (Hi & Hm & Hv) H. split; [exact Hi|]. split; [lia|exact Hv]. Qed.

Lemma fe_ok_eq a m m' v v' : fe_ok a m v -> m <= m' -> v = v' -> fe_ok a m' v'.
Proof. intros H Hm <-. exact (fe_ok_mono a m m' v H Hm). Qed.

Lemma fe_norm_ok a v : fe_norm a v -> fe_ok a 1 v.
Proof.
  intros (Hi & Hn & Hz). split; [exact Hi|].
  split; [apply (fe_normalized_law a Hi Hn)|]. rewrite Hz. apply toFp_to_Z.
Qed.

Lemma FE_CONST_norm w7 w6 w5 w4 w3 w2 w1 w0 :
  is_word w7 -> is_word w6 -> is_word w5 -> is_word w4 -> is_word w3 -> is_word w2 -> is_word w1 -> is_word w0 ->
  words_value w7 w6 w5 w4 w3 w2 w1 w0 < p ->
  fe_norm (SECP256K1_FE_CONST w7 w6 w5 w4 w3 w2 w1 w0) (toFp (words_value w7 w6 w5 w4 w3 w2 w1 w0)).
Proof.
  intros H7 H6 H5 H4 H3 H2 H1 H0 Hp.
  destruct (FE_CONST_law w7 w6 w5 w4 w3 w2 w1 w0) as (Hi & Hn & Hz); try assumption.
  split; [exact Hi|]. split; [exact Hn|]. rewrite toFp_small; [exact Hz|].
  split; [apply words_value_nonneg; assumption | exact Hp].
Qed.

Lemma STORAGE_CONST_ok w7 w6 w5 w4 w3 w2 w1 w0 :
  is_word w7 -> is_word w6 -> is_word w5 -> is_word w4 -> is_word w3 -> is_word w2 -> is_word w1 -> is_word w0 ->
  words_value w7 w6 w5 w4 w3 w2 w1 w0 < p ->
  storage_ok (SECP256K1_FE_STORAGE_CONST w7 w6 w5 w4 w3 w2 w1 w0) (toFp (words_value w7 w6 w5 w4 w3 w2 w1 w0)).
Proof.
  intros H7 H6 H5 H4 H3 H2 H1 H0 Hp.
  destruct (STORAGE_CONST_law w7 w6 w5 w4 w3 w2 w1 w0) as (Hi & Hz); try assumption.
  split; [exact Hi|]. rewrite toFp_small; [exact Hz|].
  split; [apply words_value_nonneg; assumption | exact Hp].
Qed.

Lemma fe_normalize_ok a m v : fe_ok a m v -> m <= 31 ->
  Returns (secp256k1_fe_normalize a) (fun r => fe_norm r v).
Proof.
  intros (Hi & Hm & Hv) H. pose proof fe_cap_ge. eapply Returns_mono; [apply (fe_normalize_law a Hi); lia|].
  intros r (Hr & _ & Hn & Hz). split; [exact Hr|]. split; [exact Hn|]. rewrite Hz, <- Hv. symmetry. apply to_Z_toFp.
Qed.

Lemma fe_normalize_weak_ok a m v : fe_ok a m v -> m <= 31 ->
  Returns (secp256k1_fe_normalize_weak a) (fun r => fe_ok r 1 v).
Proof.
  intros (Hi & Hm & Hv) H. pose proof fe_cap_ge. eapply Returns_mono; [apply (fe_normalize_weak_law a Hi); lia|].
  intros r (Hr & Hmr & _ & Hz). split; [exact Hr|]. split; [lia|]. congruence.
Qed.

Lemma fe_normalize_var_ok a m v : fe_ok a m v -> m <= 31 ->
  Returns (secp256k1_fe_normalize_var a) (fun r => fe_norm r v).
Proof.
  intros (Hi & Hm & Hv) H. pose proof fe_cap_ge. eapply Returns_mono; [apply (fe_normalize_var_law a Hi); lia|].
  intros r (Hr & _ & Hn & Hz). split; [exact Hr|]. split; [exact Hn|]. rewrite Hz, <- Hv. symmetry. apply to_Z_toFp.
Qed.

Lemma fe_normalizes_to_zero_ok a m v : fe_ok a m v -> m <= 31 ->
  Returns (secp256k1_fe_normalizes_to_zero a) (fun b => b = Zmod.eqb v Zmod.zero).
Proof.
  intros (Hi & Hm & Hv) H. pose proof fe_cap_ge. eapply Returns_mono; [apply (fe_normalizes_to_zero_law a Hi); lia|].
  intros b Hb. apply eq_true_iff_eq. rewrite Hb, Hv, Zmod.eqb_eq. reflexivity.
Qed.

Lemma fe_normalizes_to_zero_var_ok a m v : fe_ok a m v -> m <= 31 ->
  Returns (secp256k1_fe_normalizes_to_zero_var a) (fun b => b = Zmod.eqb v Zmod.zero).
Proof.
  intros (Hi & Hm & Hv) H. pose proof fe_cap_ge.
  eapply Returns_mono; [apply (fe_normalizes_to_zero_var_law a Hi); lia|].
  intros b Hb. apply eq_true_iff_eq. rewrite Hb, Hv, Zmod.eqb_eq. reflexivity.
Qed.

Lemma fe_set_int_norm a : 0 <= a < 2 ^ 26 ->
  Returns (secp256k1_fe_set_int a) (fun r => fe_norm r (toFp a)).
Proof.
  intros Ha. eapply Returns_mono; [apply (fe_set_int_law a); lia|].
  intros r (Hr & _ & Hn & Hz). split; [exact Hr|]. split; [exact Hn|]. pose proof p_literal.
  rewrite toFp_small by lia. exact Hz.
Qed.

Lemma fe_clear_norm : fe_norm secp256k1_fe_clear Zmod.zero.
Proof. exact fe_clear_law. Qed.

Lemma fe_is_zero_ok a v : fe_norm a v ->
  Returns (secp256k1_fe_is_zero a) (fun b => b = Zmod.eqb v Zmod.zero).
Proof.
  intros (Hi & Hn & Hz). eapply Returns_mono; [apply (fe_is_zero_law a Hi Hn)|].
  intros b ->. rewrite Hz. reflexivity.
Qed.

Lemma fe_is_odd_ok a v : fe_norm a v ->
  Returns (secp256k1_fe_is_odd a) (fun b => b = Z.odd (Zmod.to_Z v)).
Proof.
  intros (Hi & Hn & Hz). eapply Returns_mono; [apply (fe_is_odd_law a Hi Hn)|].
  intros b ->. rewrite Hz. reflexivity.
Qed.

Lemma fe_cmp_var_ok a b v w : fe_norm a v -> fe_norm b w ->
  Returns (secp256k1_fe_cmp_var a b) (fun c => c = sign_of (Zmod.to_Z v ?= Zmod.to_Z w)).
Proof.
  intros (Hi & Hn & Hz) (Hib & Hnb & Hzb).
  eapply Returns_mono; [apply (fe_cmp_var_law a b Hi Hib Hn Hnb)|]. intros c ->. rewrite Hz, Hzb. reflexivity.
Qed.

Lemma fe_set_b32_norm r a : bytes_of_len 32 a ->
  Returns (secp256k1_fe_set_b32 r a) (fun '(ok, r') =>
    ok = (be_value a <? p) /\ (ok = true -> fe_norm r' (toFp (be_value a)))).
Proof.
  intros Ha. eapply Returns_mono; [apply (fe_set_b32_law r a Ha)|].
  intros [ok r'] (Hok & Hz & Hr). split; [exact Hok|]. intros E. destruct (Hr E) as (Hi & _ & Hn).
  split; [exact Hi|]. split; [exact Hn|]. rewrite toFp_small; [exact Hz|].
  rewrite E in Hok. symmetry in Hok. apply Z.ltb_lt in Hok. pose proof (be_value_range _ _ Ha). lia.
Qed.

Lemma fe_get_b32_ok a v : fe_norm a v ->
  Returns (secp256k1_fe_get_b32 a) (fun b => b = be_bytes 32 (Zmod.to_Z v)).
Proof.
  intros (Hi & Hn & Hz). eapply Returns_mono; [apply (fe_get_b32_law a Hi Hn)|].
  intros b ->. rewrite Hz. reflexivity.
Qed.

Lemma fe_negate_ok a m v : fe_ok a m v -> m <= 31 ->
  Returns (secp256k1_fe_negate a m) (fun r => fe_ok r (m + 1) (- v)%Zmod).
Proof.
  intros (Hi & Hm & Hv) H. pose proof fe_cap_ge. eapply Returns_mono; [apply (fe_negate_law a m Hi Hm); lia|].
  intros r (Hr & Hmr & _ & Hz). split; [exact Hr|]. split; [lia|]. congruence.
Qed.

Lemma fe_mul_int_ok a m v k : fe_ok a m v -> 0 <= k -> m * k <= 32 ->
  Returns (secp256k1_fe_mul_int a k) (fun r => fe_ok r (m * k) (v * toFp k)%Zmod).
Proof.
  intros (Hi & Hm & Hv) Hk H. pose proof fe_cap_ge. eapply Returns_mono; [apply (fe_mul_int_law a k Hi Hk); nia|].
  intros r (Hr & Hmr & _ & Hz). split; [exact Hr|]. split; [nia|]. congruence.
Qed.

Lemma fe_add_ok a b m k v w : fe_ok a m v -> fe_ok b k w -> m + k <= 32 ->
  Returns (secp256k1_fe_add a b) (fun r => fe_ok r (m + k) (v + w)%Zmod).
Proof.
  intros (Hi & Hm & Hv) (Hib & Hmb & Hvb) H. pose proof fe_cap_ge.
  eapply Returns_mono; [apply (fe_add_law a b Hi Hib); lia|].
  intros r (Hr & Hmr & _ & Hz). split; [exact Hr|]. split; [lia|]. congruence.
Qed.

Lemma fe_mul_ok a b m k v w : fe_ok a m v -> fe_ok b k w -> m <= 8 -> k <= 8 ->
  Returns (secp256k1_fe_mul a b) (fun r => fe_ok r 1 (v * w)%Zmod).
Proof.
  intros (Hi & Hm & Hv) (Hib & Hmb & Hvb) H H'.
  eapply Returns_mono; [apply (fe_mul_law a b Hi Hib); lia|].
  intros r (Hr & Hmr & _ & Hz). split; [exact Hr|]. split; [lia|]. congruence.
Qed.

Lemma fe_sqr_ok a m v : fe_ok a m v -> m <= 8 ->
  Returns (secp256k1_fe_sqr a) (fun r => fe_ok r 1 (v * v)%Zmod).
Proof.
  intros (Hi & Hm & Hv) H. eapply Returns_mono; [apply (fe_sqr_law a Hi); lia|].
  intros r (Hr & Hmr & _ & Hz). split; [exact Hr|]. split; [lia|]. congruence.
Qed.

Lemma fe_cmov_ok r a m k v w flag : fe_ok r m v -> fe_ok a k w -> flag = 0 \/ flag = 1 ->
  fe_ok (secp256k1_fe_cmov r a flag) (Z.max m k) (if flag =? 0 then v else w).
Proof.
  intros (Hi & Hm & Hv) (Hia & Hma & Hva) Hf.
  destruct (fe_cmov_law r a flag Hi Hia Hf) as (Hr & Hmr & _ & Hz).
  split; [exact Hr|]. split; [lia|]. rewrite Hz. destruct (flag =? 0); assumption.
Qed.

Lemma fe_cmov_bool r a m k v w (f : bool) : fe_ok r m v -> fe_ok a k w ->
  fe_ok (secp256k1_fe_cmov r a (Z.b2z f)) (Z.max m k) (if f then w else v).
Proof.
  intros Hr Ha. pose proof (fe_cmov_ok r a m k v w (Z.b2z f) Hr Ha) as H.
  destruct f; apply H; [right | left]; reflexivity.
Qed.

Lemma fe_cmov_norm r a v w flag : fe_norm r v -> fe_norm a w -> flag = 0 \/ flag = 1 ->
  fe_norm (secp256k1_fe_cmov r a flag) (if flag =? 0 then v else w).
Proof.
  intros (Hi & Hn & Hv) (Hia & Hna & Hva) Hf.
  destruct (fe_cmov_law r a flag Hi Hia Hf) as (Hr & _ & Hnr & Hz).
  split; [exact Hr|]. split; [rewrite Hnr, Hn, Hna; reflexivity|].
  rewrite Hz. destruct (flag =? 0); assumption.
Qed.

Lemma fe_storage_cmov_ok r a v w flag : storage_ok r v -> storage_ok a w -> flag = 0 \/ flag = 1 ->
  storage_ok (secp256k1_fe_storage_cmov r a flag) (if flag =? 0 then v else w).
Proof.
  intros (Hi & Hv) (Hia & Hva) Hf. unfold storage_ok. rewrite (fe_storage_cmov_law r a flag Hi Hia Hf).
  destruct (flag =? 0); auto.
Qed.

Lemma fe_to_storage_ok a v : fe_norm a v ->
  Returns (secp256k1_fe_to_storage a) (fun s => storage_ok s v).
Proof.
  intros (Hi & Hn & Hz). eapply Returns_mono; [apply (fe_to_storage_law a Hi Hn)|].
  intros s [Hs Hsz]. split; [exact Hs|]. congruence.
Qed.

Lemma fe_from_storage_norm s v : storage_ok s v -> fe_norm (secp256k1_fe_from_storage s) v.
Proof.
  intros [Hs Hz]. pose proof (Fp_range v).
  destruct (fe_from_storage_law s Hs) as (Hi & _ & Hn & Hv); [lia|].
  split; [exact Hi|]. split; [exact Hn|]. congruence.
Qed.

End Elements.
