(* ===== verification/Field5x52.v ===== *)
(** * Field elements as five 52-bit limbs: [field_5x52.h], [field_5x52_impl.h]
    and [field_5x52_int128_impl.h]

    The model is of the [VERIFY] build: an element carries its [magnitude] and
    [normalized] members, and the assertions of the code are part of the
    computation. *)

From Stdlib Require Import ZArith Lia List Bool.
From S2P Require Import Prelude Modulus Bytes.
Import ListNotations.

#[local] Open Scope Z_scope.
#[local] Open Scope checked_scope.

(** ** Data *)

(** [uint64_t n[5]] *)
Record limbs : Type := L5 { d0 : Z; d1 : Z; d2 : Z; d3 : Z; d4 : Z }.

Record secp256k1_fe : Type := mk_fe {
  fe_n : limbs;
  magnitude : Z;
  normalized : bool
}.

(** [uint64_t n[4]] *)
Record secp256k1_fe_storage : Type := mk_storage { s0 : Z; s1 : Z; s2 : Z; s3 : Z }.

(** The array as a list, lowest limb first, and back. *)
Definition to_list (l : limbs) : list Z := [d0 l; d1 l; d2 l; d3 l; d4 l].

Definition of_list (l : list Z) : limbs :=
  L5 (nth 0 l 0) (nth 1 l 0) (nth 2 l 0) (nth 3 l 0) (nth 4 l 0).

(** [SECP256K1_FE_CONST]: a constant from its eight 32-bit words. *)
Definition SECP256K1_FE_CONST_INNER (w7 w6 w5 w4 w3 w2 w1 w0 : Z) : limbs :=
  L5 (Z.lor w0 (u64 (Z.shiftl (Z.land w1 0xFFFFF) 32)))
     (Z.lor (Z.lor (Z.shiftr w1 20) (u64 (Z.shiftl w2 12))) (u64 (Z.shiftl (Z.land w3 0xFF) 44)))
     (Z.lor (Z.shiftr w3 8) (u64 (Z.shiftl (Z.land w4 0xFFFFFFF) 24)))
     (Z.lor (Z.lor (Z.shiftr w4 28) (u64 (Z.shiftl w5 4))) (u64 (Z.shiftl (Z.land w6 0xFFFF) 36)))
     (Z.lor (Z.shiftr w6 16) (u64 (Z.shiftl w7 16))).

Definition SECP256K1_FE_CONST (w7 w6 w5 w4 w3 w2 w1 w0 : Z) : secp256k1_fe :=
  mk_fe (SECP256K1_FE_CONST_INNER w7 w6 w5 w4 w3 w2 w1 w0) 1 true.

Definition SECP256K1_FE_STORAGE_CONST (w7 w6 w5 w4 w3 w2 w1 w0 : Z) : secp256k1_fe_storage :=
  mk_storage (Z.lor w0 (u64 (Z.shiftl w1 32))) (Z.lor w2 (u64 (Z.shiftl w3 32)))
             (Z.lor w4 (u64 (Z.shiftl w5 32))) (Z.lor w6 (u64 (Z.shiftl w7 32))).

(** ** Operations *)

Definition secp256k1_fe_verify (a : secp256k1_fe) : checked unit :=
  let d := fe_n a in
  let m := if normalized a then 1 else 2 * magnitude a in
  let r := (d0 d <=? u64 (0xFFFFFFFFFFFFF * m)) && (d1 d <=? u64 (0xFFFFFFFFFFFFF * m)) &&
           (d2 d <=? u64 (0xFFFFFFFFFFFFF * m)) && (d3 d <=? u64 (0xFFFFFFFFFFFFF * m)) &&
           (d4 d <=? u64 (0x0FFFFFFFFFFFF * m)) &&
           (0 <=? magnitude a) && (magnitude a <=? 2048) in
  let r :=
    if normalized a then
      let r := r && (magnitude a <=? 1) in
      if r && (d4 d =? 0x0FFFFFFFFFFFF) && (Z.land (Z.land (d3 d) (d2 d)) (d1 d) =? 0xFFFFFFFFFFFFF)
      then r && (d0 d <? 0xFFFFEFFFFFC2F)
      else r
    else r in
  VERIFY_CHECK r.

Definition secp256k1_fe_normalize (r : secp256k1_fe) : checked secp256k1_fe :=
  let '(L5 t0 t1 t2 t3 t4) := fe_n r in
  (* Reduce t4 at the start so there will be at most a single carry from the first pass *)
  let x := Z.shiftr t4 48 in let t4 := Z.land t4 0x0FFFFFFFFFFFF in
  (* The first pass ensures the magnitude is 1, ... *)
  let t0 := u64 (t0 + x * 0x1000003D1) in
  let t1 := u64 (t1 + Z.shiftr t0 52) in let t0 := Z.land t0 0xFFFFFFFFFFFFF in
  let t2 := u64 (t2 + Z.shiftr t1 52) in let t1 := Z.land t1 0xFFFFFFFFFFFFF in let m := t1 in
  let t3 := u64 (t3 + Z.shiftr t2 52) in let t2 := Z.land t2 0xFFFFFFFFFFFFF in let m := Z.land m t2 in
  let t4 := u64 (t4 + Z.shiftr t3 52) in let t3 := Z.land t3 0xFFFFFFFFFFFFF in let m := Z.land m t3 in
  (* ... except for a possible carry at bit 48 of t4 *)
  VERIFY_BITS t4 49;;
  (* At most a single final reduction is needed *)
  let x := Z.lor (Z.shiftr t4 48)
             (Z.land (Z.land (Z.b2z (t4 =? 0x0FFFFFFFFFFFF)) (Z.b2z (m =? 0xFFFFFFFFFFFFF)))
                     (Z.b2z (0xFFFFEFFFFFC2F <=? t0))) in
  let t0 := u64 (t0 + x * 0x1000003D1) in
  let t1 := u64 (t1 + Z.shiftr t0 52) in let t0 := Z.land t0 0xFFFFFFFFFFFFF in
  let t2 := u64 (t2 + Z.shiftr t1 52) in let t1 := Z.land t1 0xFFFFFFFFFFFFF in
  let t3 := u64 (t3 + Z.shiftr t2 52) in let t2 := Z.land t2 0xFFFFFFFFFFFFF in
  let t4 := u64 (t4 + Z.shiftr t3 52) in let t3 := Z.land t3 0xFFFFFFFFFFFFF in
  (* If t4 didn't carry to bit 48 already, then it should have after any final reduction *)
  VERIFY_CHECK (Z.shiftr t4 48 =? x);;
  let t4 := Z.land t4 0x0FFFFFFFFFFFF in
  let r := mk_fe (L5 t0 t1 t2 t3 t4) 1 true in
  secp256k1_fe_verify r;;
  ret r.

Definition secp256k1_fe_normalize_weak (r : secp256k1_fe) : checked secp256k1_fe :=
  let '(L5 t0 t1 t2 t3 t4) := fe_n r in
  let x := Z.shiftr t4 48 in let t4 := Z.land t4 0x0FFFFFFFFFFFF in
  let t0 := u64 (t0 + x * 0x1000003D1) in
  let t1 := u64 (t1 + Z.shiftr t0 52) in let t0 := Z.land t0 0xFFFFFFFFFFFFF in
  let t2 := u64 (t2 + Z.shiftr t1 52) in let t1 := Z.land t1 0xFFFFFFFFFFFFF in
  let t3 := u64 (t3 + Z.shiftr t2 52) in let t2 := Z.land t2 0xFFFFFFFFFFFFF in
  let t4 := u64 (t4 + Z.shiftr t3 52) in let t3 := Z.land t3 0xFFFFFFFFFFFFF in
  VERIFY_BITS t4 49;;
  let r := mk_fe (L5 t0 t1 t2 t3 t4) 1 (normalized r) in
  secp256k1_fe_verify r;;
  ret r.

Definition secp256k1_fe_normalize_var (r : secp256k1_fe) : checked secp256k1_fe :=
  let '(L5 t0 t1 t2 t3 t4) := fe_n r in
  let x := Z.shiftr t4 48 in let t4 := Z.land t4 0x0FFFFFFFFFFFF in
  let t0 := u64 (t0 + x * 0x1000003D1) in
  let t1 := u64 (t1 + Z.shiftr t0 52) in let t0 := Z.land t0 0xFFFFFFFFFFFFF in
  let t2 := u64 (t2 + Z.shiftr t1 52) in let t1 := Z.land t1 0xFFFFFFFFFFFFF in let m := t1 in
  let t3 := u64 (t3 + Z.shiftr t2 52) in let t2 := Z.land t2 0xFFFFFFFFFFFFF in let m := Z.land m t2 in
  let t4 := u64 (t4 + Z.shiftr t3 52) in let t3 := Z.land t3 0xFFFFFFFFFFFFF in let m := Z.land m t3 in
  VERIFY_BITS t4 49;;
  let x := Z.lor (Z.shiftr t4 48)
             (Z.land (Z.land (Z.b2z (t4 =? 0x0FFFFFFFFFFFF)) (Z.b2z (m =? 0xFFFFFFFFFFFFF)))
                     (Z.b2z (0xFFFFEFFFFFC2F <=? t0))) in
  l <- (if negb (x =? 0) then
          let t0 := u64 (t0 + 0x1000003D1) in
          let t1 := u64 (t1 + Z.shiftr t0 52) in let t0 := Z.land t0 0xFFFFFFFFFFFFF in
          let t2 := u64 (t2 + Z.shiftr t1 52) in let t1 := Z.land t1 0xFFFFFFFFFFFFF in
          let t3 := u64 (t3 + Z.shiftr t2 52) in let t2 := Z.land t2 0xFFFFFFFFFFFFF in
          let t4 := u64 (t4 + Z.shiftr t3 52) in let t3 := Z.land t3 0xFFFFFFFFFFFFF in
          VERIFY_CHECK (Z.shiftr t4 48 =? x);;
          let t4 := Z.land t4 0x0FFFFFFFFFFFF in
          ret (L5 t0 t1 t2 t3 t4)
        else ret (L5 t0 t1 t2 t3 t4));;
  let r := mk_fe l 1 true in
  secp256k1_fe_verify r;;
  ret r.

Definition secp256k1_fe_normalizes_to_zero (r : secp256k1_fe) : checked bool :=
  let '(L5 t0 t1 t2 t3 t4) := fe_n r in
  let x := Z.shiftr t4 48 in let t4 := Z.land t4 0x0FFFFFFFFFFFF in
  let t0 := u64 (t0 + x * 0x1000003D1) in
  let t1 := u64 (t1 + Z.shiftr t0 52) in let t0 := Z.land t0 0xFFFFFFFFFFFFF in
  let z0 := t0 in let z1 := Z.lxor t0 0x1000003D0 in
  let t2 := u64 (t2 + Z.shiftr t1 52) in let t1 := Z.land t1 0xFFFFFFFFFFFFF in
  let z0 := Z.lor z0 t1 in let z1 := Z.land z1 t1 in
  let t3 := u64 (t3 + Z.shiftr t2 52) in let t2 := Z.land t2 0xFFFFFFFFFFFFF in
  let z0 := Z.lor z0 t2 in let z1 := Z.land z1 t2 in
  let t4 := u64 (t4 + Z.shiftr t3 52) in let t3 := Z.land t3 0xFFFFFFFFFFFFF in
  let z0 := Z.lor z0 t3 in let z1 := Z.land z1 t3 in
  let z0 := Z.lor z0 t4 in let z1 := Z.land z1 (Z.lxor t4 0xF000000000000) in
  VERIFY_BITS t4 49;;
  ret ((z0 =? 0) || (z1 =? 0xFFFFFFFFFFFFF)).

Definition secp256k1_fe_normalizes_to_zero_var (r : secp256k1_fe) : checked bool :=
  let '(L5 n0 n1 n2 n3 n4) := fe_n r in
  let t0 := n0 in
  let t4 := n4 in
  let x := Z.shiftr t4 48 in
  let t0 := u64 (t0 + x * 0x1000003D1) in
  let z0 := Z.land t0 0xFFFFFFFFFFFFF in
  let z1 := Z.lxor z0 0x1000003D0 in
  (* Fast return path should catch the majority of cases *)
  if negb (z0 =? 0) && negb (z1 =? 0xFFFFFFFFFFFFF) then ret false else
  let t1 := n1 in
  let t2 := n2 in
  let t3 := n3 in
  let t4 := Z.land t4 0x0FFFFFFFFFFFF in
  let t1 := u64 (t1 + Z.shiftr t0 52) in
  let t2 := u64 (t2 + Z.shiftr t1 52) in let t1 := Z.land t1 0xFFFFFFFFFFFFF in
  let z0 := Z.lor z0 t1 in let z1 := Z.land z1 t1 in
  let t3 := u64 (t3 + Z.shiftr t2 52) in let t2 := Z.land t2 0xFFFFFFFFFFFFF in
  let z0 := Z.lor z0 t2 in let z1 := Z.land z1 t2 in
  let t4 := u64 (t4 + Z.shiftr t3 52) in let t3 := Z.land t3 0xFFFFFFFFFFFFF in
  let z0 := Z.lor z0 t3 in let z1 := Z.land z1 t3 in
  let z0 := Z.lor z0 t4 in let z1 := Z.land z1 (Z.lxor t4 0xF000000000000) in
  VERIFY_BITS t4 49;;
  ret ((z0 =? 0) || (z1 =? 0xFFFFFFFFFFFFF)).

(** [a] is a C [int], converted to [uint64_t] by the assignment. *)
Definition secp256k1_fe_set_int (a : Z) : checked secp256k1_fe :=
  let r := mk_fe (L5 (u64 a) 0 0 0 0) 1 true in
  secp256k1_fe_verify r;;
  ret r.

Definition secp256k1_fe_is_zero (a : secp256k1_fe) : checked bool :=
  let '(L5 t0 t1 t2 t3 t4) := fe_n a in
  VERIFY_CHECK (normalized a);;
  secp256k1_fe_verify a;;
  ret (Z.lor (Z.lor (Z.lor (Z.lor t0 t1) t2) t3) t4 =? 0).

Definition secp256k1_fe_is_odd (a : secp256k1_fe) : checked bool :=
  VERIFY_CHECK (normalized a);;
  secp256k1_fe_verify a;;
  ret (negb (Z.land (d0 (fe_n a)) 1 =? 0)).

Definition secp256k1_fe_clear : secp256k1_fe := mk_fe (L5 0 0 0 0 0) 0 true.

Definition secp256k1_fe_cmp_var (a b : secp256k1_fe) : checked Z :=
  VERIFY_CHECK (normalized a);;
  VERIFY_CHECK (normalized b);;
  secp256k1_fe_verify a;;
  secp256k1_fe_verify b;;
  ret (cmp_limbs (rev (to_list (fe_n a))) (rev (to_list (fe_n b)))).

(** Returns 0, with the [magnitude] and [normalized] of [r] as they were, when the
    bytes are not below the field prime. *)
Definition secp256k1_fe_set_b32 (r : secp256k1_fe) (a : list Z) : checked (bool * secp256k1_fe) :=
  let l := of_list (pack_b32 u64 52 4 0xF [0; 0; 0; 0; 0] a) in
  if (d4 l =? 0x0FFFFFFFFFFFF) && (Z.land (Z.land (d3 l) (d2 l)) (d1 l) =? 0xFFFFFFFFFFFFF)
     && (0xFFFFEFFFFFC2F <=? d0 l)
  then ret (false, mk_fe l (magnitude r) (normalized r))
  else
    let r := mk_fe l 1 true in
    secp256k1_fe_verify r;;
    ret (true, r).

Definition secp256k1_fe_get_b32 (a : secp256k1_fe) : checked (list Z) :=
  VERIFY_CHECK (normalized a);;
  secp256k1_fe_verify a;;
  ret (unpack_b32 52 4 0xF (to_list (fe_n a))).

Definition secp256k1_fe_negate (a : secp256k1_fe) (m : Z) : checked secp256k1_fe :=
  VERIFY_CHECK (magnitude a <=? m);;
  secp256k1_fe_verify a;;
  let '(L5 a0 a1 a2 a3 a4) := fe_n a in
  let r := mk_fe (L5 (u64 (0xFFFFEFFFFFC2F * 2 * (m + 1) - a0))
                     (u64 (0xFFFFFFFFFFFFF * 2 * (m + 1) - a1))
                     (u64 (0xFFFFFFFFFFFFF * 2 * (m + 1) - a2))
                     (u64 (0xFFFFFFFFFFFFF * 2 * (m + 1) - a3))
                     (u64 (0x0FFFFFFFFFFFF * 2 * (m + 1) - a4))) (m + 1) false in
  secp256k1_fe_verify r;;
  ret r.

Definition secp256k1_fe_mul_int (r : secp256k1_fe) (a : Z) : checked secp256k1_fe :=
  let '(L5 r0 r1 r2 r3 r4) := fe_n r in
  let r := mk_fe (L5 (u64 (r0 * a)) (u64 (r1 * a)) (u64 (r2 * a)) (u64 (r3 * a)) (u64 (r4 * a)))
                 (magnitude r * a) false in
  secp256k1_fe_verify r;;
  ret r.

Definition secp256k1_fe_add (r a : secp256k1_fe) : checked secp256k1_fe :=
  secp256k1_fe_verify a;;
  let '(L5 r0 r1 r2 r3 r4) := fe_n r in
  let '(L5 a0 a1 a2 a3 a4) := fe_n a in
  let r := mk_fe (L5 (u64 (r0 + a0)) (u64 (r1 + a1)) (u64 (r2 + a2)) (u64 (r3 + a3)) (u64 (r4 + a4)))
                 (magnitude r + magnitude a) false in
  secp256k1_fe_verify r;;
  ret r.

(** [field_5x52_int128_impl.h]; [c] and [d] are 128 bits wide. *)
Definition secp256k1_fe_mul_inner (a b : limbs) : checked limbs :=
  let '(L5 a0 a1 a2 a3 a4) := a in
  let '(L5 b0 b1 b2 b3 b4) := b in
  let M := 0xFFFFFFFFFFFFF in
  let R := 0x1000003D10 in
  VERIFY_BITS a0 56;; VERIFY_BITS a1 56;; VERIFY_BITS a2 56;; VERIFY_BITS a3 56;; VERIFY_BITS a4 52;;
  VERIFY_BITS b0 56;; VERIFY_BITS b1 56;; VERIFY_BITS b2 56;; VERIFY_BITS b3 56;; VERIFY_BITS b4 52;;
  let d := u128 (a0 * b3 + a1 * b2 + a2 * b1 + a3 * b0) in
  VERIFY_BITS d 114;;
  let c := u128 (a4 * b4) in
  VERIFY_BITS c 112;;
  let d := u128 (d + Z.land c M * R) in
  let c := Z.shiftr c 52 in
  VERIFY_BITS d 115;;
  VERIFY_BITS c 60;;
  let t3 := u64 (Z.land d M) in
  let d := Z.shiftr d 52 in
  VERIFY_BITS t3 52;;
  VERIFY_BITS d 63;;
  let d := u128 (d + (a0 * b4 + a1 * b3 + a2 * b2 + a3 * b1 + a4 * b0)) in
  VERIFY_BITS d 115;;
  let d := u128 (d + c * R) in
  VERIFY_BITS d 116;;
  let t4 := u64 (Z.land d M) in
  let d := Z.shiftr d 52 in
  VERIFY_BITS t4 52;;
  VERIFY_BITS d 64;;
  let tx := Z.shiftr t4 48 in
  let t4 := Z.land t4 (Z.shiftr M 4) in
  VERIFY_BITS tx 4;;
  VERIFY_BITS t4 48;;
  let c := u128 (a0 * b0) in
  VERIFY_BITS c 112;;
  let d := u128 (d + (a1 * b4 + a2 * b3 + a3 * b2 + a4 * b1)) in
  VERIFY_BITS d 115;;
  let u0 := u64 (Z.land d M) in
  let d := Z.shiftr d 52 in
  VERIFY_BITS u0 52;;
  VERIFY_BITS d 63;;
  let u0 := Z.lor (u64 (Z.shiftl u0 4)) tx in
  VERIFY_BITS u0 56;;
  let c := u128 (c + u0 * Z.shiftr R 4) in
  VERIFY_BITS c 115;;
  let r0 := u64 (Z.land c M) in
  let c := Z.shiftr c 52 in
  VERIFY_BITS r0 52;;
  VERIFY_BITS c 61;;
  let c := u128 (c + (a0 * b1 + a1 * b0)) in
  VERIFY_BITS c 114;;
  let d := u128 (d + (a2 * b4 + a3 * b3 + a4 * b2)) in
  VERIFY_BITS d 114;;
  let c := u128 (c + Z.land d M * R) in
  let d := Z.shiftr d 52 in
  VERIFY_BITS c 115;;
  VERIFY_BITS d 62;;
  let r1 := u64 (Z.land c M) in
  let c := Z.shiftr c 52 in
  VERIFY_BITS r1 52;;
  VERIFY_BITS c 63;;
  let c := u128 (c + (a0 * b2 + a1 * b1 + a2 * b0)) in
  VERIFY_BITS c 114;;
  let d := u128 (d + (a3 * b4 + a4 * b3)) in
  VERIFY_BITS d 114;;
  let c := u128 (c + Z.land d M * R) in
  let d := Z.shiftr d 52 in
  VERIFY_BITS c 115;;
  VERIFY_BITS d 62;;
  let r2 := u64 (Z.land c M) in
  let c := Z.shiftr c 52 in
  VERIFY_BITS r2 52;;
  VERIFY_BITS c 63;;
  let c := u128 (c + (d * R + t3)) in
  VERIFY_BITS c 100;;
  let r3 := u64 (Z.land c M) in
  let c := Z.shiftr c 52 in
  VERIFY_BITS r3 52;;
  VERIFY_BITS c 48;;
  let c := u128 (c + t4) in
  VERIFY_BITS c 49;;
  let r4 := u64 c in
  VERIFY_BITS r4 49;;
  ret (L5 r0 r1 r2 r3 r4).

(** [t3], [t4], [tx] and [u0] are [int64_t] here. *)
Definition secp256k1_fe_sqr_inner (a : limbs) : checked limbs :=
  let '(L5 a0 a1 a2 a3 a4) := a in
  let M := 0xFFFFFFFFFFFFF in
  let R := 0x1000003D10 in
  VERIFY_BITS a0 56;; VERIFY_BITS a1 56;; VERIFY_BITS a2 56;; VERIFY_BITS a3 56;; VERIFY_BITS a4 52;;
  let d := u128 (u64 (a0 * 2) * a3 + u64 (a1 * 2) * a2) in
  VERIFY_BITS d 114;;
  let c := u128 (a4 * a4) in
  VERIFY_BITS c 112;;
  let d := u128 (d + Z.land c M * R) in
  let c := Z.shiftr c 52 in
  VERIFY_BITS d 115;;
  VERIFY_BITS c 60;;
  let t3 := i64 (Z.land d M) in
  let d := Z.shiftr d 52 in
  VERIFY_BITS t3 52;;
  VERIFY_BITS d 63;;
  let a4 := u64 (a4 * 2) in
  let d := u128 (d + (a0 * a4 + u64 (a1 * 2) * a3 + a2 * a2)) in
  VERIFY_BITS d 115;;
  let d := u128 (d + c * R) in
  VERIFY_BITS d 116;;
  let t4 := i64 (Z.land d M) in
  let d := Z.shiftr d 52 in
  VERIFY_BITS t4 52;;
  VERIFY_BITS d 64;;
  let tx := Z.shiftr t4 48 in
  let t4 := Z.land t4 (Z.shiftr M 4) in
  VERIFY_BITS tx 4;;
  VERIFY_BITS t4 48;;
  let c := u128 (a0 * a0) in
  VERIFY_BITS c 112;;
  let d := u128 (d + (a1 * a4 + u64 (a2 * 2) * a3)) in
  VERIFY_BITS d 114;;
  let u0 := i64 (Z.land d M) in
  let d := Z.shiftr d 52 in
  VERIFY_BITS u0 52;;
  VERIFY_BITS d 62;;
  let u0 := Z.lor (i64 (Z.shiftl u0 4)) tx in
  VERIFY_BITS u0 56;;
  let c := u128 (c + u0 * Z.shiftr R 4) in
  VERIFY_BITS c 113;;
  let r0 := u64 (Z.land c M) in
  let c := Z.shiftr c 52 in
  VERIFY_BITS r0 52;;
  VERIFY_BITS c 61;;
  let a0 := u64 (a0 * 2) in
  let c := u128 (c + a0 * a1) in
  VERIFY_BITS c 114;;
  let d := u128 (d + (a2 * a4 + a3 * a3)) in
  VERIFY_BITS d 114;;
  let c := u128 (c + Z.land d M * R) in
  let d := Z.shiftr d 52 in
  VERIFY_BITS c 115;;
  VERIFY_BITS d 62;;
  let r1 := u64 (Z.land c M) in
  let c := Z.shiftr c 52 in
  VERIFY_BITS r1 52;;
  VERIFY_BITS c 63;;
  let c := u128 (c + (a0 * a2 + a1 * a1)) in
  VERIFY_BITS c 114;;
  let d := u128 (d + a3 * a4) in
  VERIFY_BITS d 114;;
  let c := u128 (c + Z.land d M * R) in
  let d := Z.shiftr d 52 in
  VERIFY_BITS c 115;;
  VERIFY_BITS d 62;;
  let r2 := u64 (Z.land c M) in
  let c := Z.shiftr c 52 in
  VERIFY_BITS r2 52;;
  VERIFY_BITS c 63;;
  let c := u128 (c + (d * R + t3)) in
  VERIFY_BITS c 100;;
  let r3 := u64 (Z.land c M) in
  let c := Z.shiftr c 52 in
  VERIFY_BITS r3 52;;
  VERIFY_BITS c 48;;
  let c := u128 (c + t4) in
  VERIFY_BITS c 49;;
  let r4 := u64 c in
  VERIFY_BITS r4 49;;
  ret (L5 r0 r1 r2 r3 r4).

Definition secp256k1_fe_mul (a b : secp256k1_fe) : checked secp256k1_fe :=
  VERIFY_CHECK (magnitude a <=? 8);;
  VERIFY_CHECK (magnitude b <=? 8);;
  secp256k1_fe_verify a;;
  secp256k1_fe_verify b;;
  l <- secp256k1_fe_mul_inner (fe_n a) (fe_n b);;
  let r := mk_fe l 1 false in
  secp256k1_fe_verify r;;
  ret r.

Definition secp256k1_fe_sqr (a : secp256k1_fe) : checked secp256k1_fe :=
  VERIFY_CHECK (magnitude a <=? 8);;
  secp256k1_fe_verify a;;
  l <- secp256k1_fe_sqr_inner (fe_n a);;
  let r := mk_fe l 1 false in
  secp256k1_fe_verify r;;
  ret r.

(** [(x & mask0) | (y & mask1)] *)
Definition select64 (mask0 mask1 x y : Z) : Z := Z.lor (Z.land x mask0) (Z.land y mask1).

Definition secp256k1_fe_cmov (r a : secp256k1_fe) (flag : Z) : secp256k1_fe :=
  let mask0 := u64 (flag + u64 (Z.lnot 0)) in
  let mask1 := u64 (Z.lnot mask0) in
  let '(L5 r0 r1 r2 r3 r4) := fe_n r in
  let '(L5 a0 a1 a2 a3 a4) := fe_n a in
  mk_fe (L5 (select64 mask0 mask1 r0 a0) (select64 mask0 mask1 r1 a1) (select64 mask0 mask1 r2 a2)
            (select64 mask0 mask1 r3 a3) (select64 mask0 mask1 r4 a4))
        (if magnitude r <? magnitude a then magnitude a else magnitude r)
        (normalized r && normalized a).

Definition secp256k1_fe_storage_cmov (r a : secp256k1_fe_storage) (flag : Z) : secp256k1_fe_storage :=
  let mask0 := u64 (flag + u64 (Z.lnot 0)) in
  let mask1 := u64 (Z.lnot mask0) in
  mk_storage (select64 mask0 mask1 (s0 r) (s0 a)) (select64 mask0 mask1 (s1 r) (s1 a))
             (select64 mask0 mask1 (s2 r) (s2 a)) (select64 mask0 mask1 (s3 r) (s3 a)).

Definition secp256k1_fe_to_storage (a : secp256k1_fe) : checked secp256k1_fe_storage :=
  VERIFY_CHECK (normalized a);;
  let '(L5 n0 n1 n2 n3 n4) := fe_n a in
  ret (mk_storage (Z.lor n0 (u64 (Z.shiftl n1 52)))
                  (Z.lor (Z.shiftr n1 12) (u64 (Z.shiftl n2 40)))
                  (Z.lor (Z.shiftr n2 24) (u64 (Z.shiftl n3 28)))
                  (Z.lor (Z.shiftr n3 36) (u64 (Z.shiftl n4 16)))).

Definition secp256k1_fe_from_storage (a : secp256k1_fe_storage) : secp256k1_fe :=
  mk_fe (L5 (Z.land (s0 a) 0xFFFFFFFFFFFFF)
            (Z.lor (Z.shiftr (s0 a) 52) (Z.land (u64 (Z.shiftl (s1 a) 12)) 0xFFFFFFFFFFFFF))
            (Z.lor (Z.shiftr (s1 a) 40) (Z.land (u64 (Z.shiftl (s2 a) 24)) 0xFFFFFFFFFFFFF))
            (Z.lor (Z.shiftr (s2 a) 28) (Z.land (u64 (Z.shiftl (s3 a) 36)) 0xFFFFFFFFFFFFF))
            (Z.shiftr (s3 a) 16)) 1 true.

(** ** Values and invariant *)

Definition limbs_Z (l : limbs) : Z :=
  d0 l + d1 l * 2 ^ 52 + d2 l * 2 ^ 104 + d3 l * 2 ^ 156 + d4 l * 2 ^ 208.

(** The residue an element stands for. *)
Definition fe_val (a : secp256k1_fe) : Fp := toFp (limbs_Z (fe_n a)).

(** Limbs of magnitude [m]. *)
Definition limbs_mag (m : Z) (l : limbs) : Prop :=
  0 <= d0 l <= 0xFFFFFFFFFFFFF * m /\ 0 <= d1 l <= 0xFFFFFFFFFFFFF * m /\
  0 <= d2 l <= 0xFFFFFFFFFFFFF * m /\ 0 <= d3 l <= 0xFFFFFFFFFFFFF * m /\
  0 <= d4 l <= 0x0FFFFFFFFFFFF * m.

(** The representation invariant: the magnitude bounds the limbs, and a
    normalized element has full limbs and a value below the prime. *)
Definition fe_inv (a : secp256k1_fe) : Prop :=
  0 <= magnitude a <= 2048 /\ limbs_mag (2 * magnitude a) (fe_n a) /\
  (normalized a = true ->
     magnitude a <= 1 /\ limbs_mag 1 (fe_n a) /\ limbs_Z (fe_n a) < p).

Definition storage_wf (s : secp256k1_fe_storage) : Prop :=
  0 <= s0 s < 2 ^ 64 /\ 0 <= s1 s < 2 ^ 64 /\ 0 <= s2 s < 2 ^ 64 /\ 0 <= s3 s < 2 ^ 64.

Definition storage_Z (s : secp256k1_fe_storage) : Z :=
  s0 s + s1 s * 2 ^ 64 + s2 s * 2 ^ 128 + s3 s * 2 ^ 192.

(** ** Lemmas *)

(** Canonical limbs reach the prime exactly when the code's comparison says so. *)
Lemma fe52_overflow_iff l : limbs_mag 1 l ->
  ((d4 l =? 0x0FFFFFFFFFFFF) && (Z.land (Z.land (d3 l) (d2 l)) (d1 l) =? 0xFFFFFFFFFFFFF)
     && (0xFFFFEFFFFFC2F <=? d0 l)) = (p <=? limbs_Z l).
Proof.
  destruct l as [a0 a1 a2 a3 a4]. unfold limbs_mag, limbs_Z. cbn [d0 d1 d2 d3 d4]. intros H.
  rewrite p_literal. apply eq_true_iff_eq.
  rewrite !andb_true_iff, !Z.eqb_eq, !Z.leb_le.
  change 0xFFFFFFFFFFFFF with (Z.ones 52) at 1.
  assert (0 <= Z.land a3 a2 <= Z.ones 52) by (apply (bnd_land_l a3 a2); cbn; lia).
  rewrite !land_eq_ones by (cbn in *; lia). change (Z.ones 52) with 0xFFFFFFFFFFFFF. lia.
Qed.

Lemma fe52_inv_verify a : fe_inv a -> secp256k1_fe_verify a = Some tt.
Proof.
  intros (Hm & Hl & Hn). unfold secp256k1_fe_verify.
  assert (forall c m, 0 <= c <= 0xFFFFFFFFFFFFF -> 0 <= m <= 4096 -> u64 (c * m) = c * m) as Hu
    by (intros; unfold u64; apply Z.mod_small; nia).
  destruct (normalized a).
  - destruct (Hn eq_refl) as (Hm1 & Hl1 & Hp). pose proof (fe52_overflow_iff _ Hl1) as Hov.
    destruct (fe_n a) as [a0 a1 a2 a3 a4]. unfold limbs_mag in Hl1. cbn [d0 d1 d2 d3 d4] in *.
    rewrite !Hu by lia. destruct (Z.leb_spec p (limbs_Z (L5 a0 a1 a2 a3 a4))); [lia|].
    unfold VERIFY_CHECK.
    repeat match goal with |- context [?x <=? ?y] =>
      lazymatch y with a0 => fail | _ => rewrite (proj2 (Z.leb_le x y)) by lia end end.
    cbn [andb]. destruct ((a4 =? _) && _); [|reflexivity]. cbn [andb] in Hov.
    apply Z.leb_gt in Hov. rewrite (proj2 (Z.ltb_lt _ _) Hov). reflexivity.
  - clear Hn. destruct (fe_n a) as [a0 a1 a2 a3 a4]. unfold limbs_mag in Hl. cbn [d0 d1 d2 d3 d4] in *.
    rewrite !Hu by lia. unfold VERIFY_CHECK.
    repeat (rewrite (proj2 (Z.leb_le _ _)) by lia). reflexivity.
Qed.

Lemma fe52_Returns_verify {B} a (k : unit -> checked B) Q :
  fe_inv a -> Returns (k tt) Q -> Returns (bind (secp256k1_fe_verify a) k) Q.
Proof. intros H. rewrite (fe52_inv_verify a H). exact (fun H => H). Qed.

Lemma fe52_limbs_mag_le m m' l : limbs_mag m l -> m <= m' -> limbs_mag m' l.
Proof. unfold limbs_mag. nia. Qed.

(** The multiplication kernel: no assertion fails and nothing wraps, the product
    is right modulo the prime, and the result has magnitude one. *)
Lemma fe52_mul_inner_spec a b : limbs_mag 16 a -> limbs_mag 16 b ->
  Returns (secp256k1_fe_mul_inner a b) (fun r =>
    limbs_mag 2 r /\ toFp (limbs_Z r) = (toFp (limbs_Z a) * toFp (limbs_Z b))%Zmod).
Proof.
  intros Ha Hb. destruct a as [a0 a1 a2 a3 a4], b as [b0 b1 b2 b3 b4].
  unfold limbs_mag in Ha, Hb. cbn [d0 d1 d2 d3 d4] in Ha, Hb.
  destruct Ha as (A0 & A1 & A2 & A3 & A4), Hb as (B0 & B1 & B2 & B3 & B4).
  cbv beta iota delta [secp256k1_fe_mul_inner]. c_steps. apply Returns_ret.
  unfold limbs_mag, limbs_Z. cbn [d0 d1 d2 d3 d4]. split; [lia|]. residue_ring.
Qed.

Lemma fe52_sqr_inner_spec a : limbs_mag 16 a ->
  Returns (secp256k1_fe_sqr_inner a) (fun r =>
    limbs_mag 2 r /\ toFp (limbs_Z r) = (toFp (limbs_Z a) * toFp (limbs_Z a))%Zmod).
Proof.
  intros Ha. destruct a as [a0 a1 a2 a3 a4].
  unfold limbs_mag in Ha. cbn [d0 d1 d2 d3 d4] in Ha. destruct Ha as (A0 & A1 & A2 & A3 & A4).
  cbv beta iota delta [secp256k1_fe_sqr_inner]. c_steps. apply Returns_ret.
  unfold limbs_mag, limbs_Z. cbn [d0 d1 d2 d3 d4]. split; [lia|]. residue_ring.
Qed.

Lemma fe52_final_reduction t0 t1 t2 t3 t4 h l :
  0 <= t0 <= 0xFFFFFFFFFFFFF -> 0 <= t1 <= 0xFFFFFFFFFFFFF -> 0 <= t2 <= 0xFFFFFFFFFFFFF ->
  0 <= t3 <= 0xFFFFFFFFFFFFF -> 0 <= h <= 1 -> 0 <= l <= 0x0FFFFFFFFFFFF -> l = t4 - h * 2 ^ 48 ->
  Z.lor h (Z.land (Z.land (Z.b2z (t4 =? 0x0FFFFFFFFFFFF))
                          (Z.b2z (Z.land (Z.land t1 t2) t3 =? 0xFFFFFFFFFFFFF)))
                  (Z.b2z (0xFFFFEFFFFFC2F <=? t0)))
    = Z.b2z (p <=? limbs_Z (L5 t0 t1 t2 t3 t4)).
Proof.
  intros H0 H1 H2 H3 Hh Hl El. destruct (Z.eq_dec h 0) as [->|].
  - rewrite <- fe52_overflow_iff by (unfold limbs_mag; cbn [d0 d1 d2 d3 d4]; lia). cbn [d0 d1 d2 d3 d4].
    rewrite (Z.land_comm (Z.land t3 t2)), (Z.land_comm t3), Z.land_assoc.
    destruct (t4 =? _), (Z.land _ t3 =? _), (_ <=? t0); reflexivity.
  - replace h with 1 in * by lia. destruct (Z.eqb_spec t4 0x0FFFFFFFFFFFF) as [->|]; [lia|].
    destruct (Z.leb_spec p (limbs_Z (L5 t0 t1 t2 t3 t4))) as [|Hp]; [destruct (_ =? _), (_ <=? _); reflexivity|].
    rewrite p_literal in Hp. unfold limbs_Z in Hp. cbn [d0 d1 d2 d3 d4] in Hp. lia.
Qed.

(** A value below twice the prime, reduced by at most one subtraction. *)
Lemma fe52_reduced_fe l v q x :
  limbs_mag 1 l -> x = Z.b2z (p <=? v) -> limbs_Z l = v - x * p -> 0 <= v < 2 * p ->
  fe_inv (mk_fe l 1 true) /\ limbs_Z l = (v + q * p) mod p.
Proof.
  intros Hl Hx El Hv. assert (limbs_Z l < p) as Hp.
  { subst x. rewrite El. destruct (Z.leb_spec p v); cbn [Z.b2z]; lia. }
  assert (0 <= limbs_Z l).
  { unfold limbs_Z, limbs_mag in *. lia. }
  split.
  - unfold fe_inv. cbn [fe_n magnitude normalized]. split; [lia|].
    split; [apply (fe52_limbs_mag_le 1); [exact Hl | lia]|]. intros _. split; [lia|]. split; assumption.
  - apply (Z.mod_unique _ _ (q + x)); [left; lia|]. rewrite El. ring.
Qed.

Ltac open_fe r Hl c :=
  apply (fe52_limbs_mag_le _ c) in Hl; [|lia];
  let a0 := fresh "a" in let a1 := fresh "a" in let a2 := fresh "a" in let a3 := fresh "a" in let a4 := fresh "a" in
  let m := fresh "m" in let nm := fresh "nm" in
  destruct r as [[a0 a1 a2 a3 a4] m nm]; unfold limbs_mag in Hl;
  cbn [d0 d1 d2 d3 d4 fe_n magnitude normalized] in *;
  destruct Hl as (? & ? & ? & ? & ?).

Ltac read_limbs :=
  lazymatch goal with
  | |- Returns _ ?Q => let q := fresh in set (q := Q); cbv beta iota delta [fe_n]; subst q
  end.

(** Turns the code's test for the final reduction into a comparison with the
    prime. *)
Ltac decide_reduction Hx :=
  repeat match goal with E : ?m = Z.land _ _ |- _ => subst m end;
  match goal with
  | E : ?x = Z.lor ?h (Z.land (Z.land (Z.b2z (?t4 =? _)) _) _), El : ?l = ?t4 - ?h * 2 ^ 48 |- _ =>
      erewrite fe52_final_reduction in E; [..|exact El]; [|lia ..]; rename E into Hx
  end.

Lemma fe52_normalize_spec r : fe_inv r -> magnitude r < 2048 ->
  Returns (secp256k1_fe_normalize r) (fun r' =>
    fe_inv r' /\ magnitude r' = 1 /\ normalized r' = true /\
    limbs_Z (fe_n r') = limbs_Z (fe_n r) mod p).
Proof.
  intros (Hm & Hl & _) Hm'. open_fe r Hl 4094.
  cbv beta delta [secp256k1_fe_normalize]. read_limbs. c_inputs. c_steps. decide_reduction Hx.
  pose proof p_literal as Hp.
  assert (h9 = v6 /\ limbs_Z (L5 l5 l6 l7 l8 l9) = limbs_Z (L5 l0 l1 l2 l3 v4) - v6 * p) as [H9 Hz].
  { subst v6. unfold limbs_Z in *. cbn [d0 d1 d2 d3 d4] in *.
    destruct (Z.leb_spec p (l0 + l1 * 2 ^ 52 + l2 * 2 ^ 104 + l3 * 2 ^ 156 + v4 * 2 ^ 208)) as [G|G];
      rewrite Hp in G |- *; cbn [Z.b2z] in *; lia. }
  apply Returns_check; [apply Z.eqb_eq; exact H9|]. cbv zeta.
  destruct (fe52_reduced_fe (L5 l5 l6 l7 l8 l9) _ h v6 ltac:(unfold limbs_mag; cbn [d0 d1 d2 d3 d4]; lia) Hx Hz) as [Hinv Hr].
  { rewrite Hp. unfold limbs_Z. cbn [d0 d1 d2 d3 d4]. lia. }
  apply fe52_Returns_verify; [exact Hinv|]. apply Returns_ret.
  split; [exact Hinv|]. split; [reflexivity|]. split; [reflexivity|].
  cbn [fe_n]. rewrite Hr. f_equal. rewrite Hp. unfold limbs_Z. cbn [d0 d1 d2 d3 d4]. lia.
Qed.

Lemma fe52_normalize_weak_spec r : fe_inv r -> magnitude r < 2048 ->
  Returns (secp256k1_fe_normalize_weak r) (fun r' =>
    fe_inv r' /\ magnitude r' = 1 /\ normalized r' = normalized r /\ fe_val r' = fe_val r).
Proof.
  intros (Hm & Hl & Hn) Hm'. open_fe r Hl 4094.
  cbv beta delta [secp256k1_fe_normalize_weak]. read_limbs. c_inputs. c_steps.
  cbv zeta. pose proof p_literal as Hp.
  match goal with |- Returns (bind (secp256k1_fe_verify ?x) _) _ => assert (fe_inv x) as Hinv end.
  { unfold fe_inv, limbs_mag, limbs_Z in *. cbn [d0 d1 d2 d3 d4 fe_n magnitude normalized] in *.
    split; [lia|]. split; [lia|]. intros Hnm. destruct (Hn Hnm) as (_ & Hl1 & Hlt).
    rewrite Hp in Hlt |- *. lia. }
  apply fe52_Returns_verify; [exact Hinv|]. apply Returns_ret.
  split; [exact Hinv|]. split; [reflexivity|]. split; [reflexivity|].
  unfold fe_val, limbs_Z. cbn [d0 d1 d2 d3 d4 fe_n]. clear Hinv Hn. residue_ring.
Qed.

Lemma fe52_normalize_var_spec r : fe_inv r -> magnitude r < 2048 ->
  Returns (secp256k1_fe_normalize_var r) (fun r' =>
    fe_inv r' /\ magnitude r' = 1 /\ normalized r' = true /\
    limbs_Z (fe_n r') = limbs_Z (fe_n r) mod p).
Proof.
  intros (Hm & Hl & _) Hm'. open_fe r Hl 4094.
  cbv beta delta [secp256k1_fe_normalize_var]. read_limbs. c_inputs. c_steps. decide_reduction Hx.
  pose proof p_literal as Hp.
  apply (Returns_bind _ _ (fun l' => limbs_mag 1 l' /\
    limbs_Z l' = limbs_Z (L5 l0 l1 l2 l3 v4) - v6 * p)).
  - destruct (Z.leb_spec p (limbs_Z (L5 l0 l1 l2 l3 v4))) as [G|G];
      rewrite Hp in G; unfold limbs_Z in G; cbn [d0 d1 d2 d3 d4] in G; cbn [Z.b2z] in Hx; subst v6.
    + change (negb (1 =? 0)) with true. cbv iota.
      c_steps. apply Returns_check; [apply Z.eqb_eq; lia|]. c_steps. apply Returns_ret.
      unfold limbs_Z, limbs_mag. cbn [d0 d1 d2 d3 d4]. rewrite Hp. lia.
    + apply Returns_ret. unfold limbs_Z, limbs_mag. cbn [d0 d1 d2 d3 d4]. lia.
  - intros l' [Hl' Hz]. cbv zeta.
    destruct (fe52_reduced_fe l' _ h v6 Hl' Hx Hz) as [Hinv Hr].
    { rewrite Hp. unfold limbs_Z. cbn [d0 d1 d2 d3 d4]. lia. }
    apply fe52_Returns_verify; [exact Hinv|]. apply Returns_ret.
    split; [exact Hinv|]. split; [reflexivity|]. split; [reflexivity|].
    cbn [fe_n]. rewrite Hr. f_equal. rewrite Hp. unfold limbs_Z. cbn [d0 d1 d2 d3 d4]. lia.
Qed.

(** The two raw values that stand for zero after the first pass. *)
Lemma fe52_zero_masks t0 t1 t2 t3 t4 :
  0 <= t0 <= 0xFFFFFFFFFFFFF -> 0 <= t1 <= 0xFFFFFFFFFFFFF -> 0 <= t2 <= 0xFFFFFFFFFFFFF ->
  0 <= t3 <= 0xFFFFFFFFFFFFF -> 0 <= t4 <= 0x1FFFFFFFFFFFF ->
  ((Z.lor (Z.lor (Z.lor (Z.lor t0 t1) t2) t3) t4 =? 0) ||
   (Z.land (Z.land (Z.land (Z.land (Z.lxor t0 0x1000003D0) t1) t2) t3) (Z.lxor t4 0xF000000000000)
      =? 0xFFFFFFFFFFFFF) = true)
  <-> limbs_Z (L5 t0 t1 t2 t3 t4) = 0 \/ limbs_Z (L5 t0 t1 t2 t3 t4) = p.
Proof.
  intros H0 H1 H2 H3 H4. rewrite orb_true_iff, !Z.eqb_eq, !Z.lor_eq_0_iff.
  change 0xFFFFFFFFFFFFF with (Z.ones 52) in *.
  assert (0 <= Z.lxor t0 0x1000003D0 <= Z.ones 52) by (apply lxor_ones; cbn in *; lia).
  assert (0 <= Z.lxor t4 0xF000000000000 <= Z.ones 52) by (apply lxor_ones; cbn in *; lia).
  rewrite !land_eq_ones by (first [assumption | apply bnd_land_l; assumption | lia]). rewrite !lxor_eq_iff.
  rewrite p_literal. change (Z.ones 52) with 0xFFFFFFFFFFFFF in *.
  change (Z.lxor 0xFFFFFFFFFFFFF 0x1000003D0) with 0xFFFFEFFFFFC2F.
  change (Z.lxor 0xFFFFFFFFFFFFF 0xF000000000000) with 0x0FFFFFFFFFFFF.
  unfold limbs_Z. cbn [d0 d1 d2 d3 d4]. lia.
Qed.

Ltac subst_masks :=
  repeat match goal with
    | E : ?v = Z.land _ _ |- _ => subst v
    | E : ?v = Z.lor _ _ |- _ => subst v
    | E : ?v = Z.lxor _ _ |- _ => subst v
    end.

Lemma fe52_normalizes_to_zero_spec r : fe_inv r -> magnitude r < 2048 ->
  Returns (secp256k1_fe_normalizes_to_zero r) (fun b => b = true <-> fe_val r = Zmod.zero).
Proof.
  intros (Hm & Hl & Hn) Hm'. clear Hn. open_fe r Hl 4094.
  cbv beta delta [secp256k1_fe_normalizes_to_zero]. read_limbs. c_inputs. c_steps.
  subst_masks. apply Returns_ret. rewrite fe52_zero_masks by lia.
  unfold fe_val. rewrite toFp_zero. pose proof p_literal as Hp.
  rewrite <- (zero_iff _ h); unfold limbs_Z; cbn [d0 d1 d2 d3 d4 fe_n]; rewrite Hp; [|lia].
  match goal with |- ?x mod _ = 0 <-> ?y mod _ = 0 => replace y with x by lia end. reflexivity.
Qed.

Lemma fe52_normalizes_to_zero_var_spec r : fe_inv r -> magnitude r < 2048 ->
  Returns (secp256k1_fe_normalizes_to_zero_var r) (fun b => b = true <-> fe_val r = Zmod.zero).
Proof.
  intros (Hm & Hl & Hn) Hm'. clear Hn. open_fe r Hl 4094.
  cbv beta delta [secp256k1_fe_normalizes_to_zero_var]. read_limbs. c_inputs. c_steps.
  pose proof p_literal as Hp.
  destruct (_ && _) eqn:Hfast.
  - apply Returns_ret. split; [discriminate|]. intros Hz.
    apply andb_prop in Hfast as [Hz0 Hz1]. rewrite negb_true_iff, Z.eqb_neq in Hz0, Hz1.
    unfold fe_val in Hz. rewrite toFp_zero in Hz.
    subst_masks. rewrite lxor_eq_iff in Hz1. change (Z.lxor 0xFFFFFFFFFFFFF 0x1000003D0) with 0xFFFFEFFFFFC2F in Hz1.
    replace (limbs_Z _) with ((limbs_Z (L5 v a0 a1 a2 l)) + h * p) in Hz.
    2: { rewrite Hp. unfold limbs_Z. cbn [d0 d1 d2 d3 d4 fe_n]. lia. }
    rewrite Z.mod_add in Hz by lia. apply Z.mod_divide in Hz; [|lia]. destruct Hz as [k Hk].
    unfold limbs_Z in Hk. cbn [d0 d1 d2 d3 d4] in Hk. rewrite Hp in Hk. assert (k = 0 \/ k = 1) as [->| ->] by lia; lia.
  - clear Hfast. c_steps. subst_masks. apply Returns_ret. rewrite fe52_zero_masks by lia.
    unfold fe_val. rewrite toFp_zero.
    rewrite <- (zero_iff _ h); unfold limbs_Z; cbn [d0 d1 d2 d3 d4 fe_n]; rewrite Hp; [|lia].
    match goal with |- ?x mod _ = 0 <-> ?y mod _ = 0 => replace y with x by lia end. reflexivity.
Qed.

Lemma fe52_set_int_spec a : 0 <= a <= 0x3FFFFFF ->
  Returns (secp256k1_fe_set_int a) (fun r =>
    fe_inv r /\ magnitude r = 1 /\ normalized r = true /\ limbs_Z (fe_n r) = a).
Proof.
  intros Ha. cbv beta delta [secp256k1_fe_set_int]. cbv zeta.
  replace (u64 a) with a by (unfold u64; rewrite Z.mod_small; lia).
  assert (limbs_Z (L5 a 0 0 0 0) = a) as Hz by (unfold limbs_Z; cbn [d0 d1 d2 d3 d4]; lia).
  assert (fe_inv (mk_fe (L5 a 0 0 0 0) 1 true)) as Hinv.
  { unfold fe_inv. cbn [fe_n magnitude normalized]. rewrite Hz, p_literal.
    unfold limbs_mag. cbn [d0 d1 d2 d3 d4]. lia. }
  apply fe52_Returns_verify; [exact Hinv|]. apply Returns_ret. auto.
Qed.

Lemma fe52_clear_spec :
  fe_inv secp256k1_fe_clear /\ normalized secp256k1_fe_clear = true /\ limbs_Z (fe_n secp256k1_fe_clear) = 0.
Proof.
  split; [|split; reflexivity].
  unfold fe_inv, secp256k1_fe_clear, limbs_mag, limbs_Z.
  cbn [d0 d1 d2 d3 d4 fe_n magnitude normalized]. rewrite p_literal. lia.
Qed.

Lemma fe52_normalized_Z a : fe_inv a -> normalized a = true ->
  limbs_mag 1 (fe_n a) /\ 0 <= limbs_Z (fe_n a) < p.
Proof.
  intros (_ & _ & Hn) Hnm. destruct (Hn Hnm) as (_ & Hl & Hp). split; [exact Hl|].
  unfold limbs_mag, limbs_Z in *. lia.
Qed.

Lemma fe52_normalized_spec a : fe_inv a -> normalized a = true -> magnitude a <= 1 /\ 0 <= limbs_Z (fe_n a) < p.
Proof.
  intros Ha Hn. split; [apply Ha, Hn|]. apply (fe52_normalized_Z a Ha Hn).
Qed.

Lemma fe52_is_zero_spec a : fe_inv a -> normalized a = true ->
  Returns (secp256k1_fe_is_zero a) (fun b => b = (limbs_Z (fe_n a) =? 0)).
Proof.
  intros Ha Hn. destruct (fe52_normalized_Z a Ha Hn) as [Hl Hz].
  unfold secp256k1_fe_is_zero. destruct (fe_n a) as [t0 t1 t2 t3 t4].
  apply Returns_check; [exact Hn|]. apply fe52_Returns_verify; [exact Ha|]. apply Returns_ret.
  apply eq_true_iff_eq. rewrite !Z.eqb_eq, !Z.lor_eq_0_iff.
  unfold limbs_mag, limbs_Z in *. cbn [d0 d1 d2 d3 d4] in *. lia.
Qed.

Lemma fe52_is_odd_spec a : fe_inv a -> normalized a = true ->
  Returns (secp256k1_fe_is_odd a) (fun b => b = Z.odd (limbs_Z (fe_n a))).
Proof.
  intros Ha Hn. unfold secp256k1_fe_is_odd.
  apply Returns_check; [exact Hn|]. apply fe52_Returns_verify; [exact Ha|]. apply Returns_ret.
  rewrite land_1_odd. unfold limbs_Z. 
  replace (d0 _ + _ + _ + _ + _) with (d0 (fe_n a) + 2 * (d1 (fe_n a) * 2 ^ 51 + d2 (fe_n a) * 2 ^ 103 + d3 (fe_n a) * 2 ^ 155 + d4 (fe_n a) * 2 ^ 207)) by lia.
  rewrite Z.odd_add_mul_2. reflexivity.
Qed.

Lemma fe52_cmp_var_spec a b : fe_inv a -> fe_inv b -> normalized a = true -> normalized b = true ->
  Returns (secp256k1_fe_cmp_var a b) (fun c =>
    c = sign_of (limbs_Z (fe_n a) ?= limbs_Z (fe_n b))).
Proof.
  intros Ha Hb Hna Hnb. destruct (fe52_normalized_Z a Ha Hna) as [Hla _], (fe52_normalized_Z b Hb Hnb) as [Hlb _].
  unfold secp256k1_fe_cmp_var. 
  do 2 (apply Returns_check; [assumption|]). do 2 (apply fe52_Returns_verify; [assumption|]). apply Returns_ret.
  destruct (fe_n a) as [a0 a1 a2 a3 a4], (fe_n b) as [b0 b1 b2 b3 b4].
  unfold limbs_mag, limbs_Z, to_list in *. cbn [d0 d1 d2 d3 d4 rev app cmp_limbs] in *.
  repeat match goal with |- context [?x <? ?y] => destruct (Z.ltb_spec x y) end;
  match goal with |- _ = sign_of (?x ?= ?y) => destruct (Z.compare_spec x y) end; cbn [sign_of]; lia.
Qed.


Lemma fe52_limbs_Z_digits l : limbs_Z (of_list l) = digits_value 52 (fun t => nth t l 0) 5.
Proof. unfold limbs_Z, of_list. cbn [d0 d1 d2 d3 d4 digits_value Nat.mul Nat.add]. eval_literals.
  change (2 ^ Z.of_nat 0) with 1. change (2 ^ Z.of_nat 52) with 4503599627370496.
  change (2 ^ Z.of_nat 104) with (2 ^ 104). change (2 ^ Z.of_nat 156) with (2 ^ 156).
  change (2 ^ Z.of_nat 208) with (2 ^ 208). eval_literals. ring. Qed.

Lemma fe52_of_limbs_of v : 0 <= v < 2 ^ 256 ->
  limbs_mag 1 (of_list (limbs_of 52 5 v)) /\ limbs_Z (of_list (limbs_of 52 5 v)) = v.
Proof.
  intros Hv.
  assert (limbs_Z (of_list (limbs_of 52 5 v)) = v) as Hz.
  { rewrite fe52_limbs_Z_digits, digits_limbs_of. apply Z.mod_small.
    change (2 ^ Z.of_nat (52 * 5)) with (2 ^ 260). lia. }
  split; [|exact Hz].
  assert (forall i, (i < 5)%nat -> 0 <= nth i (limbs_of 52 5 v) 0 < 2 ^ 52) as Hr
    by (intros i Hi; rewrite nth_limbs_of by exact Hi; apply Z.mod_pos_bound; lia).
  pose proof (Hr 0%nat ltac:(lia)). pose proof (Hr 1%nat ltac:(lia)). pose proof (Hr 2%nat ltac:(lia)).
  pose proof (Hr 3%nat ltac:(lia)). pose proof (Hr 4%nat ltac:(lia)).
  unfold limbs_mag, limbs_Z, of_list in *. cbn [d0 d1 d2 d3 d4] in *. lia.
Qed.

Lemma fe52_to_limbs_of l : limbs_mag 1 l -> to_list l = limbs_of 52 5 (limbs_Z l).
Proof.
  intros Hl. replace l with (of_list (to_list l)) at 2 by (destruct l; reflexivity).
  rewrite fe52_limbs_Z_digits. symmetry. apply limbs_of_digits; [reflexivity|].
  destruct l as [a0 a1 a2 a3 a4]. unfold limbs_mag in Hl. cbn [d0 d1 d2 d3 d4] in Hl.
  unfold to_list. cbn [d0 d1 d2 d3 d4]. change (2 ^ Z.of_nat 52) with (2 ^ 52).
  intros t Ht. do 5 (destruct t as [|t]; [cbn [nth]; lia|]). lia.
Qed.

Lemma fe52_u64_id x : 0 <= x < 2 ^ Z.of_nat 52 -> u64 x = x.
Proof. intros Hx. apply Z.mod_small. change (2 ^ Z.of_nat 52) with (2 ^ 52) in Hx. lia. Qed.

Lemma fe52_set_b32_spec r a : bytes_of_len 32 a ->
  Returns (secp256k1_fe_set_b32 r a) (fun '(ok, r') =>
    ok = (be_value a <? p) /\ limbs_Z (fe_n r') = be_value a /\
    (ok = true -> fe_inv r' /\ magnitude r' = 1 /\ normalized r' = true)).
Proof.
  intros Ha. unfold secp256k1_fe_set_b32.
  change [0; 0; 0; 0; 0] with (repeat 0 5). change 0xF with (Z.ones (Z.of_nat 4)).
  rewrite pack_b32_spec; [|lia|reflexivity|reflexivity|lia|exact fe52_u64_id|exact Ha|lia].
  destruct (fe52_of_limbs_of (be_value a)) as [Hl Hz].
  { pose proof (be_value_range _ _ Ha). change (2 ^ 256) with (256 ^ Z.of_nat 32). lia. }
  set (l := of_list _) in *. rewrite (fe52_overflow_iff l Hl), Hz.
  rewrite Z.leb_antisym. destruct (Z.ltb_spec (be_value a) p) as [G|G]; cbn [negb].
  - assert (fe_inv (mk_fe l 1 true)) as Hinv.
    { unfold fe_inv. cbn [fe_n magnitude normalized]. split; [lia|].
      split; [apply (fe52_limbs_mag_le 1); [exact Hl|lia]|].
      intros _. rewrite Hz. split; [lia|]. split; assumption. }
    apply fe52_Returns_verify; [exact Hinv|]. apply Returns_ret. auto.
  - apply Returns_ret. split; [reflexivity|]. split; [exact Hz|]. discriminate.
Qed.

Lemma fe52_get_b32_spec a : fe_inv a -> normalized a = true ->
  Returns (secp256k1_fe_get_b32 a) (fun b => b = be_bytes 32 (limbs_Z (fe_n a))).
Proof.
  intros Ha Hn. unfold secp256k1_fe_get_b32. destruct (fe52_normalized_Z a Ha Hn) as [Hl Hz].
  apply Returns_check; [exact Hn|]. apply fe52_Returns_verify; [exact Ha|]. apply Returns_ret.
  rewrite (fe52_to_limbs_of _ Hl). change 0xF with (Z.ones (Z.of_nat 4)).
  apply unpack_b32_spec; try lia; try reflexivity. rewrite p_literal in Hz. lia.
Qed.

Lemma fe52_negate_spec a m : fe_inv a -> magnitude a <= m -> m < 2048 ->
  Returns (secp256k1_fe_negate a m) (fun r =>
    fe_inv r /\ magnitude r = m + 1 /\ normalized r = false /\ fe_val r = (- fe_val a)%Zmod).
Proof.
  intros Ha Hm Hm'. unfold secp256k1_fe_negate. apply Returns_check; [apply Z.leb_le; exact Hm|].
  apply fe52_Returns_verify; [exact Ha|]. destruct Ha as (H0 & Hl & _).
  unfold fe_val. destruct (fe_n a) as [a0 a1 a2 a3 a4]. apply (fe52_limbs_mag_le _ (2 * m)) in Hl; [|lia].
  unfold limbs_mag in Hl. cbn [d0 d1 d2 d3 d4] in Hl. unfold u64.
  rewrite !Z.mod_small by lia.
  match goal with |- Returns (bind (secp256k1_fe_verify ?x) _) _ => assert (fe_inv x) as Hinv end.
  { unfold fe_inv, limbs_mag. cbn [d0 d1 d2 d3 d4 fe_n magnitude normalized].
    split; [lia|]. split; [lia|]. discriminate. }
  apply fe52_Returns_verify; [exact Hinv|]. apply Returns_ret.
  split; [exact Hinv|]. split; [reflexivity|]. split; [reflexivity|].
  unfold limbs_Z. cbn [d0 d1 d2 d3 d4 fe_n]. clear. autorewrite with residue. eval_literals. ring.
Qed.

Lemma fe52_mul_int_spec r a : fe_inv r -> 0 <= a -> magnitude r * a <= 2048 ->
  Returns (secp256k1_fe_mul_int r a) (fun r' =>
    fe_inv r' /\ magnitude r' = magnitude r * a /\ normalized r' = false /\
    fe_val r' = (fe_val r * toFp a)%Zmod).
Proof.
  intros Hr Ha Hm. unfold secp256k1_fe_mul_int, fe_val. destruct Hr as (H0 & Hl & _).
  destruct (fe_n r) as [a0 a1 a2 a3 a4]. unfold limbs_mag in Hl. cbn [d0 d1 d2 d3 d4] in Hl. unfold u64.
  rewrite !Z.mod_small by nia.
  match goal with |- Returns (bind (secp256k1_fe_verify ?x) _) _ => assert (fe_inv x) as Hinv end.
  { unfold fe_inv, limbs_mag. cbn [d0 d1 d2 d3 d4 fe_n magnitude normalized].
    split; [nia|]. split; [nia|]. discriminate. }
  apply fe52_Returns_verify; [exact Hinv|]. apply Returns_ret.
  split; [exact Hinv|]. split; [reflexivity|]. split; [reflexivity|].
  unfold limbs_Z. cbn [d0 d1 d2 d3 d4 fe_n]. clear. autorewrite with residue. eval_literals. ring.
Qed.

Lemma fe52_add_spec r a : fe_inv r -> fe_inv a -> magnitude r + magnitude a <= 2048 ->
  Returns (secp256k1_fe_add r a) (fun r' =>
    fe_inv r' /\ magnitude r' = magnitude r + magnitude a /\ normalized r' = false /\
    fe_val r' = (fe_val r + fe_val a)%Zmod).
Proof.
  intros Hr Ha Hm. unfold secp256k1_fe_add, fe_val. apply fe52_Returns_verify; [exact Ha|].
  destruct Hr as (H0 & Hl & _), Ha as (H1 & Hl1 & _).
  destruct (fe_n r) as [r0 r1 r2 r3 r4], (fe_n a) as [a0 a1 a2 a3 a4].
  unfold limbs_mag in Hl, Hl1. cbn [d0 d1 d2 d3 d4] in Hl, Hl1. unfold u64.
  rewrite !Z.mod_small by lia.
  match goal with |- Returns (bind (secp256k1_fe_verify ?x) _) _ => assert (fe_inv x) as Hinv end.
  { unfold fe_inv, limbs_mag. cbn [d0 d1 d2 d3 d4 fe_n magnitude normalized].
    split; [lia|]. split; [lia|]. discriminate. }
  apply fe52_Returns_verify; [exact Hinv|]. apply Returns_ret.
  split; [exact Hinv|]. split; [reflexivity|]. split; [reflexivity|].
  unfold limbs_Z. cbn [d0 d1 d2 d3 d4 fe_n]. clear. autorewrite with residue. eval_literals. ring.
Qed.

Lemma fe52_product_fe l : limbs_mag 2 l -> fe_inv (mk_fe l 1 false).
Proof.
  intros Hl. unfold fe_inv. cbn [fe_n magnitude normalized]. split; [lia|]. split; [exact Hl|]. discriminate.
Qed.

Lemma fe52_mul_spec a b : fe_inv a -> fe_inv b -> magnitude a <= 8 -> magnitude b <= 8 ->
  Returns (secp256k1_fe_mul a b) (fun r =>
    fe_inv r /\ magnitude r = 1 /\ normalized r = false /\ fe_val r = (fe_val a * fe_val b)%Zmod).
Proof.
  intros Ha Hb Hma Hmb. unfold secp256k1_fe_mul.
  do 2 (apply Returns_check; [apply Z.leb_le; assumption|]).
  do 2 (apply fe52_Returns_verify; [assumption|]). destruct Ha as (? & Ha & _), Hb as (? & Hb & _).
  eapply Returns_bind.
  { apply fe52_mul_inner_spec; (eapply fe52_limbs_mag_le; [eassumption | lia]). }
  intros l [Hl Hv]. cbv zeta. pose proof (fe52_product_fe l Hl).
  apply fe52_Returns_verify; [assumption|]. apply Returns_ret. auto.
Qed.

Lemma fe52_sqr_spec a : fe_inv a -> magnitude a <= 8 ->
  Returns (secp256k1_fe_sqr a) (fun r =>
    fe_inv r /\ magnitude r = 1 /\ normalized r = false /\ fe_val r = (fe_val a * fe_val a)%Zmod).
Proof.
  intros Ha Hma. unfold secp256k1_fe_sqr. apply Returns_check; [apply Z.leb_le; assumption|].
  apply fe52_Returns_verify; [assumption|]. destruct Ha as (? & Ha & _).
  eapply Returns_bind; [apply fe52_sqr_inner_spec; eapply fe52_limbs_mag_le; [eassumption | lia]|].
  intros l [Hl Hv]. cbv zeta. pose proof (fe52_product_fe l Hl).
  apply fe52_Returns_verify; [assumption|]. apply Returns_ret. auto.
Qed.

Lemma fe52_select64_spec flag x y : flag = 0 \/ flag = 1 -> 0 <= x < 2 ^ 64 -> 0 <= y < 2 ^ 64 ->
  select64 (u64 (flag + u64 (Z.lnot 0))) (u64 (Z.lnot (u64 (flag + u64 (Z.lnot 0))))) x y
    = if flag =? 0 then x else y.
Proof. intros Hf Hx Hy. apply (select_mask 64); (assumption || lia). Qed.

Lemma fe52_limbs_mag_u64 l m : limbs_mag m l -> 0 <= m <= 4096 ->
  0 <= d0 l < 2 ^ 64 /\ 0 <= d1 l < 2 ^ 64 /\ 0 <= d2 l < 2 ^ 64 /\ 0 <= d3 l < 2 ^ 64 /\ 0 <= d4 l < 2 ^ 64.
Proof. unfold limbs_mag. lia. Qed.

Lemma fe52_cmov_eq r a flag : fe_inv r -> fe_inv a -> flag = 0 \/ flag = 1 ->
  secp256k1_fe_cmov r a flag =
  mk_fe (if flag =? 0 then fe_n r else fe_n a) (Z.max (magnitude r) (magnitude a)) (normalized r && normalized a).
Proof.
  intros (Hmr & Hlr & _) (Hma & Hla & _) Hf. unfold secp256k1_fe_cmov.
  pose proof (fe52_limbs_mag_u64 _ _ Hlr ltac:(lia)). pose proof (fe52_limbs_mag_u64 _ _ Hla ltac:(lia)).
  destruct (fe_n r) as [r0 r1 r2 r3 r4], (fe_n a) as [a0 a1 a2 a3 a4]. cbn [d0 d1 d2 d3 d4] in *.
  rewrite !fe52_select64_spec by tauto. f_equal; [destruct (flag =? 0); reflexivity|].
  destruct (Z.ltb_spec (magnitude r) (magnitude a)); lia.
Qed.

Lemma fe52_cmov_spec r a flag : fe_inv r -> fe_inv a -> flag = 0 \/ flag = 1 ->
  let r' := secp256k1_fe_cmov r a flag in
  fe_inv r' /\ magnitude r' = Z.max (magnitude r) (magnitude a) /\
  normalized r' = normalized r && normalized a /\
  limbs_Z (fe_n r') = if flag =? 0 then limbs_Z (fe_n r) else limbs_Z (fe_n a).
Proof.
  intros Hr Ha Hf. cbv zeta. rewrite (fe52_cmov_eq r a flag Hr Ha Hf).
  destruct Hr as (Hmr & Hlr & Hnr), Ha as (Hma & Hla & Hna).
  cbn [fe_n magnitude normalized]. split; [|split; [reflexivity|split; [reflexivity|]]].
  - unfold fe_inv. cbn [fe_n magnitude normalized]. split; [lia|]. split.
    + destruct (flag =? 0); (eapply fe52_limbs_mag_le; [eassumption | lia]).
    + intros [H1 H2]%andb_prop. specialize (Hnr H1). specialize (Hna H2).
      split; [lia|]. destruct (flag =? 0); tauto.
  - destruct (flag =? 0); reflexivity.
Qed.

Lemma fe52_storage_cmov_spec r a flag : storage_wf r -> storage_wf a -> flag = 0 \/ flag = 1 ->
  secp256k1_fe_storage_cmov r a flag = if flag =? 0 then r else a.
Proof.
  intros Hr Ha Hf. unfold secp256k1_fe_storage_cmov, storage_wf in *.
  destruct r as [r0 r1 r2 r3], a as [a0 a1 a2 a3]. cbn [s0 s1 s2 s3] in *.
  rewrite !fe52_select64_spec by tauto. destruct (flag =? 0); reflexivity.
Qed.

Lemma fe52_to_storage_spec a : fe_inv a -> normalized a = true ->
  Returns (secp256k1_fe_to_storage a) (fun s =>
    storage_wf s /\ storage_Z s = limbs_Z (fe_n a)).
Proof.
  intros Ha Hn. destruct (fe52_normalized_Z a Ha Hn) as [Hl _]. unfold secp256k1_fe_to_storage.
  apply Returns_check; [exact Hn|]. destruct (fe_n a) as [n0 n1 n2 n3 n4]. apply Returns_ret.
  unfold limbs_mag, storage_wf, storage_Z, limbs_Z, u64 in *. cbn [d0 d1 d2 d3 d4 s0 s1 s2 s3] in *.
  rewrite !Z.shiftr_div_pow2 by lia.
  rewrite !lor_shiftl_wrap by (Z.to_euclidean_division_equations; lia).
  change (2 ^ (64 - 52)) with (2 ^ 12). change (2 ^ (64 - 40)) with (2 ^ 24).
  change (2 ^ (64 - 28)) with (2 ^ 36). change (2 ^ (64 - 16)) with (2 ^ 48).
  Z.to_euclidean_division_equations; lia.
Qed.

Lemma fe52_from_storage_spec s : storage_wf s -> storage_Z s < p ->
  let r := secp256k1_fe_from_storage s in
  fe_inv r /\ magnitude r = 1 /\ normalized r = true /\ limbs_Z (fe_n r) = storage_Z s.
Proof.
  intros Hs Hp. cbv zeta. unfold secp256k1_fe_from_storage.
  assert (forall k x, 0 <= k <= 52 -> 0 <= x -> Z.land (u64 (Z.shiftl x k)) 0xFFFFFFFFFFFFF = Z.shiftl x k mod 2 ^ 52) as Hland.
  { intros k x Hk Hx. change 0xFFFFFFFFFFFFF with (Z.ones 52). rewrite Z.land_ones by lia. unfold u64.
    apply Z.mod_mod_divide. exists (2 ^ 12). reflexivity. }
  destruct s as [a0 a1 a2 a3]. unfold storage_wf, storage_Z in *. cbn [s0 s1 s2 s3] in *.
  rewrite !Hland by lia. change (Z.land a0 0xFFFFFFFFFFFFF) with (Z.land a0 (Z.ones 52)).
  rewrite Z.land_ones, !Z.shiftr_div_pow2 by lia.
  rewrite !lor_shiftl_wrap by (Z.to_euclidean_division_equations; lia).
  change (2 ^ (52 - 12)) with (2 ^ 40). change (2 ^ (52 - 24)) with (2 ^ 28). change (2 ^ (52 - 36)) with (2 ^ 16).
  match goal with |- fe_inv (mk_fe ?l _ _) /\ _ =>
    assert (limbs_mag 1 l /\ limbs_Z l = a0 + a1 * 2 ^ 64 + a2 * 2 ^ 128 + a3 * 2 ^ 192) as [Hl Hz] end.
  { unfold limbs_mag, limbs_Z. cbn [d0 d1 d2 d3 d4]. Z.to_euclidean_division_equations; lia. }
  cbn [fe_n magnitude normalized]. rewrite Hz. split; [|auto].
  unfold fe_inv. cbn [fe_n magnitude normalized]. rewrite Hz. split; [lia|].
  split; [eapply fe52_limbs_mag_le; [exact Hl|lia]|]. intros _. split; [lia|]. auto.
Qed.

Lemma fe52_const w7 w6 w5 w4 w3 w2 w1 w0 :
  is_word w7 -> is_word w6 -> is_word w5 -> is_word w4 -> is_word w3 -> is_word w2 -> is_word w1 -> is_word w0 ->
  words_value w7 w6 w5 w4 w3 w2 w1 w0 < p ->
  let r := SECP256K1_FE_CONST w7 w6 w5 w4 w3 w2 w1 w0 in
  fe_inv r /\ normalized r = true /\ limbs_Z (fe_n r) = words_value w7 w6 w5 w4 w3 w2 w1 w0.
Proof.
  unfold is_word. intros H7 H6 H5 H4 H3 H2 H1 H0 Hp. cbv zeta.
  unfold SECP256K1_FE_CONST, SECP256K1_FE_CONST_INNER.
  match goal with |- fe_inv (mk_fe ?l _ _) /\ _ =>
    assert (limbs_mag 1 l /\ limbs_Z l = words_value w7 w6 w5 w4 w3 w2 w1 w0) as [Hl Hz] end.
  { unfold limbs_mag, limbs_Z, words_value, u64. cbn [d0 d1 d2 d3 d4].
    change 0xFFFFF with (Z.ones 20). change 0xFF with (Z.ones 8). change 0xFFFFFFF with (Z.ones 28).
    change 0xFFFF with (Z.ones 16).
    rewrite !Z.land_ones, !Z.shiftr_div_pow2 by lia.
    rewrite !lor_shiftl_wrap by (rewrite ?lor_shiftl_wrap; Z.to_euclidean_division_equations; lia).
    repeat match goal with |- context [2 ^ (64 - ?k)] => let v := eval vm_compute in (2 ^ (64 - k)) in
      change (2 ^ (64 - k)) with v end.
    name_quotients. lia. }
  cbn [fe_n]. split; [|split; [reflexivity | exact Hz]]. unfold fe_inv. cbn [fe_n magnitude normalized]. rewrite Hz.
  split; [lia|]. split; [apply (fe52_limbs_mag_le 1); [exact Hl|lia]|]. intros _. split; [lia|]. auto.
Qed.

Lemma fe52_storage_const w7 w6 w5 w4 w3 w2 w1 w0 :
  is_word w7 -> is_word w6 -> is_word w5 -> is_word w4 -> is_word w3 -> is_word w2 -> is_word w1 -> is_word w0 ->
  let s := SECP256K1_FE_STORAGE_CONST w7 w6 w5 w4 w3 w2 w1 w0 in
  storage_wf s /\ storage_Z s = words_value w7 w6 w5 w4 w3 w2 w1 w0.
Proof.
  unfold is_word. intros H7 H6 H5 H4 H3 H2 H1 H0. cbv zeta.
  unfold storage_wf, storage_Z, SECP256K1_FE_STORAGE_CONST, words_value, u64. cbn [s0 s1 s2 s3].
  rewrite !lor_shiftl_wrap by lia. change (2 ^ (64 - 32)) with (2 ^ 32). rewrite !Z.mod_small by lia. lia.
Qed.
