(* ===== verification/Field10x26.v ===== *)
(** * Field elements as ten 26-bit limbs: [field_10x26.h] and [field_10x26_impl.h]

    The representation the package is built with.  As for the five-limb one, the
    model is of the [VERIFY] build.  [unsigned long] has 64 bits, so an expression
    with an [UL] constant is computed at 64 bits and wraps at 32 where it is
    stored. *)

From Stdlib Require Import ZArith Lia List Bool.
From S2P Require Import Prelude Modulus Bytes.
Import ListNotations.

#[local] Open Scope Z_scope.
#[local] Open Scope checked_scope.

(** ** Data *)

(** [uint32_t n[10]] *)
Record limbs : Type := L10 {
  d0 : Z; d1 : Z; d2 : Z; d3 : Z; d4 : Z; d5 : Z; d6 : Z; d7 : Z; d8 : Z; d9 : Z
}.

Record secp256k1_fe : Type := mk_fe {
  fe_n : limbs;
  magnitude : Z;
  normalized : bool
}.

(** [uint32_t n[8]] *)
Record secp256k1_fe_storage : Type := mk_storage {
  s0 : Z; s1 : Z; s2 : Z; s3 : Z; s4 : Z; s5 : Z; s6 : Z; s7 : Z
}.

(** The array as a list, lowest limb first, and back. *)
Definition to_list (l : limbs) : list Z :=
  [d0 l; d1 l; d2 l; d3 l; d4 l; d5 l; d6 l; d7 l; d8 l; d9 l].

Definition of_list (l : list Z) : limbs :=
  L10 (nth 0 l 0) (nth 1 l 0) (nth 2 l 0) (nth 3 l 0) (nth 4 l 0)
      (nth 5 l 0) (nth 6 l 0) (nth 7 l 0) (nth 8 l 0) (nth 9 l 0).

(** [SECP256K1_FE_CONST]: a constant from its eight 32-bit words. *)
Definition SECP256K1_FE_CONST_INNER (w7 w6 w5 w4 w3 w2 w1 w0 : Z) : limbs :=
  L10 (Z.land w0 0x3FFFFFF)
      (Z.lor (Z.shiftr (u32 w0) 26) (u64 (Z.shiftl (Z.land (u32 w1) 0xFFFFF) 6)))
      (Z.lor (Z.shiftr (u32 w1) 20) (u64 (Z.shiftl (Z.land (u32 w2) 0x3FFF) 12)))
      (Z.lor (Z.shiftr (u32 w2) 14) (u64 (Z.shiftl (Z.land (u32 w3) 0xFF) 18)))
      (Z.lor (Z.shiftr (u32 w3) 8) (u64 (Z.shiftl (Z.land (u32 w4) 0x3) 24)))
      (Z.land (Z.shiftr (u32 w4) 2) 0x3FFFFFF)
      (Z.lor (Z.shiftr (u32 w4) 28) (u64 (Z.shiftl (Z.land (u32 w5) 0x3FFFFF) 4)))
      (Z.lor (Z.shiftr (u32 w5) 22) (u64 (Z.shiftl (Z.land (u32 w6) 0xFFFF) 10)))
      (Z.lor (Z.shiftr (u32 w6) 16) (u64 (Z.shiftl (Z.land (u32 w7) 0x3FF) 16)))
      (Z.shiftr (u32 w7) 10).

Definition SECP256K1_FE_CONST (w7 w6 w5 w4 w3 w2 w1 w0 : Z) : secp256k1_fe :=
  mk_fe (SECP256K1_FE_CONST_INNER w7 w6 w5 w4 w3 w2 w1 w0) 1 true.

Definition SECP256K1_FE_STORAGE_CONST (w7 w6 w5 w4 w3 w2 w1 w0 : Z) : secp256k1_fe_storage :=
  mk_storage w0 w1 w2 w3 w4 w5 w6 w7.

(** ** Operations *)

Definition secp256k1_fe_verify (a : secp256k1_fe) : checked unit :=
  let d := fe_n a in
  let m := if normalized a then 1 else 2 * magnitude a in
  let r := (d0 d <=? u64 (0x3FFFFFF * m)) && (d1 d <=? u64 (0x3FFFFFF * m)) &&
           (d2 d <=? u64 (0x3FFFFFF * m)) && (d3 d <=? u64 (0x3FFFFFF * m)) &&
           (d4 d <=? u64 (0x3FFFFFF * m)) && (d5 d <=? u64 (0x3FFFFFF * m)) &&
           (d6 d <=? u64 (0x3FFFFFF * m)) && (d7 d <=? u64 (0x3FFFFFF * m)) &&
           (d8 d <=? u64 (0x3FFFFFF * m)) && (d9 d <=? u64 (0x03FFFFF * m)) &&
           (0 <=? magnitude a) && (magnitude a <=? 32) in
  let r :=
    if normalized a then
      let r := r && (magnitude a <=? 1) in
      if r && (d9 d =? 0x03FFFFF) then
        let mid := Z.land (Z.land (Z.land (Z.land (Z.land (Z.land (d8 d) (d7 d)) (d6 d)) (d5 d)) (d4 d)) (d3 d)) (d2 d) in
        if mid =? 0x3FFFFFF then
          r && (u64 (d1 d + 0x40 + Z.shiftr (u64 (d0 d + 0x3D1)) 26) <=? 0x3FFFFFF)
        else r
      else r
    else r in
  VERIFY_CHECK r.

Definition secp256k1_fe_normalize (r : secp256k1_fe) : checked secp256k1_fe :=
  let '(L10 t0 t1 t2 t3 t4 t5 t6 t7 t8 t9) := fe_n r in
  (* Reduce t9 at the start so there will be at most a single carry from the first pass *)
  let x := Z.shiftr t9 22 in let t9 := Z.land t9 0x03FFFFF in
  (* The first pass ensures the magnitude is 1, ... *)
  let t0 := u32 (t0 + x * 0x3D1) in let t1 := u32 (t1 + u32 (Z.shiftl x 6)) in
  let t1 := u32 (t1 + Z.shiftr t0 26) in let t0 := Z.land t0 0x3FFFFFF in
  let t2 := u32 (t2 + Z.shiftr t1 26) in let t1 := Z.land t1 0x3FFFFFF in
  let t3 := u32 (t3 + Z.shiftr t2 26) in let t2 := Z.land t2 0x3FFFFFF in let m := t2 in
  let t4 := u32 (t4 + Z.shiftr t3 26) in let t3 := Z.land t3 0x3FFFFFF in let m := Z.land m t3 in
  let t5 := u32 (t5 + Z.shiftr t4 26) in let t4 := Z.land t4 0x3FFFFFF in let m := Z.land m t4 in
  let t6 := u32 (t6 + Z.shiftr t5 26) in let t5 := Z.land t5 0x3FFFFFF in let m := Z.land m t5 in
  let t7 := u32 (t7 + Z.shiftr t6 26) in let t6 := Z.land t6 0x3FFFFFF in let m := Z.land m t6 in
  let t8 := u32 (t8 + Z.shiftr t7 26) in let t7 := Z.land t7 0x3FFFFFF in let m := Z.land m t7 in
  let t9 := u32 (t9 + Z.shiftr t8 26) in let t8 := Z.land t8 0x3FFFFFF in let m := Z.land m t8 in
  (* ... except for a possible carry at bit 22 of t9 *)
  VERIFY_BITS t9 23;;
  (* At most a single final reduction is needed *)
  let x := Z.lor (Z.shiftr t9 22)
             (Z.land (Z.land (Z.b2z (t9 =? 0x03FFFFF)) (Z.b2z (m =? 0x3FFFFFF)))
                     (Z.b2z (0x3FFFFFF <? u64 (t1 + 0x40 + Z.shiftr (u64 (t0 + 0x3D1)) 26)))) in
  let t0 := u32 (t0 + x * 0x3D1) in let t1 := u32 (t1 + u32 (Z.shiftl x 6)) in
  let t1 := u32 (t1 + Z.shiftr t0 26) in let t0 := Z.land t0 0x3FFFFFF in
  let t2 := u32 (t2 + Z.shiftr t1 26) in let t1 := Z.land t1 0x3FFFFFF in
  let t3 := u32 (t3 + Z.shiftr t2 26) in let t2 := Z.land t2 0x3FFFFFF in
  let t4 := u32 (t4 + Z.shiftr t3 26) in let t3 := Z.land t3 0x3FFFFFF in
  let t5 := u32 (t5 + Z.shiftr t4 26) in let t4 := Z.land t4 0x3FFFFFF in
  let t6 := u32 (t6 + Z.shiftr t5 26) in let t5 := Z.land t5 0x3FFFFFF in
  let t7 := u32 (t7 + Z.shiftr t6 26) in let t6 := Z.land t6 0x3FFFFFF in
  let t8 := u32 (t8 + Z.shiftr t7 26) in let t7 := Z.land t7 0x3FFFFFF in
  let t9 := u32 (t9 + Z.shiftr t8 26) in let t8 := Z.land t8 0x3FFFFFF in
  (* If t9 didn't carry to bit 22 already, then it should have after any final reduction *)
  VERIFY_CHECK (Z.shiftr t9 22 =? x);;
  let t9 := Z.land t9 0x03FFFFF in
  let r := mk_fe (L10 t0 t1 t2 t3 t4 t5 t6 t7 t8 t9) 1 true in
  secp256k1_fe_verify r;;
  ret r.

Definition secp256k1_fe_normalize_weak (r : secp256k1_fe) : checked secp256k1_fe :=
  let '(L10 t0 t1 t2 t3 t4 t5 t6 t7 t8 t9) := fe_n r in
  let x := Z.shiftr t9 22 in let t9 := Z.land t9 0x03FFFFF in
  let t0 := u32 (t0 + x * 0x3D1) in let t1 := u32 (t1 + u32 (Z.shiftl x 6)) in
  let t1 := u32 (t1 + Z.shiftr t0 26) in let t0 := Z.land t0 0x3FFFFFF in
  let t2 := u32 (t2 + Z.shiftr t1 26) in let t1 := Z.land t1 0x3FFFFFF in
  let t3 := u32 (t3 + Z.shiftr t2 26) in let t2 := Z.land t2 0x3FFFFFF in
  let t4 := u32 (t4 + Z.shiftr t3 26) in let t3 := Z.land t3 0x3FFFFFF in
  let t5 := u32 (t5 + Z.shiftr t4 26) in let t4 := Z.land t4 0x3FFFFFF in
  let t6 := u32 (t6 + Z.shiftr t5 26) in let t5 := Z.land t5 0x3FFFFFF in
  let t7 := u32 (t7 + Z.shiftr t6 26) in let t6 := Z.land t6 0x3FFFFFF in
  let t8 := u32 (t8 + Z.shiftr t7 26) in let t7 := Z.land t7 0x3FFFFFF in
  let t9 := u32 (t9 + Z.shiftr t8 26) in let t8 := Z.land t8 0x3FFFFFF in
  VERIFY_BITS t9 23;;
  let r := mk_fe (L10 t0 t1 t2 t3 t4 t5 t6 t7 t8 t9) 1 (normalized r) in
  secp256k1_fe_verify r;;
  ret r.

Definition secp256k1_fe_normalize_var (r : secp256k1_fe) : checked secp256k1_fe :=
  let '(L10 t0 t1 t2 t3 t4 t5 t6 t7 t8 t9) := fe_n r in
  let x := Z.shiftr t9 22 in let t9 := Z.land t9 0x03FFFFF in
  let t0 := u32 (t0 + x * 0x3D1) in let t1 := u32 (t1 + u32 (Z.shiftl x 6)) in
  let t1 := u32 (t1 + Z.shiftr t0 26) in let t0 := Z.land t0 0x3FFFFFF in
  let t2 := u32 (t2 + Z.shiftr t1 26) in let t1 := Z.land t1 0x3FFFFFF in
  let t3 := u32 (t3 + Z.shiftr t2 26) in let t2 := Z.land t2 0x3FFFFFF in let m := t2 in
  let t4 := u32 (t4 + Z.shiftr t3 26) in let t3 := Z.land t3 0x3FFFFFF in let m := Z.land m t3 in
  let t5 := u32 (t5 + Z.shiftr t4 26) in let t4 := Z.land t4 0x3FFFFFF in let m := Z.land m t4 in
  let t6 := u32 (t6 + Z.shiftr t5 26) in let t5 := Z.land t5 0x3FFFFFF in let m := Z.land m t5 in
  let t7 := u32 (t7 + Z.shiftr t6 26) in let t6 := Z.land t6 0x3FFFFFF in let m := Z.land m t6 in
  let t8 := u32 (t8 + Z.shiftr t7 26) in let t7 := Z.land t7 0x3FFFFFF in let m := Z.land m t7 in
  let t9 := u32 (t9 + Z.shiftr t8 26) in let t8 := Z.land t8 0x3FFFFFF in let m := Z.land m t8 in
  VERIFY_BITS t9 23;;
  let x := Z.lor (Z.shiftr t9 22)
             (Z.land (Z.land (Z.b2z (t9 =? 0x03FFFFF)) (Z.b2z (m =? 0x3FFFFFF)))
                     (Z.b2z (0x3FFFFFF <? u64 (t1 + 0x40 + Z.shiftr (u64 (t0 + 0x3D1)) 26)))) in
  l <- (if negb (x =? 0) then
          let t0 := u32 (t0 + 0x3D1) in let t1 := u32 (t1 + u32 (Z.shiftl x 6)) in
          let t1 := u32 (t1 + Z.shiftr t0 26) in let t0 := Z.land t0 0x3FFFFFF in
          let t2 := u32 (t2 + Z.shiftr t1 26) in let t1 := Z.land t1 0x3FFFFFF in
          let t3 := u32 (t3 + Z.shiftr t2 26) in let t2 := Z.land t2 0x3FFFFFF in
          let t4 := u32 (t4 + Z.shiftr t3 26) in let t3 := Z.land t3 0x3FFFFFF in
          let t5 := u32 (t5 + Z.shiftr t4 26) in let t4 := Z.land t4 0x3FFFFFF in
          let t6 := u32 (t6 + Z.shiftr t5 26) in let t5 := Z.land t5 0x3FFFFFF in
          let t7 := u32 (t7 + Z.shiftr t6 26) in let t6 := Z.land t6 0x3FFFFFF in
          let t8 := u32 (t8 + Z.shiftr t7 26) in let t7 := Z.land t7 0x3FFFFFF in
          let t9 := u32 (t9 + Z.shiftr t8 26) in let t8 := Z.land t8 0x3FFFFFF in
          VERIFY_CHECK (Z.shiftr t9 22 =? x);;
          let t9 := Z.land t9 0x03FFFFF in
          ret (L10 t0 t1 t2 t3 t4 t5 t6 t7 t8 t9)
        else ret (L10 t0 t1 t2 t3 t4 t5 t6 t7 t8 t9));;
  let r := mk_fe l 1 true in
  secp256k1_fe_verify r;;
  ret r.

Definition secp256k1_fe_normalizes_to_zero (r : secp256k1_fe) : checked bool :=
  let '(L10 t0 t1 t2 t3 t4 t5 t6 t7 t8 t9) := fe_n r in
  let x := Z.shiftr t9 22 in let t9 := Z.land t9 0x03FFFFF in
  let t0 := u32 (t0 + x * 0x3D1) in let t1 := u32 (t1 + u32 (Z.shiftl x 6)) in
  let t1 := u32 (t1 + Z.shiftr t0 26) in let t0 := Z.land t0 0x3FFFFFF in
  let z0 := t0 in let z1 := Z.lxor t0 0x3D0 in
  let t2 := u32 (t2 + Z.shiftr t1 26) in let t1 := Z.land t1 0x3FFFFFF in
  let z0 := Z.lor z0 t1 in let z1 := Z.land z1 (Z.lxor t1 0x40) in
  let t3 := u32 (t3 + Z.shiftr t2 26) in let t2 := Z.land t2 0x3FFFFFF in
  let z0 := Z.lor z0 t2 in let z1 := Z.land z1 t2 in
  let t4 := u32 (t4 + Z.shiftr t3 26) in let t3 := Z.land t3 0x3FFFFFF in
  let z0 := Z.lor z0 t3 in let z1 := Z.land z1 t3 in
  let t5 := u32 (t5 + Z.shiftr t4 26) in let t4 := Z.land t4 0x3FFFFFF in
  let z0 := Z.lor z0 t4 in let z1 := Z.land z1 t4 in
  let t6 := u32 (t6 + Z.shiftr t5 26) in let t5 := Z.land t5 0x3FFFFFF in
  let z0 := Z.lor z0 t5 in let z1 := Z.land z1 t5 in
  let t7 := u32 (t7 + Z.shiftr t6 26) in let t6 := Z.land t6 0x3FFFFFF in
  let z0 := Z.lor z0 t6 in let z1 := Z.land z1 t6 in
  let t8 := u32 (t8 + Z.shiftr t7 26) in let t7 := Z.land t7 0x3FFFFFF in
  let z0 := Z.lor z0 t7 in let z1 := Z.land z1 t7 in
  let t9 := u32 (t9 + Z.shiftr t8 26) in let t8 := Z.land t8 0x3FFFFFF in
  let z0 := Z.lor z0 t8 in let z1 := Z.land z1 t8 in
  let z0 := Z.lor z0 t9 in let z1 := Z.land z1 (Z.lxor t9 0x3C00000) in
  VERIFY_BITS t9 23;;
  ret ((z0 =? 0) || (z1 =? 0x3FFFFFF)).

Definition secp256k1_fe_normalizes_to_zero_var (r : secp256k1_fe) : checked bool :=
  let '(L10 n0 n1 n2 n3 n4 n5 n6 n7 n8 n9) := fe_n r in
  let t0 := n0 in
  let t9 := n9 in
  let x := Z.shiftr t9 22 in
  let t0 := u32 (t0 + x * 0x3D1) in
  let z0 := Z.land t0 0x3FFFFFF in
  let z1 := Z.lxor z0 0x3D0 in
  (* Fast return path should catch the majority of cases *)
  if negb (z0 =? 0) && negb (z1 =? 0x3FFFFFF) then ret false else
  let t1 := n1 in
  let t2 := n2 in
  let t3 := n3 in
  let t4 := n4 in
  let t5 := n5 in
  let t6 := n6 in
  let t7 := n7 in
  let t8 := n8 in
  let t9 := Z.land t9 0x03FFFFF in
  let t1 := u32 (t1 + u32 (Z.shiftl x 6)) in
  let t1 := u32 (t1 + Z.shiftr t0 26) in
  let t2 := u32 (t2 + Z.shiftr t1 26) in let t1 := Z.land t1 0x3FFFFFF in
  let z0 := Z.lor z0 t1 in let z1 := Z.land z1 (Z.lxor t1 0x40) in
  let t3 := u32 (t3 + Z.shiftr t2 26) in let t2 := Z.land t2 0x3FFFFFF in
  let z0 := Z.lor z0 t2 in let z1 := Z.land z1 t2 in
  let t4 := u32 (t4 + Z.shiftr t3 26) in let t3 := Z.land t3 0x3FFFFFF in
  let z0 := Z.lor z0 t3 in let z1 := Z.land z1 t3 in
  let t5 := u32 (t5 + Z.shiftr t4 26) in let t4 := Z.land t4 0x3FFFFFF in
  let z0 := Z.lor z0 t4 in let z1 := Z.land z1 t4 in
  let t6 := u32 (t6 + Z.shiftr t5 26) in let t5 := Z.land t5 0x3FFFFFF in
  let z0 := Z.lor z0 t5 in let z1 := Z.land z1 t5 in
  let t7 := u32 (t7 + Z.shiftr t6 26) in let t6 := Z.land t6 0x3FFFFFF in
  let z0 := Z.lor z0 t6 in let z1 := Z.land z1 t6 in
  let t8 := u32 (t8 + Z.shiftr t7 26) in let t7 := Z.land t7 0x3FFFFFF in
  let z0 := Z.lor z0 t7 in let z1 := Z.land z1 t7 in
  let t9 := u32 (t9 + Z.shiftr t8 26) in let t8 := Z.land t8 0x3FFFFFF in
  let z0 := Z.lor z0 t8 in let z1 := Z.land z1 t8 in
  let z0 := Z.lor z0 t9 in let z1 := Z.land z1 (Z.lxor t9 0x3C00000) in
  VERIFY_BITS t9 23;;
  ret ((z0 =? 0) || (z1 =? 0x3FFFFFF)).

(** [a] is a C [int], converted to [uint32_t] by the assignment. *)
Definition secp256k1_fe_set_int (a : Z) : checked secp256k1_fe :=
  let r := mk_fe (L10 (u32 a) 0 0 0 0 0 0 0 0 0) 1 true in
  secp256k1_fe_verify r;;
  ret r.

Definition secp256k1_fe_is_zero (a : secp256k1_fe) : checked bool :=
  let '(L10 t0 t1 t2 t3 t4 t5 t6 t7 t8 t9) := fe_n a in
  VERIFY_CHECK (normalized a);;
  secp256k1_fe_verify a;;
  ret (Z.lor (Z.lor (Z.lor (Z.lor (Z.lor (Z.lor (Z.lor (Z.lor (Z.lor t0 t1) t2) t3) t4) t5) t6) t7) t8) t9 =? 0).

Definition secp256k1_fe_is_odd (a : secp256k1_fe) : checked bool :=
  VERIFY_CHECK (normalized a);;
  secp256k1_fe_verify a;;
  ret (negb (Z.land (d0 (fe_n a)) 1 =? 0)).

Definition secp256k1_fe_clear : secp256k1_fe := mk_fe (L10 0 0 0 0 0 0 0 0 0 0) 0 true.

Definition secp256k1_fe_cmp_var (a b : secp256k1_fe) : checked Z :=
  VERIFY_CHECK (normalized a);;
  VERIFY_CHECK (normalized b);;
  secp256k1_fe_verify a;;
  secp256k1_fe_verify b;;
  ret (cmp_limbs (rev (to_list (fe_n a))) (rev (to_list (fe_n b)))).

(** Returns 0, with the [magnitude] and [normalized] of [r] as they were, when the
    bytes are not below the field prime. *)
Definition secp256k1_fe_set_b32 (r : secp256k1_fe) (a : list Z) : checked (bool * secp256k1_fe) :=
  let l := of_list (pack_b32 u32 26 2 0x3 [0; 0; 0; 0; 0; 0; 0; 0; 0; 0] a) in
  if (d9 l =? 0x3FFFFF)
     && (Z.land (Z.land (Z.land (Z.land (Z.land (Z.land (d8 l) (d7 l)) (d6 l)) (d5 l)) (d4 l)) (d3 l)) (d2 l) =? 0x3FFFFFF)
     && (0x3FFFFFF <? u64 (d1 l + 0x40 + Z.shiftr (u64 (d0 l + 0x3D1)) 26))
  then ret (false, mk_fe l (magnitude r) (normalized r))
  else
    let r := mk_fe l 1 true in
    secp256k1_fe_verify r;;
    ret (true, r).

Definition secp256k1_fe_get_b32 (a : secp256k1_fe) : checked (list Z) :=
  VERIFY_CHECK (normalized a);;
  secp256k1_fe_verify a;;
  ret (unpack_b32 26 2 0x3 (to_list (fe_n a))).

Definition secp256k1_fe_negate (a : secp256k1_fe) (m : Z) : checked secp256k1_fe :=
  VERIFY_CHECK (magnitude a <=? m);;
  secp256k1_fe_verify a;;
  let '(L10 a0 a1 a2 a3 a4 a5 a6 a7 a8 a9) := fe_n a in
  let r := mk_fe (L10 (u32 (0x3FFFC2F * 2 * (m + 1) - a0)) (u32 (0x3FFFFBF * 2 * (m + 1) - a1))
                      (u32 (0x3FFFFFF * 2 * (m + 1) - a2)) (u32 (0x3FFFFFF * 2 * (m + 1) - a3))
                      (u32 (0x3FFFFFF * 2 * (m + 1) - a4)) (u32 (0x3FFFFFF * 2 * (m + 1) - a5))
                      (u32 (0x3FFFFFF * 2 * (m + 1) - a6)) (u32 (0x3FFFFFF * 2 * (m + 1) - a7))
                      (u32 (0x3FFFFFF * 2 * (m + 1) - a8)) (u32 (0x03FFFFF * 2 * (m + 1) - a9))) (m + 1) false in
  secp256k1_fe_verify r;;
  ret r.

Definition secp256k1_fe_mul_int (r : secp256k1_fe) (a : Z) : checked secp256k1_fe :=
  let '(L10 r0 r1 r2 r3 r4 r5 r6 r7 r8 r9) := fe_n r in
  let r := mk_fe (L10 (u32 (r0 * a)) (u32 (r1 * a)) (u32 (r2 * a)) (u32 (r3 * a)) (u32 (r4 * a))
                      (u32 (r5 * a)) (u32 (r6 * a)) (u32 (r7 * a)) (u32 (r8 * a)) (u32 (r9 * a)))
                 (magnitude r * a) false in
  secp256k1_fe_verify r;;
  ret r.

Definition secp256k1_fe_add (r a : secp256k1_fe) : checked secp256k1_fe :=
  secp256k1_fe_verify a;;
  let '(L10 r0 r1 r2 r3 r4 r5 r6 r7 r8 r9) := fe_n r in
  let '(L10 a0 a1 a2 a3 a4 a5 a6 a7 a8 a9) := fe_n a in
  let r := mk_fe (L10 (u32 (r0 + a0)) (u32 (r1 + a1)) (u32 (r2 + a2)) (u32 (r3 + a3)) (u32 (r4 + a4))
                      (u32 (r5 + a5)) (u32 (r6 + a6)) (u32 (r7 + a7)) (u32 (r8 + a8)) (u32 (r9 + a9)))
                 (magnitude r + magnitude a) false in
  secp256k1_fe_verify r;;
  ret r.

(** The multiplication kernel accumulates the low columns in [c] and the columns
    above bit 260 in [d], and folds the latter by [2^260 = R1 * 2^26 + R0]. *)

(** Columns 0 to 3 and 9 to 13 of the product: [t0] to [t3], [t9] and the two
    accumulators. *)
Definition mul_inner_low (a b : limbs) : checked (Z * Z * Z * Z * Z * Z * Z) :=
  let '(L10 a0 a1 a2 a3 a4 a5 a6 a7 a8 a9) := a in
  let '(L10 b0 b1 b2 b3 b4 b5 b6 b7 b8 b9) := b in
  let M := 0x3FFFFFF in let R0 := 0x3D10 in let R1 := 0x400 in
  VERIFY_BITS a0 30;; VERIFY_BITS a1 30;; VERIFY_BITS a2 30;; VERIFY_BITS a3 30;; VERIFY_BITS a4 30;;
  VERIFY_BITS a5 30;; VERIFY_BITS a6 30;; VERIFY_BITS a7 30;; VERIFY_BITS a8 30;; VERIFY_BITS a9 26;;
  VERIFY_BITS b0 30;; VERIFY_BITS b1 30;; VERIFY_BITS b2 30;; VERIFY_BITS b3 30;; VERIFY_BITS b4 30;;
  VERIFY_BITS b5 30;; VERIFY_BITS b6 30;; VERIFY_BITS b7 30;; VERIFY_BITS b8 30;; VERIFY_BITS b9 26;;
  let d := u64 (a0 * b9 + a1 * b8 + a2 * b7 + a3 * b6 + a4 * b5 + a5 * b4 + a6 * b3 + a7 * b2 + a8 * b1
      + a9 * b0) in
  let t9 := u32 (Z.land d M) in let d := Z.shiftr d 26 in
  VERIFY_BITS t9 26;; VERIFY_BITS d 38;;
  let c := u64 (a0 * b0) in
  VERIFY_BITS c 60;;
  let d := u64 (d + (a1 * b9 + a2 * b8 + a3 * b7 + a4 * b6 + a5 * b5 + a6 * b4 + a7 * b3 + a8 * b2 + a9 * b1)) in
  VERIFY_BITS d 63;;
  let u0 := Z.land d M in let d := Z.shiftr d 26 in let c := u64 (c + u0 * R0) in
  VERIFY_BITS u0 26;; VERIFY_BITS d 37;; VERIFY_BITS c 61;;
  let t0 := u32 (Z.land c M) in let c := Z.shiftr c 26 in let c := u64 (c + u0 * R1) in
  VERIFY_BITS t0 26;; VERIFY_BITS c 37;;
  let c := u64 (c + (a0 * b1 + a1 * b0)) in
  VERIFY_BITS c 62;;
  let d := u64 (d + (a2 * b9 + a3 * b8 + a4 * b7 + a5 * b6 + a6 * b5 + a7 * b4 + a8 * b3 + a9 * b2)) in
  VERIFY_BITS d 63;;
  let u1 := Z.land d M in let d := Z.shiftr d 26 in let c := u64 (c + u1 * R0) in
  VERIFY_BITS u1 26;; VERIFY_BITS d 37;; VERIFY_BITS c 63;;
  let t1 := u32 (Z.land c M) in let c := Z.shiftr c 26 in let c := u64 (c + u1 * R1) in
  VERIFY_BITS t1 26;; VERIFY_BITS c 38;;
  let c := u64 (c + (a0 * b2 + a1 * b1 + a2 * b0)) in
  VERIFY_BITS c 62;;
  let d := u64 (d + (a3 * b9 + a4 * b8 + a5 * b7 + a6 * b6 + a7 * b5 + a8 * b4 + a9 * b3)) in
  VERIFY_BITS d 63;;
  let u2 := Z.land d M in let d := Z.shiftr d 26 in let c := u64 (c + u2 * R0) in
  VERIFY_BITS u2 26;; VERIFY_BITS d 37;; VERIFY_BITS c 63;;
  let t2 := u32 (Z.land c M) in let c := Z.shiftr c 26 in let c := u64 (c + u2 * R1) in
  VERIFY_BITS t2 26;; VERIFY_BITS c 38;;
  let c := u64 (c + (a0 * b3 + a1 * b2 + a2 * b1 + a3 * b0)) in
  VERIFY_BITS c 63;;
  let d := u64 (d + (a4 * b9 + a5 * b8 + a6 * b7 + a7 * b6 + a8 * b5 + a9 * b4)) in
  VERIFY_BITS d 63;;
  let u3 := Z.land d M in let d := Z.shiftr d 26 in let c := u64 (c + u3 * R0) in
  VERIFY_BITS u3 26;; VERIFY_BITS d 37;;
  let t3 := u32 (Z.land c M) in let c := Z.shiftr c 26 in let c := u64 (c + u3 * R1) in
  VERIFY_BITS t3 26;; VERIFY_BITS c 39;;
  ret (c, d, t9, t0, t1, t2, t3).

(** Columns 4 to 8 and 14 to 18. *)
Definition mul_inner_high (a b : limbs) (c d : Z) : checked (Z * Z * Z * Z * Z * Z * Z) :=
  let '(L10 a0 a1 a2 a3 a4 a5 a6 a7 a8 a9) := a in
  let '(L10 b0 b1 b2 b3 b4 b5 b6 b7 b8 b9) := b in
  let M := 0x3FFFFFF in let R0 := 0x3D10 in let R1 := 0x400 in
  let c := u64 (c + (a0 * b4 + a1 * b3 + a2 * b2 + a3 * b1 + a4 * b0)) in
  VERIFY_BITS c 63;;
  let d := u64 (d + (a5 * b9 + a6 * b8 + a7 * b7 + a8 * b6 + a9 * b5)) in
  VERIFY_BITS d 62;;
  let u4 := Z.land d M in let d := Z.shiftr d 26 in let c := u64 (c + u4 * R0) in
  VERIFY_BITS u4 26;; VERIFY_BITS d 36;;
  let t4 := u32 (Z.land c M) in let c := Z.shiftr c 26 in let c := u64 (c + u4 * R1) in
  VERIFY_BITS t4 26;; VERIFY_BITS c 39;;
  let c := u64 (c + (a0 * b5 + a1 * b4 + a2 * b3 + a3 * b2 + a4 * b1 + a5 * b0)) in
  VERIFY_BITS c 63;;
  let d := u64 (d + (a6 * b9 + a7 * b8 + a8 * b7 + a9 * b6)) in
  VERIFY_BITS d 62;;
  let u5 := Z.land d M in let d := Z.shiftr d 26 in let c := u64 (c + u5 * R0) in
  VERIFY_BITS u5 26;; VERIFY_BITS d 36;;
  let t5 := u32 (Z.land c M) in let c := Z.shiftr c 26 in let c := u64 (c + u5 * R1) in
  VERIFY_BITS t5 26;; VERIFY_BITS c 39;;
  let c := u64 (c + (a0 * b6 + a1 * b5 + a2 * b4 + a3 * b3 + a4 * b2 + a5 * b1 + a6 * b0)) in
  VERIFY_BITS c 63;;
  let d := u64 (d + (a7 * b9 + a8 * b8 + a9 * b7)) in
  VERIFY_BITS d 61;;
  let u6 := Z.land d M in let d := Z.shiftr d 26 in let c := u64 (c + u6 * R0) in
  VERIFY_BITS u6 26;; VERIFY_BITS d 35;;
  let t6 := u32 (Z.land c M) in let c := Z.shiftr c 26 in let c := u64 (c + u6 * R1) in
  VERIFY_BITS t6 26;; VERIFY_BITS c 39;;
  let c := u64 (c + (a0 * b7 + a1 * b6 + a2 * b5 + a3 * b4 + a4 * b3 + a5 * b2 + a6 * b1 + a7 * b0)) in
  VERIFY_CHECK (c <=? 0x8000007C00000007);;
  let d := u64 (d + (a8 * b9 + a9 * b8)) in
  VERIFY_BITS d 58;;
  let u7 := Z.land d M in let d := Z.shiftr d 26 in let c := u64 (c + u7 * R0) in
  VERIFY_BITS u7 26;; VERIFY_BITS d 32;; VERIFY_CHECK (c <=? 0x800001703FFFC2F7);;
  let t7 := u32 (Z.land c M) in let c := Z.shiftr c 26 in let c := u64 (c + u7 * R1) in
  VERIFY_BITS t7 26;; VERIFY_BITS c 38;;
  let c := u64 (c + (a0 * b8 + a1 * b7 + a2 * b6 + a3 * b5 + a4 * b4 + a5 * b3 + a6 * b2 + a7 * b1 + a8 * b0)) in
  VERIFY_CHECK (c <=? 0x9000007B80000008);;
  let d := u64 (d + a9 * b9) in
  VERIFY_BITS d 57;;
  let uu8 := Z.land d M in let d := Z.shiftr d 26 in let c := u64 (c + uu8 * R0) in
  VERIFY_BITS uu8 26;; VERIFY_BITS d 31;; VERIFY_CHECK (c <=? 0x9000016FBFFFC2F8);;
  ret (c, d, uu8, t4, t5, t6, t7).

(** The last carries, and the fold of what is left above bit 256. *)
Definition mul_inner_fold (c d uu8 t9 t0 t1 t2 t3 t4 t5 t6 t7 : Z) : checked limbs :=
  let M := 0x3FFFFFF in let R0 := 0x3D10 in let R1 := 0x400 in
  let r3 := t3 in
  VERIFY_BITS r3 26;;
  let r4 := t4 in
  VERIFY_BITS r4 26;;
  let r5 := t5 in
  VERIFY_BITS r5 26;;
  let r6 := t6 in
  VERIFY_BITS r6 26;;
  let r7 := t7 in
  VERIFY_BITS r7 26;;
  let r8 := u32 (Z.land c M) in let c := Z.shiftr c 26 in let c := u64 (c + uu8 * R1) in
  VERIFY_BITS r8 26;; VERIFY_BITS c 39;;
  let c := u64 (c + (d * R0 + t9)) in
  VERIFY_BITS c 45;;
  let r9 := u32 (Z.land c (Z.shiftr M 4)) in let c := Z.shiftr c 22 in let c := u64 (c + (d * (Z.shiftl R1 4))) in
  VERIFY_BITS r9 22;; VERIFY_BITS c 46;;
  let d := u64 (c * (Z.shiftr R0 4) + t0) in
  VERIFY_BITS d 56;;
  let r0 := u32 (Z.land d M) in let d := Z.shiftr d 26 in
  VERIFY_BITS r0 26;; VERIFY_BITS d 30;;
  let d := u64 (d + (c * (Z.shiftr R1 4) + t1)) in
  VERIFY_BITS d 53;; VERIFY_CHECK (d <=? 0x10000003FFFFBF);;
  let r1 := u32 (Z.land d M) in let d := Z.shiftr d 26 in
  VERIFY_BITS r1 26;; VERIFY_BITS d 27;; VERIFY_CHECK (d <=? 0x4000000);;
  let d := u64 (d + t2) in
  VERIFY_BITS d 27;;
  let r2 := u32 d in
  VERIFY_BITS r2 27;;
  ret (L10 r0 r1 r2 r3 r4 r5 r6 r7 r8 r9).

Definition secp256k1_fe_mul_inner (a b : limbs) : checked limbs :=
  ' (c, d, t9, t0, t1, t2, t3) <- mul_inner_low a b;;
  ' (c, d, uu8, t4, t5, t6, t7) <- mul_inner_high a b c d;;
  mul_inner_fold c d uu8 t9 t0 t1 t2 t3 t4 t5 t6 t7.

Definition sqr_inner_low (a : limbs) : checked (Z * Z * Z * Z * Z * Z * Z) :=
  let '(L10 a0 a1 a2 a3 a4 a5 a6 a7 a8 a9) := a in
  let M := 0x3FFFFFF in let R0 := 0x3D10 in let R1 := 0x400 in
  VERIFY_BITS a0 30;; VERIFY_BITS a1 30;; VERIFY_BITS a2 30;; VERIFY_BITS a3 30;; VERIFY_BITS a4 30;;
  VERIFY_BITS a5 30;; VERIFY_BITS a6 30;; VERIFY_BITS a7 30;; VERIFY_BITS a8 30;; VERIFY_BITS a9 26;;
  let d := u64 (u32 (a0 * 2) * a9 + u32 (a1 * 2) * a8 + u32 (a2 * 2) * a7 + u32 (a3 * 2) * a6
      + u32 (a4 * 2) * a5) in
  let t9 := u32 (Z.land d M) in let d := Z.shiftr d 26 in
  VERIFY_BITS t9 26;; VERIFY_BITS d 38;;
  let c := u64 (a0 * a0) in
  VERIFY_BITS c 60;;
  let d := u64 (d + (u32 (a1 * 2) * a9 + u32 (a2 * 2) * a8 + u32 (a3 * 2) * a7 + u32 (a4 * 2) * a6 + a5 * a5)) in
  VERIFY_BITS d 63;;
  let u0 := Z.land d M in let d := Z.shiftr d 26 in let c := u64 (c + u0 * R0) in
  VERIFY_BITS u0 26;; VERIFY_BITS d 37;; VERIFY_BITS c 61;;
  let t0 := u32 (Z.land c M) in let c := Z.shiftr c 26 in let c := u64 (c + u0 * R1) in
  VERIFY_BITS t0 26;; VERIFY_BITS c 37;;
  let c := u64 (c + (u32 (a0 * 2) * a1)) in
  VERIFY_BITS c 62;;
  let d := u64 (d + (u32 (a2 * 2) * a9 + u32 (a3 * 2) * a8 + u32 (a4 * 2) * a7 + u32 (a5 * 2) * a6)) in
  VERIFY_BITS d 63;;
  let u1 := Z.land d M in let d := Z.shiftr d 26 in let c := u64 (c + u1 * R0) in
  VERIFY_BITS u1 26;; VERIFY_BITS d 37;; VERIFY_BITS c 63;;
  let t1 := u32 (Z.land c M) in let c := Z.shiftr c 26 in let c := u64 (c + u1 * R1) in
  VERIFY_BITS t1 26;; VERIFY_BITS c 38;;
  let c := u64 (c + (u32 (a0 * 2) * a2 + a1 * a1)) in
  VERIFY_BITS c 62;;
  let d := u64 (d + (u32 (a3 * 2) * a9 + u32 (a4 * 2) * a8 + u32 (a5 * 2) * a7 + a6 * a6)) in
  VERIFY_BITS d 63;;
  let u2 := Z.land d M in let d := Z.shiftr d 26 in let c := u64 (c + u2 * R0) in
  VERIFY_BITS u2 26;; VERIFY_BITS d 37;; VERIFY_BITS c 63;;
  let t2 := u32 (Z.land c M) in let c := Z.shiftr c 26 in let c := u64 (c + u2 * R1) in
  VERIFY_BITS t2 26;; VERIFY_BITS c 38;;
  let c := u64 (c + (u32 (a0 * 2) * a3 + u32 (a1 * 2) * a2)) in
  VERIFY_BITS c 63;;
  let d := u64 (d + (u32 (a4 * 2) * a9 + u32 (a5 * 2) * a8 + u32 (a6 * 2) * a7)) in
  VERIFY_BITS d 63;;
  let u3 := Z.land d M in let d := Z.shiftr d 26 in let c := u64 (c + u3 * R0) in
  VERIFY_BITS u3 26;; VERIFY_BITS d 37;;
  let t3 := u32 (Z.land c M) in let c := Z.shiftr c 26 in let c := u64 (c + u3 * R1) in
  VERIFY_BITS t3 26;; VERIFY_BITS c 39;;
  ret (c, d, t9, t0, t1, t2, t3).

Definition sqr_inner_high (a : limbs) (c d : Z) : checked (Z * Z * Z * Z * Z * Z * Z) :=
  let '(L10 a0 a1 a2 a3 a4 a5 a6 a7 a8 a9) := a in
  let M := 0x3FFFFFF in let R0 := 0x3D10 in let R1 := 0x400 in
  let c := u64 (c + (u32 (a0 * 2) * a4 + u32 (a1 * 2) * a3 + a2 * a2)) in
  VERIFY_BITS c 63;;
  let d := u64 (d + (u32 (a5 * 2) * a9 + u32 (a6 * 2) * a8 + a7 * a7)) in
  VERIFY_BITS d 62;;
  let u4 := Z.land d M in let d := Z.shiftr d 26 in let c := u64 (c + u4 * R0) in
  VERIFY_BITS u4 26;; VERIFY_BITS d 36;;
  let t4 := u32 (Z.land c M) in let c := Z.shiftr c 26 in let c := u64 (c + u4 * R1) in
  VERIFY_BITS t4 26;; VERIFY_BITS c 39;;
  let c := u64 (c + (u32 (a0 * 2) * a5 + u32 (a1 * 2) * a4 + u32 (a2 * 2) * a3)) in
  VERIFY_BITS c 63;;
  let d := u64 (d + (u32 (a6 * 2) * a9 + u32 (a7 * 2) * a8)) in
  VERIFY_BITS d 62;;
  let u5 := Z.land d M in let d := Z.shiftr d 26 in let c := u64 (c + u5 * R0) in
  VERIFY_BITS u5 26;; VERIFY_BITS d 36;;
  let t5 := u32 (Z.land c M) in let c := Z.shiftr c 26 in let c := u64 (c + u5 * R1) in
  VERIFY_BITS t5 26;; VERIFY_BITS c 39;;
  let c := u64 (c + (u32 (a0 * 2) * a6 + u32 (a1 * 2) * a5 + u32 (a2 * 2) * a4 + a3 * a3)) in
  VERIFY_BITS c 63;;
  let d := u64 (d + (u32 (a7 * 2) * a9 + a8 * a8)) in
  VERIFY_BITS d 61;;
  let u6 := Z.land d M in let d := Z.shiftr d 26 in let c := u64 (c + u6 * R0) in
  VERIFY_BITS u6 26;; VERIFY_BITS d 35;;
  let t6 := u32 (Z.land c M) in let c := Z.shiftr c 26 in let c := u64 (c + u6 * R1) in
  VERIFY_BITS t6 26;; VERIFY_BITS c 39;;
  let c := u64 (c + (u32 (a0 * 2) * a7 + u32 (a1 * 2) * a6 + u32 (a2 * 2) * a5 + u32 (a3 * 2) * a4)) in
  VERIFY_CHECK (c <=? 0x8000007C00000007);;
  let d := u64 (d + (u32 (a8 * 2) * a9)) in
  VERIFY_BITS d 58;;
  let u7 := Z.land d M in let d := Z.shiftr d 26 in let c := u64 (c + u7 * R0) in
  VERIFY_BITS u7 26;; VERIFY_BITS d 32;; VERIFY_CHECK (c <=? 0x800001703FFFC2F7);;
  let t7 := u32 (Z.land c M) in let c := Z.shiftr c 26 in let c := u64 (c + u7 * R1) in
  VERIFY_BITS t7 26;; VERIFY_BITS c 38;;
  let c := u64 (c + (u32 (a0 * 2) * a8 + u32 (a1 * 2) * a7 + u32 (a2 * 2) * a6 + u32 (a3 * 2) * a5 + a4 * a4)) in
  VERIFY_CHECK (c <=? 0x9000007B80000008);;
  let d := u64 (d + a9 * a9) in
  VERIFY_BITS d 57;;
  let uu8 := Z.land d M in let d := Z.shiftr d 26 in let c := u64 (c + uu8 * R0) in
  VERIFY_BITS uu8 26;; VERIFY_BITS d 31;; VERIFY_CHECK (c <=? 0x9000016FBFFFC2F8);;
  ret (c, d, uu8, t4, t5, t6, t7).

Definition sqr_inner_fold (c d uu8 t9 t0 t1 t2 t3 t4 t5 t6 t7 : Z) : checked limbs :=
  let M := 0x3FFFFFF in let R0 := 0x3D10 in let R1 := 0x400 in
  let r3 := t3 in
  VERIFY_BITS r3 26;;
  let r4 := t4 in
  VERIFY_BITS r4 26;;
  let r5 := t5 in
  VERIFY_BITS r5 26;;
  let r6 := t6 in
  VERIFY_BITS r6 26;;
  let r7 := t7 in
  VERIFY_BITS r7 26;;
  let r8 := u32 (Z.land c M) in let c := Z.shiftr c 26 in let c := u64 (c + uu8 * R1) in
  VERIFY_BITS r8 26;; VERIFY_BITS c 39;;
  let c := u64 (c + (d * R0 + t9)) in
  VERIFY_BITS c 45;;
  let r9 := u32 (Z.land c (Z.shiftr M 4)) in let c := Z.shiftr c 22 in let c := u64 (c + (d * (Z.shiftl R1 4))) in
  VERIFY_BITS r9 22;; VERIFY_BITS c 46;;
  let d := u64 (c * (Z.shiftr R0 4) + t0) in
  VERIFY_BITS d 56;;
  let r0 := u32 (Z.land d M) in let d := Z.shiftr d 26 in
  VERIFY_BITS r0 26;; VERIFY_BITS d 30;;
  let d := u64 (d + (c * (Z.shiftr R1 4) + t1)) in
  VERIFY_BITS d 53;; VERIFY_CHECK (d <=? 0x10000003FFFFBF);;
  let r1 := u32 (Z.land d M) in let d := Z.shiftr d 26 in
  VERIFY_BITS r1 26;; VERIFY_BITS d 27;; VERIFY_CHECK (d <=? 0x4000000);;
  let d := u64 (d + t2) in
  VERIFY_BITS d 27;;
  let r2 := u32 d in
  VERIFY_BITS r2 27;;
  ret (L10 r0 r1 r2 r3 r4 r5 r6 r7 r8 r9).

Definition secp256k1_fe_sqr_inner (a : limbs) : checked limbs :=
  ' (c, d, t9, t0, t1, t2, t3) <- sqr_inner_low a;;
  ' (c, d, uu8, t4, t5, t6, t7) <- sqr_inner_high a c d;;
  sqr_inner_fold c d uu8 t9 t0 t1 t2 t3 t4 t5 t6 t7.

Definition secp256k1_fe_mul (a b : secp256k1_fe) : checked secp256k1_fe :=
  VERIFY_CHECK (magnitude a <=? 8);;
  VERIFY_CHECK (magnitude b <=? 8);;
  secp256k1_fe_verify a;;
  secp256k1_fe_verify b;;
  l <- secp256k1_fe_mul_inner (fe_n a) (fe_n b);;
  let r := mk_fe l 1 false in
  secp256k1_fe_verify r;;
  ret r.

Definition secp256k1_fe_sqr (a : secp256k1_fe) : checked secp256k1_fe :=
  VERIFY_CHECK (magnitude a <=? 8);;
  secp256k1_fe_verify a;;
  l <- secp256k1_fe_sqr_inner (fe_n a);;
  let r := mk_fe l 1 false in
  secp256k1_fe_verify r;;
  ret r.

(** [(x & mask0) | (y & mask1)] *)
Definition select32 (mask0 mask1 x y : Z) : Z := Z.lor (Z.land x mask0) (Z.land y mask1).

Definition secp256k1_fe_cmov (r a : secp256k1_fe) (flag : Z) : secp256k1_fe :=
  let mask0 := u32 (flag + u32 (Z.lnot 0)) in
  let mask1 := u32 (Z.lnot mask0) in
  let '(L10 r0 r1 r2 r3 r4 r5 r6 r7 r8 r9) := fe_n r in
  let '(L10 a0 a1 a2 a3 a4 a5 a6 a7 a8 a9) := fe_n a in
  mk_fe (L10 (select32 mask0 mask1 r0 a0) (select32 mask0 mask1 r1 a1)
             (select32 mask0 mask1 r2 a2) (select32 mask0 mask1 r3 a3)
             (select32 mask0 mask1 r4 a4) (select32 mask0 mask1 r5 a5)
             (select32 mask0 mask1 r6 a6) (select32 mask0 mask1 r7 a7)
             (select32 mask0 mask1 r8 a8) (select32 mask0 mask1 r9 a9))
        (if magnitude r <? magnitude a then magnitude a else magnitude r)
        (normalized r && normalized a).

Definition secp256k1_fe_storage_cmov (r a : secp256k1_fe_storage) (flag : Z) : secp256k1_fe_storage :=
  let mask0 := u32 (flag + u32 (Z.lnot 0)) in
  let mask1 := u32 (Z.lnot mask0) in
  mk_storage (select32 mask0 mask1 (s0 r) (s0 a)) (select32 mask0 mask1 (s1 r) (s1 a))
             (select32 mask0 mask1 (s2 r) (s2 a)) (select32 mask0 mask1 (s3 r) (s3 a))
             (select32 mask0 mask1 (s4 r) (s4 a)) (select32 mask0 mask1 (s5 r) (s5 a))
             (select32 mask0 mask1 (s6 r) (s6 a)) (select32 mask0 mask1 (s7 r) (s7 a)).

Definition secp256k1_fe_to_storage (a : secp256k1_fe) : checked secp256k1_fe_storage :=
  VERIFY_CHECK (normalized a);;
  let '(L10 n0 n1 n2 n3 n4 n5 n6 n7 n8 n9) := fe_n a in
  ret (mk_storage (Z.lor n0 (u32 (Z.shiftl n1 26)))
                  (Z.lor (Z.shiftr n1 6) (u32 (Z.shiftl n2 20)))
                  (Z.lor (Z.shiftr n2 12) (u32 (Z.shiftl n3 14)))
                  (Z.lor (Z.shiftr n3 18) (u32 (Z.shiftl n4 8)))
                  (Z.lor (Z.lor (Z.shiftr n4 24) (u32 (Z.shiftl n5 2))) (u32 (Z.shiftl n6 28)))
                  (Z.lor (Z.shiftr n6 4) (u32 (Z.shiftl n7 22)))
                  (Z.lor (Z.shiftr n7 10) (u32 (Z.shiftl n8 16)))
                  (Z.lor (Z.shiftr n8 16) (u32 (Z.shiftl n9 10)))).

Definition secp256k1_fe_from_storage (a : secp256k1_fe_storage) : secp256k1_fe :=
  mk_fe (L10 (Z.land (s0 a) 0x3FFFFFF)
             (Z.lor (Z.shiftr (s0 a) 26) (Z.land (u32 (Z.shiftl (s1 a) 6)) 0x3FFFFFF))
             (Z.lor (Z.shiftr (s1 a) 20) (Z.land (u32 (Z.shiftl (s2 a) 12)) 0x3FFFFFF))
             (Z.lor (Z.shiftr (s2 a) 14) (Z.land (u32 (Z.shiftl (s3 a) 18)) 0x3FFFFFF))
             (Z.lor (Z.shiftr (s3 a) 8) (Z.land (u32 (Z.shiftl (s4 a) 24)) 0x3FFFFFF))
             (Z.land (Z.shiftr (s4 a) 2) 0x3FFFFFF)
             (Z.lor (Z.shiftr (s4 a) 28) (Z.land (u32 (Z.shiftl (s5 a) 4)) 0x3FFFFFF))
             (Z.lor (Z.shiftr (s5 a) 22) (Z.land (u32 (Z.shiftl (s6 a) 10)) 0x3FFFFFF))
             (Z.lor (Z.shiftr (s6 a) 16) (Z.land (u32 (Z.shiftl (s7 a) 16)) 0x3FFFFFF))
             (Z.shiftr (s7 a) 10)) 1 true.

(** ** Values and invariant *)

Definition limbs_Z (l : limbs) : Z :=
  d0 l + d1 l * 2 ^ 26 + d2 l * 2 ^ 52 + d3 l * 2 ^ 78 + d4 l * 2 ^ 104 +
  d5 l * 2 ^ 130 + d6 l * 2 ^ 156 + d7 l * 2 ^ 182 + d8 l * 2 ^ 208 + d9 l * 2 ^ 234.

(** The residue an element stands for. *)
Definition fe_val (a : secp256k1_fe) : Fp := toFp (limbs_Z (fe_n a)).

(** Limbs of magnitude [m]. *)
Definition limbs_mag (m : Z) (l : limbs) : Prop :=
  0 <= d0 l <= 0x3FFFFFF * m /\ 0 <= d1 l <= 0x3FFFFFF * m /\
  0 <= d2 l <= 0x3FFFFFF * m /\ 0 <= d3 l <= 0x3FFFFFF * m /\
  0 <= d4 l <= 0x3FFFFFF * m /\ 0 <= d5 l <= 0x3FFFFFF * m /\
  0 <= d6 l <= 0x3FFFFFF * m /\ 0 <= d7 l <= 0x3FFFFFF * m /\
  0 <= d8 l <= 0x3FFFFFF * m /\ 0 <= d9 l <= 0x03FFFFF * m.

(** The representation invariant: the magnitude bounds the limbs, and a
    normalized element has full limbs and a value below the prime. *)
Definition fe_inv (a : secp256k1_fe) : Prop :=
  0 <= magnitude a <= 32 /\ limbs_mag (2 * magnitude a) (fe_n a) /\
  (normalized a = true ->
     magnitude a <= 1 /\ limbs_mag 1 (fe_n a) /\ limbs_Z (fe_n a) < p).

Definition storage_wf (s : secp256k1_fe_storage) : Prop :=
  0 <= s0 s < 2 ^ 32 /\ 0 <= s1 s < 2 ^ 32 /\ 0 <= s2 s < 2 ^ 32 /\ 0 <= s3 s < 2 ^ 32 /\
  0 <= s4 s < 2 ^ 32 /\ 0 <= s5 s < 2 ^ 32 /\ 0 <= s6 s < 2 ^ 32 /\ 0 <= s7 s < 2 ^ 32.

Definition storage_Z (s : secp256k1_fe_storage) : Z :=
  s0 s + s1 s * 2 ^ 32 + s2 s * 2 ^ 64 + s3 s * 2 ^ 96 +
  s4 s * 2 ^ 128 + s5 s * 2 ^ 160 + s6 s * 2 ^ 192 + s7 s * 2 ^ 224.

(** ** Lemmas *)

Ltac limb_projections := cbn [d0 d1 d2 d3 d4 d5 d6 d7 d8 d9] in *.

(** The code's test on the two lowest limbs. *)
Lemma fe26_low_test t0 t1 : 0 <= t0 <= 0x3FFFFFF -> 0 <= t1 <= 0x3FFFFFF ->
  0x3FFFFFF < u64 (t1 + 0x40 + Z.shiftr (u64 (t0 + 0x3D1)) 26) <-> 0xFFFFEFFFFFC2F <= t0 + t1 * 2 ^ 26.
Proof.
  intros H0 H1. unfold u64. rewrite (Z.mod_small (t0 + _)), Z.shiftr_div_pow2 by lia.
  rewrite Z.mod_small by (Z.to_euclidean_division_equations; lia).
  Z.to_euclidean_division_equations; lia.
Qed.

Lemma fe26_mid_ones t2 t3 t4 t5 t6 t7 t8 :
  0 <= t2 <= 0x3FFFFFF -> 0 <= t3 <= 0x3FFFFFF -> 0 <= t4 <= 0x3FFFFFF -> 0 <= t5 <= 0x3FFFFFF ->
  0 <= t6 <= 0x3FFFFFF -> 0 <= t7 <= 0x3FFFFFF -> 0 <= t8 <= 0x3FFFFFF ->
  Z.land (Z.land (Z.land (Z.land (Z.land (Z.land t2 t3) t4) t5) t6) t7) t8 = 0x3FFFFFF <->
  t2 = 0x3FFFFFF /\ t3 = 0x3FFFFFF /\ t4 = 0x3FFFFFF /\ t5 = 0x3FFFFFF /\ t6 = 0x3FFFFFF /\
  t7 = 0x3FFFFFF /\ t8 = 0x3FFFFFF.
Proof.
  intros. change 0x3FFFFFF with (Z.ones 26) in *.
  rewrite !land_eq_ones by (first [assumption | apply bnd_land_l; assumption | lia]). tauto.
Qed.

(** Canonical limbs reach the prime exactly when the code's comparison says so. *)
Lemma fe26_overflow_iff l : limbs_mag 1 l ->
  ((d9 l =? 0x3FFFFF)
     && (Z.land (Z.land (Z.land (Z.land (Z.land (Z.land (d8 l) (d7 l)) (d6 l)) (d5 l)) (d4 l)) (d3 l)) (d2 l) =? 0x3FFFFFF)
     && (0x3FFFFFF <? u64 (d1 l + 0x40 + Z.shiftr (u64 (d0 l + 0x3D1)) 26))) = (p <=? limbs_Z l).
Proof.
  destruct l as [a0 a1 a2 a3 a4 a5 a6 a7 a8 a9]. unfold limbs_mag, limbs_Z. limb_projections. intros H.
  rewrite p_literal. apply eq_true_iff_eq.
  rewrite !andb_true_iff, !Z.eqb_eq, Z.leb_le, Z.ltb_lt, fe26_low_test, fe26_mid_ones by lia. lia.
Qed.

Lemma fe26_inv_verify a : fe_inv a -> secp256k1_fe_verify a = Some tt.
Proof.
  intros (Hm & Hl & Hn). unfold secp256k1_fe_verify.
  assert (forall c m, 0 <= c <= 0x3FFFFFF -> 0 <= m <= 64 -> u64 (c * m) = c * m) as Hu
    by (intros; unfold u64; apply Z.mod_small; nia).
  destruct (normalized a).
  - destruct (Hn eq_refl) as (Hm1 & Hl1 & Hp). pose proof (fe26_overflow_iff _ Hl1) as Hov.
    destruct (fe_n a) as [a0 a1 a2 a3 a4 a5 a6 a7 a8 a9]. unfold limbs_mag in Hl1. limb_projections.
    rewrite !Hu by lia. destruct (Z.leb_spec p (limbs_Z (L10 a0 a1 a2 a3 a4 a5 a6 a7 a8 a9))); [lia|].
    unfold VERIFY_CHECK. rewrite (Z.leb_antisym 0x3FFFFFF (u64 (a1 + _ + _))).
 
    repeat match goal with |- context [?x <=? ?y] => rewrite (proj2 (Z.leb_le x y)) by lia end.
    cbn [andb]. destruct (a9 =? _); [|reflexivity]. cbn [andb] in Hov.
    destruct (Z.land _ a2 =? _); [|reflexivity]. cbn [andb] in Hov. rewrite Hov. reflexivity.
  - clear Hn. destruct (fe_n a) as [a0 a1 a2 a3 a4 a5 a6 a7 a8 a9]. unfold limbs_mag in Hl. limb_projections.
    rewrite !Hu by lia. unfold VERIFY_CHECK.
    repeat (rewrite (proj2 (Z.leb_le _ _)) by lia). reflexivity.
Qed.

Lemma fe26_Returns_verify {B} a (k : unit -> checked B) Q :
  fe_inv a -> Returns (k tt) Q -> Returns (bind (secp256k1_fe_verify a) k) Q.
Proof. intros H. rewrite (fe26_inv_verify a H). exact (fun H => H). Qed.

Lemma fe26_limbs_mag_le m m' l : limbs_mag m l -> m <= m' -> limbs_mag m' l.
Proof. unfold limbs_mag. intros H Hm. repeat apply conj; nia. Qed.

Lemma fe26_mul_inner_spec a b : limbs_mag 16 a -> limbs_mag 16 b ->
  Returns (secp256k1_fe_mul_inner a b) (fun r =>
    limbs_mag 2 r /\ toFp (limbs_Z r) = (toFp (limbs_Z a) * toFp (limbs_Z b))%Zmod).
Proof.
  intros Ha Hb. destruct a as [a0 a1 a2 a3 a4 a5 a6 a7 a8 a9], b as [b0 b1 b2 b3 b4 b5 b6 b7 b8 b9].
  unfold limbs_mag in Ha, Hb. limb_projections.
  destruct Ha as (A0 & A1 & A2 & A3 & A4 & A5 & A6 & A7 & A8 & A9).
  destruct Hb as (B0 & B1 & B2 & B3 & B4 & B5 & B6 & B7 & B8 & B9).
  unfold secp256k1_fe_mul_inner. apply Returns_seq.
  cbv beta iota delta [mul_inner_low]. c_steps. apply Returns_ret. apply Returns_seq.
  cbv beta iota delta [mul_inner_high]. c_steps. apply Returns_ret. 
  cbv beta iota delta [mul_inner_fold]. do 3 c_step. c_inputs. c_steps. apply Returns_ret. 
  unfold limbs_mag, limbs_Z. limb_projections. split; [lia|]. residue_ring.
Qed.

Lemma fe26_sqr_inner_spec a : limbs_mag 16 a ->
  Returns (secp256k1_fe_sqr_inner a) (fun r =>
    limbs_mag 2 r /\ toFp (limbs_Z r) = (toFp (limbs_Z a) * toFp (limbs_Z a))%Zmod).
Proof.
  intros Ha. destruct a as [a0 a1 a2 a3 a4 a5 a6 a7 a8 a9]. unfold limbs_mag in Ha. limb_projections.
  destruct Ha as (A0 & A1 & A2 & A3 & A4 & A5 & A6 & A7 & A8 & A9).
  unfold secp256k1_fe_sqr_inner. apply Returns_seq.
  cbv beta iota delta [sqr_inner_low]. c_steps. apply Returns_ret. apply Returns_seq.
  cbv beta iota delta [sqr_inner_high]. c_steps. apply Returns_ret.
  cbv beta iota delta [sqr_inner_fold]. do 3 c_step. c_inputs. c_steps. apply Returns_ret.
  unfold limbs_mag, limbs_Z. limb_projections. split; [lia|]. residue_ring.
Qed.

(** A value below twice the prime, reduced by at most one subtraction. *)
Lemma fe26_reduced_fe l v q x :
  limbs_mag 1 l -> x = Z.b2z (p <=? v) -> limbs_Z l = v - x * p -> 0 <= v < 2 * p ->
  fe_inv (mk_fe l 1 true) /\ limbs_Z l = (v + q * p) mod p.
Proof.
  intros Hl Hx El Hv. assert (limbs_Z l < p) as Hp.
  { subst x. rewrite El. destruct (Z.leb_spec p v); cbn [Z.b2z]; lia. }
  assert (0 <= limbs_Z l).
  { unfold limbs_Z, limbs_mag in *. lia. }
  split.
  - unfold fe_inv. cbn [fe_n magnitude normalized]. split; [lia|].
    split; [apply (fe26_limbs_mag_le 1); [exact Hl | lia]|]. intros _. split; [lia|]. split; assumption.
  - apply (Z.mod_unique _ _ (q + x)); [left; lia|]. rewrite El. ring.
Qed.

Lemma fe26_final_reduction t0 t1 t2 t3 t4 t5 t6 t7 t8 t9 h l :
  0 <= t0 <= 0x3FFFFFF -> 0 <= t1 <= 0x3FFFFFF ->
  0 <= t2 <= 0x3FFFFFF -> 0 <= t3 <= 0x3FFFFFF -> 0 <= t4 <= 0x3FFFFFF -> 0 <= t5 <= 0x3FFFFFF ->
  0 <= t6 <= 0x3FFFFFF -> 0 <= t7 <= 0x3FFFFFF -> 0 <= t8 <= 0x3FFFFFF ->
  0 <= h <= 1 -> 0 <= l <= 0x03FFFFF -> l = t9 - h * 2 ^ 22 ->
  Z.lor h (Z.land (Z.land (Z.b2z (t9 =? 0x03FFFFF))
                          (Z.b2z (Z.land (Z.land (Z.land (Z.land (Z.land (Z.land t2 t3) t4) t5) t6) t7) t8 =? 0x3FFFFFF)))
                  (Z.b2z (0x3FFFFFF <? t1 + 0x40 + Z.shiftr (t0 + 0x3D1) 26)))
    = Z.b2z (p <=? limbs_Z (L10 t0 t1 t2 t3 t4 t5 t6 t7 t8 t9)).
Proof.
  intros H0 H1 H2 H3 H4 H5 H6 H7 H8 Hh Hl El. rewrite b2z_land3.
  assert (0 <= Z.shiftr (t0 + 0x3D1) 26 <= 1) as Hs by (rewrite Z.shiftr_div_pow2 by lia; Z.to_euclidean_division_equations; lia).
  destruct (Z.eq_dec h 0) as [->|].
  - rewrite Z.lor_0_l. f_equal. rewrite <- fe26_overflow_iff by (unfold limbs_mag; limb_projections; lia).
    limb_projections. unfold u64. rewrite (Z.mod_small (t0 + _)), (Z.mod_small (t1 + _ + _)) by lia.
    f_equal. f_equal. apply eq_true_iff_eq. rewrite !Z.eqb_eq, !fe26_mid_ones by assumption. tauto.
  - replace h with 1 in * by lia. destruct (Z.eqb_spec t9 0x03FFFFF) as [->|]; [lia|].
    destruct (Z.leb_spec p (limbs_Z (L10 t0 t1 t2 t3 t4 t5 t6 t7 t8 t9))) as [|Hp]; [reflexivity|].
    rewrite p_literal in Hp. unfold limbs_Z in Hp. limb_projections. lia.
Qed.

Ltac open_fe r Hl c :=
  apply (fe26_limbs_mag_le _ c) in Hl; [|lia];
  let a0 := fresh "a" in let a1 := fresh "a" in let a2 := fresh "a" in let a3 := fresh "a" in let a4 := fresh "a" in
  let a5 := fresh "a" in let a6 := fresh "a" in let a7 := fresh "a" in let a8 := fresh "a" in let a9 := fresh "a" in
  let m := fresh "m" in let nm := fresh "nm" in
  destruct r as [[a0 a1 a2 a3 a4 a5 a6 a7 a8 a9] m nm]; unfold limbs_mag in Hl;
  cbn [fe_n magnitude normalized] in *; limb_projections;
  destruct Hl as (? & ? & ? & ? & ? & ? & ? & ? & ? & ?).

Ltac read_limbs :=
  lazymatch goal with
  | |- Returns _ ?Q => let q := fresh in set (q := Q); cbv beta iota delta [fe_n]; subst q
  end.

(** Turns the code's test for the final reduction into a comparison with the
    prime. *)
Ltac decide_reduction Hx :=
  repeat match goal with E : ?m = Z.land _ _ |- _ => subst m end;
  match goal with
  | E : ?x = Z.lor ?h (Z.land (Z.land (Z.b2z (?t9 =? _)) _) _), El : ?l = ?t9 - ?h * 2 ^ 22 |- _ =>
      erewrite fe26_final_reduction in E; [..|exact El]; [|lia ..]; rename E into Hx
  end.

Lemma fe26_normalize_spec r : fe_inv r -> magnitude r < 32 ->
  Returns (secp256k1_fe_normalize r) (fun r' =>
    fe_inv r' /\ magnitude r' = 1 /\ normalized r' = true /\
    limbs_Z (fe_n r') = limbs_Z (fe_n r) mod p).
Proof.
  intros (Hm & Hl & _) Hm'. open_fe r Hl 62.
  cbv beta delta [secp256k1_fe_normalize]. read_limbs. c_inputs. c_steps. decide_reduction Hx.
  set (V := limbs_Z (L10 l0 l1 l2 l3 l4 l5 l6 l7 l8 v14)) in *.
  assert (limbs_mag 1 (L10 l10 l11 l12 l13 l14 l15 l16 l17 l18 l19)) as Hr by (unfold limbs_mag; limb_projections; lia).
  destruct (final_carry V (limbs_Z (L10 l10 l11 l12 l13 l14 l15 l16 l17 l18 l19)) h19 v16) as [H19 HW]; [| |exact Hx| |].
  { unfold limbs_Z. limb_projections. lia. }
  { subst V. unfold limbs_Z. limb_projections. lia. }
  { subst V. unfold limbs_Z. limb_projections. rewrite p_literal. lia. }
  apply Returns_check; [apply Z.eqb_eq; exact H19|]. cbv zeta.
  destruct (fe26_reduced_fe _ V h v16 Hr Hx HW) as [Hinv Hv].
  { subst V. unfold limbs_Z. limb_projections. rewrite p_literal. lia. }
  apply fe26_Returns_verify; [exact Hinv|]. apply Returns_ret.
  split; [exact Hinv|]. split; [reflexivity|]. split; [reflexivity|].
  cbn [fe_n]. rewrite Hv. f_equal. subst V. rewrite p_literal. unfold limbs_Z. limb_projections. lia.
Qed.

Lemma fe26_normalize_weak_spec r : fe_inv r -> magnitude r < 32 ->
  Returns (secp256k1_fe_normalize_weak r) (fun r' =>
    fe_inv r' /\ magnitude r' = 1 /\ normalized r' = normalized r /\ fe_val r' = fe_val r).
Proof.
  intros (Hm & Hl & Hn) Hm'. open_fe r Hl 62.
  cbv beta delta [secp256k1_fe_normalize_weak]. read_limbs. c_inputs. c_steps.
  cbv zeta. pose proof p_literal as Hp.
  match goal with |- Returns (bind (secp256k1_fe_verify ?x) _) _ => assert (fe_inv x) as Hinv end.
  { unfold fe_inv, limbs_mag, limbs_Z in *. cbn [fe_n magnitude normalized] in *. limb_projections.
    split; [lia|]. split; [lia|]. intros Hnm. destruct (Hn Hnm) as (_ & Hl1 & Hlt).
    rewrite Hp in Hlt |- *. lia. }
  apply fe26_Returns_verify; [exact Hinv|]. apply Returns_ret.
  split; [exact Hinv|]. split; [reflexivity|]. split; [reflexivity|].
  unfold fe_val, limbs_Z. cbn [fe_n]. clear Hinv Hn. limb_projections. residue_ring.
Qed.

Lemma fe26_normalize_var_spec r : fe_inv r -> magnitude r < 32 ->
  Returns (secp256k1_fe_normalize_var r) (fun r' =>
    fe_inv r' /\ magnitude r' = 1 /\ normalized r' = true /\
    limbs_Z (fe_n r') = limbs_Z (fe_n r) mod p).
Proof.
  intros (Hm & Hl & _) Hm'. open_fe r Hl 62.
  cbv beta delta [secp256k1_fe_normalize_var]. read_limbs. c_inputs. c_steps. decide_reduction Hx.
  set (V := limbs_Z (L10 l0 l1 l2 l3 l4 l5 l6 l7 l8 v14)) in *.
  assert (0 <= V < 2 * p) as HV by (subst V; unfold limbs_Z; limb_projections; rewrite p_literal; lia).
  apply (Returns_bind _ _ (fun l' => limbs_mag 1 l' /\ limbs_Z l' = V - v16 * p)).
  - destruct (Z.leb_spec p V) as [G|G]; cbn [Z.b2z] in Hx; subst v16.
    + change (negb (1 =? 0)) with true. cbv iota. c_steps.
      match goal with |- Returns (bind (VERIFY_CHECK (?h =? 1)) _) _ =>
        destruct (final_carry V (limbs_Z (L10 l10 l11 l12 l13 l14 l15 l16 l17 l18 l19)) h 1) as [H19 HW] end.
      { unfold limbs_Z. limb_projections. lia. }
      { subst V. unfold limbs_Z. limb_projections. lia. }
      { rewrite (proj2 (Z.leb_le _ _) G). reflexivity. }
      { exact HV. }
      apply Returns_check; [apply Z.eqb_eq; exact H19|]. apply Returns_ret.
      split; [unfold limbs_mag; limb_projections; lia|exact HW].
    + apply Returns_ret. split; [|subst V; lia]. rewrite p_literal in G. subst V. unfold limbs_Z in G. limb_projections.
      unfold limbs_mag. limb_projections. lia.
  - intros l' [Hl' Hz]. cbv zeta.
    destruct (fe26_reduced_fe l' V h v16 Hl' Hx Hz HV) as [Hinv Hr].
    apply fe26_Returns_verify; [exact Hinv|]. apply Returns_ret.
    split; [exact Hinv|]. split; [reflexivity|]. split; [reflexivity|].
    cbn [fe_n]. rewrite Hr. f_equal. subst V. rewrite p_literal. unfold limbs_Z. limb_projections. lia.
Qed.

(** The two raw values that stand for zero after the first pass. *)
Lemma fe26_zero_masks t0 t1 t2 t3 t4 t5 t6 t7 t8 t9 :
  0 <= t0 <= 0x3FFFFFF -> 0 <= t1 <= 0x3FFFFFF ->
  0 <= t2 <= 0x3FFFFFF -> 0 <= t3 <= 0x3FFFFFF -> 0 <= t4 <= 0x3FFFFFF -> 0 <= t5 <= 0x3FFFFFF ->
  0 <= t6 <= 0x3FFFFFF -> 0 <= t7 <= 0x3FFFFFF -> 0 <= t8 <= 0x3FFFFFF -> 0 <= t9 <= 0x7FFFFF ->
  ((Z.lor (Z.lor (Z.lor (Z.lor (Z.lor (Z.lor (Z.lor (Z.lor (Z.lor t0 t1) t2) t3) t4) t5) t6) t7) t8) t9 =? 0) ||
   (Z.land (Z.land (Z.land (Z.land (Z.land (Z.land (Z.land (Z.land (Z.land (Z.lxor t0 0x3D0) (Z.lxor t1 0x40))
      t2) t3) t4) t5) t6) t7) t8) (Z.lxor t9 0x3C00000) =? 0x3FFFFFF) = true)
  <-> limbs_Z (L10 t0 t1 t2 t3 t4 t5 t6 t7 t8 t9) = 0 \/ limbs_Z (L10 t0 t1 t2 t3 t4 t5 t6 t7 t8 t9) = p.
Proof.
  intros H0 H1 H2 H3 H4 H5 H6 H7 H8 H9. rewrite orb_true_iff, !Z.eqb_eq, !Z.lor_eq_0_iff.
  change 0x3FFFFFF with (Z.ones 26) in *.
  assert (0 <= Z.lxor t0 0x3D0 <= Z.ones 26) by (apply lxor_ones; cbn in *; lia).
  assert (0 <= Z.lxor t1 0x40 <= Z.ones 26) by (apply lxor_ones; cbn in *; lia).
  assert (0 <= Z.lxor t9 0x3C00000 <= Z.ones 26) by (apply lxor_ones; cbn in *; lia).
  rewrite !land_eq_ones by (first [assumption | apply bnd_land_l; assumption | lia]). rewrite !lxor_eq_iff.
  rewrite p_literal. change (Z.ones 26) with 0x3FFFFFF in *.
  change (Z.lxor 0x3FFFFFF 0x3D0) with 0x3FFFC2F. change (Z.lxor 0x3FFFFFF 0x40) with 0x3FFFFBF.
  change (Z.lxor 0x3FFFFFF 0x3C00000) with 0x03FFFFF.
  unfold limbs_Z. limb_projections. lia.
Qed.

Ltac subst_masks :=
  repeat match goal with
    | E : ?v = Z.land _ _ |- _ => subst v
    | E : ?v = Z.lor _ _ |- _ => subst v
    | E : ?v = Z.lxor _ _ |- _ => subst v
    end.

Lemma fe26_normalizes_to_zero_spec r : fe_inv r -> magnitude r < 32 ->
  Returns (secp256k1_fe_normalizes_to_zero r) (fun b => b = true <-> fe_val r = Zmod.zero).
Proof.
  intros (Hm & Hl & Hn) Hm'. clear Hn. open_fe r Hl 62.
  cbv beta delta [secp256k1_fe_normalizes_to_zero]. read_limbs. c_inputs. c_steps.
  subst_masks. apply Returns_ret. rewrite fe26_zero_masks by lia.
  unfold fe_val. rewrite toFp_zero. pose proof p_literal as Hp.
  rewrite <- (zero_iff _ h); unfold limbs_Z; cbn [fe_n]; limb_projections; rewrite Hp; [|lia].
  match goal with |- ?x mod _ = 0 <-> ?y mod _ = 0 => replace y with x by lia end. reflexivity.
Qed.

Lemma fe26_normalizes_to_zero_var_spec r : fe_inv r -> magnitude r < 32 ->
  Returns (secp256k1_fe_normalizes_to_zero_var r) (fun b => b = true <-> fe_val r = Zmod.zero).
Proof.
  intros (Hm & Hl & Hn) Hm'. clear Hn. open_fe r Hl 62.
  cbv beta delta [secp256k1_fe_normalizes_to_zero_var]. read_limbs. c_inputs. c_steps.
  pose proof p_literal as Hp.
  destruct (_ && _) eqn:Hfast.
  - apply Returns_ret. split; [discriminate|]. intros Hz.
    apply andb_prop in Hfast as [Hz0 Hz1]. rewrite negb_true_iff, Z.eqb_neq in Hz0, Hz1.
    unfold fe_val in Hz. rewrite toFp_zero in Hz.
    subst_masks. rewrite lxor_eq_iff in Hz1. change (Z.lxor 0x3FFFFFF 0x3D0) with 0x3FFFC2F in Hz1.
    replace (limbs_Z _) with ((limbs_Z (L10 v (a0 + h * 2 ^ 6) a1 a2 a3 a4 a5 a6 a7 l)) + h * p) in Hz.
    2: { rewrite Hp. unfold limbs_Z. cbn [fe_n]. limb_projections. lia. }
    apply zero_iff in Hz; unfold limbs_Z in *; limb_projections; rewrite Hp in *; lia.
  - clear Hfast. c_steps. subst_masks. apply Returns_ret. rewrite fe26_zero_masks by lia.
    unfold fe_val. rewrite toFp_zero.
    rewrite <- (zero_iff _ h); unfold limbs_Z; cbn [fe_n]; limb_projections; rewrite Hp; [|lia].
    match goal with |- ?x mod _ = 0 <-> ?y mod _ = 0 => replace y with x by lia end. reflexivity.
Qed.

Lemma fe26_set_int_spec a : 0 <= a <= 0x3FFFFFF ->
  Returns (secp256k1_fe_set_int a) (fun r =>
    fe_inv r /\ magnitude r = 1 /\ normalized r = true /\ limbs_Z (fe_n r) = a).
Proof.
  intros Ha. cbv beta delta [secp256k1_fe_set_int]. cbv zeta.
  replace (u32 a) with a by (unfold u32; rewrite Z.mod_small; lia).
  assert (limbs_Z (L10 a 0 0 0 0 0 0 0 0 0) = a) as Hz by (unfold limbs_Z; limb_projections; lia).
  assert (fe_inv (mk_fe (L10 a 0 0 0 0 0 0 0 0 0) 1 true)) as Hinv.
  { unfold fe_inv. cbn [fe_n magnitude normalized]. rewrite Hz, p_literal.
    unfold limbs_mag. limb_projections. lia. }
  apply fe26_Returns_verify; [exact Hinv|]. apply Returns_ret. auto.
Qed.

Lemma fe26_clear_spec :
  fe_inv secp256k1_fe_clear /\ normalized secp256k1_fe_clear = true /\ limbs_Z (fe_n secp256k1_fe_clear) = 0.
Proof.
  split; [|split; reflexivity].
  unfold fe_inv, secp256k1_fe_clear, limbs_mag, limbs_Z. cbn [fe_n magnitude normalized].
  limb_projections. rewrite p_literal. lia.
Qed.

Lemma fe26_normalized_Z a : fe_inv a -> normalized a = true ->
  limbs_mag 1 (fe_n a) /\ 0 <= limbs_Z (fe_n a) < p.
Proof.
  intros (_ & _ & Hn) Hnm. destruct (Hn Hnm) as (_ & Hl & Hp). split; [exact Hl|].
  unfold limbs_mag, limbs_Z in *. lia.
Qed.

Lemma fe26_normalized_spec a : fe_inv a -> normalized a = true -> magnitude a <= 1 /\ 0 <= limbs_Z (fe_n a) < p.
Proof.
  intros Ha Hn. split; [apply Ha, Hn|]. apply (fe26_normalized_Z a Ha Hn).
Qed.

Lemma fe26_is_zero_spec a : fe_inv a -> normalized a = true ->
  Returns (secp256k1_fe_is_zero a) (fun b => b = (limbs_Z (fe_n a) =? 0)).
Proof.
  intros Ha Hn. destruct (fe26_normalized_Z a Ha Hn) as [Hl Hz].
  unfold secp256k1_fe_is_zero. destruct (fe_n a) as [t0 t1 t2 t3 t4 t5 t6 t7 t8 t9].
  apply Returns_check; [exact Hn|]. apply fe26_Returns_verify; [exact Ha|]. apply Returns_ret.
  apply eq_true_iff_eq. rewrite !Z.eqb_eq, !Z.lor_eq_0_iff.
  unfold limbs_mag, limbs_Z in *. limb_projections. lia.
Qed.

Lemma fe26_is_odd_spec a : fe_inv a -> normalized a = true ->
  Returns (secp256k1_fe_is_odd a) (fun b => b = Z.odd (limbs_Z (fe_n a))).
Proof.
  intros Ha Hn. unfold secp256k1_fe_is_odd.
  apply Returns_check; [exact Hn|]. apply fe26_Returns_verify; [exact Ha|]. apply Returns_ret.
  rewrite land_1_odd. destruct (fe_n a) as [t0 t1 t2 t3 t4 t5 t6 t7 t8 t9]. unfold limbs_Z. limb_projections.
  rewrite <- (Z.odd_add_mul_2 t0 (t1 * 2 ^ 25 + t2 * 2 ^ 51 + t3 * 2 ^ 77 + t4 * 2 ^ 103 + t5 * 2 ^ 129
                                  + t6 * 2 ^ 155 + t7 * 2 ^ 181 + t8 * 2 ^ 207 + t9 * 2 ^ 233)).
  f_equal. lia.
Qed.

Lemma fe26_cmp_var_spec a b : fe_inv a -> fe_inv b -> normalized a = true -> normalized b = true ->
  Returns (secp256k1_fe_cmp_var a b) (fun c =>
    c = sign_of (limbs_Z (fe_n a) ?= limbs_Z (fe_n b))).
Proof.
  intros Ha Hb Hna Hnb. destruct (fe26_normalized_Z a Ha Hna) as [Hla _], (fe26_normalized_Z b Hb Hnb) as [Hlb _].
  unfold secp256k1_fe_cmp_var.
  do 2 (apply Returns_check; [assumption|]). do 2 (apply fe26_Returns_verify; [assumption|]). apply Returns_ret.
  destruct (fe_n a) as [a0 a1 a2 a3 a4 a5 a6 a7 a8 a9], (fe_n b) as [b0 b1 b2 b3 b4 b5 b6 b7 b8 b9].
  unfold limbs_mag, limbs_Z, to_list in *. limb_projections. cbn [rev app cmp_limbs] in *.
  match goal with |- _ = sign_of (?x ?= ?y) => destruct (Z.compare_spec x y) end; cbn [sign_of];
  repeat match goal with |- context [if ?x <? ?y then _ else _] => destruct (Z.ltb_spec x y); [lia|] end; lia.
Qed.

Lemma fe26_limbs_Z_digits l : limbs_Z (of_list l) = digits_value 26 (fun t => nth t l 0) 10.
Proof.
  unfold limbs_Z, of_list. limb_projections. cbn [digits_value Nat.mul Nat.add].
  repeat match goal with |- context [2 ^ Z.of_nat ?k] => let v := eval vm_compute in (2 ^ Z.of_nat k) in
    change (2 ^ Z.of_nat k) with v end. eval_literals. ring.
Qed.

Lemma fe26_of_limbs_of v : 0 <= v < 2 ^ 256 ->
  limbs_mag 1 (of_list (limbs_of 26 10 v)) /\ limbs_Z (of_list (limbs_of 26 10 v)) = v.
Proof.
  intros Hv.
  assert (limbs_Z (of_list (limbs_of 26 10 v)) = v) as Hz.
  { rewrite fe26_limbs_Z_digits, digits_limbs_of. apply Z.mod_small.
    change (2 ^ Z.of_nat (26 * 10)) with (2 ^ 260). lia. }
  split; [|exact Hz].
  assert (forall i, (i < 10)%nat -> 0 <= nth i (limbs_of 26 10 v) 0 < 2 ^ 26) as Hr
    by (intros i Hi; rewrite nth_limbs_of by exact Hi; apply Z.mod_pos_bound; lia).
  pose proof (Hr 0%nat ltac:(lia)). pose proof (Hr 1%nat ltac:(lia)). pose proof (Hr 2%nat ltac:(lia)).
  pose proof (Hr 3%nat ltac:(lia)). pose proof (Hr 4%nat ltac:(lia)). pose proof (Hr 5%nat ltac:(lia)).
  pose proof (Hr 6%nat ltac:(lia)). pose proof (Hr 7%nat ltac:(lia)). pose proof (Hr 8%nat ltac:(lia)).
  pose proof (Hr 9%nat ltac:(lia)). clear Hr.
  unfold limbs_mag, limbs_Z, of_list in *. limb_projections. lia.
Qed.

Lemma fe26_to_limbs_of l : limbs_mag 1 l -> to_list l = limbs_of 26 10 (limbs_Z l).
Proof.
  intros Hl. replace l with (of_list (to_list l)) at 2 by (destruct l; reflexivity).
  rewrite fe26_limbs_Z_digits. symmetry. apply limbs_of_digits; [reflexivity|].
  destruct l as [a0 a1 a2 a3 a4 a5 a6 a7 a8 a9]. unfold limbs_mag in Hl. limb_projections.
  unfold to_list. limb_projections. change (2 ^ Z.of_nat 26) with (2 ^ 26).
  intros t Ht. do 10 (destruct t as [|t]; [cbn [nth]; lia|]). lia.
Qed.

Lemma fe26_u32_id x : 0 <= x < 2 ^ Z.of_nat 26 -> u32 x = x.
Proof. intros Hx. apply Z.mod_small. change (2 ^ Z.of_nat 26) with (2 ^ 26) in Hx. lia. Qed.

Lemma fe26_set_b32_spec r a : bytes_of_len 32 a ->
  Returns (secp256k1_fe_set_b32 r a) (fun '(ok, r') =>
    ok = (be_value a <? p) /\ limbs_Z (fe_n r') = be_value a /\
    (ok = true -> fe_inv r' /\ magnitude r' = 1 /\ normalized r' = true)).
Proof.
  intros Ha. unfold secp256k1_fe_set_b32.
  change [0; 0; 0; 0; 0; 0; 0; 0; 0; 0] with (repeat 0 10). change 0x3 with (Z.ones (Z.of_nat 2)).
  rewrite pack_b32_spec; [|lia|reflexivity|reflexivity|lia|exact fe26_u32_id|exact Ha|lia].
  destruct (fe26_of_limbs_of (be_value a)) as [Hl Hz].
  { pose proof (be_value_range _ _ Ha). change (2 ^ 256) with (256 ^ Z.of_nat 32). lia. }
  set (l := of_list _) in *. rewrite (fe26_overflow_iff l Hl), Hz.
  rewrite Z.leb_antisym. destruct (Z.ltb_spec (be_value a) p) as [G|G]; cbn [negb].
  - assert (fe_inv (mk_fe l 1 true)) as Hinv.
    { unfold fe_inv. cbn [fe_n magnitude normalized]. split; [lia|].
      split; [apply (fe26_limbs_mag_le 1); [exact Hl|lia]|].
      intros _. rewrite Hz. split; [lia|]. split; assumption. }
    apply fe26_Returns_verify; [exact Hinv|]. apply Returns_ret. auto.
  - apply Returns_ret. split; [reflexivity|]. split; [exact Hz|]. discriminate.
Qed.

Lemma fe26_get_b32_spec a : fe_inv a -> normalized a = true ->
  Returns (secp256k1_fe_get_b32 a) (fun b => b = be_bytes 32 (limbs_Z (fe_n a))).
Proof.
  intros Ha Hn. unfold secp256k1_fe_get_b32. destruct (fe26_normalized_Z a Ha Hn) as [Hl Hz].
  apply Returns_check; [exact Hn|]. apply fe26_Returns_verify; [exact Ha|]. apply Returns_ret.
  rewrite (fe26_to_limbs_of _ Hl). change 0x3 with (Z.ones (Z.of_nat 2)).
  apply unpack_b32_spec; try lia; try reflexivity. rewrite p_literal in Hz. lia.
Qed.

Lemma fe26_negate_spec a m : fe_inv a -> magnitude a <= m -> m < 32 ->
  Returns (secp256k1_fe_negate a m) (fun r =>
    fe_inv r /\ magnitude r = m + 1 /\ normalized r = false /\ fe_val r = (- fe_val a)%Zmod).
Proof.
  intros Ha Hm Hm'. unfold secp256k1_fe_negate. apply Returns_check; [apply Z.leb_le; exact Hm|].
  apply fe26_Returns_verify; [exact Ha|]. destruct Ha as (H0 & Hl & _).
  unfold fe_val. destruct (fe_n a) as [a0 a1 a2 a3 a4 a5 a6 a7 a8 a9]. apply (fe26_limbs_mag_le _ (2 * m)) in Hl; [|lia].
  unfold limbs_mag in Hl. limb_projections. unfold u32.
  rewrite !Z.mod_small by lia.
  match goal with |- Returns (bind (secp256k1_fe_verify ?x) _) _ => assert (fe_inv x) as Hinv end.
  { unfold fe_inv, limbs_mag. cbn [fe_n magnitude normalized]. limb_projections.
    split; [lia|]. split; [lia|]. discriminate. }
  apply fe26_Returns_verify; [exact Hinv|]. apply Returns_ret.
  split; [exact Hinv|]. split; [reflexivity|]. split; [reflexivity|].
  unfold limbs_Z. cbn [fe_n]. limb_projections. clear. autorewrite with residue. eval_literals. ring.
Qed.

Lemma fe26_mul_int_spec r a : fe_inv r -> 0 <= a -> magnitude r * a <= 32 ->
  Returns (secp256k1_fe_mul_int r a) (fun r' =>
    fe_inv r' /\ magnitude r' = magnitude r * a /\ normalized r' = false /\
    fe_val r' = (fe_val r * toFp a)%Zmod).
Proof.
  intros Hr Ha Hm. unfold secp256k1_fe_mul_int, fe_val. destruct Hr as (H0 & Hl & _).
  destruct (fe_n r) as [a0 a1 a2 a3 a4 a5 a6 a7 a8 a9]. unfold limbs_mag in Hl. limb_projections. unfold u32.
  rewrite !Z.mod_small by nia.
  match goal with |- Returns (bind (secp256k1_fe_verify ?x) _) _ => assert (fe_inv x) as Hinv end.
  { unfold fe_inv, limbs_mag. cbn [fe_n magnitude normalized]. limb_projections.
    split; [nia|]. split; [nia|]. discriminate. }
  apply fe26_Returns_verify; [exact Hinv|]. apply Returns_ret.
  split; [exact Hinv|]. split; [reflexivity|]. split; [reflexivity|].
  unfold limbs_Z. cbn [fe_n]. limb_projections. clear. autorewrite with residue. eval_literals. ring.
Qed.

Lemma fe26_add_spec r a : fe_inv r -> fe_inv a -> magnitude r + magnitude a <= 32 ->
  Returns (secp256k1_fe_add r a) (fun r' =>
    fe_inv r' /\ magnitude r' = magnitude r + magnitude a /\ normalized r' = false /\
    fe_val r' = (fe_val r + fe_val a)%Zmod).
Proof.
  intros Hr Ha Hm. unfold secp256k1_fe_add, fe_val. apply fe26_Returns_verify; [exact Ha|].
  destruct Hr as (H0 & Hl & _), Ha as (H1 & Hl1 & _).
  destruct (fe_n r) as [r0 r1 r2 r3 r4 r5 r6 r7 r8 r9], (fe_n a) as [a0 a1 a2 a3 a4 a5 a6 a7 a8 a9].
  unfold limbs_mag in Hl, Hl1. limb_projections. unfold u32.
  rewrite !Z.mod_small by lia.
  match goal with |- Returns (bind (secp256k1_fe_verify ?x) _) _ => assert (fe_inv x) as Hinv end.
  { unfold fe_inv, limbs_mag. cbn [fe_n magnitude normalized]. limb_projections.
    split; [lia|]. split; [lia|]. discriminate. }
  apply fe26_Returns_verify; [exact Hinv|]. apply Returns_ret.
  split; [exact Hinv|]. split; [reflexivity|]. split; [reflexivity|].
  unfold limbs_Z. cbn [fe_n]. limb_projections. clear. autorewrite with residue. eval_literals. ring.
Qed.

Lemma fe26_product_fe l : limbs_mag 2 l -> fe_inv (mk_fe l 1 false).
Proof.
  intros Hl. unfold fe_inv. cbn [fe_n magnitude normalized]. split; [lia|]. split; [exact Hl|]. discriminate.
Qed.

Lemma fe26_mul_spec a b : fe_inv a -> fe_inv b -> magnitude a <= 8 -> magnitude b <= 8 ->
  Returns (secp256k1_fe_mul a b) (fun r =>
    fe_inv r /\ magnitude r = 1 /\ normalized r = false /\ fe_val r = (fe_val a * fe_val b)%Zmod).
Proof.
  intros Ha Hb Hma Hmb. unfold secp256k1_fe_mul.
  do 2 (apply Returns_check; [apply Z.leb_le; assumption|]).
  do 2 (apply fe26_Returns_verify; [assumption|]). destruct Ha as (? & Ha & _), Hb as (? & Hb & _).
  eapply Returns_bind.
  { apply fe26_mul_inner_spec; (eapply fe26_limbs_mag_le; [eassumption | lia]). }
  intros l [Hl Hv]. cbv zeta. pose proof (fe26_product_fe l Hl).
  apply fe26_Returns_verify; [assumption|]. apply Returns_ret. auto.
Qed.

Lemma fe26_sqr_spec a : fe_inv a -> magnitude a <= 8 ->
  Returns (secp256k1_fe_sqr a) (fun r =>
    fe_inv r /\ magnitude r = 1 /\ normalized r = false /\ fe_val r = (fe_val a * fe_val a)%Zmod).
Proof.
  intros Ha Hma. unfold secp256k1_fe_sqr. apply Returns_check; [apply Z.leb_le; assumption|].
  apply fe26_Returns_verify; [assumption|]. destruct Ha as (? & Ha & _).
  eapply Returns_bind; [apply fe26_sqr_inner_spec; eapply fe26_limbs_mag_le; [eassumption | lia]|].
  intros l [Hl Hv]. cbv zeta. pose proof (fe26_product_fe l Hl).
  apply fe26_Returns_verify; [assumption|]. apply Returns_ret. auto.
Qed.

Lemma fe26_select32_spec flag x y : flag = 0 \/ flag = 1 -> 0 <= x < 2 ^ 32 -> 0 <= y < 2 ^ 32 ->
  select32 (u32 (flag + u32 (Z.lnot 0))) (u32 (Z.lnot (u32 (flag + u32 (Z.lnot 0))))) x y
    = if flag =? 0 then x else y.
Proof. intros Hf Hx Hy. apply (select_mask 32); (assumption || lia). Qed.

Lemma fe26_limbs_mag_u32 m l : limbs_mag m l -> m <= 64 ->
  0 <= d0 l < 2 ^ 32 /\ 0 <= d1 l < 2 ^ 32 /\ 0 <= d2 l < 2 ^ 32 /\ 0 <= d3 l < 2 ^ 32 /\ 0 <= d4 l < 2 ^ 32 /\
  0 <= d5 l < 2 ^ 32 /\ 0 <= d6 l < 2 ^ 32 /\ 0 <= d7 l < 2 ^ 32 /\ 0 <= d8 l < 2 ^ 32 /\ 0 <= d9 l < 2 ^ 32.
Proof. unfold limbs_mag. lia. Qed.

Lemma fe26_cmov_eq r a flag : fe_inv r -> fe_inv a -> flag = 0 \/ flag = 1 ->
  secp256k1_fe_cmov r a flag =
  mk_fe (if flag =? 0 then fe_n r else fe_n a) (Z.max (magnitude r) (magnitude a)) (normalized r && normalized a).
Proof.
  intros (Hmr & Hlr & _) (Hma & Hla & _) Hf. unfold secp256k1_fe_cmov.
  pose proof (fe26_limbs_mag_u32 _ _ Hlr ltac:(lia)). pose proof (fe26_limbs_mag_u32 _ _ Hla ltac:(lia)).
  destruct (fe_n r) as [r0 r1 r2 r3 r4 r5 r6 r7 r8 r9], (fe_n a) as [a0 a1 a2 a3 a4 a5 a6 a7 a8 a9]. limb_projections.
  rewrite !fe26_select32_spec by tauto. f_equal; [destruct (flag =? 0); reflexivity|].
  destruct (Z.ltb_spec (magnitude r) (magnitude a)); lia.
Qed.

Lemma fe26_cmov_spec r a flag : fe_inv r -> fe_inv a -> flag = 0 \/ flag = 1 ->
  let r' := secp256k1_fe_cmov r a flag in
  fe_inv r' /\ magnitude r' = Z.max (magnitude r) (magnitude a) /\
  normalized r' = normalized r && normalized a /\
  limbs_Z (fe_n r') = if flag =? 0 then limbs_Z (fe_n r) else limbs_Z (fe_n a).
Proof.
  intros Hr Ha Hf. cbv zeta. rewrite (fe26_cmov_eq r a flag Hr Ha Hf).
  destruct Hr as (Hmr & Hlr & Hnr), Ha as (Hma & Hla & Hna).
  cbn [fe_n magnitude normalized]. split; [|split; [reflexivity|split; [reflexivity|]]].
  - unfold fe_inv. cbn [fe_n magnitude normalized]. split; [lia|]. split.
    + destruct (flag =? 0); (eapply fe26_limbs_mag_le; [eassumption | lia]).
    + intros [H1 H2]%andb_prop. specialize (Hnr H1). specialize (Hna H2).
      split; [lia|]. destruct (flag =? 0); tauto.
  - destruct (flag =? 0); reflexivity.
Qed.

Lemma fe26_storage_cmov_spec r a flag : storage_wf r -> storage_wf a -> flag = 0 \/ flag = 1 ->
  secp256k1_fe_storage_cmov r a flag = if flag =? 0 then r else a.
Proof.
  intros Hr Ha Hf. unfold secp256k1_fe_storage_cmov, storage_wf in *.
  destruct r as [r0 r1 r2 r3 r4 r5 r6 r7], a as [a0 a1 a2 a3 a4 a5 a6 a7].
  cbn [s0 s1 s2 s3 s4 s5 s6 s7] in *.
  rewrite !fe26_select32_spec by tauto. destruct (flag =? 0); reflexivity.
Qed.

Lemma fe26_to_storage_spec a : fe_inv a -> normalized a = true ->
  Returns (secp256k1_fe_to_storage a) (fun s =>
    storage_wf s /\ storage_Z s = limbs_Z (fe_n a)).
Proof.
  intros Ha Hn. destruct (fe26_normalized_Z a Ha Hn) as [Hl _]. unfold secp256k1_fe_to_storage.
  apply Returns_check; [exact Hn|]. destruct (fe_n a) as [n0 n1 n2 n3 n4 n5 n6 n7 n8 n9]. apply Returns_ret.
  unfold limbs_mag, storage_wf, storage_Z, limbs_Z, u32 in *. cbn [s0 s1 s2 s3 s4 s5 s6 s7] in *. limb_projections.
  rewrite !Z.shiftr_div_pow2 by lia.
  rewrite !lor_shiftl_wrap by (rewrite ?lor_shiftl_wrap; Z.to_euclidean_division_equations; lia).
  repeat match goal with |- context [2 ^ (32 - ?k)] => let v := eval vm_compute in (2 ^ (32 - k)) in
    change (2 ^ (32 - k)) with v end.
  name_quotients. lia.
Qed.

Lemma fe26_from_storage_spec s : storage_wf s -> storage_Z s < p ->
  let r := secp256k1_fe_from_storage s in
  fe_inv r /\ magnitude r = 1 /\ normalized r = true /\ limbs_Z (fe_n r) = storage_Z s.
Proof.
  intros Hs Hp. cbv zeta. unfold secp256k1_fe_from_storage.
  assert (forall x, Z.land x 0x3FFFFFF = x mod 2 ^ 26) as Hm
    by (intros x; change 0x3FFFFFF with (Z.ones 26); apply Z.land_ones; lia).
  assert (forall x, u32 x mod 2 ^ 26 = x mod 2 ^ 26) as Hland
    by (intros x; apply Z.mod_mod_divide; exists (2 ^ 6); reflexivity).
  destruct s as [a0 a1 a2 a3 a4 a5 a6 a7]. unfold storage_wf, storage_Z in *. cbn [s0 s1 s2 s3 s4 s5 s6 s7] in *.
  rewrite !Hm, !Hland, !Z.shiftr_div_pow2 by lia.
  rewrite !lor_shiftl_wrap by (Z.to_euclidean_division_equations; lia).
  repeat match goal with |- context [2 ^ (26 - ?k)] => let v := eval vm_compute in (2 ^ (26 - k)) in
    change (2 ^ (26 - k)) with v end.
  match goal with |- fe_inv (mk_fe ?l _ _) /\ _ /\ _ /\ _ = ?v => assert (limbs_mag 1 l /\ limbs_Z l = v) as [Hl Hz] end.
  { unfold limbs_mag, limbs_Z. cbn [fe_n]. limb_projections. name_quotients. lia. }
  cbn [fe_n magnitude normalized]. rewrite Hz. split; [|auto].
  unfold fe_inv. cbn [fe_n magnitude normalized]. rewrite Hz. split; [lia|].
  split; [eapply fe26_limbs_mag_le; [exact Hl|lia]|]. intros _. split; [lia|]. auto.
Qed.

Lemma fe26_const w7 w6 w5 w4 w3 w2 w1 w0 :
  is_word w7 -> is_word w6 -> is_word w5 -> is_word w4 -> is_word w3 -> is_word w2 -> is_word w1 -> is_word w0 ->
  words_value w7 w6 w5 w4 w3 w2 w1 w0 < p ->
  let r := SECP256K1_FE_CONST w7 w6 w5 w4 w3 w2 w1 w0 in
  fe_inv r /\ normalized r = true /\ limbs_Z (fe_n r) = words_value w7 w6 w5 w4 w3 w2 w1 w0.
Proof.
  unfold is_word. intros H7 H6 H5 H4 H3 H2 H1 H0 Hp. cbv zeta.
  unfold SECP256K1_FE_CONST, SECP256K1_FE_CONST_INNER.
  match goal with |- fe_inv (mk_fe ?l _ _) /\ _ =>
    assert (limbs_mag 1 l /\ limbs_Z l = words_value w7 w6 w5 w4 w3 w2 w1 w0) as [Hl Hz] end.
  { unfold limbs_mag, limbs_Z, words_value, u32. limb_projections.
    unfold u64. rewrite !(Z.mod_small _ (2 ^ 32)) by lia.
    change 0x3FFFFFF with (Z.ones 26). change 0xFFFFF with (Z.ones 20). change 0x3FFF with (Z.ones 14).
    change 0xFF with (Z.ones 8). change 0x3 with (Z.ones 2). change 0x3FFFFF with (Z.ones 22).
    change 0xFFFF with (Z.ones 16). change 0x3FF with (Z.ones 10).
    rewrite !Z.land_ones, !Z.shiftr_div_pow2 by lia.
    rewrite !lor_shiftl_wrap by (Z.to_euclidean_division_equations; lia).
    repeat match goal with |- context [2 ^ (64 - ?k)] => let v := eval vm_compute in (2 ^ (64 - k)) in
      change (2 ^ (64 - k)) with v end.
    change (Z.ones 26) with 0x3FFFFFF. change (Z.ones 22) with 0x03FFFFF. name_quotients. lia. }
  cbn [fe_n]. split; [|split; [reflexivity | exact Hz]]. unfold fe_inv. cbn [fe_n magnitude normalized]. rewrite Hz.
  split; [lia|]. split; [apply (fe26_limbs_mag_le 1); [exact Hl|lia]|]. intros _. split; [lia|]. auto.
Qed.

Lemma fe26_storage_const w7 w6 w5 w4 w3 w2 w1 w0 :
  is_word w7 -> is_word w6 -> is_word w5 -> is_word w4 -> is_word w3 -> is_word w2 -> is_word w1 -> is_word w0 ->
  let s := SECP256K1_FE_STORAGE_CONST w7 w6 w5 w4 w3 w2 w1 w0 in
  storage_wf s /\ storage_Z s = words_value w7 w6 w5 w4 w3 w2 w1 w0.
Proof.
  unfold is_word. intros H7 H6 H5 H4 H3 H2 H1 H0. cbv zeta.
  unfold storage_wf, storage_Z, SECP256K1_FE_STORAGE_CONST, words_value, u32. cbn [s0 s1 s2 s3 s4 s5 s6 s7].
  lia.
Qed.
