(* ===== verification/FieldReprs.v ===== *)
(** * The two field representations implement the field interface *)

From Stdlib Require Import ZArith Lia List Bool.
From S2P Require Import Prelude Modulus Bytes Field5x52 Field10x26 Field.

#[local] Open Scope Z_scope.

(** ** [field_5x52.h] *)

Definition Field_5x52 : FieldOps := {|
  secp256k1_fe := Field5x52.secp256k1_fe;
  secp256k1_fe_storage := Field5x52.secp256k1_fe_storage;
  SECP256K1_FE_CONST := Field5x52.SECP256K1_FE_CONST;
  SECP256K1_FE_STORAGE_CONST := Field5x52.SECP256K1_FE_STORAGE_CONST;
  secp256k1_fe_normalize := Field5x52.secp256k1_fe_normalize;
  secp256k1_fe_normalize_weak := Field5x52.secp256k1_fe_normalize_weak;
  secp256k1_fe_normalize_var := Field5x52.secp256k1_fe_normalize_var;
  secp256k1_fe_normalizes_to_zero := Field5x52.secp256k1_fe_normalizes_to_zero;
  secp256k1_fe_normalizes_to_zero_var := Field5x52.secp256k1_fe_normalizes_to_zero_var;
  secp256k1_fe_set_int := Field5x52.secp256k1_fe_set_int;
  secp256k1_fe_clear := Field5x52.secp256k1_fe_clear;
  secp256k1_fe_is_zero := Field5x52.secp256k1_fe_is_zero;
  secp256k1_fe_is_odd := Field5x52.secp256k1_fe_is_odd;
  secp256k1_fe_cmp_var := Field5x52.secp256k1_fe_cmp_var;
  secp256k1_fe_set_b32 := Field5x52.secp256k1_fe_set_b32;
  secp256k1_fe_get_b32 := Field5x52.secp256k1_fe_get_b32;
  secp256k1_fe_negate := Field5x52.secp256k1_fe_negate;
  secp256k1_fe_mul_int := Field5x52.secp256k1_fe_mul_int;
  secp256k1_fe_add := Field5x52.secp256k1_fe_add;
  secp256k1_fe_mul := Field5x52.secp256k1_fe_mul;
  secp256k1_fe_sqr := Field5x52.secp256k1_fe_sqr;
  secp256k1_fe_cmov := Field5x52.secp256k1_fe_cmov;
  secp256k1_fe_storage_cmov := Field5x52.secp256k1_fe_storage_cmov;
  secp256k1_fe_to_storage := Field5x52.secp256k1_fe_to_storage;
  secp256k1_fe_from_storage := Field5x52.secp256k1_fe_from_storage
|}.

#[export] Instance Laws_5x52 : FieldLaws Field_5x52 :=
  @Build_FieldLaws Field_5x52
    Field5x52.fe_inv Field5x52.magnitude Field5x52.normalized
    (fun a => Field5x52.limbs_Z (Field5x52.fe_n a)) Field5x52.storage_wf Field5x52.storage_Z 2048
    ltac:(lia) fe52_normalized_spec fe52_const fe52_storage_const fe52_normalize_spec
    fe52_normalize_weak_spec fe52_normalize_var_spec fe52_normalizes_to_zero_spec
    fe52_normalizes_to_zero_var_spec fe52_set_int_spec fe52_clear_spec fe52_is_zero_spec fe52_is_odd_spec
    fe52_cmp_var_spec fe52_set_b32_spec fe52_get_b32_spec fe52_negate_spec fe52_mul_int_spec fe52_add_spec
    fe52_mul_spec fe52_sqr_spec fe52_cmov_spec fe52_storage_cmov_spec fe52_to_storage_spec
    fe52_from_storage_spec.

(** ** [field_10x26.h] *)

#[export] Instance Field_10x26 : FieldOps := {|
  secp256k1_fe := Field10x26.secp256k1_fe;
  secp256k1_fe_storage := Field10x26.secp256k1_fe_storage;
  SECP256K1_FE_CONST := Field10x26.SECP256K1_FE_CONST;
  SECP256K1_FE_STORAGE_CONST := Field10x26.SECP256K1_FE_STORAGE_CONST;
  secp256k1_fe_normalize := Field10x26.secp256k1_fe_normalize;
  secp256k1_fe_normalize_weak := Field10x26.secp256k1_fe_normalize_weak;
  secp256k1_fe_normalize_var := Field10x26.secp256k1_fe_normalize_var;
  secp256k1_fe_normalizes_to_zero := Field10x26.secp256k1_fe_normalizes_to_zero;
  secp256k1_fe_normalizes_to_zero_var := Field10x26.secp256k1_fe_normalizes_to_zero_var;
  secp256k1_fe_set_int := Field10x26.secp256k1_fe_set_int;
  secp256k1_fe_clear := Field10x26.secp256k1_fe_clear;
  secp256k1_fe_is_zero := Field10x26.secp256k1_fe_is_zero;
  secp256k1_fe_is_odd := Field10x26.secp256k1_fe_is_odd;
  secp256k1_fe_cmp_var := Field10x26.secp256k1_fe_cmp_var;
  secp256k1_fe_set_b32 := Field10x26.secp256k1_fe_set_b32;
  secp256k1_fe_get_b32 := Field10x26.secp256k1_fe_get_b32;
  secp256k1_fe_negate := Field10x26.secp256k1_fe_negate;
  secp256k1_fe_mul_int := Field10x26.secp256k1_fe_mul_int;
  secp256k1_fe_add := Field10x26.secp256k1_fe_add;
  secp256k1_fe_mul := Field10x26.secp256k1_fe_mul;
  secp256k1_fe_sqr := Field10x26.secp256k1_fe_sqr;
  secp256k1_fe_cmov := Field10x26.secp256k1_fe_cmov;
  secp256k1_fe_storage_cmov := Field10x26.secp256k1_fe_storage_cmov;
  secp256k1_fe_to_storage := Field10x26.secp256k1_fe_to_storage;
  secp256k1_fe_from_storage := Field10x26.secp256k1_fe_from_storage
|}.

#[export] Instance Laws_10x26 : FieldLaws Field_10x26 :=
  @Build_FieldLaws Field_10x26
    Field10x26.fe_inv Field10x26.magnitude Field10x26.normalized
    (fun a => Field10x26.limbs_Z (Field10x26.fe_n a)) Field10x26.storage_wf Field10x26.storage_Z 32
    ltac:(lia) fe26_normalized_spec fe26_const fe26_storage_const fe26_normalize_spec
    fe26_normalize_weak_spec fe26_normalize_var_spec fe26_normalizes_to_zero_spec
    fe26_normalizes_to_zero_var_spec fe26_set_int_spec fe26_clear_spec fe26_is_zero_spec fe26_is_odd_spec
    fe26_cmp_var_spec fe26_set_b32_spec fe26_get_b32_spec fe26_negate_spec fe26_mul_int_spec fe26_add_spec
    fe26_mul_spec fe26_sqr_spec fe26_cmov_spec fe26_storage_cmov_spec fe26_to_storage_spec
    fe26_from_storage_spec.
