(* ===== verification/FieldImpl.v ===== *)
(** * Representation-independent field functions: [field_impl.h]

    Equality, square root, inversion, batch inversion and the quadratic residue
    test, over any representation, in the configuration the package is built with
    ([USE_FIELD_INV_BUILTIN], [USE_NUM_NONE]). *)

From Stdlib Require Import ZArith Lia List Bool.
From S2P Require Import Prelude Modulus Bytes Field.
Import ListNotations.

#[local] Open Scope Z_scope.
#[local] Open Scope checked_scope.

(** ** Functions *)

Section Functions.
Context {F : FieldOps}.

Definition secp256k1_fe_equal (a b : secp256k1_fe) : checked bool :=
  na <- secp256k1_fe_negate a 1;;
  na <- secp256k1_fe_add na b;;
  secp256k1_fe_normalizes_to_zero na.

Definition secp256k1_fe_equal_var (a b : secp256k1_fe) : checked bool :=
  na <- secp256k1_fe_negate a 1;;
  na <- secp256k1_fe_add na b;;
  secp256k1_fe_normalizes_to_zero_var na.

(** [for (j=0; j<n; j++) secp256k1_fe_sqr(&x, &x);] *)
Definition fe_sqr_n (n : nat) (x : secp256k1_fe) : checked secp256k1_fe :=
  repeat_checked n secp256k1_fe_sqr x.

(** Returns the root and whether it is one. *)
Definition secp256k1_fe_sqrt (a : secp256k1_fe) : checked (bool * secp256k1_fe) :=
  x2 <- secp256k1_fe_sqr a;;
  x2 <- secp256k1_fe_mul x2 a;;
  x3 <- secp256k1_fe_sqr x2;;
  x3 <- secp256k1_fe_mul x3 a;;
  x6 <- fe_sqr_n 3 x3;;
  x6 <- secp256k1_fe_mul x6 x3;;
  x9 <- fe_sqr_n 3 x6;;
  x9 <- secp256k1_fe_mul x9 x3;;
  x11 <- fe_sqr_n 2 x9;;
  x11 <- secp256k1_fe_mul x11 x2;;
  x22 <- fe_sqr_n 11 x11;;
  x22 <- secp256k1_fe_mul x22 x11;;
  x44 <- fe_sqr_n 22 x22;;
  x44 <- secp256k1_fe_mul x44 x22;;
  x88 <- fe_sqr_n 44 x44;;
  x88 <- secp256k1_fe_mul x88 x44;;
  x176 <- fe_sqr_n 88 x88;;
  x176 <- secp256k1_fe_mul x176 x88;;
  x220 <- fe_sqr_n 44 x176;;
  x220 <- secp256k1_fe_mul x220 x44;;
  x223 <- fe_sqr_n 3 x220;;
  x223 <- secp256k1_fe_mul x223 x3;;
  (* The final result is then assembled using a sliding window over the blocks. *)
  t1 <- fe_sqr_n 23 x223;;
  t1 <- secp256k1_fe_mul t1 x22;;
  t1 <- fe_sqr_n 6 t1;;
  t1 <- secp256k1_fe_mul t1 x2;;
  t1 <- secp256k1_fe_sqr t1;;
  r <- secp256k1_fe_sqr t1;;
  (* Check that a square root was actually calculated *)
  t1 <- secp256k1_fe_sqr r;;
  ok <- secp256k1_fe_equal t1 a;;
  ret (ok, r).

Definition secp256k1_fe_inv (a : secp256k1_fe) : checked secp256k1_fe :=
  x2 <- secp256k1_fe_sqr a;;
  x2 <- secp256k1_fe_mul x2 a;;
  x3 <- secp256k1_fe_sqr x2;;
  x3 <- secp256k1_fe_mul x3 a;;
  x6 <- fe_sqr_n 3 x3;;
  x6 <- secp256k1_fe_mul x6 x3;;
  x9 <- fe_sqr_n 3 x6;;
  x9 <- secp256k1_fe_mul x9 x3;;
  x11 <- fe_sqr_n 2 x9;;
  x11 <- secp256k1_fe_mul x11 x2;;
  x22 <- fe_sqr_n 11 x11;;
  x22 <- secp256k1_fe_mul x22 x11;;
  x44 <- fe_sqr_n 22 x22;;
  x44 <- secp256k1_fe_mul x44 x22;;
  x88 <- fe_sqr_n 44 x44;;
  x88 <- secp256k1_fe_mul x88 x44;;
  x176 <- fe_sqr_n 88 x88;;
  x176 <- secp256k1_fe_mul x176 x88;;
  x220 <- fe_sqr_n 44 x176;;
  x220 <- secp256k1_fe_mul x220 x44;;
  x223 <- fe_sqr_n 3 x220;;
  x223 <- secp256k1_fe_mul x223 x3;;
  t1 <- fe_sqr_n 23 x223;;
  t1 <- secp256k1_fe_mul t1 x22;;
  t1 <- fe_sqr_n 5 t1;;
  t1 <- secp256k1_fe_mul t1 a;;
  t1 <- fe_sqr_n 3 t1;;
  t1 <- secp256k1_fe_mul t1 x2;;
  t1 <- fe_sqr_n 2 t1;;
  secp256k1_fe_mul a t1.

Definition secp256k1_fe_inv_var (a : secp256k1_fe) : checked secp256k1_fe :=
  secp256k1_fe_inv a.

(** [while (++i < len) secp256k1_fe_mul(&r[i], &r[i - 1], &a[i]);], for [k] rounds. *)
Fixpoint inv_all_forward (k i : nat) (r a : list secp256k1_fe) : checked (list secp256k1_fe) :=
  match k with
  | O => ret r
  | S k' =>
      x <- secp256k1_fe_mul (nth (i - 1) r secp256k1_fe_clear) (nth i a secp256k1_fe_clear);;
      inv_all_forward k' (S i) (upd r i x) a
  end.

(** [while (i > 0) { j = i--; ... } r[0] = u;] *)
Fixpoint inv_all_backward (i : nat) (u : secp256k1_fe) (r a : list secp256k1_fe) : checked (list secp256k1_fe) :=
  match i with
  | O => ret (upd r 0 u)
  | S i' =>
      x <- secp256k1_fe_mul (nth i' r secp256k1_fe_clear) u;;
      u <- secp256k1_fe_mul u (nth (S i') a secp256k1_fe_clear);;
      inv_all_backward i' u (upd r (S i') x) a
  end.

(** [r] and [a] do not overlap; [r] holds anything before the call. *)
Definition secp256k1_fe_inv_all_var (r a : list secp256k1_fe) (len : nat) : checked (list secp256k1_fe) :=
  match len with
  | O => ret r
  | S i =>
      let r := upd r 0 (nth 0 a secp256k1_fe_clear) in
      r <- inv_all_forward i 1 r a;;
      u <- secp256k1_fe_inv_var (nth i r secp256k1_fe_clear);;
      inv_all_backward i u r a
  end.

Definition secp256k1_fe_is_quad_var (a : secp256k1_fe) : checked bool :=
  ' (ok, _) <- secp256k1_fe_sqrt a;;
  ret ok.

End Functions.

(** [v] has a square root. *)
Definition is_square (v : Fp) : Prop := exists s, (s * s)%Zmod = v.

(** The root [secp256k1_fe_sqrt] computes. *)
Definition fe_root (v : Fp) : Fp := Zmod.pow v ((p + 1) / 4).

(** [v 0 * v 1 * ... * v i] *)
Fixpoint prefix_product (v : nat -> Fp) (i : nat) : Fp :=
  match i with
  | O => v O
  | S i' => (prefix_product v i' * v i)%Zmod
  end.

(** ** Powers *)

Lemma Fp_one_neq_opp : (Zmod.one : Fp) <> (- Zmod.one)%Zmod.
Proof. intros H. apply (f_equal Zmod.to_Z) in H. vm_compute in H. discriminate. Qed.

Lemma Fp_pow_sqr (v : Fp) e : 0 <= e -> (Zmod.pow v e * Zmod.pow v e)%Zmod = Zmod.pow v (2 * e).
Proof. intros He. rewrite <- Zmod.pow_add_r_nonneg by exact He. f_equal. lia. Qed.

Lemma Fp_pow_mul (v : Fp) e f : 0 <= e -> 0 <= f -> (Zmod.pow v e * Zmod.pow v f)%Zmod = Zmod.pow v (e + f).
Proof. intros. symmetry. apply Zmod.pow_add_r_nonneg; assumption. Qed.

Lemma eqb_sub (v w : Fp) : Zmod.eqb (- v + w)%Zmod Zmod.zero = Zmod.eqb v w.
Proof.
  apply eq_true_iff_eq. rewrite !Zmod.eqb_eq. split; [|intros ->; ring].
  intros H. transitivity (v + (- v + w))%Zmod; [rewrite H; ring | ring].
Qed.

(** Fermat: the exponent of the inversion chain. *)
Lemma Fp_pow_inv (v : Fp) : Zmod.pow v (p - 2) = Zmod.inv v.
Proof.
  destruct (Zmod.eqb_spec v Zmod.zero) as [->|Hv].
  - rewrite Zmod.inv_0. apply Zmod.pow_0_l. discriminate.
  - apply Zmod.fermat_inv; [exact Hv | exact p_prime].
Qed.

Lemma prefix_product_nonzero v i : (forall j, (j <= i)%nat -> v j <> Zmod.zero) ->
  prefix_product v i <> Zmod.zero.
Proof.
  induction i as [|i IH]; intros H; cbn [prefix_product]; [apply H; lia|].
  intros E. apply Fp_mul_zero in E as [E|E]; [|apply (H (S i)); [lia|exact E]].
  apply IH; [|exact E]. intros j Hj. apply H. lia.
Qed.

Lemma inv_cancel_l (x y : Fp) : x <> Zmod.zero -> y <> Zmod.zero -> (x * Zmod.inv (x * y))%Zmod = Zmod.inv y.
Proof. intros Hx Hy. field. auto. Qed.

Lemma inv_cancel_r (x y : Fp) : x <> Zmod.zero -> y <> Zmod.zero -> (Zmod.inv (x * y) * y)%Zmod = Zmod.inv x.
Proof. intros Hx Hy. field. auto. Qed.

(** Euler's criterion, at the exponent of the square root chain. *)
Lemma Fp_euler (v : Fp) : let w := Zmod.pow v ((p + 1) / 4) in
  (is_square v <-> (w * w)%Zmod = v) /\ ((w * w)%Zmod = v \/ (w * w)%Zmod = (- v)%Zmod).
Proof.
  cbv zeta. rewrite Fp_pow_sqr by (vm_compute; discriminate).
  set (h := (p - 1) / 2).
  assert (Zmod.pow v (2 * ((p + 1) / 4)) = (v * Zmod.pow v h)%Zmod) as E.
  { rewrite <- (Zmod.pow_1_r v) at 2. rewrite Fp_pow_mul by (vm_compute; discriminate). reflexivity. }
  rewrite E. destruct (Zmod.eqb_spec v Zmod.zero) as [->|Hv].
  { split; [split|left; ring]; [intros _; ring | intros _; exists Zmod.zero; ring]. }
  assert (Zmod.pow v h = Zmod.one \/ Zmod.pow v h = (- Zmod.one)%Zmod) as Hh.
  { assert (Zmod.pow v h * Zmod.pow v h = Zmod.one)%Zmod as H2.
    { rewrite Fp_pow_sqr by (vm_compute; discriminate). exact (Zmod.fermat_nz v Hv p_prime). }
    destruct (Fp_mul_zero (Zmod.pow v h - Zmod.one)%Zmod (Zmod.pow v h + Zmod.one)%Zmod) as [H|H].
    - transitivity (Zmod.pow v h * Zmod.pow v h - Zmod.one)%Zmod; [ring | rewrite H2; ring].
    - left. transitivity ((Zmod.pow v h - Zmod.one) + Zmod.one)%Zmod; [ring | rewrite H; ring].
    - right. transitivity ((Zmod.pow v h + Zmod.one) - Zmod.one)%Zmod; [ring | rewrite H; ring]. }
  split; [|destruct Hh as [-> | ->]; [left|right]; ring].
  split; [|intros H; exists (Zmod.pow v ((p + 1) / 4)); rewrite Fp_pow_sqr, E by (vm_compute; discriminate); exact H].
  intros [s <-]. assert (s <> Zmod.zero) as Hs by (intros ->; apply Hv; ring).
  rewrite <- Zmod.pow_2_r at 2. rewrite <- Zmod.pow_mul_r_nonneg by (vm_compute; discriminate).
  change (2 * h) with (Z.pred p). rewrite (Zmod.fermat_nz s Hs p_prime). ring.
Qed.

(** ** Addition chains *)

Section Chains.
Context {F : FieldOps} {L : FieldLaws F}.

Lemma chain_sqr a m (v : Fp) e : fe_ok a m (Zmod.pow v e) -> m <= 8 -> 0 <= e ->
  Returns (secp256k1_fe_sqr a) (fun r => fe_ok r 1 (Zmod.pow v (2 * e))).
Proof. intros Ha Hm He. rewrite <- Fp_pow_sqr by exact He. eapply fe_sqr_ok; eassumption. Qed.

Lemma chain_mul a b m k (v : Fp) e f : fe_ok a m (Zmod.pow v e) -> fe_ok b k (Zmod.pow v f) ->
  m <= 8 -> k <= 8 -> 0 <= e -> 0 <= f ->
  Returns (secp256k1_fe_mul a b) (fun r => fe_ok r 1 (Zmod.pow v (e + f))).
Proof. intros Ha Hb Hm Hk He Hf. rewrite <- Fp_pow_mul by assumption. eapply fe_mul_ok; eassumption. Qed.

Lemma chain_sqr_n n a (v : Fp) e : fe_ok a 1 (Zmod.pow v e) -> 0 <= e ->
  Returns (fe_sqr_n n a) (fun r => fe_ok r 1 (Zmod.pow v (2 ^ Z.of_nat n * e))).
Proof.
  intros Ha He. apply (Returns_repeat n secp256k1_fe_sqr a (fun i r => fe_ok r 1 (Zmod.pow v (2 ^ Z.of_nat i * e)))).
  - rewrite Z.mul_1_l. exact Ha.
  - intros i y _ Hy. eapply Returns_mono; [eapply chain_sqr; [exact Hy|lia|]|].
    + pose proof (Z.pow_pos_nonneg 2 (Z.of_nat i)). nia.
    + intros r Hr. rewrite Nat2Z.inj_succ, Z.pow_succ_r by lia. rewrite <- Z.mul_assoc. exact Hr.
Qed.

End Chains.

(** One step of an addition chain: the new exponent is evaluated. *)
Ltac eval_exponent H :=
  lazymatch type of H with
  | fe_ok ?a ?m (Zmod.pow ?v ?e) =>
      let e' := eval vm_compute in e in change (fe_ok a m (Zmod.pow v e')) in H
  end.

Ltac eval_exponents :=
  match goal with |- context [Zmod.pow ?v ?e] =>
    let e' := eval vm_compute in e in change (Zmod.pow v e) with (Zmod.pow v e') end.

Ltac chain_step :=
  cbv beta;
  lazymatch goal with
  | |- Returns (bind (secp256k1_fe_sqr _) _) _ =>
      eapply Returns_bind; [eapply chain_sqr; [eassumption | lia | vm_compute; discriminate]|]
  | |- Returns (bind (secp256k1_fe_mul _ _) _) _ =>
      eapply Returns_bind;
        [eapply chain_mul; [eassumption | eassumption | lia | lia | vm_compute; discriminate | vm_compute; discriminate]|]
  | |- Returns (bind (fe_sqr_n _ _) _) _ =>
      eapply Returns_bind; [eapply chain_sqr_n; [eassumption | vm_compute; discriminate]|]
  end;
  let r := fresh "r" in let H := fresh "H" in intros r H; cbv beta in H; eval_exponent H.

Section Specs.
Context {F : FieldOps} {L : FieldLaws F}.

Lemma fe_equal_ok a b m v w : fe_ok a 1 v -> fe_ok b m w -> m <= 29 ->
  Returns (secp256k1_fe_equal a b) (fun e => e = Zmod.eqb v w).
Proof.
  intros Ha Hb Hm. unfold secp256k1_fe_equal.
  eapply Returns_bind; [eapply fe_negate_ok; [exact Ha|lia]|]. intros na Hna.
  eapply Returns_bind; [eapply fe_add_ok; [exact Hna|exact Hb|lia]|]. intros s Hs.
  eapply Returns_mono; [eapply fe_normalizes_to_zero_ok; [exact Hs|lia]|]. intros e ->. apply eqb_sub.
Qed.

Lemma fe_equal_var_ok a b m v w : fe_ok a 1 v -> fe_ok b m w -> m <= 29 ->
  Returns (secp256k1_fe_equal_var a b) (fun e => e = Zmod.eqb v w).
Proof.
  intros Ha Hb Hm. unfold secp256k1_fe_equal_var.
  eapply Returns_bind; [eapply fe_negate_ok; [exact Ha|lia]|]. intros na Hna.
  eapply Returns_bind; [eapply fe_add_ok; [exact Hna|exact Hb|lia]|]. intros s Hs.
  eapply Returns_mono; [eapply fe_normalizes_to_zero_var_ok; [exact Hs|lia]|]. intros e ->. apply eqb_sub.
Qed.

Lemma fe_inv_ok a v : fe_ok a 8 v -> Returns (secp256k1_fe_inv a) (fun r => fe_ok r 1 (Zmod.inv v)).
Proof.
  intros Ha. rewrite <- (Zmod.pow_1_r v) in Ha. unfold secp256k1_fe_inv. do 29 chain_step.
  eapply Returns_mono; [eapply chain_mul; [exact Ha|eassumption|lia|lia|lia|vm_compute; discriminate]|].
  intros x Hx. rewrite <- Fp_pow_inv. exact Hx.
Qed.

Lemma fe_sqrt_pow a v : fe_ok a 8 v ->
  Returns (secp256k1_fe_sqrt a) (fun '(ok, r) =>
    fe_ok r 1 (fe_root v) /\ ok = Zmod.eqb (fe_root v * fe_root v)%Zmod v).
Proof.
  intros Ha. pose proof Ha as Ha'. rewrite <- (Zmod.pow_1_r v) in Ha. unfold secp256k1_fe_sqrt. do 28 chain_step.
  match goal with |- Returns (bind (secp256k1_fe_sqr ?r) _) _ => assert (fe_ok r 1 (fe_root v)) as Hr end.
  { unfold fe_root. eval_exponents. eassumption. }
  eapply Returns_bind; [eapply fe_sqr_ok; [exact Hr|lia]|]. intros t1 Ht.
  eapply Returns_bind; [eapply fe_equal_ok; [exact Ht|exact Ha'|lia]|]. intros ok ->.
  apply Returns_ret. split; [exact Hr|reflexivity].
Qed.

Lemma fe_sqrt_ok a v : fe_ok a 8 v ->
  Returns (secp256k1_fe_sqrt a) (fun '(ok, r) => exists w,
    fe_ok r 1 w /\ is_square w /\ (ok = true <-> is_square v) /\
    (w * w)%Zmod = if ok then v else (- v)%Zmod).
Proof.
  intros Ha. eapply Returns_mono; [exact (fe_sqrt_pow a v Ha)|]. intros [ok r] [Hr ->].
  exists (fe_root v). split; [exact Hr|].
  destruct (Fp_euler v) as [Hsq Hw]. cbv zeta in Hsq, Hw. fold (fe_root v) in Hsq, Hw.
  split; [|split; [rewrite Zmod.eqb_eq, Hsq; reflexivity|]].
  - exists (Zmod.pow v ((p + 1) / 8)). rewrite Fp_pow_sqr by (vm_compute; discriminate). reflexivity.
  - destruct (Zmod.eqb_spec (fe_root v * fe_root v)%Zmod v) as [E|E]; [exact E|].
    destruct Hw as [Hw|Hw]; [contradiction | exact Hw].
Qed.

Lemma fe_is_quad_var_ok a v : fe_ok a 8 v ->
  Returns (secp256k1_fe_is_quad_var a) (fun b => b = true <-> is_square v).
Proof.
  intros Ha. unfold secp256k1_fe_is_quad_var. eapply Returns_bind; [exact (fe_sqrt_ok a v Ha)|].
  intros [ok r] (w & _ & _ & H & _). apply Returns_ret. exact H.
Qed.

Section BatchInverse.
Context (len : nat) (a : list secp256k1_fe) (v : nat -> Fp).
Hypothesis a_ok : forall i, (i < len)%nat -> fe_ok (nth i a secp256k1_fe_clear) 8 (v i).
Hypothesis v_nonzero : forall i, (i < len)%nat -> v i <> Zmod.zero.

Lemma inv_all_forward_ok k i r : (0 < i)%nat -> (i + k = len)%nat -> (len <= length r)%nat ->
  (forall j, (j < i)%nat -> fe_ok (nth j r secp256k1_fe_clear) 8 (prefix_product v j)) ->
  Returns (inv_all_forward k i r a) (fun r' => length r' = length r /\
    forall j, (j < len)%nat -> fe_ok (nth j r' secp256k1_fe_clear) 8 (prefix_product v j)).
Proof.
  revert i r; induction k as [|k IH]; intros i r Hi Hk Hlen Hr; cbn [inv_all_forward].
  { apply Returns_ret. split; [reflexivity|]. intros j Hj. apply Hr. lia. }
  eapply Returns_bind; [eapply fe_mul_ok; [apply Hr; lia | apply a_ok; lia | lia | lia]|].
  intros x Hx. eapply Returns_mono; [apply IH; [lia | lia | rewrite length_upd; lia|]|].
  - intros j Hj. rewrite nth_upd by lia. destruct (Nat.eqb_spec j i) as [->|]; [|apply Hr; lia].
    destruct i as [|i]; [lia|]. replace (S i - 1)%nat with i in Hx by lia.
    eapply fe_ok_mono; [exact Hx | lia].
  - intros r' [Hl Hj]. rewrite length_upd in Hl. auto.
Qed.

Lemma inv_all_backward_ok i u r : (i < len)%nat -> (len <= length r)%nat ->
  fe_ok u 1 (Zmod.inv (prefix_product v i)) ->
  (forall j, (j <= i)%nat -> fe_ok (nth j r secp256k1_fe_clear) 8 (prefix_product v j)) ->
  (forall j, (i < j < len)%nat -> fe_ok (nth j r secp256k1_fe_clear) 1 (Zmod.inv (v j))) ->
  Returns (inv_all_backward i u r a) (fun r' => length r' = length r /\
    forall j, (j < len)%nat -> fe_ok (nth j r' secp256k1_fe_clear) 1 (Zmod.inv (v j))).
Proof.
  revert u r; induction i as [|i IH]; intros u r Hi Hlen Hu Hpre Hinv; cbn [inv_all_backward].
  { apply Returns_ret. rewrite length_upd. split; [reflexivity|]. intros j Hj. rewrite nth_upd by lia.
    destruct (Nat.eqb_spec j 0) as [->|]; [exact Hu | apply Hinv; lia]. }
  assert (forall j, (j < len)%nat -> prefix_product v j <> Zmod.zero) as Hnz.
  { intros j Hj. apply prefix_product_nonzero. intros t Ht. apply v_nonzero. lia. }
  eapply Returns_bind; [eapply fe_mul_ok; [apply (Hpre i); lia | exact Hu | lia | lia]|]. intros x Hx.
  eapply Returns_bind; [eapply fe_mul_ok; [exact Hu | apply (a_ok (S i)); lia | lia | lia]|]. intros u' Hu'.
  cbn [prefix_product] in Hx, Hu'. rewrite inv_cancel_l in Hx by auto with zarith.
  rewrite inv_cancel_r in Hu' by auto with zarith.
  eapply Returns_mono; [apply IH; [lia | rewrite length_upd; lia | exact Hu' | |]|].
  - intros j Hj. rewrite nth_upd by lia. destruct (Nat.eqb_spec j (S i)); [lia | apply Hpre; lia].
  - intros j Hj. rewrite nth_upd by lia. destruct (Nat.eqb_spec j (S i)) as [->|]; [exact Hx | apply Hinv; lia].
  - intros r' [Hl Hj]. rewrite length_upd in Hl. auto.
Qed.

End BatchInverse.

(** Every output is the inverse of its input. *)
Lemma fe_inv_all_var_ok len a v r :
  (forall i, (i < len)%nat -> fe_ok (nth i a secp256k1_fe_clear) 8 (v i)) ->
  (forall i, (i < len)%nat -> v i <> Zmod.zero) -> (len <= length r)%nat ->
  Returns (secp256k1_fe_inv_all_var r a len) (fun r' => length r' = length r /\
    forall j, (j < len)%nat -> fe_ok (nth j r' secp256k1_fe_clear) 1 (Zmod.inv (v j))).
Proof.
  intros a_ok v_nonzero Hlen. unfold secp256k1_fe_inv_all_var. destruct len as [|i].
  { apply Returns_ret. split; [reflexivity|]. lia. }
  eapply Returns_bind; [apply (inv_all_forward_ok (S i) a v a_ok); [lia | lia | rewrite length_upd; lia|]|].
  { intros j Hj. rewrite nth_upd by lia. replace j with 0%nat by lia. apply a_ok. lia. }
  intros r1 [Hl1 Hr1]. rewrite length_upd in Hl1.
  eapply Returns_bind; [apply fe_inv_ok, Hr1; lia|]. intros u Hu.
  eapply Returns_mono; [apply (inv_all_backward_ok (S i) a v a_ok v_nonzero); [lia | lia | exact Hu | intros j Hj; apply Hr1; lia | lia]|].
  intros r' [Hl Hj]. rewrite Hl1 in Hl. auto.
Qed.

End Specs.

(** ** Symbolic execution of field code

    [fe_step] runs one field operation: its magnitude condition is discharged and
    its result is named, with its magnitude and the residue it stands for. *)

Ltac fe_known :=
  first [ eassumption
        | eapply fe_norm_ok; eassumption
        | eapply fe_ok_mono; [first [eassumption | eapply fe_norm_ok; eassumption] | lia]
        | eapply fe_cmov_bool; fe_known ].

Ltac fe_law op :=
  lazymatch op with
  | secp256k1_fe_normalize _ => eapply fe_normalize_ok; [fe_known | lia]
  | secp256k1_fe_normalize_weak _ => eapply fe_normalize_weak_ok; [fe_known | lia]
  | secp256k1_fe_normalize_var _ => eapply fe_normalize_var_ok; [fe_known | lia]
  | secp256k1_fe_normalizes_to_zero _ => eapply fe_normalizes_to_zero_ok; [fe_known | lia]
  | secp256k1_fe_normalizes_to_zero_var _ => eapply fe_normalizes_to_zero_var_ok; [fe_known | lia]
  | secp256k1_fe_set_int _ => eapply fe_set_int_norm; vm_compute; split; congruence
  | secp256k1_fe_is_zero _ => eapply fe_is_zero_ok; eassumption
  | secp256k1_fe_is_odd _ => eapply fe_is_odd_ok; eassumption
  | secp256k1_fe_cmp_var _ _ => eapply fe_cmp_var_ok; eassumption
  | secp256k1_fe_get_b32 _ => eapply fe_get_b32_ok; eassumption
  | secp256k1_fe_negate _ _ => eapply fe_negate_ok; [fe_known | lia]
  | secp256k1_fe_mul_int _ _ => eapply fe_mul_int_ok; [fe_known | vm_compute; congruence | lia]
  | secp256k1_fe_add _ _ => eapply fe_add_ok; [fe_known | fe_known | lia]
  | secp256k1_fe_mul _ _ => eapply fe_mul_ok; [fe_known | fe_known | lia | lia]
  | secp256k1_fe_sqr _ => eapply fe_sqr_ok; [fe_known | lia]
  | secp256k1_fe_equal _ _ => eapply fe_equal_ok; [fe_known | fe_known | lia]
  | secp256k1_fe_equal_var _ _ => eapply fe_equal_var_ok; [fe_known | fe_known | lia]
  | secp256k1_fe_inv _ => eapply fe_inv_ok; fe_known
  | secp256k1_fe_inv_var _ => eapply fe_inv_ok; fe_known
  | secp256k1_fe_sqrt _ => eapply fe_sqrt_pow; fe_known
  | secp256k1_fe_is_quad_var _ => eapply fe_is_quad_var_ok; fe_known
  | secp256k1_fe_to_storage _ => eapply fe_to_storage_ok; eassumption
  end.

Ltac eval_magnitude H :=
  lazymatch type of H with
  | fe_ok ?a ?m ?v => let m' := eval vm_compute in m in change (fe_ok a m' v) in H
  | _ => idtac
  end.

Ltac fe_step :=
  cbv beta;
  lazymatch goal with
  | |- Returns (bind ?op _) _ =>
      eapply Returns_bind; [fe_law op|];
      let r := fresh "r" in let H := fresh "H" in intros r H; cbv beta in H; eval_magnitude H
  end.

Ltac fe_steps := repeat fe_step.

(** An element stands for the value the goal gives it. *)
Ltac fe_value := eapply fe_ok_eq; [fe_known | lia | ring].
