(* ===== verification/Curve.v ===== *)
(** * The curve: affine points and their addition

    The curve [y^2 = x^3 + 7] over the field, with the chord and tangent addition
    that the formulas of [group_impl.h] are to compute. *)

From Stdlib Require Import ZArith Lia List Bool.
From S2P Require Import Prelude Modulus.
Import ListNotations.

#[local] Open Scope Z_scope.

Inductive point : Type :=
| Infinity
| Affine (x y : Fp).

(** The curve [y^2 = x^3 + b].  The code computes on the curve with [b = 7] and on
    curves isomorphic to it, where a common denominator of points is dropped. *)
Definition on_curve_at (b : Fp) (P : point) : Prop :=
  match P with
  | Infinity => True
  | Affine x y => (y * y = x * x * x + b)%Zmod
  end.

Abbreviation on_curve := (on_curve_at (toFp 7)).

(** A curve without points of order two. *)
Class Regular (b : Fp) : Prop := regular : forall x : Fp, (x * x * x)%Zmod <> (- b)%Zmod.

Definition popp (P : point) : point :=
  match P with
  | Infinity => Infinity
  | Affine x y => Affine x (- y)%Zmod
  end.

(** The third point of the line through [(x1, y1)] with slope [l] that meets the
    curve at [x2], mirrored. *)
Definition line_point (l x1 y1 x2 : Fp) : point :=
  let x3 := (l * l - x1 - x2)%Zmod in
  Affine x3 (l * (x1 - x3) - y1)%Zmod.

Definition padd (P Q : point) : point :=
  match P, Q with
  | Infinity, _ => Q
  | _, Infinity => P
  | Affine x1 y1, Affine x2 y2 =>
      if Zmod.eqb x1 x2 then
        if Zmod.eqb y1 (- y2)%Zmod then Infinity
        else line_point (toFp 3 * x1 * x1 * Zmod.inv (toFp 2 * y1))%Zmod x1 y1 x2
      else line_point ((y2 - y1) * Zmod.inv (x2 - x1))%Zmod x1 y1 x2
  end.

(** The point with Jacobian coordinates [X], [Y], [Z]. *)
Definition jacobian (X Y Z : Fp) : point :=
  Affine (X * Zmod.inv (Z * Z))%Zmod (Y * Zmod.inv (Z * Z * Z))%Zmod.

(** The generator. *)
Definition gx : Fp := toFp 0x79BE667EF9DCBBAC55A06295CE870B07029BFCDB2DCE28D959F2815B16F81798.
Definition gy : Fp := toFp 0x483ADA7726A3C4655DA4FBFC0E1108A8FD17B448A68554199C47D08FFB10D4B8.
Definition G : point := Affine gx gy.

(** A line through [(x1, y1)] of slope [l] meets the curve at [x2] when this is
    zero. *)
Definition line_meets (l x1 y1 x2 : Fp) : Fp :=
  (x2 * x2 + x1 * x2 + x1 * x1 - l * l * (x2 - x1) - toFp 2 * l * y1)%Zmod.

(** Powers modulo the prime, reduced by folding the bits above bit 256. *)
Definition fold_p (x : Z) : Z := Z.land x (Z.ones 256) + Z.shiftr x 256 * 0x1000003D1.

Fixpoint pow_fold (b : Z) (e : positive) : Z :=
  match e with
  | xH => b
  | xO e' => fold_p (fold_p (Z.square (pow_fold b e')))
  | xI e' => fold_p (fold_p (Z.square (pow_fold b e') * b))
  end.

Lemma fold_p_mod x : fold_p x mod p = x mod p.
Proof.
  unfold fold_p. rewrite Z.land_ones, Z.shiftr_div_pow2 by lia.
  rewrite (Z.div_mod x (2 ^ 256)) at 3 by lia.
  replace (2 ^ 256 * (x / 2 ^ 256) + x mod 2 ^ 256)
    with (x mod 2 ^ 256 + x / 2 ^ 256 * 0x1000003D1 + x / 2 ^ 256 * p) by (rewrite p_literal; ring).
  rewrite Z.mod_add by discriminate. reflexivity.
Qed.

Lemma pow_fold_spec b e : pow_fold b e mod p = b ^ Zpos e mod p.
Proof.
  assert (forall x y, x mod p = y mod p -> Z.square x mod p = (y * y) mod p) as Hsq
    by (intros x y H; rewrite Z.square_spec, Z.mul_mod, H, <- Z.mul_mod by discriminate; reflexivity).
  induction e as [e IH|e IH|]; cbn [pow_fold].
  - rewrite !fold_p_mod, Z.mul_mod, (Hsq _ _ IH), <- Z.mul_mod by discriminate. f_equal.
    replace (Zpos e~1) with (Zpos e + Zpos e + 1) by lia. rewrite !Z.pow_add_r, Z.pow_1_r by lia. reflexivity.
  - rewrite !fold_p_mod, (Hsq _ _ IH). f_equal.
    replace (Zpos e~0) with (Zpos e + Zpos e) by lia. rewrite Z.pow_add_r by lia. reflexivity.
  - rewrite Z.pow_1_r. reflexivity.
Qed.

Lemma seven_power : (pow_fold 7 (Z.to_pos ((p - 1) / 3)) mod p =? 1) = false.
Proof. vm_cast_no_check (eq_refl false). Qed.

Lemma pow_fold_not_one b e : (pow_fold b e mod p =? 1) = false -> toFp (b ^ Zpos e) <> Zmod.one.
Proof.
  intros E H. change Zmod.one with (toFp 1) in H. apply toFp_eq in H.
  rewrite pow_fold_spec, H in E. discriminate.
Qed.

#[local] Open Scope Zmod_scope.

(** [-7] is not a cube, so no point of the curve has [y = 0]. *)
Lemma no_cube_root (x : Fp) : x * x * x <> - toFp 7.
Proof.
  intros H. assert (x <> Zmod.zero) as Hx.
  { intros ->. apply (toFp_nonzero 7); [reflexivity|]. transitivity (- - toFp 7); [ring|]. rewrite <- H. ring. }
  assert (Zmod.pow (x * x * x) ((p - 1) / 3) = Zmod.one) as H3.
  { replace (x * x * x) with (Zmod.pow x 3).
    - rewrite <- Zmod.pow_mul_r_nonneg by (vm_compute; discriminate).
      change (3 * ((p - 1) / 3))%Z with (Z.pred p). exact (Zmod.fermat_nz x Hx p_prime).
    - change 3%Z with (Z.succ 2). rewrite Zmod.pow_succ_nonneg_r, Zmod.pow_2_r by lia. ring. }
  rewrite H in H3. apply (pow_fold_not_one 7 (Z.to_pos ((p - 1) / 3))); [exact seven_power|].
  rewrite Z2Pos.id, toFp_pow, <- H3 by first [reflexivity | discriminate].
  change ((p - 1) / 3)%Z with (2 * ((p - 1) / 6))%Z. rewrite !Zmod.pow_mul_r_nonneg by (vm_compute; discriminate).
  rewrite Zmod.pow_opp_2. reflexivity.
Qed.

#[export] Instance regular_7 : Regular (toFp 7) := no_cube_root.

Section Regular.
Context {b : Fp} {Hb : Regular b}.

Lemma on_curve_y_nonzero x y : on_curve_at b (Affine x y) -> y <> Zmod.zero.
Proof.
  cbn [on_curve_at]. intros H ->. apply (regular x).
  transitivity (x * x * x + b - b); [ring|]. rewrite <- H. ring.
Qed.

(** ** Coordinates *)

Lemma Affine_eq x y x' y' : x = x' -> y = y' -> Affine x y = Affine x' y'.
Proof. intros -> ->. reflexivity. Qed.

Lemma Fp_double_zero (y : Fp) : y = - y -> y = Zmod.zero.
Proof.
  intros H. assert (toFp 2 * y = Zmod.zero) as H2.
  { transitivity (y + y); [ring|]. rewrite H at 1. ring. }
  apply Fp_mul_zero in H2 as [H2|H2]; [|exact H2].
  exfalso. apply (toFp_nonzero 2); [reflexivity | exact H2].
Qed.

Lemma padd_self x y : y <> Zmod.zero ->
  padd (Affine x y) (Affine x y) = line_point (toFp 3 * x * x * Zmod.inv (toFp 2 * y)) x y x.
Proof.
  intros Hy. unfold padd. rewrite Zmod.eqb_refl.
  destruct (Zmod.eqb_spec y (- y)) as [E|]; [|reflexivity]. apply Fp_double_zero in E. contradiction.
Qed.

(** Points of the curve with the same abscissa are equal or opposite. *)
Lemma same_x x y1 y2 : on_curve_at b (Affine x y1) -> on_curve_at b (Affine x y2) -> y1 = y2 \/ y1 = - y2.
Proof.
  cbn [on_curve_at]. intros H1 H2. destruct (Fp_mul_zero (y1 - y2) (y1 + y2)) as [E|E].
  - transitivity (y1 * y1 - y2 * y2); [ring|]. rewrite H1, H2. ring.
  - left. transitivity (y1 - y2 + y2); [ring|]. rewrite E. ring.
  - right. transitivity (y1 + y2 - y2); [ring|]. rewrite E. ring.
Qed.

Lemma Fp_inv_nonzero (x : Fp) : x <> Zmod.zero -> Zmod.inv x <> Zmod.zero.
Proof. intros H. apply Zmod.inv_nz_prime; [exact p_prime | exact H]. Qed.

(** Doubling: [secp256k1_gej_double_var]. *)
Lemma double_formula X Y Z : Y <> Zmod.zero -> Z <> Zmod.zero ->
  padd (jacobian X Y Z) (jacobian X Y Z) =
  jacobian (toFp 9 * X * X * X * X - toFp 8 * X * Y * Y)
           (toFp 36 * X * X * X * Y * Y - toFp 27 * X * X * X * X * X * X - toFp 8 * Y * Y * Y * Y)
           (toFp 2 * Y * Z).
Proof.
  intros HY HZ. assert (toFp 2 <> Zmod.zero) as H2 by (apply toFp_nonzero; reflexivity).
  unfold jacobian at 1 2. rewrite padd_self.
  - unfold line_point, jacobian. apply Affine_eq; field; auto.
  - apply Fp_mul_nonzero; [exact HY|]. apply Fp_inv_nonzero. auto using Fp_mul_nonzero.
Qed.

(** The two tests of the addition code. *)
Lemma same_x_test (X1 Z1 X2 Z2 : Fp) : Z1 <> Zmod.zero -> Z2 <> Zmod.zero ->
  Zmod.eqb (X1 * Zmod.inv (Z1 * Z1)) (X2 * Zmod.inv (Z2 * Z2)) =
  Zmod.eqb (X2 * (Z1 * Z1) - X1 * (Z2 * Z2)) Zmod.zero.
Proof.
  intros H1 H2. apply eq_true_iff_eq. rewrite !Zmod.eqb_eq. split; intros E.
  - transitivity ((X2 * Zmod.inv (Z2 * Z2) - X1 * Zmod.inv (Z1 * Z1)) * (Z1 * Z1 * (Z2 * Z2))); [field; auto|].
    rewrite E. ring.
  - transitivity (X2 * Zmod.inv (Z2 * Z2) - (X2 * (Z1 * Z1) - X1 * (Z2 * Z2)) * Zmod.inv (Z1 * Z1 * (Z2 * Z2)));
      [field; auto|]. rewrite E. ring.
Qed.

Lemma same_y_test (Y1 Z1 Y2 Z2 : Fp) : Z1 <> Zmod.zero -> Z2 <> Zmod.zero ->
  Zmod.eqb (Y1 * Zmod.inv (Z1 * Z1 * Z1)) (Y2 * Zmod.inv (Z2 * Z2 * Z2)) =
  Zmod.eqb (Y2 * (Z1 * Z1 * Z1) - Y1 * (Z2 * Z2 * Z2)) Zmod.zero.
Proof.
  intros H1 H2. apply eq_true_iff_eq. rewrite !Zmod.eqb_eq. split; intros E.
  - transitivity ((Y2 * Zmod.inv (Z2 * Z2 * Z2) - Y1 * Zmod.inv (Z1 * Z1 * Z1)) * (Z1 * Z1 * Z1 * (Z2 * Z2 * Z2))); [field; auto|].
    rewrite E. ring.
  - transitivity (Y2 * Zmod.inv (Z2 * Z2 * Z2)
      - (Y2 * (Z1 * Z1 * Z1) - Y1 * (Z2 * Z2 * Z2)) * Zmod.inv (Z1 * Z1 * Z1 * (Z2 * Z2 * Z2)));
      [field; auto|]. rewrite E. ring.
Qed.

(** Addition of points with different abscissas: [secp256k1_gej_add_var]. *)
Lemma chord_formula (X1 Y1 Z1 X2 Y2 Z2 u1 u2 s1 s2 h i X3 : Fp) :
  Z1 <> Zmod.zero -> Z2 <> Zmod.zero ->
  u1 = X1 * (Z2 * Z2) -> u2 = X2 * (Z1 * Z1) -> s1 = Y1 * (Z2 * Z2 * Z2) -> s2 = Y2 * (Z1 * Z1 * Z1) ->
  h = u2 - u1 -> i = s2 - s1 -> h <> Zmod.zero ->
  X3 = i * i - h * h * h - toFp 2 * u1 * h * h ->
  padd (jacobian X1 Y1 Z1) (jacobian X2 Y2 Z2) =
  jacobian X3 (i * (u1 * h * h - X3) - h * h * h * s1) (Z1 * Z2 * h).
Proof.
  intros H1 H2 -> -> -> -> Eh Ei Hh ->. unfold jacobian at 1 2, padd.
  rewrite same_x_test by assumption. rewrite Eh in Hh.
  destruct (Zmod.eqb_spec (X2 * (Z1 * Z1) - X1 * (Z2 * Z2)) Zmod.zero) as [E|_]; [contradiction|].
  rewrite Eh, Ei. clear Eh Ei. unfold line_point, jacobian.
  apply Affine_eq; field; auto.
Qed.

(** ** The unified formula: [secp256k1_gej_add_ge] *)

(** Both expressions of the slope of the line through two points. *)
Lemma unified_slope x1 y1 x2 y2 : on_curve_at b (Affine x1 y1) -> on_curve_at b (Affine x2 y2) -> y1 + y2 <> Zmod.zero ->
  let l := (x1 * x1 + x1 * x2 + x2 * x2) * Zmod.inv (y1 + y2) in
  padd (Affine x1 y1) (Affine x2 y2) = line_point l x1 y1 x2 /\ l * (x1 - x2) = y1 - y2.
Proof.
  intros H1 H2 Hy l.
  assert (l * (x1 - x2) = y1 - y2) as Hl.
  { unfold l. cbn [on_curve_at] in H1, H2.
    transitivity ((x1 * x1 * x1 + b - (x2 * x2 * x2 + b)) * Zmod.inv (y1 + y2)); [ring|].
    rewrite <- H1, <- H2. field. exact Hy. }
  split; [|exact Hl]. unfold padd. destruct (Zmod.eqb_spec x1 x2) as [->|Hx].
  - destruct (same_x x2 y1 y2 H1 H2) as [->| ->].
    + destruct (Zmod.eqb_spec y2 (- y2)) as [E|_].
      { exfalso. apply Hy. rewrite E at 1. ring. }
      f_equal. unfold l. field. pose proof (on_curve_y_nonzero _ _ H2).
      assert (toFp 2 <> Zmod.zero) by (apply toFp_nonzero; reflexivity). auto.
    + exfalso. apply Hy. ring.
  - f_equal. transitivity ((y1 - y2) * Zmod.inv (x1 - x2)).
    + field. split; intros E; apply Hx; [transitivity (x1 - x2 + x2)|transitivity (x2 - (x2 - x1))];
        try ring; rewrite E; ring.
    + rewrite <- Hl. field. intros E. apply Hx. transitivity (x1 - x2 + x2); [ring | rewrite E; ring].
Qed.

Lemma line_point_symmetric l x1 y1 x2 y2 : l * (x1 - x2) = y1 - y2 ->
  let x3 := l * l - x1 - x2 in
  line_point l x1 y1 x2 = Affine x3 ((l * (x1 + x2 - toFp 2 * x3) - (y1 + y2)) * Zmod.inv (toFp 2)).
Proof.
  intros H x3. unfold line_point. fold x3. f_equal.
  replace y2 with (y1 - l * (x1 - x2)) by (rewrite H; ring). field. apply toFp_nonzero. reflexivity.
Qed.

(** [R / (M * Z)] is the slope, [n] stands for [M^4], or [0] when [y1 + y2 = 0]. *)
Lemma unified_formula x1 y1 x2 y2 Z M R Q n : Z <> Zmod.zero -> M <> Zmod.zero ->
  R * Zmod.inv (M * Z) * (x1 - x2) = y1 - y2 ->
  Q = (x1 + x2) * (Z * Z) * (M * M) -> n = M * M * M * ((y1 + y2) * (Z * Z * Z)) ->
  line_point (R * Zmod.inv (M * Z)) x1 y1 x2 =
  jacobian (toFp 4 * (R * R - Q)) (toFp 4 * (R * (toFp 3 * Q - toFp 2 * R * R) - n)) (toFp 2 * M * Z).
Proof.
  intros HZ HM Hl -> ->. rewrite (line_point_symmetric _ _ _ _ _ Hl).
  assert (toFp 2 <> Zmod.zero) as H2 by (apply toFp_nonzero; reflexivity).
  unfold jacobian. apply Affine_eq; field; auto.
Qed.

(** ** The unified addition, with its degenerate case *)

Lemma Fp_sub_zero (x y : Fp) : x - y = Zmod.zero -> x = y.
Proof. intros H. transitivity (x - y + y); [ring|]. rewrite H. ring. Qed.

(** The sum by a line of known slope, when the abscissas differ or the ordinates
    are not opposite. *)
Lemma chord_slope x1 y1 x2 y2 l : x1 <> x2 -> l * (x1 - x2) = y1 - y2 ->
  padd (Affine x1 y1) (Affine x2 y2) = line_point l x1 y1 x2.
Proof.
  intros Hx Hl. unfold padd. destruct (Zmod.eqb_spec x1 x2); [contradiction|]. f_equal.
  assert (x1 - x2 <> Zmod.zero) as Hd by (intros E; apply Hx, Fp_sub_zero, E).
  assert (x2 - x1 <> Zmod.zero) as Hd' by (intros E; apply Hx; symmetry; apply Fp_sub_zero, E).
  transitivity ((y1 - y2) * Zmod.inv (x1 - x2)); [field; auto | rewrite <- Hl; field; exact Hd].
Qed.

(** Points with opposite ordinates whose unified slope has a nonzero numerator are
    opposite. *)
Lemma opposite_points x1 y1 x2 y2 : on_curve_at b (Affine x1 y1) -> on_curve_at b (Affine x2 y2) ->
  y1 + y2 = Zmod.zero -> x1 * x1 + x1 * x2 + x2 * x2 <> Zmod.zero -> x1 = x2.
Proof.
  cbn [on_curve_at]. intros H1 H2 Hy Hr. apply Fp_sub_zero.
  destruct (Fp_mul_zero (x1 - x2) (x1 * x1 + x1 * x2 + x2 * x2)) as [E|E]; [|exact E|contradiction].
  transitivity ((x1 * x1 * x1 + b) - (x2 * x2 * x2 + b)); [ring|]. rewrite <- H1, <- H2.
  transitivity ((y1 + y2) * (y1 - y2)); [ring|]. rewrite Hy. ring.
Qed.

Lemma Fp_add_zero (x y : Fp) : x + y = Zmod.zero -> x = - y.
Proof. intros H. transitivity (x + y - y); [ring|]. rewrite H. ring. Qed.

Section UnifiedAddition.
Context (x1 y1 x2 y2 Z : Fp) (HZ : Z <> Zmod.zero).
Context (H1 : on_curve_at b (Affine x1 y1)) (H2 : on_curve_at b (Affine x2 y2)).
Let m := (y1 + y2) * (Z * Z * Z).
Let rr := (x1 * x1 + x1 * x2 + x2 * x2) * (Z * Z * Z * Z).

Lemma unified_m_zero : m = Zmod.zero <-> y1 + y2 = Zmod.zero.
Proof.
  unfold m. split; [|intros ->; ring]. intros E. apply Fp_mul_zero in E as [E|E]; [exact E|].
  exfalso. revert E. repeat apply Fp_mul_nonzero; exact HZ.
Qed.

Lemma unified_rr_zero : rr = Zmod.zero <-> x1 * x1 + x1 * x2 + x2 * x2 = Zmod.zero.
Proof.
  unfold rr. split; [|intros ->; ring]. intros E. apply Fp_mul_zero in E as [E|E]; [exact E|].
  exfalso. revert E. repeat apply Fp_mul_nonzero; exact HZ.
Qed.

(** The regular slope. *)
Lemma unified_regular : m <> Zmod.zero ->
  padd (Affine x1 y1) (Affine x2 y2) =
  jacobian (toFp 4 * (rr * rr - m * m * ((x1 + x2) * (Z * Z))))
           (toFp 4 * (rr * (toFp 3 * (m * m * ((x1 + x2) * (Z * Z))) - toFp 2 * rr * rr) - m * m * (m * m)))
           (toFp 2 * m * Z).
Proof.
  intros Hm. assert (y1 + y2 <> Zmod.zero) as Hy by (rewrite <- unified_m_zero; exact Hm).
  destruct (unified_slope x1 y1 x2 y2 H1 H2 Hy) as [-> Hl].
  replace ((x1 * x1 + x1 * x2 + x2 * x2) * Zmod.inv (y1 + y2)) with (rr * Zmod.inv (m * Z)) in *.
  - apply (unified_formula x1 y1 x2 y2 Z m rr _ _ HZ Hm Hl); [ring | unfold m; ring].
  - unfold rr, m. field. auto.
Qed.

(** The alternate slope, when both the numerator and the denominator vanish. *)
Lemma unified_degenerate M : m = Zmod.zero -> M = (x1 - x2) * (Z * Z) -> M <> Zmod.zero ->
  let R := toFp 2 * y1 * (Z * Z * Z) in
  padd (Affine x1 y1) (Affine x2 y2) =
  jacobian (toFp 4 * (R * R - M * M * ((x1 + x2) * (Z * Z))))
           (toFp 4 * (R * (toFp 3 * (M * M * ((x1 + x2) * (Z * Z))) - toFp 2 * R * R) - m))
           (toFp 2 * M * Z).
Proof.
  intros Hm EM HM R. apply unified_m_zero in Hm as Hy.
  assert (x1 - x2 <> Zmod.zero) as Hd by (intros E; apply HM; rewrite EM, E; ring).
  assert (y2 = - y1) as Hy2 by (apply Fp_add_zero; rewrite <- Hy; ring).
  assert (R * Zmod.inv (M * Z) * (x1 - x2) = y1 - y2) as Hl.
  { rewrite EM, Hy2. unfold R. field. auto. }
  rewrite (chord_slope x1 y1 x2 y2 (R * Zmod.inv (M * Z)));
    [|intros ->; apply Hd; ring | exact Hl].
  apply (unified_formula x1 y1 x2 y2 Z M R _ _ HZ HM Hl); [ring|]. rewrite Hm, Hy. ring.
Qed.

(** The sum is infinity exactly when the denominator in use vanishes. *)
Lemma unified_infinity (dg : bool) : dg = (Zmod.eqb m Zmod.zero && Zmod.eqb rr Zmod.zero)%bool ->
  (if dg then (x1 - x2) * (Z * Z) else m) = Zmod.zero -> padd (Affine x1 y1) (Affine x2 y2) = Infinity.
Proof.
  intros Edg E. assert (m = Zmod.zero /\ x1 = x2) as [Hm%unified_m_zero%Fp_add_zero ->].
  { destruct (Zmod.eqb_spec m Zmod.zero) as [Hm|]; [|subst dg; contradiction]. split; [exact Hm|].
    apply unified_m_zero in Hm as Hy. destruct (Zmod.eqb_spec rr Zmod.zero) as [|Hrr]; cbn [andb] in Edg; subst dg.
    - apply Fp_sub_zero. apply Fp_mul_zero in E as [E|E]; [exact E|]. exfalso. revert E. repeat apply Fp_mul_nonzero; exact HZ.
    - apply (opposite_points x1 y1 x2 y2 H1 H2 Hy). rewrite <- unified_rr_zero. exact Hrr. }
  unfold padd. rewrite Zmod.eqb_refl, Hm, Zmod.eqb_refl. reflexivity.
Qed.

End UnifiedAddition.

(** What [secp256k1_gej_add_ge] computes: [m] and [rr] are the denominator and the
    numerator of the unified slope, [M] and [R] the ones it uses. *)
Lemma unified_addition X1 Y1 Z x2 y2 m rr (dg : bool) M R N Q :
  Z <> Zmod.zero -> on_curve_at b (jacobian X1 Y1 Z) -> on_curve_at b (Affine x2 y2) ->
  m = Y1 + y2 * (Z * Z * Z) ->
  rr = (X1 + x2 * (Z * Z)) * (X1 + x2 * (Z * Z)) - X1 * (x2 * (Z * Z)) ->
  dg = (Zmod.eqb m Zmod.zero && Zmod.eqb rr Zmod.zero)%bool ->
  M = (if dg then X1 - x2 * (Z * Z) else m) -> R = (if dg then Y1 * toFp 2 else rr) ->
  N = (if dg then m else M * M * (M * M)) -> Q = M * M * (X1 + x2 * (Z * Z)) ->
  padd (jacobian X1 Y1 Z) (Affine x2 y2) =
  if Zmod.eqb (Z * M) Zmod.zero then Infinity else
  jacobian (toFp 4 * (R * R - Q)) (toFp 4 * (R * (toFp 3 * Q - toFp 2 * R * R) - N)) (toFp 2 * M * Z).
Proof.
  intros HZ H1 H2 Em Err Edg EM ER EN EQ. unfold jacobian in H1. unfold jacobian at 1.
  remember (X1 * Zmod.inv (Z * Z)) as x1 eqn:Ex. remember (Y1 * Zmod.inv (Z * Z * Z)) as y1 eqn:Ey.
  assert (X1 = x1 * (Z * Z)) as -> by (subst x1; field; exact HZ).
  assert (Y1 = y1 * (Z * Z * Z)) as -> by (subst y1; field; exact HZ). clear Ex Ey.
  assert (m = (y1 + y2) * (Z * Z * Z)) as -> by (subst m; ring). clear Em.
  assert (rr = (x1 * x1 + x1 * x2 + x2 * x2) * (Z * Z * Z * Z)) as -> by (subst rr; ring). clear Err.
  destruct (Zmod.eqb_spec (Z * M) Zmod.zero) as [E|E].
  - apply Fp_mul_zero in E as [E|E]; [contradiction|]. apply (unified_infinity _ _ _ _ Z HZ H1 H2 dg Edg).
    rewrite <- E, EM. destruct dg; ring.
  - assert (M <> Zmod.zero) as HM by (intros E'; apply E; rewrite E'; ring). destruct dg.
    + symmetry in Edg. apply andb_prop in Edg as [Em%Zmod.eqb_eq _].
      rewrite (unified_degenerate _ _ _ _ Z HZ H1 M Em) by (subst M; ring || exact HM).
      replace (x1 * (Z * Z) + x2 * (Z * Z)) with ((x1 + x2) * (Z * Z)) in EQ by ring.
      replace (y1 * (Z * Z * Z) * toFp 2) with (toFp 2 * y1 * (Z * Z * Z)) in ER by ring.
      subst R N Q. reflexivity.
    + rewrite (unified_regular _ _ _ _ Z HZ H1 H2) by (subst M; exact HM).
      replace (x1 * (Z * Z) + x2 * (Z * Z)) with ((x1 + x2) * (Z * Z)) in EQ by ring.
      subst R N Q M. reflexivity.
Qed.

(** ** Addition stays on the curve *)

Lemma line_point_on_curve l x1 y1 x2 : on_curve_at b (Affine x1 y1) -> line_meets l x1 y1 x2 = Zmod.zero ->
  on_curve_at b (line_point l x1 y1 x2).
Proof.
  unfold line_point. cbn [on_curve_at]. intros H1 Hm. set (x3 := l * l - x1 - x2).
  transitivity (x3 * x3 * x3 + (y1 * y1 - x1 * x1 * x1) - (x3 - x1) * line_meets l x1 y1 x2).
  - unfold line_meets, x3. ring.
  - rewrite Hm, H1. ring.
Qed.

Lemma padd_on_curve P Q : on_curve_at b P -> on_curve_at b Q -> on_curve_at b (padd P Q).
Proof.
  destruct P as [|x1 y1], Q as [|x2 y2]; intros H1 H2; cbn [padd]; try assumption; try exact I.
  destruct (Zmod.eqb_spec x1 x2) as [->|Hx].
  - destruct (Zmod.eqb_spec y1 (- y2)) as [|Hy]; [exact I|]. apply line_point_on_curve; [exact H1|].
    unfold line_meets. field. pose proof (on_curve_y_nonzero _ _ H1).
    assert (toFp 2 <> Zmod.zero) by (apply toFp_nonzero; reflexivity). auto.
  - apply line_point_on_curve; [exact H1|]. assert (x2 - x1 <> Zmod.zero) as Hd.
    { intros E. apply Hx. transitivity (x2 - (x2 - x1)); [ring | rewrite E; ring]. }
    transitivity ((y1 * y1 - y2 * y2 + (x2 * x2 * x2 - x1 * x1 * x1)) * Zmod.inv (x2 - x1)).
    + unfold line_meets. field. exact Hd.
    + cbn [on_curve_at] in H1, H2. rewrite H1, H2. ring.
Qed.

Lemma popp_on_curve P : on_curve_at b P -> on_curve_at b (popp P).
Proof.
  destruct P as [|x y]; cbn [popp on_curve_at]; [auto|]. intros <-. ring.
Qed.

End Regular.

Lemma G_on_curve : on_curve G.
Proof. cbn [on_curve_at G]. unfold gx, gy. rewrite <- !toFp_mul, <- toFp_add. apply toFp_eq. vm_compute. reflexivity. Qed.
