(* ===== verification/CurveGroup.v ===== *)
(** * The group of the curve

    Addition is associative, every point has order [n], and the generator generates
    the curve.  Multiples of points.

    Associativity goes through the slopes of lines: the slope of the line through
    two points, the tangent included, is characterized by two equations, and the
    slopes for [(P + Q) + R] and [P + (Q + R)] come from those for [P + Q] and
    [Q + R] without a division by a difference of abscissas. *)

From Stdlib Require Import ZArith Lia List Bool.
From S2P Require Import Prelude Modulus Curve.
Import ListNotations.

#[local] Open Scope Zmod_scope.

(** ** Lines *)

(** [l] is the slope of the chord, or of the tangent. *)
Definition on_line (l x1 y1 x2 y2 : Fp) : Prop :=
  y2 - y1 = l * (x2 - x1) /\ l * (y1 + y2) = x1 * x1 + x1 * x2 + x2 * x2.

Definition opposite (x1 y1 x2 y2 : Fp) : Prop := x1 = x2 /\ y1 = - y2.

Lemma padd_closed P Q : on_curve P -> on_curve Q -> on_curve (padd P Q).
Proof. apply padd_on_curve. Qed.

Lemma popp_closed P : on_curve P -> on_curve (popp P).
Proof. apply popp_on_curve. Qed.

Lemma Fp_2_nonzero : toFp 2 <> Zmod.zero.
Proof. apply toFp_nonzero. reflexivity. Qed.

Lemma sub_nonzero (x y : Fp) : x <> y -> x - y <> Zmod.zero.
Proof. intros H E. apply H, Fp_sub_zero, E. Qed.

(** Linear combinations of equations. *)
Lemma lincomb1 (a b l r c : Fp) : l = r -> a - b = c * (l - r) -> a = b.
Proof. intros -> H. apply Fp_sub_zero. rewrite H. ring. Qed.

Lemma lincomb2 (a b l r c l' r' c' : Fp) : l = r -> l' = r' -> a - b = c * (l - r) + c' * (l' - r') -> a = b.
Proof. intros -> -> H. apply Fp_sub_zero. rewrite H. ring. Qed.

Lemma opposite_dec x1 y1 x2 y2 : opposite x1 y1 x2 y2 \/ ~ opposite x1 y1 x2 y2.
Proof.
  unfold opposite. destruct (Zmod.eqb_spec x1 x2), (Zmod.eqb_spec y1 (- y2)); tauto.
Qed.

Lemma padd_opposite x y : padd (Affine x y) (Affine x (- y)) = Infinity.
Proof.
  unfold padd. rewrite Zmod.eqb_refl. replace (- - y) with y by ring. rewrite Zmod.eqb_refl. reflexivity.
Qed.

Lemma not_opposite_sum x y1 y2 : on_curve (Affine x y1) -> on_curve (Affine x y2) -> ~ opposite x y1 x y2 -> y1 = y2 /\ y2 <> Zmod.zero.
Proof.
  intros H1 H2 Hn. destruct (same_x x y1 y2 H1 H2) as [E|E]; [|exfalso; apply Hn; split; auto].
  split; [exact E | exact (on_curve_y_nonzero x y2 H2)].
Qed.

Lemma line_exists x1 y1 x2 y2 : on_curve (Affine x1 y1) -> on_curve (Affine x2 y2) -> ~ opposite x1 y1 x2 y2 ->
  exists l, on_line l x1 y1 x2 y2.
Proof.
  intros H1 H2 Hn. pose proof Fp_2_nonzero. destruct (Zmod.eqb_spec x1 x2) as [->|Hx].
  - destruct (not_opposite_sum x2 y1 y2 H1 H2 Hn) as [-> Hy].
    exists (toFp 3 * x2 * x2 * Zmod.inv (toFp 2 * y2)). split; [ring | field; auto].
  - exists ((y2 - y1) * Zmod.inv (x2 - x1)). assert (x2 - x1 <> Zmod.zero) by (apply sub_nonzero; auto).
    split; [field; assumption|]. cbn [on_curve_at] in *.
    apply (lincomb2 _ _ _ _ (Zmod.inv (x2 - x1)) _ _ (- Zmod.inv (x2 - x1)) H2 H1). field. assumption.
Qed.

Lemma line_unique x1 y1 x2 y2 l m : on_curve (Affine x1 y1) -> on_curve (Affine x2 y2) -> ~ opposite x1 y1 x2 y2 ->
  on_line l x1 y1 x2 y2 -> on_line m x1 y1 x2 y2 -> l = m.
Proof.
  intros H1 H2 Hn [Hl Hl'] [Hm Hm']. pose proof Fp_2_nonzero. apply Fp_sub_zero. destruct (Zmod.eqb_spec x1 x2) as [->|Hx].
  - destruct (not_opposite_sum x2 y1 y2 H1 H2 Hn) as [-> Hy].
    destruct (Fp_mul_zero (toFp 2 * y2) (l - m)) as [E|E]; [|exfalso; revert E; apply Fp_mul_nonzero; assumption | exact E].
    transitivity (l * (y2 + y2) - m * (y2 + y2)); [ring|]. rewrite Hl', Hm'. ring.
  - destruct (Fp_mul_zero (x2 - x1) (l - m)) as [E|E]; [|exfalso; revert E; apply sub_nonzero; auto | exact E].
    transitivity (l * (x2 - x1) - m * (x2 - x1)); [ring|]. rewrite <- Hl, <- Hm. ring.
Qed.

Lemma padd_on_line x1 y1 x2 y2 l : on_curve (Affine x1 y1) -> on_curve (Affine x2 y2) -> ~ opposite x1 y1 x2 y2 ->
  on_line l x1 y1 x2 y2 -> padd (Affine x1 y1) (Affine x2 y2) = line_point l x1 y1 x2.
Proof.
  intros H1 H2 Hn [Hl Hl']. pose proof Fp_2_nonzero. destruct (Zmod.eqb_spec x1 x2) as [->|Hx].
  - destruct (not_opposite_sum x2 y1 y2 H1 H2 Hn) as [-> Hy]. rewrite padd_self by exact Hy. f_equal.
    transitivity (l * (y2 + y2) * Zmod.inv (toFp 2 * y2)); [rewrite Hl'; field; auto | field; auto].
  - apply chord_slope; [exact Hx|]. apply (lincomb1 _ _ _ _ (Zmod.one) Hl). ring.
Qed.

Lemma on_line_sym l x1 y1 x2 y2 : on_line l x1 y1 x2 y2 -> on_line l x2 y2 x1 y1.
Proof.
  intros [H1 H2]. split; [apply (lincomb1 _ _ _ _ (- Zmod.one) H1); ring | apply (lincomb1 _ _ _ _ Zmod.one H2); ring].
Qed.

Lemma opposite_sym x1 y1 x2 y2 : opposite x1 y1 x2 y2 -> opposite x2 y2 x1 y1.
Proof. intros [-> ->]. split; [reflexivity | ring]. Qed.

(** ** Commutativity and inverses *)

Lemma padd_infinity_r P : padd P Infinity = P.
Proof. destruct P; reflexivity. Qed.

Lemma padd_comm P Q : on_curve P -> on_curve Q -> padd P Q = padd Q P.
Proof.
  destruct P as [|x1 y1], Q as [|x2 y2]; intros HP HQ; try reflexivity.
  destruct (opposite_dec x1 y1 x2 y2) as [[-> ->]|Hn].
  - rewrite padd_opposite. replace (Affine x2 y2) with (Affine x2 (- - y2)) by (f_equal; ring). rewrite padd_opposite. reflexivity.
  - destruct (line_exists x1 y1 x2 y2 HP HQ Hn) as [l Hl].
    rewrite (padd_on_line _ _ _ _ l HP HQ Hn Hl).
    rewrite (padd_on_line x2 y2 x1 y1 l HQ HP ltac:(intros E; apply Hn, opposite_sym, E) (on_line_sym _ _ _ _ _ Hl)).
    destruct Hl as [Hl _]. unfold line_point. apply Affine_eq; [ring|]. apply (lincomb1 _ _ _ _ Zmod.one Hl). ring.
Qed.

Lemma popp_involutive P : popp (popp P) = P.
Proof. destruct P; [reflexivity|]. cbn [popp]. f_equal. ring. Qed.

Lemma padd_popp_r P : padd P (popp P) = Infinity.
Proof. destruct P; [reflexivity | apply padd_opposite]. Qed.

(** The sum of two points, added to the opposite of one, is the other. *)
Lemma padd_cancel P Q : on_curve P -> on_curve Q -> padd (popp P) (padd P Q) = Q.
Proof.
  destruct P as [|x1 y1], Q as [|x2 y2]; intros HP HQ; try reflexivity.
  - change (padd (popp (Affine x1 y1)) (Affine x1 y1) = Infinity). rewrite padd_comm; [apply (padd_popp_r (Affine x1 y1)) | apply (popp_on_curve (Affine x1 y1)); exact HP | exact HP].
  - destruct (opposite_dec x1 y1 x2 y2) as [[-> ->]|Hn].
    + replace (Affine x2 y2) with (Affine x2 (- - y2)) at 1 by (f_equal; ring). rewrite padd_opposite. cbn [padd popp]. f_equal. ring.
    + destruct (line_exists x1 y1 x2 y2 HP HQ Hn) as [l Hl]. pose proof (padd_on_line _ _ _ _ l HP HQ Hn Hl) as E.
      pose proof (padd_on_curve _ _ HP HQ) as H3. rewrite E in *. unfold line_point in *. cbn [popp].
      set (x3 := l * l - x1 - x2) in *. set (y3 := l * (x1 - x3) - y1) in *.
      assert (~ opposite x1 (- y1) x3 y3) as Hn'.
      { intros [Ex Ey]. apply (on_curve_y_nonzero x1 y1 HP). apply Fp_double_zero.
        assert (y3 = - y1) as Ey3 by (unfold y3; rewrite <- Ex; ring). rewrite Ey, Ey3. ring. }
      assert (on_line (- l) x1 (- y1) x3 y3) as Hl3.
      { destruct Hl as [Ha Hb]. unfold y3. split; [ring|]. unfold x3.
        apply (lincomb2 _ _ _ _ (- l) _ _ (Zmod.one) Ha Hb). ring. }
      rewrite (padd_on_line _ _ _ _ (- l) (popp_on_curve (Affine x1 y1) HP) H3 Hn' Hl3). unfold line_point.
      assert (- l * - l - x1 - x3 = x2) as -> by (unfold x3; ring).
      apply Affine_eq; [reflexivity|]. apply (lincomb1 _ _ _ _ (- Zmod.one) (proj1 Hl)). ring.
Qed.

(** ** Associativity *)

Lemma slopes_relation l m x1 y1 x2 y2 x3 y3 : on_line l x1 y1 x2 y2 -> on_line m x2 y2 x3 y3 ->
  toFp 2 * y2 * (l - m) = (x3 - x2) * (m * m - (x1 + x2 + x3)) - (x1 - x2) * (l * l - (x1 + x2 + x3)).
Proof.
  intros [H1 H1'] [H2 H2']. assert (y1 = y2 - l * (x2 - x1)) as -> by (rewrite <- H1; ring).
  assert (y3 = y2 + m * (x3 - x2)) as -> by (rewrite <- H2; ring). apply (lincomb2 _ _ _ _ Zmod.one _ _ (- Zmod.one) H1' H2'). ring.
Qed.

(** The slope of the line through [P1 + P2] and [P3]. *)
Lemma third_slope l m x1 y1 x2 y2 x3 y3 x4 : l <> m -> on_line l x1 y1 x2 y2 -> on_line m x2 y2 x3 y3 -> x4 = l * l - x1 - x2 ->
  on_line (- l - (x3 - x1) * Zmod.inv (l - m)) x4 (l * (x1 - x4) - y1) x3 y3.
Proof.
  intros Hlm H1 H2 ->. pose proof (slopes_relation _ _ _ _ _ _ _ _ H1 H2) as K. pose proof Fp_2_nonzero as N2. apply sub_nonzero in Hlm.
  destruct H1 as [H1 H1'], H2 as [H2 H2'].
  assert (y1 = y2 - l * (x2 - x1)) as E1 by (rewrite <- H1; ring). assert (y3 = y2 + m * (x3 - x2)) as E3 by (rewrite <- H2; ring).
  assert (y2 = ((x3 - x2) * (m * m - (x1 + x2 + x3)) - (x1 - x2) * (l * l - (x1 + x2 + x3))) * Zmod.inv (toFp 2 * (l - m))) as E2
    by (rewrite <- K; field; auto).
  clear H1 H2 H2' K. rewrite E1 in *. rewrite E3. rewrite E2 in *. split.
  - field. auto.
  - apply (lincomb1 _ _ _ _ Zmod.one H1'). field. auto.
Qed.

(** When the line of [P1] and [P2] meets [P3], it is the line of [P2] and [P3]. *)
Lemma collinear_slope l x1 y1 x2 y2 x3 y3 x4 : x4 = l * l - x1 - x2 -> on_line l x1 y1 x2 y2 ->
  opposite x4 (l * (x1 - x4) - y1) x3 y3 -> on_line l x2 y2 x3 y3.
Proof.
  intros -> [H1 H1'] [<- E]. assert (y3 = - (l * (x1 - (l * l - x1 - x2)) - y1)) as -> by (rewrite E; ring).
  assert (y1 = y2 - l * (x2 - x1)) as E1 by (rewrite <- H1; ring). rewrite E1 in *. clear H1 E E1. split.
  - ring.
  - apply (lincomb1 _ _ _ _ Zmod.one H1'). ring.
Qed.

(** The points of one line. *)
Lemma same_slope_cases l x1 y1 x2 y2 x3 y3 : on_line l x1 y1 x2 y2 -> on_line l x2 y2 x3 y3 ->
  (x1 = x3 /\ y1 = y3) \/ x1 + x2 + x3 = l * l.
Proof.
  intros H1 H2. pose proof (slopes_relation _ _ _ _ _ _ _ _ H1 H2) as K.
  destruct (Fp_mul_zero (x3 - x1) (l * l - (x1 + x2 + x3))) as [E|E].
  - apply (lincomb1 _ _ _ _ (- Zmod.one) K). ring.
  - left. apply Fp_sub_zero in E. subst x3. split; [reflexivity|]. destruct H1 as [H1 _], H2 as [H2 _].
    apply (lincomb2 _ _ _ _ (- Zmod.one) _ _ (- Zmod.one) H1 H2). ring.
  - right. symmetry. apply Fp_sub_zero, E.
Qed.

Section Associativity.
Context (x1 y1 x2 y2 x3 y3 l m : Fp).
Context (H1 : on_curve (Affine x1 y1)) (H2 : on_curve (Affine x2 y2)) (H3 : on_curve (Affine x3 y3)).
Context (N12 : ~ opposite x1 y1 x2 y2) (N23 : ~ opposite x2 y2 x3 y3).
Context (L12 : on_line l x1 y1 x2 y2) (L23 : on_line m x2 y2 x3 y3).

Lemma line_point_base x y x' y' k : on_line k x y x' y' -> line_point k x y x' = line_point k x' y' x.
Proof. intros [H _]. unfold line_point. apply Affine_eq; [ring|]. apply (lincomb1 _ _ _ _ Zmod.one H). ring. Qed.

(** The three points on one line. *)
Lemma assoc_collinear : l = m ->
  padd (padd (Affine x1 y1) (Affine x2 y2)) (Affine x3 y3) = padd (Affine x1 y1) (padd (Affine x2 y2) (Affine x3 y3)).
Proof.
  intros <-. destruct (same_slope_cases l x1 y1 x2 y2 x3 y3 L12 L23) as [[<- <-]|E].
  - rewrite (padd_comm _ (Affine x1 y1)), (padd_comm (Affine x1 y1) (Affine x2 y2)); auto using padd_closed.
  - rewrite (padd_on_line _ _ _ _ l H1 H2 N12 L12), (padd_on_line _ _ _ _ l H2 H3 N23 L23), (line_point_base _ _ _ _ _ L12).
    unfold line_point. destruct L12 as [A _], L23 as [B _].
    assert (Affine (l * l - x2 - x1) (l * (x2 - (l * l - x2 - x1)) - y2) = popp (Affine x3 y3)) as ->.
    { cbn [popp]. apply Affine_eq; rewrite <- E; [ring|]. apply (lincomb1 _ _ _ _ Zmod.one B). ring. }
    assert (Affine (l * l - x2 - x3) (l * (x2 - (l * l - x2 - x3)) - y2) = popp (Affine x1 y1)) as ->.
    { cbn [popp]. apply Affine_eq; rewrite <- E; [ring|]. apply (lincomb1 _ _ _ _ (- Zmod.one) A). ring. }
    rewrite padd_popp_r, padd_comm, padd_popp_r by auto using popp_closed. reflexivity.
Qed.

(** Two lines. *)
Lemma assoc_generic : l <> m ->
  padd (padd (Affine x1 y1) (Affine x2 y2)) (Affine x3 y3) = padd (Affine x1 y1) (padd (Affine x2 y2) (Affine x3 y3)).
Proof.
  intros Hlm. pose proof (padd_on_line _ _ _ _ l H1 H2 N12 L12) as E4. pose proof (padd_on_line _ _ _ _ m H2 H3 N23 L23) as E5.
  pose proof (padd_on_curve _ _ H1 H2) as C4. pose proof (padd_on_curve _ _ H2 H3) as C5.
  rewrite (line_point_base _ _ _ _ _ L23) in E5. rewrite E4, E5 in *. unfold line_point in C4, C5 |- * . clear E4 E5.
  pose proof (third_slope l m x1 y1 x2 y2 x3 y3 _ Hlm L12 L23 eq_refl) as L43.
  pose proof (third_slope m l x3 y3 x2 y2 x1 y1 _ (not_eq_sym Hlm) (on_line_sym _ _ _ _ _ L23) (on_line_sym _ _ _ _ _ L12) eq_refl) as L51.
  assert (~ opposite (l * l - x1 - x2) (l * (x1 - (l * l - x1 - x2)) - y1) x3 y3) as N43.
  { intros O. apply Hlm. apply (line_unique x2 y2 x3 y3 l m H2 H3 N23); [|exact L23]. exact (collinear_slope _ _ _ _ _ _ _ _ eq_refl L12 O). }
  assert (~ opposite (m * m - x3 - x2) (m * (x3 - (m * m - x3 - x2)) - y3) x1 y1) as N51.
  { intros O. apply Hlm. symmetry. apply (line_unique x1 y1 x2 y2 m l H1 H2 N12); [|exact L12].
    apply on_line_sym. exact (collinear_slope _ _ _ _ _ _ _ _ eq_refl (on_line_sym _ _ _ _ _ L23) O). }
  rewrite (padd_on_line _ _ _ _ _ C4 H3 N43 L43), padd_comm, (padd_on_line _ _ _ _ _ C5 H1 N51 L51) by assumption.
  rewrite (line_point_base _ _ _ _ _ L43), (line_point_base _ _ _ _ _ L51).
  apply sub_nonzero in Hlm as Hd. apply not_eq_sym, sub_nonzero in Hlm. unfold line_point. destruct L12 as [A _], L23 as [B _].
  assert (y1 = y2 - l * (x2 - x1)) as -> by (rewrite <- A; ring). assert (y3 = y2 + m * (x3 - x2)) as -> by (rewrite <- B; ring).
  apply Affine_eq; field; auto.
Qed.

End Associativity.

Theorem padd_assoc P Q R : on_curve P -> on_curve Q -> on_curve R -> padd (padd P Q) R = padd P (padd Q R).
Proof.
  destruct P as [|x1 y1], Q as [|x2 y2], R as [|x3 y3]; intros HP HQ HR; try reflexivity.
  - rewrite !padd_infinity_r. reflexivity.
  - destruct (opposite_dec x1 y1 x2 y2) as [[-> ->]|N12].
    { change (Affine x2 (- y2)) with (popp (Affine x2 y2)). rewrite padd_cancel by assumption.
      rewrite (padd_comm (popp _)), padd_popp_r by auto using popp_closed. reflexivity. }
    destruct (opposite_dec x2 y2 x3 y3) as [[-> ->]|N23].
    { change (Affine x3 (- y3)) with (popp (Affine x3 y3)) in *. rewrite (padd_comm (popp _)), padd_popp_r by assumption.
      rewrite padd_infinity_r, (padd_comm _ (popp _)), (padd_comm (padd _ _)) by auto using padd_closed.
      rewrite <- (popp_involutive (Affine x3 y3)) at 1. apply padd_cancel; assumption. }
    destruct (line_exists _ _ _ _ HP HQ N12) as [l L12], (line_exists _ _ _ _ HQ HR N23) as [m L23].
    destruct (Zmod.eqb_spec l m) as [E|E]; [apply (assoc_collinear _ _ _ _ _ _ l m) | apply (assoc_generic _ _ _ _ _ _ l m)]; assumption.
Qed.

(** ** Multiples *)

(** The multiple of a point by a positive number, by doubling and adding. *)
Fixpoint pmul_pos (k : positive) (P : point) : point :=
  match k with
  | xH => P
  | xO k' => let Q := pmul_pos k' P in padd Q Q
  | xI k' => let Q := pmul_pos k' P in padd P (padd Q Q)
  end.

Definition pmul (k : Z) (P : point) : point :=
  match k with
  | Z0 => Infinity
  | Zpos k' => pmul_pos k' P
  | Zneg k' => popp (pmul_pos k' P)
  end.

Create HintDb curve.
#[export] Hint Resolve padd_closed popp_closed G_on_curve : curve.
#[export] Hint Extern 1 (on_curve Infinity) => exact I : curve.

Lemma pmul_pos_on_curve k P : on_curve P -> on_curve (pmul_pos k P).
Proof. intros H. induction k; cbn [pmul_pos]; auto with curve. Qed.

Lemma pmul_on_curve k P : on_curve P -> on_curve (pmul k P).
Proof. intros H. destruct k; cbn [pmul]; auto using pmul_pos_on_curve with curve. Qed.

#[export] Hint Resolve pmul_on_curve pmul_pos_on_curve : curve.

Lemma padd_popp_l P : on_curve P -> padd (popp P) P = Infinity.
Proof. intros H. rewrite padd_comm, padd_popp_r by auto with curve. reflexivity. Qed.

Lemma padd_swap P Q R S : on_curve P -> on_curve Q -> on_curve R -> on_curve S ->
  padd (padd P Q) (padd R S) = padd (padd P R) (padd Q S).
Proof.
  intros. rewrite !padd_assoc, <- (padd_assoc Q R S), (padd_comm Q R), (padd_assoc R Q S) by auto with curve. reflexivity.
Qed.

Lemma padd_inj_l P Q R : on_curve P -> on_curve Q -> on_curve R -> padd P Q = padd P R -> Q = R.
Proof. intros HP HQ HR E. rewrite <- (padd_cancel P Q), <- (padd_cancel P R), E by assumption. reflexivity. Qed.

Lemma popp_unique P Q : on_curve P -> on_curve Q -> padd P Q = Infinity -> Q = popp P.
Proof. intros HP HQ E. apply (padd_inj_l P); auto with curve. rewrite padd_popp_r. exact E. Qed.

Lemma popp_padd P Q : on_curve P -> on_curve Q -> popp (padd P Q) = padd (popp P) (popp Q).
Proof.
  intros HP HQ. symmetry. apply popp_unique; auto with curve. rewrite padd_swap, !padd_popp_r by auto with curve. reflexivity.
Qed.

Lemma pmul_pos_succ k P : on_curve P -> pmul_pos (Pos.succ k) P = padd P (pmul_pos k P).
Proof.
  intros H. induction k as [k IH|k IH|]; cbn [pmul_pos Pos.succ]; [|reflexivity|reflexivity].
  rewrite IH, padd_assoc, (padd_comm (pmul_pos k P) (padd P _)), !padd_assoc by auto with curve. reflexivity.
Qed.

Lemma pmul_succ k P : on_curve P -> pmul (Z.succ k) P = padd P (pmul k P).
Proof.
  intros H. destruct k as [|k|k].
  - cbn. rewrite padd_infinity_r. reflexivity.
  - rewrite <- Pos2Z.inj_succ. apply pmul_pos_succ, H.
  - destruct (Pos.eq_dec k 1) as [->|Hk].
    + cbn [pmul Z.succ Z.add Z.pos_sub pmul_pos]. rewrite padd_popp_r. reflexivity.
    + replace (Z.succ (Zneg k)) with (Zneg (Pos.pred k)) by lia. cbn [pmul].
      rewrite <- (Pos.succ_pred k Hk) at 2. rewrite pmul_pos_succ, popp_padd, <- padd_assoc, padd_popp_r by auto with curve. reflexivity.
Qed.

Lemma pmul_pred k P : on_curve P -> pmul (Z.pred k) P = padd (popp P) (pmul k P).
Proof.
  intros H. rewrite <- (Z.succ_pred k) at 2. rewrite pmul_succ, padd_cancel by auto with curve. reflexivity.
Qed.

Lemma pmul_add a b P : on_curve P -> pmul (a + b) P = padd (pmul a P) (pmul b P).
Proof.
  intros H. induction a as [|a IH|a IH] using Z.peano_ind; [reflexivity| |].
  - rewrite Z.add_succ_l, !pmul_succ, IH, padd_assoc by auto with curve. reflexivity.
  - rewrite Z.add_pred_l, !pmul_pred, IH, padd_assoc by auto with curve. reflexivity.
Qed.

Lemma pmul_opp a P : on_curve P -> pmul (- a) P = popp (pmul a P).
Proof. intros H. destruct a; cbn [pmul Z.opp]; [reflexivity | reflexivity | rewrite popp_involutive; reflexivity]. Qed.

Lemma pmul_sub a b P : on_curve P -> pmul (a - b) P = padd (pmul a P) (popp (pmul b P)).
Proof. intros H. unfold Z.sub. rewrite pmul_add, pmul_opp by exact H. reflexivity. Qed.

Lemma pmul_mul a b P : on_curve P -> pmul (a * b) P = pmul a (pmul b P).
Proof.
  intros H. induction a as [|a IH|a IH] using Z.peano_ind; [reflexivity| |].
  - rewrite Z.mul_succ_l, Z.add_comm, pmul_add, pmul_succ, IH by auto with curve. reflexivity.
  - rewrite Z.mul_pred_l, pmul_sub, pmul_pred, IH, padd_comm by auto with curve. reflexivity.
Qed.

Lemma pmul_padd a P Q : on_curve P -> on_curve Q -> pmul a (padd P Q) = padd (pmul a P) (pmul a Q).
Proof.
  intros HP HQ. induction a as [|a IH|a IH] using Z.peano_ind; [reflexivity| |].
  - rewrite !pmul_succ, IH, padd_swap by auto with curve. reflexivity.
  - rewrite !pmul_pred, IH, popp_padd, padd_swap by auto with curve. reflexivity.
Qed.

Lemma pmul_infinity a : pmul a Infinity = Infinity.
Proof. induction a as [|a IH|a IH] using Z.peano_ind; [reflexivity| |]; [rewrite pmul_succ | rewrite pmul_pred]; auto with curve. Qed.

Lemma pmul_popp a P : on_curve P -> pmul a (popp P) = popp (pmul a P).
Proof.
  intros H. apply popp_unique; auto with curve. rewrite <- pmul_padd, padd_popp_r by auto with curve. apply pmul_infinity.
Qed.

Lemma pmul_1 P : pmul 1 P = P.
Proof. reflexivity. Qed.

Lemma pmul_double k P : on_curve P -> pmul (2 * k) P = padd (pmul k P) (pmul k P).
Proof. intros H. rewrite <- Z.add_diag. apply pmul_add, H. Qed.
