(* ===== verification/CurveOrder.v ===== *)
(** * The order of the curve

    The generator has order [n], computed with Jacobian coordinates, and the curve
    has no other points than its multiples: three cosets of [n] points would be more
    than [2 p + 1] points, and two cosets would give a point of order two. *)

From Stdlib Require Import ZArith Lia List Bool FinFun.
From S2P Require Import Prelude Modulus Curve CurveGroup.
Import ListNotations.

#[local] Open Scope Z_scope.

(** ** Jacobian coordinates over the integers, modulo [p] *)

Definition red (x : Z) : Z := fold_p (fold_p x).

Definition jdouble (a : Z * Z * Z) : Z * Z * Z :=
  let '(X, Y, Z) := a in
  let YY := red (Z.square Y) in
  let S := red (4 * X * YY) in
  let M := 3 * red (Z.square X) in
  let X' := red (Z.square M - 2 * S) in
  (X', red (M * (S - X') - 8 * Z.square YY), red (2 * Y * Z)).

(** A point plus a point given by its affine coordinates; the flag tells that the
    abscissas differ. *)
Definition jadd (q : Z * Z) (a : Z * Z * Z) : bool * (Z * Z * Z) :=
  let '(X, Y, Z) := a in
  let ZZ := red (Z.square Z) in
  let h := red (fst q * ZZ - X) in
  let i := red (snd q * red (Z * ZZ) - Y) in
  let hh := red (Z.square h) in
  let hhh := red (h * hh) in
  let v := red (X * hh) in
  let X' := red (Z.square i - hhh - 2 * v) in
  (negb (h mod p =? 0), (X', red (i * (v - X') - hhh * Y), red (Z * h))).

(** Doublings, with an addition of [q] after those that [bits] marks. *)
Fixpoint jchain (q : Z * Z) (bits : list bool) (ok : bool) (a : Z * Z * Z) : bool * (Z * Z * Z) :=
  match bits with
  | [] => (ok, a)
  | b :: bits =>
      let a := jdouble a in
      if b then let '(ok', a) := jadd q a in jchain q bits (ok && ok') a else jchain q bits ok a
  end.

(** The factor at the end of the chain, when [q] has the factor [s]. *)
Fixpoint chain_value (s : Z) (bits : list bool) (k : Z) : Z :=
  match bits with
  | [] => k
  | b :: bits => chain_value s bits (2 * k + if b then s else 0)
  end.

(** The point of the result has the affine coordinates [q]. *)
Definition jis (q : Z * Z) (r : bool * (Z * Z * Z)) : bool :=
  let '(ok, (X, Y, Z)) := r in
  ok && ((X - fst q * Z * Z) mod p =? 0) && ((Y - snd q * Z * Z * Z) mod p =? 0).

(** A point given by its affine coordinates. *)
Definition jaffine (q : Z * Z) : Z * Z * Z := (fst q, snd q, 1).
Definition zpoint (q : Z * Z) : point := Affine (toFp (fst q)) (toFp (snd q)).

Definition zG : Z * Z :=
  (0x79BE667EF9DCBBAC55A06295CE870B07029BFCDB2DCE28D959F2815B16F81798, 0x483ADA7726A3C4655DA4FBFC0E1108A8FD17B448A68554199C47D08FFB10D4B8).
Definition zopp (q : Z * Z) : Z * Z := (fst q, - snd q).

(** The bits of [2^256 - (n - 1)], the highest first. *)
Definition order_bits : list bool :=
  map (fun i => Z.testbit (2 ^ 256 - (n - 1)) (Z.of_nat i)) (rev (seq 0 256)).

Lemma order_check : jis (zopp zG) (jchain (zopp zG) order_bits true (jaffine zG)) = true.
Proof. vm_cast_no_check (eq_refl true). Qed.

Lemma chain_value_order : chain_value (-1) order_bits 1 = n - 1.
Proof. vm_compute. reflexivity. Qed.

Lemma toFp_red x : toFp (red x) = toFp x.
Proof. apply toFp_eq. unfold red. rewrite !fold_p_mod. reflexivity. Qed.

Lemma toFp_square x : toFp (Z.square x) = (toFp x * toFp x)%Zmod.
Proof. rewrite Z.square_spec. apply toFp_mul. Qed.

(** The triple stands for the point. *)
Definition jrep (a : Z * Z * Z) (P : point) : Prop :=
  let '(X, Y, Z) := a in toFp Z <> Zmod.zero /\ P = jacobian (toFp X) (toFp Y) (toFp Z).

Ltac push_toFp := rewrite ?toFp_red, ?toFp_sub, ?toFp_add, ?toFp_mul, ?toFp_opp, ?toFp_square.

Lemma jdouble_ok a P : on_curve P -> jrep a P -> jrep (jdouble a) (padd P P).
Proof.
  destruct a as [[X Y] Z]. intros HP [HZ ->]. cbn [jdouble jrep].
  assert (toFp Y <> Zmod.zero) as HY.
  { intros E. apply (on_curve_y_nonzero _ _ HP). rewrite E. ring. }
  split; [push_toFp; repeat apply Fp_mul_nonzero; auto using Fp_2_nonzero|].
  rewrite double_formula by assumption. f_equal; repeat (progress push_toFp); ring.
Qed.

Lemma toFp_mod_nonzero x : negb (x mod p =? 0) = true -> toFp x <> Zmod.zero.
Proof. intros H. apply toFp_nonzero. destruct (x mod p =? 0); [discriminate | reflexivity]. Qed.

Lemma zpoint_jacobian q : zpoint q = jacobian (toFp (fst q)) (toFp (snd q)) (toFp 1).
Proof. unfold zpoint, jacobian. apply Affine_eq; field; apply toFp_nonzero; reflexivity. Qed.

Lemma jaffine_ok q : jrep (jaffine q) (zpoint q).
Proof. split; [apply toFp_nonzero; reflexivity | apply zpoint_jacobian]. Qed.

Lemma jadd_ok q a P : jrep a P -> fst (jadd q a) = true -> jrep (snd (jadd q a)) (padd P (zpoint q)).
Proof.
  destruct a as [[X Y] Z], q as [x y]. intros [HZ ->]. rewrite zpoint_jacobian. cbn [jadd jrep fst snd]. intros Hh%toFp_mod_nonzero.
  split; [rewrite toFp_red, toFp_mul; apply Fp_mul_nonzero; assumption|].
  assert (toFp 1 <> Zmod.zero) as H1 by (apply toFp_nonzero; reflexivity).
  assert (toFp x * (toFp Z * toFp Z) - toFp X * (toFp 1 * toFp 1) <> Zmod.zero)%Zmod as Hh'.
  { intros E. apply Hh. rewrite <- E. repeat (progress push_toFp). ring. }
  rewrite (chord_formula (toFp X) (toFp Y) (toFp Z) (toFp x) (toFp y) (toFp 1) _ _ _ _ _ _ _ HZ H1 eq_refl eq_refl eq_refl eq_refl eq_refl eq_refl Hh' eq_refl).
  f_equal; clear; repeat (progress push_toFp); ring.
Qed.

Lemma jchain_flag q bits ok a : fst (jchain q bits ok a) = true -> ok = true.
Proof.
  revert ok a. induction bits as [|[] bits IH]; intros ok a; cbn [jchain]; [auto | | apply IH].
  destruct (jadd q (jdouble a)) as [ok' a']. intros H%IH. apply andb_true_iff in H. apply H.
Qed.

Lemma jchain_ok q s P : on_curve P -> zpoint q = pmul s P -> forall bits ok a k, jrep a (pmul k P) -> fst (jchain q bits ok a) = true ->
  jrep (snd (jchain q bits ok a)) (pmul (chain_value s bits k) P).
Proof.
  intros HP Hq. induction bits as [|b bits IH]; intros ok a k Ha; cbn [jchain chain_value]; [auto|].
  apply jdouble_ok in Ha; [|auto with curve]. rewrite <- pmul_double in Ha by auto with curve. destruct b.
  - pose proof (jadd_ok q _ _ Ha) as Hs. destruct (jadd q (jdouble a)) as [ok' a']. cbn [fst snd] in Hs. intros H.
    pose proof (jchain_flag _ _ _ _ H) as Hok. apply andb_true_iff in Hok as [_ Hok'].
    apply IH; [|exact H]. rewrite pmul_add, <- Hq by auto with curve. exact (Hs Hok').
  - rewrite Z.add_0_r. apply IH, Ha.
Qed.

Lemma jis_ok q r P : jis q r = true -> (fst r = true -> jrep (snd r) P) -> P = zpoint q.
Proof.
  destruct r as [ok [[X Y] Z]], q as [x y]. unfold jis. cbn [fst snd jrep]. intros H Hr.
  rewrite !andb_true_iff, !Z.eqb_eq in H. destruct H as [[Hok HX] HY]. destruct (Hr Hok) as [HZ ->].
  apply toFp_zero in HX, HY. unfold jacobian, zpoint. cbn [fst snd]. revert HX HY. push_toFp. intros HX HY.
  apply Fp_sub_zero in HX, HY. rewrite HX, HY. apply Affine_eq; field; exact HZ.
Qed.

Lemma zG_point : zpoint zG = G.
Proof. reflexivity. Qed.

Lemma zopp_point q : zpoint (zopp q) = popp (zpoint q).
Proof. unfold zpoint, zopp. cbn [fst snd popp]. rewrite toFp_opp. reflexivity. Qed.

(** The generator has order [n]. *)
Lemma pmul_n_G : pmul n G = Infinity.
Proof.
  assert (on_curve G) as HG by auto with curve.
  assert (zpoint (zopp zG) = pmul (-1) G) as Hq by (rewrite zopp_point, zG_point, (pmul_opp 1), pmul_1 by exact HG; reflexivity).
  assert (jrep (jaffine zG) (pmul 1 G)) as H1 by (rewrite pmul_1 by exact HG; apply jaffine_ok).
  pose proof (jis_ok _ _ _ order_check (jchain_ok (zopp zG) (-1) G HG Hq order_bits true (jaffine zG) 1 H1)) as E. rewrite chain_value_order in E.
  replace n with (n - 1 + 1) by lia. rewrite pmul_add, E, zopp_point, zG_point, pmul_1 by exact HG. apply padd_popp_l. exact HG.
Qed.

Lemma pmul_mod_n k P : on_curve P -> pmul n P = Infinity -> pmul (k mod n) P = pmul k P.
Proof.
  intros HP Hn. rewrite (Z.div_mod k n) at 2 by discriminate.
  rewrite pmul_add, (Z.mul_comm n), pmul_mul, Hn, pmul_infinity by assumption. reflexivity.
Qed.

(** Multiples of the generator are equal when the factors are equal modulo [n]. *)
Lemma pmul_G_infinity k : pmul k G = Infinity <-> (n | k).
Proof.
  split.
  - intros E. destruct (Z.eq_dec (k mod n) 0) as [Hd|Hd]; [apply Z.mod_divide; [discriminate | exact Hd]|]. exfalso.
    assert (Z.gcd n k = 1) as Hg by (apply (Z.coprime_prime_l n k n_prime); intros D; apply Hd, Z.mod_divide; [discriminate | exact D]).
    destruct (Z.gcd_bezout n k 1 Hg) as (u & v & Huv). assert (G = Infinity) as EG; [|discriminate EG].
    rewrite <- (pmul_1 G), <- Huv, pmul_add, !pmul_mul, E, pmul_n_G, !pmul_infinity by auto with curve. reflexivity.
  - intros [q ->]. rewrite pmul_mul, pmul_n_G, pmul_infinity by auto with curve. reflexivity.
Qed.

Lemma pmul_G_inj a b : pmul a G = pmul b G <-> (n | a - b).
Proof.
  rewrite <- pmul_G_infinity, pmul_sub by auto with curve. split; [intros ->; apply padd_popp_r|]. intros E.
  rewrite <- (popp_involutive (pmul a G)), <- (popp_involutive (pmul b G)). f_equal.
  symmetry. apply popp_unique; auto with curve.
Qed.

(** No point has order two. *)
Lemma no_2_torsion P : on_curve P -> padd P P = Infinity -> P = Infinity.
Proof.
  intros HP E. apply popp_unique in E; [|assumption|assumption]. destruct P as [|x y]; [reflexivity|]. exfalso.
  cbn [popp] in E. apply (on_curve_y_nonzero x y HP), Fp_double_zero. congruence.
Qed.

(** ** All points are multiples of the generator *)

(** An enumeration of the field and of the points, for a bound [N] that stands for
    [p]. *)
Section Points.
Context (N : nat) (HN : Z.of_nat N = p).

Definition field_list : list Fp := map (fun i => toFp (Z.of_nat i)) (seq 0 N).

Definition points_at (x : Fp) : list point :=
  match find (fun y => Zmod.eqb (y * y)%Zmod (x * x * x + toFp 7)%Zmod) field_list with
  | Some y => [Affine x y; Affine x (- y)%Zmod]
  | None => []
  end.

Definition point_list : list point := Infinity :: flat_map points_at field_list.

Lemma field_list_complete x : In x field_list.
Proof.
  apply in_map_iff. exists (Z.to_nat (Zmod.to_Z x)). pose proof (Fp_range x) as B.
  split; [rewrite Z2Nat.id by lia; apply toFp_to_Z | apply in_seq; lia].
Qed.

Lemma point_list_complete P : on_curve P -> In P point_list.
Proof.
  destruct P as [|x y]; intros HP; [left; reflexivity|]. right. apply in_flat_map. exists x. split; [apply field_list_complete|].
  unfold points_at. destruct (find _ field_list) as [y'|] eqn:E.
  - apply find_some in E as [_ E]. apply Zmod.eqb_eq in E. destruct (same_x x y y' HP E) as [->| ->]; cbn; auto.
  - exfalso. pose proof (find_none _ _ E y (field_list_complete y)) as H. cbn beta in H. cbn [on_curve] in HP. rewrite HP, Zmod.eqb_refl in H. discriminate.
Qed.

Lemma point_list_length : (length point_list <= 1 + 2 * N)%nat.
Proof.
  unfold point_list. cbn [length]. apply le_n_S. unfold field_list at 1. rewrite <- (length_seq N 0) at 2.
  generalize (seq 0 N). intros l. rewrite flat_map_concat_map, map_map. induction l as [|i l IH]; [cbn; lia|].
  cbn [map concat length]. rewrite length_app. unfold points_at at 1. destruct (find _ _); cbn [length]; lia.
Qed.
End Points.

(** A list of the multiples of the generator, shifted by a point. *)
Definition coset (M : nat) (P : point) : list point := map (fun i => padd P (pmul (Z.of_nat i) G)) (seq 0 M).

Definition generated (P : point) : Prop := exists k, P = pmul k G.

Lemma coset_nodup M P : Z.of_nat M <= n -> on_curve P -> NoDup (coset M P).
Proof.
  intros HM HP. apply Injective_map_NoDup_in; [|apply seq_NoDup].
  intros i j Hi%in_seq Hj%in_seq E. apply padd_inj_l in E; auto with curve. apply pmul_G_inj in E as [q Hq]. 
  assert (q = 0) by nia. lia.
Qed.

Lemma coset_on_curve M P : on_curve P -> Forall on_curve (coset M P).
Proof. intros HP. apply Forall_map, Forall_forall. intros i _. auto with curve. Qed.

Lemma coset_meet M P Q : on_curve P -> on_curve Q -> forall R, In R (coset M P) -> In R (coset M Q) -> exists k, P = padd Q (pmul k G).
Proof.
  intros HP HQ R Hp Hq. apply in_map_iff in Hp as (i & <- & _), Hq as (j & E & _). exists (Z.of_nat j - Z.of_nat i).
  rewrite pmul_sub, <- padd_assoc, E, padd_assoc, padd_popp_r, padd_infinity_r by auto with curve. reflexivity.
Qed.

(** A point whose double is a multiple of the generator is one. *)
Lemma generated_half P k : on_curve P -> padd P P = pmul k G -> generated P.
Proof.
  intros HP E. assert (exists m, pmul k G = padd (pmul m G) (pmul m G)) as [m Em].
  { destruct (Z.Even_or_Odd k) as [[m ->]|[m ->]].
    - exists m. apply pmul_double. auto with curve.
    - exists (m + (n + 1) / 2). rewrite <- pmul_double by auto with curve. apply pmul_G_inj. exists (-1). assert (2 * ((n + 1) / 2) = n + 1) by reflexivity. lia. }
  exists m. assert (padd P (popp (pmul m G)) = Infinity) as E0.
  { apply no_2_torsion; [auto with curve|]. rewrite padd_swap, E, Em, <- popp_padd, padd_popp_r by auto with curve. reflexivity. }
  apply popp_unique in E0; auto with curve. rewrite <- (popp_involutive P), <- E0. apply popp_involutive.
Qed.

Lemma three_cosets_disjoint M P : on_curve P -> ~ generated P -> Z.of_nat M <= n ->
  NoDup (coset M Infinity ++ coset M P ++ coset M (popp P)).
Proof.
  intros HP Hg HM. assert (forall k, popp (pmul k G) = pmul (- k) G) as Eo by (intros; rewrite pmul_opp by auto with curve; reflexivity).
  assert (forall Q k, on_curve Q -> Infinity = padd Q (pmul k G) -> Q = pmul (- k) G) as Hi.
  { intros Q k HQ E. symmetry in E. rewrite padd_comm in E by auto with curve. apply popp_unique in E; auto with curve. rewrite E. apply Eo. }
  repeat apply NoDup_app; auto using coset_nodup with curve.
  - intros R H1 H2. destruct (coset_meet M P (popp P) HP ltac:(auto with curve) R H1 H2) as [k E]. apply Hg.
    apply (generated_half P k HP). rewrite E at 2. rewrite <- padd_assoc, padd_popp_r by auto with curve. reflexivity.
  - intros R H1 [H2|H2]%in_app_iff.
    + destruct (coset_meet M Infinity P I HP R H1 H2) as [k E]. apply Hg. exists (- k). exact (Hi P k HP E).
    + destruct (coset_meet M Infinity (popp P) I ltac:(auto with curve) R H1 H2) as [k E]. apply Hg. exists (- - k).
      rewrite <- Eo, <- (Hi (popp P) k ltac:(auto with curve) E). symmetry. apply popp_involutive.
Qed.

Lemma point_eq_dec (P Q : point) : {P = Q} + {P <> Q}.
Proof.
  assert (forall x y : Fp, {x = y} + {x <> y}) as D.
  { intros x y. destruct (Zmod.eqb x y) eqn:E; [left; apply Zmod.eqb_eq, E | right; intros ->; rewrite Zmod.eqb_refl in E; discriminate]. }
  decide equality.
Qed.

Theorem all_generated P : on_curve P -> generated P.
Proof.
  intros HP. assert (exists N M, Z.of_nat N = p /\ Z.of_nat M = n) as (N & M & HN & HM)
    by (exists (Z.to_nat p), (Z.to_nat n); split; apply Z2Nat.id; discriminate).
  destruct (in_dec point_eq_dec P (coset M Infinity)) as [Hin|Hout].
  { apply in_map_iff in Hin as (i & <- & _). exists (Z.of_nat i). reflexivity. }
  exfalso. assert (~ generated P) as Hg.
  { intros [k ->]. apply Hout, in_map_iff. exists (Z.to_nat (k mod n)). pose proof (Z.mod_pos_bound k n eq_refl) as B.
    rewrite Z2Nat.id by lia. split; [apply pmul_mod_n; [auto with curve | exact pmul_n_G] | apply in_seq; lia]. }
  assert (incl (coset M Infinity ++ coset M P ++ coset M (popp P)) (point_list N)) as Hincl.
  { intros R HR. apply (point_list_complete N HN). apply (proj1 (Forall_forall on_curve (coset M Infinity ++ coset M P ++ coset M (popp P)))); [|exact HR].
    repeat (apply Forall_app; split); apply coset_on_curve; auto with curve. }
  pose proof (NoDup_incl_length (three_cosets_disjoint M P HP Hg ltac:(lia)) Hincl) as HL.
  pose proof (point_list_length N) as HL'. unfold coset in HL. rewrite !length_app, !length_map, !length_seq in HL.
  unfold p, n in *. lia.
Qed.

Corollary pmul_n P : on_curve P -> pmul n P = Infinity.
Proof.
  intros HP. destruct (all_generated P HP) as [k ->]. rewrite <- pmul_mul, Z.mul_comm, pmul_mul, pmul_n_G by auto with curve. apply pmul_infinity.
Qed.

(** Factors modulo [n]. *)
Lemma pmul_mod k P : on_curve P -> pmul (k mod n) P = pmul k P.
Proof. intros HP. apply pmul_mod_n; [exact HP | apply pmul_n, HP]. Qed.

Lemma pmul_eqm a b P : on_curve P -> a mod n = b mod n -> pmul a P = pmul b P.
Proof. intros HP E. rewrite <- (pmul_mod a), <- (pmul_mod b), E by exact HP. reflexivity. Qed.

(** The multiples that are the point at infinity. *)
Lemma pmul_infinity_iff k P : on_curve P -> P <> Infinity -> pmul k P = Infinity <-> (n | k).
Proof.
  intros HP Hinf. destruct (all_generated P HP) as [m ->]. rewrite <- pmul_mul by auto with curve. rewrite pmul_G_infinity in *.
  split; [|intros H; apply Z.divide_mul_l, H]. intros H. apply Z.divide_prime_mul in H; [|exact n_prime].
  destruct H as [H|H]; [exact H | contradiction].
Qed.

Lemma pmul_finite k P : on_curve P -> P <> Infinity -> 0 < k < n -> pmul k P <> Infinity.
Proof. intros HP Hinf Hk E. apply pmul_infinity_iff in E; [|assumption|assumption]. apply Z.divide_pos_le in E; lia. Qed.

(** ** Known multiples of the generator *)

(** The bits of [k] under its highest one, the highest first. *)
Definition low_bits (k : Z) : list bool := map (fun i => Z.testbit k (Z.of_nat i)) (rev (seq 0 (Z.to_nat (Z.log2 k)))).

Definition multiple_check (k : Z) (q : Z * Z) : bool := jis q (jchain zG (low_bits k) true (jaffine zG)) && (chain_value 1 (low_bits k) 1 =? k).

Lemma multiple_check_ok k q : multiple_check k q = true -> pmul k G = zpoint q.
Proof.
  intros E. apply andb_true_iff in E as [E1 E2]. apply Z.eqb_eq in E2. rewrite <- E2.
  apply (jis_ok _ _ _ E1). apply (jchain_ok zG 1 G); [apply G_on_curve | rewrite zG_point, pmul_1; reflexivity | rewrite pmul_1; exact (jaffine_ok zG)].
Qed.
