(* ===== verification/Group.v ===== *)
(** * Group elements: [group.h] and [group_impl.h]

    Points in affine ([secp256k1_ge]) and Jacobian ([secp256k1_gej]) coordinates,
    over any field representation.  A function that leaves members of its output
    as they were takes the previous output as an argument.  The [rzr] argument,
    a pointer that may be NULL, is an option. *)

From Stdlib Require Import ZArith Lia List Bool.
From S2P Require Import Prelude Modulus Bytes Field FieldImpl Curve.
Import ListNotations.

#[local] Open Scope Z_scope.
#[local] Open Scope checked_scope.

(** ** Data *)

Section Data.
Context {F : FieldOps}.

Record secp256k1_ge : Type := mk_ge {
  ge_x : secp256k1_fe;
  ge_y : secp256k1_fe;
  ge_infinity : bool
}.

Record secp256k1_gej : Type := mk_gej {
  gej_x : secp256k1_fe;
  gej_y : secp256k1_fe;
  gej_z : secp256k1_fe;
  gej_infinity : bool
}.

Record secp256k1_ge_storage : Type := mk_ge_storage {
  ges_x : secp256k1_fe_storage;
  ges_y : secp256k1_fe_storage
}.

Definition SECP256K1_GE_CONST (a b c d e f g h i j k l m n o p : Z) : secp256k1_ge :=
  mk_ge (SECP256K1_FE_CONST a b c d e f g h) (SECP256K1_FE_CONST i j k l m n o p) false.

Definition secp256k1_ge_const_g : secp256k1_ge := SECP256K1_GE_CONST
  0x79BE667E 0xF9DCBBAC 0x55A06295 0xCE870B07
  0x029BFCDB 0x2DCE28D9 0x59F2815B 0x16F81798
  0x483ADA77 0x26A3C465 0x5DA4FBFC 0x0E1108A8
  0xFD17B448 0xA6855419 0x9C47D08F 0xFB10D4B8.

Definition CURVE_B : Z := 7.

End Data.

(** ** Operations *)

Section Operations.
Context {F : FieldOps}.

Definition secp256k1_ge_set_gej_zinv (a : secp256k1_gej) (zi : secp256k1_fe) : checked secp256k1_ge :=
  zi2 <- secp256k1_fe_sqr zi;;
  zi3 <- secp256k1_fe_mul zi2 zi;;
  x <- secp256k1_fe_mul (gej_x a) zi2;;
  y <- secp256k1_fe_mul (gej_y a) zi3;;
  ret (mk_ge x y (gej_infinity a)).

Definition secp256k1_ge_set_xy (x y : secp256k1_fe) : secp256k1_ge := mk_ge x y false.

Definition secp256k1_ge_is_infinity (a : secp256k1_ge) : bool := ge_infinity a.

Definition secp256k1_ge_neg (a : secp256k1_ge) : checked secp256k1_ge :=
  y <- secp256k1_fe_normalize_weak (ge_y a);;
  y <- secp256k1_fe_negate y 1;;
  ret (mk_ge (ge_x a) y (ge_infinity a)).

(** The result, and the Jacobian argument, which is rescaled in place. *)
Definition secp256k1_ge_set_gej (a : secp256k1_gej) : checked (secp256k1_ge * secp256k1_gej) :=
  z <- secp256k1_fe_inv (gej_z a);;
  z2 <- secp256k1_fe_sqr z;;
  z3 <- secp256k1_fe_mul z z2;;
  x <- secp256k1_fe_mul (gej_x a) z2;;
  y <- secp256k1_fe_mul (gej_y a) z3;;
  z <- secp256k1_fe_set_int 1;;
  ret (mk_ge x y (gej_infinity a), mk_gej x y z (gej_infinity a)).

Definition secp256k1_ge_set_gej_var (r : secp256k1_ge) (a : secp256k1_gej) : checked (secp256k1_ge * secp256k1_gej) :=
  if gej_infinity a then ret (mk_ge (ge_x r) (ge_y r) true, a) else
  z <- secp256k1_fe_inv_var (gej_z a);;
  z2 <- secp256k1_fe_sqr z;;
  z3 <- secp256k1_fe_mul z z2;;
  x <- secp256k1_fe_mul (gej_x a) z2;;
  y <- secp256k1_fe_mul (gej_y a) z3;;
  z <- secp256k1_fe_set_int 1;;
  ret (mk_ge x y (gej_infinity a), mk_gej x y z (gej_infinity a)).

(** The second loop of [secp256k1_ge_set_all_gej_var]; [azi] are the inverses not
    used yet. *)
Fixpoint set_all_loop (r : list secp256k1_ge) (a : list secp256k1_gej) (azi : list secp256k1_fe) :
  checked (list secp256k1_ge) :=
  match a, r with
  | ai :: a', ri :: r' =>
      if gej_infinity ai then
        rest <- set_all_loop r' a' azi;;
        ret (mk_ge (ge_x ri) (ge_y ri) true :: rest)
      else
        q <- secp256k1_ge_set_gej_zinv ai (hd secp256k1_fe_clear azi);;
        rest <- set_all_loop r' a' (tl azi);;
        ret (q :: rest)
  | _, _ => ret r
  end.

(** [azi0] is what the second allocation held. *)
Definition secp256k1_ge_set_all_gej_var (azi0 : list secp256k1_fe) (r : list secp256k1_ge) (a : list secp256k1_gej) :
  checked (list secp256k1_ge) :=
  let az := map gej_z (filter (fun ai => negb (gej_infinity ai)) a) in
  azi <- secp256k1_fe_inv_all_var azi0 az (length az);;
  set_all_loop r a azi.

(** [while (i > 0) { zi *= zr[i]; i--; ... }] *)
Fixpoint set_table_loop (i : nat) (zi : secp256k1_fe) (r : list secp256k1_ge)
    (a : list secp256k1_gej) (zr : list secp256k1_fe) : checked (list secp256k1_ge) :=
  match i with
  | O => ret r
  | S i' =>
      zi <- secp256k1_fe_mul zi (nth (S i') zr secp256k1_fe_clear);;
      q <- secp256k1_ge_set_gej_zinv (nth i' a (mk_gej secp256k1_fe_clear secp256k1_fe_clear secp256k1_fe_clear false)) zi;;
      set_table_loop i' zi (upd r i' q) a zr
  end.

Definition secp256k1_ge_set_table_gej_var (r : list secp256k1_ge) (a : list secp256k1_gej)
    (zr : list secp256k1_fe) (len : nat) : checked (list secp256k1_ge) :=
  match len with
  | O => ret r
  | S i =>
      let ai := nth i a (mk_gej secp256k1_fe_clear secp256k1_fe_clear secp256k1_fe_clear false) in
      zi <- secp256k1_fe_inv (gej_z ai);;
      q <- secp256k1_ge_set_gej_zinv ai zi;;
      set_table_loop i zi (upd r i q) a zr
  end.

(** [while (i > 0) { if (i != len - 1) zs *= zr[i]; i--; ... }] *)
Fixpoint globalz_loop (i : nat) (len : nat) (zs : secp256k1_fe) (r : list secp256k1_ge)
    (a : list secp256k1_gej) (zr : list secp256k1_fe) : checked (list secp256k1_ge) :=
  match i with
  | O => ret r
  | S i' =>
      zs <- (if Nat.eqb i (len - 1) then ret zs else secp256k1_fe_mul zs (nth i zr secp256k1_fe_clear));;
      q <- secp256k1_ge_set_gej_zinv (nth i' a (mk_gej secp256k1_fe_clear secp256k1_fe_clear secp256k1_fe_clear false)) zs;;
      globalz_loop i' len zs (upd r i' q) a zr
  end.

Definition secp256k1_ge_globalz_set_table_gej (len : nat) (r : list secp256k1_ge) (globalz : secp256k1_fe)
    (a : list secp256k1_gej) (zr : list secp256k1_fe) : checked (list secp256k1_ge * secp256k1_fe) :=
  match len with
  | O => ret (r, globalz)
  | S i =>
      let ai := nth i a (mk_gej secp256k1_fe_clear secp256k1_fe_clear secp256k1_fe_clear false) in
      let r := upd r i (mk_ge (gej_x ai) (gej_y ai) false) in
      let zs := nth i zr secp256k1_fe_clear in
      r <- globalz_loop i len zs r a zr;;
      ret (r, gej_z ai)
  end.

Definition secp256k1_gej_set_infinity : secp256k1_gej :=
  mk_gej secp256k1_fe_clear secp256k1_fe_clear secp256k1_fe_clear true.

Definition secp256k1_gej_clear : secp256k1_gej :=
  mk_gej secp256k1_fe_clear secp256k1_fe_clear secp256k1_fe_clear false.

Definition secp256k1_ge_clear : secp256k1_ge :=
  mk_ge secp256k1_fe_clear secp256k1_fe_clear false.

Definition secp256k1_ge_set_xquad (x : secp256k1_fe) : checked (bool * secp256k1_ge) :=
  x2 <- secp256k1_fe_sqr x;;
  x3 <- secp256k1_fe_mul x x2;;
  c <- secp256k1_fe_set_int CURVE_B;;
  c <- secp256k1_fe_add c x3;;
  ' (ok, y) <- secp256k1_fe_sqrt c;;
  ret (ok, mk_ge x y false).

Definition secp256k1_ge_set_xo_var (x : secp256k1_fe) (odd : bool) : checked (bool * secp256k1_ge) :=
  ' (ok, r) <- secp256k1_ge_set_xquad x;;
  if negb ok then ret (false, r) else
  y <- secp256k1_fe_normalize_var (ge_y r);;
  o <- secp256k1_fe_is_odd y;;
  y <- (if negb (Bool.eqb o odd) then secp256k1_fe_negate y 1 else ret y);;
  ret (true, mk_ge (ge_x r) y (ge_infinity r)).

Definition secp256k1_gej_set_ge (a : secp256k1_ge) : checked secp256k1_gej :=
  z <- secp256k1_fe_set_int 1;;
  ret (mk_gej (ge_x a) (ge_y a) z (ge_infinity a)).

Definition secp256k1_gej_eq_x_var (x : secp256k1_fe) (a : secp256k1_gej) : checked bool :=
  VERIFY_CHECK (negb (gej_infinity a));;
  r <- secp256k1_fe_sqr (gej_z a);;
  r <- secp256k1_fe_mul r x;;
  r2 <- secp256k1_fe_normalize_weak (gej_x a);;
  secp256k1_fe_equal_var r r2.

Definition secp256k1_gej_neg (a : secp256k1_gej) : checked secp256k1_gej :=
  y <- secp256k1_fe_normalize_weak (gej_y a);;
  y <- secp256k1_fe_negate y 1;;
  ret (mk_gej (gej_x a) y (gej_z a) (gej_infinity a)).

Definition secp256k1_gej_is_infinity (a : secp256k1_gej) : bool := gej_infinity a.

Definition secp256k1_gej_is_valid_var (a : secp256k1_gej) : checked bool :=
  if gej_infinity a then ret false else
  y2 <- secp256k1_fe_sqr (gej_y a);;
  x3 <- secp256k1_fe_sqr (gej_x a);;
  x3 <- secp256k1_fe_mul x3 (gej_x a);;
  z2 <- secp256k1_fe_sqr (gej_z a);;
  z6 <- secp256k1_fe_sqr z2;;
  z6 <- secp256k1_fe_mul z6 z2;;
  z6 <- secp256k1_fe_mul_int z6 CURVE_B;;
  x3 <- secp256k1_fe_add x3 z6;;
  x3 <- secp256k1_fe_normalize_weak x3;;
  secp256k1_fe_equal_var y2 x3.

Definition secp256k1_ge_is_valid_var (a : secp256k1_ge) : checked bool :=
  if ge_infinity a then ret false else
  y2 <- secp256k1_fe_sqr (ge_y a);;
  x3 <- secp256k1_fe_sqr (ge_x a);;
  x3 <- secp256k1_fe_mul x3 (ge_x a);;
  c <- secp256k1_fe_set_int CURVE_B;;
  x3 <- secp256k1_fe_add x3 c;;
  x3 <- secp256k1_fe_normalize_weak x3;;
  secp256k1_fe_equal_var y2 x3.

Definition secp256k1_gej_double_var (r a : secp256k1_gej) (rzr : option secp256k1_fe) :
  checked (secp256k1_gej * option secp256k1_fe) :=
  if gej_infinity a then
    rzr <- (match rzr with
            | Some _ => one <- secp256k1_fe_set_int 1;; ret (Some one)
            | None => ret None
            end);;
    ret (mk_gej (gej_x r) (gej_y r) (gej_z r) true, rzr)
  else
  rzr <- (match rzr with
          | Some _ =>
              z <- secp256k1_fe_normalize_weak (gej_y a);;
              z <- secp256k1_fe_mul_int z 2;;
              ret (Some z)
          | None => ret None
          end);;
  rz <- secp256k1_fe_mul (gej_z a) (gej_y a);;
  rz <- secp256k1_fe_mul_int rz 2;;       (* Z' = 2*Y*Z (2) *)
  t1 <- secp256k1_fe_sqr (gej_x a);;
  t1 <- secp256k1_fe_mul_int t1 3;;       (* T1 = 3*X^2 (3) *)
  t2 <- secp256k1_fe_sqr t1;;             (* T2 = 9*X^4 (1) *)
  t3 <- secp256k1_fe_sqr (gej_y a);;
  t3 <- secp256k1_fe_mul_int t3 2;;       (* T3 = 2*Y^2 (2) *)
  t4 <- secp256k1_fe_sqr t3;;
  t4 <- secp256k1_fe_mul_int t4 2;;       (* T4 = 8*Y^4 (2) *)
  t3 <- secp256k1_fe_mul t3 (gej_x a);;   (* T3 = 2*X*Y^2 (1) *)
  rx <- secp256k1_fe_mul_int t3 4;;       (* X' = 8*X*Y^2 (4) *)
  rx <- secp256k1_fe_negate rx 4;;        (* X' = -8*X*Y^2 (5) *)
  rx <- secp256k1_fe_add rx t2;;          (* X' = 9*X^4 - 8*X*Y^2 (6) *)
  t2 <- secp256k1_fe_negate t2 1;;        (* T2 = -9*X^4 (2) *)
  t3 <- secp256k1_fe_mul_int t3 6;;       (* T3 = 12*X*Y^2 (6) *)
  t3 <- secp256k1_fe_add t3 t2;;          (* T3 = 12*X*Y^2 - 9*X^4 (8) *)
  ry <- secp256k1_fe_mul t1 t3;;          (* Y' = 36*X^3*Y^2 - 27*X^6 (1) *)
  t2 <- secp256k1_fe_negate t4 2;;        (* T2 = -8*Y^4 (3) *)
  ry <- secp256k1_fe_add ry t2;;          (* Y' = 36*X^3*Y^2 - 27*X^6 - 8*Y^4 (4) *)
  ret (mk_gej rx ry rz false, rzr).

Definition secp256k1_gej_double_nonzero (r a : secp256k1_gej) (rzr : option secp256k1_fe) :
  checked (secp256k1_gej * option secp256k1_fe) :=
  VERIFY_CHECK (negb (secp256k1_gej_is_infinity a));;
  secp256k1_gej_double_var r a rzr.

Definition secp256k1_gej_add_var (r a b : secp256k1_gej) (rzr : option secp256k1_fe) :
  checked (secp256k1_gej * option secp256k1_fe) :=
  if gej_infinity a then
    VERIFY_CHECK (match rzr with None => true | Some _ => false end);;
    ret (b, rzr)
  else if gej_infinity b then
    rzr <- (match rzr with
            | Some _ => one <- secp256k1_fe_set_int 1;; ret (Some one)
            | None => ret None
            end);;
    ret (a, rzr)
  else
  z22 <- secp256k1_fe_sqr (gej_z b);;
  z12 <- secp256k1_fe_sqr (gej_z a);;
  u1 <- secp256k1_fe_mul (gej_x a) z22;;
  u2 <- secp256k1_fe_mul (gej_x b) z12;;
  s1 <- secp256k1_fe_mul (gej_y a) z22;; s1 <- secp256k1_fe_mul s1 (gej_z b);;
  s2 <- secp256k1_fe_mul (gej_y b) z12;; s2 <- secp256k1_fe_mul s2 (gej_z a);;
  h <- secp256k1_fe_negate u1 1;; h <- secp256k1_fe_add h u2;;
  i <- secp256k1_fe_negate s1 1;; i <- secp256k1_fe_add i s2;;
  h0 <- secp256k1_fe_normalizes_to_zero_var h;;
  if (h0 : bool) then
    i0 <- secp256k1_fe_normalizes_to_zero_var i;;
    if (i0 : bool) then
      secp256k1_gej_double_var (mk_gej (gej_x r) (gej_y r) (gej_z r) false) a rzr
    else
      rzr <- (match rzr with
              | Some _ => zero <- secp256k1_fe_set_int 0;; ret (Some zero)
              | None => ret None
              end);;
      ret (mk_gej (gej_x r) (gej_y r) (gej_z r) true, rzr)
  else
  i2 <- secp256k1_fe_sqr i;;
  h2 <- secp256k1_fe_sqr h;;
  h3 <- secp256k1_fe_mul h h2;;
  h <- secp256k1_fe_mul h (gej_z b);;
  let rzr := match rzr with Some _ => Some h | None => None end in
  rz <- secp256k1_fe_mul (gej_z a) h;;
  t <- secp256k1_fe_mul u1 h2;;
  rx <- secp256k1_fe_mul_int t 2;; rx <- secp256k1_fe_add rx h3;; rx <- secp256k1_fe_negate rx 3;;
  rx <- secp256k1_fe_add rx i2;;
  ry <- secp256k1_fe_negate rx 5;; ry <- secp256k1_fe_add ry t;; ry <- secp256k1_fe_mul ry i;;
  h3 <- secp256k1_fe_mul h3 s1;; h3 <- secp256k1_fe_negate h3 1;;
  ry <- secp256k1_fe_add ry h3;;
  ret (mk_gej rx ry rz false, rzr).

Definition secp256k1_gej_add_ge_var (r a : secp256k1_gej) (b : secp256k1_ge) (rzr : option secp256k1_fe) :
  checked (secp256k1_gej * option secp256k1_fe) :=
  if gej_infinity a then
    VERIFY_CHECK (match rzr with None => true | Some _ => false end);;
    r <- secp256k1_gej_set_ge b;;
    ret (r, rzr)
  else if ge_infinity b then
    rzr <- (match rzr with
            | Some _ => one <- secp256k1_fe_set_int 1;; ret (Some one)
            | None => ret None
            end);;
    ret (a, rzr)
  else
  z12 <- secp256k1_fe_sqr (gej_z a);;
  u1 <- secp256k1_fe_normalize_weak (gej_x a);;
  u2 <- secp256k1_fe_mul (ge_x b) z12;;
  s1 <- secp256k1_fe_normalize_weak (gej_y a);;
  s2 <- secp256k1_fe_mul (ge_y b) z12;; s2 <- secp256k1_fe_mul s2 (gej_z a);;
  h <- secp256k1_fe_negate u1 1;; h <- secp256k1_fe_add h u2;;
  i <- secp256k1_fe_negate s1 1;; i <- secp256k1_fe_add i s2;;
  h0 <- secp256k1_fe_normalizes_to_zero_var h;;
  if (h0 : bool) then
    i0 <- secp256k1_fe_normalizes_to_zero_var i;;
    if (i0 : bool) then
      secp256k1_gej_double_var (mk_gej (gej_x r) (gej_y r) (gej_z r) false) a rzr
    else
      rzr <- (match rzr with
              | Some _ => zero <- secp256k1_fe_set_int 0;; ret (Some zero)
              | None => ret None
              end);;
      ret (mk_gej (gej_x r) (gej_y r) (gej_z r) true, rzr)
  else
  i2 <- secp256k1_fe_sqr i;;
  h2 <- secp256k1_fe_sqr h;;
  h3 <- secp256k1_fe_mul h h2;;
  let rzr := match rzr with Some _ => Some h | None => None end in
  rz <- secp256k1_fe_mul (gej_z a) h;;
  t <- secp256k1_fe_mul u1 h2;;
  rx <- secp256k1_fe_mul_int t 2;; rx <- secp256k1_fe_add rx h3;; rx <- secp256k1_fe_negate rx 3;;
  rx <- secp256k1_fe_add rx i2;;
  ry <- secp256k1_fe_negate rx 5;; ry <- secp256k1_fe_add ry t;; ry <- secp256k1_fe_mul ry i;;
  h3 <- secp256k1_fe_mul h3 s1;; h3 <- secp256k1_fe_negate h3 1;;
  ry <- secp256k1_fe_add ry h3;;
  ret (mk_gej rx ry rz false, rzr).

Definition secp256k1_gej_add_zinv_var (r a : secp256k1_gej) (b : secp256k1_ge) (bzinv : secp256k1_fe) :
  checked secp256k1_gej :=
  if ge_infinity b then ret a else
  if gej_infinity a then
    bzinv2 <- secp256k1_fe_sqr bzinv;;
    bzinv3 <- secp256k1_fe_mul bzinv2 bzinv;;
    rx <- secp256k1_fe_mul (ge_x b) bzinv2;;
    ry <- secp256k1_fe_mul (ge_y b) bzinv3;;
    rz <- secp256k1_fe_set_int 1;;
    ret (mk_gej rx ry rz (ge_infinity b))
  else
  az <- secp256k1_fe_mul (gej_z a) bzinv;;
  z12 <- secp256k1_fe_sqr az;;
  u1 <- secp256k1_fe_normalize_weak (gej_x a);;
  u2 <- secp256k1_fe_mul (ge_x b) z12;;
  s1 <- secp256k1_fe_normalize_weak (gej_y a);;
  s2 <- secp256k1_fe_mul (ge_y b) z12;; s2 <- secp256k1_fe_mul s2 az;;
  h <- secp256k1_fe_negate u1 1;; h <- secp256k1_fe_add h u2;;
  i <- secp256k1_fe_negate s1 1;; i <- secp256k1_fe_add i s2;;
  h0 <- secp256k1_fe_normalizes_to_zero_var h;;
  if (h0 : bool) then
    i0 <- secp256k1_fe_normalizes_to_zero_var i;;
    if (i0 : bool) then
      ' (r, _) <- secp256k1_gej_double_var (mk_gej (gej_x r) (gej_y r) (gej_z r) false) a None;;
      ret r
    else
      ret (mk_gej (gej_x r) (gej_y r) (gej_z r) true)
  else
  i2 <- secp256k1_fe_sqr i;;
  h2 <- secp256k1_fe_sqr h;;
  h3 <- secp256k1_fe_mul h h2;;
  rz <- secp256k1_fe_mul (gej_z a) h;;
  t <- secp256k1_fe_mul u1 h2;;
  rx <- secp256k1_fe_mul_int t 2;; rx <- secp256k1_fe_add rx h3;; rx <- secp256k1_fe_negate rx 3;;
  rx <- secp256k1_fe_add rx i2;;
  ry <- secp256k1_fe_negate rx 5;; ry <- secp256k1_fe_add ry t;; ry <- secp256k1_fe_mul ry i;;
  h3 <- secp256k1_fe_mul h3 s1;; h3 <- secp256k1_fe_negate h3 1;;
  ry <- secp256k1_fe_add ry h3;;
  ret (mk_gej rx ry rz false).

(** [a->infinity] is 0 or 1 in the model, so the assertion that it is holds. *)
Definition secp256k1_gej_add_ge (a : secp256k1_gej) (b : secp256k1_ge) : checked secp256k1_gej :=
  let fe_1 := SECP256K1_FE_CONST 0 0 0 0 0 0 0 1 in
  VERIFY_CHECK (negb (ge_infinity b));;
  let a_infinity := Z.b2z (gej_infinity a) in
  VERIFY_CHECK ((a_infinity =? 0) || (a_infinity =? 1));;
  zz <- secp256k1_fe_sqr (gej_z a);;                    (* z = Z1^2 *)
  u1 <- secp256k1_fe_normalize_weak (gej_x a);;         (* u1 = U1 = X1*Z2^2 (1) *)
  u2 <- secp256k1_fe_mul (ge_x b) zz;;                  (* u2 = U2 = X2*Z1^2 (1) *)
  s1 <- secp256k1_fe_normalize_weak (gej_y a);;         (* s1 = S1 = Y1*Z2^3 (1) *)
  s2 <- secp256k1_fe_mul (ge_y b) zz;;                  (* s2 = Y2*Z1^2 (1) *)
  s2 <- secp256k1_fe_mul s2 (gej_z a);;                 (* s2 = S2 = Y2*Z1^3 (1) *)
  t <- secp256k1_fe_add u1 u2;;                         (* t = T = U1+U2 (2) *)
  m <- secp256k1_fe_add s1 s2;;                         (* m = M = S1+S2 (2) *)
  rr <- secp256k1_fe_sqr t;;                            (* rr = T^2 (1) *)
  m_alt <- secp256k1_fe_negate u2 1;;                   (* Malt = -X2*Z1^2 *)
  tt <- secp256k1_fe_mul u1 m_alt;;                     (* tt = -U1*U2 (2) *)
  rr <- secp256k1_fe_add rr tt;;                        (* rr = R = T^2-U1*U2 (3) *)
  m0 <- secp256k1_fe_normalizes_to_zero m;;
  rr0 <- secp256k1_fe_normalizes_to_zero rr;;
  let degenerate := Z.land (Z.b2z m0) (Z.b2z rr0) in
  rr_alt <- secp256k1_fe_mul_int s1 2;;                 (* rr = Y1*Z2^3 - Y2*Z1^3 (2) *)
  m_alt <- secp256k1_fe_add m_alt u1;;                  (* Malt = X1*Z2^2 - X2*Z1^2 *)
  let rr_alt := secp256k1_fe_cmov rr_alt rr (Z.b2z (degenerate =? 0)) in
  let m_alt := secp256k1_fe_cmov m_alt m (Z.b2z (degenerate =? 0)) in
  n <- secp256k1_fe_sqr m_alt;;                         (* n = Malt^2 (1) *)
  q <- secp256k1_fe_mul n t;;                           (* q = Q = T*Malt^2 (1) *)
  n <- secp256k1_fe_sqr n;;
  let n := secp256k1_fe_cmov n m degenerate in          (* n = M^3 * Malt (2) *)
  t <- secp256k1_fe_sqr rr_alt;;                        (* t = Ralt^2 (1) *)
  rz <- secp256k1_fe_mul (gej_z a) m_alt;;              (* r->z = Malt*Z (1) *)
  rz0 <- secp256k1_fe_normalizes_to_zero rz;;
  let infinity := Z.b2z rz0 * (1 - a_infinity) in
  rz <- secp256k1_fe_mul_int rz 2;;                     (* r->z = Z3 = 2*Malt*Z (2) *)
  q <- secp256k1_fe_negate q 1;;                        (* q = -Q (2) *)
  t <- secp256k1_fe_add t q;;                           (* t = Ralt^2-Q (3) *)
  t <- secp256k1_fe_normalize_weak t;;
  let rx := t in                                        (* r->x = Ralt^2-Q (1) *)
  t <- secp256k1_fe_mul_int t 2;;                       (* t = 2*x3 (2) *)
  t <- secp256k1_fe_add t q;;                           (* t = 2*x3 - Q: (4) *)
  t <- secp256k1_fe_mul t rr_alt;;                      (* t = Ralt*(2*x3 - Q) (1) *)
  t <- secp256k1_fe_add t n;;                           (* t = Ralt*(2*x3 - Q) + M^3*Malt (3) *)
  ry <- secp256k1_fe_negate t 3;;                       (* r->y = Ralt*(Q - 2x3) - M^3*Malt (4) *)
  ry <- secp256k1_fe_normalize_weak ry;;
  rx <- secp256k1_fe_mul_int rx 4;;                     (* r->x = X3 = 4*(Ralt^2-Q) *)
  ry <- secp256k1_fe_mul_int ry 4;;                     (* r->y = Y3 = 4*Ralt*(Q - 2x3) - 4*M^3*Malt (4) *)
  (* In case a->infinity == 1, replace r with (b->x, b->y, 1). *)
  let rx := secp256k1_fe_cmov rx (ge_x b) a_infinity in
  let ry := secp256k1_fe_cmov ry (ge_y b) a_infinity in
  let rz := secp256k1_fe_cmov rz fe_1 a_infinity in
  ret (mk_gej rx ry rz (negb (infinity =? 0))).

Definition secp256k1_gej_rescale (r : secp256k1_gej) (s : secp256k1_fe) : checked secp256k1_gej :=
  s0 <- secp256k1_fe_is_zero s;;
  VERIFY_CHECK (negb s0);;
  zz <- secp256k1_fe_sqr s;;
  x <- secp256k1_fe_mul (gej_x r) zz;;                  (* r->x *= s^2 *)
  y <- secp256k1_fe_mul (gej_y r) zz;;
  y <- secp256k1_fe_mul y s;;                           (* r->y *= s^3 *)
  z <- secp256k1_fe_mul (gej_z r) s;;                   (* r->z *= s   *)
  ret (mk_gej x y z (gej_infinity r)).

Definition secp256k1_ge_to_storage (a : secp256k1_ge) : checked secp256k1_ge_storage :=
  VERIFY_CHECK (negb (ge_infinity a));;
  x <- secp256k1_fe_normalize (ge_x a);;
  y <- secp256k1_fe_normalize (ge_y a);;
  sx <- secp256k1_fe_to_storage x;;
  sy <- secp256k1_fe_to_storage y;;
  ret (mk_ge_storage sx sy).

Definition secp256k1_ge_from_storage (a : secp256k1_ge_storage) : secp256k1_ge :=
  mk_ge (secp256k1_fe_from_storage (ges_x a)) (secp256k1_fe_from_storage (ges_y a)) false.

Definition secp256k1_ge_storage_cmov (r a : secp256k1_ge_storage) (flag : Z) : secp256k1_ge_storage :=
  mk_ge_storage (secp256k1_fe_storage_cmov (ges_x r) (ges_x a) flag)
                (secp256k1_fe_storage_cmov (ges_y r) (ges_y a) flag).

(** The endomorphism of the [USE_ENDOMORPHISM] build. *)
Definition secp256k1_ge_mul_lambda (a : secp256k1_ge) : checked secp256k1_ge :=
  let beta := SECP256K1_FE_CONST
    0x7ae96a2b 0x657c0710 0x6e64479e 0xac3434e9 0x9cf04975 0x12f58995 0xc1396c28 0x719501ee in
  x <- secp256k1_fe_mul (ge_x a) beta;;
  ret (mk_ge x (ge_y a) (ge_infinity a)).

Definition secp256k1_gej_has_quad_y_var (a : secp256k1_gej) : checked bool :=
  if gej_infinity a then ret false else
  yz <- secp256k1_fe_mul (gej_y a) (gej_z a);;
  secp256k1_fe_is_quad_var yz.

End Operations.

(** Replaces the result of a test by what it decides. *)
Ltac fe_test :=
  lazymatch goal with
  | |- Returns (if ?b then _ else _) _ => match goal with H : b = _ |- _ => rewrite H; clear H end
  end.

(** ** Points by the point they stand for *)

Section Points.
Context {F : FieldOps} {L : FieldLaws F}.

(** Coordinates of magnitude at most 8. *)
Definition gej_coords (a : secp256k1_gej) (X Y Z : Fp) : Prop :=
  fe_ok (gej_x a) 8 X /\ fe_ok (gej_y a) 8 Y /\ fe_ok (gej_z a) 8 Z.

Definition gej_wf (a : secp256k1_gej) : Prop := exists X Y Z, gej_coords a X Y Z.

Definition gej_ok (a : secp256k1_gej) (P : point) : Prop :=
  exists X Y Z, gej_coords a X Y Z /\
    if gej_infinity a then P = Infinity else Z <> Zmod.zero /\ P = jacobian X Y Z.

Definition ge_ok (a : secp256k1_ge) (P : point) : Prop :=
  exists X Y, fe_ok (ge_x a) 8 X /\ fe_ok (ge_y a) 8 Y /\ P = if ge_infinity a then Infinity else Affine X Y.

(** [rzr], when asked for, is the ratio of the [z] coordinates of a finite result
    and the first argument. *)
Definition zratio_ok (a r : secp256k1_gej) (rzr rzr' : option secp256k1_fe) : Prop :=
  match rzr, rzr' with
  | None, None => True
  | Some _, Some z => exists v, fe_ok z 8 v /\
      (gej_infinity r = false -> forall Z, fe_ok (gej_z a) 8 Z -> fe_ok (gej_z r) 8 (Z * v)%Zmod)
  | _, _ => False
  end.

(** The affine argument has the coordinates [bx * bzinv^2] and [by * bzinv^3]. *)
Definition zinv_point (b : secp256k1_ge) (X Y w : Fp) : point :=
  if ge_infinity b then Infinity else Affine (X * (w * w)) (Y * (w * w * w)).

Lemma gej_ok_wf a P : gej_ok a P -> gej_wf a.
Proof. intros (X & Y & Z & H & _). exists X, Y, Z. exact H. Qed.

Lemma gej_ok_intro rx ry rz X Y Z P : fe_ok rx 8 X -> fe_ok ry 8 Y -> fe_ok rz 8 Z ->
  Z <> Zmod.zero -> P = jacobian X Y Z -> gej_ok (mk_gej rx ry rz false) P.
Proof. intros Hx Hy Hz Hnz HP. exists X, Y, Z. split; [split; [|split]; assumption | split; assumption]. Qed.

Lemma gej_ok_infinity r : gej_wf r -> gej_ok (mk_gej (gej_x r) (gej_y r) (gej_z r) true) Infinity.
Proof. intros (X & Y & Z & H). exists X, Y, Z. split; [exact H | reflexivity]. Qed.

(** The group laws hold on every regular curve: no formula reads its constant. *)
Context {cb : Fp} {Hreg : Regular cb}.

Lemma jacobian_y_nonzero X Y Z : on_curve_at cb (jacobian X Y Z) -> Y <> Zmod.zero.
Proof. intros Hc ->. apply on_curve_y_nonzero in Hc. apply Hc. ring. Qed.

Lemma fe_ok_value a m m' v v' : fe_ok a m v -> fe_ok a m' v' -> v = v'.
Proof. intros (_ & _ & H) (_ & _ & H'). congruence. Qed.

Lemma gej_double_var_ok r a P rzr : gej_wf r -> gej_ok a P -> on_curve_at cb P ->
  Returns (secp256k1_gej_double_var r a rzr) (fun '(r', rzr') =>
    gej_ok r' (padd P P) /\ zratio_ok a r' rzr rzr').
Proof.
  intros Hr (X & Y & Z & (Hx & Hy & Hz) & HP) Hc. unfold secp256k1_gej_double_var.
  destruct (gej_infinity a).
  - subst P. apply (Returns_bind _ _ (fun rzr' => zratio_ok a (mk_gej (gej_x r) (gej_y r) (gej_z r) true) rzr rzr')).
    + destruct rzr as [z0|]; [fe_step; apply Returns_ret; eexists; split; [fe_known | discriminate] | exact I].
    + intros rzr' Hz'. apply Returns_ret. split; [apply gej_ok_infinity, Hr | exact Hz'].
  - destruct HP as [HZ ->]. pose proof (jacobian_y_nonzero _ _ _ Hc) as HY.
    assert (toFp 2 <> Zmod.zero) as H2 by (apply toFp_nonzero; reflexivity).
    apply (Returns_bind _ _ (fun rzr' => match rzr, rzr' with
      | None, None => True | Some _, Some z => fe_ok z 2 (toFp 2 * Y)%Zmod | _, _ => False end)).
    { destruct rzr as [z0|]; [|exact I]. fe_steps. apply Returns_ret. fe_value. }
    intros rzr' Hz'. fe_steps. apply Returns_ret. split.
    + eapply gej_ok_intro; [| | | |exact (double_formula X Y Z HY HZ)]; [fe_value | fe_value | fe_value|].
      auto using Fp_mul_nonzero.
    + destruct rzr, rzr'; try contradiction; try exact I. eexists. split; [eapply fe_ok_mono; [exact Hz'|lia]|].
      intros _ Z' HZ'. rewrite (fe_ok_value _ _ _ _ _ HZ' Hz). cbn [gej_z]. fe_value.
Qed.

Lemma eqb_nonzero (v w : Fp) : Zmod.eqb v Zmod.zero = false -> v = w -> w <> Zmod.zero.
Proof. intros H <- E. rewrite E, Zmod.eqb_refl in H. discriminate. Qed.

(** The branches of the addition code where the abscissas agree. *)
Lemma same_x_cases (X1 Y1 Z1 X2 Y2 Z2 h i : Fp) : Z1 <> Zmod.zero -> Z2 <> Zmod.zero ->
  on_curve_at cb (jacobian X1 Y1 Z1) -> on_curve_at cb (jacobian X2 Y2 Z2) ->
  h = (X2 * (Z1 * Z1) - X1 * (Z2 * Z2))%Zmod -> i = (Y2 * (Z1 * Z1 * Z1) - Y1 * (Z2 * Z2 * Z2))%Zmod ->
  Zmod.eqb h Zmod.zero = true ->
  if Zmod.eqb i Zmod.zero then jacobian X1 Y1 Z1 = jacobian X2 Y2 Z2
  else padd (jacobian X1 Y1 Z1) (jacobian X2 Y2 Z2) = Infinity.
Proof.
  intros HZ1 HZ2 H1 H2 -> -> Hx%Zmod.eqb_eq. pose proof (same_x_test X1 Z1 X2 Z2 HZ1 HZ2) as Tx. rewrite Hx, Zmod.eqb_refl in Tx.
  pose proof (same_y_test Y1 Z1 Y2 Z2 HZ1 HZ2) as Ty. unfold jacobian in *. apply Zmod.eqb_eq in Tx.
  rewrite Tx in *. rewrite <- Ty. clear Ty. unfold padd. rewrite Zmod.eqb_refl.
  destruct (Zmod.eqb_spec (Y1 * Zmod.inv (Z1 * Z1 * Z1))%Zmod (Y2 * Zmod.inv (Z2 * Z2 * Z2))%Zmod) as [->|Hy]; [reflexivity|].
  destruct (same_x _ _ _ H1 H2) as [E|E]; [contradiction|]. rewrite E, Zmod.eqb_refl. reflexivity.
Qed.

Lemma gej_add_var_ok r a b P Q rzr : gej_wf r -> gej_ok a P -> gej_ok b Q -> on_curve_at cb P -> on_curve_at cb Q ->
  (gej_infinity a = true -> rzr = None) ->
  Returns (secp256k1_gej_add_var r a b rzr) (fun '(r', rzr') =>
    gej_ok r' (padd P Q) /\ zratio_ok a r' rzr rzr').
Proof.
  intros Hr Ha Hb HcP HcQ Hrzr. pose proof Ha as (X1 & Y1 & Z1 & (Hx1 & Hy1 & Hz1) & HP).
  pose proof Hb as (X2 & Y2 & Z2 & (Hx2 & Hy2 & Hz2) & HQ). unfold secp256k1_gej_add_var.
  destruct (gej_infinity a) eqn:Ia.
  { rewrite Hrzr by reflexivity. subst P. apply Returns_check; [reflexivity|]. apply Returns_ret.
    split; [exact Hb | exact I]. }
  destruct HP as [HZ1 ->]. destruct (gej_infinity b) eqn:Ib.
  { subst Q. apply (Returns_bind _ _ (fun rzr' => zratio_ok a a rzr rzr')).
    - destruct rzr as [z0|]; [|exact I]. fe_step. apply Returns_ret. eexists. split; [fe_known|].
      intros _ Z HZ. cbn [gej_z]. eapply fe_ok_eq; [exact HZ | lia | ring].
    - intros rzr' Hz'. apply Returns_ret. split; [exact Ha | exact Hz']. }
  destruct HQ as [HZ2 ->]. fe_steps.
  fe_test. destruct (Zmod.eqb _ Zmod.zero) eqn:Hh.
  { eapply same_x_cases with (X1 := X1) (Z1 := Z1) (X2 := X2) (Z2 := Z2) in Hh; try eassumption; [|ring|reflexivity].
    fe_step. fe_test.
    replace (_ + _)%Zmod with (Y2 * (Z1 * Z1 * Z1) - Y1 * (Z2 * Z2 * Z2))%Zmod by ring.
    destruct (Zmod.eqb _ Zmod.zero).
    - rewrite <- Hh. apply gej_double_var_ok; assumption.
    - rewrite Hh. apply (Returns_bind _ _ (fun rzr' => zratio_ok a (mk_gej (gej_x r) (gej_y r) (gej_z r) true) rzr rzr')).
      + destruct rzr as [z0|]; [fe_step; apply Returns_ret; eexists; split; [fe_known | discriminate] | exact I].
      + intros rzr' Hz'. apply Returns_ret. split; [apply gej_ok_infinity, Hr | exact Hz']. }
  assert (X2 * (Z1 * Z1) - X1 * (Z2 * Z2) <> Zmod.zero)%Zmod as Hnz by (apply (eqb_nonzero _ _ Hh); ring).
  fe_steps. apply Returns_ret. split.
  - eapply gej_ok_intro; [| | | |exact (chord_formula X1 Y1 Z1 X2 Y2 Z2 _ _ _ _ _ _ _ HZ1 HZ2
      eq_refl eq_refl eq_refl eq_refl eq_refl eq_refl Hnz eq_refl)]; [fe_value | fe_value | fe_value|].
    auto using Fp_mul_nonzero.
  - destruct rzr; [|exact I]. eexists. split; [fe_known|]. intros _ Z HZ.
    rewrite (fe_ok_value _ _ _ _ _ HZ Hz1). cbn [gej_z]. fe_value.
Qed.

(** The same, with an affine second argument. *)
Lemma Affine_jacobian X Y : Affine X Y = jacobian X Y Zmod.one.
Proof.
  unfold jacobian. assert (Zmod.one <> (Zmod.zero : Fp)) by discriminate.
  apply Affine_eq; field; assumption.
Qed.

Lemma gej_set_ge_ok b Q : ge_ok b Q -> Returns (secp256k1_gej_set_ge b) (fun r => gej_ok r Q).
Proof.
  intros (X & Y & Hx & Hy & ->). unfold secp256k1_gej_set_ge. fe_step. apply Returns_ret.
  exists X, Y, Zmod.one. split; [split; [|split]; try assumption; cbn [gej_z]; fe_known|].
  cbn [gej_infinity]. destruct (ge_infinity b); [reflexivity|]. split; [discriminate | apply Affine_jacobian].
Qed.

Lemma gej_add_ge_var_ok r a b P Q rzr : gej_wf r -> gej_ok a P -> ge_ok b Q -> on_curve_at cb P -> on_curve_at cb Q ->
  (gej_infinity a = true -> rzr = None) ->
  Returns (secp256k1_gej_add_ge_var r a b rzr) (fun '(r', rzr') =>
    gej_ok r' (padd P Q) /\ zratio_ok a r' rzr rzr').
Proof.
  intros Hr Ha Hb HcP HcQ Hrzr. pose proof Ha as (X1 & Y1 & Z1 & (Hx1 & Hy1 & Hz1) & HP).
  pose proof Hb as (X2 & Y2 & Hx2 & Hy2 & HQ). unfold secp256k1_gej_add_ge_var.
  destruct (gej_infinity a) eqn:Ia.
  { rewrite Hrzr by reflexivity. subst P. apply Returns_check; [reflexivity|].
    eapply Returns_bind; [exact (gej_set_ge_ok b Q Hb)|]. intros r' Hr'. apply Returns_ret.
    split; [exact Hr' | exact I]. }
  destruct HP as [HZ1 ->]. destruct (ge_infinity b) eqn:Ib.
  { subst Q. apply (Returns_bind _ _ (fun rzr' => zratio_ok a a rzr rzr')).
    - destruct rzr as [z0|]; [|exact I]. fe_step. apply Returns_ret. eexists. split; [fe_known|].
      intros _ Z HZ. cbn [gej_z]. eapply fe_ok_eq; [exact HZ | lia | ring].
    - intros rzr' Hz'. apply Returns_ret. split; [exact Ha | exact Hz']. }
  subst Q. rewrite Affine_jacobian in *. assert (Zmod.one <> (Zmod.zero : Fp)) as HZ2 by discriminate. fe_steps.
  fe_test. destruct (Zmod.eqb _ Zmod.zero) eqn:Hh.
  { eapply same_x_cases with (X1 := X1) (Z1 := Z1) (X2 := X2) (Z2 := Zmod.one) in Hh; try eassumption; [|ring|reflexivity].
    fe_step. fe_test.
    replace (_ + _)%Zmod with (Y2 * (Z1 * Z1 * Z1) - Y1 * (Zmod.one * Zmod.one * Zmod.one))%Zmod by ring.
    destruct (Zmod.eqb _ Zmod.zero).
    - rewrite <- Hh. apply gej_double_var_ok; assumption.
    - rewrite Hh. apply (Returns_bind _ _ (fun rzr' => zratio_ok a (mk_gej (gej_x r) (gej_y r) (gej_z r) true) rzr rzr')).
      + destruct rzr as [z0|]; [fe_step; apply Returns_ret; eexists; split; [fe_known | discriminate] | exact I].
      + intros rzr' Hz'. apply Returns_ret. split; [apply gej_ok_infinity, Hr | exact Hz']. }
  assert (X2 * (Z1 * Z1) - X1 * (Zmod.one * Zmod.one) <> Zmod.zero)%Zmod as Hnz by (apply (eqb_nonzero _ _ Hh); ring).
  fe_steps. apply Returns_ret. split.
  - eapply gej_ok_intro; [| | | |exact (chord_formula X1 Y1 Z1 X2 Y2 Zmod.one _ _ _ _ _ _ _ HZ1 HZ2
      eq_refl eq_refl eq_refl eq_refl eq_refl eq_refl Hnz eq_refl)]; [fe_value | fe_value | fe_value|].
    auto using Fp_mul_nonzero.
  - destruct rzr; [|exact I]. eexists. split; [fe_known|]. intros _ Z HZ.
    rewrite (fe_ok_value _ _ _ _ _ HZ Hz1). cbn [gej_z]. fe_value.
Qed.

Lemma gej_add_zinv_var_ok r a b P bzinv X2 Y2 w : gej_wf r -> gej_ok a P ->
  fe_ok (ge_x b) 8 X2 -> fe_ok (ge_y b) 8 Y2 -> fe_ok bzinv 8 w ->
  on_curve_at cb P -> on_curve_at cb (zinv_point b X2 Y2 w) ->
  Returns (secp256k1_gej_add_zinv_var r a b bzinv) (fun r' => gej_ok r' (padd P (zinv_point b X2 Y2 w))).
Proof.
  intros Hr Ha Hx2 Hy2 Hw HcP HcQ. pose proof Ha as (X1 & Y1 & Z1 & (Hx1 & Hy1 & Hz1) & HP).
  unfold secp256k1_gej_add_zinv_var, zinv_point in *. destruct (ge_infinity b).
  { apply Returns_ret. destruct P; exact Ha. }
  rewrite Affine_jacobian in *. assert (Zmod.one <> (Zmod.zero : Fp)) as HZ2 by discriminate.
  destruct (gej_infinity a) eqn:Ia.
  { subst P. fe_steps. apply Returns_ret. eapply gej_ok_intro; [| | | |reflexivity]; [fe_value | fe_value | fe_value | exact HZ2]. }
  destruct HP as [HZ1 ->]. fe_steps. fe_test. destruct (Zmod.eqb _ Zmod.zero) eqn:Hh.
  { eapply same_x_cases with (X1 := X1) (Z1 := Z1) (X2 := (X2 * (w * w))%Zmod) (Z2 := Zmod.one) in Hh;
      try eassumption; [|ring|reflexivity].
    fe_step. fe_test.
    replace (_ + _)%Zmod with (Y2 * (w * w * w) * (Z1 * Z1 * Z1) - Y1 * (Zmod.one * Zmod.one * Zmod.one))%Zmod by ring.
    destruct (Zmod.eqb _ Zmod.zero).
    - rewrite <- Hh. eapply Returns_bind; [apply gej_double_var_ok with (P := jacobian X1 Y1 Z1); assumption|].
      intros [r' z'] [Hr' _]. apply Returns_ret. exact Hr'.
    - rewrite Hh. apply Returns_ret. apply gej_ok_infinity, Hr. }
  assert (X2 * (w * w) * (Z1 * Z1) - X1 * (Zmod.one * Zmod.one) <> Zmod.zero)%Zmod as Hnz by (apply (eqb_nonzero _ _ Hh); ring).
  fe_steps. apply Returns_ret.
  eapply gej_ok_intro; [| | | |exact (chord_formula X1 Y1 Z1 _ _ Zmod.one _ _ _ _ _ _ _ HZ1 HZ2
      eq_refl eq_refl eq_refl eq_refl eq_refl eq_refl Hnz eq_refl)]; [fe_value | fe_value | fe_value|].
  auto using Fp_mul_nonzero.
Qed.

Lemma fe_1_norm : fe_norm (SECP256K1_FE_CONST 0 0 0 0 0 0 0 1) (toFp 1).
Proof. apply (FE_CONST_norm 0 0 0 0 0 0 0 1); vm_compute; try split; congruence. Qed.

Lemma b2z_nonzero b : negb (Z.b2z b =? 0) = b.
Proof. destruct b; reflexivity. Qed.

Lemma gej_add_ge_ok a b P Q : gej_ok a P -> ge_ok b Q -> ge_infinity b = false -> on_curve_at cb P -> on_curve_at cb Q ->
  Returns (secp256k1_gej_add_ge a b) (fun r => gej_ok r (padd P Q)).
Proof.
  intros (X1 & Y1 & Z1 & (Hx1 & Hy1 & Hz1) & HP) (x2 & y2 & Hx2 & Hy2 & HQ) Ib HcP HcQ.
  unfold secp256k1_gej_add_ge. rewrite Ib in *. apply Returns_check; [reflexivity|].
  pose proof fe_1_norm as H1.
  cbv zeta. apply Returns_check; [destruct (gej_infinity a); reflexivity|]. do 16 fe_step.
  match goal with |- context [Z.land (Z.b2z ?m) (Z.b2z ?r)] => set (dg := m && r);
    replace (Z.land (Z.b2z m) (Z.b2z r)) with (Z.b2z dg) by (unfold dg; destruct m, r; reflexivity) end.
  replace (Z.b2z (Z.b2z dg =? 0)) with (Z.b2z (negb dg)) by (destruct dg; reflexivity).
  match goal with Hr : fe_ok ?r 2 (Y1 * toFp 2)%Zmod, Hm : fe_ok ?m 3 _ |- _ =>
    pose proof (fe_cmov_bool r r10 _ _ _ _ (negb dg) Hr H11) as HR;
    pose proof (fe_cmov_bool m r6 _ _ _ _ (negb dg) Hm H7) as HM end.
  remember (if negb dg then _ else (Y1 * toFp 2)%Zmod) as R eqn:ER.
  remember (if negb dg then _ else (- _ + X1)%Zmod) as M eqn:EM.
  do 3 fe_step.
  match goal with Hn : fe_ok ?n 1 (M * M * (M * M))%Zmod |- _ =>
    pose proof (fe_cmov_bool n r6 _ _ _ _ dg Hn H7) as HN end.
  remember (if dg then _ else (M * M * (M * M))%Zmod) as N eqn:EN.
  fe_steps. match goal with H : ?r = Zmod.eqb _ _ |- context [Z.b2z ?r * _] => rename H into Hinf end.
  match goal with |- Returns (ret (mk_gej (secp256k1_fe_cmov ?x _ _) (secp256k1_fe_cmov ?y _ _) (secp256k1_fe_cmov ?z _ _) _)) _ =>
    match goal with Hx : fe_ok x _ _, Hy : fe_ok y _ _, Hz : fe_ok z _ _ |- _ =>
    pose proof (fe_cmov_bool _ _ _ _ _ _ (gej_infinity a) Hx Hx2) as Hrx;
    pose proof (fe_cmov_bool _ _ _ _ _ _ (gej_infinity a) Hy Hy2) as Hry;
    pose proof (fe_cmov_bool _ _ _ _ _ _ (gej_infinity a) Hz (fe_norm_ok _ _ H1)) as Hrz end end.
  apply Returns_ret. eexists _, _, _. split; [split; [|split]; eapply fe_ok_mono; [exact Hrx | cbn; lia | exact Hry | cbn; lia | exact Hrz | cbn; lia]|].
  cbn [gej_infinity]. clear - Hinf HP HQ Hreg HcP HcQ ER EM EN H12 H13. destruct (gej_infinity a).
  { subst P Q. rewrite Z.mul_0_r. cbn [negb Z.eqb]. split; [apply toFp_nonzero; reflexivity|]. symmetry.
    rewrite Affine_jacobian. reflexivity. }
  destruct HP as [HZ1 ->]. subst Q. rewrite Z.mul_1_r, b2z_nonzero.
  assert (toFp 2 <> Zmod.zero) as Hd2 by (apply toFp_nonzero; reflexivity).
  rewrite (unified_addition X1 Y1 Z1 x2 y2 (Y1 + y2 * (Z1 * Z1) * Z1)
    ((X1 + x2 * (Z1 * Z1)) * (X1 + x2 * (Z1 * Z1)) + X1 * - (x2 * (Z1 * Z1))) dg M R N
    (M * M * (X1 + x2 * (Z1 * Z1))) HZ1 HcP HcQ).
  - rewrite Hinf. destruct (Zmod.eqb_spec (Z1 * M) Zmod.zero) as [|Hnz]; [reflexivity|].
    split; [auto using Fp_mul_nonzero|]. f_equal; ring.
  - ring.
  - ring.
  - unfold dg. rewrite H12, H13. reflexivity.
  - rewrite EM. destruct dg; cbn [negb]; ring.
  - rewrite ER. destruct dg; reflexivity.
  - exact EN.
  - reflexivity.
Qed.
End Points.
