(* ===== verification/GroupConv.v ===== *)
(** * Group elements: conversions, tables, storage and membership

    What the operations of [Group] other than the additions compute: normalisation
    of Jacobian coordinates (one point, a batch, a table with known [z] ratios),
    negation, points from their abscissa, membership tests, storage. *)

From Stdlib Require Import ZArith Lia List Bool.
From S2P Require Import Prelude Modulus Bytes Field FieldImpl Curve Group.
Import ListNotations.

#[local] Open Scope Z_scope.
#[local] Open Scope checked_scope.

(** ** Statements *)

Section Statements.
Context {F : FieldOps} {L : FieldLaws F}.

Definition ge_wf (a : secp256k1_ge) : Prop :=
  exists X Y, fe_ok (ge_x a) 8 X /\ fe_ok (ge_y a) 8 Y.

(** The point an affine element of a table scaled to a common [z] stands for. *)
Definition ge_scaled_ok (a : secp256k1_ge) (Z : Fp) (P : point) : Prop :=
  exists X Y, fe_ok (ge_x a) 8 X /\ fe_ok (ge_y a) 8 Y /\ ge_infinity a = false /\ P = jacobian X Y Z.

Definition ge_storage_ok (s : secp256k1_ge_storage) (P : point) : Prop :=
  exists X Y, storage_ok (ges_x s) X /\ storage_ok (ges_y s) Y /\ P = Affine X Y.

(** [zi] is the inverse of [z]. *)
Definition inverse_of (z zi : secp256k1_fe) : Prop := forall v, fe_ok z 8 v -> fe_ok zi 8 (Zmod.inv v).

(** A table of finite points with the [z] coordinates [Z], and of the ratios of
    successive [z] coordinates (the first ratio is not used).  Only the last entry
    holds its [z] coordinate. *)
Record table_ok (a : list secp256k1_gej) (zr : list secp256k1_fe) (len : nat) (Z : nat -> Fp) (P : nat -> point) : Prop := {
  table_point i : (i < len)%nat -> exists X Y, fe_ok (gej_x (nth i a secp256k1_gej_clear)) 8 X /\
    fe_ok (gej_y (nth i a secp256k1_gej_clear)) 8 Y /\
    gej_infinity (nth i a secp256k1_gej_clear) = false /\ Z i <> Zmod.zero /\ P i = jacobian X Y (Z i);
  table_z : (0 < len)%nat -> fe_ok (gej_z (nth (len - 1) a secp256k1_gej_clear)) 8 (Z (len - 1)%nat);
  table_ratio i : (S i < len)%nat -> exists v, fe_ok (nth (S i) zr secp256k1_fe_clear) 8 v /\ Z (S i) = (Z i * v)%Zmod
}.

(** The factor that scales entry [i] of the table to the [z] of the last one. *)
Definition scale_to_last (Z : nat -> Fp) (len i : nat) (zs : secp256k1_fe) : Prop :=
  exists w, fe_ok zs 8 w /\ w <> Zmod.zero /\ Z (len - 1)%nat = (Z i * w)%Zmod.

End Statements.

(** The endomorphism on points. *)
Definition beta : Fp := toFp 0x7ae96a2b657c07106e64479eac3434e99cf0497512f58995c1396c28719501ee.

Definition plambda (P : point) : point :=
  match P with
  | Infinity => Infinity
  | Affine x y => Affine (x * beta)%Zmod y
  end.

(** ** Squares *)

Lemma is_square_scale (v s : Fp) : s <> Zmod.zero -> is_square (v * (s * s))%Zmod <-> is_square v.
Proof.
  intros Hs. split; intros [r Hr].
  - exists (r * Zmod.inv s)%Zmod. transitivity (r * r * (Zmod.inv s * Zmod.inv s))%Zmod; [ring|].
    rewrite Hr. field. exact Hs.
  - exists (r * s)%Zmod. rewrite <- Hr. ring.
Qed.

Lemma opp_parity (y : Fp) : y <> Zmod.zero -> Z.odd (Zmod.to_Z (- y)%Zmod) = negb (Z.odd (Zmod.to_Z y)).
Proof.
  intros Hy. pose proof (Fp_range y). assert (Zmod.to_Z y <> 0) as Hnz.
  { intros E. apply Hy. rewrite <- (toFp_to_Z y), E. reflexivity. }
  assert (Zmod.to_Z (- y)%Zmod = p - Zmod.to_Z y) as ->.
  { rewrite Zmod.to_Z_opp. replace (- Zmod.to_Z y) with (p - Zmod.to_Z y + (-1) * p) by ring.
    rewrite Z.mod_add by discriminate. apply Z.mod_small. lia. }
  rewrite Z.odd_sub. change (Z.odd p) with true. destruct (Z.odd (Zmod.to_Z y)); reflexivity.
Qed.

Lemma beta_cubed : (beta * beta * beta)%Zmod = toFp 1.
Proof.
  unfold beta. rewrite <- !toFp_mul. apply toFp_eq. vm_compute. reflexivity.
Qed.

Lemma plambda_on_curve P : on_curve P -> on_curve (plambda P).
Proof.
  destruct P as [|x y]; [trivial|]. cbn [on_curve_at plambda]. intros ->.
  transitivity (x * x * x * (beta * beta * beta) + toFp 7)%Zmod; [rewrite beta_cubed; ring | ring].
Qed.

(** ** Normalising coordinates *)

Section Conversions.
Context {F : FieldOps} {L : FieldLaws F}.

Lemma ge_set_gej_zinv_ok a zi X Y w : fe_ok (gej_x a) 8 X -> fe_ok (gej_y a) 8 Y -> fe_ok zi 8 w ->
  Returns (secp256k1_ge_set_gej_zinv a zi) (fun r =>
    fe_ok (ge_x r) 1 (X * (w * w))%Zmod /\ fe_ok (ge_y r) 1 (Y * (w * w * w))%Zmod /\ ge_infinity r = gej_infinity a).
Proof.
  intros Hx Hy Hw. unfold secp256k1_ge_set_gej_zinv. fe_steps. apply Returns_ret.
  split; [fe_known|]. split; [fe_value | reflexivity].
Qed.

(** With the inverse of [z], the result is the same point. *)
Lemma ge_set_gej_zinv_point a zi P Z : gej_ok a P -> fe_ok (gej_z a) 8 Z -> fe_ok zi 8 (Zmod.inv Z) ->
  Returns (secp256k1_ge_set_gej_zinv a zi) (fun r => ge_ok r P).
Proof.
  intros (X & Y & Z' & Hc & HP) HZ Hw. eapply Returns_mono; [exact (ge_set_gej_zinv_ok a zi X Y _ (proj1 Hc) (proj1 (proj2 Hc)) Hw)|].
  intros r (Hx & Hy & Hi). exists (X * (Zmod.inv Z * Zmod.inv Z))%Zmod, (Y * (Zmod.inv Z * Zmod.inv Z * Zmod.inv Z))%Zmod.
  split; [fe_known|]. split; [fe_known|]. rewrite Hi. destruct (gej_infinity a); [exact HP|].
  destruct HP as [Hnz ->]. destruct Hc as (_ & _ & HZ'). rewrite (fe_ok_value _ _ _ _ _ HZ' HZ) in *.
  unfold jacobian. apply Affine_eq; field; exact Hnz.
Qed.

Lemma ge_set_gej_ok a P : gej_ok a P ->
  Returns (secp256k1_ge_set_gej a) (fun '(r, a') => ge_ok r P /\ gej_ok a' P).
Proof.
  intros (X & Y & Z & (Hx & Hy & Hz) & HP). unfold secp256k1_ge_set_gej. fe_steps. apply Returns_ret.
  assert (ge_ok (mk_ge r2 r3 (gej_infinity a)) P) as Hr.
  { eexists _, _. split; [fe_known|]. split; [fe_known|]. cbn [ge_infinity]. destruct (gej_infinity a); [exact HP|].
    destruct HP as [Hnz ->]. unfold jacobian. apply Affine_eq; field; exact Hnz. }
  split; [exact Hr|]. eexists _, _, _. split; [split; [|split]; fe_known|]. cbn [gej_infinity].
  destruct Hr as (x & y & Hvx & Hvy & Hr). cbn [ge_infinity ge_x ge_y] in *. destruct (gej_infinity a); [exact Hr|].
  split; [apply toFp_nonzero; reflexivity|]. change (toFp 1) with (Zmod.one : Fp). rewrite <- Affine_jacobian, Hr.
  apply Affine_eq; eapply fe_ok_value; eassumption.
Qed.

Lemma ge_set_gej_var_ok r a P : ge_wf r -> gej_ok a P ->
  Returns (secp256k1_ge_set_gej_var r a) (fun '(r, a') => ge_ok r P /\ gej_ok a' P).
Proof.
  intros (X & Y & HX & HY) Ha. unfold secp256k1_ge_set_gej_var. destruct (gej_infinity a) eqn:Ia.
  - apply Returns_ret. split; [|exact Ha]. destruct Ha as (X' & Y' & Z' & _ & HP). rewrite Ia in HP.
    exists X, Y. auto.
  - rewrite <- Ia. exact (ge_set_gej_ok a P Ha).
Qed.

(** ** A batch of points, with one inversion *)

Lemma finite_z_ok a Ps : Forall2 gej_ok a Ps ->
  Forall (fun z => exists v, fe_ok z 8 v /\ v <> Zmod.zero) (map gej_z (filter (fun ai => negb (gej_infinity ai)) a)).
Proof.
  induction 1 as [|ai P a' Ps' (X & Y & Z & (_ & _ & HZ) & HP) _ IH]; cbn [filter map]; [constructor|].
  destruct (gej_infinity ai); cbn [negb map]; [exact IH|]. constructor; [|exact IH]. exists Z. tauto.
Qed.

Lemma inv_all_list az azi0 : Forall (fun z => exists v, fe_ok z 8 v /\ v <> Zmod.zero) az ->
  length azi0 = length az ->
  Returns (secp256k1_fe_inv_all_var azi0 az (length az)) (fun azi => Forall2 inverse_of az azi).
Proof.
  intros Haz Hlen. rewrite Forall_forall in Haz.
  assert (forall i, (i < length az)%nat -> exists v, fe_ok (nth i az secp256k1_fe_clear) 8 v /\ v <> Zmod.zero) as Hv
    by (intros i Hi; apply Haz, nth_In, Hi).
  eapply Returns_mono; [apply (fe_inv_all_var_ok _ az (fun i => toFp (fe_Z (nth i az secp256k1_fe_clear))))|].
  - intros i Hi. destruct (Hv i Hi) as (v & (Hw & Hm & E) & _). split; [exact Hw|]. auto.
  - intros i Hi. destruct (Hv i Hi) as (v & (_ & _ & E) & Hnz). rewrite E. exact Hnz.
  - lia.
  - intros azi [Hl Hazi]. apply (Forall2_of_nth _ _ _ secp256k1_fe_clear secp256k1_fe_clear); [lia|].
    intros i Hi v (_ & _ & E). rewrite <- E. apply (fe_ok_mono _ 1); [apply Hazi, Hi | lia].
Qed.

Lemma set_all_loop_ok a Ps : Forall2 gej_ok a Ps -> forall r azi, length r = length a -> Forall ge_wf r ->
  Forall2 inverse_of (map gej_z (filter (fun ai => negb (gej_infinity ai)) a)) azi ->
  Returns (set_all_loop r a azi) (fun r' => Forall2 ge_ok r' Ps).
Proof.
  induction 1 as [|ai P a' Ps' Ha _ IH]; intros [|ri r'] azi Hl Hr Hazi; try discriminate; cbn [set_all_loop].
  { apply Returns_ret. constructor. }
  injection Hl as Hl. inversion_clear Hr as [|? ? Hri Hr']. cbn [filter] in Hazi.
  pose proof Ha as (X & Y & Z & (_ & _ & HZ) & HP). destruct (gej_infinity ai) eqn:Ia; cbn [negb map] in Hazi.
  - eapply Returns_bind; [apply (IH r' azi Hl Hr' Hazi)|]. intros rest Hrest. apply Returns_ret.
    constructor; [|exact Hrest]. destruct Hri as (x & y & Hx & Hy). exists x, y. auto.
  - inversion_clear Hazi as [|? zi ? azi' Hzi Hazi']. cbn [hd tl].
    eapply Returns_bind; [exact (ge_set_gej_zinv_point ai zi P Z Ha HZ (Hzi Z HZ))|]. intros q Hq.
    eapply Returns_bind; [apply (IH r' azi' Hl Hr' Hazi')|]. intros rest Hrest. apply Returns_ret.
    constructor; assumption.
Qed.

Lemma ge_set_all_gej_var_ok azi0 r a Ps : Forall2 gej_ok a Ps -> length r = length a -> Forall ge_wf r ->
  length azi0 = length (filter (fun ai => negb (gej_infinity ai)) a) ->
  Returns (secp256k1_ge_set_all_gej_var azi0 r a) (fun r' => Forall2 ge_ok r' Ps).
Proof.
  intros Ha Hl Hr Hazi0. unfold secp256k1_ge_set_all_gej_var.
  eapply Returns_bind; [apply inv_all_list; [exact (finite_z_ok a Ps Ha) | rewrite length_map; exact Hazi0]|].
  intros azi Hazi. exact (set_all_loop_ok a Ps Ha r azi Hl Hr Hazi).
Qed.

(** ** Tables with known ratios of the [z] coordinates *)

Lemma table_entry_ok a zr len Z P i zi : table_ok a zr len Z P -> (i < len)%nat -> fe_ok zi 8 (Zmod.inv (Z i)) ->
  Returns (secp256k1_ge_set_gej_zinv (nth i a secp256k1_gej_clear) zi) (fun r => ge_ok r (P i)).
Proof.
  intros T Hi Hzi. destruct (table_point _ _ _ _ _ T i Hi) as (X & Y & Hx & Hy & Ii & Hnz & ->).
  eapply Returns_mono; [exact (ge_set_gej_zinv_ok _ zi X Y _ Hx Hy Hzi)|]. intros r (Hx' & Hy' & Ir).
  eexists _, _. split; [fe_known|]. split; [fe_known|]. rewrite Ir, Ii. unfold jacobian. apply Affine_eq; field; exact Hnz.
Qed.

Lemma table_z_nonzero a zr len Z P i : table_ok a zr len Z P -> (i < len)%nat -> Z i <> Zmod.zero.
Proof. intros T Hi. destruct (table_point _ _ _ _ _ T i Hi) as (X & Y & _ & _ & _ & Hnz & _). exact Hnz. Qed.

Lemma table_loop_ok a zr len Z P : table_ok a zr len Z P -> forall i zi r, (i < len)%nat -> (len <= length r)%nat ->
  fe_ok zi 8 (Zmod.inv (Z i)) -> (forall j, (i <= j < len)%nat -> ge_ok (nth j r secp256k1_ge_clear) (P j)) ->
  Returns (set_table_loop i zi r a zr) (fun r' => length r' = length r /\
    forall j, (j < len)%nat -> ge_ok (nth j r' secp256k1_ge_clear) (P j)).
Proof.
  intros T. induction i as [|i IH]; intros zi r Hi Hl Hzi Hr; cbn [set_table_loop].
  { apply Returns_ret. split; [reflexivity|]. intros j Hj. apply Hr. lia. }
  destruct (table_ratio _ _ _ _ _ T i Hi) as (v & Hv & E).
  pose proof (table_z_nonzero _ _ _ _ _ i T ltac:(lia)) as Hnz. pose proof (table_z_nonzero _ _ _ _ _ (S i) T ltac:(lia)) as Hnz'.
  assert (v <> Zmod.zero) as Hvz by (intros ->; apply Hnz'; rewrite E; ring).
  eapply Returns_bind; [eapply fe_mul_ok; [exact Hzi | exact Hv | lia | lia]|]. intros zi' Hzi'.
  assert (fe_ok zi' 8 (Zmod.inv (Z i))) as Hzi2 by (eapply fe_ok_eq; [exact Hzi' | lia | rewrite E; field; auto]).
  eapply Returns_bind; [exact (table_entry_ok _ _ _ _ _ i zi' T ltac:(lia) Hzi2)|]. intros q Hq.
  eapply Returns_mono; [apply (IH zi' (upd r i q)); [lia | rewrite length_upd; lia | exact Hzi2|]|].
  - intros j Hj. rewrite nth_upd by lia. destruct (Nat.eqb_spec j i) as [->|]; [exact Hq | apply Hr; lia].
  - intros r' [Hl' Hr']. rewrite length_upd in Hl'. auto.
Qed.

Lemma ge_set_table_gej_var_ok a zr len Z P r : table_ok a zr len Z P -> (len <= length r)%nat ->
  Returns (secp256k1_ge_set_table_gej_var r a zr len) (fun r' => length r' = length r /\
    forall j, (j < len)%nat -> ge_ok (nth j r' secp256k1_ge_clear) (P j)).
Proof.
  intros T Hl. destruct len as [|i]; cbn [secp256k1_ge_set_table_gej_var].
  { apply Returns_ret. split; [reflexivity|]. intros j Hj. lia. }
  fold secp256k1_gej_clear. pose proof (table_z _ _ _ _ _ T ltac:(lia)) as Hz. replace (S i - 1)%nat with i in Hz by lia.
  eapply Returns_bind; [exact (fe_inv_ok _ _ Hz)|]. intros zi Hzi.
  assert (fe_ok zi 8 (Zmod.inv (Z i))) as Hzi2 by exact (fe_ok_mono _ 1 8 _ Hzi ltac:(lia)).
  eapply Returns_bind; [exact (table_entry_ok _ _ _ _ _ i zi T ltac:(lia) Hzi2)|]. intros q Hq.
  eapply Returns_mono; [apply (table_loop_ok a zr (S i) Z P T i zi (upd r i q)); [lia | rewrite length_upd; lia | exact Hzi2|]|].
  - intros j Hj. rewrite nth_upd by lia. replace j with i by lia. rewrite Nat.eqb_refl. exact Hq.
  - intros r' [Hl' Hr']. rewrite length_upd in Hl'. auto.
Qed.

(** Scaling by [zs = Z / Zi] gives coordinates for the common [z]. *)
Lemma scaled_point a zr len Z P i zs w g : table_ok a zr len Z P -> (i < len)%nat ->
  fe_ok zs 8 w -> w <> Zmod.zero -> g = (Z i * w)%Zmod ->
  Returns (secp256k1_ge_set_gej_zinv (nth i a secp256k1_gej_clear) zs) (fun r => ge_scaled_ok r g (P i)).
Proof.
  intros T Hi Hw Hwz ->. destruct (table_point _ _ _ _ _ T i Hi) as (X & Y & Hcx & Hcy & Ii & Hnz & ->).
  eapply Returns_mono; [exact (ge_set_gej_zinv_ok _ zs X Y w Hcx Hcy Hw)|]. intros r (Hx & Hy & Hf).
  eexists _, _. split; [fe_known|]. split; [fe_known|]. split; [congruence|].
  unfold jacobian. apply Affine_eq; field; auto.
Qed.

Lemma globalz_loop_ok a zr len Z P : table_ok a zr len Z P -> forall i zs r, (i < len)%nat -> (len <= length r)%nat ->
  (S i = len -> forall j, i = S j -> scale_to_last Z len j zs) -> ((S i < len)%nat -> scale_to_last Z len i zs) ->
  (forall j, (i <= j < len)%nat -> ge_scaled_ok (nth j r secp256k1_ge_clear) (Z (len - 1)%nat) (P j)) ->
  Returns (globalz_loop i len zs r a zr) (fun r' => length r' = length r /\
    forall j, (j < len)%nat -> ge_scaled_ok (nth j r' secp256k1_ge_clear) (Z (len - 1)%nat) (P j)).
Proof.
  intros T. induction i as [|i IH]; intros zs r Hi Hl Hlast Hmid Hr; cbn [globalz_loop].
  { apply Returns_ret. split; [reflexivity|]. intros j Hj. apply Hr. lia. }
  eapply Returns_bind with (P := scale_to_last Z len i).
  { destruct (Nat.eqb_spec (S i) (len - 1)) as [E|E].
    - apply Returns_ret. apply Hlast; lia.
    - destruct Hmid as (w & Hw & Hwz & HZ); [lia|]. destruct (table_ratio _ _ _ _ _ T i Hi) as (v & Hv & HE).
      pose proof (table_z_nonzero _ _ _ _ _ (S i) T ltac:(lia)) as Hnz'.
      assert (v <> Zmod.zero) as Hvz by (intros ->; apply Hnz'; rewrite HE; ring).
      eapply Returns_mono; [eapply fe_mul_ok; [exact Hw | exact Hv | lia | lia]|]. intros zs' Hzs'.
      exists (w * v)%Zmod. split; [exact (fe_ok_mono _ 1 8 _ Hzs' ltac:(lia))|].
      split; [auto using Fp_mul_nonzero | rewrite HZ, HE; ring]. }
  intros zs' (w & Hw & Hwz & HZ).
  eapply Returns_bind; [exact (scaled_point _ _ _ _ _ i zs' w _ T ltac:(lia) Hw Hwz HZ)|]. intros q Hq.
  eapply Returns_mono; [apply (IH zs' (upd r i q)); [lia | rewrite length_upd; lia | lia | exists w; auto|]|].
  - intros j Hj. rewrite nth_upd by lia. destruct (Nat.eqb_spec j i) as [->|]; [exact Hq | apply Hr; lia].
  - intros r' [Hl' Hr']. rewrite length_upd in Hl'. auto.
Qed.

Lemma ge_globalz_set_table_gej_ok a zr len Z P r g : table_ok a zr len Z P -> (0 < len <= length r)%nat ->
  Returns (secp256k1_ge_globalz_set_table_gej len r g a zr) (fun '(r', g') => length r' = length r /\
    fe_ok g' 8 (Z (len - 1)%nat) /\ Z (len - 1)%nat <> Zmod.zero /\
    forall j, (j < len)%nat -> ge_scaled_ok (nth j r' secp256k1_ge_clear) (Z (len - 1)%nat) (P j)).
Proof.
  intros T Hl. destruct len as [|i]; [lia|]. cbn [secp256k1_ge_globalz_set_table_gej]. fold secp256k1_gej_clear.
  destruct (table_point _ _ _ _ _ T i) as (X & Y & Hx & Hy & Ii & Hnz & HP); [lia|].
  pose proof (table_z _ _ _ _ _ T ltac:(lia)) as Hz. replace (S i - 1)%nat with i in Hz by lia.
  set (r1 := upd r i _). assert (length r1 = length r) as Hl1 by apply length_upd.
  eapply Returns_bind; [apply (globalz_loop_ok a zr (S i) Z P T i _ r1)|]; [lia | lia | | lia | |].
  - intros _ j ->. destruct (table_ratio _ _ _ _ _ T j) as (v & Hv & HE); [lia|]. exists v. split; [exact Hv|].
    split; [intros ->; apply Hnz; rewrite HE; ring|]. rewrite <- HE. reflexivity.
  - intros j Hj. replace j with i by lia. unfold r1. rewrite nth_upd, Nat.eqb_refl by lia.
    exists X, Y. replace (S i - 1)%nat with i by lia. auto.
  - intros r' [Hl' Hr']. apply Returns_ret. rewrite Hl', Hl1. replace (S i - 1)%nat with i in * by lia. auto.
Qed.

(** ** Negation, rescaling, equality of abscissas *)

Lemma ge_neg_ok a P : ge_ok a P -> Returns (secp256k1_ge_neg a) (fun r => ge_ok r (popp P)).
Proof.
  intros (X & Y & Hx & Hy & ->). unfold secp256k1_ge_neg. fe_steps. apply Returns_ret.
  exists X, (- Y)%Zmod. split; [exact Hx|]. split; [fe_known|]. cbn [ge_infinity]. destruct (ge_infinity a); reflexivity.
Qed.

Lemma popp_jacobian X Y Z : popp (jacobian X Y Z) = jacobian X (- Y) Z.
Proof. unfold jacobian. apply Affine_eq; ring. Qed.

Lemma gej_neg_ok a P : gej_ok a P -> Returns (secp256k1_gej_neg a) (fun r => gej_ok r (popp P)).
Proof.
  intros (X & Y & Z & (Hx & Hy & Hz) & HP). unfold secp256k1_gej_neg. fe_steps. apply Returns_ret.
  exists X, (- Y)%Zmod, Z. split; [split; [exact Hx | split; [fe_known | exact Hz]]|]. cbn [gej_infinity].
  destruct (gej_infinity a); [subst P; reflexivity|]. destruct HP as [Hnz ->]. auto using popp_jacobian.
Qed.

Lemma gej_rescale_ok r s P v : gej_ok r P -> fe_norm s v -> v <> Zmod.zero ->
  Returns (secp256k1_gej_rescale r s) (fun r' => gej_ok r' P /\
    forall Z, fe_ok (gej_z r) 8 Z -> fe_ok (gej_z r') 1 (Z * v)%Zmod).
Proof.
  intros (X & Y & Z & (Hx & Hy & Hz) & HP) Hs Hv. unfold secp256k1_gej_rescale. fe_step. subst.
  apply Returns_check; [destruct (Zmod.eqb_spec v Zmod.zero); [contradiction | reflexivity]|].
  fe_steps. apply Returns_ret. split.
  - eexists _, _, _. split; [split; [|split]; fe_known|]. cbn [gej_infinity]. destruct (gej_infinity r); [exact HP|].
    destruct HP as [Hnz ->]. split; [auto using Fp_mul_nonzero|]. unfold jacobian. apply Affine_eq; field; auto.
  - intros Z' HZ'. rewrite (fe_ok_value _ _ _ _ _ HZ' Hz). assumption.
Qed.

Lemma gej_eq_x_var_ok x a P v : fe_ok x 8 v -> gej_ok a P -> gej_infinity a = false ->
  Returns (secp256k1_gej_eq_x_var x a) (fun b => b = true <-> exists y, P = Affine v y).
Proof.
  intros Hv (X & Y & Z & (Hx & Hy & Hz) & HP) Ia. rewrite Ia in HP. destruct HP as [Hnz ->].
  unfold secp256k1_gej_eq_x_var. rewrite Ia. apply Returns_check; [reflexivity|]. fe_steps.
  eapply Returns_mono; [eapply fe_equal_var_ok; [fe_known | fe_known | lia]|]. intros b ->. rewrite Zmod.eqb_eq.
  unfold jacobian. split.
  - intros <-. eexists. apply Affine_eq; [field; exact Hnz | reflexivity].
  - intros [y E]. injection E as <- _. field. exact Hnz.
Qed.

(** ** Points from their abscissa *)

Lemma ge_set_xquad_ok x v : fe_ok x 8 v ->
  Returns (secp256k1_ge_set_xquad x) (fun '(ok, r) =>
    (ok = true <-> is_square (v * v * v + toFp 7)%Zmod) /\ ge_x r = x /\ ge_infinity r = false /\
    exists y, fe_ok (ge_y r) 1 y /\ is_square y /\ (ok = true -> on_curve (Affine v y))).
Proof.
  intros Hv. unfold secp256k1_ge_set_xquad, CURVE_B. do 4 fe_step.
  eapply Returns_bind; [apply (fe_sqrt_ok _ (v * v * v + toFp 7)%Zmod); fe_value|].
  intros [ok y] (w & Hw & Hsq & Hok & E). apply Returns_ret. split; [exact Hok|]. do 2 (split; [reflexivity|]).
  exists w. split; [exact Hw|]. split; [exact Hsq|]. intros ->. exact E.
Qed.

Lemma ge_set_xo_var_ok x v odd : fe_ok x 8 v ->
  Returns (secp256k1_ge_set_xo_var x odd) (fun '(ok, r) =>
    (ok = true <-> is_square (v * v * v + toFp 7)%Zmod) /\
    (ok = true -> exists y, ge_ok r (Affine v y) /\ on_curve (Affine v y) /\ Z.odd (Zmod.to_Z y) = odd)).
Proof.
  intros Hv. unfold secp256k1_ge_set_xo_var. eapply Returns_bind; [exact (ge_set_xquad_ok x v Hv)|].
  intros [ok r] (Hok & Ex & Ei & y & Hy & _ & Hc). destruct ok; cbn [negb].
  2: { apply Returns_ret. split; [exact Hok | discriminate]. }
  specialize (Hc eq_refl). pose proof (on_curve_y_nonzero _ _ Hc) as Hy0. do 2 fe_step. subst.
  destruct (Bool.eqb _ odd) eqn:E; cbn [negb].
  - apply Returns_ret. apply Returns_ret. split; [exact Hok|]. intros _. exists y. split; [|split; [exact Hc|apply eqb_prop, E]].
    exists v, y. rewrite Ei. split; [exact Hv|]. split; [fe_known | reflexivity].
  - fe_step. apply Returns_ret. split; [exact Hok|]. intros _. exists (- y)%Zmod. split; [|split].
    + exists v, (- y)%Zmod. rewrite Ei. split; [exact Hv|]. split; [fe_known | reflexivity].
    + exact (popp_on_curve _ Hc).
    + rewrite (opp_parity y Hy0). destruct (Z.odd _), odd; try reflexivity; discriminate.
Qed.

(** ** Membership and quadratic residues *)

Lemma gej_is_valid_var_ok a P : gej_ok a P ->
  Returns (secp256k1_gej_is_valid_var a) (fun b => b = true <-> P <> Infinity /\ on_curve P).
Proof.
  intros (X & Y & Z & (Hx & Hy & Hz) & HP). unfold secp256k1_gej_is_valid_var, CURVE_B. destruct (gej_infinity a).
  { apply Returns_ret. subst P. split; [discriminate | intros [[] _]; reflexivity]. }
  destruct HP as [Hnz ->]. fe_steps. eapply Returns_mono; [eapply fe_equal_var_ok; [fe_known | fe_known | lia]|].
  intros b ->. rewrite Zmod.eqb_eq. unfold jacobian. cbn [on_curve_at].
  assert (Y * Y = Y * Zmod.inv (Z * Z * Z) * (Y * Zmod.inv (Z * Z * Z)) * (Z * Z * Z * (Z * Z * Z)))%Zmod as EY
    by (field; exact Hnz).
  assert (X * X * X = X * Zmod.inv (Z * Z) * (X * Zmod.inv (Z * Z)) * (X * Zmod.inv (Z * Z)) * (Z * Z * Z * (Z * Z * Z)))%Zmod as EX
    by (field; exact Hnz).
  split.
  - intros E. split; [discriminate|]. transitivity (Y * Y * Zmod.inv (Z * Z * Z * (Z * Z * Z)))%Zmod; [field; exact Hnz|].
    rewrite E. field. exact Hnz.
  - intros [_ E]. rewrite EY, E, EX. ring.
Qed.

Lemma ge_is_valid_var_ok a P : ge_ok a P ->
  Returns (secp256k1_ge_is_valid_var a) (fun b => b = true <-> P <> Infinity /\ on_curve P).
Proof.
  intros (X & Y & Hx & Hy & ->). unfold secp256k1_ge_is_valid_var, CURVE_B. destruct (ge_infinity a).
  { apply Returns_ret. split; [discriminate | intros [[] _]; reflexivity]. }
  fe_steps. eapply Returns_mono; [eapply fe_equal_var_ok; [fe_known | fe_known | lia]|].
  intros b ->. rewrite Zmod.eqb_eq. cbn [on_curve_at]. split; [intros E; split; [discriminate | exact E] | intros [_ E]; exact E].
Qed.

Lemma gej_has_quad_y_var_ok a P : gej_ok a P ->
  Returns (secp256k1_gej_has_quad_y_var a) (fun b => b = true <-> exists x y, P = Affine x y /\ is_square y).
Proof.
  intros (X & Y & Z & (Hx & Hy & Hz) & HP). unfold secp256k1_gej_has_quad_y_var. destruct (gej_infinity a).
  { apply Returns_ret. subst P. split; [discriminate | intros (x & y & E & _); discriminate]. }
  destruct HP as [Hnz ->]. fe_steps. eapply Returns_mono; [eapply fe_is_quad_var_ok; fe_known|]. intros b ->.
  replace (Y * Z)%Zmod with (Y * Zmod.inv (Z * Z * Z) * ((Z * Z) * (Z * Z)))%Zmod by (field; exact Hnz).
  rewrite is_square_scale by auto using Fp_mul_nonzero. unfold jacobian. split.
  - intros Hs. eexists _, _. split; [reflexivity | exact Hs].
  - intros (x & y & E & Hs). injection E as _ <-. exact Hs.
Qed.

(** ** Storage, the generator and the endomorphism *)

Lemma ge_to_storage_ok a P : ge_ok a P -> ge_infinity a = false ->
  Returns (secp256k1_ge_to_storage a) (fun s => ge_storage_ok s P).
Proof.
  intros (X & Y & Hx & Hy & ->) Ia. unfold secp256k1_ge_to_storage. rewrite Ia. apply Returns_check; [reflexivity|].
  fe_steps. apply Returns_ret. exists X, Y. auto.
Qed.

Lemma ge_from_storage_ok s P : ge_storage_ok s P -> ge_ok (secp256k1_ge_from_storage s) P.
Proof.
  intros (X & Y & Hx & Hy & ->). exists X, Y.
  split; [apply (fe_ok_mono _ 1); [apply fe_norm_ok, fe_from_storage_norm, Hx | lia]|].
  split; [apply (fe_ok_mono _ 1); [apply fe_norm_ok, fe_from_storage_norm, Hy | lia] | reflexivity].
Qed.

Lemma ge_storage_cmov_ok r a P Q (flag : bool) : ge_storage_ok r P -> ge_storage_ok a Q ->
  ge_storage_ok (secp256k1_ge_storage_cmov r a (Z.b2z flag)) (if flag then Q else P).
Proof.
  intros (X & Y & Hx & Hy & ->) (X' & Y' & Hx' & Hy' & ->). exists (if flag then X' else X), (if flag then Y' else Y).
  pose proof (fe_storage_cmov_ok _ _ _ _ (Z.b2z flag) Hx Hx') as H.
  pose proof (fe_storage_cmov_ok _ _ _ _ (Z.b2z flag) Hy Hy') as H'.
  destruct flag; (split; [apply H; auto | split; [apply H'; auto | reflexivity]]).
Qed.

Lemma ge_const_g_coords : fe_norm (ge_x secp256k1_ge_const_g) gx /\ fe_norm (ge_y secp256k1_ge_const_g) gy.
Proof. split; apply FE_CONST_norm; vm_compute; try split; congruence. Qed.

Lemma ge_const_g_ok : ge_ok secp256k1_ge_const_g G.
Proof.
  destruct ge_const_g_coords as [Hx Hy]. exists gx, gy.
  split; [apply (fe_ok_mono _ 1); [apply fe_norm_ok, Hx | lia]|].
  split; [apply (fe_ok_mono _ 1); [apply fe_norm_ok, Hy | lia] | reflexivity].
Qed.

Lemma ge_mul_lambda_ok a P : ge_ok a P -> Returns (secp256k1_ge_mul_lambda a)
  (fun r => ge_ok r (plambda P) /\ ge_y r = ge_y a /\ ge_infinity r = ge_infinity a).
Proof.
  intros (X & Y & Hx & Hy & ->). unfold secp256k1_ge_mul_lambda. cbv zeta.
  match goal with |- context [secp256k1_fe_mul _ ?b] => assert (fe_norm b beta) as Hb end.
  { apply FE_CONST_norm; vm_compute; try split; congruence. }
  fe_steps. apply Returns_ret. split; [|auto]. exists (X * beta)%Zmod, Y. split; [fe_known|]. split; [exact Hy|].
  cbn [ge_infinity]. destruct (ge_infinity a); reflexivity.
Qed.

End Conversions.
