(* ===== verification/ScalarAcc.v ===== *)
(** * The three-word accumulator of the scalar code

    The macros [muladd], [muladd_fast], [muladd2], [sumadd], [sumadd_fast],
    [extract] and [extract_fast] that [scalar_8x32_impl.h] and
    [scalar_4x64_impl.h] define over their accumulator [(c0, c1, c2)].  The two
    files differ in the width of the words, [bits] here, and of [c2], [top] here.  The macros read and write the variables [c0], [c1] and [c2] of the
    function that uses them; here they take and return the accumulator. *)

From Stdlib Require Import ZArith Lia List Bool.
From S2P Require Import Prelude.

#[local] Open Scope Z_scope.
#[local] Open Scope checked_scope.

(** ** The macros *)

Record acc : Type := mk_acc { c0 : Z; c1 : Z; c2 : Z }.

Section Macros.
Context (bits top : Z).

(** Conversion to a word. *)
Definition uw (x : Z) : Z := x mod 2 ^ bits.

(** Conversion to the type of [c2]. *)
Definition ut (x : Z) : Z := x mod 2 ^ top.

Definition muladd (c : acc) (a b : Z) : checked acc :=
  let t := (a * b) mod 2 ^ (2 * bits) in
  let th := uw (Z.shiftr t bits) in
  let tl := uw t in
  let c0' := uw (c0 c + tl) in
  let th := uw (th + (if c0' <? tl then 1 else 0)) in
  let c1' := uw (c1 c + th) in
  let c2' := ut (c2 c + (if c1' <? th then 1 else 0)) in
  VERIFY_CHECK ((th <=? c1') || negb (c2' =? 0));;
  ret (mk_acc c0' c1' c2').

Definition muladd_fast (c : acc) (a b : Z) : checked acc :=
  let t := (a * b) mod 2 ^ (2 * bits) in
  let th := uw (Z.shiftr t bits) in
  let tl := uw t in
  let c0' := uw (c0 c + tl) in
  let th := uw (th + (if c0' <? tl then 1 else 0)) in
  let c1' := uw (c1 c + th) in
  VERIFY_CHECK (th <=? c1');;
  ret (mk_acc c0' c1' (c2 c)).

Definition muladd2 (c : acc) (a b : Z) : checked acc :=
  let t := (a * b) mod 2 ^ (2 * bits) in
  let th := uw (Z.shiftr t bits) in
  let tl := uw t in
  let th2 := uw (th + th) in
  let c2' := ut (c2 c + (if th2 <? th then 1 else 0)) in
  VERIFY_CHECK ((th <=? th2) || negb (c2' =? 0));;
  let tl2 := uw (tl + tl) in
  let th2 := uw (th2 + (if tl2 <? tl then 1 else 0)) in
  let c0' := uw (c0 c + tl2) in
  let th2 := uw (th2 + (if c0' <? tl2 then 1 else 0)) in
  let c2' := ut (c2' + Z.land (Z.b2z (c0' <? tl2)) (Z.b2z (th2 =? 0))) in
  VERIFY_CHECK ((tl2 <=? c0') || negb (th2 =? 0) || negb (c2' =? 0));;
  let c1' := uw (c1 c + th2) in
  let c2' := ut (c2' + (if c1' <? th2 then 1 else 0)) in
  VERIFY_CHECK ((th2 <=? c1') || negb (c2' =? 0));;
  ret (mk_acc c0' c1' c2').

Definition sumadd (c : acc) (a : Z) : checked acc :=
  let c0' := uw (c0 c + a) in
  let over := if c0' <? a then 1 else 0 in
  let c1' := uw (c1 c + over) in
  let c2' := ut (c2 c + (if c1' <? over then 1 else 0)) in
  ret (mk_acc c0' c1' c2').

Definition sumadd_fast (c : acc) (a : Z) : checked acc :=
  let c0' := uw (c0 c + a) in
  let c1' := uw (c1 c + (if c0' <? a then 1 else 0)) in
  VERIFY_CHECK (negb (Z.lor (Z.b2z (negb (c1' =? 0))) (Z.b2z (a <=? c0')) =? 0));;
  VERIFY_CHECK (c2 c =? 0);;
  ret (mk_acc c0' c1' (c2 c)).

(** The extracted word and the shifted accumulator. *)
Definition extract (c : acc) : checked (Z * acc) :=
  ret (c0 c, mk_acc (c1 c) (c2 c) 0).

Definition extract_fast (c : acc) : checked (Z * acc) :=
  VERIFY_CHECK (c2 c =? 0);;
  ret (c0 c, mk_acc (c1 c) 0 (c2 c)).

(** ** Their meaning

    [acc_at c v B]: the accumulator holds [v], which is at most [B]. *)

Definition acc_Z (c : acc) : Z := c0 c + 2 ^ bits * c1 c + 2 ^ bits * 2 ^ bits * c2 c.

Definition is_uw (x : Z) : Prop := 0 <= x < 2 ^ bits.

Definition acc_at (c : acc) (v B : Z) : Prop :=
  is_uw (c0 c) /\ is_uw (c1 c) /\ 0 <= c2 c < 2 ^ 32 /\ acc_Z c = v /\ v <= B.

End Macros.

(** ** Carries *)

Section Spec.
Context (bits top : Z) (Hbits : 32 <= bits) (Htop : 32 <= top).
#[local] Abbreviation W := (2 ^ bits).

Lemma W_large : 2 ^ 32 <= W.
Proof. apply Z.pow_le_mono_r; lia. Qed.

Lemma add_carry x y : is_uw bits x -> is_uw bits y ->
  is_uw bits (uw bits (x + y)) /\ x + y = uw bits (x + y) + W * (if uw bits (x + y) <? y then 1 else 0).
Proof.
  unfold is_uw, uw. intros Hx Hy. pose proof W_large.
  assert (Z.lt (x + y) W \/ W <= x + y) as [H'|H'] by lia.
  - rewrite Z.mod_small by lia. destruct (Z.ltb_spec (x + y) y); lia.
  - replace ((x + y) mod W) with (x + y - W) by (apply (Z.mod_unique_pos _ _ 1); lia).
    destruct (Z.ltb_spec (x + y - W) y); lia.
Qed.

(** The double-width product and its halves. *)
Lemma product_halves a b : is_uw bits a -> is_uw bits b ->
  let t := (a * b) mod 2 ^ (2 * bits) in let th := uw bits (Z.shiftr t bits) in let tl := uw bits t in
  0 <= tl < W /\ 0 <= th <= W - 2 /\ a * b = tl + W * th.
Proof.
  unfold is_uw. intros Ha Hb. cbv zeta. pose proof W_large.
  replace (2 * bits) with (bits + bits) by ring. rewrite Z.pow_add_r by lia.
  rewrite (Z.mod_small (a * b)) by nia. rewrite Z.shiftr_div_pow2 by lia. unfold uw.
  assert (0 <= a * b / W <= W - 2) as Hq.
  { split; [apply Z.div_pos; nia|]. apply Z.lt_succ_r, Z.div_lt_upper_bound; nia. }
  rewrite (Z.mod_small (a * b / W)) by lia. pose proof (Z.div_mod (a * b) W). pose proof (Z.mod_pos_bound (a * b) W). lia.
Qed.

Lemma uw_id x : is_uw bits x -> uw bits x = x.
Proof. apply Z.mod_small. Qed.

Lemma ut_id x : 0 <= x < 2 ^ 32 -> ut top x = x.
Proof. intros Hx. apply Z.mod_small. pose proof (Z.pow_le_mono_r 2 32 top ltac:(lia) Htop). lia. Qed.

(** Names the sum of two words and its carry. *)
Ltac carry x y z k :=
  let E := fresh "E" in
  destruct (add_carry x y) as [? E]; [unfold is_uw in *; lia | unfold is_uw in *; lia|];
  set (z := uw bits (x + y)) in *; clearbody z;
  assert (0 <= (if z <? y then 1 else 0) <= 1) by (destruct (z <? y); lia);
  assert ((z <? y) = ((if z <? y then 1 else 0) =? 1)) by (destruct (z <? y); reflexivity);
  set (k := if z <? y then 1 else 0) in *; clearbody k.

Lemma top_bound lo x : 0 <= lo -> lo + W * W * x < W * W * 2 ^ 32 -> x < 2 ^ 32.
Proof.
  intros Hlo H. pose proof W_large. assert (0 < W * W) by nia. apply (Z.mul_lt_mono_pos_l (W * W)); [lia|]. lia.
Qed.

Lemma acc_intro z0 z1 z2 v B : is_uw bits z0 -> is_uw bits z1 -> 0 <= z2 ->
  v <= B -> B < W * W * 2 ^ 32 -> z0 + W * z1 + W * W * z2 = v ->
  z2 < 2 ^ 32 /\ acc_at bits (mk_acc z0 z1 z2) v B.
Proof.
  unfold is_uw. intros H0 H1 H2 Hv HB E. assert (z2 < 2 ^ 32) as Hz2.
  { apply (top_bound (z0 + W * z1)); [nia | lia]. }
  split; [exact Hz2|]. unfold acc_at, acc_Z, is_uw. cbn [c0 c1 c2]. lia.
Qed.

(** Opens an accumulator and the halves of a product. *)
Ltac open_product a b Ha Hb :=
  let Htl := fresh "Htl" in let Hth := fresh "Hth" in let E := fresh "E" in
  pose proof W_large as HW; destruct (product_halves a b Ha Hb) as (Htl & Hth & E);
  set (tl := uw bits ((a * b) mod _)) in *; set (th := uw bits (Z.shiftr _ _)) in *; clearbody tl th.

Lemma muladd_ok c v B a b M : acc_at bits c v B -> is_uw bits a -> is_uw bits b -> a * b <= M ->
  B + M < W * W * 2 ^ 32 ->
  Returns (muladd bits top c a b) (fun c' => acc_at bits c' (v + a * b) (B + M)).
Proof.
  intros (H0 & H1 & H2 & <- & HB) Ha Hb HM Hlt. unfold muladd, acc_Z in *. cbv zeta. open_product a b Ha Hb.
  carry (c0 c) tl z0 k0. rewrite (uw_id (th + k0)) by (unfold is_uw; lia). carry (c1 c) (th + k0) z1 k1.
  destruct (acc_intro z0 z1 (c2 c + k1) (c0 c + W * c1 c + W * W * c2 c + a * b) (B + M)) as [Hc2 Hacc];
    [assumption | assumption | lia | lia | lia | nia|].
  rewrite ut_id by lia. apply Returns_check; [lia|]. apply Returns_ret. exact Hacc.
Qed.

Lemma muladd_fast_ok c v B a b M : acc_at bits c v B -> is_uw bits a -> is_uw bits b -> a * b <= M ->
  B + M < W * W ->
  Returns (muladd_fast bits c a b) (fun c' => acc_at bits c' (v + a * b) (B + M)).
Proof.
  intros (H0 & H1 & H2 & <- & HB) Ha Hb HM Hlt. unfold muladd_fast, acc_Z in *. cbv zeta. open_product a b Ha Hb.
  assert (c2 c = 0) as Hc2 by (unfold is_uw in *; nia).
  carry (c0 c) tl z0 k0. rewrite (uw_id (th + k0)) by (unfold is_uw; lia). carry (c1 c) (th + k0) z1 k1.
  assert (k1 = 0) by (unfold is_uw in *; nia). subst k1. apply Returns_check; [lia|]. apply Returns_ret.
  rewrite Hc2 in *. apply acc_intro; try assumption; nia.
Qed.

Lemma W_even : exists h, W = 2 * h.
Proof. exists (2 ^ (bits - 1)). rewrite <- Z.pow_succ_r by lia. f_equal. lia. Qed.

(** A carry into a word that was already added to: the sum is zero exactly when it
    wrapped. *)
Lemma second_carry t k : is_uw bits t -> 0 <= k <= 1 ->
  exists z j, uw bits (t + k) = z /\ is_uw bits z /\ 0 <= j <= 1 /\ t + k = z + W * j /\
    Z.land (Z.b2z (k =? 1)) (Z.b2z (z =? 0)) = j.
Proof.
  intros Ht Hk. pose proof W_large. unfold is_uw in *.
  assert (t + k < W \/ t = W - 1 /\ k = 1) as [H'|[-> ->]] by lia.
  - exists (t + k), 0. rewrite uw_id by (unfold is_uw; lia). do 4 (split; [lia|]).
    destruct (Z.eqb_spec k 1), (Z.eqb_spec (t + k) 0); try reflexivity. lia.
  - exists 0, 1. replace (W - 1 + 1) with (1 * W) by ring. unfold uw. rewrite Z.mod_mul by lia.
    do 4 (split; [lia|]). reflexivity.
Qed.

Lemma muladd2_ok c v B a b M : acc_at bits c v B -> is_uw bits a -> is_uw bits b -> a * b <= M ->
  B + 2 * M < W * W * 2 ^ 32 ->
  Returns (muladd2 bits top c a b) (fun c' => acc_at bits c' (v + 2 * (a * b)) (B + 2 * M)).
Proof.
  intros (H0 & H1 & H2 & <- & HB) Ha Hb HM Hlt. unfold muladd2, acc_Z in *. cbv zeta. open_product a b Ha Hb.
  destruct W_even as [h Hh]. carry th th th2 kA. carry tl tl tl2 kB.
  assert (0 <= th2 <= W - 2) as Hth2 by (unfold is_uw in *; lia).
  rewrite (uw_id (th2 + kB)) by (unfold is_uw; lia). carry (c0 c) tl2 z0 kC.
  destruct (second_carry (th2 + kB) kC) as (th3 & j & E3 & Hth3 & Hj & Ej & Ej'); [unfold is_uw in *; lia | lia|].
  rewrite E3. replace (z0 <? tl2) with (kC =? 1) by congruence. rewrite Ej'. carry (c1 c) th3 z1 k1.
  destruct (acc_intro z0 z1 (c2 c + kA + j + k1) (c0 c + W * c1 c + W * W * c2 c + 2 * (a * b)) (B + 2 * M)) as [Hc2 Hacc];
    [assumption | assumption | lia | lia | lia | nia|].
  rewrite !ut_id by lia. apply Returns_check; [lia|]. apply Returns_check; [lia|]. apply Returns_check; [lia|].
  apply Returns_ret. exact Hacc.
Qed.

Lemma sumadd_ok c v B a M : acc_at bits c v B -> is_uw bits a -> a <= M -> B + M < W * W * 2 ^ 32 ->
  Returns (sumadd bits top c a) (fun c' => acc_at bits c' (v + a) (B + M)).
Proof.
  intros (H0 & H1 & H2 & <- & HB) Ha HM Hlt. unfold sumadd, acc_Z in *. cbv zeta. pose proof W_large.
  carry (c0 c) a z0 k0. carry (c1 c) k0 z1 k1. apply Returns_ret.
  destruct (acc_intro z0 z1 (c2 c + k1) (c0 c + W * c1 c + W * W * c2 c + a) (B + M)) as [Hc2 Hacc];
    [assumption | assumption | lia | lia | lia | nia|].
  rewrite ut_id by lia. exact Hacc.
Qed.

Lemma sumadd_fast_ok c v B a M : acc_at bits c v B -> is_uw bits a -> a <= M -> B + M < W * W ->
  Returns (sumadd_fast bits c a) (fun c' => acc_at bits c' (v + a) (B + M)).
Proof.
  intros (H0 & H1 & H2 & <- & HB) Ha HM Hlt. unfold sumadd_fast, acc_Z in *. cbv zeta. pose proof W_large.
  assert (c2 c = 0) as Hc2 by (unfold is_uw in *; nia). rewrite Hc2 in *.
  carry (c0 c) a z0 k0. assert (c1 c + k0 < W) by (unfold is_uw in *; nia).
  rewrite uw_id by (unfold is_uw in *; lia).
  apply Returns_check; [|apply Returns_check; [reflexivity|]].
  - destruct (Z.eqb_spec (c1 c + k0) 0), (Z.leb_spec a z0); try reflexivity. unfold is_uw in *. lia.
  - apply Returns_ret. apply acc_intro; try assumption; unfold is_uw in *; try lia; nia.
Qed.

(** The shift drops the low word. *)
Lemma extract_ok c v B : acc_at bits c v B ->
  Returns (extract c) (fun '(x, c') => is_uw bits x /\ exists v', v = x + W * v' /\ 0 <= v' /\ acc_at bits c' v' (B / W)).
Proof.
  intros (H0 & H1 & H2 & <- & HB). pose proof W_large. apply Returns_ret. split; [exact H0|].
  exists (c1 c + W * c2 c). unfold is_uw in *. split; [unfold acc_Z; ring|]. split; [nia|].
  unfold acc_at, acc_Z, is_uw in *. cbn [c0 c1 c2]. do 2 (split; [lia|]). split; [lia|]. split; [ring|].
  apply Z.div_le_lower_bound; nia.
Qed.

Lemma extract_fast_ok c v B : acc_at bits c v B -> B < W * W ->
  Returns (extract_fast c) (fun '(x, c') => is_uw bits x /\ exists v', v = x + W * v' /\ 0 <= v' /\ acc_at bits c' v' (B / W)).
Proof.
  intros (H0 & H1 & H2 & <- & HB) Hlt. pose proof W_large. unfold acc_Z, is_uw in *.
  assert (c2 c = 0) as Hc2 by nia. unfold extract_fast. rewrite Hc2. apply Returns_check; [reflexivity|].
  apply Returns_ret. split; [exact H0|]. exists (c1 c). split; [ring|]. split; [lia|].
  unfold acc_at, acc_Z, is_uw in *. cbn [c0 c1 c2]. do 2 (split; [lia|]). split; [lia|]. split; [ring|].
  apply Z.div_le_lower_bound; nia.
Qed.

End Spec.

(** ** Rules with literal bounds

    [acc_step] goes over one macro: the accumulator keeps its value and a bound
    that is evaluated at each step. *)

Lemma uw_bound bits x X : 0 <= x <= X -> (X <? 2 ^ bits) = true -> is_uw bits x.
Proof. unfold is_uw. lia. Qed.

Lemma uw_le bits x : is_uw bits x -> 0 <= x <= 2 ^ bits - 1.
Proof. unfold is_uw. lia. Qed.

Lemma acc_start bits x : is_uw bits x -> acc_at bits (mk_acc x 0 0) x (2 ^ bits - 1).
Proof. unfold acc_at, acc_Z, is_uw. cbn [c0 c1 c2]. lia. Qed.

Section Steps.
Context (bits top : Z) (Hbits : 32 <= bits) (Htop : 32 <= top).

Lemma muladd_step c v B a b M : acc_at bits c v B -> is_uw bits a -> is_uw bits b -> 0 <= a * b <= M ->
  (B + M <? 2 ^ bits * 2 ^ bits * 2 ^ 32) = true -> Returns (muladd bits top c a b) (fun c' => acc_at bits c' (v + a * b) (B + M)).
Proof. intros H Ha Hb HM HB. apply muladd_ok; try assumption; lia. Qed.

Lemma muladd2_step c v B a b M : acc_at bits c v B -> is_uw bits a -> is_uw bits b -> 0 <= a * b <= M ->
  (B + 2 * M <? 2 ^ bits * 2 ^ bits * 2 ^ 32) = true ->
  Returns (muladd2 bits top c a b) (fun c' => acc_at bits c' (v + 2 * (a * b)) (B + 2 * M)).
Proof. intros H Ha Hb HM HB. apply muladd2_ok; try assumption; lia. Qed.

Lemma muladd_fast_step c v B a b M : acc_at bits c v B -> is_uw bits a -> is_uw bits b -> 0 <= a * b <= M ->
  (B + M <? 2 ^ bits * 2 ^ bits) = true -> Returns (muladd_fast bits c a b) (fun c' => acc_at bits c' (v + a * b) (B + M)).
Proof. intros H Ha Hb HM HB. apply muladd_fast_ok; try assumption; lia. Qed.

Lemma sumadd_step c v B a M : acc_at bits c v B -> 0 <= a <= M -> (M <? 2 ^ bits) = true ->
  (B + M <? 2 ^ bits * 2 ^ bits * 2 ^ 32) = true -> Returns (sumadd bits top c a) (fun c' => acc_at bits c' (v + a) (B + M)).
Proof. intros H Ha HM HB. apply sumadd_ok; try assumption; unfold is_uw; lia. Qed.

Lemma sumadd_fast_step c v B a M : acc_at bits c v B -> 0 <= a <= M -> (M <? 2 ^ bits) = true ->
  (B + M <? 2 ^ bits * 2 ^ bits) = true -> Returns (sumadd_fast bits c a) (fun c' => acc_at bits c' (v + a) (B + M)).
Proof. intros H Ha HM HB. apply sumadd_fast_ok; try assumption; unfold is_uw; lia. Qed.

(** At the end the accumulator is a word. *)
Lemma acc_word_end c v B : acc_at bits c v B -> (B <? 2 ^ bits) = true -> c0 c = v /\ c1 c = 0 /\ 0 <= v <= B.
Proof.
  intros (H0 & H1 & H2 & E & HB) Hlt. pose proof (W_large bits Hbits) as HW. unfold acc_Z, is_uw in *.
  set (W := 2 ^ bits) in *. apply Z.ltb_lt in Hlt. assert (W * (c1 c + W * c2 c) < W * 1) as Hq by lia.
  apply Z.mul_lt_mono_pos_l in Hq; [|lia]. assert (0 <= W * c2 c) by (apply Z.mul_nonneg_nonneg; lia).
  assert (W * c2 c < W * 1) as Hq2 by lia. apply Z.mul_lt_mono_pos_l in Hq2; [|lia].
  assert (c2 c = 0) as E2 by lia. assert (c1 c = 0) as E1 by lia. rewrite E1, E2 in E. lia.
Qed.

End Steps.

(** A literal bound. *)
Ltac check_bound := vm_compute; reflexivity.

Ltac uw := first [eapply uw_bound; [eassumption | check_bound] | eapply uw_bound; [split; [|reflexivity]; vm_compute; discriminate | check_bound]].

Ltac eval_bound H :=
  lazymatch type of H with
  | acc_at ?w ?c ?v ?B => let B' := eval vm_compute in B in change (acc_at w c v B') in H
  end.

(** [spec] is the rule for the macro, [c] the accumulator it reads. *)
Ltac acc_next c spec :=
  let H' := fresh "Hc" in
  match goal with H : acc_at _ c _ _ |- _ => eapply Returns_bind; [spec H | clear H; rename c into H' || idtac] end;
  try clear H'; cbv beta iota.

Ltac acc_sum := let c := fresh "c" in let H := fresh "Hc" in intros c H; cbv beta in H; eval_bound H.

Ltac acc_word :=
  let x := fresh "x" in let c := fresh "c" in let B := fresh "Bx" in let v := fresh "w" in let E := fresh "Ew" in let H := fresh "Hc" in
  intros [x c] (B & v & E & _ & H); eval_bound H; cbv beta iota;
  lazymatch type of B with is_uw ?w _ => let m := eval vm_compute in (2 ^ w - 1) in apply uw_le in B; change (0 <= x <= m) in B end.

Ltac wide := vm_compute; discriminate.

Ltac acc_step :=
  cbv beta;
  lazymatch goal with
  | |- Returns (bind (muladd _ _ ?c ?a ?b) _) _ =>
      let pf := ub (a * b) in
      acc_next c ltac:(fun H => eapply muladd_step; [wide | wide | exact H | uw | uw | exact pf | check_bound]); acc_sum
  | |- Returns (bind (muladd2 _ _ ?c ?a ?b) _) _ =>
      let pf := ub (a * b) in
      acc_next c ltac:(fun H => eapply muladd2_step; [wide | wide | exact H | uw | uw | exact pf | check_bound]); acc_sum
  | |- Returns (bind (muladd_fast _ ?c ?a ?b) _) _ =>
      let pf := ub (a * b) in
      acc_next c ltac:(fun H => eapply muladd_fast_step; [wide | exact H | uw | uw | exact pf | check_bound]); acc_sum
  | |- Returns (bind (sumadd _ _ ?c ?a) _) _ =>
      let pf := ub a in
      acc_next c ltac:(fun H => eapply sumadd_step; [wide | wide | exact H | exact pf | check_bound | check_bound]); acc_sum
  | |- Returns (bind (sumadd_fast _ ?c ?a) _) _ =>
      let pf := ub a in
      acc_next c ltac:(fun H => eapply sumadd_fast_step; [wide | exact H | exact pf | check_bound | check_bound]); acc_sum
  | |- Returns (bind (extract ?c) _) _ => acc_next c ltac:(fun H => eapply extract_ok; [|exact H]; wide); acc_word
  | |- Returns (bind (extract_fast ?c) _) _ =>
      acc_next c ltac:(fun H => eapply extract_fast_ok; [|exact H|]; [wide | check_bound]); acc_word
  end.
