(* ===== verification/ScalarWords.v ===== *)
(** * Integers in words

    What the two scalar representations share: the integer that a list of words of
    [w] bits writes, the words of an integer at a bit offset, and the steps of the
    limb-wise code (comparisons, shifts across limbs, the bit that is added to one
    limb) as facts about integers.  [w] is 32 in [scalar_8x32_impl.h] and 64 in
    [scalar_4x64_impl.h]; a word is an integer with [is_uw w]. *)

From Stdlib Require Import ZArith Lia List Bool.
From S2P Require Import Prelude Modulus Bytes ScalarAcc.
Import ListNotations.

#[local] Open Scope Z_scope.

(** ** Definitions *)

(** The integer a list of words writes, low word first. *)
Fixpoint words_Z (w : Z) (l : list Z) : Z :=
  match l with
  | [] => 0
  | x :: l' => x + 2 ^ w * words_Z w l'
  end.

(** The [w] bits of [V] from bit [o] on. *)
Definition word_at (w V o : Z) : Z := V / 2 ^ o mod 2 ^ w.

Definition words_ok (w : Z) (k : nat) (l : list Z) : Prop := length l = k /\ Forall (is_uw w) l.

(** ** Comparisons

    The flags of a comparison that goes from the high limbs to the low: [no] and
    [yes] tell whether the limbs read so far are below or above. *)

Lemma cmp_first x c : Z.lor 0 (Z.b2z (x <? c)) = Z.b2z (x <? c).
Proof. apply Z.lor_0_l. Qed.

Lemma cmp_above x c : Z.lor 0 (Z.land (Z.b2z (c <? x)) (Z.lnot (Z.b2z (x <? c)))) = Z.b2z (c <? x).
Proof. destruct (Z.ltb_spec c x), (Z.ltb_spec x c); reflexivity || lia. Qed.

Section Words.
Context (w : Z) (Hw : 0 <= w).
#[local] Abbreviation W := (2 ^ w).

Lemma W_pos : 0 < W.
Proof. apply Z.pow_pos_nonneg; lia. Qed.

(** Order of two numbers by their high and low parts. *)
Lemma high_low_lt h k x y : is_uw w x -> is_uw w y -> (h * W + x < k * W + y <-> h < k \/ h = k /\ x < y).
Proof.
  unfold is_uw. intros Hx Hy. destruct (Z.lt_trichotomy h k) as [H | [-> | H]]; [|lia|].
  - assert ((h + 1) * W <= k * W) by (apply Z.mul_le_mono_nonneg_r; lia). lia.
  - assert ((k + 1) * W <= h * W) by (apply Z.mul_le_mono_nonneg_r; lia). lia.
Qed.

Lemma high_low_ltb h k x y : is_uw w x -> is_uw w y -> (h * W + x <? k * W + y) = (h <? k) || (x <? y) && negb (k <? h).
Proof.
  intros Hx Hy. apply eq_true_iff_eq. rewrite orb_true_iff, andb_true_iff, negb_true_iff, !Z.ltb_lt, Z.ltb_ge, high_low_lt by assumption. lia.
Qed.

Lemma cmp_no h hn x c : is_uw w x -> is_uw w c ->
  Z.lor (Z.b2z (h <? hn)) (Z.land (Z.b2z (x <? c)) (Z.lnot (Z.b2z (hn <? h)))) = Z.b2z (h * W + x <? hn * W + c).
Proof.
  intros Hx Hc. rewrite high_low_ltb by assumption. destruct (h <? hn), (x <? c), (hn <? h); reflexivity.
Qed.

Lemma cmp_yes h hn x c : is_uw w x -> is_uw w c ->
  Z.lor (Z.b2z (hn <? h)) (Z.land (Z.b2z (c <? x)) (Z.lnot (Z.b2z (h * W + x <? hn * W + c)))) = Z.b2z (hn * W + c <? h * W + x).
Proof.
  intros Hx Hc. rewrite !high_low_ltb by assumption.
  destruct (Z.ltb_spec h hn), (Z.ltb_spec x c), (Z.ltb_spec hn h), (Z.ltb_spec c x); reflexivity || lia.
Qed.

Lemma cmp_yes_gt h hn x c : is_uw w x -> is_uw w c ->
  Z.lor (Z.b2z (hn <? h)) (Z.land (Z.b2z (c <? x)) (Z.lnot (Z.b2z (h <? hn)))) = Z.b2z (hn * W + c <? h * W + x).
Proof.
  intros Hx Hc. rewrite high_low_ltb by assumption. destruct (hn <? h), (c <? x), (h <? hn); reflexivity.
Qed.

Lemma cmp_yes_ge h hn x c : is_uw w x -> is_uw w c ->
  Z.lor (Z.b2z (hn <? h)) (Z.land (Z.b2z (c <=? x)) (Z.lnot (Z.b2z (h <? hn)))) = Z.b2z (hn * W + c <=? h * W + x).
Proof.
  intros Hx Hc. rewrite !Z.leb_antisym, high_low_ltb by assumption.
  destruct (Z.ltb_spec hn h), (x <? c), (Z.ltb_spec h hn); reflexivity || lia.
Qed.

(** ** Words of an integer *)

Lemma word_at_bits V o k : 0 <= o -> 0 <= k -> Z.testbit (word_at w V o) k = (k <? w) && Z.testbit V (k + o).
Proof.
  intros Ho Hk. unfold word_at. destruct (Z.ltb_spec k w).
  - rewrite Z.mod_pow2_bits_low, Z.div_pow2_bits by lia. reflexivity.
  - apply Z.mod_pow2_bits_high. lia.
Qed.

Lemma word_at_word V o : is_uw w (word_at w V o).
Proof. apply Z.mod_pos_bound. apply W_pos. Qed.

Lemma words_Z_at l i : Forall (is_uw w) l -> nth i l 0 = word_at w (words_Z w l) (w * Z.of_nat i).
Proof.
  intros H. pose proof W_pos as HW. revert i. induction H as [|x l Hx Hl IH]; intros i.
  - destruct i; unfold word_at; cbn [nth words_Z]; rewrite Z.div_0_l, Z.mod_0_l by (try apply Z.pow_nonzero; lia); reflexivity.
  - unfold word_at, is_uw in *. cbn [words_Z]. destruct i as [|i]; cbn [nth].
    + rewrite Z.mul_0_r, Z.pow_0_r, Z.div_1_r, (Z.mul_comm W), Z.mod_add, Z.mod_small by lia. reflexivity.
    + rewrite IH. replace (w * Z.of_nat (S i)) with (w + w * Z.of_nat i) by lia.
      rewrite Z.pow_add_r, <- Z.div_div by (try apply Z.pow_pos_nonneg; lia). do 2 f_equal.
      rewrite (Z.mul_comm W), Z.div_add, Z.div_small by lia. reflexivity.
Qed.

(** The bits from [o + s] on come from two words. *)
Lemma word_at_mid V o o' s : o' = o + w -> 0 <= o -> 0 <= s < w ->
  Z.lor (Z.shiftr (word_at w V o) s) (Z.shiftl (word_at w V o') (w - s) mod 2 ^ w) = word_at w V (o + s).
Proof.
  intros -> Ho Hs. symmetry. apply Z.bits_inj'. intros k Hk. rewrite Z.lor_spec, Z.shiftr_spec, !word_at_bits by lia.
  destruct (Z.ltb_spec k w).
  - rewrite Z.mod_pow2_bits_low, Z.shiftl_spec by lia. destruct (Z.ltb_spec (k + s) w).
    + rewrite (Z.testbit_neg_r _ (k - (w - s))) by lia. rewrite orb_false_r. cbn [andb]. f_equal. lia.
    + rewrite word_at_bits by lia. rewrite (proj2 (Z.ltb_lt _ _)) by lia. cbn [andb orb]. f_equal. lia.
  - rewrite (Z.mod_pow2_bits_high _ w) by lia. rewrite (proj2 (Z.ltb_ge (k + s) w)) by lia. reflexivity.
Qed.

(** The same with a sum, as [secp256k1_scalar_shr_int] has it. *)
Lemma shr_word V o o' s : o' = o + w -> 0 <= o -> 0 <= s < w ->
  (Z.shiftr (word_at w V o) s + Z.shiftl (word_at w V o') (w - s) mod 2 ^ w) mod 2 ^ w = word_at w V (o + s).
Proof.
  intros Eo Ho Hs. rewrite <- (word_at_mid V o o' s Eo Ho Hs).
  set (A := Z.shiftr _ s). set (B := Z.shiftl _ _ mod _). assert (Z.land A B = 0) as HAB.
  { apply Z.bits_inj'. intros k Hk. rewrite Z.land_spec, Z.bits_0. subst A B. rewrite Z.shiftr_spec, word_at_bits by lia.
    destruct (Z.ltb_spec (k + s) w); [|reflexivity].
    rewrite Z.mod_pow2_bits_low, Z.shiftl_spec, (Z.testbit_neg_r _ (k - (w - s))) by lia. apply andb_false_r. }
  rewrite Z.add_nocarry_lxor, Z.lxor_lor by exact HAB. subst A B. rewrite word_at_mid by assumption. apply Z.mod_small. apply word_at_word.
Qed.

Lemma word_at_shift V k o : 0 <= k -> 0 <= o -> word_at w V (o + k) = word_at w (V / 2 ^ k) o.
Proof.
  intros Hk Ho. unfold word_at. rewrite Z.add_comm, Z.pow_add_r by assumption.
  rewrite Z.div_div; [reflexivity | apply Z.pow_nonzero; lia | apply Z.pow_pos_nonneg; lia].
Qed.

Lemma word_at_high V o b : 0 <= V < 2 ^ b -> 0 <= b <= o -> word_at w V o = 0.
Proof.
  intros HV Ho. unfold word_at. rewrite Z.div_small; [apply Z.mod_0_l; pose proof W_pos; lia|]. split; [lia|].
  apply Z.lt_le_trans with (2 ^ b); [apply HV | apply Z.pow_le_mono_r; lia].
Qed.

(** The last word has nothing to shift in. *)
Lemma shr_top V o s : 0 <= V < 2 ^ (o + w) -> 0 <= o -> 0 <= s < w -> Z.shiftr (word_at w V o) s = word_at w V (o + s).
Proof.
  intros HV Ho Hs. rewrite <- (word_at_mid V o (o + w) s) by lia.
  rewrite (word_at_high V (o + w) (o + w) HV), Z.shiftl_0_l, Z.mod_0_l, Z.lor_0_r by (pose proof W_pos; lia). reflexivity.
Qed.

(** Horner's rule, from the low words. *)
Lemma word_at_step V o o' : o' = o + w -> 0 <= o -> 0 <= V -> V / 2 ^ o = word_at w V o + 2 ^ w * (V / 2 ^ o').
Proof.
  intros -> Ho HV. unfold word_at. rewrite Z.pow_add_r, <- Z.div_div by (try apply Z.pow_pos_nonneg; try apply Z.pow_nonzero; lia).
  rewrite Z.add_comm. apply Z.div_mod. apply Z.pow_nonzero; lia.
Qed.

End Words.

(** ** Offsets and masks *)

Lemma mask_bits x y c : 0 <= c -> (forall k, 0 <= k < c -> Z.testbit x k = Z.testbit y k) -> Z.land x (Z.shiftl 1 c - 1) = y mod 2 ^ c.
Proof.
  intros Hc H. replace (Z.shiftl 1 c - 1) with (Z.ones c) by (unfold Z.ones; rewrite Z.shiftl_1_l; lia).
  rewrite <- Z.land_ones by lia. apply Z.bits_inj'. intros k Hk. rewrite !Z.land_spec.
  destruct (Z.ltb_spec k c); [rewrite H by lia; reflexivity|]. rewrite Z.ones_spec_high by lia. rewrite !andb_false_r. reflexivity.
Qed.

Lemma round_half V shift : 0 < shift -> (V + 2 ^ (shift - 1)) / 2 ^ shift = V / 2 ^ shift + if Z.testbit V (shift - 1) then 1 else 0.
Proof.
  intros Hs. rewrite Z.testbit_eqb by lia. replace (2 ^ shift) with (2 ^ (shift - 1) * 2) by (rewrite <- (Z.pow_add_r 2 _ 1) by lia; f_equal; lia).
  assert (0 < 2 ^ (shift - 1)) as Hp by (apply Z.pow_pos_nonneg; lia). set (P := 2 ^ (shift - 1)) in *.
  rewrite <- !Z.div_div by lia. replace (V + P) with (V + 1 * P) by lia. rewrite Z.div_add by lia. set (x := V / P).
  pose proof (Z.div_mod x 2 ltac:(lia)) as E. pose proof (Z.mod_pos_bound x 2 ltac:(lia)).
  destruct (Z.eqb_spec (x mod 2) 1) as [E1 | E1].
  - symmetry. apply (Z.div_unique_pos _ _ _ 0); lia.
  - symmetry. apply (Z.div_unique_pos _ _ _ 1); lia.
Qed.

(** A bit offset is a limb, [lg] bits down, and an offset in it, under the mask [m]. *)
Section Offsets.
Context (w lg m : Z) (Hlg : 0 <= lg) (Ew : w = 2 ^ lg) (Em : m = Z.ones lg).

Lemma w_pos : 0 < w.
Proof. subst w. apply Z.pow_pos_nonneg; lia. Qed.

Lemma offset_div o : Z.shiftr o lg = o / w /\ Z.land o m = o mod w.
Proof. subst w m. rewrite Z.land_ones, Z.shiftr_div_pow2 by lia. auto. Qed.

Lemma offset_split o : 0 <= o -> 0 <= Z.shiftr o lg /\ 0 <= Z.land o m < w /\ o = w * Z.shiftr o lg + Z.land o m.
Proof.
  intros H. destruct (offset_div o) as [-> ->]. pose proof w_pos.
  pose proof (Z.div_mod o w ltac:(lia)). pose proof (Z.mod_pos_bound o w ltac:(lia)). pose proof (Z.div_pos o w ltac:(lia) ltac:(lia)). lia.
Qed.

(** Limb [k] of a product shifted right, as [secp256k1_scalar_mul_shift_var] computes it. *)
Lemma shifted_word V shift k k' A B : w <= 512 -> 0 <= V < 2 ^ 512 -> 0 <= shift -> 0 <= k -> k' = k + 1 ->
  A = 512 - w * k -> B = 512 - w * k' -> 512 mod w = 0 ->
  (if shift <? A then
     Z.lor (Z.shiftr (word_at w V (w * (k + Z.shiftr shift lg))) (Z.land shift m))
       (if (shift <? B) && negb (Z.land shift m =? 0) then
          Z.shiftl (word_at w V (w * (k' + Z.shiftr shift lg))) (w - Z.land shift m) mod 2 ^ w else 0)
   else 0) = word_at w V (w * k + shift).
Proof.
  intros Hw512 HV Hs Hk -> -> -> H512. destruct (offset_split shift ltac:(lia)) as (Hq & Hr & E). pose proof w_pos as Hw.
  set (q := Z.shiftr shift lg) in *. set (s := Z.land shift m) in *.
  destruct (Z.ltb_spec shift (512 - w * k)); [|symmetry; apply (word_at_high w ltac:(lia) V _ 512 HV); lia].
  replace (w * k + shift) with (w * (k + q) + s) by lia. rewrite <- (word_at_mid w ltac:(lia) V (w * (k + q)) (w * (k + 1 + q)) s) by lia. f_equal.
  destruct (Z.ltb_spec shift (512 - w * (k + 1))) as [|Hge]; cbn [andb].
  - destruct (Z.eqb_spec s 0) as [-> | _]; cbn [negb]; [|reflexivity]. symmetry. rewrite Z.shiftl_mul_pow2, Z.sub_0_r by lia.
    apply Z.mod_mul. apply Z.pow_nonzero; lia.
  - rewrite (word_at_high w ltac:(lia) V _ 512 HV), Z.shiftl_0_l, Z.mod_0_l; [reflexivity | apply Z.pow_nonzero; lia|].
    split; [lia|]. apply Z.mod_divide in H512 as [j Hj]; [|lia]. assert (w * (k + 1 + q + 1) > w * j) as Hgt by lia.
    assert (j < k + 1 + q + 1) as Hlt by (apply (Z.mul_lt_mono_pos_l w); lia).
    rewrite Hj, Z.mul_comm. apply Z.mul_le_mono_nonneg_l; lia.
Qed.

(** What [secp256k1_scalar_cadd_bit] adds to limb [k]. *)
Lemma addend bit k :
  Z.shiftl (Z.b2z (Z.shiftr bit lg =? k)) (Z.land bit m) mod 2 ^ w = if bit / w =? k then 2 ^ (bit mod w) else 0.
Proof.
  pose proof w_pos as Hw. destruct (offset_div bit) as [-> ->]. pose proof (Z.mod_pos_bound bit w ltac:(lia)) as Hm.
  destruct (bit / w =? k); cbn [Z.b2z]; [rewrite Z.shiftl_1_l | rewrite Z.shiftl_0_l; apply Z.mod_0_l, Z.pow_nonzero; lia].
  apply Z.mod_small. split; [apply Z.pow_nonneg; lia | apply Z.pow_lt_mono_r; lia].
Qed.

Lemma addend_range bit k : 0 <= (if bit / w =? k then 2 ^ (bit mod w) else 0) <= 2 ^ w - 1.
Proof. rewrite <- addend. pose proof (Z.mod_pos_bound (Z.shiftl (Z.b2z (Z.shiftr bit lg =? k)) (Z.land bit m)) (2 ^ w) (W_pos w ltac:(pose proof w_pos; lia))). lia. Qed.

Lemma pow_bit bit : 0 <= bit -> 2 ^ bit = 2 ^ (w * (bit / w)) * 2 ^ (bit mod w).
Proof.
  intros Hb. pose proof w_pos. pose proof (Z.mod_pos_bound bit w ltac:(lia)). assert (0 <= bit / w) by (apply Z.div_pos; lia).
  rewrite <- Z.pow_add_r by lia. f_equal. apply Z.div_mod. lia.
Qed.

(** The addends of all limbs write the bit, or nothing when it is past the last limb. *)
Lemma addends_from bit s L : 0 <= bit ->
  2 ^ (w * Z.of_nat s) * words_Z w (map (fun k => if bit / w =? Z.of_nat k then 2 ^ (bit mod w) else 0) (seq s L)) =
  if (Z.of_nat s <=? bit / w) && (bit / w <? Z.of_nat (s + L)) then 2 ^ bit else 0.
Proof.
  intros Hb. pose proof w_pos as Hw. revert s. induction L as [|L IH]; intros s; cbn [seq map words_Z].
  - rewrite Z.mul_0_r, Nat.add_0_r. destruct (Z.leb_spec (Z.of_nat s) (bit / w)), (Z.ltb_spec (bit / w) (Z.of_nat s)); reflexivity || lia.
  - specialize (IH (S s)). replace (w * Z.of_nat (S s)) with (w * Z.of_nat s + w) in IH by lia. rewrite Z.pow_add_r in IH by lia.
    rewrite Z.mul_add_distr_l, Z.mul_assoc, IH. replace (S s + L)%nat with (s + S L)%nat by lia.
    destruct (Z.eqb_spec (bit / w) (Z.of_nat s)) as [E | E].
    + rewrite (pow_bit bit Hb), E. destruct (Z.leb_spec (Z.of_nat (S s)) (Z.of_nat s)), (Z.leb_spec (Z.of_nat s) (Z.of_nat s)),
        (Z.ltb_spec (Z.of_nat s) (Z.of_nat (s + S L))); cbn [andb]; lia.
    + destruct (Z.leb_spec (Z.of_nat (S s)) (bit / w)), (Z.leb_spec (Z.of_nat s) (bit / w)); cbn [andb]; lia.
Qed.

Lemma addends_bit bit L : 0 <= bit ->
  words_Z w (map (fun k => if bit / w =? Z.of_nat k then 2 ^ (bit mod w) else 0) (seq 0 L)) = if bit <? w * Z.of_nat L then 2 ^ bit else 0.
Proof.
  intros Hb. pose proof w_pos as Hw. pose proof (addends_from bit 0 L Hb) as H. rewrite Z.mul_0_r, Z.pow_0_r, Z.mul_1_l in H. rewrite H.
  rewrite (proj2 (Z.leb_le _ _)) by (apply Z.div_pos; lia). cbn [andb]. replace (bit / w <? Z.of_nat (0 + L)) with (bit <? w * Z.of_nat L); [reflexivity|].
  apply eq_true_iff_eq. rewrite !Z.ltb_lt. split; intros H'; [apply Z.div_lt_upper_bound; lia|].
  apply Z.lt_le_trans with (w * (bit / w + 1)); [pose proof (Z.div_mod bit w); pose proof (Z.mod_pos_bound bit w); lia | apply Z.mul_le_mono_nonneg_l; lia].
Qed.

End Offsets.

(** The flag moves the bit past the last limb. *)
Lemma cadd_offset bit (flag : bool) : 0 <= bit < 256 ->
  u32 (bit + Z.land (u32 (Z.b2z flag - 1)) 0x100) = if flag then bit else bit + 256.
Proof.
  intros Hb. destruct flag; [change (Z.land (u32 (Z.b2z true - 1)) 0x100) with 0 | change (Z.land (u32 (Z.b2z false - 1)) 0x100) with 256];
    unfold u32; rewrite Z.mod_small; lia.
Qed.

(** ** Bytes *)

Lemma byte_shift w x k : 0 <= x < 256 -> 0 <= k -> k + 8 <= w -> Z.shiftl x k mod 2 ^ w = Z.shiftl x k.
Proof.
  intros Hx Hk Hw. apply Z.mod_small. rewrite Z.shiftl_mul_pow2 by lia. assert (0 < 2 ^ k) by (apply Z.pow_pos_nonneg; lia).
  split; [apply Z.mul_nonneg_nonneg; lia|]. apply Z.lt_le_trans with (2 ^ 8 * 2 ^ k); [apply Z.mul_lt_mono_pos_r; lia|].
  rewrite <- Z.pow_add_r by lia. apply Z.pow_le_mono_r; lia.
Qed.

(** ** Complements *)

Section Complement.
Context (w : Z) (Hw : 0 <= w).

Lemma lnot_word x : is_uw w x -> Z.lnot x mod 2 ^ w = 2 ^ w - 1 - x.
Proof. unfold is_uw, Z.lnot. intros Hx. symmetry. apply (Z.mod_unique_pos _ _ (-1)); lia. Qed.

Lemma word_bits_high x i : is_uw w x -> w <= i -> Z.testbit x i = false.
Proof.
  unfold is_uw. intros Hx Hi. destruct (Z.eq_dec x 0) as [->|]; [apply Z.testbit_0_l|].
  apply Z.bits_above_log2; [lia|]. apply Z.log2_lt_pow2; [lia|]. apply Z.lt_le_trans with (2 ^ w); [lia | apply Z.pow_le_mono_r; lia].
Qed.

Lemma lxor_ones_word x : is_uw w x -> Z.lxor x (Z.ones w) = 2 ^ w - 1 - x.
Proof.
  intros Hx. rewrite <- (lnot_word x Hx), <- Z.land_ones by lia.
  apply Z.bits_inj'. intros i Hi. rewrite Z.lxor_spec, Z.land_spec, Z.lnot_spec by exact Hi.
  destruct (Z.lt_ge_cases i w).
  - rewrite Z.ones_spec_low by lia. destruct (Z.testbit x i); reflexivity.
  - rewrite Z.ones_spec_high, andb_false_r, xorb_false_r by lia. apply word_bits_high; assumption.
Qed.

Lemma land_ones_word x : is_uw w x -> Z.land x (Z.ones w) = x.
Proof. intros Hx. rewrite Z.land_ones by exact Hw. apply Z.mod_small. exact Hx. Qed.

Lemma shiftr_word x : is_uw w x -> Z.shiftr x w = 0.
Proof. unfold is_uw. intros Hx. rewrite Z.shiftr_div_pow2 by exact Hw. apply Z.div_small. exact Hx. Qed.

End Complement.

(** ** Code steps *)

Lemma fold_order x y hi : x - y = hi * n -> y mod n = x mod n.
Proof. intros H. replace x with (y + hi * n) by lia. symmetry. apply Z.mod_add. discriminate. Qed.

(** The quotient of a product by at least [2 ^ 256] leaves room for the rounding. *)
Lemma product_shift_room a b shift : 0 <= a < n -> 0 <= b < n -> 256 <= shift -> a * b / 2 ^ shift + 1 < n.
Proof.
  intros Ha Hb Hs. assert (0 <= a * b <= (n - 1) * (n - 1)) as Hab by (split; [apply Z.mul_nonneg_nonneg; lia | apply Z.mul_le_mono_nonneg; lia]).
  assert (a * b / 2 ^ shift <= a * b / 2 ^ 256) by (apply Z.div_le_compat_l; [lia | split; [lia | apply Z.pow_le_mono_r; lia]]).
  assert (a * b / 2 ^ 256 < n - 1); [|lia]. apply Z.div_lt_upper_bound; [lia|]. unfold n in *. lia.
Qed.

(** A sum below twice the order, by its low 256 bits and its carry. *)
Lemma carry_flag Z0 c V : 0 <= Z0 < 2 ^ 256 -> 0 <= c <= 1 -> V = Z0 + c * 2 ^ 256 -> V < 2 * n ->
  c + Z.b2z (n <=? Z0) = Z.b2z (n <=? V).
Proof.
  intros HZ Hc E HV. assert (c = 0 \/ c = 1) as [->| ->] by lia.
  - replace V with Z0 by lia. reflexivity.
  - destruct (Z.leb_spec n V), (Z.leb_spec n Z0); cbn [Z.b2z]; unfold n in *; lia.
Qed.

Lemma carry_reduce Z0 c V : 0 <= Z0 < 2 ^ 256 -> 0 <= c <= 1 -> V = Z0 + c * 2 ^ 256 -> V < 2 * n ->
  (Z0 + Z.b2z (n <=? V) * (2 ^ 256 - n)) mod 2 ^ 256 = V mod n.
Proof.
  intros HZ Hc E HV. destruct (Z.leb_spec n V); cbn [Z.b2z].
  - rewrite <- (Z.mod_unique_pos V n 1 (V - n)) by (unfold n in *; lia).
    symmetry. apply (Z.mod_unique_pos _ _ (1 - c)); unfold n in *; lia.
  - assert (c = 0) by (unfold n in *; lia). subst c. rewrite !Z.mod_small by lia. lia.
Qed.

(** A flag survives the conversions between integer types. *)
Lemma u32_flag (b : bool) : u32 (Z.b2z b) = Z.b2z b.
Proof. destruct b; reflexivity. Qed.

Lemma i32_u64_flag (b : bool) : i32 (u64 (Z.b2z b)) = Z.b2z b.
Proof. destruct b; reflexivity. Qed.

Lemma i32_u128_flag (b : bool) : i32 (u128 (Z.b2z b)) = Z.b2z b.
Proof. destruct b; reflexivity. Qed.

(** A pure function by the rules for straight-line code. *)
Lemma Returns_pure {A} (x : A) (Q : A -> Prop) : Returns (ret x) Q -> Q x.
Proof. exact (fun H => H). Qed.

Ltac c_pure_step :=
  cbv beta;
  lazymatch goal with
  | |- Returns (ret (let x := ?e in @?K x)) ?Q => change (Returns (let x := e in ret (K x)) Q); c_step
  end.

Lemma word_nth w k l i : 0 <= w -> words_ok w k l -> 0 <= nth i l 0 <= 2 ^ w - 1.
Proof.
  intros Hw [_ Hl]. destruct (Nat.lt_ge_cases i (length l)) as [Hi|Hi].
  - rewrite Forall_forall in Hl. pose proof (Hl _ (nth_In l 0 Hi)) as H. unfold is_uw in H. lia.
  - rewrite nth_overflow by exact Hi. pose proof (W_pos w Hw). lia.
Qed.

(** Names a word of [l]. *)
Ltac name_word l H i x :=
  let B := fresh "Bl" in
  lazymatch type of H with words_ok ?w ?k _ => pose proof (word_nth w k l i ltac:(wide) H) as B end; set (x := nth i l 0) in *; clearbody x;
  match type of B with 0 <= x <= ?m => let m' := eval vm_compute in m in change (0 <= x <= m') in B end.

(** The number the words of [l] write, by index. *)
Ltac words_by_index l k H :=
  lazymatch type of H with words_ok ?w _ _ =>
    let EV := fresh "EV" in pose proof (f_equal (words_Z w) (list_as_nth l k (proj1 H))) as EV; cbn [seq map words_Z] in EV; rewrite EV; clear EV
  end.

(** Replaces the extracted words by the sums they come from. *)
Ltac subst_words :=
  repeat match goal with
  | E : ?v = ?x + 2 ^ ?w * ?q |- _ => is_var x; assert (x = v - 2 ^ w * q) by lia; clear E; subst x
  end.

Ltac close_word_list := split; [reflexivity|]; repeat (constructor; [unfold is_uw; lia|]); constructor.
