(* ===== verification/Scalar8x32.v ===== *)
(** * Scalars in eight limbs of 32 bits: [scalar_8x32.h], [scalar_8x32_impl.h]

    A scalar is an integer below the group order, little endian.  The limbs are
    32-bit unsigned words; a function that takes its output by pointer returns
    it. *)

From Stdlib Require Import ZArith Lia List Bool.
From S2P Require Import Prelude Modulus Bytes ScalarAcc ScalarWords.
Import ListNotations.

#[local] Open Scope Z_scope.
#[local] Open Scope checked_scope.

(** ** Data *)

Record secp256k1_scalar : Type := S8 { d0 : Z; d1 : Z; d2 : Z; d3 : Z; d4 : Z; d5 : Z; d6 : Z; d7 : Z }.

Definition SECP256K1_SCALAR_CONST (d7 d6 d5 d4 d3 d2 d1 d0 : Z) : secp256k1_scalar :=
  S8 d0 d1 d2 d3 d4 d5 d6 d7.

(** [a->d[i]] *)
Definition limb (a : secp256k1_scalar) (i : Z) : Z :=
  nth (Z.to_nat i) [d0 a; d1 a; d2 a; d3 a; d4 a; d5 a; d6 a; d7 a] 0.

(** Limbs of the order. *)
Definition SECP256K1_N_0 : Z := 0xD0364141.
Definition SECP256K1_N_1 : Z := 0xBFD25E8C.
Definition SECP256K1_N_2 : Z := 0xAF48A03B.
Definition SECP256K1_N_3 : Z := 0xBAAEDCE6.
Definition SECP256K1_N_4 : Z := 0xFFFFFFFE.
Definition SECP256K1_N_5 : Z := 0xFFFFFFFF.
Definition SECP256K1_N_6 : Z := 0xFFFFFFFF.
Definition SECP256K1_N_7 : Z := 0xFFFFFFFF.

(** Limbs of 2^256 minus the order. *)
Definition SECP256K1_N_C_0 : Z := Eval compute in u32 (Z.lnot SECP256K1_N_0 + 1).
Definition SECP256K1_N_C_1 : Z := Eval compute in u32 (Z.lnot SECP256K1_N_1).
Definition SECP256K1_N_C_2 : Z := Eval compute in u32 (Z.lnot SECP256K1_N_2).
Definition SECP256K1_N_C_3 : Z := Eval compute in u32 (Z.lnot SECP256K1_N_3).
Definition SECP256K1_N_C_4 : Z := 1.

(** Limbs of half the order. *)
Definition SECP256K1_N_H_0 : Z := 0x681B20A0.
Definition SECP256K1_N_H_1 : Z := 0xDFE92F46.
Definition SECP256K1_N_H_2 : Z := 0x57A4501D.
Definition SECP256K1_N_H_3 : Z := 0x5D576E73.
Definition SECP256K1_N_H_4 : Z := 0xFFFFFFFF.
Definition SECP256K1_N_H_5 : Z := 0xFFFFFFFF.
Definition SECP256K1_N_H_6 : Z := 0xFFFFFFFF.
Definition SECP256K1_N_H_7 : Z := 0x7FFFFFFF.

(** ** Operations *)

Definition secp256k1_scalar_clear : secp256k1_scalar := S8 0 0 0 0 0 0 0 0.

Definition secp256k1_scalar_set_int (v : Z) : secp256k1_scalar := S8 v 0 0 0 0 0 0 0.

Definition secp256k1_scalar_get_bits (a : secp256k1_scalar) (offset count : Z) : checked Z :=
  VERIFY_CHECK (Z.shiftr (u32 (offset + count - 1)) 5 =? Z.shiftr offset 5);;
  ret (Z.land (Z.shiftr (limb a (Z.shiftr offset 5)) (Z.land offset 0x1F)) (Z.shiftl 1 count - 1)).

Definition secp256k1_scalar_get_bits_var (a : secp256k1_scalar) (offset count : Z) : checked Z :=
  VERIFY_CHECK (count <? 32);;
  VERIFY_CHECK (u32 (offset + count) <=? 256);;
  if Z.shiftr (u32 (offset + count - 1)) 5 =? Z.shiftr offset 5 then
    secp256k1_scalar_get_bits a offset count
  else
    VERIFY_CHECK (Z.shiftr offset 5 + 1 <? 8);;
    ret (Z.land (Z.lor (Z.shiftr (limb a (Z.shiftr offset 5)) (Z.land offset 0x1F))
                       (u32 (Z.shiftl (limb a (Z.shiftr offset 5 + 1)) (32 - Z.land offset 0x1F))))
                (u32 (Z.shiftl 1 count - 1))).

Definition secp256k1_scalar_check_overflow (a : secp256k1_scalar) : Z :=
  let yes := 0 in
  let no := 0 in
  let no := Z.lor no (Z.b2z (d7 a <? SECP256K1_N_7)) in
  let no := Z.lor no (Z.b2z (d6 a <? SECP256K1_N_6)) in
  let no := Z.lor no (Z.b2z (d5 a <? SECP256K1_N_5)) in
  let no := Z.lor no (Z.b2z (d4 a <? SECP256K1_N_4)) in
  let yes := Z.lor yes (Z.land (Z.b2z (SECP256K1_N_4 <? d4 a)) (Z.lnot no)) in
  let no := Z.lor no (Z.land (Z.b2z (d3 a <? SECP256K1_N_3)) (Z.lnot yes)) in
  let yes := Z.lor yes (Z.land (Z.b2z (SECP256K1_N_3 <? d3 a)) (Z.lnot no)) in
  let no := Z.lor no (Z.land (Z.b2z (d2 a <? SECP256K1_N_2)) (Z.lnot yes)) in
  let yes := Z.lor yes (Z.land (Z.b2z (SECP256K1_N_2 <? d2 a)) (Z.lnot no)) in
  let no := Z.lor no (Z.land (Z.b2z (d1 a <? SECP256K1_N_1)) (Z.lnot yes)) in
  let yes := Z.lor yes (Z.land (Z.b2z (SECP256K1_N_1 <? d1 a)) (Z.lnot no)) in
  let yes := Z.lor yes (Z.land (Z.b2z (SECP256K1_N_0 <=? d0 a)) (Z.lnot no)) in
  yes.

(** The new value, after the returned [overflow]. *)
Definition secp256k1_scalar_reduce (r : secp256k1_scalar) (overflow : Z) : checked (Z * secp256k1_scalar) :=
  VERIFY_CHECK (overflow <=? 1);;
  let t := u64 (d0 r + u32 (overflow * SECP256K1_N_C_0)) in let r0 := Z.land t 0xFFFFFFFF in let t := Z.shiftr t 32 in
  let t := u64 (t + (d1 r + u32 (overflow * SECP256K1_N_C_1))) in let r1 := Z.land t 0xFFFFFFFF in let t := Z.shiftr t 32 in
  let t := u64 (t + (d2 r + u32 (overflow * SECP256K1_N_C_2))) in let r2 := Z.land t 0xFFFFFFFF in let t := Z.shiftr t 32 in
  let t := u64 (t + (d3 r + u32 (overflow * SECP256K1_N_C_3))) in let r3 := Z.land t 0xFFFFFFFF in let t := Z.shiftr t 32 in
  let t := u64 (t + (d4 r + u32 (overflow * SECP256K1_N_C_4))) in let r4 := Z.land t 0xFFFFFFFF in let t := Z.shiftr t 32 in
  let t := u64 (t + d5 r) in let r5 := Z.land t 0xFFFFFFFF in let t := Z.shiftr t 32 in
  let t := u64 (t + d6 r) in let r6 := Z.land t 0xFFFFFFFF in let t := Z.shiftr t 32 in
  let t := u64 (t + d7 r) in let r7 := Z.land t 0xFFFFFFFF in
  ret (overflow, S8 r0 r1 r2 r3 r4 r5 r6 r7).

(** Whether the sum overflowed, and the sum. *)
Definition secp256k1_scalar_add (a b : secp256k1_scalar) : checked (Z * secp256k1_scalar) :=
  let t := u64 (d0 a + d0 b) in let r0 := Z.land t 0xFFFFFFFF in let t := Z.shiftr t 32 in
  let t := u64 (t + (d1 a + d1 b)) in let r1 := Z.land t 0xFFFFFFFF in let t := Z.shiftr t 32 in
  let t := u64 (t + (d2 a + d2 b)) in let r2 := Z.land t 0xFFFFFFFF in let t := Z.shiftr t 32 in
  let t := u64 (t + (d3 a + d3 b)) in let r3 := Z.land t 0xFFFFFFFF in let t := Z.shiftr t 32 in
  let t := u64 (t + (d4 a + d4 b)) in let r4 := Z.land t 0xFFFFFFFF in let t := Z.shiftr t 32 in
  let t := u64 (t + (d5 a + d5 b)) in let r5 := Z.land t 0xFFFFFFFF in let t := Z.shiftr t 32 in
  let t := u64 (t + (d6 a + d6 b)) in let r6 := Z.land t 0xFFFFFFFF in let t := Z.shiftr t 32 in
  let t := u64 (t + (d7 a + d7 b)) in let r7 := Z.land t 0xFFFFFFFF in let t := Z.shiftr t 32 in
  let r := S8 r0 r1 r2 r3 r4 r5 r6 r7 in
  let overflow := i32 (u64 (t + secp256k1_scalar_check_overflow r)) in
  VERIFY_CHECK ((overflow =? 0) || (overflow =? 1));;
  ' (_, r) <- secp256k1_scalar_reduce r (u32 overflow);;
  ret (overflow, r).

Definition secp256k1_scalar_cadd_bit (r : secp256k1_scalar) (bit flag : Z) : checked secp256k1_scalar :=
  VERIFY_CHECK (bit <? 256);;
  let bit := u32 (bit + Z.land (u32 (flag - 1)) 0x100) in  (* forcing (bit >> 5) > 7 makes this a noop *)
  let t := u64 (d0 r + u32 (Z.shiftl (Z.b2z (Z.shiftr bit 5 =? 0)) (Z.land bit 0x1F))) in let r0 := Z.land t 0xFFFFFFFF in let t := Z.shiftr t 32 in
  let t := u64 (t + (d1 r + u32 (Z.shiftl (Z.b2z (Z.shiftr bit 5 =? 1)) (Z.land bit 0x1F)))) in let r1 := Z.land t 0xFFFFFFFF in let t := Z.shiftr t 32 in
  let t := u64 (t + (d2 r + u32 (Z.shiftl (Z.b2z (Z.shiftr bit 5 =? 2)) (Z.land bit 0x1F)))) in let r2 := Z.land t 0xFFFFFFFF in let t := Z.shiftr t 32 in
  let t := u64 (t + (d3 r + u32 (Z.shiftl (Z.b2z (Z.shiftr bit 5 =? 3)) (Z.land bit 0x1F)))) in let r3 := Z.land t 0xFFFFFFFF in let t := Z.shiftr t 32 in
  let t := u64 (t + (d4 r + u32 (Z.shiftl (Z.b2z (Z.shiftr bit 5 =? 4)) (Z.land bit 0x1F)))) in let r4 := Z.land t 0xFFFFFFFF in let t := Z.shiftr t 32 in
  let t := u64 (t + (d5 r + u32 (Z.shiftl (Z.b2z (Z.shiftr bit 5 =? 5)) (Z.land bit 0x1F)))) in let r5 := Z.land t 0xFFFFFFFF in let t := Z.shiftr t 32 in
  let t := u64 (t + (d6 r + u32 (Z.shiftl (Z.b2z (Z.shiftr bit 5 =? 6)) (Z.land bit 0x1F)))) in let r6 := Z.land t 0xFFFFFFFF in let t := Z.shiftr t 32 in
  let t := u64 (t + (d7 r + u32 (Z.shiftl (Z.b2z (Z.shiftr bit 5 =? 7)) (Z.land bit 0x1F)))) in let r7 := Z.land t 0xFFFFFFFF in
  let r := S8 r0 r1 r2 r3 r4 r5 r6 r7 in
  VERIFY_CHECK (Z.shiftr t 32 =? 0);;
  VERIFY_CHECK (secp256k1_scalar_check_overflow r =? 0);;
  ret r.

(** Whether the integer was reduced, and the scalar. *)
Definition secp256k1_scalar_set_b32 (b32 : list Z) : checked (Z * secp256k1_scalar) :=
  let b i := nth i b32 0 in
  let r0 := Z.lor (Z.lor (Z.lor (b 31%nat) (u32 (Z.shiftl (b 30%nat) 8))) (u32 (Z.shiftl (b 29%nat) 16))) (u32 (Z.shiftl (b 28%nat) 24)) in
  let r1 := Z.lor (Z.lor (Z.lor (b 27%nat) (u32 (Z.shiftl (b 26%nat) 8))) (u32 (Z.shiftl (b 25%nat) 16))) (u32 (Z.shiftl (b 24%nat) 24)) in
  let r2 := Z.lor (Z.lor (Z.lor (b 23%nat) (u32 (Z.shiftl (b 22%nat) 8))) (u32 (Z.shiftl (b 21%nat) 16))) (u32 (Z.shiftl (b 20%nat) 24)) in
  let r3 := Z.lor (Z.lor (Z.lor (b 19%nat) (u32 (Z.shiftl (b 18%nat) 8))) (u32 (Z.shiftl (b 17%nat) 16))) (u32 (Z.shiftl (b 16%nat) 24)) in
  let r4 := Z.lor (Z.lor (Z.lor (b 15%nat) (u32 (Z.shiftl (b 14%nat) 8))) (u32 (Z.shiftl (b 13%nat) 16))) (u32 (Z.shiftl (b 12%nat) 24)) in
  let r5 := Z.lor (Z.lor (Z.lor (b 11%nat) (u32 (Z.shiftl (b 10%nat) 8))) (u32 (Z.shiftl (b 9%nat) 16))) (u32 (Z.shiftl (b 8%nat) 24)) in
  let r6 := Z.lor (Z.lor (Z.lor (b 7%nat) (u32 (Z.shiftl (b 6%nat) 8))) (u32 (Z.shiftl (b 5%nat) 16))) (u32 (Z.shiftl (b 4%nat) 24)) in
  let r7 := Z.lor (Z.lor (Z.lor (b 3%nat) (u32 (Z.shiftl (b 2%nat) 8))) (u32 (Z.shiftl (b 1%nat) 16))) (u32 (Z.shiftl (b 0%nat) 24)) in
  let r := S8 r0 r1 r2 r3 r4 r5 r6 r7 in
  secp256k1_scalar_reduce r (u32 (secp256k1_scalar_check_overflow r)).

Definition secp256k1_scalar_get_b32 (a : secp256k1_scalar) : list Z :=
  [u8 (Z.shiftr (d7 a) 24); u8 (Z.shiftr (d7 a) 16); u8 (Z.shiftr (d7 a) 8); u8 (d7 a);
   u8 (Z.shiftr (d6 a) 24); u8 (Z.shiftr (d6 a) 16); u8 (Z.shiftr (d6 a) 8); u8 (d6 a);
   u8 (Z.shiftr (d5 a) 24); u8 (Z.shiftr (d5 a) 16); u8 (Z.shiftr (d5 a) 8); u8 (d5 a);
   u8 (Z.shiftr (d4 a) 24); u8 (Z.shiftr (d4 a) 16); u8 (Z.shiftr (d4 a) 8); u8 (d4 a);
   u8 (Z.shiftr (d3 a) 24); u8 (Z.shiftr (d3 a) 16); u8 (Z.shiftr (d3 a) 8); u8 (d3 a);
   u8 (Z.shiftr (d2 a) 24); u8 (Z.shiftr (d2 a) 16); u8 (Z.shiftr (d2 a) 8); u8 (d2 a);
   u8 (Z.shiftr (d1 a) 24); u8 (Z.shiftr (d1 a) 16); u8 (Z.shiftr (d1 a) 8); u8 (d1 a);
   u8 (Z.shiftr (d0 a) 24); u8 (Z.shiftr (d0 a) 16); u8 (Z.shiftr (d0 a) 8); u8 (d0 a)].

Definition secp256k1_scalar_is_zero (a : secp256k1_scalar) : bool :=
  Z.lor (Z.lor (Z.lor (Z.lor (Z.lor (Z.lor (Z.lor (d0 a) (d1 a)) (d2 a)) (d3 a)) (d4 a)) (d5 a)) (d6 a)) (d7 a) =? 0.

Definition secp256k1_scalar_negate (a : secp256k1_scalar) : secp256k1_scalar :=
  let nonzero := u32 (0xFFFFFFFF * Z.b2z (negb (secp256k1_scalar_is_zero a))) in
  let t := u64 (u32 (Z.lnot (d0 a)) + SECP256K1_N_0 + 1) in let r0 := Z.land t nonzero in let t := Z.shiftr t 32 in
  let t := u64 (t + (u32 (Z.lnot (d1 a)) + SECP256K1_N_1)) in let r1 := Z.land t nonzero in let t := Z.shiftr t 32 in
  let t := u64 (t + (u32 (Z.lnot (d2 a)) + SECP256K1_N_2)) in let r2 := Z.land t nonzero in let t := Z.shiftr t 32 in
  let t := u64 (t + (u32 (Z.lnot (d3 a)) + SECP256K1_N_3)) in let r3 := Z.land t nonzero in let t := Z.shiftr t 32 in
  let t := u64 (t + (u32 (Z.lnot (d4 a)) + SECP256K1_N_4)) in let r4 := Z.land t nonzero in let t := Z.shiftr t 32 in
  let t := u64 (t + (u32 (Z.lnot (d5 a)) + SECP256K1_N_5)) in let r5 := Z.land t nonzero in let t := Z.shiftr t 32 in
  let t := u64 (t + (u32 (Z.lnot (d6 a)) + SECP256K1_N_6)) in let r6 := Z.land t nonzero in let t := Z.shiftr t 32 in
  let t := u64 (t + (u32 (Z.lnot (d7 a)) + SECP256K1_N_7)) in let r7 := Z.land t nonzero in
  S8 r0 r1 r2 r3 r4 r5 r6 r7.

Definition secp256k1_scalar_is_one (a : secp256k1_scalar) : bool :=
  Z.lor (Z.lor (Z.lor (Z.lor (Z.lor (Z.lor (Z.lor (Z.lxor (d0 a) 1) (d1 a)) (d2 a)) (d3 a)) (d4 a)) (d5 a)) (d6 a)) (d7 a) =? 0.

Definition secp256k1_scalar_is_high (a : secp256k1_scalar) : Z :=
  let yes := 0 in
  let no := 0 in
  let no := Z.lor no (Z.b2z (d7 a <? SECP256K1_N_H_7)) in
  let yes := Z.lor yes (Z.land (Z.b2z (SECP256K1_N_H_7 <? d7 a)) (Z.lnot no)) in
  let no := Z.lor no (Z.land (Z.b2z (d6 a <? SECP256K1_N_H_6)) (Z.lnot yes)) in
  let no := Z.lor no (Z.land (Z.b2z (d5 a <? SECP256K1_N_H_5)) (Z.lnot yes)) in
  let no := Z.lor no (Z.land (Z.b2z (d4 a <? SECP256K1_N_H_4)) (Z.lnot yes)) in
  let no := Z.lor no (Z.land (Z.b2z (d3 a <? SECP256K1_N_H_3)) (Z.lnot yes)) in
  let yes := Z.lor yes (Z.land (Z.b2z (SECP256K1_N_H_3 <? d3 a)) (Z.lnot no)) in
  let no := Z.lor no (Z.land (Z.b2z (d2 a <? SECP256K1_N_H_2)) (Z.lnot yes)) in
  let yes := Z.lor yes (Z.land (Z.b2z (SECP256K1_N_H_2 <? d2 a)) (Z.lnot no)) in
  let no := Z.lor no (Z.land (Z.b2z (d1 a <? SECP256K1_N_H_1)) (Z.lnot yes)) in
  let yes := Z.lor yes (Z.land (Z.b2z (SECP256K1_N_H_1 <? d1 a)) (Z.lnot no)) in
  let yes := Z.lor yes (Z.land (Z.b2z (SECP256K1_N_H_0 <? d0 a)) (Z.lnot no)) in
  yes.

(** 1 or -1, and the new value. *)
Definition secp256k1_scalar_cond_negate (r : secp256k1_scalar) (flag : Z) : Z * secp256k1_scalar :=
  let mask := u32 (Z.b2z (flag =? 0) - 1) in
  let nonzero := u32 (0xFFFFFFFF * Z.b2z (negb (secp256k1_scalar_is_zero r))) in
  let t := u64 (Z.lxor (d0 r) mask + Z.land (u32 (SECP256K1_N_0 + 1)) mask) in let r0 := Z.land t nonzero in let t := Z.shiftr t 32 in
  let t := u64 (t + (Z.lxor (d1 r) mask + Z.land SECP256K1_N_1 mask)) in let r1 := Z.land t nonzero in let t := Z.shiftr t 32 in
  let t := u64 (t + (Z.lxor (d2 r) mask + Z.land SECP256K1_N_2 mask)) in let r2 := Z.land t nonzero in let t := Z.shiftr t 32 in
  let t := u64 (t + (Z.lxor (d3 r) mask + Z.land SECP256K1_N_3 mask)) in let r3 := Z.land t nonzero in let t := Z.shiftr t 32 in
  let t := u64 (t + (Z.lxor (d4 r) mask + Z.land SECP256K1_N_4 mask)) in let r4 := Z.land t nonzero in let t := Z.shiftr t 32 in
  let t := u64 (t + (Z.lxor (d5 r) mask + Z.land SECP256K1_N_5 mask)) in let r5 := Z.land t nonzero in let t := Z.shiftr t 32 in
  let t := u64 (t + (Z.lxor (d6 r) mask + Z.land SECP256K1_N_6 mask)) in let r6 := Z.land t nonzero in let t := Z.shiftr t 32 in
  let t := u64 (t + (Z.lxor (d7 r) mask + Z.land SECP256K1_N_7 mask)) in let r7 := Z.land t nonzero in
  (2 * Z.b2z (mask =? 0) - 1, S8 r0 r1 r2 r3 r4 r5 r6 r7).

(** ** Products of 512 bits and their reduction

    [secp256k1_scalar_reduce_512] in its three stages, each a function of the
    words it reads. *)

(** [m[0..12] = l[0..7] + n[0..7] * SECP256K1_N_C] *)
Definition reduce_512_385 (l : list Z) : checked (list Z) :=
  let l0 := nth 0 l 0 in let l1 := nth 1 l 0 in let l2 := nth 2 l 0 in let l3 := nth 3 l 0 in
  let l4 := nth 4 l 0 in let l5 := nth 5 l 0 in let l6 := nth 6 l 0 in let l7 := nth 7 l 0 in
  let n0 := nth 8 l 0 in let n1 := nth 9 l 0 in let n2 := nth 10 l 0 in let n3 := nth 11 l 0 in
  let n4 := nth 12 l 0 in let n5 := nth 13 l 0 in let n6 := nth 14 l 0 in let n7 := nth 15 l 0 in
  let c := mk_acc l0 0 0 in
  c <- muladd_fast 32 c n0 SECP256K1_N_C_0;; ' (m0, c) <- extract_fast c;;
  c <- sumadd_fast 32 c l1;; c <- muladd 32 32 c n1 SECP256K1_N_C_0;; c <- muladd 32 32 c n0 SECP256K1_N_C_1;;
  ' (m1, c) <- extract c;;
  c <- sumadd 32 32 c l2;; c <- muladd 32 32 c n2 SECP256K1_N_C_0;; c <- muladd 32 32 c n1 SECP256K1_N_C_1;;
  c <- muladd 32 32 c n0 SECP256K1_N_C_2;; ' (m2, c) <- extract c;;
  c <- sumadd 32 32 c l3;; c <- muladd 32 32 c n3 SECP256K1_N_C_0;; c <- muladd 32 32 c n2 SECP256K1_N_C_1;;
  c <- muladd 32 32 c n1 SECP256K1_N_C_2;; c <- muladd 32 32 c n0 SECP256K1_N_C_3;; ' (m3, c) <- extract c;;
  c <- sumadd 32 32 c l4;; c <- muladd 32 32 c n4 SECP256K1_N_C_0;; c <- muladd 32 32 c n3 SECP256K1_N_C_1;;
  c <- muladd 32 32 c n2 SECP256K1_N_C_2;; c <- muladd 32 32 c n1 SECP256K1_N_C_3;; c <- sumadd 32 32 c n0;;
  ' (m4, c) <- extract c;;
  c <- sumadd 32 32 c l5;; c <- muladd 32 32 c n5 SECP256K1_N_C_0;; c <- muladd 32 32 c n4 SECP256K1_N_C_1;;
  c <- muladd 32 32 c n3 SECP256K1_N_C_2;; c <- muladd 32 32 c n2 SECP256K1_N_C_3;; c <- sumadd 32 32 c n1;;
  ' (m5, c) <- extract c;;
  c <- sumadd 32 32 c l6;; c <- muladd 32 32 c n6 SECP256K1_N_C_0;; c <- muladd 32 32 c n5 SECP256K1_N_C_1;;
  c <- muladd 32 32 c n4 SECP256K1_N_C_2;; c <- muladd 32 32 c n3 SECP256K1_N_C_3;; c <- sumadd 32 32 c n2;;
  ' (m6, c) <- extract c;;
  c <- sumadd 32 32 c l7;; c <- muladd 32 32 c n7 SECP256K1_N_C_0;; c <- muladd 32 32 c n6 SECP256K1_N_C_1;;
  c <- muladd 32 32 c n5 SECP256K1_N_C_2;; c <- muladd 32 32 c n4 SECP256K1_N_C_3;; c <- sumadd 32 32 c n3;;
  ' (m7, c) <- extract c;;
  c <- muladd 32 32 c n7 SECP256K1_N_C_1;; c <- muladd 32 32 c n6 SECP256K1_N_C_2;;
  c <- muladd 32 32 c n5 SECP256K1_N_C_3;; c <- sumadd 32 32 c n4;; ' (m8, c) <- extract c;;
  c <- muladd 32 32 c n7 SECP256K1_N_C_2;; c <- muladd 32 32 c n6 SECP256K1_N_C_3;; c <- sumadd 32 32 c n5;;
  ' (m9, c) <- extract c;;
  c <- muladd 32 32 c n7 SECP256K1_N_C_3;; c <- sumadd 32 32 c n6;; ' (m10, c) <- extract c;;
  c <- sumadd_fast 32 c n7;; ' (m11, c) <- extract_fast c;;
  VERIFY_CHECK (c0 c <=? 1);;
  let m12 := c0 c in
  ret [m0; m1; m2; m3; m4; m5; m6; m7; m8; m9; m10; m11; m12].

(** [p[0..8] = m[0..7] + m[8..12] * SECP256K1_N_C] *)
Definition reduce_385_258 (m : list Z) : checked (list Z) :=
  let m0 := nth 0 m 0 in let m1 := nth 1 m 0 in let m2 := nth 2 m 0 in let m3 := nth 3 m 0 in let m4 := nth 4 m 0 in
  let m5 := nth 5 m 0 in let m6 := nth 6 m 0 in let m7 := nth 7 m 0 in let m8 := nth 8 m 0 in let m9 := nth 9 m 0 in
  let m10 := nth 10 m 0 in let m11 := nth 11 m 0 in let m12 := nth 12 m 0 in
  let c := mk_acc m0 0 0 in
  c <- muladd_fast 32 c m8 SECP256K1_N_C_0;; ' (p0, c) <- extract_fast c;;
  c <- sumadd_fast 32 c m1;; c <- muladd 32 32 c m9 SECP256K1_N_C_0;; c <- muladd 32 32 c m8 SECP256K1_N_C_1;;
  ' (p1, c) <- extract c;;
  c <- sumadd 32 32 c m2;; c <- muladd 32 32 c m10 SECP256K1_N_C_0;; c <- muladd 32 32 c m9 SECP256K1_N_C_1;;
  c <- muladd 32 32 c m8 SECP256K1_N_C_2;; ' (p2, c) <- extract c;;
  c <- sumadd 32 32 c m3;; c <- muladd 32 32 c m11 SECP256K1_N_C_0;; c <- muladd 32 32 c m10 SECP256K1_N_C_1;;
  c <- muladd 32 32 c m9 SECP256K1_N_C_2;; c <- muladd 32 32 c m8 SECP256K1_N_C_3;; ' (p3, c) <- extract c;;
  c <- sumadd 32 32 c m4;; c <- muladd 32 32 c m12 SECP256K1_N_C_0;; c <- muladd 32 32 c m11 SECP256K1_N_C_1;;
  c <- muladd 32 32 c m10 SECP256K1_N_C_2;; c <- muladd 32 32 c m9 SECP256K1_N_C_3;; c <- sumadd 32 32 c m8;;
  ' (p4, c) <- extract c;;
  c <- sumadd 32 32 c m5;; c <- muladd 32 32 c m12 SECP256K1_N_C_1;; c <- muladd 32 32 c m11 SECP256K1_N_C_2;;
  c <- muladd 32 32 c m10 SECP256K1_N_C_3;; c <- sumadd 32 32 c m9;; ' (p5, c) <- extract c;;
  c <- sumadd 32 32 c m6;; c <- muladd 32 32 c m12 SECP256K1_N_C_2;; c <- muladd 32 32 c m11 SECP256K1_N_C_3;;
  c <- sumadd 32 32 c m10;; ' (p6, c) <- extract c;;
  c <- sumadd_fast 32 c m7;; c <- muladd_fast 32 c m12 SECP256K1_N_C_3;; c <- sumadd_fast 32 c m11;;
  ' (p7, c) <- extract_fast c;;
  let p8 := u32 (c0 c + m12) in
  VERIFY_CHECK (p8 <=? 2);;
  ret [p0; p1; p2; p3; p4; p5; p6; p7; p8].

(** [r[0..7] = p[0..7] + p[8] * SECP256K1_N_C], and the final reduction. *)
Definition reduce_258_256 (q : list Z) : checked secp256k1_scalar :=
  let p0 := nth 0 q 0 in let p1 := nth 1 q 0 in let p2 := nth 2 q 0 in let p3 := nth 3 q 0 in let p4 := nth 4 q 0 in
  let p5 := nth 5 q 0 in let p6 := nth 6 q 0 in let p7 := nth 7 q 0 in let p8 := nth 8 q 0 in
  let c := u64 (p0 + u64 (SECP256K1_N_C_0 * p8)) in let r0 := Z.land c 0xFFFFFFFF in let c := Z.shiftr c 32 in
  let c := u64 (c + (p1 + u64 (SECP256K1_N_C_1 * p8))) in let r1 := Z.land c 0xFFFFFFFF in let c := Z.shiftr c 32 in
  let c := u64 (c + (p2 + u64 (SECP256K1_N_C_2 * p8))) in let r2 := Z.land c 0xFFFFFFFF in let c := Z.shiftr c 32 in
  let c := u64 (c + (p3 + u64 (SECP256K1_N_C_3 * p8))) in let r3 := Z.land c 0xFFFFFFFF in let c := Z.shiftr c 32 in
  let c := u64 (c + (p4 + p8)) in let r4 := Z.land c 0xFFFFFFFF in let c := Z.shiftr c 32 in
  let c := u64 (c + p5) in let r5 := Z.land c 0xFFFFFFFF in let c := Z.shiftr c 32 in
  let c := u64 (c + p6) in let r6 := Z.land c 0xFFFFFFFF in let c := Z.shiftr c 32 in
  let c := u64 (c + p7) in let r7 := Z.land c 0xFFFFFFFF in let c := Z.shiftr c 32 in
  let r := S8 r0 r1 r2 r3 r4 r5 r6 r7 in
  ' (_, r) <- secp256k1_scalar_reduce r (u32 (c + secp256k1_scalar_check_overflow r));;
  ret r.

Definition secp256k1_scalar_reduce_512 (l : list Z) : checked secp256k1_scalar :=
  m <- reduce_512_385 l;;
  q <- reduce_385_258 m;;
  reduce_258_256 q.

Definition secp256k1_scalar_mul_512 (a b : secp256k1_scalar) : checked (list Z) :=
  let c := mk_acc 0 0 0 in
  c <- muladd_fast 32 c (d0 a) (d0 b);; ' (l0, c) <- extract_fast c;;
  c <- muladd 32 32 c (d0 a) (d1 b);; c <- muladd 32 32 c (d1 a) (d0 b);; ' (l1, c) <- extract c;;
  c <- muladd 32 32 c (d0 a) (d2 b);; c <- muladd 32 32 c (d1 a) (d1 b);; c <- muladd 32 32 c (d2 a) (d0 b);;
  ' (l2, c) <- extract c;;
  c <- muladd 32 32 c (d0 a) (d3 b);; c <- muladd 32 32 c (d1 a) (d2 b);; c <- muladd 32 32 c (d2 a) (d1 b);;
  c <- muladd 32 32 c (d3 a) (d0 b);; ' (l3, c) <- extract c;;
  c <- muladd 32 32 c (d0 a) (d4 b);; c <- muladd 32 32 c (d1 a) (d3 b);; c <- muladd 32 32 c (d2 a) (d2 b);;
  c <- muladd 32 32 c (d3 a) (d1 b);; c <- muladd 32 32 c (d4 a) (d0 b);; ' (l4, c) <- extract c;;
  c <- muladd 32 32 c (d0 a) (d5 b);; c <- muladd 32 32 c (d1 a) (d4 b);; c <- muladd 32 32 c (d2 a) (d3 b);;
  c <- muladd 32 32 c (d3 a) (d2 b);; c <- muladd 32 32 c (d4 a) (d1 b);; c <- muladd 32 32 c (d5 a) (d0 b);;
  ' (l5, c) <- extract c;;
  c <- muladd 32 32 c (d0 a) (d6 b);; c <- muladd 32 32 c (d1 a) (d5 b);; c <- muladd 32 32 c (d2 a) (d4 b);;
  c <- muladd 32 32 c (d3 a) (d3 b);; c <- muladd 32 32 c (d4 a) (d2 b);; c <- muladd 32 32 c (d5 a) (d1 b);;
  c <- muladd 32 32 c (d6 a) (d0 b);; ' (l6, c) <- extract c;;
  c <- muladd 32 32 c (d0 a) (d7 b);; c <- muladd 32 32 c (d1 a) (d6 b);; c <- muladd 32 32 c (d2 a) (d5 b);;
  c <- muladd 32 32 c (d3 a) (d4 b);; c <- muladd 32 32 c (d4 a) (d3 b);; c <- muladd 32 32 c (d5 a) (d2 b);;
  c <- muladd 32 32 c (d6 a) (d1 b);; c <- muladd 32 32 c (d7 a) (d0 b);; ' (l7, c) <- extract c;;
  c <- muladd 32 32 c (d1 a) (d7 b);; c <- muladd 32 32 c (d2 a) (d6 b);; c <- muladd 32 32 c (d3 a) (d5 b);;
  c <- muladd 32 32 c (d4 a) (d4 b);; c <- muladd 32 32 c (d5 a) (d3 b);; c <- muladd 32 32 c (d6 a) (d2 b);;
  c <- muladd 32 32 c (d7 a) (d1 b);; ' (l8, c) <- extract c;;
  c <- muladd 32 32 c (d2 a) (d7 b);; c <- muladd 32 32 c (d3 a) (d6 b);; c <- muladd 32 32 c (d4 a) (d5 b);;
  c <- muladd 32 32 c (d5 a) (d4 b);; c <- muladd 32 32 c (d6 a) (d3 b);; c <- muladd 32 32 c (d7 a) (d2 b);;
  ' (l9, c) <- extract c;;
  c <- muladd 32 32 c (d3 a) (d7 b);; c <- muladd 32 32 c (d4 a) (d6 b);; c <- muladd 32 32 c (d5 a) (d5 b);;
  c <- muladd 32 32 c (d6 a) (d4 b);; c <- muladd 32 32 c (d7 a) (d3 b);; ' (l10, c) <- extract c;;
  c <- muladd 32 32 c (d4 a) (d7 b);; c <- muladd 32 32 c (d5 a) (d6 b);; c <- muladd 32 32 c (d6 a) (d5 b);;
  c <- muladd 32 32 c (d7 a) (d4 b);; ' (l11, c) <- extract c;;
  c <- muladd 32 32 c (d5 a) (d7 b);; c <- muladd 32 32 c (d6 a) (d6 b);; c <- muladd 32 32 c (d7 a) (d5 b);;
  ' (l12, c) <- extract c;;
  c <- muladd 32 32 c (d6 a) (d7 b);; c <- muladd 32 32 c (d7 a) (d6 b);; ' (l13, c) <- extract c;;
  c <- muladd_fast 32 c (d7 a) (d7 b);; ' (l14, c) <- extract_fast c;;
  VERIFY_CHECK (c1 c =? 0);;
  let l15 := c0 c in
  ret [l0; l1; l2; l3; l4; l5; l6; l7; l8; l9; l10; l11; l12; l13; l14; l15].

Definition secp256k1_scalar_sqr_512 (a : secp256k1_scalar) : checked (list Z) :=
  let c := mk_acc 0 0 0 in
  c <- muladd_fast 32 c (d0 a) (d0 a);; ' (l0, c) <- extract_fast c;;
  c <- muladd2 32 32 c (d0 a) (d1 a);; ' (l1, c) <- extract c;;
  c <- muladd2 32 32 c (d0 a) (d2 a);; c <- muladd 32 32 c (d1 a) (d1 a);; ' (l2, c) <- extract c;;
  c <- muladd2 32 32 c (d0 a) (d3 a);; c <- muladd2 32 32 c (d1 a) (d2 a);; ' (l3, c) <- extract c;;
  c <- muladd2 32 32 c (d0 a) (d4 a);; c <- muladd2 32 32 c (d1 a) (d3 a);; c <- muladd 32 32 c (d2 a) (d2 a);;
  ' (l4, c) <- extract c;;
  c <- muladd2 32 32 c (d0 a) (d5 a);; c <- muladd2 32 32 c (d1 a) (d4 a);; c <- muladd2 32 32 c (d2 a) (d3 a);;
  ' (l5, c) <- extract c;;
  c <- muladd2 32 32 c (d0 a) (d6 a);; c <- muladd2 32 32 c (d1 a) (d5 a);; c <- muladd2 32 32 c (d2 a) (d4 a);;
  c <- muladd 32 32 c (d3 a) (d3 a);; ' (l6, c) <- extract c;;
  c <- muladd2 32 32 c (d0 a) (d7 a);; c <- muladd2 32 32 c (d1 a) (d6 a);; c <- muladd2 32 32 c (d2 a) (d5 a);;
  c <- muladd2 32 32 c (d3 a) (d4 a);; ' (l7, c) <- extract c;;
  c <- muladd2 32 32 c (d1 a) (d7 a);; c <- muladd2 32 32 c (d2 a) (d6 a);; c <- muladd2 32 32 c (d3 a) (d5 a);;
  c <- muladd 32 32 c (d4 a) (d4 a);; ' (l8, c) <- extract c;;
  c <- muladd2 32 32 c (d2 a) (d7 a);; c <- muladd2 32 32 c (d3 a) (d6 a);; c <- muladd2 32 32 c (d4 a) (d5 a);;
  ' (l9, c) <- extract c;;
  c <- muladd2 32 32 c (d3 a) (d7 a);; c <- muladd2 32 32 c (d4 a) (d6 a);; c <- muladd 32 32 c (d5 a) (d5 a);;
  ' (l10, c) <- extract c;;
  c <- muladd2 32 32 c (d4 a) (d7 a);; c <- muladd2 32 32 c (d5 a) (d6 a);; ' (l11, c) <- extract c;;
  c <- muladd2 32 32 c (d5 a) (d7 a);; c <- muladd 32 32 c (d6 a) (d6 a);; ' (l12, c) <- extract c;;
  c <- muladd2 32 32 c (d6 a) (d7 a);; ' (l13, c) <- extract c;;
  c <- muladd_fast 32 c (d7 a) (d7 a);; ' (l14, c) <- extract_fast c;;
  VERIFY_CHECK (c1 c =? 0);;
  let l15 := c0 c in
  ret [l0; l1; l2; l3; l4; l5; l6; l7; l8; l9; l10; l11; l12; l13; l14; l15].

Definition secp256k1_scalar_mul (a b : secp256k1_scalar) : checked secp256k1_scalar :=
  l <- secp256k1_scalar_mul_512 a b;;
  secp256k1_scalar_reduce_512 l.

(** The bits shifted off, and the new value. *)
Definition secp256k1_scalar_shr_int (r : secp256k1_scalar) (n : Z) : checked (Z * secp256k1_scalar) :=
  VERIFY_CHECK (0 <? n);;
  VERIFY_CHECK (n <? 16);;
  let ret_ := Z.land (d0 r) (Z.shiftl 1 n - 1) in
  let r0 := u32 (Z.shiftr (d0 r) n + u32 (Z.shiftl (d1 r) (32 - n))) in
  let r1 := u32 (Z.shiftr (d1 r) n + u32 (Z.shiftl (d2 r) (32 - n))) in
  let r2 := u32 (Z.shiftr (d2 r) n + u32 (Z.shiftl (d3 r) (32 - n))) in
  let r3 := u32 (Z.shiftr (d3 r) n + u32 (Z.shiftl (d4 r) (32 - n))) in
  let r4 := u32 (Z.shiftr (d4 r) n + u32 (Z.shiftl (d5 r) (32 - n))) in
  let r5 := u32 (Z.shiftr (d5 r) n + u32 (Z.shiftl (d6 r) (32 - n))) in
  let r6 := u32 (Z.shiftr (d6 r) n + u32 (Z.shiftl (d7 r) (32 - n))) in
  let r7 := Z.shiftr (d7 r) n in
  ret (ret_, S8 r0 r1 r2 r3 r4 r5 r6 r7).

Definition secp256k1_scalar_sqr (a : secp256k1_scalar) : checked secp256k1_scalar :=
  l <- secp256k1_scalar_sqr_512 a;;
  secp256k1_scalar_reduce_512 l.

Definition secp256k1_scalar_split_128 (a : secp256k1_scalar) : secp256k1_scalar * secp256k1_scalar :=
  (S8 (d0 a) (d1 a) (d2 a) (d3 a) 0 0 0 0, S8 (d4 a) (d5 a) (d6 a) (d7 a) 0 0 0 0).

Definition secp256k1_scalar_eq (a b : secp256k1_scalar) : bool :=
  Z.lor (Z.lor (Z.lor (Z.lor (Z.lor (Z.lor (Z.lor (Z.lxor (d0 a) (d0 b)) (Z.lxor (d1 a) (d1 b)))
    (Z.lxor (d2 a) (d2 b))) (Z.lxor (d3 a) (d3 b))) (Z.lxor (d4 a) (d4 b))) (Z.lxor (d5 a) (d5 b)))
    (Z.lxor (d6 a) (d6 b))) (Z.lxor (d7 a) (d7 b)) =? 0.

(** [secp256k1_scalar_is_even] of [scalar_impl.h]. *)
Definition secp256k1_scalar_is_even (a : secp256k1_scalar) : bool := Z.land (d0 a) 1 =? 0.

Definition secp256k1_scalar_mul_shift_var (a b : secp256k1_scalar) (shift : Z) : checked secp256k1_scalar :=
  VERIFY_CHECK (256 <=? shift);;
  l <- secp256k1_scalar_mul_512 a b;;
  let shiftlimbs := Z.shiftr shift 5 in
  let shiftlow := Z.land shift 0x1F in
  let shifthigh := 32 - shiftlow in
  let at_ k := nth (Z.to_nat (k + shiftlimbs)) l 0 in
  let r0 := if shift <? 512 then Z.lor (Z.shiftr (at_ 0) shiftlow) (if (shift <? 480) && negb (shiftlow =? 0) then u32 (Z.shiftl (at_ 1) shifthigh) else 0) else 0 in
  let r1 := if shift <? 480 then Z.lor (Z.shiftr (at_ 1) shiftlow) (if (shift <? 448) && negb (shiftlow =? 0) then u32 (Z.shiftl (at_ 2) shifthigh) else 0) else 0 in
  let r2 := if shift <? 448 then Z.lor (Z.shiftr (at_ 2) shiftlow) (if (shift <? 416) && negb (shiftlow =? 0) then u32 (Z.shiftl (at_ 3) shifthigh) else 0) else 0 in
  let r3 := if shift <? 416 then Z.lor (Z.shiftr (at_ 3) shiftlow) (if (shift <? 384) && negb (shiftlow =? 0) then u32 (Z.shiftl (at_ 4) shifthigh) else 0) else 0 in
  let r4 := if shift <? 384 then Z.lor (Z.shiftr (at_ 4) shiftlow) (if (shift <? 352) && negb (shiftlow =? 0) then u32 (Z.shiftl (at_ 5) shifthigh) else 0) else 0 in
  let r5 := if shift <? 352 then Z.lor (Z.shiftr (at_ 5) shiftlow) (if (shift <? 320) && negb (shiftlow =? 0) then u32 (Z.shiftl (at_ 6) shifthigh) else 0) else 0 in
  let r6 := if shift <? 320 then Z.lor (Z.shiftr (at_ 6) shiftlow) (if (shift <? 288) && negb (shiftlow =? 0) then u32 (Z.shiftl (at_ 7) shifthigh) else 0) else 0 in
  let r7 := if shift <? 288 then Z.shiftr (at_ 7) shiftlow else 0 in
  secp256k1_scalar_cadd_bit (S8 r0 r1 r2 r3 r4 r5 r6 r7) 0
    (Z.land (Z.shiftr (nth (Z.to_nat (Z.shiftr (shift - 1) 5)) l 0) (Z.land (shift - 1) 0x1f)) 1).
(** ** Meaning *)

Definition limbs_ok (a : secp256k1_scalar) : Prop :=
  is_word (d0 a) /\ is_word (d1 a) /\ is_word (d2 a) /\ is_word (d3 a) /\
  is_word (d4 a) /\ is_word (d5 a) /\ is_word (d6 a) /\ is_word (d7 a).

Definition limbs_Z (a : secp256k1_scalar) : Z :=
  d0 a + d1 a * 2 ^ 32 + d2 a * 2 ^ 64 + d3 a * 2 ^ 96 +
  d4 a * 2 ^ 128 + d5 a * 2 ^ 160 + d6 a * 2 ^ 192 + d7 a * 2 ^ 224.

Definition limbs (a : secp256k1_scalar) : list Z := [d0 a; d1 a; d2 a; d3 a; d4 a; d5 a; d6 a; d7 a].

(** Scalars are reduced. *)
Definition scalar_inv (a : secp256k1_scalar) : Prop := limbs_ok a /\ limbs_Z a < n.

(** ** Comparisons *)

(** The high half of the order has full limbs, which need no test for above. *)
Lemma sc32_cmp_order_no x7 x6 x5 x4 : is_word x7 -> is_word x6 -> is_word x5 -> is_word x4 ->
  Z.lor (Z.lor (Z.lor (Z.lor 0 (Z.b2z (x7 <? 0xFFFFFFFF))) (Z.b2z (x6 <? 0xFFFFFFFF))) (Z.b2z (x5 <? 0xFFFFFFFF)))
    (Z.b2z (x4 <? 0xFFFFFFFE)) =
  Z.b2z (((x7 * 2 ^ 32 + x6) * 2 ^ 32 + x5) * 2 ^ 32 + x4 <? 0xFFFFFFFFFFFFFFFFFFFFFFFFFFFFFFFE).
Proof.
  unfold is_word. intros H7 H6 H5 H4.
  transitivity (Z.b2z ((x7 <? 0xFFFFFFFF) || (x6 <? 0xFFFFFFFF) || (x5 <? 0xFFFFFFFF) || (x4 <? 0xFFFFFFFE))).
  - destruct (x7 <? _), (x6 <? _), (x5 <? _), (x4 <? _); reflexivity.
  - f_equal. lia.
Qed.

Lemma sc32_cmp_order_yes x7 x6 x5 x4 : is_word x7 -> is_word x6 -> is_word x5 -> is_word x4 ->
  let h := ((x7 * 2 ^ 32 + x6) * 2 ^ 32 + x5) * 2 ^ 32 + x4 in
  Z.lor 0 (Z.land (Z.b2z (0xFFFFFFFE <? x4)) (Z.lnot (Z.b2z (h <? 0xFFFFFFFFFFFFFFFFFFFFFFFFFFFFFFFE)))) =
  Z.b2z (0xFFFFFFFFFFFFFFFFFFFFFFFFFFFFFFFE <? h).
Proof.
  intros H7 H6 H5 H4 h. unfold is_word in *.
  transitivity (Z.b2z ((0xFFFFFFFE <? x4) && negb (h <? 0xFFFFFFFFFFFFFFFFFFFFFFFFFFFFFFFE))).
  - destruct (_ <? x4), (h <? _); reflexivity.
  - f_equal. unfold h. lia.
Qed.

(** Three full limbs of half the order. *)
Lemma cmp_full_no h hn x6 x5 x4 : is_word x6 -> is_word x5 -> is_word x4 ->
  Z.lor (Z.lor (Z.lor (Z.b2z (h <? hn)) (Z.land (Z.b2z (x6 <? 0xFFFFFFFF)) (Z.lnot (Z.b2z (hn <? h)))))
    (Z.land (Z.b2z (x5 <? 0xFFFFFFFF)) (Z.lnot (Z.b2z (hn <? h)))))
    (Z.land (Z.b2z (x4 <? 0xFFFFFFFF)) (Z.lnot (Z.b2z (hn <? h)))) =
  Z.b2z (((h * 2 ^ 32 + x6) * 2 ^ 32 + x5) * 2 ^ 32 + x4 <?
         ((hn * 2 ^ 32 + 0xFFFFFFFF) * 2 ^ 32 + 0xFFFFFFFF) * 2 ^ 32 + 0xFFFFFFFF).
Proof.
  unfold is_word. intros H6 H5 H4.
  transitivity (Z.b2z ((h <? hn) || ((x6 <? 0xFFFFFFFF) || (x5 <? 0xFFFFFFFF) || (x4 <? 0xFFFFFFFF)) && negb (hn <? h))).
  - destruct (h <? hn), (x6 <? _), (x5 <? _), (x4 <? _), (hn <? h); reflexivity.
  - f_equal. lia.
Qed.

Lemma cmp_full_yes h hn x6 x5 x4 : is_word x6 -> is_word x5 -> is_word x4 ->
  (hn <? h) = (((hn * 2 ^ 32 + 0xFFFFFFFF) * 2 ^ 32 + 0xFFFFFFFF) * 2 ^ 32 + 0xFFFFFFFF <?
               ((h * 2 ^ 32 + x6) * 2 ^ 32 + x5) * 2 ^ 32 + x4).
Proof. unfold is_word. lia. Qed.

Ltac open_scalar a :=
  let a0 := fresh "a" in let a1 := fresh "a" in let a2 := fresh "a" in let a3 := fresh "a" in
  let a4 := fresh "a" in let a5 := fresh "a" in let a6 := fresh "a" in let a7 := fresh "a" in
  destruct a as [a0 a1 a2 a3 a4 a5 a6 a7]; unfold limbs_ok, limbs_Z in *; cbn [d0 d1 d2 d3 d4 d5 d6 d7] in *.

Ltac word := lia || assumption || (split; vm_compute; congruence).

Lemma sc32_check_overflow_spec a : limbs_ok a ->
  secp256k1_scalar_check_overflow a = Z.b2z (n <=? limbs_Z a).
Proof.
  intros H. open_scalar a. destruct H as (H0 & H1 & H2 & H3 & H4 & H5 & H6 & H7).
  unfold secp256k1_scalar_check_overflow, SECP256K1_N_4, SECP256K1_N_5, SECP256K1_N_6, SECP256K1_N_7. cbn [d0 d1 d2 d3 d4 d5 d6 d7].
  rewrite sc32_cmp_order_no by word. rewrite sc32_cmp_order_yes by word. do 3 (rewrite (cmp_no 32) by word; rewrite (cmp_yes 32) by word).
  rewrite (cmp_yes_ge 32) by word. do 2 f_equal; ring || reflexivity.
Qed.

Lemma sc32_is_high_spec a : limbs_ok a -> secp256k1_scalar_is_high a = Z.b2z (n / 2 <? limbs_Z a).
Proof.
  intros H. open_scalar a. destruct H as (H0 & H1 & H2 & H3 & H4 & H5 & H6 & H7).
  unfold secp256k1_scalar_is_high, SECP256K1_N_H_4, SECP256K1_N_H_5, SECP256K1_N_H_6. cbn [d0 d1 d2 d3 d4 d5 d6 d7].
  rewrite cmp_first. rewrite (cmp_above a7 SECP256K1_N_H_7). rewrite cmp_full_no by word.
  rewrite (cmp_full_yes a7 _ a6 a5 a4) by word. do 3 (rewrite (cmp_no 32) by word; rewrite (cmp_yes 32) by word).
  rewrite (cmp_yes_gt 32) by word. do 2 f_equal; ring || reflexivity.
Qed.

(** ** Reduction and addition *)

Lemma word_bound x : is_word x -> 0 <= x <= 0xFFFFFFFF.
Proof. unfold is_word. lia. Qed.

(** The limbs of [a] as variables with bounds. *)
Ltac open_words a H :=
  let b0 := fresh "b" in let b1 := fresh "b" in let b2 := fresh "b" in let b3 := fresh "b" in
  let b4 := fresh "b" in let b5 := fresh "b" in let b6 := fresh "b" in let b7 := fresh "b" in
  open_scalar a; destruct H as (b0 & b1 & b2 & b3 & b4 & b5 & b6 & b7);
  apply word_bound in b0, b1, b2, b3, b4, b5, b6, b7.

(** Reads the limbs of the arguments in the code, not in the postcondition. *)
Ltac read_words :=
  lazymatch goal with
  | |- Returns _ ?Q => let q := fresh in set (q := Q); cbv beta iota delta [d0 d1 d2 d3 d4 d5 d6 d7]; subst q
  end.

Ltac close_words := unfold limbs_ok, is_word; cbn [d0 d1 d2 d3 d4 d5 d6 d7]; repeat split; lia.

Lemma sc32_limbs_Z_range a : limbs_ok a -> 0 <= limbs_Z a < 2 ^ 256.
Proof. unfold limbs_ok, limbs_Z, is_word. lia. Qed.

Lemma sc32_reduce_spec r overflow : limbs_ok r -> 0 <= overflow <= 1 ->
  Returns (secp256k1_scalar_reduce r overflow) (fun '(o, r') => o = overflow /\ limbs_ok r' /\
    limbs_Z r' = (limbs_Z r + overflow * (2 ^ 256 - n)) mod 2 ^ 256).
Proof.
  intros Hr Ho. open_words r Hr.
  cbv beta delta [secp256k1_scalar_reduce SECP256K1_N_C_0 SECP256K1_N_C_1 SECP256K1_N_C_2 SECP256K1_N_C_3 SECP256K1_N_C_4].
  read_words. c_steps. apply Returns_ret. cbn [d0 d1 d2 d3 d4 d5 d6 d7]. split; [reflexivity|].
  split; [close_words|]. apply (Z.mod_unique_pos _ _ h6); [lia|]. unfold n. lia.
Qed.

(** The last step of a sum below twice the order, from its low 256 bits and its
    carry. *)
Lemma sc32_overflow r c V : limbs_ok r -> 0 <= c <= 1 -> V = limbs_Z r + c * 2 ^ 256 -> V < 2 * n ->
  c + secp256k1_scalar_check_overflow r = Z.b2z (n <=? V).
Proof.
  intros Hr Hc E HV. rewrite (sc32_check_overflow_spec r Hr). pose proof (sc32_limbs_Z_range r Hr). apply carry_flag; lia.
Qed.

Lemma sc32_reduced r c V : limbs_ok r -> 0 <= c <= 1 -> V = limbs_Z r + c * 2 ^ 256 -> V < 2 * n ->
  Returns (secp256k1_scalar_reduce r (Z.b2z (n <=? V))) (fun '(o, r') => o = Z.b2z (n <=? V) /\
    scalar_inv r' /\ limbs_Z r' = V mod n).
Proof.
  intros Hr Hc EV HV. eapply Returns_mono; [apply (sc32_reduce_spec r); [exact Hr | destruct (n <=? V); cbn; lia]|].
  intros [o r'] (Ho & Hr' & E). split; [exact Ho|]. pose proof (sc32_limbs_Z_range r Hr) as HZ.
  rewrite (carry_reduce (limbs_Z r) c V) in E by assumption.
  split; [split; [exact Hr'|]|exact E]. rewrite E. apply Z.mod_pos_bound. reflexivity.
Qed.

Lemma sc32_add_spec a b : scalar_inv a -> scalar_inv b ->
  Returns (secp256k1_scalar_add a b) (fun '(o, r) => o = Z.b2z (n <=? limbs_Z a + limbs_Z b) /\
    scalar_inv r /\ limbs_Z r = (limbs_Z a + limbs_Z b) mod n).
Proof.
  intros [Ha Hna] [Hb Hnb]. assert (limbs_Z a + limbs_Z b < 2 * n) as HV by lia. remember (limbs_Z a + limbs_Z b) as V eqn:EV.
  open_words a Ha. open_words b Hb. cbv beta delta [secp256k1_scalar_add].
  read_words. do 24 c_step. cbv zeta.
  match goal with |- context [secp256k1_scalar_check_overflow ?r] =>
    assert (limbs_ok r) as Hr by close_words;
    assert (V = limbs_Z r + h6 * 2 ^ 256) as E7 by (unfold limbs_Z; cbn [d0 d1 d2 d3 d4 d5 d6 d7]; lia) end.
  rewrite (sc32_overflow _ h6 V Hr), i32_u64_flag, u32_flag by (assumption || lia). apply Returns_check; [destruct (n <=? V); reflexivity|].
  eapply Returns_bind; [apply (sc32_reduced _ h6 V Hr); (assumption || lia)|]. intros [o r] H. apply Returns_ret. tauto.
Qed.

(** ** Bytes *)

Lemma sc32_word_of_bytes x0 x1 x2 x3 : is_byte x0 -> is_byte x1 -> is_byte x2 -> is_byte x3 ->
  Z.lor (Z.lor (Z.lor x3 (u32 (Z.shiftl x2 8))) (u32 (Z.shiftl x1 16))) (u32 (Z.shiftl x0 24)) =
  ((x0 * 256 + x1) * 256 + x2) * 256 + x3.
Proof.
  unfold is_byte, u32. intros H0 H1 H2 H3.
  rewrite !byte_shift by lia. rewrite (lor_shiftl_add x3) by lia. rewrite (lor_shiftl_add (x3 + _)) by lia.
  rewrite lor_shiftl_add by lia. lia.
Qed.

Lemma sc32_bytes_of_word x : is_word x ->
  ((u8 (Z.shiftr x 24) * 256 + u8 (Z.shiftr x 16)) * 256 + u8 (Z.shiftr x 8)) * 256 + u8 x = x.
Proof.
  unfold is_word, u8. intros Hx. rewrite !Z.shiftr_div_pow2 by lia. Z.to_euclidean_division_equations. lia.
Qed.

Lemma sc32_set_b32_spec b : bytes_of_len 32 b ->
  Returns (secp256k1_scalar_set_b32 b) (fun '(o, r) => o = Z.b2z (n <=? be_value b) /\
    scalar_inv r /\ limbs_Z r = be_value b mod n).
Proof.
  intros Hb. pose proof (be_value_range 32 b Hb) as HV.
  replace (256 ^ Z.of_nat 32) with (2 ^ 256) in HV by (vm_compute; reflexivity). pose proof (be_value_nth 32 b Hb) as EV.
  assert (forall i, is_byte (nth i b 0)) as Hi by (intros i; exact (byte_nth 32 b i Hb)).
  remember (be_value b) as V. clear HeqV. cbn [seq] in EV.
  rewrite !fold_left_cons, fold_left_nil in EV. unfold secp256k1_scalar_set_b32. cbv zeta.
  rewrite !sc32_word_of_bytes by apply Hi.
  match goal with |- context [secp256k1_scalar_check_overflow ?r] =>
    assert (limbs_ok r) as Hr; [|assert (V = limbs_Z r) as EV'] end.
  - unfold is_byte in Hi. unfold limbs_ok, is_word. cbn [d0 d1 d2 d3 d4 d5 d6 d7].
    repeat split; repeat match goal with |- context [nth ?i b 0] => pose proof (Hi i); generalize dependent (nth i b 0); intros end; lia.
  - unfold limbs_Z. cbn [d0 d1 d2 d3 d4 d5 d6 d7]. rewrite EV. ring.
  - rewrite (sc32_check_overflow_spec _ Hr), <- EV', u32_flag. apply (sc32_reduced _ 0 V Hr); [lia | lia | unfold n; lia].
Qed.

Lemma sc32_get_b32_spec a : limbs_ok a -> secp256k1_scalar_get_b32 a = be_bytes 32 (limbs_Z a).
Proof.
  intros Ha. transitivity (be_bytes 32 (be_value (secp256k1_scalar_get_b32 a))).
  - symmetry. apply be_bytes_value. split; [reflexivity|]. unfold secp256k1_scalar_get_b32.
    repeat constructor; unfold u8; apply Z.mod_pos_bound; reflexivity.
  - f_equal. unfold secp256k1_scalar_get_b32, be_value. rewrite !fold_left_cons, fold_left_nil.
    destruct Ha as (H0 & H1 & H2 & H3 & H4 & H5 & H6 & H7).
    apply sc32_bytes_of_word in H0, H1, H2, H3, H4, H5, H6, H7.
    unfold limbs_Z. lia.
Qed.

(** ** Tests *)

Lemma sc32_is_zero_spec a : limbs_ok a -> secp256k1_scalar_is_zero a = (limbs_Z a =? 0).
Proof.
  intros Ha. unfold secp256k1_scalar_is_zero. apply eq_true_iff_eq. rewrite !Z.eqb_eq, !Z.lor_eq_0_iff.
  unfold limbs_ok, limbs_Z, is_word in *. lia.
Qed.

Lemma sc32_is_one_spec a : limbs_ok a -> secp256k1_scalar_is_one a = (limbs_Z a =? 1).
Proof.
  intros Ha. unfold secp256k1_scalar_is_one. apply eq_true_iff_eq. rewrite !Z.eqb_eq, !Z.lor_eq_0_iff, Z.lxor_eq_0_iff.
  unfold limbs_ok, limbs_Z, is_word in *. lia.
Qed.

Lemma sc32_eq_spec a b : limbs_ok a -> limbs_ok b -> secp256k1_scalar_eq a b = (limbs_Z a =? limbs_Z b).
Proof.
  intros Ha Hb. unfold secp256k1_scalar_eq. apply eq_true_iff_eq. rewrite !Z.eqb_eq, !Z.lor_eq_0_iff, !Z.lxor_eq_0_iff.
  split; [intros H; unfold limbs_Z; lia|].
  open_words a Ha. open_words b Hb. intros E.
  assert (a0 + 2 ^ 32 * (a1 + 2 ^ 32 * (a2 + 2 ^ 32 * (a3 + 2 ^ 32 * (a4 + 2 ^ 32 * (a5 + 2 ^ 32 * (a6 + 2 ^ 32 * a7)))))) =
          a + 2 ^ 32 * (a8 + 2 ^ 32 * (a9 + 2 ^ 32 * (a10 + 2 ^ 32 * (a11 + 2 ^ 32 * (a12 + 2 ^ 32 * (a13 + 2 ^ 32 * a14))))))) as E' by lia.
  repeat (apply low_digit in E' as [-> E']; [|lia|lia]). rewrite E'. tauto.
Qed.

Lemma sc32_is_even_spec a : limbs_ok a -> secp256k1_scalar_is_even a = Z.even (limbs_Z a).
Proof.
  intros Ha. unfold secp256k1_scalar_is_even. pose proof (land_1_odd (d0 a)) as H.
  rewrite <- Z.negb_odd. replace (Z.odd (limbs_Z a)) with (Z.odd (d0 a)).
  - rewrite <- H, negb_involutive. reflexivity.
  - unfold limbs_Z. rewrite !Z.odd_add, !Z.odd_mul. cbn. rewrite !andb_false_r, !xorb_false_r. reflexivity.
Qed.

(** ** Negation *)

Lemma u32_lnot x : is_word x -> u32 (Z.lnot x) = 0xFFFFFFFF - x.
Proof. exact (lnot_word 32 x). Qed.

Lemma sc32_lxor_word x : is_word x -> Z.lxor x 0xFFFFFFFF = 0xFFFFFFFF - x.
Proof. exact (lxor_ones_word 32 ltac:(lia) x). Qed.

(** Names the complement of a word. *)
Ltac complement a H :=
  let y := fresh "y" in let E := fresh "E" in
  unfold is_word in H; remember (0xFFFFFFFF - a) as y eqn:E; assert (0 <= y <= 0xFFFFFFFF) by lia.

Lemma sc32_negate_ok a : scalar_inv a -> 0 < limbs_Z a ->
  Returns (ret (secp256k1_scalar_negate a)) (fun r => limbs_ok r /\ limbs_Z r = n - limbs_Z a).
Proof.
  intros [Ha Hn] Hp. pose proof (sc32_is_zero_spec a Ha) as Hz. rewrite (proj2 (Z.eqb_neq (limbs_Z a) 0)) in Hz by lia.
  unfold scalar_inv, limbs_Z in *. destruct a as [a0 a1 a2 a3 a4 a5 a6 a7]. unfold limbs_ok in Ha.
  cbn [d0 d1 d2 d3 d4 d5 d6 d7] in *. destruct Ha as (H0 & H1 & H2 & H3 & H4 & H5 & H6 & H7).
  cbv beta delta [secp256k1_scalar_negate SECP256K1_N_0 SECP256K1_N_1 SECP256K1_N_2 SECP256K1_N_3 SECP256K1_N_4 SECP256K1_N_5 SECP256K1_N_6 SECP256K1_N_7].
  read_words. rewrite Hz. change (u32 (0xFFFFFFFF * Z.b2z (negb false))) with 0xFFFFFFFF.
  rewrite !u32_lnot by assumption. complement a0 H0. complement a1 H1. complement a2 H2. complement a3 H3.
  complement a4 H4. complement a5 H5. complement a6 H6. complement a7 H7.
  do 24 c_pure_step. apply Returns_ret. split; [close_words|]. cbn [d0 d1 d2 d3 d4 d5 d6 d7]. unfold n in *. lia.
Qed.

Lemma sc32_negate_zero a : limbs_ok a -> limbs_Z a = 0 -> secp256k1_scalar_negate a = secp256k1_scalar_clear.
Proof.
  intros Ha Hz. unfold secp256k1_scalar_negate. rewrite (sc32_is_zero_spec a Ha), Hz.
  change (u32 (0xFFFFFFFF * Z.b2z (negb (0 =? 0)))) with 0. cbv zeta. rewrite !Z.land_0_r. reflexivity.
Qed.

Lemma sc32_negate_spec a : scalar_inv a ->
  scalar_inv (secp256k1_scalar_negate a) /\ limbs_Z (secp256k1_scalar_negate a) = (- limbs_Z a) mod n.
Proof.
  intros Ha. pose proof (sc32_limbs_Z_range a (proj1 Ha)) as HZ. destruct (Z.eq_dec (limbs_Z a) 0) as [E|E].
  - rewrite (sc32_negate_zero a (proj1 Ha) E), E. split; [|reflexivity]. split; [|reflexivity]. unfold secp256k1_scalar_clear. close_words.
  - destruct (Returns_pure _ _ (sc32_negate_ok a Ha ltac:(lia))) as [Hr Er].
    destruct Ha as [_ Ha]. split; [split; [exact Hr | lia]|]. rewrite Er. apply (Z.mod_unique_pos _ _ (-1)); lia.
Qed.

Lemma u64_word x : is_word x -> u64 x = x.
Proof. unfold is_word, u64. intros Hx. apply Z.mod_small. lia. Qed.

(** Without the flag nothing changes; with it the scalar is negated. *)
Lemma sc32_cond_negate_spec a flag : limbs_ok a ->
  secp256k1_scalar_cond_negate a flag = if flag =? 0 then (1, a) else (-1, secp256k1_scalar_negate a).
Proof.
  intros Ha. pose proof Ha as (H0 & H1 & H2 & H3 & H4 & H5 & H6 & H7).
  unfold secp256k1_scalar_cond_negate, secp256k1_scalar_negate. destruct (flag =? 0).
  - change (u32 (Z.b2z true - 1)) with 0. cbv zeta. rewrite !Z.lxor_0_r, !Z.land_0_r, !Z.add_0_r.
    rewrite (u64_word (d0 a) H0), (shiftr_word 32 ltac:(lia) (d0 a) H0). rewrite !Z.add_0_l.
    rewrite (u64_word (d1 a) H1), (shiftr_word 32 ltac:(lia) (d1 a) H1), !Z.add_0_l.
    rewrite (u64_word (d2 a) H2), (shiftr_word 32 ltac:(lia) (d2 a) H2), !Z.add_0_l.
    rewrite (u64_word (d3 a) H3), (shiftr_word 32 ltac:(lia) (d3 a) H3), !Z.add_0_l.
    rewrite (u64_word (d4 a) H4), (shiftr_word 32 ltac:(lia) (d4 a) H4), !Z.add_0_l.
    rewrite (u64_word (d5 a) H5), (shiftr_word 32 ltac:(lia) (d5 a) H5), !Z.add_0_l.
    rewrite (u64_word (d6 a) H6), (shiftr_word 32 ltac:(lia) (d6 a) H6), !Z.add_0_l.
    rewrite (u64_word (d7 a) H7). rewrite (sc32_is_zero_spec a Ha). destruct (Z.eqb_spec (limbs_Z a) 0) as [E|E].
    + change (u32 (0xFFFFFFFF * Z.b2z (negb true))) with 0. rewrite !Z.land_0_r. f_equal.
      destruct a as [a0 a1 a2 a3 a4 a5 a6 a7]. unfold limbs_Z, is_word in *. cbn [d0 d1 d2 d3 d4 d5 d6 d7] in *.
      f_equal; lia.
    + change (u32 (0xFFFFFFFF * Z.b2z (negb false))) with 0xFFFFFFFF. rewrite !(land_ones_word 32) by (lia || assumption).
      destruct a; reflexivity.
  - change (u32 (Z.b2z false - 1)) with 0xFFFFFFFF. change (Z.land (u32 (SECP256K1_N_0 + 1)) 0xFFFFFFFF) with (SECP256K1_N_0 + 1).
    change (Z.land SECP256K1_N_1 0xFFFFFFFF) with SECP256K1_N_1. change (Z.land SECP256K1_N_2 0xFFFFFFFF) with SECP256K1_N_2.
    change (Z.land SECP256K1_N_3 0xFFFFFFFF) with SECP256K1_N_3. change (Z.land SECP256K1_N_4 0xFFFFFFFF) with SECP256K1_N_4.
    change (Z.land SECP256K1_N_5 0xFFFFFFFF) with SECP256K1_N_5. change (Z.land SECP256K1_N_6 0xFFFFFFFF) with SECP256K1_N_6.
    change (Z.land SECP256K1_N_7 0xFFFFFFFF) with SECP256K1_N_7.
    rewrite !sc32_lxor_word, !u32_lnot, Z.add_assoc by assumption. reflexivity.
Qed.

(** ** Products *)

Lemma sc32_mul_512_spec a b : limbs_ok a -> limbs_ok b ->
  Returns (secp256k1_scalar_mul_512 a b) (fun l => words_ok 32 16 l /\ words_Z 32 l = limbs_Z a * limbs_Z b).
Proof.
  intros Ha Hb. open_words a Ha. open_words b Hb. cbv beta delta [secp256k1_scalar_mul_512].
  cbv zeta. cbn [d0 d1 d2 d3 d4 d5 d6 d7]. pose proof (acc_start 32 0 ltac:(unfold is_uw; lia)) as Hc0.
  repeat acc_step. match goal with H : acc_at _ _ _ _ |- _ => destruct (acc_word_end 32 ltac:(lia) _ _ _ H eq_refl) as (-> & -> & Hw) end.
  apply Returns_check; [reflexivity|]. apply Returns_ret. split; [close_word_list|].
  cbn [words_Z]. subst_words. ring.
Qed.

Lemma sc32_sqr_512_spec a : limbs_ok a ->
  Returns (secp256k1_scalar_sqr_512 a) (fun l => words_ok 32 16 l /\ words_Z 32 l = limbs_Z a * limbs_Z a).
Proof.
  intros Ha. open_words a Ha. cbv beta delta [secp256k1_scalar_sqr_512].
  cbv zeta. cbn [d0 d1 d2 d3 d4 d5 d6 d7]. pose proof (acc_start 32 0 ltac:(unfold is_uw; lia)) as Hc0.
  repeat acc_step. match goal with H : acc_at _ _ _ _ |- _ => destruct (acc_word_end 32 ltac:(lia) _ _ _ H eq_refl) as (-> & -> & Hw) end.
  apply Returns_check; [reflexivity|]. apply Returns_ret. split; [close_word_list|].
  cbn [words_Z]. subst_words. ring.
Qed.

(** ** Reduction of 512 bits *)

Ltac order_limbs := unfold SECP256K1_N_C_0, SECP256K1_N_C_1, SECP256K1_N_C_2, SECP256K1_N_C_3.

Lemma sc32_reduce_512_385_spec l : words_ok 32 16 l ->
  Returns (reduce_512_385 l) (fun m => words_ok 32 13 m /\ nth 12 m 0 <= 1 /\
    words_Z 32 m mod n = words_Z 32 l mod n /\ words_Z 32 m < 2 ^ 256 * (2 ^ 256 - n + 1)).
Proof.
  intros Hl. words_by_index l 16%nat Hl. unfold reduce_512_385. cbv zeta. order_limbs.
  name_word l Hl 0%nat l0. name_word l Hl 1%nat l1. name_word l Hl 2%nat l2. name_word l Hl 3%nat l3. name_word l Hl 4%nat l4. name_word l Hl 5%nat l5. name_word l Hl 6%nat l6. name_word l Hl 7%nat l7. name_word l Hl 8%nat n0. name_word l Hl 9%nat n1. name_word l Hl 10%nat n2. name_word l Hl 11%nat n3. name_word l Hl 12%nat n4. name_word l Hl 13%nat n5. name_word l Hl 14%nat n6. name_word l Hl 15%nat n7.
  pose proof (acc_start 32 l0 ltac:(unfold is_uw; lia)) as Hc0. repeat acc_step.
  match goal with H : acc_at _ _ _ _ |- _ => destruct (acc_word_end 32 ltac:(lia) _ _ _ H eq_refl) as (-> & _ & Hw) end.
  apply Returns_check; [apply Z.leb_le; lia|]. apply Returns_ret. split; [close_word_list|]. split; [cbn [nth]; lia|].
  match goal with |- words_Z 32 ?m mod n = _ /\ _ => assert (words_Z 32 m =
    l0 + 2 ^ 32 * (l1 + 2 ^ 32 * (l2 + 2 ^ 32 * (l3 + 2 ^ 32 * (l4 + 2 ^ 32 * (l5 + 2 ^ 32 * (l6 + 2 ^ 32 * l7)))))) +
    (n0 + 2 ^ 32 * (n1 + 2 ^ 32 * (n2 + 2 ^ 32 * (n3 + 2 ^ 32 * (n4 + 2 ^ 32 * (n5 + 2 ^ 32 * (n6 + 2 ^ 32 * n7))))))) * (2 ^ 256 - n)) as E end.
  { cbn [words_Z]. subst_words. unfold n. ring. }
  rewrite E. clear - Bl Bl0 Bl1 Bl2 Bl3 Bl4 Bl5 Bl6 Bl7 Bl8 Bl9 Bl10 Bl11 Bl12 Bl13 Bl14. split.
  - apply (fold_order _ _ (n0 + 2 ^ 32 * (n1 + 2 ^ 32 * (n2 + 2 ^ 32 * (n3 + 2 ^ 32 * (n4 + 2 ^ 32 * (n5 + 2 ^ 32 * (n6 + 2 ^ 32 * n7)))))))). ring.
  - unfold n. lia.
Qed.

Lemma sc32_reduce_385_258_spec m : words_ok 32 13 m -> nth 12 m 0 <= 1 -> words_Z 32 m < 2 ^ 256 * (2 ^ 256 - n + 1) ->
  Returns (reduce_385_258 m) (fun q => words_ok 32 9 q /\ nth 8 q 0 <= 2 /\ words_Z 32 q mod n = words_Z 32 m mod n).
Proof.
  intros Hm H12 HV. words_by_index m 13%nat Hm.
  pose proof (f_equal (words_Z 32) (list_as_nth m 13 (proj1 Hm))) as EV. cbn [seq map words_Z] in EV. rewrite EV in HV. clear EV.
  unfold reduce_385_258. cbv zeta. order_limbs.
  name_word m Hm 0%nat m0. name_word m Hm 1%nat m1. name_word m Hm 2%nat m2. name_word m Hm 3%nat m3. name_word m Hm 4%nat m4. name_word m Hm 5%nat m5. name_word m Hm 6%nat m6. name_word m Hm 7%nat m7. name_word m Hm 8%nat m8. name_word m Hm 9%nat m9. name_word m Hm 10%nat m10. name_word m Hm 11%nat m11. name_word m Hm 12%nat m12.
  assert (0 <= m12 <= 1) as Bm12 by lia. clear Bl11.
  pose proof (acc_start 32 m0 ltac:(unfold is_uw; lia)) as Hc0. repeat acc_step.
  match goal with H : acc_at _ _ _ _ |- _ => destruct (acc_word_end 32 ltac:(lia) _ _ _ H eq_refl) as (-> & _ & Hw) end.
  unfold u32. rewrite Z.mod_small by lia.
  assert (words_Z 32 [x; x0; x1; x2; x3; x4; x5; x6; w6 + m12] =
    m0 + 2 ^ 32 * (m1 + 2 ^ 32 * (m2 + 2 ^ 32 * (m3 + 2 ^ 32 * (m4 + 2 ^ 32 * (m5 + 2 ^ 32 * (m6 + 2 ^ 32 * m7)))))) +
    (m8 + 2 ^ 32 * (m9 + 2 ^ 32 * (m10 + 2 ^ 32 * (m11 + 2 ^ 32 * m12)))) * (2 ^ 256 - n)) as E.
  { cbn [words_Z]. subst_words. unfold n. ring. }
  assert (w6 + m12 <= 2) as H8.
  { cbn [words_Z] in E. clear - HV E Bl Bl0 Bl1 Bl2 Bl3 Bl4 Bl5 Bl6 Bl7 Bl8 Bl9 Bl10 Bm12 Bx Bx0 Bx1 Bx2 Bx3 Bx4 Bx5 Bx6. unfold n in *. lia. }
  apply Returns_check; [apply Z.leb_le; lia|]. apply Returns_ret. split; [close_word_list|]. split; [exact H8|].
  rewrite E. apply (fold_order _ _ (m8 + 2 ^ 32 * (m9 + 2 ^ 32 * (m10 + 2 ^ 32 * (m11 + 2 ^ 32 * m12))))). ring.
Qed.

Lemma sc32_reduce_258_256_spec q : words_ok 32 9 q -> nth 8 q 0 <= 2 ->
  Returns (reduce_258_256 q) (fun r => scalar_inv r /\ limbs_Z r = words_Z 32 q mod n).
Proof.
  intros Hq H8. words_by_index q 9%nat Hq. cbv beta delta [reduce_258_256].
  cbv beta delta [SECP256K1_N_C_0 SECP256K1_N_C_1 SECP256K1_N_C_2 SECP256K1_N_C_3].
  name_word q Hq 0%nat p0. name_word q Hq 1%nat p1. name_word q Hq 2%nat p2. name_word q Hq 3%nat p3. name_word q Hq 4%nat p4. name_word q Hq 5%nat p5. name_word q Hq 6%nat p6. name_word q Hq 7%nat p7. name_word q Hq 8%nat p8.
  assert (0 <= p8 <= 2) as Bp8 by lia. clear Bl7 H8.
  remember (p0 + 2 ^ 32 * (p1 + 2 ^ 32 * (p2 + 2 ^ 32 * (p3 + 2 ^ 32 * (p4 + 2 ^ 32 * (p5 + 2 ^ 32 * (p6 + 2 ^ 32 * p7)))))) + p8 * (2 ^ 256 - n)) as V eqn:EV.
  replace (_ mod n) with (V mod n).
  2: { apply (fold_order _ _ p8). rewrite EV. ring. }
  do 33 c_step. cbv zeta. assert (V < 2 * n) as HV by (subst V; clear E; unfold n; lia).
  match goal with |- context [secp256k1_scalar_check_overflow ?r] =>
    assert (limbs_ok r) as Hr by close_words;
    assert (V = limbs_Z r + h6 * 2 ^ 256) as E7 by (unfold limbs_Z; cbn [d0 d1 d2 d3 d4 d5 d6 d7]; subst V; unfold n; lia) end.
  rewrite (sc32_overflow _ h6 V Hr), u32_flag by (assumption || lia).
  eapply Returns_bind; [apply (sc32_reduced _ h6 V Hr); (assumption || lia)|]. intros [o r] (_ & H). apply Returns_ret. exact H.
Qed.

Lemma sc32_reduce_512_spec l : words_ok 32 16 l ->
  Returns (secp256k1_scalar_reduce_512 l) (fun r => scalar_inv r /\ limbs_Z r = words_Z 32 l mod n).
Proof.
  intros Hl. eapply Returns_bind; [exact (sc32_reduce_512_385_spec l Hl)|]. intros m (Hm & H12 & Em & HV).
  eapply Returns_bind; [exact (sc32_reduce_385_258_spec m Hm H12 HV)|]. intros q (Hq & H8 & Eq).
  eapply Returns_mono; [exact (sc32_reduce_258_256_spec q Hq H8)|]. intros r [Hr Er]. split; [exact Hr|]. congruence.
Qed.

Lemma sc32_mul_spec a b : scalar_inv a -> scalar_inv b ->
  Returns (secp256k1_scalar_mul a b) (fun r => scalar_inv r /\ limbs_Z r = (limbs_Z a * limbs_Z b) mod n).
Proof.
  intros [Ha _] [Hb _]. eapply Returns_bind; [exact (sc32_mul_512_spec a b Ha Hb)|]. intros l [Hl E].
  rewrite <- E. exact (sc32_reduce_512_spec l Hl).
Qed.

Lemma sc32_sqr_spec a : scalar_inv a ->
  Returns (secp256k1_scalar_sqr a) (fun r => scalar_inv r /\ limbs_Z r = (limbs_Z a * limbs_Z a) mod n).
Proof.
  intros [Ha _]. eapply Returns_bind; [exact (sc32_sqr_512_spec a Ha)|]. intros l [Hl E].
  rewrite <- E. exact (sc32_reduce_512_spec l Hl).
Qed.

(** ** Bits *)

Lemma sc32_limbs_words a : words_Z 32 (limbs a) = limbs_Z a.
Proof. unfold limbs, limbs_Z. cbn [words_Z]. ring. Qed.

Lemma sc32_limb_at a i : limbs_ok a -> 0 <= i -> limb a i = word_at 32 (limbs_Z a) (32 * i).
Proof.
  intros (H0 & H1 & H2 & H3 & H4 & H5 & H6 & H7) Hi. unfold limb. rewrite (words_Z_at 32) by (lia || (repeat (constructor; [assumption|]); constructor)).
  rewrite Z2Nat.id by lia. f_equal. apply (sc32_limbs_words a).
Qed.

Lemma offset32 o : 0 <= o -> 0 <= Z.shiftr o 5 /\ 0 <= Z.land o 0x1F < 32 /\ o = 32 * Z.shiftr o 5 + Z.land o 0x1F.
Proof. apply offset_split; reflexivity || lia. Qed.

(** The limb addends of [secp256k1_scalar_cadd_bit]. *)
Lemma sc32_cadd_limbs bit (flag : bool) : 0 <= bit < 256 ->
  let bit' := u32 (bit + Z.land (u32 (Z.b2z flag - 1)) 0x100) in
  let e k := u32 (Z.shiftl (Z.b2z (Z.shiftr bit' 5 =? k)) (Z.land bit' 0x1F)) in
  (forall k, 0 <= e k <= 0xFFFFFFFF) /\
  limbs_Z (S8 (e 0) (e 1) (e 2) (e 3) (e 4) (e 5) (e 6) (e 7)) = if flag then 2 ^ bit else 0.
Proof.
  intros Hb bit' e. assert (forall k, e k = if bit' / 32 =? k then 2 ^ (bit' mod 32) else 0) as He
    by (intros k; apply (addend 32 5 0x1F); reflexivity || lia).
  split; [intros k; rewrite He; apply (addend_range 32 5 0x1F); reflexivity || lia|].
  rewrite <- sc32_limbs_words. unfold limbs. cbn [d0 d1 d2 d3 d4 d5 d6 d7]. rewrite !He.
  subst bit'. rewrite (cadd_offset bit flag Hb).
  refine (eq_trans (addends_bit 32 5 _ _ (if flag then bit else bit + 256) 8 _) _); [reflexivity || lia | reflexivity | destruct flag; lia|].
  destruct flag; [rewrite (proj2 (Z.ltb_lt _ _)) by lia | rewrite (proj2 (Z.ltb_ge _ _)) by lia]; reflexivity.
Qed.

Lemma sc32_cadd_bit_spec r bit (flag : bool) : scalar_inv r -> 0 <= bit < 256 -> (flag = true -> limbs_Z r + 2 ^ bit < n) ->
  Returns (secp256k1_scalar_cadd_bit r bit (Z.b2z flag)) (fun r' => scalar_inv r' /\
    limbs_Z r' = limbs_Z r + if flag then 2 ^ bit else 0).
Proof.
  intros [Hr Hn] Hb Hlt. destruct (sc32_cadd_limbs bit flag Hb) as [Be Ee]. set (D := if flag then _ else _) in *.
  assert (limbs_Z r + D < n) as HV by (subst D; destruct flag; lia). clearbody D. clear Hlt Hn.
  open_words r Hr. cbv beta delta [secp256k1_scalar_cadd_bit]. apply Returns_check; [apply Z.ltb_lt; lia|].
  lazymatch goal with |- Returns (let x := ?e in @?K x) ?Q => refine (Returns_let e K Q _) end.
  intros bit' Eb. rewrite <- Eb in Be, Ee. clear Eb.
  pose proof (Be 0) as B0. pose proof (Be 1) as B1. pose proof (Be 2) as B2. pose proof (Be 3) as B3.
  pose proof (Be 4) as B4. pose proof (Be 5) as B5. pose proof (Be 6) as B6. pose proof (Be 7) as B7.
  clear Be. repeat match goal with H : 0 <= u32 ?e <= 0xFFFFFFFF |- _ => let x := fresh "e" in set (x := u32 e) in *; clearbody x end.
  read_words. do 23 c_step. cbv zeta.
  match goal with |- context [secp256k1_scalar_check_overflow ?r] =>
    assert (limbs_ok r) as Hr by close_words;
    assert (limbs_Z r + h6 * 2 ^ 256 = limbs_Z (S8 a a0 a1 a2 a3 a4 a5 a6) + D) as E7 by (unfold limbs_Z; cbn [d0 d1 d2 d3 d4 d5 d6 d7]; lia) end.
  change (limbs_Z (S8 a a0 a1 a2 a3 a4 a5 a6) + D < n) in HV. pose proof (sc32_limbs_Z_range _ Hr) as Br. unfold n in HV.
  assert (h6 = 0) as H6 by lia. apply Returns_check; [apply Z.eqb_eq; exact H6|].
  rewrite (sc32_check_overflow_spec _ Hr). apply Returns_check.
  { rewrite (proj2 (Z.leb_gt n _)) by (unfold n; lia). reflexivity. }
  apply Returns_ret. rewrite H6 in E7. split; [split; [exact Hr | unfold n; lia]|]. rewrite Z.mul_0_l, Z.add_0_r in E7. exact E7.
Qed.

Lemma sc32_get_bits_spec a offset count : limbs_ok a -> 0 <= offset -> 0 < count -> offset + count <= 256 ->
  (offset + count - 1) / 32 = offset / 32 ->
  Returns (secp256k1_scalar_get_bits a offset count) (fun x => x = limbs_Z a / 2 ^ offset mod 2 ^ count).
Proof.
  intros Ha Ho Hc H256 Hw. unfold secp256k1_scalar_get_bits, u32. rewrite Z.mod_small by lia.
  rewrite <- !(Z.shiftr_div_pow2 _ 5) in Hw by lia. apply Returns_check; [apply Z.eqb_eq; exact Hw|]. apply Returns_ret.
  destruct (offset32 offset Ho) as (Hq & Hr & E). destruct (offset32 (offset + count - 1) ltac:(lia)) as (_ & Hr' & E').
  rewrite Hw in E'. apply mask_bits; [lia|]. intros k Hk.
  rewrite Z.shiftr_spec, sc32_limb_at, word_at_bits, Z.div_pow2_bits by (assumption || lia).
  rewrite (proj2 (Z.ltb_lt _ _)) by lia. cbn [andb]. f_equal. lia.
Qed.

Lemma sc32_get_bits_var_spec a offset count : limbs_ok a -> 0 <= offset -> 0 < count < 32 -> offset + count <= 256 ->
  Returns (secp256k1_scalar_get_bits_var a offset count) (fun x => x = limbs_Z a / 2 ^ offset mod 2 ^ count).
Proof.
  intros Ha Ho Hc H256. unfold secp256k1_scalar_get_bits_var.
  assert (u32 (offset + count) = offset + count) as -> by (apply Z.mod_small; lia).
  assert (u32 (offset + count - 1) = offset + count - 1) as -> by (apply Z.mod_small; lia).
  apply Returns_check; [apply Z.ltb_lt; lia|]. apply Returns_check; [apply Z.leb_le; lia|].
  destruct (Z.eqb_spec (Z.shiftr (offset + count - 1) 5) (Z.shiftr offset 5)) as [Hw | Hw].
  { apply sc32_get_bits_spec; try lia; [assumption|]. rewrite !Z.shiftr_div_pow2 in Hw by lia. exact Hw. }
  destruct (offset32 offset Ho) as (Hq & Hr & E). destruct (offset32 (offset + count - 1) ltac:(lia)) as (_ & Hr' & E').
  apply Returns_check; [apply Z.ltb_lt; lia|]. apply Returns_ret. unfold u32 at 1.
  rewrite !sc32_limb_at, (word_at_mid 32 ltac:(lia) _ (32 * Z.shiftr offset 5)), <- E by (assumption || lia).
  assert (u32 (Z.shiftl 1 count - 1) = Z.shiftl 1 count - 1) as ->.
  { rewrite Z.shiftl_1_l. pose proof (Z.pow_pos_nonneg 2 count ltac:(lia) ltac:(lia)).
    pose proof (Z.pow_le_mono_r 2 count 32 ltac:(lia) ltac:(lia)). apply Z.mod_small. lia. }
  apply mask_bits; [lia|]. intros k Hk. rewrite word_at_bits, Z.div_pow2_bits by lia. rewrite (proj2 (Z.ltb_lt k 32)) by lia. reflexivity.
Qed.

Lemma sc32_set_int_spec v : 0 <= v < 2 ^ 32 -> scalar_inv (secp256k1_scalar_set_int v) /\ limbs_Z (secp256k1_scalar_set_int v) = v.
Proof.
  intros H. assert (limbs_Z (secp256k1_scalar_set_int v) = v) as E by (unfold limbs_Z; cbn [secp256k1_scalar_set_int d0 d1 d2 d3 d4 d5 d6 d7]; ring).
  split; [split; [|rewrite E; unfold n; lia] | exact E]. unfold limbs_ok, is_word. cbn [secp256k1_scalar_set_int d0 d1 d2 d3 d4 d5 d6 d7]. lia.
Qed.

Lemma sc32_split_128_spec a : limbs_ok a ->
  let '(r1, r2) := secp256k1_scalar_split_128 a in
  scalar_inv r1 /\ scalar_inv r2 /\ limbs_Z r1 = limbs_Z a mod 2 ^ 128 /\ limbs_Z r2 = limbs_Z a / 2 ^ 128.
Proof.
  intros H. unfold secp256k1_scalar_split_128, scalar_inv, n. unfold limbs_ok, is_word, limbs_Z in *. cbn [d0 d1 d2 d3 d4 d5 d6 d7].
  set (lo := d0 a + d1 a * 2 ^ 32 + d2 a * 2 ^ 64 + d3 a * 2 ^ 96). set (hi := d4 a + d5 a * 2 ^ 32 + d6 a * 2 ^ 64 + d7 a * 2 ^ 96).
  assert (0 <= lo < 2 ^ 128) as Hlo by lia. assert (0 <= hi < 2 ^ 128) as Hhi by lia.
  rewrite <- (Z.div_unique_pos (lo + d4 a * 2 ^ 128 + d5 a * 2 ^ 160 + d6 a * 2 ^ 192 + d7 a * 2 ^ 224) (2 ^ 128) hi lo) by (exact Hlo || unfold hi; ring).
  rewrite <- (Z.mod_unique_pos (lo + d4 a * 2 ^ 128 + d5 a * 2 ^ 160 + d6 a * 2 ^ 192 + d7 a * 2 ^ 224) (2 ^ 128) hi lo) by (exact Hlo || unfold hi; ring). lia.
Qed.

(** The limbs of an integer shifted right. *)
Lemma sc32_limbs_of_shifted V k : 0 <= k -> 0 <= V -> V / 2 ^ k < 2 ^ 256 ->
  let r := S8 (word_at 32 V (0 + k)) (word_at 32 V (32 + k)) (word_at 32 V (64 + k)) (word_at 32 V (96 + k)) (word_at 32 V (128 + k))
              (word_at 32 V (160 + k)) (word_at 32 V (192 + k)) (word_at 32 V (224 + k)) in
  limbs_ok r /\ limbs_Z r = V / 2 ^ k.
Proof.
  intros Hk HV Hlt. assert (0 <= V / 2 ^ k) as H0 by (apply Z.div_pos; [lia | apply Z.pow_pos_nonneg; lia]).
  rewrite !(word_at_shift 32) by lia. split; [repeat split; apply (word_at_word 32); lia|]. set (X := V / 2 ^ k) in *.
  pose proof (word_at_step 32 ltac:(lia) X 0 32 eq_refl ltac:(lia) H0) as E0. pose proof (word_at_step 32 ltac:(lia) X 32 64 eq_refl ltac:(lia) H0) as E1.
  pose proof (word_at_step 32 ltac:(lia) X 64 96 eq_refl ltac:(lia) H0) as E2. pose proof (word_at_step 32 ltac:(lia) X 96 128 eq_refl ltac:(lia) H0) as E3.
  pose proof (word_at_step 32 ltac:(lia) X 128 160 eq_refl ltac:(lia) H0) as E4. pose proof (word_at_step 32 ltac:(lia) X 160 192 eq_refl ltac:(lia) H0) as E5.
  pose proof (word_at_step 32 ltac:(lia) X 192 224 eq_refl ltac:(lia) H0) as E6. pose proof (word_at_step 32 ltac:(lia) X 224 256 eq_refl ltac:(lia) H0) as E7.
  rewrite (Z.div_small X (2 ^ 256)) in E7 by lia. rewrite Z.pow_0_r, Z.div_1_r in E0. rewrite <- sc32_limbs_words. unfold limbs.
  cbn [d0 d1 d2 d3 d4 d5 d6 d7 words_Z]. rewrite Z.mul_0_r in *. congruence.
Qed.

(** The limbs as words of the number they write. *)
Lemma sc32_limbs_at a : limbs_ok a -> d0 a = word_at 32 (limbs_Z a) 0 /\ d1 a = word_at 32 (limbs_Z a) 32 /\ d2 a = word_at 32 (limbs_Z a) 64 /\
  d3 a = word_at 32 (limbs_Z a) 96 /\ d4 a = word_at 32 (limbs_Z a) 128 /\ d5 a = word_at 32 (limbs_Z a) 160 /\
  d6 a = word_at 32 (limbs_Z a) 192 /\ d7 a = word_at 32 (limbs_Z a) 224.
Proof.
  intros H. repeat split; [exact (sc32_limb_at a 0 H ltac:(lia)) | exact (sc32_limb_at a 1 H ltac:(lia)) | exact (sc32_limb_at a 2 H ltac:(lia)) |
    exact (sc32_limb_at a 3 H ltac:(lia)) | exact (sc32_limb_at a 4 H ltac:(lia)) | exact (sc32_limb_at a 5 H ltac:(lia)) | exact (sc32_limb_at a 6 H ltac:(lia)) |
    exact (sc32_limb_at a 7 H ltac:(lia))].
Qed.

Lemma sc32_shr_int_spec r k : scalar_inv r -> 0 < k < 16 ->
  Returns (secp256k1_scalar_shr_int r k) (fun '(low, r') => low = limbs_Z r mod 2 ^ k /\ scalar_inv r' /\ limbs_Z r' = limbs_Z r / 2 ^ k).
Proof.
  intros [Hr Hn] Hk. pose proof (sc32_limbs_Z_range r Hr) as HV. unfold secp256k1_scalar_shr_int.
  apply Returns_check; [apply Z.ltb_lt; lia|]. apply Returns_check; [apply Z.ltb_lt; lia|].
  destruct (sc32_limbs_at r Hr) as (-> & -> & -> & -> & -> & -> & -> & ->). set (V := limbs_Z r) in *. unfold u32.
  rewrite (shr_word 32 ltac:(lia) V 0 32 k), (shr_word 32 ltac:(lia) V 32 64 k), (shr_word 32 ltac:(lia) V 64 96 k), (shr_word 32 ltac:(lia) V 96 128 k),
    (shr_word 32 ltac:(lia) V 128 160 k), (shr_word 32 ltac:(lia) V 160 192 k), (shr_word 32 ltac:(lia) V 192 224 k), (shr_top 32 ltac:(lia) V 224 k) by lia.
  assert (0 < 2 ^ k) as Hp by (apply Z.pow_pos_nonneg; lia). assert (V / 2 ^ k <= V) as Hle by (apply Z.div_le_upper_bound; nia).
  destruct (sc32_limbs_of_shifted V k ltac:(lia) ltac:(lia) ltac:(lia)) as [Hok E].
  apply Returns_ret. split; [|split; [split; [exact Hok | lia] | exact E]].
  apply mask_bits; [lia|]. intros i Hi. rewrite word_at_bits, (proj2 (Z.ltb_lt i 32)) by lia. rewrite Z.add_0_r. reflexivity.
Qed.

Lemma sc32_mul_shift_var_spec a b shift : scalar_inv a -> scalar_inv b -> 256 <= shift <= 512 ->
  Returns (secp256k1_scalar_mul_shift_var a b shift) (fun r => scalar_inv r /\ limbs_Z r = (limbs_Z a * limbs_Z b + 2 ^ (shift - 1)) / 2 ^ shift).
Proof.
  intros [Ha Hna] [Hb Hnb] Hs. pose proof (sc32_limbs_Z_range a Ha) as Ra. pose proof (sc32_limbs_Z_range b Hb) as Rb.
  unfold secp256k1_scalar_mul_shift_var. apply Returns_check; [apply Z.leb_le; lia|].
  eapply Returns_bind; [apply (sc32_mul_512_spec a b Ha Hb)|]. intros l [[Hlen Hl] EV].
  pose proof (product_shift_room (limbs_Z a) (limbs_Z b) shift ltac:(lia) ltac:(lia) ltac:(lia)) as HX.
  rewrite <- EV in *. set (V := words_Z 32 l) in *. assert (0 <= V < 2 ^ 512) as HV by (rewrite EV; nia).
  assert (forall k, 0 <= k -> nth (Z.to_nat (k + Z.shiftr shift 5)) l 0 = word_at 32 V (32 * (k + Z.shiftr shift 5))) as Hat.
  { intros k Hk. rewrite (words_Z_at 32) by (exact Hl || lia). rewrite Z2Nat.id by (pose proof (offset32 shift); lia). reflexivity. }
  cbv zeta. rewrite !Hat by lia. pose proof (shifted_word 32 5 31 ltac:(lia) eq_refl eq_refl V shift 7 8 288 256 ltac:(lia) HV ltac:(lia) ltac:(lia) eq_refl eq_refl eq_refl eq_refl) as E7.
  rewrite (proj2 (Z.ltb_ge shift 256)) in E7 by lia. cbn [andb] in E7. rewrite Z.lor_0_r in E7. rewrite E7. unfold u32.
  rewrite (shifted_word 32 5 31 ltac:(lia) eq_refl eq_refl V shift 0 1 512 480), (shifted_word 32 5 31 ltac:(lia) eq_refl eq_refl V shift 1 2 480 448),
    (shifted_word 32 5 31 ltac:(lia) eq_refl eq_refl V shift 2 3 448 416), (shifted_word 32 5 31 ltac:(lia) eq_refl eq_refl V shift 3 4 416 384),
    (shifted_word 32 5 31 ltac:(lia) eq_refl eq_refl V shift 4 5 384 352), (shifted_word 32 5 31 ltac:(lia) eq_refl eq_refl V shift 5 6 352 320),
    (shifted_word 32 5 31 ltac:(lia) eq_refl eq_refl V shift 6 7 320 288) by (exact HV || reflexivity || lia).
  destruct (offset32 (shift - 1) ltac:(lia)) as (Hq & Hr & E).
  assert (Z.land (Z.shiftr (nth (Z.to_nat (Z.shiftr (shift - 1) 5)) l 0) (Z.land (shift - 1) 0x1f)) 1 = Z.b2z (Z.testbit V (shift - 1))) as ->.
  { rewrite (words_Z_at 32), Z2Nat.id by (exact Hl || lia). fold V.
    match goal with |- Z.land ?x 1 = _ => change (Z.land x 1) with (Z.land x (Z.ones 1)) end. rewrite Z.land_ones by lia. change (2 ^ 1) with 2.
    rewrite <- Z.bit0_mod, Z.shiftr_spec, word_at_bits by lia. rewrite (proj2 (Z.ltb_lt _ _)) by lia. cbn [andb]. do 2 f_equal. lia. }
  destruct (sc32_limbs_of_shifted V shift ltac:(lia) ltac:(lia) ltac:(unfold n in HX; lia)) as [Hok EX].
  match type of Hok with limbs_ok ?r => change (Returns (secp256k1_scalar_cadd_bit r 0 (Z.b2z (Z.testbit V (shift - 1))))
    (fun r' => scalar_inv r' /\ limbs_Z r' = (V + 2 ^ (shift - 1)) / 2 ^ shift)); set (r0 := r) in * end. clearbody r0.
  eapply Returns_mono; [apply sc32_cadd_bit_spec; [split; [exact Hok | lia] | lia | intros _; lia]|].
  intros r [Hr' Er]. split; [exact Hr'|]. rewrite Er, EX, round_half by lia. reflexivity.
Qed.

Lemma sc32_const w7 w6 w5 w4 w3 w2 w1 w0 :
  is_word w7 -> is_word w6 -> is_word w5 -> is_word w4 -> is_word w3 -> is_word w2 -> is_word w1 -> is_word w0 ->
  words_value w7 w6 w5 w4 w3 w2 w1 w0 < n ->
  let r := SECP256K1_SCALAR_CONST w7 w6 w5 w4 w3 w2 w1 w0 in scalar_inv r /\ limbs_Z r = words_value w7 w6 w5 w4 w3 w2 w1 w0.
Proof.
  intros H7 H6 H5 H4 H3 H2 H1 H0 Hn. unfold SECP256K1_SCALAR_CONST, scalar_inv, limbs_ok, limbs_Z. cbn [d0 d1 d2 d3 d4 d5 d6 d7].
  unfold words_value in *. split; [split; [tauto|]|]; lia.
Qed.
