(* ===== verification/Scalar4x64.v ===== *)
(** * Scalars in four limbs of 64 bits: [scalar_4x64.h], [scalar_4x64_impl.h]

    The representation for machines with a 128-bit integer type, in the branches
    for builds without the assembly.  The conventions are those of the file on
    eight limbs. *)

From Stdlib Require Import ZArith Lia List Bool.
From S2P Require Import Prelude Modulus Bytes ScalarAcc ScalarWords.
Import ListNotations.

#[local] Open Scope Z_scope.
#[local] Open Scope checked_scope.

(** ** Data *)

Record secp256k1_scalar : Type := S4 { d0 : Z; d1 : Z; d2 : Z; d3 : Z }.

Definition SECP256K1_SCALAR_CONST (d7 d6 d5 d4 d3 d2 d1 d0 : Z) : secp256k1_scalar :=
  S4 (Z.lor (u64 (Z.shiftl d1 32)) d0) (Z.lor (u64 (Z.shiftl d3 32)) d2)
     (Z.lor (u64 (Z.shiftl d5 32)) d4) (Z.lor (u64 (Z.shiftl d7 32)) d6).

(** [a->d[i]] *)
Definition limb (a : secp256k1_scalar) (i : Z) : Z :=
  nth (Z.to_nat i) [d0 a; d1 a; d2 a; d3 a] 0.

(** Limbs of the order. *)
Definition SECP256K1_N_0 : Z := 0xBFD25E8CD0364141.
Definition SECP256K1_N_1 : Z := 0xBAAEDCE6AF48A03B.
Definition SECP256K1_N_2 : Z := 0xFFFFFFFFFFFFFFFE.
Definition SECP256K1_N_3 : Z := 0xFFFFFFFFFFFFFFFF.

(** Limbs of 2^256 minus the order. *)
Definition SECP256K1_N_C_0 : Z := Eval compute in u64 (Z.lnot SECP256K1_N_0 + 1).
Definition SECP256K1_N_C_1 : Z := Eval compute in u64 (Z.lnot SECP256K1_N_1).
Definition SECP256K1_N_C_2 : Z := 1.

(** Limbs of half the order. *)
Definition SECP256K1_N_H_0 : Z := 0xDFE92F46681B20A0.
Definition SECP256K1_N_H_1 : Z := 0x5D576E7357A4501D.
Definition SECP256K1_N_H_2 : Z := 0xFFFFFFFFFFFFFFFF.
Definition SECP256K1_N_H_3 : Z := 0x7FFFFFFFFFFFFFFF.

(** ** Operations *)

Definition secp256k1_scalar_clear : secp256k1_scalar := S4 0 0 0 0.

Definition secp256k1_scalar_set_int (v : Z) : secp256k1_scalar := S4 v 0 0 0.

Definition secp256k1_scalar_get_bits (a : secp256k1_scalar) (offset count : Z) : checked Z :=
  VERIFY_CHECK (Z.shiftr (u32 (offset + count - 1)) 6 =? Z.shiftr offset 6);;
  ret (u32 (Z.land (Z.shiftr (limb a (Z.shiftr offset 6)) (Z.land offset 0x3F)) (u64 (Z.shiftl 1 count - 1)))).

Definition secp256k1_scalar_get_bits_var (a : secp256k1_scalar) (offset count : Z) : checked Z :=
  VERIFY_CHECK (count <? 32);;
  VERIFY_CHECK (u32 (offset + count) <=? 256);;
  if Z.shiftr (u32 (offset + count - 1)) 6 =? Z.shiftr offset 6 then
    secp256k1_scalar_get_bits a offset count
  else
    VERIFY_CHECK (Z.shiftr offset 6 + 1 <? 4);;
    ret (u32 (Z.land (Z.lor (Z.shiftr (limb a (Z.shiftr offset 6)) (Z.land offset 0x3F))
                            (u64 (Z.shiftl (limb a (Z.shiftr offset 6 + 1)) (64 - Z.land offset 0x3F))))
                     (u64 (Z.shiftl 1 count - 1)))).

Definition secp256k1_scalar_check_overflow (a : secp256k1_scalar) : Z :=
  let yes := 0 in
  let no := 0 in
  let no := Z.lor no (Z.b2z (d3 a <? SECP256K1_N_3)) in
  let no := Z.lor no (Z.b2z (d2 a <? SECP256K1_N_2)) in
  let yes := Z.lor yes (Z.land (Z.b2z (SECP256K1_N_2 <? d2 a)) (Z.lnot no)) in
  let no := Z.lor no (Z.b2z (d1 a <? SECP256K1_N_1)) in
  let yes := Z.lor yes (Z.land (Z.b2z (SECP256K1_N_1 <? d1 a)) (Z.lnot no)) in
  let yes := Z.lor yes (Z.land (Z.b2z (SECP256K1_N_0 <=? d0 a)) (Z.lnot no)) in
  yes.

(** The new value, after the returned [overflow]. *)
Definition secp256k1_scalar_reduce (r : secp256k1_scalar) (overflow : Z) : checked (Z * secp256k1_scalar) :=
  VERIFY_CHECK (overflow <=? 1);;
  let t := u128 (d0 r + u64 (overflow * SECP256K1_N_C_0)) in let r0 := Z.land t 0xFFFFFFFFFFFFFFFF in let t := Z.shiftr t 64 in
  let t := u128 (t + (d1 r + u64 (overflow * SECP256K1_N_C_1))) in let r1 := Z.land t 0xFFFFFFFFFFFFFFFF in let t := Z.shiftr t 64 in
  let t := u128 (t + (d2 r + u32 (overflow * SECP256K1_N_C_2))) in let r2 := Z.land t 0xFFFFFFFFFFFFFFFF in let t := Z.shiftr t 64 in
  let t := u128 (t + d3 r) in let r3 := Z.land t 0xFFFFFFFFFFFFFFFF in
  ret (overflow, S4 r0 r1 r2 r3).

(** Whether the sum overflowed, and the sum. *)
Definition secp256k1_scalar_add (a b : secp256k1_scalar) : checked (Z * secp256k1_scalar) :=
  let t := u128 (d0 a + d0 b) in let r0 := Z.land t 0xFFFFFFFFFFFFFFFF in let t := Z.shiftr t 64 in
  let t := u128 (t + (d1 a + d1 b)) in let r1 := Z.land t 0xFFFFFFFFFFFFFFFF in let t := Z.shiftr t 64 in
  let t := u128 (t + (d2 a + d2 b)) in let r2 := Z.land t 0xFFFFFFFFFFFFFFFF in let t := Z.shiftr t 64 in
  let t := u128 (t + (d3 a + d3 b)) in let r3 := Z.land t 0xFFFFFFFFFFFFFFFF in let t := Z.shiftr t 64 in
  let r := S4 r0 r1 r2 r3 in
  let overflow := i32 (u128 (t + secp256k1_scalar_check_overflow r)) in
  VERIFY_CHECK ((overflow =? 0) || (overflow =? 1));;
  ' (_, r) <- secp256k1_scalar_reduce r (u32 overflow);;
  ret (overflow, r).

Definition secp256k1_scalar_cadd_bit (r : secp256k1_scalar) (bit flag : Z) : checked secp256k1_scalar :=
  VERIFY_CHECK (bit <? 256);;
  let bit := u32 (bit + Z.land (u32 (flag - 1)) 0x100) in  (* forcing (bit >> 6) > 3 makes this a noop *)
  let t := u128 (d0 r + u64 (Z.shiftl (Z.b2z (Z.shiftr bit 6 =? 0)) (Z.land bit 0x3F))) in let r0 := Z.land t 0xFFFFFFFFFFFFFFFF in let t := Z.shiftr t 64 in
  let t := u128 (t + (d1 r + u64 (Z.shiftl (Z.b2z (Z.shiftr bit 6 =? 1)) (Z.land bit 0x3F)))) in let r1 := Z.land t 0xFFFFFFFFFFFFFFFF in let t := Z.shiftr t 64 in
  let t := u128 (t + (d2 r + u64 (Z.shiftl (Z.b2z (Z.shiftr bit 6 =? 2)) (Z.land bit 0x3F)))) in let r2 := Z.land t 0xFFFFFFFFFFFFFFFF in let t := Z.shiftr t 64 in
  let t := u128 (t + (d3 r + u64 (Z.shiftl (Z.b2z (Z.shiftr bit 6 =? 3)) (Z.land bit 0x3F)))) in let r3 := Z.land t 0xFFFFFFFFFFFFFFFF in
  let r := S4 r0 r1 r2 r3 in
  VERIFY_CHECK (Z.shiftr t 64 =? 0);;
  VERIFY_CHECK (secp256k1_scalar_check_overflow r =? 0);;
  ret r.

(** Whether the integer was reduced, and the scalar. *)
Definition secp256k1_scalar_set_b32 (b32 : list Z) : checked (Z * secp256k1_scalar) :=
  let b i := nth i b32 0 in
  let r0 := Z.lor (Z.lor (Z.lor (Z.lor (Z.lor (Z.lor (Z.lor (b 31%nat) (u64 (Z.shiftl (b 30%nat) 8))) (u64 (Z.shiftl (b 29%nat) 16))) (u64 (Z.shiftl (b 28%nat) 24))) (u64 (Z.shiftl (b 27%nat) 32))) (u64 (Z.shiftl (b 26%nat) 40))) (u64 (Z.shiftl (b 25%nat) 48))) (u64 (Z.shiftl (b 24%nat) 56)) in
  let r1 := Z.lor (Z.lor (Z.lor (Z.lor (Z.lor (Z.lor (Z.lor (b 23%nat) (u64 (Z.shiftl (b 22%nat) 8))) (u64 (Z.shiftl (b 21%nat) 16))) (u64 (Z.shiftl (b 20%nat) 24))) (u64 (Z.shiftl (b 19%nat) 32))) (u64 (Z.shiftl (b 18%nat) 40))) (u64 (Z.shiftl (b 17%nat) 48))) (u64 (Z.shiftl (b 16%nat) 56)) in
  let r2 := Z.lor (Z.lor (Z.lor (Z.lor (Z.lor (Z.lor (Z.lor (b 15%nat) (u64 (Z.shiftl (b 14%nat) 8))) (u64 (Z.shiftl (b 13%nat) 16))) (u64 (Z.shiftl (b 12%nat) 24))) (u64 (Z.shiftl (b 11%nat) 32))) (u64 (Z.shiftl (b 10%nat) 40))) (u64 (Z.shiftl (b 9%nat) 48))) (u64 (Z.shiftl (b 8%nat) 56)) in
  let r3 := Z.lor (Z.lor (Z.lor (Z.lor (Z.lor (Z.lor (Z.lor (b 7%nat) (u64 (Z.shiftl (b 6%nat) 8))) (u64 (Z.shiftl (b 5%nat) 16))) (u64 (Z.shiftl (b 4%nat) 24))) (u64 (Z.shiftl (b 3%nat) 32))) (u64 (Z.shiftl (b 2%nat) 40))) (u64 (Z.shiftl (b 1%nat) 48))) (u64 (Z.shiftl (b 0%nat) 56)) in
  let r := S4 r0 r1 r2 r3 in
  secp256k1_scalar_reduce r (u32 (secp256k1_scalar_check_overflow r)).

Definition secp256k1_scalar_get_b32 (a : secp256k1_scalar) : list Z :=
  [u8 (Z.shiftr (d3 a) 56); u8 (Z.shiftr (d3 a) 48); u8 (Z.shiftr (d3 a) 40); u8 (Z.shiftr (d3 a) 32); u8 (Z.shiftr (d3 a) 24); u8 (Z.shiftr (d3 a) 16); u8 (Z.shiftr (d3 a) 8); u8 (d3 a);
   u8 (Z.shiftr (d2 a) 56); u8 (Z.shiftr (d2 a) 48); u8 (Z.shiftr (d2 a) 40); u8 (Z.shiftr (d2 a) 32); u8 (Z.shiftr (d2 a) 24); u8 (Z.shiftr (d2 a) 16); u8 (Z.shiftr (d2 a) 8); u8 (d2 a);
   u8 (Z.shiftr (d1 a) 56); u8 (Z.shiftr (d1 a) 48); u8 (Z.shiftr (d1 a) 40); u8 (Z.shiftr (d1 a) 32); u8 (Z.shiftr (d1 a) 24); u8 (Z.shiftr (d1 a) 16); u8 (Z.shiftr (d1 a) 8); u8 (d1 a);
   u8 (Z.shiftr (d0 a) 56); u8 (Z.shiftr (d0 a) 48); u8 (Z.shiftr (d0 a) 40); u8 (Z.shiftr (d0 a) 32); u8 (Z.shiftr (d0 a) 24); u8 (Z.shiftr (d0 a) 16); u8 (Z.shiftr (d0 a) 8); u8 (d0 a)].

Definition secp256k1_scalar_is_zero (a : secp256k1_scalar) : bool :=
  Z.lor (Z.lor (Z.lor (d0 a) (d1 a)) (d2 a)) (d3 a) =? 0.

Definition secp256k1_scalar_negate (a : secp256k1_scalar) : secp256k1_scalar :=
  let nonzero := u64 (0xFFFFFFFFFFFFFFFF * Z.b2z (negb (secp256k1_scalar_is_zero a))) in
  let t := u128 (u64 (Z.lnot (d0 a)) + SECP256K1_N_0 + 1) in let r0 := Z.land t nonzero in let t := Z.shiftr t 64 in
  let t := u128 (t + (u64 (Z.lnot (d1 a)) + SECP256K1_N_1)) in let r1 := Z.land t nonzero in let t := Z.shiftr t 64 in
  let t := u128 (t + (u64 (Z.lnot (d2 a)) + SECP256K1_N_2)) in let r2 := Z.land t nonzero in let t := Z.shiftr t 64 in
  let t := u128 (t + (u64 (Z.lnot (d3 a)) + SECP256K1_N_3)) in let r3 := Z.land t nonzero in
  S4 r0 r1 r2 r3.

Definition secp256k1_scalar_is_one (a : secp256k1_scalar) : bool :=
  Z.lor (Z.lor (Z.lor (Z.lxor (d0 a) 1) (d1 a)) (d2 a)) (d3 a) =? 0.

Definition secp256k1_scalar_is_high (a : secp256k1_scalar) : Z :=
  let yes := 0 in
  let no := 0 in
  let no := Z.lor no (Z.b2z (d3 a <? SECP256K1_N_H_3)) in
  let yes := Z.lor yes (Z.land (Z.b2z (SECP256K1_N_H_3 <? d3 a)) (Z.lnot no)) in
  let no := Z.lor no (Z.land (Z.b2z (d2 a <? SECP256K1_N_H_2)) (Z.lnot yes)) in
  let no := Z.lor no (Z.land (Z.b2z (d1 a <? SECP256K1_N_H_1)) (Z.lnot yes)) in
  let yes := Z.lor yes (Z.land (Z.b2z (SECP256K1_N_H_1 <? d1 a)) (Z.lnot no)) in
  let yes := Z.lor yes (Z.land (Z.b2z (SECP256K1_N_H_0 <? d0 a)) (Z.lnot no)) in
  yes.

(** 1 or -1, and the new value. *)
Definition secp256k1_scalar_cond_negate (r : secp256k1_scalar) (flag : Z) : Z * secp256k1_scalar :=
  let mask := u64 (Z.b2z (flag =? 0) - 1) in
  let nonzero := u64 (Z.b2z (secp256k1_scalar_is_zero r) - 1) in
  let t := u128 (Z.lxor (d0 r) mask + Z.land (u64 (SECP256K1_N_0 + 1)) mask) in let r0 := Z.land t nonzero in let t := Z.shiftr t 64 in
  let t := u128 (t + (Z.lxor (d1 r) mask + Z.land SECP256K1_N_1 mask)) in let r1 := Z.land t nonzero in let t := Z.shiftr t 64 in
  let t := u128 (t + (Z.lxor (d2 r) mask + Z.land SECP256K1_N_2 mask)) in let r2 := Z.land t nonzero in let t := Z.shiftr t 64 in
  let t := u128 (t + (Z.lxor (d3 r) mask + Z.land SECP256K1_N_3 mask)) in let r3 := Z.land t nonzero in
  (2 * Z.b2z (mask =? 0) - 1, S4 r0 r1 r2 r3).

(** ** Products of 512 bits and their reduction

    [secp256k1_scalar_reduce_512] in its three stages, each a function of the
    words it reads; its accumulator has a [c2] of 64 bits, that of the products
    one of 32 bits. *)

(** [m[0..6] = l[0..3] + n[0..3] * SECP256K1_N_C] *)
Definition reduce_512_385 (l : list Z) : checked (list Z) :=
  let l0 := nth 0 l 0 in let l1 := nth 1 l 0 in let l2 := nth 2 l 0 in let l3 := nth 3 l 0 in
  let n0 := nth 4 l 0 in let n1 := nth 5 l 0 in let n2 := nth 6 l 0 in let n3 := nth 7 l 0 in
  let c := mk_acc l0 0 0 in
  c <- muladd_fast 64 c n0 SECP256K1_N_C_0;; ' (m0, c) <- extract_fast c;;
  c <- sumadd_fast 64 c l1;; c <- muladd 64 64 c n1 SECP256K1_N_C_0;; c <- muladd 64 64 c n0 SECP256K1_N_C_1;;
  ' (m1, c) <- extract c;;
  c <- sumadd 64 64 c l2;; c <- muladd 64 64 c n2 SECP256K1_N_C_0;; c <- muladd 64 64 c n1 SECP256K1_N_C_1;;
  c <- sumadd 64 64 c n0;; ' (m2, c) <- extract c;;
  c <- sumadd 64 64 c l3;; c <- muladd 64 64 c n3 SECP256K1_N_C_0;; c <- muladd 64 64 c n2 SECP256K1_N_C_1;;
  c <- sumadd 64 64 c n1;; ' (m3, c) <- extract c;;
  c <- muladd 64 64 c n3 SECP256K1_N_C_1;; c <- sumadd 64 64 c n2;; ' (m4, c) <- extract c;;
  c <- sumadd_fast 64 c n3;; ' (m5, c) <- extract_fast c;;
  VERIFY_CHECK (c0 c <=? 1);;
  let m6 := u32 (c0 c) in
  ret [m0; m1; m2; m3; m4; m5; m6].

(** [p[0..4] = m[0..3] + m[4..6] * SECP256K1_N_C] *)
Definition reduce_385_258 (m : list Z) : checked (list Z) :=
  let m0 := nth 0 m 0 in let m1 := nth 1 m 0 in let m2 := nth 2 m 0 in let m3 := nth 3 m 0 in let m4 := nth 4 m 0 in
  let m5 := nth 5 m 0 in let m6 := nth 6 m 0 in
  let c := mk_acc m0 0 0 in
  c <- muladd_fast 64 c m4 SECP256K1_N_C_0;; ' (p0, c) <- extract_fast c;;
  c <- sumadd_fast 64 c m1;; c <- muladd 64 64 c m5 SECP256K1_N_C_0;; c <- muladd 64 64 c m4 SECP256K1_N_C_1;;
  ' (p1, c) <- extract c;;
  c <- sumadd 64 64 c m2;; c <- muladd 64 64 c m6 SECP256K1_N_C_0;; c <- muladd 64 64 c m5 SECP256K1_N_C_1;;
  c <- sumadd 64 64 c m4;; ' (p2, c) <- extract c;;
  c <- sumadd_fast 64 c m3;; c <- muladd_fast 64 c m6 SECP256K1_N_C_1;; c <- sumadd_fast 64 c m5;;
  ' (p3, c) <- extract_fast c;;
  let p4 := u32 (u64 (c0 c + m6)) in
  VERIFY_CHECK (p4 <=? 2);;
  ret [p0; p1; p2; p3; p4].

(** [r[0..3] = p[0..3] + p[4] * SECP256K1_N_C], and the final reduction. *)
Definition reduce_258_256 (q : list Z) : checked secp256k1_scalar :=
  let p0 := nth 0 q 0 in let p1 := nth 1 q 0 in let p2 := nth 2 q 0 in let p3 := nth 3 q 0 in let p4 := nth 4 q 0 in
  let c := u128 (p0 + u128 (SECP256K1_N_C_0 * p4)) in let r0 := Z.land c 0xFFFFFFFFFFFFFFFF in let c := Z.shiftr c 64 in
  let c := u128 (c + (p1 + u128 (SECP256K1_N_C_1 * p4))) in let r1 := Z.land c 0xFFFFFFFFFFFFFFFF in let c := Z.shiftr c 64 in
  let c := u128 (c + (p2 + p4)) in let r2 := Z.land c 0xFFFFFFFFFFFFFFFF in let c := Z.shiftr c 64 in
  let c := u128 (c + p3) in let r3 := Z.land c 0xFFFFFFFFFFFFFFFF in let c := Z.shiftr c 64 in
  let r := S4 r0 r1 r2 r3 in
  ' (_, r) <- secp256k1_scalar_reduce r (u32 (c + secp256k1_scalar_check_overflow r));;
  ret r.

Definition secp256k1_scalar_reduce_512 (l : list Z) : checked secp256k1_scalar :=
  m <- reduce_512_385 l;;
  q <- reduce_385_258 m;;
  reduce_258_256 q.

Definition secp256k1_scalar_mul_512 (a b : secp256k1_scalar) : checked (list Z) :=
  let c := mk_acc 0 0 0 in
  c <- muladd_fast 64 c (d0 a) (d0 b);; ' (l0, c) <- extract_fast c;;
  c <- muladd 64 32 c (d0 a) (d1 b);; c <- muladd 64 32 c (d1 a) (d0 b);; ' (l1, c) <- extract c;;
  c <- muladd 64 32 c (d0 a) (d2 b);; c <- muladd 64 32 c (d1 a) (d1 b);; c <- muladd 64 32 c (d2 a) (d0 b);;
  ' (l2, c) <- extract c;;
  c <- muladd 64 32 c (d0 a) (d3 b);; c <- muladd 64 32 c (d1 a) (d2 b);; c <- muladd 64 32 c (d2 a) (d1 b);;
  c <- muladd 64 32 c (d3 a) (d0 b);; ' (l3, c) <- extract c;;
  c <- muladd 64 32 c (d1 a) (d3 b);; c <- muladd 64 32 c (d2 a) (d2 b);; c <- muladd 64 32 c (d3 a) (d1 b);;
  ' (l4, c) <- extract c;;
  c <- muladd 64 32 c (d2 a) (d3 b);; c <- muladd 64 32 c (d3 a) (d2 b);; ' (l5, c) <- extract c;;
  c <- muladd_fast 64 c (d3 a) (d3 b);; ' (l6, c) <- extract_fast c;;
  VERIFY_CHECK (c1 c =? 0);;
  let l7 := c0 c in
  ret [l0; l1; l2; l3; l4; l5; l6; l7].

Definition secp256k1_scalar_sqr_512 (a : secp256k1_scalar) : checked (list Z) :=
  let c := mk_acc 0 0 0 in
  c <- muladd_fast 64 c (d0 a) (d0 a);; ' (l0, c) <- extract_fast c;;
  c <- muladd2 64 32 c (d0 a) (d1 a);; ' (l1, c) <- extract c;;
  c <- muladd2 64 32 c (d0 a) (d2 a);; c <- muladd 64 32 c (d1 a) (d1 a);; ' (l2, c) <- extract c;;
  c <- muladd2 64 32 c (d0 a) (d3 a);; c <- muladd2 64 32 c (d1 a) (d2 a);; ' (l3, c) <- extract c;;
  c <- muladd2 64 32 c (d1 a) (d3 a);; c <- muladd 64 32 c (d2 a) (d2 a);; ' (l4, c) <- extract c;;
  c <- muladd2 64 32 c (d2 a) (d3 a);; ' (l5, c) <- extract c;;
  c <- muladd_fast 64 c (d3 a) (d3 a);; ' (l6, c) <- extract_fast c;;
  VERIFY_CHECK (c1 c =? 0);;
  let l7 := c0 c in
  ret [l0; l1; l2; l3; l4; l5; l6; l7].

Definition secp256k1_scalar_mul (a b : secp256k1_scalar) : checked secp256k1_scalar :=
  l <- secp256k1_scalar_mul_512 a b;;
  secp256k1_scalar_reduce_512 l.

(** The bits shifted off, and the new value. *)
Definition secp256k1_scalar_shr_int (r : secp256k1_scalar) (n : Z) : checked (Z * secp256k1_scalar) :=
  VERIFY_CHECK (0 <? n);;
  VERIFY_CHECK (n <? 16);;
  let ret_ := Z.land (d0 r) (Z.shiftl 1 n - 1) in
  let r0 := u64 (Z.shiftr (d0 r) n + u64 (Z.shiftl (d1 r) (64 - n))) in
  let r1 := u64 (Z.shiftr (d1 r) n + u64 (Z.shiftl (d2 r) (64 - n))) in
  let r2 := u64 (Z.shiftr (d2 r) n + u64 (Z.shiftl (d3 r) (64 - n))) in
  let r3 := Z.shiftr (d3 r) n in
  ret (ret_, S4 r0 r1 r2 r3).

Definition secp256k1_scalar_sqr (a : secp256k1_scalar) : checked secp256k1_scalar :=
  l <- secp256k1_scalar_sqr_512 a;;
  secp256k1_scalar_reduce_512 l.

Definition secp256k1_scalar_split_128 (a : secp256k1_scalar) : secp256k1_scalar * secp256k1_scalar :=
  (S4 (d0 a) (d1 a) 0 0, S4 (d2 a) (d3 a) 0 0).

Definition secp256k1_scalar_eq (a b : secp256k1_scalar) : bool :=
  Z.lor (Z.lor (Z.lor (Z.lxor (d0 a) (d0 b)) (Z.lxor (d1 a) (d1 b))) (Z.lxor (d2 a) (d2 b))) (Z.lxor (d3 a) (d3 b)) =? 0.

(** [secp256k1_scalar_is_even] of [scalar_impl.h]. *)
Definition secp256k1_scalar_is_even (a : secp256k1_scalar) : bool := Z.land (d0 a) 1 =? 0.

(** The words of [l] from bit [shift] on, rounded.  For shifts up to 512: past that
    the last read is outside [l]. *)
Definition mul_shift_words (l : list Z) (shift : Z) : checked secp256k1_scalar :=
  let shiftlimbs := Z.shiftr shift 6 in
  let shiftlow := Z.land shift 0x3F in
  let shifthigh := 64 - shiftlow in
  let at_ k := nth (Z.to_nat (k + shiftlimbs)) l 0 in
  let r0 := if shift <? 512 then Z.lor (Z.shiftr (at_ 0) shiftlow) (if (shift <? 448) && negb (shiftlow =? 0) then u64 (Z.shiftl (at_ 1) shifthigh) else 0) else 0 in
  let r1 := if shift <? 448 then Z.lor (Z.shiftr (at_ 1) shiftlow) (if (shift <? 384) && negb (shiftlow =? 0) then u64 (Z.shiftl (at_ 2) shifthigh) else 0) else 0 in
  let r2 := if shift <? 384 then Z.lor (Z.shiftr (at_ 2) shiftlow) (if (shift <? 320) && negb (shiftlow =? 0) then u64 (Z.shiftl (at_ 3) shifthigh) else 0) else 0 in
  let r3 := if shift <? 320 then Z.shiftr (at_ 3) shiftlow else 0 in
  secp256k1_scalar_cadd_bit (S4 r0 r1 r2 r3) 0
    (Z.land (Z.shiftr (nth (Z.to_nat (Z.shiftr (shift - 1) 6)) l 0) (Z.land (shift - 1) 0x3f)) 1).

Definition secp256k1_scalar_mul_shift_var (a b : secp256k1_scalar) (shift : Z) : checked secp256k1_scalar :=
  VERIFY_CHECK (256 <=? shift);;
  l <- secp256k1_scalar_mul_512 a b;;
  mul_shift_words l shift.

(** ** Meaning *)

Definition limbs_ok (a : secp256k1_scalar) : Prop := is_uw 64 (d0 a) /\ is_uw 64 (d1 a) /\ is_uw 64 (d2 a) /\ is_uw 64 (d3 a).

Definition limbs_Z (a : secp256k1_scalar) : Z := d0 a + d1 a * 2 ^ 64 + d2 a * 2 ^ 128 + d3 a * 2 ^ 192.

Definition limbs (a : secp256k1_scalar) : list Z := [d0 a; d1 a; d2 a; d3 a].

(** Scalars are reduced. *)
Definition scalar_inv (a : secp256k1_scalar) : Prop := limbs_ok a /\ limbs_Z a < n.

Ltac open_scalar a :=
  let a0 := fresh "a" in let a1 := fresh "a" in let a2 := fresh "a" in let a3 := fresh "a" in
  destruct a as [a0 a1 a2 a3]; unfold limbs_ok, limbs_Z in *; cbn [d0 d1 d2 d3] in *.

(** The limbs of [a] as variables with bounds. *)
Ltac open_words a H :=
  let b0 := fresh "b" in let b1 := fresh "b" in let b2 := fresh "b" in let b3 := fresh "b" in
  open_scalar a; destruct H as (b0 & b1 & b2 & b3); apply uw_le in b0, b1, b2, b3;
  change (2 ^ 64 - 1) with 0xFFFFFFFFFFFFFFFF in b0, b1, b2, b3.

(** Reads the limbs of the arguments in the code, not in the postcondition. *)
Ltac read_words :=
  lazymatch goal with
  | |- Returns _ ?Q => let q := fresh in set (q := Q); cbv beta iota delta [d0 d1 d2 d3]; subst q
  end.

Ltac close_words := unfold limbs_ok, is_uw; cbn [d0 d1 d2 d3]; repeat split; lia.

Lemma sc64_limbs_Z_range a : limbs_ok a -> 0 <= limbs_Z a < 2 ^ 256.
Proof. unfold limbs_ok, limbs_Z, is_uw. lia. Qed.

(** ** Comparisons *)

Ltac word := lia || assumption || (split; vm_compute; congruence).

(** The high half of the order has a full limb, which needs no test for above. *)
Lemma sc64_cmp_order_no x3 x2 : is_uw 64 x3 -> is_uw 64 x2 ->
  Z.lor (Z.lor 0 (Z.b2z (x3 <? 0xFFFFFFFFFFFFFFFF))) (Z.b2z (x2 <? 0xFFFFFFFFFFFFFFFE)) =
  Z.b2z (x3 * 2 ^ 64 + x2 <? 0xFFFFFFFFFFFFFFFFFFFFFFFFFFFFFFFE).
Proof.
  unfold is_uw. intros H3 H2. transitivity (Z.b2z ((x3 <? 0xFFFFFFFFFFFFFFFF) || (x2 <? 0xFFFFFFFFFFFFFFFE))).
  - destruct (x3 <? _), (x2 <? _); reflexivity.
  - f_equal. lia.
Qed.

Lemma sc64_cmp_order_yes x3 x2 : is_uw 64 x3 -> is_uw 64 x2 ->
  let h := x3 * 2 ^ 64 + x2 in
  Z.lor 0 (Z.land (Z.b2z (0xFFFFFFFFFFFFFFFE <? x2)) (Z.lnot (Z.b2z (h <? 0xFFFFFFFFFFFFFFFFFFFFFFFFFFFFFFFE)))) =
  Z.b2z (0xFFFFFFFFFFFFFFFFFFFFFFFFFFFFFFFE <? h).
Proof.
  intros H3 H2 h. unfold is_uw in *.
  transitivity (Z.b2z ((0xFFFFFFFFFFFFFFFE <? x2) && negb (h <? 0xFFFFFFFFFFFFFFFFFFFFFFFFFFFFFFFE))).
  - destruct (_ <? x2), (h <? _); reflexivity.
  - f_equal. unfold h. lia.
Qed.

(** The low limbs; a flag [no] set after [yes] does no harm. *)
Lemma cmp_low h hn x1 c1 (b : bool) : is_uw 64 x1 -> is_uw 64 c1 ->
  let no := Z.lor (Z.b2z (h <? hn)) (Z.b2z (x1 <? c1)) in
  Z.lor (Z.lor (Z.b2z (hn <? h)) (Z.land (Z.b2z (c1 <? x1)) (Z.lnot no))) (Z.land (Z.b2z b) (Z.lnot no)) =
  Z.b2z ((hn * 2 ^ 64 + c1 <? h * 2 ^ 64 + x1) || b && negb (h * 2 ^ 64 + x1 <? hn * 2 ^ 64 + c1)).
Proof.
  intros H1 Hc no. rewrite !(high_low_ltb 64) by word. subst no.
  destruct (Z.ltb_spec h hn), (Z.ltb_spec x1 c1), (Z.ltb_spec hn h), (Z.ltb_spec c1 x1), b; reflexivity || lia.
Qed.

Lemma sc64_check_overflow_spec a : limbs_ok a -> secp256k1_scalar_check_overflow a = Z.b2z (n <=? limbs_Z a).
Proof.
  intros H. open_scalar a. destruct H as (H0 & H1 & H2 & H3).
  unfold secp256k1_scalar_check_overflow, SECP256K1_N_2, SECP256K1_N_3. cbn [d0 d1 d2 d3].
  rewrite sc64_cmp_order_no, sc64_cmp_order_yes, cmp_low by word. f_equal.
  unfold n, is_uw, SECP256K1_N_1, SECP256K1_N_0 in *. lia.
Qed.

Lemma sc64_is_high_spec a : limbs_ok a -> secp256k1_scalar_is_high a = Z.b2z (n / 2 <? limbs_Z a).
Proof.
  intros H. open_scalar a. destruct H as (H0 & H1 & H2 & H3).
  unfold secp256k1_scalar_is_high. cbn [d0 d1 d2 d3]. rewrite cmp_first, cmp_above, (cmp_no 64) by word.
  replace (SECP256K1_N_H_3 <? a3) with (SECP256K1_N_H_3 * 2 ^ 64 + SECP256K1_N_H_2 <? a3 * 2 ^ 64 + a2)
    by (unfold SECP256K1_N_H_3, SECP256K1_N_H_2, is_uw in *; lia).
  rewrite (cmp_no 64) by word. rewrite (cmp_yes 64) by word. rewrite (cmp_yes_gt 64) by word. do 2 f_equal; ring || reflexivity.
Qed.

(** ** Reduction and addition *)

Lemma sc64_reduce_spec r overflow : limbs_ok r -> 0 <= overflow <= 1 ->
  Returns (secp256k1_scalar_reduce r overflow) (fun '(o, r') => o = overflow /\ limbs_ok r' /\
    limbs_Z r' = (limbs_Z r + overflow * (2 ^ 256 - n)) mod 2 ^ 256).
Proof.
  intros Hr Ho. open_words r Hr.
  cbv beta delta [secp256k1_scalar_reduce SECP256K1_N_C_0 SECP256K1_N_C_1 SECP256K1_N_C_2].
  read_words. c_steps. apply Returns_ret. cbn [d0 d1 d2 d3]. split; [reflexivity|].
  split; [close_words|]. apply (Z.mod_unique_pos _ _ h2); [lia|]. unfold n. lia.
Qed.

(** The last step of a sum below twice the order, from its low 256 bits and its
    carry. *)
Lemma sc64_overflow r c V : limbs_ok r -> 0 <= c <= 1 -> V = limbs_Z r + c * 2 ^ 256 -> V < 2 * n ->
  c + secp256k1_scalar_check_overflow r = Z.b2z (n <=? V).
Proof.
  intros Hr Hc E HV. rewrite (sc64_check_overflow_spec r Hr). pose proof (sc64_limbs_Z_range r Hr). apply carry_flag; lia.
Qed.

Lemma sc64_reduced r c V : limbs_ok r -> 0 <= c <= 1 -> V = limbs_Z r + c * 2 ^ 256 -> V < 2 * n ->
  Returns (secp256k1_scalar_reduce r (Z.b2z (n <=? V))) (fun '(o, r') => o = Z.b2z (n <=? V) /\
    scalar_inv r' /\ limbs_Z r' = V mod n).
Proof.
  intros Hr Hc EV HV. eapply Returns_mono; [apply (sc64_reduce_spec r); [exact Hr | destruct (n <=? V); cbn; lia]|].
  intros [o r'] (Ho & Hr' & E). split; [exact Ho|]. pose proof (sc64_limbs_Z_range r Hr) as HZ.
  rewrite (carry_reduce (limbs_Z r) c V) in E by assumption.
  split; [split; [exact Hr'|]|exact E]. rewrite E. apply Z.mod_pos_bound. reflexivity.
Qed.

Lemma sc64_add_spec a b : scalar_inv a -> scalar_inv b ->
  Returns (secp256k1_scalar_add a b) (fun '(o, r) => o = Z.b2z (n <=? limbs_Z a + limbs_Z b) /\
    scalar_inv r /\ limbs_Z r = (limbs_Z a + limbs_Z b) mod n).
Proof.
  intros [Ha Hna] [Hb Hnb]. assert (limbs_Z a + limbs_Z b < 2 * n) as HV by lia. remember (limbs_Z a + limbs_Z b) as V eqn:EV.
  open_words a Ha. open_words b Hb. cbv beta delta [secp256k1_scalar_add].
  read_words. do 12 c_step. cbv zeta.
  match goal with |- context [secp256k1_scalar_check_overflow ?r] =>
    assert (limbs_ok r) as Hr by close_words;
    assert (V = limbs_Z r + h2 * 2 ^ 256) as E7 by (unfold limbs_Z; cbn [d0 d1 d2 d3]; lia) end.
  rewrite (sc64_overflow _ h2 V Hr), i32_u128_flag, u32_flag by (assumption || lia). apply Returns_check; [destruct (n <=? V); reflexivity|].
  eapply Returns_bind; [apply (sc64_reduced _ h2 V Hr); (assumption || lia)|]. intros [o r] H. apply Returns_ret. tauto.
Qed.

(** ** Bytes *)

Lemma sc64_word_of_bytes x0 x1 x2 x3 x4 x5 x6 x7 :
  is_byte x0 -> is_byte x1 -> is_byte x2 -> is_byte x3 -> is_byte x4 -> is_byte x5 -> is_byte x6 -> is_byte x7 ->
  Z.lor (Z.lor (Z.lor (Z.lor (Z.lor (Z.lor (Z.lor x7 (u64 (Z.shiftl x6 8))) (u64 (Z.shiftl x5 16))) (u64 (Z.shiftl x4 24)))
    (u64 (Z.shiftl x3 32))) (u64 (Z.shiftl x2 40))) (u64 (Z.shiftl x1 48))) (u64 (Z.shiftl x0 56)) =
  ((((((x0 * 256 + x1) * 256 + x2) * 256 + x3) * 256 + x4) * 256 + x5) * 256 + x6) * 256 + x7.
Proof.
  unfold is_byte, u64. intros H0 H1 H2 H3 H4 H5 H6 H7.
  rewrite !byte_shift by lia. rewrite (lor_shiftl_add x7) by lia. do 6 (rewrite (lor_shiftl_add (_ + _)) by lia). lia.
Qed.

Lemma sc64_set_b32_spec b : bytes_of_len 32 b ->
  Returns (secp256k1_scalar_set_b32 b) (fun '(o, r) => o = Z.b2z (n <=? be_value b) /\
    scalar_inv r /\ limbs_Z r = be_value b mod n).
Proof.
  intros Hb. pose proof (be_value_range 32 b Hb) as HV.
  replace (256 ^ Z.of_nat 32) with (2 ^ 256) in HV by (vm_compute; reflexivity). pose proof (be_value_nth 32 b Hb) as EV.
  assert (forall i, is_byte (nth i b 0)) as Hi by (intros i; exact (byte_nth 32 b i Hb)).
  remember (be_value b) as V. clear HeqV. cbn [seq] in EV.
  rewrite !fold_left_cons, fold_left_nil in EV. unfold secp256k1_scalar_set_b32. cbv zeta.
  rewrite !sc64_word_of_bytes by apply Hi.
  match goal with |- context [secp256k1_scalar_check_overflow ?r] =>
    assert (limbs_ok r) as Hr; [|assert (V = limbs_Z r) as EV'] end.
  - unfold is_byte in Hi. unfold limbs_ok, is_uw. cbn [d0 d1 d2 d3].
    repeat split; repeat match goal with |- context [nth ?i b 0] => pose proof (Hi i); generalize dependent (nth i b 0); intros end; lia.
  - unfold limbs_Z. cbn [d0 d1 d2 d3]. rewrite EV. ring.
  - rewrite (sc64_check_overflow_spec _ Hr), <- EV', u32_flag. apply (sc64_reduced _ 0 V Hr); [lia | lia | unfold n; lia].
Qed.

Lemma sc64_bytes_of_word x : is_uw 64 x ->
  fold_left (fun acc y => acc * 256 + y) [u8 (Z.shiftr x 56); u8 (Z.shiftr x 48); u8 (Z.shiftr x 40); u8 (Z.shiftr x 32); u8 (Z.shiftr x 24);
     u8 (Z.shiftr x 16); u8 (Z.shiftr x 8); u8 x] 0 = x.
Proof.
  intros Hx. rewrite !fold_left_cons, fold_left_nil. unfold is_uw, u8 in *. rewrite !Z.shiftr_div_pow2 by lia.
  Z.to_euclidean_division_equations. lia.
Qed.

Lemma sc64_get_b32_spec a : limbs_ok a -> secp256k1_scalar_get_b32 a = be_bytes 32 (limbs_Z a).
Proof.
  intros Ha. transitivity (be_bytes 32 (be_value (secp256k1_scalar_get_b32 a))).
  - symmetry. apply be_bytes_value. split; [reflexivity|]. unfold secp256k1_scalar_get_b32.
    repeat constructor; unfold u8; apply Z.mod_pos_bound; reflexivity.
  - f_equal. unfold secp256k1_scalar_get_b32, be_value. rewrite !fold_left_cons, fold_left_nil.
    destruct Ha as (H0 & H1 & H2 & H3). apply sc64_bytes_of_word in H0, H1, H2, H3.
    rewrite !fold_left_cons, fold_left_nil in H0, H1, H2, H3. unfold limbs_Z. lia.
Qed.

(** ** Tests *)

Lemma sc64_is_zero_spec a : limbs_ok a -> secp256k1_scalar_is_zero a = (limbs_Z a =? 0).
Proof.
  intros Ha. unfold secp256k1_scalar_is_zero. apply eq_true_iff_eq. rewrite !Z.eqb_eq, !Z.lor_eq_0_iff.
  unfold limbs_ok, limbs_Z, is_uw in *. lia.
Qed.

Lemma sc64_is_one_spec a : limbs_ok a -> secp256k1_scalar_is_one a = (limbs_Z a =? 1).
Proof.
  intros Ha. unfold secp256k1_scalar_is_one. apply eq_true_iff_eq. rewrite !Z.eqb_eq, !Z.lor_eq_0_iff, Z.lxor_eq_0_iff.
  unfold limbs_ok, limbs_Z, is_uw in *. lia.
Qed.

Lemma sc64_eq_spec a b : limbs_ok a -> limbs_ok b -> secp256k1_scalar_eq a b = (limbs_Z a =? limbs_Z b).
Proof.
  intros Ha Hb. unfold secp256k1_scalar_eq. apply eq_true_iff_eq. rewrite !Z.eqb_eq, !Z.lor_eq_0_iff, !Z.lxor_eq_0_iff.
  unfold limbs_ok, limbs_Z, is_uw in *. lia.
Qed.

Lemma sc64_is_even_spec a : limbs_ok a -> secp256k1_scalar_is_even a = Z.even (limbs_Z a).
Proof.
  intros Ha. unfold secp256k1_scalar_is_even. pose proof (land_1_odd (d0 a)) as H.
  rewrite <- Z.negb_odd. replace (Z.odd (limbs_Z a)) with (Z.odd (d0 a)).
  - rewrite <- H, negb_involutive. reflexivity.
  - unfold limbs_Z. rewrite !Z.odd_add, !Z.odd_mul. cbn. rewrite !andb_false_r, !xorb_false_r. reflexivity.
Qed.

(** ** Negation *)

Lemma u64_lnot x : is_uw 64 x -> u64 (Z.lnot x) = 0xFFFFFFFFFFFFFFFF - x.
Proof. exact (lnot_word 64 x). Qed.

Lemma sc64_lxor_word x : is_uw 64 x -> Z.lxor x 0xFFFFFFFFFFFFFFFF = 0xFFFFFFFFFFFFFFFF - x.
Proof. exact (lxor_ones_word 64 ltac:(lia) x). Qed.

(** Names the complement of a word. *)
Ltac complement a H :=
  let y := fresh "y" in let E := fresh "E" in
  unfold is_uw in H; remember (0xFFFFFFFFFFFFFFFF - a) as y eqn:E; assert (0 <= y <= 0xFFFFFFFFFFFFFFFF) by lia.

Lemma sc64_negate_ok a : scalar_inv a -> 0 < limbs_Z a ->
  Returns (ret (secp256k1_scalar_negate a)) (fun r => limbs_ok r /\ limbs_Z r = n - limbs_Z a).
Proof.
  intros [Ha Hn] Hp. pose proof (sc64_is_zero_spec a Ha) as Hz. rewrite (proj2 (Z.eqb_neq (limbs_Z a) 0)) in Hz by lia.
  unfold scalar_inv, limbs_Z in *. destruct a as [a0 a1 a2 a3]. unfold limbs_ok in Ha.
  cbn [d0 d1 d2 d3] in *. destruct Ha as (H0 & H1 & H2 & H3).
  cbv beta delta [secp256k1_scalar_negate SECP256K1_N_0 SECP256K1_N_1 SECP256K1_N_2 SECP256K1_N_3].
  read_words. rewrite Hz. change (u64 (0xFFFFFFFFFFFFFFFF * Z.b2z (negb false))) with 0xFFFFFFFFFFFFFFFF.
  rewrite !u64_lnot by assumption. complement a0 H0. complement a1 H1. complement a2 H2. complement a3 H3.
  do 12 c_pure_step. apply Returns_ret. split; [close_words|]. cbn [d0 d1 d2 d3]. unfold n in *. lia.
Qed.

Lemma sc64_negate_zero a : limbs_ok a -> limbs_Z a = 0 -> secp256k1_scalar_negate a = secp256k1_scalar_clear.
Proof.
  intros Ha Hz. unfold secp256k1_scalar_negate. rewrite (sc64_is_zero_spec a Ha), Hz.
  change (u64 (0xFFFFFFFFFFFFFFFF * Z.b2z (negb (0 =? 0)))) with 0. cbv zeta. rewrite !Z.land_0_r. reflexivity.
Qed.

Lemma sc64_negate_spec a : scalar_inv a ->
  scalar_inv (secp256k1_scalar_negate a) /\ limbs_Z (secp256k1_scalar_negate a) = (- limbs_Z a) mod n.
Proof.
  intros Ha. pose proof (sc64_limbs_Z_range a (proj1 Ha)) as HZ. destruct (Z.eq_dec (limbs_Z a) 0) as [E|E].
  - rewrite (sc64_negate_zero a (proj1 Ha) E), E. split; [|reflexivity]. split; [|reflexivity]. unfold secp256k1_scalar_clear. close_words.
  - destruct (Returns_pure _ _ (sc64_negate_ok a Ha ltac:(lia))) as [Hr Er].
    destruct Ha as [_ Ha]. split; [split; [exact Hr | lia]|]. rewrite Er. apply (Z.mod_unique_pos _ _ (-1)); lia.
Qed.

Lemma u128_word x : is_uw 64 x -> u128 x = x.
Proof. unfold is_uw, u128. intros Hx. apply Z.mod_small. lia. Qed.

(** Without the flag nothing changes; with it the scalar is negated. *)
Lemma sc64_cond_negate_spec a flag : limbs_ok a ->
  secp256k1_scalar_cond_negate a flag = if flag =? 0 then (1, a) else (-1, secp256k1_scalar_negate a).
Proof.
  intros Ha. pose proof Ha as (H0 & H1 & H2 & H3).
  unfold secp256k1_scalar_cond_negate, secp256k1_scalar_negate. rewrite (sc64_is_zero_spec a Ha). destruct (flag =? 0).
  - change (u64 (Z.b2z true - 1)) with 0. cbv zeta. rewrite !Z.lxor_0_r, !Z.land_0_r, !Z.add_0_r.
    rewrite (u128_word (d0 a) H0), (shiftr_word 64 ltac:(lia) (d0 a) H0). rewrite !Z.add_0_l.
    rewrite (u128_word (d1 a) H1), (shiftr_word 64 ltac:(lia) (d1 a) H1), !Z.add_0_l.
    rewrite (u128_word (d2 a) H2), (shiftr_word 64 ltac:(lia) (d2 a) H2), !Z.add_0_l.
    rewrite (u128_word (d3 a) H3). destruct (Z.eqb_spec (limbs_Z a) 0) as [E|E].
    + change (u64 (Z.b2z true - 1)) with 0. rewrite !Z.land_0_r. f_equal.
      destruct a as [a0 a1 a2 a3]. unfold limbs_Z, is_uw in *. cbn [d0 d1 d2 d3] in *. f_equal; lia.
    + change (u64 (Z.b2z false - 1)) with (Z.ones 64). rewrite !(land_ones_word 64) by (lia || assumption).
      destruct a; reflexivity.
  - change (u64 (Z.b2z false - 1)) with 0xFFFFFFFFFFFFFFFF.
    change (Z.land (u64 (SECP256K1_N_0 + 1)) 0xFFFFFFFFFFFFFFFF) with (SECP256K1_N_0 + 1).
    change (Z.land SECP256K1_N_1 0xFFFFFFFFFFFFFFFF) with SECP256K1_N_1. change (Z.land SECP256K1_N_2 0xFFFFFFFFFFFFFFFF) with SECP256K1_N_2.
    change (Z.land SECP256K1_N_3 0xFFFFFFFFFFFFFFFF) with SECP256K1_N_3.
    replace (u64 (Z.b2z (limbs_Z a =? 0) - 1)) with (u64 (0xFFFFFFFFFFFFFFFF * Z.b2z (negb (limbs_Z a =? 0)))) by (destruct (limbs_Z a =? 0); reflexivity).
    rewrite !sc64_lxor_word, !u64_lnot, Z.add_assoc by assumption. reflexivity.
Qed.

(** ** Products *)

Lemma sc64_mul_512_spec a b : limbs_ok a -> limbs_ok b ->
  Returns (secp256k1_scalar_mul_512 a b) (fun l => words_ok 64 8 l /\ words_Z 64 l = limbs_Z a * limbs_Z b).
Proof.
  intros Ha Hb. open_words a Ha. open_words b Hb. cbv beta delta [secp256k1_scalar_mul_512].
  cbv zeta. cbn [d0 d1 d2 d3]. pose proof (acc_start 64 0 ltac:(unfold is_uw; lia)) as Hc0.
  repeat acc_step. match goal with H : acc_at _ _ _ _ |- _ => destruct (acc_word_end 64 ltac:(lia) _ _ _ H eq_refl) as (-> & -> & Hw) end.
  apply Returns_check; [reflexivity|]. apply Returns_ret. split; [close_word_list|].
  cbn [words_Z]. subst_words. ring.
Qed.

Lemma sc64_sqr_512_spec a : limbs_ok a ->
  Returns (secp256k1_scalar_sqr_512 a) (fun l => words_ok 64 8 l /\ words_Z 64 l = limbs_Z a * limbs_Z a).
Proof.
  intros Ha. open_words a Ha. cbv beta delta [secp256k1_scalar_sqr_512].
  cbv zeta. cbn [d0 d1 d2 d3]. pose proof (acc_start 64 0 ltac:(unfold is_uw; lia)) as Hc0.
  repeat acc_step. match goal with H : acc_at _ _ _ _ |- _ => destruct (acc_word_end 64 ltac:(lia) _ _ _ H eq_refl) as (-> & -> & Hw) end.
  apply Returns_check; [reflexivity|]. apply Returns_ret. split; [close_word_list|].
  cbn [words_Z]. subst_words. ring.
Qed.

(** ** Reduction of 512 bits *)

Ltac order_limbs := unfold SECP256K1_N_C_0, SECP256K1_N_C_1.

Lemma sc64_reduce_512_385_spec l : words_ok 64 8 l ->
  Returns (reduce_512_385 l) (fun m => words_ok 64 7 m /\ nth 6 m 0 <= 1 /\
    words_Z 64 m mod n = words_Z 64 l mod n /\ words_Z 64 m < 2 ^ 256 * (2 ^ 256 - n + 1)).
Proof.
  intros Hl. words_by_index l 8%nat Hl. unfold reduce_512_385. cbv zeta. order_limbs.
  name_word l Hl 0%nat l0. name_word l Hl 1%nat l1. name_word l Hl 2%nat l2. name_word l Hl 3%nat l3.
  name_word l Hl 4%nat n0. name_word l Hl 5%nat n1. name_word l Hl 6%nat n2. name_word l Hl 7%nat n3.
  pose proof (acc_start 64 l0 ltac:(unfold is_uw; lia)) as Hc0. repeat acc_step.
  match goal with H : acc_at _ _ _ _ |- _ => destruct (acc_word_end 64 ltac:(lia) _ _ _ H eq_refl) as (-> & _ & Hw) end.
  apply Returns_check; [apply Z.leb_le; lia|]. unfold u32. rewrite Z.mod_small by lia.
  apply Returns_ret. split; [close_word_list|]. split; [cbn [nth]; lia|].
  match goal with |- words_Z 64 ?m mod n = _ /\ _ => assert (words_Z 64 m =
    l0 + 2 ^ 64 * (l1 + 2 ^ 64 * (l2 + 2 ^ 64 * l3)) + (n0 + 2 ^ 64 * (n1 + 2 ^ 64 * (n2 + 2 ^ 64 * n3))) * (2 ^ 256 - n)) as E end.
  { cbn [words_Z]. subst_words. unfold n. ring. }
  rewrite E. clear - Bl Bl0 Bl1 Bl2 Bl3 Bl4 Bl5 Bl6. split.
  - apply (fold_order _ _ (n0 + 2 ^ 64 * (n1 + 2 ^ 64 * (n2 + 2 ^ 64 * n3)))). ring.
  - unfold n. lia.
Qed.

Lemma sc64_reduce_385_258_spec m : words_ok 64 7 m -> nth 6 m 0 <= 1 -> words_Z 64 m < 2 ^ 256 * (2 ^ 256 - n + 1) ->
  Returns (reduce_385_258 m) (fun q => words_ok 64 5 q /\ nth 4 q 0 <= 2 /\ words_Z 64 q mod n = words_Z 64 m mod n).
Proof.
  intros Hm H6 HV. words_by_index m 7%nat Hm.
  pose proof (f_equal (words_Z 64) (list_as_nth m 7 (proj1 Hm))) as EV. cbn [seq map words_Z] in EV. rewrite EV in HV. clear EV.
  unfold reduce_385_258. cbv zeta. order_limbs.
  name_word m Hm 0%nat m0. name_word m Hm 1%nat m1. name_word m Hm 2%nat m2. name_word m Hm 3%nat m3. name_word m Hm 4%nat m4.
  name_word m Hm 5%nat m5. name_word m Hm 6%nat m6. assert (0 <= m6 <= 1) as Bm6 by lia. clear Bl5.
  pose proof (acc_start 64 m0 ltac:(unfold is_uw; lia)) as Hc0. repeat acc_step.
  match goal with H : acc_at _ _ _ _ |- _ => destruct (acc_word_end 64 ltac:(lia) _ _ _ H eq_refl) as (-> & _ & Hw) end.
  unfold u64. rewrite (Z.mod_small (_ + m6)) by lia.
  assert (words_Z 64 [x; x0; x1; x2; w2 + m6] =
    m0 + 2 ^ 64 * (m1 + 2 ^ 64 * (m2 + 2 ^ 64 * m3)) + (m4 + 2 ^ 64 * (m5 + 2 ^ 64 * m6)) * (2 ^ 256 - n)) as E.
  { cbn [words_Z]. subst_words. unfold n. ring. }
  assert (w2 + m6 <= 2) as H8.
  { cbn [words_Z] in E. clear - HV E Bl Bl0 Bl1 Bl2 Bl3 Bl4 Bm6 Bx Bx0 Bx1 Bx2. unfold n in *. lia. }
  unfold u32. rewrite Z.mod_small by lia.
  apply Returns_check; [apply Z.leb_le; lia|]. apply Returns_ret. split; [close_word_list|]. split; [exact H8|].
  rewrite E. apply (fold_order _ _ (m4 + 2 ^ 64 * (m5 + 2 ^ 64 * m6))). ring.
Qed.

Lemma sc64_reduce_258_256_spec q : words_ok 64 5 q -> nth 4 q 0 <= 2 ->
  Returns (reduce_258_256 q) (fun r => scalar_inv r /\ limbs_Z r = words_Z 64 q mod n).
Proof.
  intros Hq H4. words_by_index q 5%nat Hq. cbv beta delta [reduce_258_256].
  cbv beta delta [SECP256K1_N_C_0 SECP256K1_N_C_1].
  name_word q Hq 0%nat p0. name_word q Hq 1%nat p1. name_word q Hq 2%nat p2. name_word q Hq 3%nat p3. name_word q Hq 4%nat p4.
  assert (0 <= p4 <= 2) as Bp4 by lia. clear Bl3 H4.
  remember (p0 + 2 ^ 64 * (p1 + 2 ^ 64 * (p2 + 2 ^ 64 * p3)) + p4 * (2 ^ 256 - n)) as V eqn:EV.
  replace (_ mod n) with (V mod n).
  2: { apply (fold_order _ _ p4). rewrite EV. ring. }
  do 17 c_step. cbv zeta. assert (V < 2 * n) as HV by (subst V; clear E; unfold n; lia).
  match goal with |- context [secp256k1_scalar_check_overflow ?r] =>
    assert (limbs_ok r) as Hr by close_words;
    assert (V = limbs_Z r + h2 * 2 ^ 256) as E7 by (unfold limbs_Z; cbn [d0 d1 d2 d3]; subst V; unfold n; lia) end.
  rewrite (sc64_overflow _ h2 V Hr), u32_flag by (assumption || lia).
  eapply Returns_bind; [apply (sc64_reduced _ h2 V Hr); (assumption || lia)|]. intros [o r] (_ & H). apply Returns_ret. exact H.
Qed.

Lemma sc64_reduce_512_spec l : words_ok 64 8 l ->
  Returns (secp256k1_scalar_reduce_512 l) (fun r => scalar_inv r /\ limbs_Z r = words_Z 64 l mod n).
Proof.
  intros Hl. eapply Returns_bind; [exact (sc64_reduce_512_385_spec l Hl)|]. intros m (Hm & H6 & Em & HV).
  eapply Returns_bind; [exact (sc64_reduce_385_258_spec m Hm H6 HV)|]. intros q (Hq & H4 & Eq).
  eapply Returns_mono; [exact (sc64_reduce_258_256_spec q Hq H4)|]. intros r [Hr Er]. split; [exact Hr|]. congruence.
Qed.

Lemma sc64_mul_spec a b : scalar_inv a -> scalar_inv b ->
  Returns (secp256k1_scalar_mul a b) (fun r => scalar_inv r /\ limbs_Z r = (limbs_Z a * limbs_Z b) mod n).
Proof.
  intros [Ha _] [Hb _]. eapply Returns_bind; [exact (sc64_mul_512_spec a b Ha Hb)|]. intros l [Hl E].
  rewrite <- E. exact (sc64_reduce_512_spec l Hl).
Qed.

Lemma sc64_sqr_spec a : scalar_inv a ->
  Returns (secp256k1_scalar_sqr a) (fun r => scalar_inv r /\ limbs_Z r = (limbs_Z a * limbs_Z a) mod n).
Proof.
  intros [Ha _]. eapply Returns_bind; [exact (sc64_sqr_512_spec a Ha)|]. intros l [Hl E].
  rewrite <- E. exact (sc64_reduce_512_spec l Hl).
Qed.

(** ** Bits *)

Lemma sc64_limbs_words a : words_Z 64 (limbs a) = limbs_Z a.
Proof. unfold limbs, limbs_Z. cbn [words_Z]. ring. Qed.

Lemma sc64_limb_at a i : limbs_ok a -> 0 <= i -> limb a i = word_at 64 (limbs_Z a) (64 * i).
Proof.
  intros (H0 & H1 & H2 & H3) Hi. unfold limb. rewrite (words_Z_at 64) by (lia || (repeat (constructor; [assumption|]); constructor)).
  rewrite Z2Nat.id by lia. f_equal. apply (sc64_limbs_words a).
Qed.

Lemma offset64 o : 0 <= o -> 0 <= Z.shiftr o 6 /\ 0 <= Z.land o 0x3F < 64 /\ o = 64 * Z.shiftr o 6 + Z.land o 0x3F.
Proof. apply offset_split; reflexivity || lia. Qed.

(** The limb addends of [secp256k1_scalar_cadd_bit]. *)
Lemma sc64_cadd_limbs bit (flag : bool) : 0 <= bit < 256 ->
  let bit' := u32 (bit + Z.land (u32 (Z.b2z flag - 1)) 0x100) in
  let e k := u64 (Z.shiftl (Z.b2z (Z.shiftr bit' 6 =? k)) (Z.land bit' 0x3F)) in
  (forall k, 0 <= e k <= 0xFFFFFFFFFFFFFFFF) /\
  limbs_Z (S4 (e 0) (e 1) (e 2) (e 3)) = if flag then 2 ^ bit else 0.
Proof.
  intros Hb bit' e. assert (forall k, e k = if bit' / 64 =? k then 2 ^ (bit' mod 64) else 0) as He
    by (intros k; apply (addend 64 6 0x3F); reflexivity || lia).
  split; [intros k; rewrite He; apply (addend_range 64 6 0x3F); reflexivity || lia|].
  rewrite <- sc64_limbs_words. unfold limbs. cbn [d0 d1 d2 d3]. rewrite !He.
  subst bit'. rewrite (cadd_offset bit flag Hb).
  refine (eq_trans (addends_bit 64 6 _ _ (if flag then bit else bit + 256) 4 _) _); [reflexivity || lia | reflexivity | destruct flag; lia|].
  destruct flag; [rewrite (proj2 (Z.ltb_lt _ _)) by lia | rewrite (proj2 (Z.ltb_ge _ _)) by lia]; reflexivity.
Qed.

Lemma sc64_cadd_bit_spec r bit (flag : bool) : scalar_inv r -> 0 <= bit < 256 -> (flag = true -> limbs_Z r + 2 ^ bit < n) ->
  Returns (secp256k1_scalar_cadd_bit r bit (Z.b2z flag)) (fun r' => scalar_inv r' /\
    limbs_Z r' = limbs_Z r + if flag then 2 ^ bit else 0).
Proof.
  intros [Hr Hn] Hb Hlt. destruct (sc64_cadd_limbs bit flag Hb) as [Be Ee]. set (D := if flag then _ else _) in *.
  assert (limbs_Z r + D < n) as HV by (subst D; destruct flag; lia). clearbody D. clear Hlt Hn.
  open_words r Hr. cbv beta delta [secp256k1_scalar_cadd_bit]. apply Returns_check; [apply Z.ltb_lt; lia|].
  lazymatch goal with |- Returns (let x := ?e in @?K x) ?Q => refine (Returns_let e K Q _) end.
  intros bit' Eb. rewrite <- Eb in Be, Ee. clear Eb.
  pose proof (Be 0) as B0. pose proof (Be 1) as B1. pose proof (Be 2) as B2. pose proof (Be 3) as B3.
  clear Be. repeat match goal with H : 0 <= u64 ?e <= 0xFFFFFFFFFFFFFFFF |- _ => let x := fresh "e" in set (x := u64 e) in *; clearbody x end.
  read_words. do 11 c_step. cbv zeta.
  match goal with |- context [secp256k1_scalar_check_overflow ?r] =>
    assert (limbs_ok r) as Hr by close_words;
    assert (limbs_Z r + h2 * 2 ^ 256 = limbs_Z (S4 a a0 a1 a2) + D) as E7 by (unfold limbs_Z; cbn [d0 d1 d2 d3]; lia) end.
  change (limbs_Z (S4 a a0 a1 a2) + D < n) in HV. pose proof (sc64_limbs_Z_range _ Hr) as Br. unfold n in HV.
  assert (h2 = 0) as H2 by lia. apply Returns_check; [apply Z.eqb_eq; exact H2|].
  rewrite (sc64_check_overflow_spec _ Hr). apply Returns_check.
  { rewrite (proj2 (Z.leb_gt n _)) by (unfold n; lia). reflexivity. }
  apply Returns_ret. rewrite H2 in E7. split; [split; [exact Hr | unfold n; lia]|]. rewrite Z.mul_0_l, Z.add_0_r in E7. exact E7.
Qed.

(** The mask and the conversion of the result to [unsigned int]. *)
Lemma mask_u32 x y c : 0 < c <= 32 -> (forall k, 0 <= k < c -> Z.testbit x k = Z.testbit y k) ->
  u32 (Z.land x (u64 (Z.shiftl 1 c - 1))) = y mod 2 ^ c.
Proof.
  intros Hc H. pose proof (Z.pow_pos_nonneg 2 c ltac:(lia) ltac:(lia)). pose proof (Z.pow_le_mono_r 2 c 32 ltac:(lia) ltac:(lia)).
  replace (u64 (Z.shiftl 1 c - 1)) with (Z.shiftl 1 c - 1) by (rewrite Z.shiftl_1_l; symmetry; apply Z.mod_small; lia).
  rewrite (mask_bits x y c) by (lia || exact H). apply Z.mod_small. pose proof (Z.mod_pos_bound y (2 ^ c)). lia.
Qed.

Lemma sc64_get_bits_spec a offset count : limbs_ok a -> 0 <= offset -> 0 < count <= 32 -> offset + count <= 256 ->
  (offset + count - 1) / 64 = offset / 64 ->
  Returns (secp256k1_scalar_get_bits a offset count) (fun x => x = limbs_Z a / 2 ^ offset mod 2 ^ count).
Proof.
  intros Ha Ho Hc H256 Hw. unfold secp256k1_scalar_get_bits. assert (u32 (offset + count - 1) = offset + count - 1) as -> by (apply Z.mod_small; lia).
  rewrite <- !(Z.shiftr_div_pow2 _ 6) in Hw by lia. apply Returns_check; [apply Z.eqb_eq; exact Hw|]. apply Returns_ret.
  destruct (offset64 offset Ho) as (Hq & Hr & E). destruct (offset64 (offset + count - 1) ltac:(lia)) as (_ & Hr' & E').
  rewrite Hw in E'. apply mask_u32; [lia|]. intros k Hk.
  rewrite Z.shiftr_spec, sc64_limb_at, word_at_bits, Z.div_pow2_bits by (assumption || lia).
  rewrite (proj2 (Z.ltb_lt _ _)) by lia. cbn [andb]. f_equal. lia.
Qed.

Lemma sc64_get_bits_var_spec a offset count : limbs_ok a -> 0 <= offset -> 0 < count < 32 -> offset + count <= 256 ->
  Returns (secp256k1_scalar_get_bits_var a offset count) (fun x => x = limbs_Z a / 2 ^ offset mod 2 ^ count).
Proof.
  intros Ha Ho Hc H256. unfold secp256k1_scalar_get_bits_var.
  assert (u32 (offset + count) = offset + count) as -> by (apply Z.mod_small; lia).
  assert (u32 (offset + count - 1) = offset + count - 1) as -> by (apply Z.mod_small; lia).
  apply Returns_check; [apply Z.ltb_lt; lia|]. apply Returns_check; [apply Z.leb_le; lia|].
  destruct (Z.eqb_spec (Z.shiftr (offset + count - 1) 6) (Z.shiftr offset 6)) as [Hw | Hw].
  { apply sc64_get_bits_spec; try lia; [assumption|]. rewrite !Z.shiftr_div_pow2 in Hw by lia. exact Hw. }
  destruct (offset64 offset Ho) as (Hq & Hr & E). destruct (offset64 (offset + count - 1) ltac:(lia)) as (_ & Hr' & E').
  apply Returns_check; [apply Z.ltb_lt; lia|]. apply Returns_ret. unfold u64 at 1.
  rewrite !sc64_limb_at, (word_at_mid 64 ltac:(lia) _ (64 * Z.shiftr offset 6)), <- E by (assumption || lia).
  apply mask_u32; [lia|]. intros k Hk. rewrite word_at_bits, Z.div_pow2_bits by lia. rewrite (proj2 (Z.ltb_lt k 64)) by lia. reflexivity.
Qed.

Lemma sc64_set_int_spec v : 0 <= v < 2 ^ 32 -> scalar_inv (secp256k1_scalar_set_int v) /\ limbs_Z (secp256k1_scalar_set_int v) = v.
Proof.
  intros H. assert (limbs_Z (secp256k1_scalar_set_int v) = v) as E by (unfold limbs_Z; cbn [secp256k1_scalar_set_int d0 d1 d2 d3]; ring).
  split; [split; [|rewrite E; unfold n; lia] | exact E]. unfold limbs_ok, is_uw. cbn [secp256k1_scalar_set_int d0 d1 d2 d3]. lia.
Qed.

Lemma sc64_split_128_spec a : limbs_ok a ->
  let '(r1, r2) := secp256k1_scalar_split_128 a in
  scalar_inv r1 /\ scalar_inv r2 /\ limbs_Z r1 = limbs_Z a mod 2 ^ 128 /\ limbs_Z r2 = limbs_Z a / 2 ^ 128.
Proof.
  intros H. unfold secp256k1_scalar_split_128, scalar_inv, n. unfold limbs_ok, is_uw, limbs_Z in *. cbn [d0 d1 d2 d3].
  set (lo := d0 a + d1 a * 2 ^ 64). set (hi := d2 a + d3 a * 2 ^ 64).
  assert (0 <= lo < 2 ^ 128) as Hlo by lia. assert (0 <= hi < 2 ^ 128) as Hhi by lia.
  rewrite <- (Z.div_unique_pos (lo + d2 a * 2 ^ 128 + d3 a * 2 ^ 192) (2 ^ 128) hi lo) by (exact Hlo || unfold hi; ring).
  rewrite <- (Z.mod_unique_pos (lo + d2 a * 2 ^ 128 + d3 a * 2 ^ 192) (2 ^ 128) hi lo) by (exact Hlo || unfold hi; ring). lia.
Qed.

(** The limbs of an integer shifted right. *)
Lemma sc64_limbs_of_shifted V k : 0 <= k -> 0 <= V -> V / 2 ^ k < 2 ^ 256 ->
  let r := S4 (word_at 64 V (0 + k)) (word_at 64 V (64 + k)) (word_at 64 V (128 + k)) (word_at 64 V (192 + k)) in
  limbs_ok r /\ limbs_Z r = V / 2 ^ k.
Proof.
  intros Hk HV Hlt. assert (0 <= V / 2 ^ k) as H0 by (apply Z.div_pos; [lia | apply Z.pow_pos_nonneg; lia]).
  rewrite !(word_at_shift 64) by lia. split; [repeat split; apply (word_at_word 64); lia|]. set (X := V / 2 ^ k) in *.
  pose proof (word_at_step 64 ltac:(lia) X 0 64 eq_refl ltac:(lia) H0) as E0. pose proof (word_at_step 64 ltac:(lia) X 64 128 eq_refl ltac:(lia) H0) as E1.
  pose proof (word_at_step 64 ltac:(lia) X 128 192 eq_refl ltac:(lia) H0) as E2. pose proof (word_at_step 64 ltac:(lia) X 192 256 eq_refl ltac:(lia) H0) as E3.
  rewrite (Z.div_small X (2 ^ 256)) in E3 by lia. rewrite Z.pow_0_r, Z.div_1_r in E0. rewrite <- sc64_limbs_words. unfold limbs.
  cbn [d0 d1 d2 d3 words_Z]. rewrite Z.mul_0_r in *. congruence.
Qed.

(** The limbs as words of the number they write. *)
Lemma sc64_limbs_at a : limbs_ok a -> d0 a = word_at 64 (limbs_Z a) 0 /\ d1 a = word_at 64 (limbs_Z a) 64 /\ d2 a = word_at 64 (limbs_Z a) 128 /\
  d3 a = word_at 64 (limbs_Z a) 192.
Proof.
  intros H. repeat split; [exact (sc64_limb_at a 0 H ltac:(lia)) | exact (sc64_limb_at a 1 H ltac:(lia)) | exact (sc64_limb_at a 2 H ltac:(lia)) |
    exact (sc64_limb_at a 3 H ltac:(lia))].
Qed.

Lemma sc64_shr_int_spec r k : scalar_inv r -> 0 < k < 16 ->
  Returns (secp256k1_scalar_shr_int r k) (fun '(low, r') => low = limbs_Z r mod 2 ^ k /\ scalar_inv r' /\ limbs_Z r' = limbs_Z r / 2 ^ k).
Proof.
  intros [Hr Hn] Hk. pose proof (sc64_limbs_Z_range r Hr) as HV. unfold secp256k1_scalar_shr_int.
  apply Returns_check; [apply Z.ltb_lt; lia|]. apply Returns_check; [apply Z.ltb_lt; lia|].
  destruct (sc64_limbs_at r Hr) as (-> & -> & -> & ->). set (V := limbs_Z r) in *. unfold u64.
  rewrite (shr_word 64 ltac:(lia) V 0 64 k), (shr_word 64 ltac:(lia) V 64 128 k), (shr_word 64 ltac:(lia) V 128 192 k), (shr_top 64 ltac:(lia) V 192 k) by lia.
  assert (0 < 2 ^ k) as Hp by (apply Z.pow_pos_nonneg; lia). assert (V / 2 ^ k <= V) as Hle by (apply Z.div_le_upper_bound; nia).
  destruct (sc64_limbs_of_shifted V k ltac:(lia) ltac:(lia) ltac:(lia)) as [Hok E].
  apply Returns_ret. split; [|split; [split; [exact Hok | lia] | exact E]].
  apply mask_bits; [lia|]. intros i Hi. rewrite word_at_bits, (proj2 (Z.ltb_lt i 64)) by lia. rewrite Z.add_0_r. reflexivity.
Qed.

Lemma sc64_mul_shift_var_spec a b shift : scalar_inv a -> scalar_inv b -> 256 <= shift <= 512 ->
  Returns (secp256k1_scalar_mul_shift_var a b shift) (fun r => scalar_inv r /\ limbs_Z r = (limbs_Z a * limbs_Z b + 2 ^ (shift - 1)) / 2 ^ shift).
Proof.
  intros [Ha Hna] [Hb Hnb] Hs. pose proof (sc64_limbs_Z_range a Ha) as Ra. pose proof (sc64_limbs_Z_range b Hb) as Rb.
  unfold secp256k1_scalar_mul_shift_var. apply Returns_check; [apply Z.leb_le; lia|].
  eapply Returns_bind; [apply (sc64_mul_512_spec a b Ha Hb)|]. intros l [[Hlen Hl] EV]. unfold mul_shift_words.
  pose proof (product_shift_room (limbs_Z a) (limbs_Z b) shift ltac:(lia) ltac:(lia) ltac:(lia)) as HX.
  rewrite <- EV in *. set (V := words_Z 64 l) in *. assert (0 <= V < 2 ^ 512) as HV by (rewrite EV; nia).
  assert (forall k, 0 <= k -> nth (Z.to_nat (k + Z.shiftr shift 6)) l 0 = word_at 64 V (64 * (k + Z.shiftr shift 6))) as Hat.
  { intros k Hk. rewrite (words_Z_at 64) by (exact Hl || lia). rewrite Z2Nat.id by (pose proof (offset64 shift); lia). reflexivity. }
  cbv zeta. rewrite !Hat by lia. pose proof (shifted_word 64 6 63 ltac:(lia) eq_refl eq_refl V shift 3 4 320 256 ltac:(lia) HV ltac:(lia) ltac:(lia) eq_refl eq_refl eq_refl eq_refl) as E3.
  rewrite (proj2 (Z.ltb_ge shift 256)) in E3 by lia. cbn [andb] in E3. rewrite Z.lor_0_r in E3. rewrite E3. unfold u64.
  rewrite (shifted_word 64 6 63 ltac:(lia) eq_refl eq_refl V shift 0 1 512 448), (shifted_word 64 6 63 ltac:(lia) eq_refl eq_refl V shift 1 2 448 384),
    (shifted_word 64 6 63 ltac:(lia) eq_refl eq_refl V shift 2 3 384 320) by (exact HV || reflexivity || lia).
  destruct (offset64 (shift - 1) ltac:(lia)) as (Hq & Hr & E).
  assert (Z.land (Z.shiftr (nth (Z.to_nat (Z.shiftr (shift - 1) 6)) l 0) (Z.land (shift - 1) 0x3f)) 1 = Z.b2z (Z.testbit V (shift - 1))) as ->.
  { rewrite (words_Z_at 64), Z2Nat.id by (exact Hl || lia). fold V.
    match goal with |- Z.land ?x 1 = _ => change (Z.land x 1) with (Z.land x (Z.ones 1)) end. rewrite Z.land_ones by lia. change (2 ^ 1) with 2.
    rewrite <- Z.bit0_mod, Z.shiftr_spec, word_at_bits by lia. rewrite (proj2 (Z.ltb_lt _ _)) by lia. cbn [andb]. do 2 f_equal. lia. }
  destruct (sc64_limbs_of_shifted V shift ltac:(lia) ltac:(lia) ltac:(unfold n in HX; lia)) as [Hok EX].
  match type of Hok with limbs_ok ?r => change (Returns (secp256k1_scalar_cadd_bit r 0 (Z.b2z (Z.testbit V (shift - 1))))
    (fun r' => scalar_inv r' /\ limbs_Z r' = (V + 2 ^ (shift - 1)) / 2 ^ shift)); set (r0 := r) in * end. clearbody r0.
  eapply Returns_mono; [apply sc64_cadd_bit_spec; [split; [exact Hok | lia] | lia | intros _; lia]|].
  intros r [Hr' Er]. split; [exact Hr'|]. rewrite Er, EX, round_half by lia. reflexivity.
Qed.

Lemma sc64_const w7 w6 w5 w4 w3 w2 w1 w0 :
  is_word w7 -> is_word w6 -> is_word w5 -> is_word w4 -> is_word w3 -> is_word w2 -> is_word w1 -> is_word w0 ->
  words_value w7 w6 w5 w4 w3 w2 w1 w0 < n ->
  let r := SECP256K1_SCALAR_CONST w7 w6 w5 w4 w3 w2 w1 w0 in scalar_inv r /\ limbs_Z r = words_value w7 w6 w5 w4 w3 w2 w1 w0.
Proof.
  unfold is_word, words_value. intros H7 H6 H5 H4 H3 H2 H1 H0 Hn. unfold SECP256K1_SCALAR_CONST, scalar_inv, limbs_ok, limbs_Z, is_uw. cbn [d0 d1 d2 d3].
  rewrite (shiftl_lor_add w1 32 w0 (2 ^ 32 - 1) (2 ^ 32 - 1)), (shiftl_lor_add w3 32 w2 (2 ^ 32 - 1) (2 ^ 32 - 1)),
    (shiftl_lor_add w5 32 w4 (2 ^ 32 - 1) (2 ^ 32 - 1)), (shiftl_lor_add w7 32 w6 (2 ^ 32 - 1) (2 ^ 32 - 1)) by lia. lia.
Qed.
