(* ===== verification/Scalar.v ===== *)
(** * The scalar interface: [scalar.h]

    [scalar.h] declares the operations on integers modulo the group order and
    includes one of two representations.  [ScalarOps] is the list of declarations
    and [ScalarLaws] what the header promises about them; [scalar_impl.h] and the
    signature code are modelled and proved against the two classes. *)

From Stdlib Require Import ZArith Lia List Bool.
From S2P Require Import Prelude Modulus Bytes.

#[local] Open Scope Z_scope.

(** ** Declarations *)

Class ScalarOps : Type := {
  secp256k1_scalar : Type;
  SECP256K1_SCALAR_CONST : Z -> Z -> Z -> Z -> Z -> Z -> Z -> Z -> secp256k1_scalar;
  secp256k1_scalar_clear : secp256k1_scalar;
  secp256k1_scalar_get_bits : secp256k1_scalar -> Z -> Z -> checked Z;
  secp256k1_scalar_get_bits_var : secp256k1_scalar -> Z -> Z -> checked Z;
  secp256k1_scalar_set_b32 : list Z -> checked (Z * secp256k1_scalar);
  secp256k1_scalar_set_int : Z -> secp256k1_scalar;
  secp256k1_scalar_get_b32 : secp256k1_scalar -> list Z;
  secp256k1_scalar_add : secp256k1_scalar -> secp256k1_scalar -> checked (Z * secp256k1_scalar);
  secp256k1_scalar_cadd_bit : secp256k1_scalar -> Z -> Z -> checked secp256k1_scalar;
  secp256k1_scalar_mul : secp256k1_scalar -> secp256k1_scalar -> checked secp256k1_scalar;
  secp256k1_scalar_shr_int : secp256k1_scalar -> Z -> checked (Z * secp256k1_scalar);
  secp256k1_scalar_sqr : secp256k1_scalar -> checked secp256k1_scalar;
  secp256k1_scalar_negate : secp256k1_scalar -> secp256k1_scalar;
  secp256k1_scalar_is_zero : secp256k1_scalar -> bool;
  secp256k1_scalar_is_one : secp256k1_scalar -> bool;
  secp256k1_scalar_is_even : secp256k1_scalar -> bool;
  secp256k1_scalar_is_high : secp256k1_scalar -> Z;
  secp256k1_scalar_cond_negate : secp256k1_scalar -> Z -> Z * secp256k1_scalar;
  secp256k1_scalar_eq : secp256k1_scalar -> secp256k1_scalar -> bool;
  secp256k1_scalar_split_128 : secp256k1_scalar -> secp256k1_scalar * secp256k1_scalar;
  secp256k1_scalar_mul_shift_var : secp256k1_scalar -> secp256k1_scalar -> Z -> checked secp256k1_scalar
}.

(** ** Laws

    [sc_wf] is the invariant of the representation and [sc_Z] the integer its
    limbs write, which is below the order. *)

Class ScalarLaws (S : ScalarOps) : Type := {
  sc_wf : secp256k1_scalar -> Prop;
  sc_Z : secp256k1_scalar -> Z;
  sc_range a : sc_wf a -> 0 <= sc_Z a < n;
  SCALAR_CONST_law w7 w6 w5 w4 w3 w2 w1 w0 :
    is_word w7 -> is_word w6 -> is_word w5 -> is_word w4 -> is_word w3 -> is_word w2 -> is_word w1 -> is_word w0 ->
    words_value w7 w6 w5 w4 w3 w2 w1 w0 < n ->
    let r := SECP256K1_SCALAR_CONST w7 w6 w5 w4 w3 w2 w1 w0 in sc_wf r /\ sc_Z r = words_value w7 w6 w5 w4 w3 w2 w1 w0;
  sc_clear_law : sc_wf secp256k1_scalar_clear /\ sc_Z secp256k1_scalar_clear = 0;
  sc_get_bits_law a offset count : sc_wf a -> 0 <= offset -> 0 < count -> offset + count <= 256 ->
    (offset + count - 1) / 32 = offset / 32 ->
    Returns (secp256k1_scalar_get_bits a offset count) (fun x => x = sc_Z a / 2 ^ offset mod 2 ^ count);
  sc_get_bits_var_law a offset count : sc_wf a -> 0 <= offset -> 0 < count < 32 -> offset + count <= 256 ->
    Returns (secp256k1_scalar_get_bits_var a offset count) (fun x => x = sc_Z a / 2 ^ offset mod 2 ^ count);
  sc_set_b32_law b : bytes_of_len 32 b ->
    Returns (secp256k1_scalar_set_b32 b) (fun '(o, r) => o = Z.b2z (n <=? be_value b) /\ sc_wf r /\ sc_Z r = be_value b mod n);
  sc_set_int_law v : 0 <= v < 2 ^ 32 -> sc_wf (secp256k1_scalar_set_int v) /\ sc_Z (secp256k1_scalar_set_int v) = v;
  sc_get_b32_law a : sc_wf a -> secp256k1_scalar_get_b32 a = be_bytes 32 (sc_Z a);
  sc_add_law a b : sc_wf a -> sc_wf b ->
    Returns (secp256k1_scalar_add a b) (fun '(o, r) => o = Z.b2z (n <=? sc_Z a + sc_Z b) /\ sc_wf r /\ sc_Z r = (sc_Z a + sc_Z b) mod n);
  sc_cadd_bit_law r bit (flag : bool) : sc_wf r -> 0 <= bit < 256 -> (flag = true -> sc_Z r + 2 ^ bit < n) ->
    Returns (secp256k1_scalar_cadd_bit r bit (Z.b2z flag)) (fun r' => sc_wf r' /\ sc_Z r' = sc_Z r + if flag then 2 ^ bit else 0);
  sc_mul_law a b : sc_wf a -> sc_wf b ->
    Returns (secp256k1_scalar_mul a b) (fun r => sc_wf r /\ sc_Z r = (sc_Z a * sc_Z b) mod n);
  sc_shr_int_law r k : sc_wf r -> 0 < k < 16 ->
    Returns (secp256k1_scalar_shr_int r k) (fun '(low, r') => low = sc_Z r mod 2 ^ k /\ sc_wf r' /\ sc_Z r' = sc_Z r / 2 ^ k);
  sc_sqr_law a : sc_wf a -> Returns (secp256k1_scalar_sqr a) (fun r => sc_wf r /\ sc_Z r = (sc_Z a * sc_Z a) mod n);
  sc_negate_law a : sc_wf a -> sc_wf (secp256k1_scalar_negate a) /\ sc_Z (secp256k1_scalar_negate a) = (- sc_Z a) mod n;
  sc_is_zero_law a : sc_wf a -> secp256k1_scalar_is_zero a = (sc_Z a =? 0);
  sc_is_one_law a : sc_wf a -> secp256k1_scalar_is_one a = (sc_Z a =? 1);
  sc_is_even_law a : sc_wf a -> secp256k1_scalar_is_even a = Z.even (sc_Z a);
  sc_is_high_law a : sc_wf a -> secp256k1_scalar_is_high a = Z.b2z (n / 2 <? sc_Z a);
  sc_cond_negate_law a flag : sc_wf a ->
    secp256k1_scalar_cond_negate a flag = if flag =? 0 then (1, a) else (-1, secp256k1_scalar_negate a);
  sc_eq_law a b : sc_wf a -> sc_wf b -> secp256k1_scalar_eq a b = (sc_Z a =? sc_Z b);
  sc_split_128_law a : sc_wf a -> let '(r1, r2) := secp256k1_scalar_split_128 a in
    sc_wf r1 /\ sc_wf r2 /\ sc_Z r1 = sc_Z a mod 2 ^ 128 /\ sc_Z r2 = sc_Z a / 2 ^ 128;
  sc_mul_shift_var_law a b shift : sc_wf a -> sc_wf b -> 256 <= shift <= 512 ->
    Returns (secp256k1_scalar_mul_shift_var a b shift) (fun r => sc_wf r /\ sc_Z r = (sc_Z a * sc_Z b + 2 ^ (shift - 1)) / 2 ^ shift)
}.

(** ** Scalars by the residue they stand for *)

Section Scalars.
Context {S : ScalarOps} {L : ScalarLaws S}.

(** [a] is the scalar [v]. *)
Definition sc_ok (a : secp256k1_scalar) (v : Fn) : Prop := sc_wf a /\ sc_Z a = Zmod.to_Z v.

Lemma sc_ok_mod a x : sc_wf a -> sc_Z a = x mod n -> sc_ok a (toFn x).
Proof. intros Ha E. split; [exact Ha|]. rewrite to_Z_toFn. exact E. Qed.

Lemma sc_ok_wf a : sc_wf a -> sc_ok a (toFn (sc_Z a)).
Proof. intros Ha. split; [exact Ha|]. rewrite toFn_small by (apply sc_range; exact Ha). reflexivity. Qed.

Lemma sc_ok_inj a v w : sc_ok a v -> sc_ok a w -> v = w.
Proof. intros [_ H] [_ H']. apply Zmod.to_Z_inj. congruence. Qed.

Lemma sc_clear_ok : sc_ok secp256k1_scalar_clear Zmod.zero.
Proof. exact sc_clear_law. Qed.

Lemma sc_set_b32_ok b : bytes_of_len 32 b ->
  Returns (secp256k1_scalar_set_b32 b) (fun '(o, r) => o = Z.b2z (n <=? be_value b) /\ sc_ok r (toFn (be_value b))).
Proof.
  intros Hb. eapply Returns_mono; [exact (sc_set_b32_law b Hb)|]. intros [o r] (Ho & Hr & E).
  split; [exact Ho | exact (sc_ok_mod r _ Hr E)].
Qed.

Lemma sc_set_int_ok v : 0 <= v < 2 ^ 32 -> sc_ok (secp256k1_scalar_set_int v) (toFn v).
Proof. intros Hv. destruct (sc_set_int_law v Hv) as [H E]. split; [exact H|]. rewrite toFn_small; [exact E | unfold n; lia]. Qed.

Lemma sc_get_b32_ok a v : sc_ok a v -> secp256k1_scalar_get_b32 a = be_bytes 32 (Zmod.to_Z v).
Proof. intros [Ha <-]. exact (sc_get_b32_law a Ha). Qed.

Lemma sc_add_ok a b v w : sc_ok a v -> sc_ok b w ->
  Returns (secp256k1_scalar_add a b) (fun '(o, r) => o = Z.b2z (n <=? Zmod.to_Z v + Zmod.to_Z w) /\ sc_ok r (v + w)%Zmod).
Proof.
  intros [Ha Ea] [Hb Eb]. eapply Returns_mono; [exact (sc_add_law a b Ha Hb)|]. intros [o r] (Ho & Hr & E).
  rewrite Ea, Eb in *. split; [exact Ho|]. rewrite <- (toFn_to_Z v), <- (toFn_to_Z w), <- toFn_add. exact (sc_ok_mod r _ Hr E).
Qed.

Lemma sc_mul_ok a b v w : sc_ok a v -> sc_ok b w -> Returns (secp256k1_scalar_mul a b) (fun r => sc_ok r (v * w)%Zmod).
Proof.
  intros [Ha Ea] [Hb Eb]. eapply Returns_mono; [exact (sc_mul_law a b Ha Hb)|]. intros r (Hr & E).
  rewrite Ea, Eb in E. rewrite <- (toFn_to_Z v), <- (toFn_to_Z w), <- toFn_mul. exact (sc_ok_mod r _ Hr E).
Qed.

Lemma sc_sqr_ok a v : sc_ok a v -> Returns (secp256k1_scalar_sqr a) (fun r => sc_ok r (v * v)%Zmod).
Proof.
  intros [Ha Ea]. eapply Returns_mono; [exact (sc_sqr_law a Ha)|]. intros r (Hr & E).
  rewrite Ea in E. rewrite <- (toFn_to_Z v), <- toFn_mul. exact (sc_ok_mod r _ Hr E).
Qed.

Lemma sc_negate_ok a v : sc_ok a v -> sc_ok (secp256k1_scalar_negate a) (- v)%Zmod.
Proof.
  intros [Ha Ea]. destruct (sc_negate_law a Ha) as [Hr E]. rewrite Ea in E.
  rewrite <- (toFn_to_Z v), <- toFn_opp. exact (sc_ok_mod _ _ Hr E).
Qed.

Lemma sc_is_zero_ok a v : sc_ok a v -> secp256k1_scalar_is_zero a = Zmod.eqb v Zmod.zero.
Proof. intros [Ha Ea]. rewrite (sc_is_zero_law a Ha), Ea. reflexivity. Qed.

Lemma sc_eq_ok a b v w : sc_ok a v -> sc_ok b w -> secp256k1_scalar_eq a b = Zmod.eqb v w.
Proof. intros [Ha Ea] [Hb Eb]. rewrite (sc_eq_law a b Ha Hb), Ea, Eb. reflexivity. Qed.

Lemma sc_is_high_ok a v : sc_ok a v -> secp256k1_scalar_is_high a = Z.b2z (n / 2 <? Zmod.to_Z v).
Proof. intros [Ha <-]. exact (sc_is_high_law a Ha). Qed.

Lemma sc_cond_negate_ok a v flag : sc_ok a v ->
  let '(s, r) := secp256k1_scalar_cond_negate a flag in
  s = (if flag =? 0 then 1 else -1) /\ sc_ok r (if flag =? 0 then v else (- v)%Zmod).
Proof.
  intros H. rewrite (sc_cond_negate_law a flag (proj1 H)). destruct (flag =? 0); split; try reflexivity; [exact H | exact (sc_negate_ok a v H)].
Qed.

Lemma sc_const_ok w7 w6 w5 w4 w3 w2 w1 w0 :
  is_word w7 -> is_word w6 -> is_word w5 -> is_word w4 -> is_word w3 -> is_word w2 -> is_word w1 -> is_word w0 ->
  words_value w7 w6 w5 w4 w3 w2 w1 w0 < n ->
  sc_ok (SECP256K1_SCALAR_CONST w7 w6 w5 w4 w3 w2 w1 w0) (toFn (words_value w7 w6 w5 w4 w3 w2 w1 w0)).
Proof.
  intros H7 H6 H5 H4 H3 H2 H1 H0 Hn. destruct (SCALAR_CONST_law w7 w6 w5 w4 w3 w2 w1 w0) as [Hr E]; try assumption.
  rewrite <- E. apply sc_ok_wf. exact Hr.
Qed.

End Scalars.
