(* ===== verification/ScalarReprs.v ===== *)
(** * The two scalar representations implement the scalar interface *)

From Stdlib Require Import ZArith Lia List Bool.
From S2P Require Import Prelude Modulus Bytes ScalarAcc ScalarWords Scalar4x64 Scalar8x32 Scalar.

#[local] Open Scope Z_scope.

(** ** [scalar_4x64.h] *)

Definition Scalar_4x64 : ScalarOps := {|
  secp256k1_scalar := Scalar4x64.secp256k1_scalar;
  SECP256K1_SCALAR_CONST := Scalar4x64.SECP256K1_SCALAR_CONST;
  secp256k1_scalar_clear := Scalar4x64.secp256k1_scalar_clear;
  secp256k1_scalar_get_bits := Scalar4x64.secp256k1_scalar_get_bits;
  secp256k1_scalar_get_bits_var := Scalar4x64.secp256k1_scalar_get_bits_var;
  secp256k1_scalar_set_b32 := Scalar4x64.secp256k1_scalar_set_b32;
  secp256k1_scalar_set_int := Scalar4x64.secp256k1_scalar_set_int;
  secp256k1_scalar_get_b32 := Scalar4x64.secp256k1_scalar_get_b32;
  secp256k1_scalar_add := Scalar4x64.secp256k1_scalar_add;
  secp256k1_scalar_cadd_bit := Scalar4x64.secp256k1_scalar_cadd_bit;
  secp256k1_scalar_mul := Scalar4x64.secp256k1_scalar_mul;
  secp256k1_scalar_shr_int := Scalar4x64.secp256k1_scalar_shr_int;
  secp256k1_scalar_sqr := Scalar4x64.secp256k1_scalar_sqr;
  secp256k1_scalar_negate := Scalar4x64.secp256k1_scalar_negate;
  secp256k1_scalar_is_zero := Scalar4x64.secp256k1_scalar_is_zero;
  secp256k1_scalar_is_one := Scalar4x64.secp256k1_scalar_is_one;
  secp256k1_scalar_is_even := Scalar4x64.secp256k1_scalar_is_even;
  secp256k1_scalar_is_high := Scalar4x64.secp256k1_scalar_is_high;
  secp256k1_scalar_cond_negate := Scalar4x64.secp256k1_scalar_cond_negate;
  secp256k1_scalar_eq := Scalar4x64.secp256k1_scalar_eq;
  secp256k1_scalar_split_128 := Scalar4x64.secp256k1_scalar_split_128;
  secp256k1_scalar_mul_shift_var := Scalar4x64.secp256k1_scalar_mul_shift_var
|}.

Lemma sc64_range a : Scalar4x64.scalar_inv a -> 0 <= Scalar4x64.limbs_Z a < n.
Proof. intros [H Hn]. pose proof (sc64_limbs_Z_range a H). lia. Qed.

Lemma sc64_clear : Scalar4x64.scalar_inv Scalar4x64.secp256k1_scalar_clear /\ Scalar4x64.limbs_Z Scalar4x64.secp256k1_scalar_clear = 0.
Proof. exact (sc64_set_int_spec 0 ltac:(lia)). Qed.

(** Bits in the same 32-bit word are in the same limb. *)
Lemma sc64_get_bits_law a offset count : Scalar4x64.scalar_inv a -> 0 <= offset -> 0 < count -> offset + count <= 256 ->
  (offset + count - 1) / 32 = offset / 32 ->
  Returns (Scalar4x64.secp256k1_scalar_get_bits a offset count) (fun x => x = Scalar4x64.limbs_Z a / 2 ^ offset mod 2 ^ count).
Proof.
  intros [Ha _] Ho Hc H256 Hw. pose proof (Z.div_mod offset 32 ltac:(lia)). pose proof (Z.mod_pos_bound offset 32 ltac:(lia)).
  pose proof (Z.div_mod (offset + count - 1) 32 ltac:(lia)). pose proof (Z.mod_pos_bound (offset + count - 1) 32 ltac:(lia)).
  apply sc64_get_bits_spec; try assumption; [lia|]. change 64 with (32 * 2). rewrite <- !Z.div_div, Hw by lia. reflexivity.
Qed.

#[export] Instance Laws_4x64 : ScalarLaws Scalar_4x64 :=
  @Build_ScalarLaws Scalar_4x64 Scalar4x64.scalar_inv Scalar4x64.limbs_Z sc64_range
    sc64_const
    sc64_clear
    sc64_get_bits_law
    (fun a o c Ha => sc64_get_bits_var_spec a o c (proj1 Ha))
    sc64_set_b32_spec
    sc64_set_int_spec
    (fun a Ha => sc64_get_b32_spec a (proj1 Ha))
    sc64_add_spec
    sc64_cadd_bit_spec
    sc64_mul_spec
    sc64_shr_int_spec
    sc64_sqr_spec
    sc64_negate_spec
    (fun a Ha => sc64_is_zero_spec a (proj1 Ha))
    (fun a Ha => sc64_is_one_spec a (proj1 Ha))
    (fun a Ha => sc64_is_even_spec a (proj1 Ha))
    (fun a Ha => sc64_is_high_spec a (proj1 Ha))
    (fun a f Ha => sc64_cond_negate_spec a f (proj1 Ha))
    (fun a b Ha Hb => sc64_eq_spec a b (proj1 Ha) (proj1 Hb))
    (fun a Ha => sc64_split_128_spec a (proj1 Ha))
    sc64_mul_shift_var_spec.

(** ** [scalar_8x32.h] *)

#[export] Instance Scalar_8x32 : ScalarOps := {|
  secp256k1_scalar := Scalar8x32.secp256k1_scalar;
  SECP256K1_SCALAR_CONST := Scalar8x32.SECP256K1_SCALAR_CONST;
  secp256k1_scalar_clear := Scalar8x32.secp256k1_scalar_clear;
  secp256k1_scalar_get_bits := Scalar8x32.secp256k1_scalar_get_bits;
  secp256k1_scalar_get_bits_var := Scalar8x32.secp256k1_scalar_get_bits_var;
  secp256k1_scalar_set_b32 := Scalar8x32.secp256k1_scalar_set_b32;
  secp256k1_scalar_set_int := Scalar8x32.secp256k1_scalar_set_int;
  secp256k1_scalar_get_b32 := Scalar8x32.secp256k1_scalar_get_b32;
  secp256k1_scalar_add := Scalar8x32.secp256k1_scalar_add;
  secp256k1_scalar_cadd_bit := Scalar8x32.secp256k1_scalar_cadd_bit;
  secp256k1_scalar_mul := Scalar8x32.secp256k1_scalar_mul;
  secp256k1_scalar_shr_int := Scalar8x32.secp256k1_scalar_shr_int;
  secp256k1_scalar_sqr := Scalar8x32.secp256k1_scalar_sqr;
  secp256k1_scalar_negate := Scalar8x32.secp256k1_scalar_negate;
  secp256k1_scalar_is_zero := Scalar8x32.secp256k1_scalar_is_zero;
  secp256k1_scalar_is_one := Scalar8x32.secp256k1_scalar_is_one;
  secp256k1_scalar_is_even := Scalar8x32.secp256k1_scalar_is_even;
  secp256k1_scalar_is_high := Scalar8x32.secp256k1_scalar_is_high;
  secp256k1_scalar_cond_negate := Scalar8x32.secp256k1_scalar_cond_negate;
  secp256k1_scalar_eq := Scalar8x32.secp256k1_scalar_eq;
  secp256k1_scalar_split_128 := Scalar8x32.secp256k1_scalar_split_128;
  secp256k1_scalar_mul_shift_var := Scalar8x32.secp256k1_scalar_mul_shift_var
|}.

Lemma sc32_range a : Scalar8x32.scalar_inv a -> 0 <= Scalar8x32.limbs_Z a < n.
Proof. intros [H Hn]. pose proof (sc32_limbs_Z_range a H). lia. Qed.

Lemma sc32_clear : Scalar8x32.scalar_inv Scalar8x32.secp256k1_scalar_clear /\ Scalar8x32.limbs_Z Scalar8x32.secp256k1_scalar_clear = 0.
Proof. exact (sc32_set_int_spec 0 ltac:(lia)). Qed.

#[export] Instance Laws_8x32 : ScalarLaws Scalar_8x32 :=
  @Build_ScalarLaws Scalar_8x32 Scalar8x32.scalar_inv Scalar8x32.limbs_Z sc32_range
    sc32_const
    sc32_clear
    (fun a o c Ha => sc32_get_bits_spec a o c (proj1 Ha))
    (fun a o c Ha => sc32_get_bits_var_spec a o c (proj1 Ha))
    sc32_set_b32_spec
    sc32_set_int_spec
    (fun a Ha => sc32_get_b32_spec a (proj1 Ha))
    sc32_add_spec
    sc32_cadd_bit_spec
    sc32_mul_spec
    sc32_shr_int_spec
    sc32_sqr_spec
    sc32_negate_spec
    (fun a Ha => sc32_is_zero_spec a (proj1 Ha))
    (fun a Ha => sc32_is_one_spec a (proj1 Ha))
    (fun a Ha => sc32_is_even_spec a (proj1 Ha))
    (fun a Ha => sc32_is_high_spec a (proj1 Ha))
    (fun a f Ha => sc32_cond_negate_spec a f (proj1 Ha))
    (fun a b Ha Hb => sc32_eq_spec a b (proj1 Ha) (proj1 Hb))
    (fun a Ha => sc32_split_128_spec a (proj1 Ha))
    sc32_mul_shift_var_spec.
