(* ===== verification/ScalarImpl.v ===== *)
(** * Scalar inversion and the endomorphism split: [scalar_impl.h]

    [secp256k1_scalar_inverse] raises to the power [n - 2] with an addition chain;
    [secp256k1_scalar_split_lambda] writes a scalar as [r1 + lambda * r2] with
    short [r1] and [r2].  Over any representation, in the configuration with
    [USE_SCALAR_INV_BUILTIN]. *)

From Stdlib Require Import ZArith Lia List Bool.
From S2P Require Import Prelude Modulus Bytes Scalar.

#[local] Open Scope Z_scope.
#[local] Open Scope checked_scope.

(** ** Functions *)

Section Functions.
Context {S : ScalarOps}.

(** [for (i = 0; i < k; i++) secp256k1_scalar_sqr(t, t);] *)
Definition scalar_sqr_n (k : nat) (t : secp256k1_scalar) : checked secp256k1_scalar :=
  repeat_checked k secp256k1_scalar_sqr t.

Definition secp256k1_scalar_inverse (x : secp256k1_scalar) : checked secp256k1_scalar :=
  x2 <- secp256k1_scalar_sqr x;;
  x2 <- secp256k1_scalar_mul x2 x;;
  x3 <- secp256k1_scalar_sqr x2;;
  x3 <- secp256k1_scalar_mul x3 x;;
  x4 <- secp256k1_scalar_sqr x3;;
  x4 <- secp256k1_scalar_mul x4 x;;
  x6 <- secp256k1_scalar_sqr x4;;
  x6 <- secp256k1_scalar_sqr x6;;
  x6 <- secp256k1_scalar_mul x6 x2;;
  x7 <- secp256k1_scalar_sqr x6;;
  x7 <- secp256k1_scalar_mul x7 x;;
  x8 <- secp256k1_scalar_sqr x7;;
  x8 <- secp256k1_scalar_mul x8 x;;
  x15 <- secp256k1_scalar_sqr x8;;
  x15 <- scalar_sqr_n 6 x15;;
  x15 <- secp256k1_scalar_mul x15 x7;;
  x30 <- secp256k1_scalar_sqr x15;;
  x30 <- scalar_sqr_n 14 x30;;
  x30 <- secp256k1_scalar_mul x30 x15;;
  x60 <- secp256k1_scalar_sqr x30;;
  x60 <- scalar_sqr_n 29 x60;;
  x60 <- secp256k1_scalar_mul x60 x30;;
  x120 <- secp256k1_scalar_sqr x60;;
  x120 <- scalar_sqr_n 59 x120;;
  x120 <- secp256k1_scalar_mul x120 x60;;
  x127 <- secp256k1_scalar_sqr x120;;
  x127 <- scalar_sqr_n 6 x127;;
  x127 <- secp256k1_scalar_mul x127 x7;;
  (* Then accumulate the final result (t starts at x127). *)
  let t := x127 in
  t <- scalar_sqr_n 2 t;;
  t <- secp256k1_scalar_mul t x;; (* 1 *)
  t <- scalar_sqr_n 4 t;;
  t <- secp256k1_scalar_mul t x3;; (* 111 *)
  t <- scalar_sqr_n 2 t;;
  t <- secp256k1_scalar_mul t x;; (* 1 *)
  t <- scalar_sqr_n 2 t;;
  t <- secp256k1_scalar_mul t x;; (* 1 *)
  t <- scalar_sqr_n 2 t;;
  t <- secp256k1_scalar_mul t x;; (* 1 *)
  t <- scalar_sqr_n 4 t;;
  t <- secp256k1_scalar_mul t x3;; (* 111 *)
  t <- scalar_sqr_n 3 t;;
  t <- secp256k1_scalar_mul t x2;; (* 11 *)
  t <- scalar_sqr_n 4 t;;
  t <- secp256k1_scalar_mul t x3;; (* 111 *)
  t <- scalar_sqr_n 5 t;;
  t <- secp256k1_scalar_mul t x3;; (* 111 *)
  t <- scalar_sqr_n 4 t;;
  t <- secp256k1_scalar_mul t x2;; (* 11 *)
  t <- scalar_sqr_n 2 t;;
  t <- secp256k1_scalar_mul t x;; (* 1 *)
  t <- scalar_sqr_n 2 t;;
  t <- secp256k1_scalar_mul t x;; (* 1 *)
  t <- scalar_sqr_n 5 t;;
  t <- secp256k1_scalar_mul t x4;; (* 1111 *)
  t <- scalar_sqr_n 2 t;;
  t <- secp256k1_scalar_mul t x;; (* 1 *)
  t <- scalar_sqr_n 3 t;;
  t <- secp256k1_scalar_mul t x;; (* 1 *)
  t <- scalar_sqr_n 4 t;;
  t <- secp256k1_scalar_mul t x;; (* 1 *)
  t <- scalar_sqr_n 2 t;;
  t <- secp256k1_scalar_mul t x;; (* 1 *)
  t <- scalar_sqr_n 10 t;;
  t <- secp256k1_scalar_mul t x3;; (* 111 *)
  t <- scalar_sqr_n 4 t;;
  t <- secp256k1_scalar_mul t x3;; (* 111 *)
  t <- scalar_sqr_n 9 t;;
  t <- secp256k1_scalar_mul t x8;; (* 11111111 *)
  t <- scalar_sqr_n 2 t;;
  t <- secp256k1_scalar_mul t x;; (* 1 *)
  t <- scalar_sqr_n 3 t;;
  t <- secp256k1_scalar_mul t x;; (* 1 *)
  t <- scalar_sqr_n 3 t;;
  t <- secp256k1_scalar_mul t x;; (* 1 *)
  t <- scalar_sqr_n 5 t;;
  t <- secp256k1_scalar_mul t x4;; (* 1111 *)
  t <- scalar_sqr_n 2 t;;
  t <- secp256k1_scalar_mul t x;; (* 1 *)
  t <- scalar_sqr_n 5 t;;
  t <- secp256k1_scalar_mul t x2;; (* 11 *)
  t <- scalar_sqr_n 4 t;;
  t <- secp256k1_scalar_mul t x2;; (* 11 *)
  t <- scalar_sqr_n 2 t;;
  t <- secp256k1_scalar_mul t x;; (* 1 *)
  t <- scalar_sqr_n 8 t;;
  t <- secp256k1_scalar_mul t x2;; (* 11 *)
  t <- scalar_sqr_n 3 t;;
  t <- secp256k1_scalar_mul t x2;; (* 11 *)
  t <- scalar_sqr_n 3 t;;
  t <- secp256k1_scalar_mul t x;; (* 1 *)
  t <- scalar_sqr_n 6 t;;
  t <- secp256k1_scalar_mul t x;; (* 1 *)
  t <- scalar_sqr_n 8 t;;
  secp256k1_scalar_mul t x6.

Definition secp256k1_scalar_inverse_var (x : secp256k1_scalar) : checked secp256k1_scalar :=
  secp256k1_scalar_inverse x.

Definition minus_lambda : secp256k1_scalar :=
  SECP256K1_SCALAR_CONST 0xAC9C52B3 0x3FA3CF1F 0x5AD9E3FD 0x77ED9BA4 0xA880B9FC 0x8EC739C2 0xE0CFC810 0xB51283CF.
Definition minus_b1 : secp256k1_scalar :=
  SECP256K1_SCALAR_CONST 0x00000000 0x00000000 0x00000000 0x00000000 0xE4437ED6 0x010E8828 0x6F547FA9 0x0ABFE4C3.
Definition minus_b2 : secp256k1_scalar :=
  SECP256K1_SCALAR_CONST 0xFFFFFFFF 0xFFFFFFFF 0xFFFFFFFF 0xFFFFFFFE 0x8A280AC5 0x0774346D 0xD765CDA8 0x3DB1562C.
Definition g1 : secp256k1_scalar :=
  SECP256K1_SCALAR_CONST 0x00000000 0x00000000 0x00000000 0x00003086 0xD221A7D4 0x6BCDE86C 0x90E49284 0xEB153DAB.
Definition g2 : secp256k1_scalar :=
  SECP256K1_SCALAR_CONST 0x00000000 0x00000000 0x00000000 0x0000E443 0x7ED6010E 0x88286F54 0x7FA90ABF 0xE4C42212.

(** [r1] and [r2]; the pointers differ from [a]. *)
Definition secp256k1_scalar_split_lambda (a : secp256k1_scalar) : checked (secp256k1_scalar * secp256k1_scalar) :=
  c1 <- secp256k1_scalar_mul_shift_var a g1 272;;
  c2 <- secp256k1_scalar_mul_shift_var a g2 272;;
  c1 <- secp256k1_scalar_mul c1 minus_b1;;
  c2 <- secp256k1_scalar_mul c2 minus_b2;;
  ' (_, r2) <- secp256k1_scalar_add c1 c2;;
  r1 <- secp256k1_scalar_mul r2 minus_lambda;;
  ' (_, r1) <- secp256k1_scalar_add r1 a;;
  ret (r1, r2).

End Functions.

(** The cube root of unity modulo the order that goes with the endomorphism. *)
Definition lambda : Fn := toFn 0x5363AD4CC05C30E0A5261C028812645A122E22EA20816678DF02967C1B23BD72.

(** The integer nearest to zero with residue [v]. *)
Definition signed (v : Fn) : Z := if Zmod.to_Z v <=? n / 2 then Zmod.to_Z v else Zmod.to_Z v - n.

(** The short vectors [(a1, b1)] and [(a2, b2)] of the lattice of the pairs [(x, y)]
    with [x + lambda * y] zero. *)
Definition split_a1 : Z := 0x3086D221A7D46BCDE86C90E49284EB15.
Definition split_b1 : Z := - 0xE4437ED6010E88286F547FA90ABFE4C3.
Definition split_a2 : Z := 0x0114CA50F7A8E2F3F657C1108D9D44CFD8.
Definition split_b2 : Z := 0x3086D221A7D46BCDE86C90E49284EB15.

Definition split_g1 : Z := 0x3086D221A7D46BCDE86C90E49284EB153DAB.
Definition split_g2 : Z := 0xE4437ED6010E88286F547FA90ABFE4C42212.

(** The multipliers of the two vectors. *)
Definition split_c (g a : Z) : Z := (a * g + 2 ^ 271) / 2 ^ 272.

(** ** Inversion *)

Lemma Fn_pow_sqr (v : Fn) e : 0 <= e -> (Zmod.pow v e * Zmod.pow v e)%Zmod = Zmod.pow v (2 * e).
Proof. intros He. rewrite <- Zmod.pow_add_r_nonneg by exact He. f_equal. lia. Qed.

Lemma Fn_pow_mul (v : Fn) e f : 0 <= e -> 0 <= f -> (Zmod.pow v e * Zmod.pow v f)%Zmod = Zmod.pow v (e + f).
Proof. intros. symmetry. apply Zmod.pow_add_r_nonneg; assumption. Qed.

(** Fermat: the exponent of the chain. *)
Lemma Fn_pow_inv (v : Fn) : Zmod.pow v (n - 2) = Zmod.inv v.
Proof.
  destruct (Zmod.eqb_spec v Zmod.zero) as [->|Hv].
  - rewrite Zmod.inv_0. apply Zmod.pow_0_l. discriminate.
  - apply Zmod.fermat_inv; [exact Hv | exact n_prime].
Qed.

Section Chains.
Context {S : ScalarOps} {L : ScalarLaws S}.

Lemma sc_chain_sqr a (v : Fn) e : sc_ok a (Zmod.pow v e) -> 0 <= e ->
  Returns (secp256k1_scalar_sqr a) (fun r => sc_ok r (Zmod.pow v (2 * e))).
Proof. intros Ha He. rewrite <- Fn_pow_sqr by exact He. apply sc_sqr_ok. exact Ha. Qed.

Lemma sc_chain_mul a b (v : Fn) e f : sc_ok a (Zmod.pow v e) -> sc_ok b (Zmod.pow v f) -> 0 <= e -> 0 <= f ->
  Returns (secp256k1_scalar_mul a b) (fun r => sc_ok r (Zmod.pow v (e + f))).
Proof. intros Ha Hb He Hf. rewrite <- Fn_pow_mul by assumption. apply sc_mul_ok; assumption. Qed.

Lemma sc_chain_sqr_n k a (v : Fn) e : sc_ok a (Zmod.pow v e) -> 0 <= e ->
  Returns (scalar_sqr_n k a) (fun r => sc_ok r (Zmod.pow v (2 ^ Z.of_nat k * e))).
Proof.
  intros Ha He. apply (Returns_repeat k secp256k1_scalar_sqr a (fun i r => sc_ok r (Zmod.pow v (2 ^ Z.of_nat i * e)))).
  - rewrite Z.mul_1_l. exact Ha.
  - intros i y _ Hy. eapply Returns_mono; [eapply sc_chain_sqr; [exact Hy|]|].
    + pose proof (Z.pow_pos_nonneg 2 (Z.of_nat i)). nia.
    + intros r Hr. rewrite Nat2Z.inj_succ, Z.pow_succ_r by lia. rewrite <- Z.mul_assoc. exact Hr.
Qed.

(** One step of the chain: the new exponent is evaluated. *)
Ltac chain_step :=
  cbv beta zeta;
  lazymatch goal with
  | |- Returns (bind (secp256k1_scalar_sqr _) _) _ =>
      eapply Returns_bind; [eapply sc_chain_sqr; [eassumption | vm_compute; discriminate]|]
  | |- Returns (bind (secp256k1_scalar_mul _ _) _) _ =>
      eapply Returns_bind; [eapply sc_chain_mul; [eassumption | eassumption | vm_compute; discriminate | vm_compute; discriminate]|]
  | |- Returns (bind (scalar_sqr_n _ _) _) _ =>
      eapply Returns_bind; [eapply sc_chain_sqr_n; [eassumption | vm_compute; discriminate]|]
  end;
  let r := fresh "r" in let H := fresh "H" in intros r H; cbv beta in H;
  lazymatch type of H with
  | sc_ok ?a (Zmod.pow ?v ?e) => let e' := eval vm_compute in e in change (sc_ok a (Zmod.pow v e')) in H
  end.

Lemma sc_inverse_ok a v : sc_ok a v -> Returns (secp256k1_scalar_inverse a) (fun r => sc_ok r (Zmod.inv v)).
Proof.
  intros Ha. rewrite <- (Zmod.pow_1_r v) in Ha. unfold secp256k1_scalar_inverse. do 93 chain_step.
  eapply Returns_mono; [eapply sc_chain_mul; [eassumption | eassumption | vm_compute; discriminate | vm_compute; discriminate]|].
  intros x Hx. rewrite <- Fn_pow_inv. exact Hx.
Qed.

Lemma sc_inverse_var_ok a v : sc_ok a v -> Returns (secp256k1_scalar_inverse_var a) (fun r => sc_ok r (Zmod.inv v)).
Proof. exact (sc_inverse_ok a v). Qed.

End Chains.

(** ** The split *)

Lemma signed_small x : - (n / 2) <= x <= n / 2 -> signed (toFn x) = x.
Proof.
  intros Hx. unfold signed. rewrite to_Z_toFn. assert (n = 2 * (n / 2) + 1) as Hn by reflexivity. set (h := n / 2) in *. clearbody h.
  destruct (Z.lt_ge_cases x 0).
  - replace (x mod n) with (x + n) by (apply (Z.mod_unique_pos _ _ (-1)); lia). destruct (Z.leb_spec (x + n) h); lia.
  - rewrite Z.mod_small by lia. destruct (Z.leb_spec x h); lia.
Qed.

Lemma signed_short x : Z.abs x < 2 ^ 128 -> signed (toFn x) = x.
Proof. intros Hx. apply signed_small. assert (2 ^ 128 <= n / 2) by (vm_compute; discriminate). set (h := n / 2) in *. clearbody h. lia. Qed.

(** [lambda] is a primitive cube root of unity. *)
Lemma lambda_root : (lambda * lambda + lambda + Zmod.one)%Zmod = Zmod.zero.
Proof. unfold lambda. change Zmod.one with (toFn 1). rewrite <- toFn_mul, <- !toFn_add. change Zmod.zero with (toFn 0). apply toFn_eq. reflexivity. Qed.

Lemma split_c_near g a : - 2 ^ 271 <= 2 ^ 272 * split_c g a - a * g <= 2 ^ 271.
Proof. unfold split_c. pose proof (Z.div_mod (a * g + 2 ^ 271) (2 ^ 272)). pose proof (Z.mod_pos_bound (a * g + 2 ^ 271) (2 ^ 272)). lia. Qed.

Lemma split_short a : 0 <= a < n ->
  let c1 := split_c split_g1 a in let c2 := split_c split_g2 a in
  Z.abs (a - c1 * split_a1 - c2 * split_a2) < 2 ^ 128 /\ Z.abs (- (c1 * split_b1 + c2 * split_b2)) < 2 ^ 128.
Proof.
  intros Ha c1 c2. pose proof (split_c_near split_g1 a) as H1. pose proof (split_c_near split_g2 a) as H2. fold c1 in H1. fold c2 in H2.
  clearbody c1 c2. unfold n, split_g1, split_g2, split_a1, split_b1, split_a2, split_b2 in *. split; lia.
Qed.

Section Split.
Context {S : ScalarOps} {L : ScalarLaws S}.

Ltac const_ok := refine (sc_const_ok _ _ _ _ _ _ _ _ _ _ _ _ _ _ _ _ _); try (split; vm_compute; congruence); vm_compute; reflexivity.

Lemma minus_lambda_ok : sc_ok minus_lambda (- lambda)%Zmod.
Proof.
  replace (- lambda)%Zmod with (toFn 0xAC9C52B33FA3CF1F5AD9E3FD77ED9BA4A880B9FC8EC739C2E0CFC810B51283CF); [const_ok|].
  unfold lambda. rewrite <- toFn_opp. apply toFn_eq. reflexivity.
Qed.

Lemma minus_b1_ok : sc_ok minus_b1 (toFn (- split_b1)).
Proof. const_ok. Qed.

Lemma minus_b2_ok : sc_ok minus_b2 (toFn (- split_b2)).
Proof.
  replace (toFn (- split_b2)) with (toFn 0xFFFFFFFFFFFFFFFFFFFFFFFFFFFFFFFE8A280AC50774346DD765CDA83DB1562C) by (apply toFn_eq; reflexivity).
  const_ok.
Qed.

Lemma g1_wf : sc_wf g1 /\ sc_Z g1 = split_g1.
Proof. refine (SCALAR_CONST_law _ _ _ _ _ _ _ _ _ _ _ _ _ _ _ _ _); try (split; vm_compute; congruence); vm_compute; reflexivity. Qed.

Lemma g2_wf : sc_wf g2 /\ sc_Z g2 = split_g2.
Proof. refine (SCALAR_CONST_law _ _ _ _ _ _ _ _ _ _ _ _ _ _ _ _ _); try (split; vm_compute; congruence); vm_compute; reflexivity. Qed.

Lemma split_multiplier a g G : sc_wf a -> sc_wf g -> sc_Z g = G ->
  Returns (secp256k1_scalar_mul_shift_var a g 272) (fun c => sc_ok c (toFn (split_c G (sc_Z a)))).
Proof.
  intros Ha Hg <-. eapply Returns_mono; [apply (sc_mul_shift_var_law a g 272 Ha Hg); lia|]. intros c [Hc E].
  unfold split_c. change (272 - 1) with 271 in E. rewrite <- E. apply sc_ok_wf. exact Hc.
Qed.

Lemma sc_split_lambda_ok a v : sc_ok a v ->
  Returns (secp256k1_scalar_split_lambda a) (fun '(r1, r2) => exists v1 v2, sc_ok r1 v1 /\ sc_ok r2 v2 /\
    (v1 + lambda * v2)%Zmod = v /\ Z.abs (signed v1) < 2 ^ 128 /\ Z.abs (signed v2) < 2 ^ 128).
Proof.
  intros Ha. pose proof Ha as [Hwf Ez]. pose proof (sc_range a Hwf) as Hr. destruct (split_short _ Hr) as [B1 B2].
  unfold secp256k1_scalar_split_lambda. destruct g1_wf as [Hg1 Eg1]. destruct g2_wf as [Hg2 Eg2].
  eapply Returns_bind; [exact (split_multiplier a g1 _ Hwf Hg1 Eg1)|]. intros c1 Hc1.
  eapply Returns_bind; [exact (split_multiplier a g2 _ Hwf Hg2 Eg2)|]. intros c2 Hc2.
  set (C1 := split_c split_g1 (sc_Z a)) in *. set (C2 := split_c split_g2 (sc_Z a)) in *. clearbody C1 C2.
  eapply Returns_bind; [exact (sc_mul_ok _ _ _ _ Hc1 minus_b1_ok)|]. intros m1 Hm1.
  eapply Returns_bind; [exact (sc_mul_ok _ _ _ _ Hc2 minus_b2_ok)|]. intros m2 Hm2.
  eapply Returns_bind; [exact (sc_add_ok _ _ _ _ Hm1 Hm2)|]. intros [o r2] [_ Hr2].
  eapply Returns_bind; [exact (sc_mul_ok _ _ _ _ Hr2 minus_lambda_ok)|]. intros m Hm.
  eapply Returns_bind; [exact (sc_add_ok _ _ _ _ Hm Ha)|]. intros [o' r1] [_ Hr1].
  apply Returns_ret. do 2 eexists. split; [exact Hr1|]. split; [exact Hr2|]. split; [ring|].
  replace (toFn C1 * toFn (- split_b1) + toFn C2 * toFn (- split_b2))%Zmod with (toFn (- (C1 * split_b1 + C2 * split_b2)))
    by (rewrite <- !toFn_mul, <- toFn_add; f_equal; ring).
  replace (toFn (- (C1 * split_b1 + C2 * split_b2)) * - lambda + v)%Zmod with (toFn (sc_Z a - C1 * split_a1 - C2 * split_a2)).
  - rewrite !signed_short by assumption. auto.
  - rewrite <- (toFn_to_Z v), <- Ez. unfold lambda. rewrite <- toFn_opp, <- toFn_mul, <- toFn_add. apply toFn_eq.
    replace (sc_Z a - C1 * split_a1 - C2 * split_a2) with
      (- (C1 * split_b1 + C2 * split_b2) * - 0x5363AD4CC05C30E0A5261C028812645A122E22EA20816678DF02967C1B23BD72 + sc_Z a +
       - (C1 * ((split_a1 + 0x5363AD4CC05C30E0A5261C028812645A122E22EA20816678DF02967C1B23BD72 * split_b1) / n) +
          C2 * ((split_a2 + 0x5363AD4CC05C30E0A5261C028812645A122E22EA20816678DF02967C1B23BD72 * split_b2) / n)) * n); [apply Z.mod_add; discriminate|].
    replace ((split_a1 + _) / n) with (-98834128363575826231712400374302886273) by (vm_compute; reflexivity).
    replace ((split_a2 + _) / n) with (21011179226632705335158493575954588082) by (vm_compute; reflexivity).
    unfold n, split_a1, split_b1, split_a2, split_b2. ring.
Qed.

End Split.
