(* ===== verification/Endomorphism.v ===== *)
(** * The endomorphism of the curve

    [secp256k1_ge_mul_lambda] multiplies the abscissa by [beta]; on the curve that is
    the multiplication of the point by [lambda].  The map respects the addition and
    agrees with [lambda] on the generator, hence everywhere. *)

From Stdlib Require Import ZArith Lia List Bool.
From S2P Require Import Prelude Modulus Curve CurveGroup CurveOrder Group GroupConv Scalar ScalarImpl.
Import ListNotations.

#[local] Open Scope Z_scope.

Definition lambda_Z : Z := 0x5363AD4CC05C30E0A5261C028812645A122E22EA20816678DF02967C1B23BD72.

Definition zlambda_G : Z * Z :=
  ((fst zG * 0x7ae96a2b657c07106e64479eac3434e99cf0497512f58995c1396c28719501ee) mod p, snd zG).

Lemma plambda_G : plambda G = pmul lambda_Z G.
Proof.
  transitivity (zpoint zlambda_G); [|symmetry; apply multiple_check_ok; vm_cast_no_check (eq_refl true)].
  unfold zpoint, zlambda_G. cbn [fst snd]. rewrite <- zG_point. unfold zpoint, plambda. apply Affine_eq; [|reflexivity].
  unfold beta. rewrite <- toFp_mul. symmetry. apply toFp_eq. apply Z.mod_mod. discriminate.
Qed.

#[local] Open Scope Zmod_scope.

Lemma beta_nonzero : beta <> Zmod.zero.
Proof. apply toFp_nonzero. vm_compute. reflexivity. Qed.

Lemma eqb_beta (x y : Fp) : Zmod.eqb (x * beta) (y * beta) = Zmod.eqb x y.
Proof.
  apply eq_true_iff_eq. rewrite !Zmod.eqb_eq. split; [|intros ->; reflexivity]. intros E.
  transitivity (x * beta * Zmod.inv beta); [field; exact beta_nonzero|]. rewrite E. field. exact beta_nonzero.
Qed.

(** The line through the images has the slope of the line divided by [beta]. *)
Lemma line_point_beta l x1 y1 x2 : plambda (line_point l x1 y1 x2) = line_point (l * (beta * beta)) (x1 * beta) y1 (x2 * beta).
Proof.
  unfold plambda, line_point. apply Affine_eq.
  - transitivity (l * l * beta * (beta * beta * beta) - x1 * beta - x2 * beta); [rewrite beta_cubed; ring | ring].
  - transitivity (l * (beta * beta * beta) * (x1 - (l * l * (beta * beta * beta) - x1 - x2)) - y1); [rewrite beta_cubed; ring | ring].
Qed.

Lemma beta_inverse (x : Fp) : x * beta <> Zmod.zero -> Zmod.inv (x * beta) = Zmod.inv x * (beta * beta).
Proof.
  intros Hx. assert (x <> Zmod.zero) as Hx' by (intros ->; apply Hx; ring).
  transitivity (Zmod.inv (x * beta) * (beta * beta * beta)); [rewrite beta_cubed; ring | field; auto using beta_nonzero].
Qed.

Lemma plambda_padd P Q : on_curve P -> on_curve Q -> plambda (padd P Q) = padd (plambda P) (plambda Q).
Proof.
  intros HP HQ. destruct P as [|x1 y1], Q as [|x2 y2]; try reflexivity.
  cbn [plambda]. unfold padd. rewrite eqb_beta. pose proof Fp_2_nonzero. pose proof (on_curve_y_nonzero _ _ HP).
  destruct (Zmod.eqb_spec x1 x2) as [->|Hx].
  - destruct (Zmod.eqb y1 (- y2)); [reflexivity|]. rewrite line_point_beta. f_equal. field. auto.
  - rewrite line_point_beta. f_equal. apply not_eq_sym, sub_nonzero in Hx.
    replace (x2 * beta - x1 * beta) with ((x2 - x1) * beta) by ring. unfold Zmod.mdiv.
    rewrite beta_inverse by auto using Fp_mul_nonzero, beta_nonzero. ring.
Qed.

#[local] Close Scope Zmod_scope.

#[export] Hint Resolve plambda_on_curve : curve.

Lemma plambda_popp P : plambda (popp P) = popp (plambda P).
Proof. destruct P; reflexivity. Qed.

Lemma plambda_pmul k P : on_curve P -> plambda (pmul k P) = pmul k (plambda P).
Proof.
  intros HP. induction k as [|k IH|k IH] using Z.peano_ind; [reflexivity | |].
  - rewrite !pmul_succ, plambda_padd, IH by auto with curve. reflexivity.
  - rewrite !pmul_pred, plambda_padd, IH, plambda_popp by auto with curve. reflexivity.
Qed.

(** The image of a point is its multiple by [lambda]. *)
Theorem plambda_eigen P : on_curve P -> plambda P = pmul lambda_Z P.
Proof.
  intros HP. destruct (all_generated P HP) as [k ->].
  rewrite plambda_pmul, plambda_G, <- !pmul_mul, Z.mul_comm by auto with curve. reflexivity.
Qed.

(** ** Short combinations *)

Lemma lambda_basis : (n | split_a1 + lambda_Z * split_b1) /\ (n | split_a2 + lambda_Z * split_b2) /\ split_a1 * split_b2 - split_a2 * split_b1 = n.
Proof.
  split; [exists (-98834128363575826231712400374302886273); vm_compute; reflexivity|].
  split; [exists 21011179226632705335158493575954588082; vm_compute; reflexivity | reflexivity].
Qed.

Lemma n_divide_small k : (n | k) -> Z.abs k < n -> k = 0.
Proof. intros [q ->] H. destruct (Z.eq_dec q 0) as [->|Hq]; [reflexivity|]. unfold n in *. lia. Qed.

(** No short [u + lambda * v] but the trivial one is a multiple of [n]. *)
Lemma lambda_independent u v : Z.abs u < 2 ^ 126 -> Z.abs v < 2 ^ 126 -> (n | u + lambda_Z * v) -> u = 0 /\ v = 0.
Proof.
  intros Hu Hv Hd. destruct lambda_basis as (B1 & B2 & D).
  assert (forall a b, (n | a + lambda_Z * b) -> Z.abs a < 2 ^ 129 -> Z.abs b < 2 ^ 128 -> u * b = v * a) as E.
  { intros a b Hab Ha Hb. cut (u * b - v * a = 0); [lia|]. apply n_divide_small.
    - replace (u * b - v * a) with ((u + lambda_Z * v) * b - v * (a + lambda_Z * b)) by ring.
      apply Z.divide_sub_r; [apply Z.divide_mul_l, Hd | apply Z.divide_mul_r, Hab].
    - assert (Z.abs (u * b) <= 2 ^ 126 * 2 ^ 128) by (rewrite Z.abs_mul; apply Z.mul_le_mono_nonneg; lia).
      assert (Z.abs (v * a) <= 2 ^ 126 * 2 ^ 129) by (rewrite Z.abs_mul; apply Z.mul_le_mono_nonneg; lia).
      assert (2 ^ 126 * 2 ^ 128 + 2 ^ 126 * 2 ^ 129 < n) by reflexivity. lia. }
  pose proof (E _ _ B1 ltac:(reflexivity) ltac:(reflexivity)) as E1. pose proof (E _ _ B2 ltac:(reflexivity) ltac:(reflexivity)) as E2.
  assert (n <> 0) as Hn by discriminate. split; apply (Z.mul_cancel_r _ _ n Hn); rewrite <- D.
  - transitivity (u * split_b2 * split_a1 - u * split_b1 * split_a2); [ring|]. rewrite E1, E2. ring.
  - transitivity (v * split_a1 * split_b2 - v * split_a2 * split_b1); [ring|]. rewrite <- E1, <- E2. ring.
Qed.

Lemma pmul_lambda_finite u v P : on_curve P -> P <> Infinity -> Z.abs u < 2 ^ 126 -> Z.abs v < 2 ^ 126 -> u <> 0 ->
  padd (pmul u P) (pmul v (plambda P)) <> Infinity.
Proof.
  intros HP Hfin Hu Hv Hnz E. rewrite plambda_eigen, <- pmul_mul, <- pmul_add in E by auto with curve.
  apply pmul_infinity_iff in E; [|assumption|assumption]. rewrite Z.mul_comm in E. destruct (lambda_independent u v Hu Hv E). contradiction.
Qed.

(** The split of a scalar, as multiples of a point. *)
Lemma split_lambda_point (v1 v2 v : Fn) P : on_curve P -> (v1 + lambda * v2)%Zmod = v ->
  padd (pmul (Zmod.to_Z v1) P) (pmul (Zmod.to_Z v2) (plambda P)) = pmul (Zmod.to_Z v) P.
Proof.
  intros HP <-. rewrite plambda_eigen, <- pmul_mul, <- pmul_add by auto with curve. apply pmul_eqm; [exact HP|].
  rewrite Zmod.to_Z_add, Zmod.to_Z_mul, Z.mod_mod by discriminate. rewrite Zplus_mod_idemp_r. unfold lambda. rewrite to_Z_toFn.
  rewrite (Z.mod_small lambda_Z) by (split; [discriminate | reflexivity]). f_equal. unfold lambda_Z. ring.
Qed.
