(* ===== verification/Hash.v ===== *)
(** * SHA-256, HMAC and the RFC 6979 generator: [hash.h], [hash_impl.h]

    A SHA-256 context holds the chaining value, a buffer of 64 bytes that the code
    reads as sixteen words, and the number of bytes written so far, a [size_t] of
    64 bits.  The machine is little endian.  A function that updates a context
    returns the new one. *)

From Stdlib Require Import ZArith Lia List Bool.
From S2P Require Import Prelude Modulus Bytes.
Import ListNotations.

#[local] Open Scope Z_scope.
#[local] Open Scope checked_scope.

(** ** The round macros *)

Definition Ch (x y z : Z) : Z := Z.lxor z (Z.land x (Z.lxor y z)).
Definition Maj (x y z : Z) : Z := Z.lor (Z.land x y) (Z.land z (Z.lor x y)).
Definition Sigma0 (x : Z) : Z :=
  Z.lxor (Z.lxor (Z.lor (Z.shiftr x 2) (u32 (Z.shiftl x 30))) (Z.lor (Z.shiftr x 13) (u32 (Z.shiftl x 19))))
    (Z.lor (Z.shiftr x 22) (u32 (Z.shiftl x 10))).
Definition Sigma1 (x : Z) : Z :=
  Z.lxor (Z.lxor (Z.lor (Z.shiftr x 6) (u32 (Z.shiftl x 26))) (Z.lor (Z.shiftr x 11) (u32 (Z.shiftl x 21))))
    (Z.lor (Z.shiftr x 25) (u32 (Z.shiftl x 7))).
Definition sigma0 (x : Z) : Z :=
  Z.lxor (Z.lxor (Z.lor (Z.shiftr x 7) (u32 (Z.shiftl x 25))) (Z.lor (Z.shiftr x 18) (u32 (Z.shiftl x 14)))) (Z.shiftr x 3).
Definition sigma1 (x : Z) : Z :=
  Z.lxor (Z.lxor (Z.lor (Z.shiftr x 17) (u32 (Z.shiftl x 15))) (Z.lor (Z.shiftr x 19) (u32 (Z.shiftl x 13)))) (Z.shiftr x 10).

(** The new [d] and [h]. *)
Definition Round (a b c d e f g h k w : Z) : Z * Z :=
  let t1 := u32 (h + Sigma1 e + Ch e f g + k + w) in
  let t2 := u32 (Sigma0 a + Maj a b c) in
  (u32 (d + t1), u32 (t1 + t2)).

Definition BE32 (p : Z) : Z :=
  Z.lor (Z.lor (Z.lor (Z.shiftl (Z.land p 0xFF) 24) (Z.shiftl (Z.land p 0xFF00) 8)) (Z.shiftr (Z.land p 0xFF0000) 8))
    (Z.shiftr (Z.land p 0xFF000000) 24).

(** ** Memory *)

(** The [i]-th [uint32_t] of a buffer of bytes. *)
Definition load32 (buf : list Z) (i : nat) : Z :=
  nth (4 * i) buf 0 + nth (4 * i + 1) buf 0 * 2 ^ 8 + nth (4 * i + 2) buf 0 * 2 ^ 16 + nth (4 * i + 3) buf 0 * 2 ^ 24.

(** The bytes of a [uint32_t]. *)
Definition store32 (x : Z) : list Z := [u8 x; u8 (Z.shiftr x 8); u8 (Z.shiftr x 16); u8 (Z.shiftr x 24)].

(** [memcpy(buf + at, data, len)] *)
Definition memcpy (buf : list Z) (at_ : nat) (data : list Z) (len : nat) : list Z :=
  firstn at_ buf ++ firstn len data ++ skipn (at_ + len) buf.

(** ** SHA-256 *)

Record secp256k1_sha256_t : Type := mk_sha { sha_s : list Z; sha_buf : list Z; sha_bytes : Z }.

(** The buffer is left as it is. *)
Definition secp256k1_sha256_initialize (hash : secp256k1_sha256_t) : secp256k1_sha256_t :=
  mk_sha [0x6a09e667; 0xbb67ae85; 0x3c6ef372; 0xa54ff53a; 0x510e527f; 0x9b05688c; 0x1f83d9ab; 0x5be0cd19] (sha_buf hash) 0.

Definition secp256k1_sha256_transform (s : list Z) (chunk : nat -> Z) : list Z :=
  let a := nth 0 s 0 in let b := nth 1 s 0 in let c := nth 2 s 0 in let d := nth 3 s 0 in
  let e := nth 4 s 0 in let f := nth 5 s 0 in let g := nth 6 s 0 in let h := nth 7 s 0 in
  let w0 := BE32 (chunk 0%nat) in let '(d, h) := Round a b c d e f g h 0x428a2f98 w0 in
  let w1 := BE32 (chunk 1%nat) in let '(c, g) := Round h a b c d e f g 0x71374491 w1 in
  let w2 := BE32 (chunk 2%nat) in let '(b, f) := Round g h a b c d e f 0xb5c0fbcf w2 in
  let w3 := BE32 (chunk 3%nat) in let '(a, e) := Round f g h a b c d e 0xe9b5dba5 w3 in
  let w4 := BE32 (chunk 4%nat) in let '(h, d) := Round e f g h a b c d 0x3956c25b w4 in
  let w5 := BE32 (chunk 5%nat) in let '(g, c) := Round d e f g h a b c 0x59f111f1 w5 in
  let w6 := BE32 (chunk 6%nat) in let '(f, b) := Round c d e f g h a b 0x923f82a4 w6 in
  let w7 := BE32 (chunk 7%nat) in let '(e, a) := Round b c d e f g h a 0xab1c5ed5 w7 in
  let w8 := BE32 (chunk 8%nat) in let '(d, h) := Round a b c d e f g h 0xd807aa98 w8 in
  let w9 := BE32 (chunk 9%nat) in let '(c, g) := Round h a b c d e f g 0x12835b01 w9 in
  let w10 := BE32 (chunk 10%nat) in let '(b, f) := Round g h a b c d e f 0x243185be w10 in
  let w11 := BE32 (chunk 11%nat) in let '(a, e) := Round f g h a b c d e 0x550c7dc3 w11 in
  let w12 := BE32 (chunk 12%nat) in let '(h, d) := Round e f g h a b c d 0x72be5d74 w12 in
  let w13 := BE32 (chunk 13%nat) in let '(g, c) := Round d e f g h a b c 0x80deb1fe w13 in
  let w14 := BE32 (chunk 14%nat) in let '(f, b) := Round c d e f g h a b 0x9bdc06a7 w14 in
  let w15 := BE32 (chunk 15%nat) in let '(e, a) := Round b c d e f g h a 0xc19bf174 w15 in
  let w0 := u32 (w0 + (sigma1 w14 + w9 + sigma0 w1)) in let '(d, h) := Round a b c d e f g h 0xe49b69c1 w0 in
  let w1 := u32 (w1 + (sigma1 w15 + w10 + sigma0 w2)) in let '(c, g) := Round h a b c d e f g 0xefbe4786 w1 in
  let w2 := u32 (w2 + (sigma1 w0 + w11 + sigma0 w3)) in let '(b, f) := Round g h a b c d e f 0x0fc19dc6 w2 in
  let w3 := u32 (w3 + (sigma1 w1 + w12 + sigma0 w4)) in let '(a, e) := Round f g h a b c d e 0x240ca1cc w3 in
  let w4 := u32 (w4 + (sigma1 w2 + w13 + sigma0 w5)) in let '(h, d) := Round e f g h a b c d 0x2de92c6f w4 in
  let w5 := u32 (w5 + (sigma1 w3 + w14 + sigma0 w6)) in let '(g, c) := Round d e f g h a b c 0x4a7484aa w5 in
  let w6 := u32 (w6 + (sigma1 w4 + w15 + sigma0 w7)) in let '(f, b) := Round c d e f g h a b 0x5cb0a9dc w6 in
  let w7 := u32 (w7 + (sigma1 w5 + w0 + sigma0 w8)) in let '(e, a) := Round b c d e f g h a 0x76f988da w7 in
  let w8 := u32 (w8 + (sigma1 w6 + w1 + sigma0 w9)) in let '(d, h) := Round a b c d e f g h 0x983e5152 w8 in
  let w9 := u32 (w9 + (sigma1 w7 + w2 + sigma0 w10)) in let '(c, g) := Round h a b c d e f g 0xa831c66d w9 in
  let w10 := u32 (w10 + (sigma1 w8 + w3 + sigma0 w11)) in let '(b, f) := Round g h a b c d e f 0xb00327c8 w10 in
  let w11 := u32 (w11 + (sigma1 w9 + w4 + sigma0 w12)) in let '(a, e) := Round f g h a b c d e 0xbf597fc7 w11 in
  let w12 := u32 (w12 + (sigma1 w10 + w5 + sigma0 w13)) in let '(h, d) := Round e f g h a b c d 0xc6e00bf3 w12 in
  let w13 := u32 (w13 + (sigma1 w11 + w6 + sigma0 w14)) in let '(g, c) := Round d e f g h a b c 0xd5a79147 w13 in
  let w14 := u32 (w14 + (sigma1 w12 + w7 + sigma0 w15)) in let '(f, b) := Round c d e f g h a b 0x06ca6351 w14 in
  let w15 := u32 (w15 + (sigma1 w13 + w8 + sigma0 w0)) in let '(e, a) := Round b c d e f g h a 0x14292967 w15 in
  let w0 := u32 (w0 + (sigma1 w14 + w9 + sigma0 w1)) in let '(d, h) := Round a b c d e f g h 0x27b70a85 w0 in
  let w1 := u32 (w1 + (sigma1 w15 + w10 + sigma0 w2)) in let '(c, g) := Round h a b c d e f g 0x2e1b2138 w1 in
  let w2 := u32 (w2 + (sigma1 w0 + w11 + sigma0 w3)) in let '(b, f) := Round g h a b c d e f 0x4d2c6dfc w2 in
  let w3 := u32 (w3 + (sigma1 w1 + w12 + sigma0 w4)) in let '(a, e) := Round f g h a b c d e 0x53380d13 w3 in
  let w4 := u32 (w4 + (sigma1 w2 + w13 + sigma0 w5)) in let '(h, d) := Round e f g h a b c d 0x650a7354 w4 in
  let w5 := u32 (w5 + (sigma1 w3 + w14 + sigma0 w6)) in let '(g, c) := Round d e f g h a b c 0x766a0abb w5 in
  let w6 := u32 (w6 + (sigma1 w4 + w15 + sigma0 w7)) in let '(f, b) := Round c d e f g h a b 0x81c2c92e w6 in
  let w7 := u32 (w7 + (sigma1 w5 + w0 + sigma0 w8)) in let '(e, a) := Round b c d e f g h a 0x92722c85 w7 in
  let w8 := u32 (w8 + (sigma1 w6 + w1 + sigma0 w9)) in let '(d, h) := Round a b c d e f g h 0xa2bfe8a1 w8 in
  let w9 := u32 (w9 + (sigma1 w7 + w2 + sigma0 w10)) in let '(c, g) := Round h a b c d e f g 0xa81a664b w9 in
  let w10 := u32 (w10 + (sigma1 w8 + w3 + sigma0 w11)) in let '(b, f) := Round g h a b c d e f 0xc24b8b70 w10 in
  let w11 := u32 (w11 + (sigma1 w9 + w4 + sigma0 w12)) in let '(a, e) := Round f g h a b c d e 0xc76c51a3 w11 in
  let w12 := u32 (w12 + (sigma1 w10 + w5 + sigma0 w13)) in let '(h, d) := Round e f g h a b c d 0xd192e819 w12 in
  let w13 := u32 (w13 + (sigma1 w11 + w6 + sigma0 w14)) in let '(g, c) := Round d e f g h a b c 0xd6990624 w13 in
  let w14 := u32 (w14 + (sigma1 w12 + w7 + sigma0 w15)) in let '(f, b) := Round c d e f g h a b 0xf40e3585 w14 in
  let w15 := u32 (w15 + (sigma1 w13 + w8 + sigma0 w0)) in let '(e, a) := Round b c d e f g h a 0x106aa070 w15 in
  let w0 := u32 (w0 + (sigma1 w14 + w9 + sigma0 w1)) in let '(d, h) := Round a b c d e f g h 0x19a4c116 w0 in
  let w1 := u32 (w1 + (sigma1 w15 + w10 + sigma0 w2)) in let '(c, g) := Round h a b c d e f g 0x1e376c08 w1 in
  let w2 := u32 (w2 + (sigma1 w0 + w11 + sigma0 w3)) in let '(b, f) := Round g h a b c d e f 0x2748774c w2 in
  let w3 := u32 (w3 + (sigma1 w1 + w12 + sigma0 w4)) in let '(a, e) := Round f g h a b c d e 0x34b0bcb5 w3 in
  let w4 := u32 (w4 + (sigma1 w2 + w13 + sigma0 w5)) in let '(h, d) := Round e f g h a b c d 0x391c0cb3 w4 in
  let w5 := u32 (w5 + (sigma1 w3 + w14 + sigma0 w6)) in let '(g, c) := Round d e f g h a b c 0x4ed8aa4a w5 in
  let w6 := u32 (w6 + (sigma1 w4 + w15 + sigma0 w7)) in let '(f, b) := Round c d e f g h a b 0x5b9cca4f w6 in
  let w7 := u32 (w7 + (sigma1 w5 + w0 + sigma0 w8)) in let '(e, a) := Round b c d e f g h a 0x682e6ff3 w7 in
  let w8 := u32 (w8 + (sigma1 w6 + w1 + sigma0 w9)) in let '(d, h) := Round a b c d e f g h 0x748f82ee w8 in
  let w9 := u32 (w9 + (sigma1 w7 + w2 + sigma0 w10)) in let '(c, g) := Round h a b c d e f g 0x78a5636f w9 in
  let w10 := u32 (w10 + (sigma1 w8 + w3 + sigma0 w11)) in let '(b, f) := Round g h a b c d e f 0x84c87814 w10 in
  let w11 := u32 (w11 + (sigma1 w9 + w4 + sigma0 w12)) in let '(a, e) := Round f g h a b c d e 0x8cc70208 w11 in
  let w12 := u32 (w12 + (sigma1 w10 + w5 + sigma0 w13)) in let '(h, d) := Round e f g h a b c d 0x90befffa w12 in
  let w13 := u32 (w13 + (sigma1 w11 + w6 + sigma0 w14)) in let '(g, c) := Round d e f g h a b c 0xa4506ceb w13 in
  let '(f, b) := Round c d e f g h a b 0xbef9a3f7 (u32 (w14 + sigma1 w12 + w7 + sigma0 w15)) in
  let '(e, a) := Round b c d e f g h a 0xc67178f2 (u32 (w15 + sigma1 w13 + w8 + sigma0 w0)) in
  [u32 (nth 0 s 0 + a); u32 (nth 1 s 0 + b); u32 (nth 2 s 0 + c); u32 (nth 3 s 0 + d);
   u32 (nth 4 s 0 + e); u32 (nth 5 s 0 + f); u32 (nth 6 s 0 + g); u32 (nth 7 s 0 + h)].

(** The loop of [secp256k1_sha256_write]; every round but the first consumes 64
    bytes of [data], so [length data + 1] rounds are enough.  The result is the
    chaining value, the buffer, its fill and the data that is left. *)
Fixpoint sha256_write_loop (fuel : nat) (s buf : list Z) (bufsize : nat) (data : list Z) : checked (list Z * list Z * nat * list Z) :=
  match fuel with
  | O => None
  | S fuel' =>
      if (64 <=? bufsize + length data)%nat then
        let buf := memcpy buf bufsize data (64 - bufsize) in
        let data := skipn (64 - bufsize) data in
        sha256_write_loop fuel' (secp256k1_sha256_transform s (load32 buf)) buf 0 data
      else ret (s, buf, bufsize, data)
  end.

Definition secp256k1_sha256_write (hash : secp256k1_sha256_t) (data : list Z) : checked secp256k1_sha256_t :=
  let bufsize := Z.to_nat (Z.land (sha_bytes hash) 0x3F) in
  let bytes := u64 (sha_bytes hash + Z.of_nat (length data)) in
  ' (s, buf, bufsize, data) <- sha256_write_loop (S (length data)) (sha_s hash) (sha_buf hash) bufsize data;;
  let buf := if (length data =? 0)%nat then buf else memcpy buf bufsize data (length data) in
  ret (mk_sha s buf bytes).

Definition pad : list Z := 0x80 :: repeat 0 63.

(** The context and the digest. *)
Definition secp256k1_sha256_finalize (hash : secp256k1_sha256_t) : checked (secp256k1_sha256_t * list Z) :=
  let sizedesc := store32 (u32 (BE32 (Z.shiftr (sha_bytes hash) 29))) ++ store32 (u32 (BE32 (u64 (Z.shiftl (sha_bytes hash) 3)))) in
  hash <- secp256k1_sha256_write hash (firstn (Z.to_nat (1 + (119 - sha_bytes hash mod 64) mod 64)) pad);;
  hash <- secp256k1_sha256_write hash sizedesc;;
  let out := flat_map (fun i => store32 (BE32 (nth i (sha_s hash) 0))) (seq 0 8) in
  ret (mk_sha (repeat 0 8) (sha_buf hash) (sha_bytes hash), out).

(** ** HMAC *)

Record secp256k1_hmac_sha256_t : Type := mk_hmac { inner : secp256k1_sha256_t; outer : secp256k1_sha256_t }.

(** [sha256] is the local context of the long-key branch. *)
Definition secp256k1_hmac_sha256_initialize (hash : secp256k1_hmac_sha256_t) (sha256 : secp256k1_sha256_t) (key : list Z) :
    checked secp256k1_hmac_sha256_t :=
  rkey <- (if (length key <=? 64)%nat then ret (key ++ repeat 0 (64 - length key))
           else
             let sha256 := secp256k1_sha256_initialize sha256 in
             sha256 <- secp256k1_sha256_write sha256 key;;
             ' (_, digest) <- secp256k1_sha256_finalize sha256;;
             ret (digest ++ repeat 0 32));;
  let rkey := map (fun x => Z.lxor x 0x5c) rkey in
  outer <- secp256k1_sha256_write (secp256k1_sha256_initialize (outer hash)) rkey;;
  let rkey := map (fun x => Z.lxor x (Z.lxor 0x5c 0x36)) rkey in
  inner <- secp256k1_sha256_write (secp256k1_sha256_initialize (inner hash)) rkey;;
  ret (mk_hmac inner outer).

Definition secp256k1_hmac_sha256_write (hash : secp256k1_hmac_sha256_t) (data : list Z) : checked secp256k1_hmac_sha256_t :=
  inner <- secp256k1_sha256_write (inner hash) data;;
  ret (mk_hmac inner (outer hash)).

Definition secp256k1_hmac_sha256_finalize (hash : secp256k1_hmac_sha256_t) : checked (secp256k1_hmac_sha256_t * list Z) :=
  ' (inner, temp) <- secp256k1_sha256_finalize (inner hash);;
  outer <- secp256k1_sha256_write (outer hash) temp;;
  ' (outer, out32) <- secp256k1_sha256_finalize outer;;
  ret (mk_hmac inner outer, out32).

(** ** The RFC 6979 generator *)

Record secp256k1_rfc6979_hmac_sha256_t : Type := mk_rng { rng_v : list Z; rng_k : list Z; rng_retry : Z }.

Section Generator.
(** What the local contexts hold before they are initialized. *)
Context (hmac : secp256k1_hmac_sha256_t) (sha256 : secp256k1_sha256_t).

(** A context initialized with [key], the writes of [data] and the result. *)
Definition hmac_sha256 (hmac : secp256k1_hmac_sha256_t) (key : list Z) (data : list (list Z)) : checked (secp256k1_hmac_sha256_t * list Z) :=
  hmac <- secp256k1_hmac_sha256_initialize hmac sha256 key;;
  hmac <- fold_left (fun h d => h <- h;; secp256k1_hmac_sha256_write h d) data (ret hmac);;
  secp256k1_hmac_sha256_finalize hmac.

Definition secp256k1_rfc6979_hmac_sha256_initialize (key : list Z) : checked secp256k1_rfc6979_hmac_sha256_t :=
  let v := repeat 0x01 32 in
  let k := repeat 0x00 32 in
  (* RFC6979 3.2.d. *)
  ' (hmac, k) <- hmac_sha256 hmac k [v; [0x00]; key];;
  ' (hmac, v) <- hmac_sha256 hmac k [v];;
  (* RFC6979 3.2.f. *)
  ' (hmac, k) <- hmac_sha256 hmac k [v; [0x01]; key];;
  ' (hmac, v) <- hmac_sha256 hmac k [v];;
  ret (mk_rng v k 0).

(** The loop of [secp256k1_rfc6979_hmac_sha256_generate]: [outlen] bytes are left to
    write.  A round writes at least one byte, so [outlen] rounds are enough.  A
    negative [now] makes the copy read past the end. *)
Fixpoint rfc6979_loop (fuel : nat) (k v : list Z) (outlen : nat) : checked (list Z * list Z) :=
  match fuel with
  | O => match outlen with O => ret (v, []) | S _ => None end
  | S fuel' =>
      if (outlen =? 0)%nat then ret (v, []) else
      let now := i32 (Z.of_nat outlen) in
      ' (_, v) <- hmac_sha256 hmac k [v];;
      let now := if 32 <? now then 32 else now in
      if now <? 0 then None else
      let now := Z.to_nat now in
      ' (v', out) <- rfc6979_loop fuel' k v (outlen - now);;
      ret (v', firstn now v ++ out)
  end.

(** The generator and the bytes. *)
Definition secp256k1_rfc6979_hmac_sha256_generate (rng : secp256k1_rfc6979_hmac_sha256_t) (outlen : nat) :
    checked (secp256k1_rfc6979_hmac_sha256_t * list Z) :=
  (* RFC6979 3.2.h. *)
  ' (k, v) <- (if rng_retry rng =? 0 then ret (rng_k rng, rng_v rng) else
                 ' (hmac, k) <- hmac_sha256 hmac (rng_k rng) [rng_v rng; [0x00]];;
                 ' (_, v) <- hmac_sha256 hmac k [rng_v rng];;
                 ret (k, v));;
  ' (v, out) <- rfc6979_loop outlen k v outlen;;
  ret (mk_rng v k 1, out).

End Generator.

Definition secp256k1_rfc6979_hmac_sha256_finalize (rng : secp256k1_rfc6979_hmac_sha256_t) : secp256k1_rfc6979_hmac_sha256_t :=
  mk_rng (repeat 0 32) (repeat 0 32) 0.

(** ** Reference: FIPS 180-4

    The constants, the message schedule, the 64 rounds and the padding as the
    standard has them. *)

(** The largest integer below [2^k] whose cube is at most [x], above [r]. *)
Fixpoint cube_root (k : nat) (x r : Z) : Z :=
  match k with
  | O => r
  | S k' => let r' := r + 2 ^ Z.of_nat k' in cube_root k' x (if r' * r' * r' <=? x then r' else r)
  end.

(** The first 32 bits of the fractional parts of the cube roots of the first
    sixty-four primes. *)
Definition K256 : list Z := Eval vm_compute in
  map (fun q => cube_root 36 (q * 2 ^ 96) 0 mod 2 ^ 32)
    [2; 3; 5; 7; 11; 13; 17; 19; 23; 29; 31; 37; 41; 43; 47; 53;
     59; 61; 67; 71; 73; 79; 83; 89; 97; 101; 103; 107; 109; 113; 127; 131;
     137; 139; 149; 151; 157; 163; 167; 173; 179; 181; 191; 193; 197; 199; 211; 223;
     227; 229; 233; 239; 241; 251; 257; 263; 269; 271; 277; 281; 283; 293; 307; 311].

(** [ROTR] on words of 32 bits. *)
Definition rotr (r x : Z) : Z := Z.lor (Z.shiftr x r) (Z.shiftl x (32 - r) mod 2 ^ 32).

Definition fips_Ch (x y z : Z) : Z := Z.lxor (Z.land x y) (Z.land (Z.lnot x) z).
Definition fips_Maj (x y z : Z) : Z := Z.lxor (Z.lxor (Z.land x y) (Z.land x z)) (Z.land y z).
Definition fips_Sigma0 (x : Z) : Z := Z.lxor (Z.lxor (rotr 2 x) (rotr 13 x)) (rotr 22 x).
Definition fips_Sigma1 (x : Z) : Z := Z.lxor (Z.lxor (rotr 6 x) (rotr 11 x)) (rotr 25 x).
Definition fips_sigma0 (x : Z) : Z := Z.lxor (Z.lxor (rotr 7 x) (rotr 18 x)) (Z.shiftr x 3).
Definition fips_sigma1 (x : Z) : Z := Z.lxor (Z.lxor (rotr 17 x) (rotr 19 x)) (Z.shiftr x 10).

(** The working variables. *)
Definition vars : Type := (Z * Z * Z * Z * Z * Z * Z * Z)%type.

Definition fips_round (st : vars) (kw : Z * Z) : vars :=
  let '(a, b, c, d, e, f, g, h) := st in
  let '(k, w) := kw in
  let T1 := (h + fips_Sigma1 e + fips_Ch e f g + k + w) mod 2 ^ 32 in
  let T2 := (fips_Sigma0 a + fips_Maj a b c) mod 2 ^ 32 in
  ((T1 + T2) mod 2 ^ 32, a, b, c, (d + T1) mod 2 ^ 32, e, f, g).

(** The word of the message schedule after a window of sixteen. *)
Definition fips_next (win : list Z) : Z :=
  (fips_sigma1 (nth 14 win 0) + nth 9 win 0 + fips_sigma0 (nth 1 win 0) + nth 0 win 0) mod 2 ^ 32.

(** The message schedule: [k] words from a window on. *)
Fixpoint fips_schedule (k : nat) (win : list Z) : list Z :=
  match k with
  | O => []
  | S k' => hd 0 win :: fips_schedule k' (tl win ++ [fips_next win])
  end.

(** One block of sixteen words. *)
Definition fips_compress (s : list Z) (block : list Z) : list Z :=
  let st := (nth 0 s 0, nth 1 s 0, nth 2 s 0, nth 3 s 0, nth 4 s 0, nth 5 s 0, nth 6 s 0, nth 7 s 0) in
  let '(a, b, c, d, e, f, g, h) := fold_left fips_round (combine K256 (fips_schedule 64 block)) st in
  [(a + nth 0 s 0) mod 2 ^ 32; (b + nth 1 s 0) mod 2 ^ 32; (c + nth 2 s 0) mod 2 ^ 32; (d + nth 3 s 0) mod 2 ^ 32;
   (e + nth 4 s 0) mod 2 ^ 32; (f + nth 5 s 0) mod 2 ^ 32; (g + nth 6 s 0) mod 2 ^ 32; (h + nth 7 s 0) mod 2 ^ 32].

(** The sixteen big-endian words of 64 bytes. *)
Definition fips_words (b : list Z) : list Z := map (fun i => be_value (firstn 4 (skipn (4 * i) b))) (seq 0 16).

Definition fips_init : list Z :=
  [0x6a09e667; 0xbb67ae85; 0x3c6ef372; 0xa54ff53a; 0x510e527f; 0x9b05688c; 0x1f83d9ab; 0x5be0cd19].

(** The chaining value after [k] blocks of [m]. *)
Fixpoint fips_blocks (k : nat) (s : list Z) (m : list Z) : list Z :=
  match k with
  | O => s
  | S k' => fips_blocks k' (fips_compress s (fips_words (firstn 64 m))) (skipn 64 m)
  end.

(** A bit [1], zeros up to 56 bytes modulo 64, and the length in bits. *)
Definition fips_pad (m : list Z) : list Z :=
  m ++ [0x80] ++ repeat 0 (Z.to_nat ((55 - Z.of_nat (length m)) mod 64)) ++ be_bytes 8 (8 * Z.of_nat (length m)).

Definition SHA256 (m : list Z) : list Z :=
  flat_map (be_bytes 4) (fips_blocks (length (fips_pad m) / 64) fips_init (fips_pad m)).

(** ** Reference: RFC 2104 and RFC 6979 *)

Definition HMAC (key m : list Z) : list Z :=
  let k0 := if (length key <=? 64)%nat then key else SHA256 key in
  let k0 := k0 ++ repeat 0 (64 - length k0) in
  SHA256 (map (Z.lxor 0x5c) k0 ++ SHA256 (map (Z.lxor 0x36) k0 ++ m)).

(** [K] and [V] after the seeding with [key] (3.2.b to 3.2.g). *)
Definition RFC6979_seed (key : list Z) : list Z * list Z :=
  let V := repeat 1 32 in
  let K := repeat 0 32 in
  let K := HMAC K (V ++ [0] ++ key) in
  let V := HMAC K V in
  let K := HMAC K (V ++ [1] ++ key) in
  let V := HMAC K V in
  (K, V).

(** The update between two outputs (3.2.h). *)
Definition RFC6979_next (K V : list Z) : list Z * list Z :=
  let K := HMAC K (V ++ [0]) in
  (K, HMAC K V).

(** [k] blocks of output (3.2.h): the last [V] and the bytes. *)
Fixpoint RFC6979_blocks (k : nat) (K V : list Z) : list Z * list Z :=
  match k with
  | O => (V, [])
  | S k' => let V := HMAC K V in let '(V', out) := RFC6979_blocks k' K V in (V', V ++ out)
  end.

(** One output of [len] bytes from [K] and [V]; the update goes before every output
    but the first. *)
Definition RFC6979_output (first : bool) (len : nat) (KV : list Z * list Z) : (list Z * list Z) * list Z :=
  let '(K, V) := if first then KV else RFC6979_next (fst KV) (snd KV) in
  let '(V', blocks) := RFC6979_blocks ((len + 31) / 32) K V in
  ((K, V'), firstn len blocks).

(** [K] and [V] before output [i], and output [i], of a generator seeded with [key]. *)
Fixpoint RFC6979_state (key : list Z) (len i : nat) : list Z * list Z :=
  match i with
  | O => RFC6979_seed key
  | S i' => fst (RFC6979_output (i' =? 0)%nat len (RFC6979_state key len i'))
  end.

Definition RFC6979_read (key : list Z) (len i : nat) : list Z :=
  snd (RFC6979_output (i =? 0)%nat len (RFC6979_state key len i)).
