(* ===== verification/HashSpec.v ===== *)
(** * Correctness of the hash functions

    The 64 lines of the transformation against the rounds of the standard, then
    streaming, padding, HMAC and the generator. *)

From Stdlib Require Import ZArith Lia List Bool.
From S2P Require Import Prelude Modulus Bytes Hash.
Import ListNotations.

#[local] Open Scope Z_scope.

(** ** The transformation *)

Lemma Ch_fips x y z : Ch x y z = fips_Ch x y z.
Proof.
  apply Z.bits_inj'. intros i Hi. unfold Ch, fips_Ch. rewrite !Z.lxor_spec, !Z.land_spec, Z.lxor_spec, Z.lnot_spec by exact Hi.
  destruct (Z.testbit x i), (Z.testbit y i), (Z.testbit z i); reflexivity.
Qed.

Lemma Maj_fips x y z : Maj x y z = fips_Maj x y z.
Proof.
  apply Z.bits_inj'. intros i Hi. unfold Maj, fips_Maj. rewrite Z.lor_spec, !Z.lxor_spec, !Z.land_spec, Z.lor_spec.
  destruct (Z.testbit x i), (Z.testbit y i), (Z.testbit z i); reflexivity.
Qed.

Lemma Sigma0_fips x : fips_Sigma0 x = Sigma0 x.
Proof. reflexivity. Qed.

Lemma Sigma1_fips x : fips_Sigma1 x = Sigma1 x.
Proof. reflexivity. Qed.

Lemma sigma0_fips x : fips_sigma0 x = sigma0 x.
Proof. reflexivity. Qed.

Lemma sigma1_fips x : fips_sigma1 x = sigma1 x.
Proof. reflexivity. Qed.

(** A round of the code is a round of the standard, with the variables renamed
    instead of moved. *)
Lemma Round_fips a b c d e f g h k w :
  fips_round (a, b, c, d, e, f, g, h) (k, w) = let '(d', h') := Round a b c d e f g h k w in (h', a, b, c, d', e, f, g).
Proof. unfold fips_round, Round, u32. rewrite Ch_fips, Maj_fips, Sigma0_fips, Sigma1_fips. reflexivity. Qed.

(** The rounds with the window of the schedule carried along. *)
Fixpoint fips_rounds (ks : list Z) (st : vars) (win : list Z) : vars :=
  match ks with
  | [] => st
  | k :: ks' => fips_rounds ks' (fips_round st (k, hd 0 win)) (tl win ++ [fips_next win])
  end.

Lemma fips_rounds_fold ks st win : fold_left fips_round (combine ks (fips_schedule (length ks) win)) st = fips_rounds ks st win.
Proof. revert st win. induction ks as [|k ks IH]; intros st win; [reflexivity|]. cbn [length fips_schedule combine fold_left fips_rounds]. apply IH. Qed.

(** One round on a window given by its words. *)
Lemma fips_rounds_step k ks a b c d e f g h x0 x1 x2 x3 x4 x5 x6 x7 x8 x9 x10 x11 x12 x13 x14 x15 (P : vars -> Prop) :
  (forall x16, x16 = u32 (x0 + (sigma1 x14 + x9 + sigma0 x1)) ->
     let '(d', h') := Round a b c d e f g h k x0 in
     P (fips_rounds ks (h', a, b, c, d', e, f, g) [x1; x2; x3; x4; x5; x6; x7; x8; x9; x10; x11; x12; x13; x14; x15; x16])) ->
  P (fips_rounds (k :: ks) (a, b, c, d, e, f, g, h) [x0; x1; x2; x3; x4; x5; x6; x7; x8; x9; x10; x11; x12; x13; x14; x15]).
Proof.
  intros H. cbn [fips_rounds hd tl app]. rewrite Round_fips. specialize (H _ eq_refl).
  destruct (Round a b c d e f g h k x0) as [d' h']. unfold fips_next. cbn [nth].
  rewrite sigma1_fips, sigma0_fips. unfold u32 in H. replace (_ + x9 + _ + x0) with (x0 + (sigma1 x14 + x9 + sigma0 x1)) by ring. exact H.
Qed.

Definition fips_finish (s0 s1 s2 s3 s4 s5 s6 s7 : Z) (st : vars) : list Z :=
  let '(a, b, c, d, e, f, g, h) := st in
  [u32 (s0 + a); u32 (s1 + b); u32 (s2 + c); u32 (s3 + d); u32 (s4 + e); u32 (s5 + f); u32 (s6 + g); u32 (s7 + h)].

(** The last two message words of the code are summed in another order. *)
Lemma last_words x0 x14 x9 x1 : u32 (x0 + sigma1 x14 + x9 + sigma0 x1) = u32 (x0 + (sigma1 x14 + x9 + sigma0 x1)).
Proof. f_equal. ring. Qed.

(** One line of the code against one round of the standard. *)
Ltac sha_line :=
  try lazymatch goal with |- (let w := u32 ?e in _) = _ => match goal with H : ?x = u32 e |- _ => rewrite <- H; clear H end end;
  try lazymatch goal with |- (let w := ?e in @?K w) = ?R => change (K e = R); cbv beta end;
  lazymatch goal with |- ?L = fips_finish ?s0 ?s1 ?s2 ?s3 ?s4 ?s5 ?s6 ?s7 (fips_rounds (?k :: ?ks) (?a, ?b, ?c, ?d, ?e, ?f, ?g, ?h) _) =>
    apply (fips_rounds_step k ks a b c d e f g h) with (P := fun v => L = fips_finish s0 s1 s2 s3 s4 s5 s6 s7 v);
    let x := fresh "x" in let E := fresh "E" in intros x E; cbv beta;
    match goal with |- context [Round a b c d e f g h k ?y] =>
      let d' := fresh "d" in let h' := fresh "h" in destruct (Round a b c d e f g h k y) as [d' h'] end
  end.

Lemma transform_compress s chunk : secp256k1_sha256_transform s chunk = fips_compress s (map (fun i => BE32 (chunk i)) (seq 0 16)).
Proof.
  transitivity (fips_finish (nth 0 s 0) (nth 1 s 0) (nth 2 s 0) (nth 3 s 0) (nth 4 s 0) (nth 5 s 0) (nth 6 s 0) (nth 7 s 0)
    (fips_rounds K256 (nth 0 s 0, nth 1 s 0, nth 2 s 0, nth 3 s 0, nth 4 s 0, nth 5 s 0, nth 6 s 0, nth 7 s 0)
      (map (fun i => BE32 (chunk i)) (seq 0 16)))).
  2: { unfold fips_compress. change 64%nat with (length K256) at 1. rewrite fips_rounds_fold.
       destruct (fips_rounds _ _ _) as [[[[[[[a b] c] d] e] f] g] h]. unfold fips_finish, u32. rewrite ?(Z.add_comm (nth _ s 0)). reflexivity. }
  cbn [map seq]. unfold K256. cbv beta delta [secp256k1_sha256_transform].
  do 8 lazymatch goal with |- (let w := ?e in @?K w) = ?R => change (K e = R); cbv beta end.
  do 16 sha_line.
  do 16 sha_line.
  do 16 sha_line.
  do 14 sha_line.
  rewrite !last_words.
  do 2 (lazymatch goal with |- context [Round _ _ _ _ _ _ _ _ _ (u32 ?e)] => match goal with H : _ = u32 e |- _ => rewrite <- H end end;
        sha_line).
  reflexivity.
Qed.

(** ** Bytes and words *)

Lemma land_field x m k : 0 <= k -> Z.land x (Z.shiftl m k) = Z.shiftl (Z.land (Z.shiftr x k) m) k.
Proof.
  intros Hk. apply Z.bits_inj'. intros i Hi. rewrite Z.land_spec, !Z.shiftl_spec, Z.land_spec by lia.
  destruct (Z.ltb_spec i k).
  - rewrite !(Z.testbit_neg_r _ (i - k)) by lia. apply andb_false_r.
  - rewrite Z.shiftr_spec by lia. replace (i - k + k) with i by lia. reflexivity.
Qed.

(** Byte [i] of a number. *)
Definition byte_of (x i : Z) : Z := x / 2 ^ (8 * i) mod 256.

Lemma byte_of_range x i : 0 <= byte_of x i < 256.
Proof. apply Z.mod_pos_bound. reflexivity. Qed.

Lemma BE32_value x : BE32 x = byte_of x 3 + byte_of x 2 * 2 ^ 8 + byte_of x 1 * 2 ^ 16 + byte_of x 0 * 2 ^ 24.
Proof.
  assert (forall i, 0 <= i -> Z.land x (Z.shiftl 0xFF (8 * i)) = Z.shiftl (byte_of x i) (8 * i)) as E.
  { intros i Hi. rewrite land_field by lia. change 0xFF with (Z.ones 8). rewrite Z.land_ones, Z.shiftr_div_pow2 by lia. reflexivity. }
  pose proof (E 0 ltac:(lia) : Z.land x 0xFF = Z.shiftl (byte_of x 0) 0) as E0.
  pose proof (E 1 ltac:(lia) : Z.land x 0xFF00 = Z.shiftl (byte_of x 1) 8) as E1.
  pose proof (E 2 ltac:(lia) : Z.land x 0xFF0000 = Z.shiftl (byte_of x 2) 16) as E2.
  pose proof (E 3 ltac:(lia) : Z.land x 0xFF000000 = Z.shiftl (byte_of x 3) 24) as E3.
  pose proof (byte_of_range x 0). pose proof (byte_of_range x 1). pose proof (byte_of_range x 2). pose proof (byte_of_range x 3).
  unfold BE32. rewrite E0, E1, E2, E3. clear E E0 E1 E2 E3.
  generalize dependent (byte_of x 0). generalize dependent (byte_of x 1).
  generalize dependent (byte_of x 2). generalize dependent (byte_of x 3). intros b3 H3 b2 H2 b1 H1 b0 H0.
  rewrite !Z.shiftl_shiftl by lia. rewrite (Z.shiftr_shiftl_l b2), (Z.shiftr_shiftl_l b3) by lia.
  change (24 - 24) with 0. rewrite !Z.shiftl_0_r. change (0 + 24) with 24. change (8 + 8) with 16. change (16 - 8) with 8.
  rewrite Z.lor_comm, (Z.lor_comm _ (Z.shiftl b2 8)), (Z.lor_comm (Z.shiftl b0 24)), !Z.lor_assoc.
  rewrite (lor_shiftl_add b3), (lor_shiftl_add (b3 + _)), lor_shiftl_add by lia. reflexivity.
Qed.

(** The swapped word, stored, is the big-endian encoding. *)
Lemma store_BE32 x : store32 (BE32 x) = be_bytes 4 x.
Proof.
  rewrite BE32_value. unfold store32, be_bytes, u8. rewrite !Z.shiftr_div_pow2 by lia.
  pose proof (byte_of_range x 0). pose proof (byte_of_range x 1). pose proof (byte_of_range x 2). pose proof (byte_of_range x 3).
  replace (byte_of x 3) with (x / 256 / 256 / 256 mod 256) in * by (rewrite !Z.div_div by lia; reflexivity).
  replace (byte_of x 2) with (x / 256 / 256 mod 256) in * by (rewrite !Z.div_div by lia; reflexivity).
  change (byte_of x 1) with (x / 256 mod 256) in *.
  replace (byte_of x 0) with (x mod 256) in * by (unfold byte_of; rewrite Z.div_1_r; reflexivity).
  cbn [app]. generalize dependent (x mod 256). generalize dependent (x / 256 mod 256).
  generalize dependent (x / 256 / 256 mod 256). generalize dependent (x / 256 / 256 / 256 mod 256).
  intros b3 H3 b2 H2 b1 H1 b0 H0. repeat f_equal; Z.to_euclidean_division_equations; lia.
Qed.

(** A word read from the buffer and swapped is the big-endian word. *)
Lemma load_BE32 buf i : Forall is_byte buf -> (4 * i + 4 <= length buf)%nat ->
  BE32 (load32 buf i) = be_value (firstn 4 (skipn (4 * i) buf)).
Proof.
  intros Hb Hl. assert (forall j, is_byte (nth j buf 0)) as Hj by (intros j; apply (byte_nth (length buf)); split; auto).
  assert (bytes_of_len 4 (firstn 4 (skipn (4 * i) buf))) as Hw.
  { split; [rewrite length_firstn, length_skipn; lia | apply Forall_firstn, Forall_skipn; exact Hb]. }
  rewrite (be_value_nth 4 _ Hw). cbn [seq]. rewrite !fold_left_cons, fold_left_nil, !nth_firstn, !nth_skipn. cbn [Nat.ltb Nat.leb].
  rewrite Nat.add_0_r. rewrite BE32_value. unfold load32, is_byte in *.
  pose proof (Hj (4 * i)%nat). pose proof (Hj (4 * i + 1)%nat). pose proof (Hj (4 * i + 2)%nat). pose proof (Hj (4 * i + 3)%nat).
  generalize dependent (nth (4 * i) buf 0). generalize dependent (nth (4 * i + 1) buf 0).
  generalize dependent (nth (4 * i + 2) buf 0). generalize dependent (nth (4 * i + 3) buf 0).
  intros b3 H3 b2 H2 b1 H1 b0 H0. unfold byte_of. cbn [Z.mul Pos.mul]. Z.to_euclidean_division_equations. lia.
Qed.

Lemma transform_words s buf : bytes_of_len 64 buf -> secp256k1_sha256_transform s (load32 buf) = fips_compress s (fips_words buf).
Proof.
  intros [Hl Hb]. rewrite transform_compress. f_equal. apply map_ext_in. intros i Hi%in_seq.
  apply load_BE32; [exact Hb | lia].
Qed.

(** ** The blocks of a message *)

Lemma fips_blocks_add j k s m : fips_blocks (j + k) s m = fips_blocks k (fips_blocks j s m) (skipn (64 * j) m).
Proof.
  revert s m. induction j as [|j IH]; intros s m; [reflexivity|].
  cbn [Nat.add fips_blocks]. rewrite IH, skipn_skipn. do 2 f_equal. lia.
Qed.

Lemma fips_blocks_prefix k s m x : (64 * k <= length m)%nat -> fips_blocks k s (m ++ x) = fips_blocks k s m.
Proof.
  revert s m. induction k as [|k IH]; intros s m Hl; [reflexivity|]. cbn [fips_blocks].
  rewrite firstn_app, skipn_app. replace (64 - length m)%nat with 0%nat by lia. rewrite firstn_O, skipn_O, app_nil_r.
  apply IH. rewrite length_skipn. lia.
Qed.

Lemma length_fips_compress s b : length (fips_compress s b) = 8%nat.
Proof. unfold fips_compress. destruct (fold_left _ _ _) as [[[[[[[? ?] ?] ?] ?] ?] ?] ?]. reflexivity. Qed.

Lemma length_fips_blocks k s m : length s = 8%nat -> length (fips_blocks k s m) = 8%nat.
Proof. revert s m. induction k as [|k IH]; intros s m Hs; [exact Hs|]. apply IH, length_fips_compress. Qed.

(** ** Writing *)

(** The context after the bytes [m]. *)
Definition sha_repr (h : secp256k1_sha256_t) (m : list Z) : Prop :=
  Forall is_byte m /\ Z.of_nat (length m) < 2 ^ 64 /\
  sha_s h = fips_blocks (length m / 64) fips_init m /\
  length (sha_buf h) = 64%nat /\
  firstn (length m mod 64) (sha_buf h) = skipn (64 * (length m / 64)) m /\
  sha_bytes h = Z.of_nat (length m).

Lemma sha_initialize_ok h : length (sha_buf h) = 64%nat -> sha_repr (secp256k1_sha256_initialize h) [].
Proof. intros H. repeat split; cbn; auto. Qed.

(** A full buffer: the pending bytes and the first bytes of the data. *)
Lemma fill_buffer buf b data : length buf = 64%nat -> (b <= 64)%nat -> (64 - b <= length data)%nat ->
  memcpy buf b data (64 - b) = firstn 64 (firstn b buf ++ data) /\
  skipn (64 - b) data = skipn 64 (firstn b buf ++ data).
Proof.
  intros Hl Hb Hd. assert (length (firstn b buf) = b) as L by (rewrite length_firstn; lia). split.
  - unfold memcpy. replace (b + (64 - b))%nat with 64%nat by lia. rewrite (skipn_all2 buf), app_nil_r by lia.
    rewrite firstn_app, L, (firstn_all2 (firstn b buf)) by lia. reflexivity.
  - rewrite skipn_app, L, (skipn_all2 (firstn b buf)) by lia. reflexivity.
Qed.

Lemma sha256_write_loop_ok fuel s buf b data :
  (length data < fuel)%nat -> length buf = 64%nat -> (b < 64)%nat -> Forall is_byte (firstn b buf ++ data) ->
  let m := firstn b buf ++ data in
  Returns (sha256_write_loop fuel s buf b data) (fun '(s', buf', b', data') =>
    s' = fips_blocks (length m / 64) s m /\ length buf' = 64%nat /\ (b' + length data' = length m mod 64)%nat /\
    firstn b' buf' ++ data' = skipn (64 * (length m / 64)) m).
Proof.
  cbv zeta. revert s buf b data. induction fuel as [|fuel IH]; intros s buf b data Hf Hl Hb Hm; [lia|].
  assert (length (firstn b buf ++ data) = b + length data)%nat as Lm by (rewrite length_app, length_firstn; lia).
  cbn [sha256_write_loop]. rewrite Lm. destruct (Nat.leb_spec 64 (b + length data)) as [Hge|Hlt].
  - destruct (fill_buffer buf b data Hl ltac:(lia) ltac:(lia)) as [-> E]. rewrite E.
    assert (length (skipn (64 - b) data) < fuel)%nat as Hf' by (rewrite length_skipn; lia). rewrite E in Hf'. clear E.
    remember (firstn b buf ++ data) as m eqn:Em. clear Em. rewrite <- Lm in *.
    assert (length (firstn 64 m) = 64%nat) as L64 by (rewrite length_firstn; lia).
    rewrite transform_words by (split; [exact L64 | apply Forall_firstn; exact Hm]).
    refine (Returns_mono _ _ _ (IH _ _ 0%nat (skipn 64 m) Hf' L64 ltac:(lia) (Forall_skipn _ _ _ Hm)) _).
    intros [[[s' buf'] b'] data'] (Hs & Hl' & Hb' & Hd'). cbn [firstn app] in Hs, Hb', Hd'. rewrite length_skipn in *.
    assert (length m / 64 = S ((length m - 64) / 64))%nat as Eq
      by (replace (length m) with (length m - 64 + 1 * 64)%nat at 1 by lia; rewrite Nat.div_add by lia; lia).
    assert (length m mod 64 = (length m - 64) mod 64)%nat as Er
      by (replace (length m) with (length m - 64 + 1 * 64)%nat at 1 by lia; rewrite Nat.Div0.mod_add by lia; reflexivity).
    rewrite Eq, Er. cbn [fips_blocks]. repeat split; auto. rewrite Hd', skipn_skipn. f_equal. lia.
  - rewrite (Nat.div_small (b + length data)), (Nat.mod_small (b + length data)) by lia. cbn. repeat split; auto.
Qed.

Lemma mod64_land x : Z.to_nat (Z.land (Z.of_nat x) 0x3F) = (x mod 64)%nat.
Proof. change 0x3F with (Z.ones 6). rewrite Z.land_ones by lia. change (2 ^ 6) with (Z.of_nat 64). rewrite <- Nat2Z.inj_mod, Nat2Z.id. reflexivity. Qed.

(** Pending bytes of a message and what follows it. *)
Lemma pending_app (m x : list Z) : let q := (length m / 64)%nat in
  skipn (64 * q) (m ++ x) = skipn (64 * q) m ++ x.
Proof. cbv zeta. rewrite skipn_app. pose proof (Nat.Div0.mul_div_le (length m) 64). replace (_ - length m)%nat with 0%nat by lia. reflexivity. Qed.

Lemma sha_write_ok h m data : sha_repr h m -> Forall is_byte data -> Z.of_nat (length (m ++ data)) < 2 ^ 64 ->
  Returns (secp256k1_sha256_write h data) (fun h' => sha_repr h' (m ++ data)).
Proof.
  intros (Hm & Hlen & Hs & Hbl & Hbuf & Hbytes) Hd Hlen'. unfold secp256k1_sha256_write. cbv zeta. rewrite Hbytes, mod64_land.
  set (q := (length m / 64)%nat) in *. pose proof (pending_app m data) as Ep. cbv zeta in Ep. fold q in Ep.
  assert (length (firstn (length m mod 64) (sha_buf h) ++ data) = length m mod 64 + length data)%nat as Lp.
  { rewrite length_app, length_firstn, Hbl. pose proof (Nat.mod_upper_bound (length m) 64). lia. }
  eapply Returns_bind.
  { apply sha256_write_loop_ok; [lia | exact Hbl | apply Nat.mod_upper_bound; lia|].
    rewrite Hbuf, <- Ep. apply Forall_skipn, Forall_app. split; assumption. }
  intros [[[s' buf'] b'] data'] (Hs' & Hl' & Hb' & Hd'). rewrite Lp in *.
  assert (length (m ++ data) / 64 = q + (length m mod 64 + length data) / 64 /\
          length (m ++ data) mod 64 = (length m mod 64 + length data) mod 64)%nat as [Eq Er].
  { rewrite length_app. pose proof (Nat.div_mod_eq (length m) 64) as E. fold q in E.
    replace (length m + length data)%nat with (length m mod 64 + length data + q * 64)%nat by lia.
    rewrite Nat.div_add, Nat.Div0.mod_add by lia. lia. }
  assert (fips_blocks (length (m ++ data) / 64) fips_init (m ++ data) = s') as Es.
  { rewrite Eq, fips_blocks_add, Ep, (fips_blocks_prefix q) by (apply Nat.Div0.mul_div_le). rewrite <- Hs, <- Hbuf. auto. }
  assert (length data' <= 64 - b')%nat as Hroom by (pose proof (Nat.mod_upper_bound (length m mod 64 + length data) 64); lia).
  apply Returns_ret. split; [apply Forall_app; auto|]. split; [exact Hlen'|]. cbn [sha_s sha_buf sha_bytes].
  split; [symmetry; exact Es|]. rewrite Er, Eq, <- Hb'. unfold u64. rewrite <- Nat2Z.inj_add, <- length_app, Z.mod_small by lia.
  replace (64 * (q + _))%nat with (64 * ((length m mod 64 + length data) / 64) + 64 * q)%nat by lia.
  rewrite <- skipn_skipn, Ep, <- Hbuf, <- Hd'.
  destruct (Nat.eqb_spec (length data') 0) as [E0|Ene].
  - apply length_zero_iff_nil in E0. subst data'. cbn [length]. rewrite Nat.add_0_r, app_nil_r. auto.
  - unfold memcpy. rewrite firstn_all. repeat split.
    + rewrite !length_app, length_firstn, length_skipn. lia.
    + rewrite app_assoc, firstn_app. replace (_ - _)%nat with 0%nat by (rewrite length_app, length_firstn; lia).
      cbn [firstn]. rewrite app_nil_r, firstn_all2; [reflexivity | rewrite length_app, length_firstn; lia].
Qed.

(** ** Finishing *)

Lemma be_bytes_app a b v : be_bytes (a + b) v = be_bytes a (v / 256 ^ Z.of_nat b) ++ be_bytes b v.
Proof.
  revert v. induction b as [|b IH]; intros v.
  - rewrite Nat.add_0_r, Z.div_1_r, app_nil_r. reflexivity.
  - rewrite Nat.add_succ_r. cbn [be_bytes]. rewrite IH, <- app_assoc, Nat2Z.inj_succ, Z.pow_succ_r, Z.div_div; [reflexivity| lia| |lia].
    apply Z.pow_pos_nonneg; lia.
Qed.

Lemma BE32_u32 x : u32 (BE32 x) = BE32 x.
Proof.
  rewrite BE32_value. apply Z.mod_small.
  pose proof (byte_of_range x 0). pose proof (byte_of_range x 1). pose proof (byte_of_range x 2). pose proof (byte_of_range x 3). lia.
Qed.

Lemma size_bytes l : 0 <= l < 2 ^ 61 ->
  store32 (u32 (BE32 (Z.shiftr l 29))) ++ store32 (u32 (BE32 (u64 (Z.shiftl l 3)))) = be_bytes 8 (8 * l).
Proof.
  intros Hl. rewrite !BE32_u32, !store_BE32, (be_bytes_app 4 4). unfold u64.
  rewrite Z.shiftl_mul_pow2, Z.shiftr_div_pow2, Z.mod_small by lia. f_equal; f_equal; [|lia].
  change (256 ^ Z.of_nat 4) with (8 * 2 ^ 29). rewrite Z.div_mul_cancel_l by lia. reflexivity.
Qed.

Lemma firstn_repeat_le {A} (x : A) k j : (k <= j)%nat -> firstn k (repeat x j) = repeat x k.
Proof. revert j. induction k as [|k IH]; intros [|j] H; cbn; [reflexivity | reflexivity | lia | f_equal; apply IH; lia]. Qed.

Lemma pad_bytes l : firstn (Z.to_nat (1 + (119 - Z.of_nat l mod 64) mod 64)) pad = 0x80 :: repeat 0 (Z.to_nat ((55 - Z.of_nat l) mod 64)).
Proof.
  rewrite Zminus_mod_idemp_r. replace (119 - Z.of_nat l) with (55 - Z.of_nat l + 1 * 64) by lia. rewrite Z.mod_add by lia.
  pose proof (Z.mod_pos_bound (55 - Z.of_nat l) 64 ltac:(lia)) as B. rewrite Z2Nat.inj_add by lia.
  unfold pad. change (Z.to_nat 1) with 1%nat. rewrite Nat.add_1_l, firstn_cons, firstn_repeat_le by lia. reflexivity.
Qed.

Lemma length_fips_pad m : (length (fips_pad m) mod 64 = 0)%nat /\ (length (fips_pad m) <= length m + 72)%nat.
Proof.
  unfold fips_pad. rewrite !length_app, repeat_length, length_be_bytes. cbn [length].
  pose proof (Z.mod_pos_bound (55 - Z.of_nat (length m)) 64 ltac:(lia)) as B. split; [|lia].
  apply Nat2Z.inj. rewrite Nat2Z.inj_mod, !Nat2Z.inj_add, Z2Nat.id by lia. Z.to_euclidean_division_equations. lia.
Qed.

Lemma Forall_byte_repeat k : Forall is_byte (repeat 0 k).
Proof. apply Forall_forall. intros x H%repeat_spec. subst x. unfold is_byte. lia. Qed.

Lemma bytes_of_len_flat l : bytes_of_len (4 * length l) (flat_map (be_bytes 4) l).
Proof.
  induction l as [|x l [IHl IHf]]; [split; [reflexivity | constructor]|]. destruct (be_bytes_wf 4 x) as [Hl Hf].
  split; cbn [flat_map length]; [rewrite length_app, Hl, IHl; lia | apply Forall_app; auto].
Qed.

Lemma SHA256_bytes m : bytes_of_len 32 (SHA256 m).
Proof.
  pose proof (bytes_of_len_flat (fips_blocks (length (fips_pad m) / 64) fips_init (fips_pad m))) as H.
  rewrite length_fips_blocks in H by reflexivity. exact H.
Qed.

(** The digest of what was written. *)
Lemma sha_finalize_ok h m : sha_repr h m -> Z.of_nat (length m) < 2 ^ 61 ->
  Returns (secp256k1_sha256_finalize h) (fun '(h', out) => out = SHA256 m /\ length (sha_buf h') = 64%nat).
Proof.
  intros Hh Hl. unfold secp256k1_sha256_finalize. cbv zeta. pose proof Hh as (Hm & _ & _ & _ & _ & ->).
  rewrite size_bytes, pad_bytes by lia. destruct (be_bytes_wf 8 (8 * Z.of_nat (length m))) as [_ Hsz].
  set (zeros := repeat 0 _). assert (length zeros < 64)%nat as Hz
    by (unfold zeros; rewrite repeat_length; pose proof (Z.mod_pos_bound (55 - Z.of_nat (length m)) 64 ltac:(lia)); lia).
  eapply Returns_bind.
  { apply (sha_write_ok _ _ _ Hh); [constructor; [unfold is_byte; lia | apply Forall_byte_repeat]|]. rewrite length_app. cbn [length]. lia. }
  intros h1 H1. eapply Returns_bind.
  { apply (sha_write_ok _ _ _ H1 Hsz). rewrite !length_app, length_be_bytes. cbn [length]. lia. }
  intros h2 (_ & _ & Hs & Hb & _ & _). apply Returns_ret. split; [|exact Hb].
  rewrite <- app_assoc in Hs. change (m ++ (0x80 :: zeros) ++ be_bytes 8 (8 * Z.of_nat (length m))) with (fips_pad m) in Hs.
  unfold SHA256. rewrite <- Hs.
  assert (length (sha_s h2) = 8%nat) as L by (rewrite Hs; apply length_fips_blocks; reflexivity).
  transitivity (flat_map (be_bytes 4) (map (fun i => nth i (sha_s h2) 0) (seq 0 8))); [|rewrite <- (list_as_nth _ 8 L); reflexivity].
  rewrite !flat_map_concat_map, map_map. f_equal.
  apply map_ext. intros i. apply store_BE32.
Qed.

(** ** HMAC *)

Lemma byte_lxor x c : is_byte x -> is_byte c -> is_byte (Z.lxor x c).
Proof. unfold is_byte. intros Hx Hc. pose proof (lxor_ones 8 x c ltac:(lia)) as H. change (Z.ones 8) with 255 in H. lia. Qed.

Lemma Forall_lxor c l : is_byte c -> Forall is_byte l -> Forall is_byte (map (fun x => Z.lxor x c) l).
Proof. intros Hc Hl. apply Forall_map. revert Hl. apply Forall_impl. intros x Hx. apply byte_lxor; assumption. Qed.

(** The key, padded to a block. *)
Definition hmac_key (key : list Z) : list Z :=
  let k0 := if (length key <=? 64)%nat then key else SHA256 key in k0 ++ repeat 0 (64 - length k0).

Definition hmac_repr (h : secp256k1_hmac_sha256_t) (key m : list Z) : Prop :=
  sha_repr (inner h) (map (Z.lxor 0x36) (hmac_key key) ++ m) /\ sha_repr (outer h) (map (Z.lxor 0x5c) (hmac_key key)).

Definition hmac_bufs (h : secp256k1_hmac_sha256_t) : Prop := length (sha_buf (inner h)) = 64%nat /\ length (sha_buf (outer h)) = 64%nat.

Lemma hmac_key_bytes key : Forall is_byte key -> bytes_of_len 64 (hmac_key key).
Proof.
  intros Hk. unfold hmac_key. destruct (Nat.leb_spec (length key) 64) as [H|H].
  - split; [rewrite length_app, repeat_length; lia | apply Forall_app; split; [exact Hk | apply Forall_byte_repeat]].
  - destruct (SHA256_bytes key) as [L F].
    split; [rewrite length_app, repeat_length; lia | apply Forall_app; split; [exact F | apply Forall_byte_repeat]].
Qed.

Lemma sha_whole_ok h m : length (sha_buf h) = 64%nat -> Forall is_byte m -> Z.of_nat (length m) < 2 ^ 64 ->
  Returns (secp256k1_sha256_write (secp256k1_sha256_initialize h) m) (fun h' => sha_repr h' m).
Proof. intros Hb Hm Hl. exact (sha_write_ok _ [] m (sha_initialize_ok h Hb) Hm Hl). Qed.

Lemma hmac_initialize_ok h sha key : hmac_bufs h -> length (sha_buf sha) = 64%nat ->
  Forall is_byte key -> Z.of_nat (length key) < 2 ^ 61 ->
  Returns (secp256k1_hmac_sha256_initialize h sha key) (fun h' => hmac_repr h' key []).
Proof.
  intros [Hi Ho] Hs Hk Hl. unfold secp256k1_hmac_sha256_initialize. destruct (hmac_key_bytes key Hk) as [L64 F64].
  apply Returns_bind with (P := fun rkey => rkey = hmac_key key).
  { unfold hmac_key. destruct (length key <=? 64)%nat; [reflexivity|].
    eapply Returns_bind; [apply (sha_whole_ok sha key Hs Hk); lia|]. intros s Hsr.
    eapply Returns_bind; [apply (sha_finalize_ok s key Hsr Hl)|]. intros [s' out] [-> _].
    apply Returns_ret. rewrite (proj1 (SHA256_bytes key)). reflexivity. }
  intros rkey ->. cbv zeta.
  eapply Returns_bind; [apply sha_whole_ok; [exact Ho | apply Forall_lxor; [unfold is_byte; lia | exact F64] | rewrite length_map; lia]|].
  intros o Hor. rewrite map_map. eapply Returns_bind.
  { apply sha_whole_ok; [exact Hi | | rewrite length_map; lia].
    apply Forall_map. revert F64. apply Forall_impl. intros x Hx. apply byte_lxor; [apply byte_lxor; [exact Hx|]|]; unfold is_byte; cbn; lia. }
  intros i Hir. apply Returns_ret. split; cbn [inner outer].
  - rewrite app_nil_r. erewrite map_ext; [exact Hir|]. intros x. cbn beta. rewrite Z.lxor_assoc. rewrite Z.lxor_comm. reflexivity.
  - erewrite map_ext; [exact Hor|]. intros x. apply Z.lxor_comm.
Qed.

Lemma hmac_write_ok h key m data : hmac_repr h key m -> Forall is_byte data -> Z.of_nat (64 + length (m ++ data)) < 2 ^ 64 -> Forall is_byte key ->
  Returns (secp256k1_hmac_sha256_write h data) (fun h' => hmac_repr h' key (m ++ data)).
Proof.
  intros [Hi Ho] Hd Hl Hk. unfold secp256k1_hmac_sha256_write. eapply Returns_bind.
  { apply (sha_write_ok _ _ _ Hi Hd). rewrite <- app_assoc, length_app, length_map, (proj1 (hmac_key_bytes key Hk)). exact Hl. }
  intros i Hi'. apply Returns_ret. split; cbn [inner outer]; [rewrite app_assoc; exact Hi' | exact Ho].
Qed.

Lemma HMAC_key key m : HMAC key m = SHA256 (map (Z.lxor 0x5c) (hmac_key key) ++ SHA256 (map (Z.lxor 0x36) (hmac_key key) ++ m)).
Proof. reflexivity. Qed.

Lemma HMAC_bytes key m : bytes_of_len 32 (HMAC key m).
Proof. apply SHA256_bytes. Qed.

Lemma hmac_finalize_ok h key m : hmac_repr h key m -> Z.of_nat (64 + length m) < 2 ^ 61 -> Forall is_byte key ->
  Returns (secp256k1_hmac_sha256_finalize h) (fun '(h', out) => out = HMAC key m /\ hmac_bufs h').
Proof.
  intros [Hi Ho] Hl Hk. unfold secp256k1_hmac_sha256_finalize. pose proof (proj1 (hmac_key_bytes key Hk)) as L.
  eapply Returns_bind; [apply (sha_finalize_ok _ _ Hi); rewrite length_app, length_map, L; exact Hl|].
  intros [i temp] [-> Hbi]. destruct (SHA256_bytes (map (Z.lxor 0x36) (hmac_key key) ++ m)) as [Lt Ft].
  eapply Returns_bind; [apply (sha_write_ok _ _ _ Ho Ft); rewrite length_app, length_map, L, Lt; lia|].
  intros o Ho'. eapply Returns_bind; [apply (sha_finalize_ok _ _ Ho'); rewrite length_app, length_map, L, Lt; lia|].
  intros [o' out] [-> Hbo]. apply Returns_ret. split; [apply HMAC_key | split; assumption].
Qed.

(** ** The generator *)

Lemma hmac_writes_ok h key m data : Forall is_byte key -> Forall (Forall is_byte) data -> Z.of_nat (64 + length (m ++ concat data)) < 2 ^ 61 ->
  hmac_repr h key m ->
  Returns (fold_left (fun h d => bind h (fun h => secp256k1_hmac_sha256_write h d)) data (ret h)) (fun h' => hmac_repr h' key (m ++ concat data)).
Proof.
  intros Hk. revert h m. induction data as [|d data IH]; intros h m Hd Hl Hr; cbn [concat fold_left].
  - rewrite app_nil_r. exact Hr.
  - inversion Hd as [|? ? Hd1 Hd2]; subst. cbn [concat] in Hl. rewrite app_assoc in *.
    pose proof (hmac_write_ok h key m d Hr Hd1 ltac:(rewrite !length_app in *; lia) Hk) as Hw.
    apply Returns_exists in Hw. destruct Hw as (h' & E & Hr'). cbn [bind ret]. rewrite E. apply IH; assumption.
Qed.

Section GeneratorSpec.
Context (hmac : secp256k1_hmac_sha256_t) (sha256 : secp256k1_sha256_t) (Hhmac : hmac_bufs hmac) (Hsha : length (sha_buf sha256) = 64%nat).

Lemma hmac_sha256_ok h key data : hmac_bufs h -> bytes_of_len 32 key -> Forall (Forall is_byte) data ->
  Z.of_nat (64 + length (concat data)) < 2 ^ 61 ->
  Returns (hmac_sha256 sha256 h key data) (fun '(h', out) => out = HMAC key (concat data) /\ hmac_bufs h').
Proof.
  intros Hh [Lk Fk] Hd Hl. unfold hmac_sha256.
  eapply Returns_bind; [apply hmac_initialize_ok; [exact Hh | exact Hsha | exact Fk | lia]|]. intros h1 H1.
  eapply Returns_bind; [apply (hmac_writes_ok h1 key [] data Fk Hd Hl H1)|]. intros h2 H2.
  apply (hmac_finalize_ok h2 key (concat data) H2 Hl Fk).
Qed.

Lemma Forall_one : Forall is_byte [0x01].
Proof. repeat constructor; discriminate. Qed.

Lemma Forall_zero : Forall is_byte [0x00].
Proof. repeat constructor; discriminate. Qed.

Definition rng_ok (rng : secp256k1_rfc6979_hmac_sha256_t) (K V : list Z) : Prop :=
  rng_k rng = K /\ rng_v rng = V /\ bytes_of_len 32 K /\ bytes_of_len 32 V.

(** One keyed hash of the generator; its data are bytes. *)
Ltac rng_hmac H :=
  eapply Returns_bind;
  [ apply hmac_sha256_ok; [exact H | first [assumption | apply HMAC_bytes] |
      repeat (apply Forall_cons; [first [assumption | exact Forall_one | exact Forall_zero | exact (proj2 (HMAC_bytes _ _))]|]); apply Forall_nil |
      cbn [concat]; rewrite ?length_app, ?(proj1 (HMAC_bytes _ _)); cbn [length]; lia]
  | let h := fresh "h" in let x := fresh "x" in let E := fresh "E" in intros [h x] [E H']; cbn [concat] in E; rewrite ?app_nil_r in E; subst x; clear H; rename H' into H ].

Lemma rfc6979_initialize_ok key : Forall is_byte key -> Z.of_nat (length key) < 2 ^ 60 ->
  Returns (secp256k1_rfc6979_hmac_sha256_initialize hmac sha256 key) (fun rng =>
    rng_retry rng = 0 /\ let '(K, V) := RFC6979_seed key in rng_ok rng K V).
Proof.
  intros Hk Hl. unfold secp256k1_rfc6979_hmac_sha256_initialize. cbv zeta. pose proof Hhmac as H.
  assert (bytes_of_len 32 (repeat 0x01 32)) as Hv by (apply bytes_of_len_test; reflexivity).
  assert (bytes_of_len 32 (repeat 0x00 32)) as Hk0 by (apply bytes_of_len_test; reflexivity). pose proof (proj2 Hv). pose proof (proj1 Hv).
  rng_hmac H. rng_hmac H. rng_hmac H. rng_hmac H. apply Returns_ret. split; [reflexivity|]. repeat split; try apply HMAC_bytes.
Qed.

Lemma rfc6979_loop_ok fuel K V outlen : bytes_of_len 32 K -> bytes_of_len 32 V -> (outlen <= fuel)%nat -> Z.of_nat outlen < 2 ^ 31 ->
  Returns (rfc6979_loop hmac sha256 fuel K V outlen) (fun '(v, out) =>
    let '(V', blocks) := RFC6979_blocks ((outlen + 31) / 32) K V in v = V' /\ out = firstn outlen blocks /\ bytes_of_len 32 V').
Proof.
  intros HK. revert V outlen. induction fuel as [|fuel IH]; intros V outlen HV Hf Hl.
  - assert (outlen = O) as -> by lia. cbn. auto.
  - cbn [rfc6979_loop]. destruct (Nat.eqb_spec outlen 0) as [->|Hne]; [cbn; auto|]. cbv zeta.
    pose proof Hhmac as H. pose proof (proj2 HV). pose proof (proj1 HV). rng_hmac H.
    assert (i32 (Z.of_nat outlen) = Z.of_nat outlen) as -> by (unfold i32; rewrite Z.mod_small; lia).
    set (now := if 32 <? Z.of_nat outlen then 32 else Z.of_nat outlen).
    assert (0 <= now /\ Z.to_nat now = Nat.min 32 outlen) as [Hn0 ->] by (unfold now; destruct (Z.ltb_spec 32 (Z.of_nat outlen)); lia).
    destruct (Z.ltb_spec now 0) as [|_]; [lia|]. clear now Hn0.
    eapply Returns_bind; [apply IH; [apply HMAC_bytes | lia | lia]|]. intros [v out] Hr.
    replace ((outlen + 31) / 32)%nat with (S ((outlen - Nat.min 32 outlen + 31) / 32)).
    2: { destruct (Nat.le_gt_cases outlen 32) as [Hle|Hgt].
         - replace (outlen - Nat.min 32 outlen + 31)%nat with 31%nat by lia. change (31 / 32)%nat with 0%nat.
           replace (outlen + 31)%nat with (outlen - 1 + 1 * 32)%nat by lia. rewrite Nat.div_add, Nat.div_small by lia. reflexivity.
         - replace (outlen + 31)%nat with (outlen - Nat.min 32 outlen + 31 + 1 * 32)%nat by lia. rewrite Nat.div_add by lia. lia. }
    cbn [RFC6979_blocks]. destruct (RFC6979_blocks _ K (HMAC K V)) as [V' blocks]. destruct Hr as (-> & -> & HV').
    apply Returns_ret. split; [reflexivity|]. split; [|exact HV']. pose proof (proj1 (HMAC_bytes K V)) as L.
    rewrite firstn_app, L. destruct (Nat.le_gt_cases outlen 32).
    + replace (Nat.min 32 outlen) with outlen by lia. rewrite Nat.sub_diag. replace (outlen - 32)%nat with 0%nat by lia. reflexivity.
    + replace (Nat.min 32 outlen) with 32%nat by lia. rewrite !firstn_all2 with (l := HMAC K V) by lia. reflexivity.
Qed.

Lemma rfc6979_generate_ok rng K V outlen : rng_ok rng K V -> Z.of_nat outlen < 2 ^ 31 ->
  Returns (secp256k1_rfc6979_hmac_sha256_generate hmac sha256 rng outlen) (fun '(rng', out) =>
    let '(K', V') := if rng_retry rng =? 0 then (K, V) else RFC6979_next K V in
    let '(V'', blocks) := RFC6979_blocks ((outlen + 31) / 32) K' V' in
    out = firstn outlen blocks /\ rng_retry rng' = 1 /\ rng_ok rng' K' V'').
Proof.
  intros (Ek & Ev & HK & HV) Hl. unfold secp256k1_rfc6979_hmac_sha256_generate. rewrite Ek, Ev.
  apply Returns_bind with (P := fun kv => kv = (if rng_retry rng =? 0 then (K, V) else RFC6979_next K V) /\ bytes_of_len 32 (fst kv) /\ bytes_of_len 32 (snd kv)).
  - destruct (rng_retry rng =? 0); [repeat split; apply HK || apply HV|]. pose proof Hhmac as H. pose proof (proj2 HV). pose proof (proj1 HV).
    rng_hmac H. rng_hmac H. apply Returns_ret. repeat split; apply HMAC_bytes.
  - intros [K' V'] (E & HK' & HV'). rewrite <- E. cbn [fst snd] in *.
    eapply Returns_bind; [apply (rfc6979_loop_ok outlen K' V' outlen HK' HV' (le_n _) Hl)|]. intros [v out] Hr.
    destruct (RFC6979_blocks _ K' V') as [V'' blocks]. destruct Hr as (-> & -> & HV''). apply Returns_ret.
    repeat split; try reflexivity; apply HK' || apply HV''.
Qed.

(** The generator before output [i] of [len] bytes. *)
Definition rng_at (rng : secp256k1_rfc6979_hmac_sha256_t) (key : list Z) (len i : nat) : Prop :=
  (let '(K, V) := RFC6979_state key len i in rng_ok rng K V) /\ (rng_retry rng =? 0) = (i =? 0)%nat.

Lemma rng_at_start key len : Forall is_byte key -> Z.of_nat (length key) < 2 ^ 60 ->
  Returns (secp256k1_rfc6979_hmac_sha256_initialize hmac sha256 key) (fun rng => rng_at rng key len 0).
Proof.
  intros Hk Hl. eapply Returns_mono; [apply (rfc6979_initialize_ok key Hk Hl)|]. intros rng [E Hr]. split; [exact Hr|]. rewrite E. reflexivity.
Qed.

Lemma rng_at_read rng key len i : rng_at rng key len i -> Z.of_nat len < 2 ^ 31 ->
  Returns (secp256k1_rfc6979_hmac_sha256_generate hmac sha256 rng len) (fun '(rng', out) => out = RFC6979_read key len i /\ rng_at rng' key len (S i)).
Proof.
  intros [Hr Hf] Hl. unfold rng_at, RFC6979_read. cbn [RFC6979_state]. destruct (RFC6979_state key len i) as [K V].
  eapply Returns_mono; [apply (rfc6979_generate_ok rng K V len Hr Hl)|]. intros [rng' out]. rewrite Hf. unfold RFC6979_output. cbn [fst snd].
  destruct (if (i =? 0)%nat then (K, V) else RFC6979_next K V) as [K' V']. destruct (RFC6979_blocks _ K' V') as [V'' blocks].
  intros (-> & E & Hr'). cbn [fst snd]. rewrite E. repeat split; try reflexivity; apply Hr'.
Qed.

End GeneratorSpec.

Lemma RFC6979_read_bytes key i : bytes_of_len 32 (RFC6979_read key 32 i).
Proof.
  unfold RFC6979_read, RFC6979_output. destruct (if (i =? 0)%nat then _ else _) as [K V]. change ((32 + 31) / 32)%nat with 1%nat.
  cbn [RFC6979_blocks snd]. rewrite app_nil_r. pose proof (HMAC_bytes K V) as [Lh Fh]. rewrite firstn_all2 by lia. split; assumption.
Qed.
