(* ===== verification/Nums.v ===== *)
(** * The point of the comb without a known logarithm

    The table of [ecmult_gen_impl.h] adds multiples of a point made from the words
    "The scalar for this x is unknown" to the multiples of the generator.  No entry
    of the table is the point at infinity: computed here, since it is a fact about
    this point. *)

From Stdlib Require Import ZArith Lia List Bool.
From S2P Require Import Prelude Modulus Curve CurveGroup CurveOrder.
Import ListNotations.

#[local] Open Scope Z_scope.

(** ** The points, by their affine coordinates *)

(** The point with the words as abscissa and the even ordinate. *)
Definition z_words : Z * Z :=
  (0x546865207363616C617220666F722074686973207820697320756E6B6E6F776E,
   0x28EBB7E4E1F6A12E1C0FAAF47E09C33305D50890856930E67E5299348FF7F20E).

(** Its sum with the generator. *)
Definition z_nums : Z * Z :=
  (0x3A9ED3736EED3EEC9AEB5AC021B5465256817B1F08DE6CD0FBCEE548BA044BB5,
   0x7BCC5928BDC9C023DFC663B89E4F6969AB7517988E600EC1D242010C45C7974A).

(** [2^63 - 1] times that point. *)
Definition z_last : Z * Z :=
  (0x53D772B6B18211F71478E9D33A0C061E2D23235844177867AF91508DE014F22D,
   0x4D17A5F87E9F2CE3C35CD26345FDA6FBE415FC972614EC2175070AF98CEBCD57).

(** [2^252] times the generator. *)
Definition z_top : Z * Z :=
  (0x08EA9666139527A8C1DD94CE4F071FD23C8B350C5A4BB33748C4BA111FACCAE0,
   0x620EFABBC8EE2782E24E7C0CFB95C5D735B783BE9CF0F8E955AF34A30E62B945).

(** The sum divided by [o], for the odd [o] below 16. *)
Definition z_parts : list (Z * (Z * Z)) :=
  [(1, z_nums);
   (3, (0x4284D163D3EC4CCC17121014EA40E8AEE7F8C530B1092ED0BD9614C474659E5C,
     0xBB913E80B02A857A6382307ED1A9FFC91DEF60E7CAF8552A5243A38A2539ED3F));
   (5, (0xDFA5AA4A3FC50AB705CD617EB63F62D98CBD315D23F6842868B0558178614996,
     0x753E8D87FBEC125BCB1323DF11CFF3384E2BB6D79277AAA745B0AD04CCEF7580));
   (7, (0x049F6439B496E17AFEBEA767C9EA825F6CBB47E7E7823E8681290AB215551ED9,
     0x35B4A9B3EEEF80CC635D27514D04E0CFE5ECAD43A522B1EA54E71380A4AE08BD));
   (9, (0xFEB5A68ABC6EA4E9E8D6C14C74B07F80B3C59F9952DDB8AA4FB8232ED22C6775,
     0x77FB50E8F4F299DD99B71AB94D84E6A7451163EBBE66C1AAFBA8ED81052E56A8));
   (11, (0xDB0824406F127431577F73E11D6F4B9F90E5D63AE05E42BCE786C8B4C0D1B225,
     0xE0AC1B2A97820EA93AC3D2A2964AB034647155FC715D309709D84D7CB294869B));
   (13, (0x3B2DA54CAA45F2CBCC68EF8A2323C94FA86AD3BCB15C4A08E4AFCCDB055B35E6,
     0x97E3ED563B08376A14CC255973DCADB3A489DCCC99BAE2335CF59973E2FD8394));
   (15, (0x0D53415C64640DA63D9F4562C2E52613E2EFCF580F60556F200A58F99F3B4681,
     0xC7FA83C206341D869BF3D54EB8CC54C37B60E620D93AEFCB96B6BDDC6B5C8A8E))].

(** The point at the start of the table. *)
Definition NUMS : point := zpoint z_nums.

(** The factor of that point in row [j]. *)
Definition nums_coef (j : Z) : Z := if j =? 63 then 1 - 2 ^ 63 else 2 ^ j.

(** Entry [i] of row [j], for a table that starts at [N]. *)
Definition prec_point (N : point) (j i : Z) : point := padd (pmul (nums_coef j) N) (pmul (i * 16 ^ j) G).

(** ** Computation *)

(** The abscissa is none of [xs]. *)
Definition apart (a : Z * Z * Z) (xs : list Z) : bool :=
  let '(X, _, Z) := a in
  let ZZ := red (Z.square Z) in
  forallb (fun x => negb ((red (x * ZZ) - X) mod p =? 0)) xs.

(** [k] doublings; the abscissas before each are apart from [xs]. *)
Fixpoint jdoubles (k : nat) (xs : list Z) (ok : bool) (a : Z * Z * Z) : bool * (Z * Z * Z) :=
  match k with
  | O => (ok, a)
  | S k' => jdoubles k' xs (ok && apart a xs) (jdouble a)
  end.

(** [k] additions of [q]; the abscissas after each are apart from [xs]. *)
Fixpoint jadds (k : nat) (q : Z * Z) (xs : list Z) (ok : bool) (a : Z * Z * Z) : bool :=
  match k with
  | O => ok
  | S k' => let '(ok', a) := jadd q a in jadds k' q xs (ok && ok' && apart a xs) a
  end.

(** The bits of [o] after the first. *)
Definition part_bits (o : Z) : list bool :=
  match o with
  | 1 => [] | 3 => [true] | 5 => [false; true] | 7 => [true; true]
  | 9 => [false; false; true] | 11 => [false; true; true] | 13 => [true; false; true] | _ => [true; true; true]
  end.

Definition on_curve_z (q : Z * Z) : bool := (snd q * snd q - fst q * fst q * fst q - 7) mod p =? 0.

Definition points_check (words nums : Z * Z) (parts : list (Z * (Z * Z))) : bool :=
  on_curve_z words && jis nums (jadd zG (jaffine words)) &&
  forallb (fun e => on_curve_z (snd e) && jis nums (jchain (snd e) (part_bits (fst e)) true (jaffine (snd e))) &&
                    (chain_value 1 (part_bits (fst e)) 1 =? fst e)) parts.

(** No power of two below [2^k] times the generator is a part, up to the sign, and
    the power [2^(k + k')] is [top]. *)
Definition powers_check (k k' : nat) (parts : list (Z * (Z * Z))) (top : Z * Z) : bool :=
  let r := jdoubles k (map (fun e => fst (snd e)) parts) true (jaffine zG) in
  fst r && jis top (jdoubles k' [] true (snd r)).

Definition last_check (k : nat) (nums last : Z * Z) : bool :=
  jis last (jadd (zopp nums) (snd (jdoubles k [] true (jaffine nums)))).

(** No multiple of [top] by 1, 2, ..., [2 + k] is [last], up to the sign. *)
Definition top_check (k : nat) (top last : Z * Z) : bool :=
  apart (jaffine top) [fst last] && apart (jdouble (jaffine top)) [fst last] && jadds k top [fst last] true (jdouble (jaffine top)).

Lemma points_computed : points_check z_words z_nums z_parts = true.
Proof. vm_cast_no_check (eq_refl true). Qed.

Lemma powers_computed : powers_check 190 62 z_parts z_top = true.
Proof. vm_cast_no_check (eq_refl true). Qed.

Lemma last_computed : last_check 63 z_nums z_last = true.
Proof. vm_cast_no_check (eq_refl true). Qed.

Lemma top_computed : top_check 13 z_top z_last = true.
Proof. vm_cast_no_check (eq_refl true). Qed.

(** ** What the computation shows *)

Lemma on_curve_z_ok q : on_curve_z q = true -> on_curve (zpoint q).
Proof.
  unfold on_curve_z. rewrite Z.eqb_eq. intros H%toFp_zero. revert H. push_toFp. intros H. cbn [on_curve_at zpoint].
  apply Fp_sub_zero in H. rewrite <- H. ring.
Qed.

Lemma apart_ok a xs P x y : apart a xs = true -> jrep a P -> In x xs -> P <> Affine (toFp x) y.
Proof.
  destruct a as [[X Y] Z]. unfold apart. cbn [jrep]. intros H [HZ ->] Hin E. rewrite forallb_forall in H.
  specialize (H x Hin). apply toFp_mod_nonzero in H. apply H. revert E. repeat (progress push_toFp). unfold jacobian. intros E.
  assert (toFp X * Zmod.inv (toFp Z * toFp Z) = toFp x)%Zmod as <- by congruence. field. exact HZ.
Qed.

Lemma jdoubles_ok xs P : on_curve P -> forall k ok a j, 0 <= j -> jrep a (pmul (2 ^ j) P) ->
  jrep (snd (jdoubles k xs ok a)) (pmul (2 ^ (j + Z.of_nat k)) P) /\
  (fst (jdoubles k xs ok a) = true -> ok = true /\
    forall i x y, j <= i < j + Z.of_nat k -> In x xs -> pmul (2 ^ i) P <> Affine (toFp x) y).
Proof.
  intros HP. induction k as [|k IH]; intros ok a j Hj Ha; cbn [jdoubles].
  - cbn [fst snd Z.of_nat]. rewrite Z.add_0_r. split; [exact Ha|]. intros ->. split; [reflexivity|]. intros i x y Hi. lia.
  - assert (jrep (jdouble a) (pmul (2 ^ (j + 1)) P)) as Hd.
    { rewrite Z.pow_add_r, Z.mul_comm by lia. rewrite pmul_double by exact HP. apply jdouble_ok; auto with curve. }
    destruct (IH (ok && apart a xs) (jdouble a) (j + 1) ltac:(lia) Hd) as [Hr Hf].
    replace (j + Z.of_nat (S k)) with (j + 1 + Z.of_nat k) by lia. split; [exact Hr|].
    intros H. destruct (Hf H) as [Hok Hi]. apply andb_true_iff in Hok as [-> Hap]. split; [reflexivity|].
    intros i x y Hij Hx. destruct (Z.eq_dec i j) as [->|Hne]; [exact (apart_ok a xs _ x y Hap Ha Hx) | apply Hi; [lia | exact Hx]].
Qed.

Lemma jadds_flag k q xs ok a : jadds k q xs ok a = true -> ok = true.
Proof.
  revert ok a. induction k as [|k IH]; intros ok a; cbn [jadds]; [auto|].
  destruct (jadd q a) as [ok' a']. intros H%IH. apply andb_true_iff in H as [H _]. apply andb_true_iff in H. apply H.
Qed.

Lemma jadds_ok q xs P : on_curve P -> zpoint q = P -> forall k ok a j, jrep a (pmul j P) -> jadds k q xs ok a = true ->
  ok = true /\ forall i x y, j < i <= j + Z.of_nat k -> In x xs -> pmul i P <> Affine (toFp x) y.
Proof.
  intros HP Hq. induction k as [|k IH]; intros ok a j Ha; cbn [jadds].
  - intros ->. split; [reflexivity|]. intros i x y Hi. lia.
  - pose proof (jadd_ok q _ _ Ha) as Hs. destruct (jadd q a) as [ok' a']. cbn [fst snd] in Hs. intros H.
    assert (ok' = true -> jrep a' (pmul (j + 1) P)) as Hr by (rewrite Hq in Hs; rewrite pmul_add by exact HP; exact Hs).
    pose proof (jadds_flag _ _ _ _ _ H) as Hok.
    rewrite !andb_true_iff in Hok. destruct Hok as [[-> Hok'] Hap].
    destruct (IH _ a' (j + 1) (Hr Hok') H) as [_ Hi]. split; [reflexivity|].
    intros i x y Hij Hx. destruct (Z.eq_dec i (j + 1)) as [->|Hne]; [exact (apart_ok a' xs _ x y Hap (Hr Hok') Hx) | apply Hi; [lia | exact Hx]].
Qed.

(** A factor prime to [n] does not make a point infinite. *)
Lemma pmul_cancel k P : on_curve P -> 0 < k < n -> pmul k P = Infinity -> P = Infinity.
Proof. intros HP Hk E. destruct (point_eq_dec P Infinity) as [H|H]; [exact H|]. exfalso. exact (pmul_finite k P HP H Hk E). Qed.

(** The points are variables here, so that no conversion evaluates them. *)
Section Entries.
Context (words nums last top : Z * Z) (parts : list (Z * (Z * Z))) (k1 k2 k3 k4 : nat).
Context (E1 : Z.of_nat k1 = 190) (E2 : Z.of_nat k2 = 62) (E3 : Z.of_nat k3 = 63) (E4 : Z.of_nat k4 = 13).
Context (Hpoints : points_check words nums parts = true) (Hpowers : powers_check k1 k2 parts top = true).
Context (Hlast : last_check k3 nums last = true) (Htop : top_check k4 top last = true).
Context (Hparts : forall i, 1 <= i <= 15 -> exists k e, i = fst e * 2 ^ k /\ 0 <= k <= 3 /\ In e parts /\ 1 <= fst e <= 15).

Lemma points_facts : on_curve (zpoint words) /\ padd (zpoint words) G = zpoint nums /\
  forall e, In e parts -> on_curve (zpoint (snd e)) /\ pmul (fst e) (zpoint (snd e)) = zpoint nums.
Proof.
  pose proof Hpoints as H. unfold points_check in H. rewrite !andb_true_iff, forallb_forall in H. destruct H as [[H1 H2] H3].
  split; [exact (on_curve_z_ok _ H1)|]. split; [rewrite <- zG_point; exact (jis_ok _ _ _ H2 (jadd_ok zG _ _ (jaffine_ok words)))|].
  intros e He. specialize (H3 e He). rewrite !andb_true_iff in H3. destruct H3 as [[Hc Hj] Hv]. apply on_curve_z_ok in Hc. split; [exact Hc|].
  apply Z.eqb_eq in Hv. rewrite <- Hv at 1. apply (jis_ok _ _ _ Hj). apply jchain_ok; [exact Hc | rewrite pmul_1 by exact Hc; reflexivity|].
  rewrite pmul_1 by exact Hc. apply jaffine_ok.
Qed.

Lemma nums_on_curve : on_curve (zpoint nums).
Proof. destruct points_facts as (H & <- & _). auto with curve. Qed.

Lemma generator_start : jrep (jaffine zG) (pmul (2 ^ 0) G).
Proof. change (2 ^ 0) with 1. rewrite pmul_1, <- zG_point. apply jaffine_ok. Qed.

Lemma powers_facts : (forall i e y, 0 <= i < 190 -> In e parts -> pmul (2 ^ i) G <> Affine (toFp (fst (snd e))) y) /\ pmul (2 ^ (Z.of_nat k1 + Z.of_nat k2)) G = zpoint top.
Proof.
  pose proof Hpowers as H. unfold powers_check in H. cbv zeta in H. apply andb_true_iff in H as [H1 H2].
  set (xs := map (fun e => fst (snd e)) parts) in *.
  destruct (jdoubles_ok xs G ltac:(auto with curve) k1 true (jaffine zG) 0 (Z.le_refl 0) generator_start) as [Hr Hf]. split.
  - intros i e y Hi He. destruct (Hf H1) as [_ H]. apply H; [lia|]. apply in_map_iff. exists e. auto.
  - apply (jis_ok _ _ _ H2). intros _.
    exact (proj1 (jdoubles_ok [] G ltac:(auto with curve) k2 true _ (0 + Z.of_nat k1) ltac:(lia) Hr)).
Qed.

Lemma last_fact : pmul (2 ^ 63 - 1) (zpoint nums) = zpoint last.
Proof.
  pose proof nums_on_curve as HN. apply (jis_ok _ _ _ Hlast). intros Hok.
  rewrite pmul_sub, pmul_1, <- zopp_point by exact HN. apply jadd_ok; [|exact Hok].
  replace 63 with (0 + Z.of_nat k3) by lia.
  refine (proj1 (jdoubles_ok [] (zpoint nums) HN k3 true (jaffine nums) 0 (Z.le_refl 0) _)). change (2 ^ 0) with 1. rewrite pmul_1. apply jaffine_ok.
Qed.

Lemma top_facts i y : 1 <= i <= 15 -> pmul i (zpoint top) <> Affine (toFp (fst last)) y.
Proof.
  assert (on_curve (zpoint top)) as HT by (rewrite <- (proj2 powers_facts); auto with curve).
  pose proof Htop as H. unfold top_check in H. rewrite !andb_true_iff in H. destruct H as [[H1 H2] H3]. pose proof (jaffine_ok top) as R1.
  assert (jrep (jdouble (jaffine top)) (pmul 2 (zpoint top))) as R2.
  { change 2 with (2 * 1). rewrite pmul_double, pmul_1 by exact HT. apply jdouble_ok; assumption. }
  destruct (jadds_ok top [fst last] _ HT eq_refl k4 true _ 2 R2 H3) as [_ Ha]. intros Hi.
  assert (i = 1 \/ i = 2 \/ 2 < i <= 2 + Z.of_nat k4) as [->|[->|Hi']] by lia; [| |apply Ha; [exact Hi' | left; reflexivity]].
  - rewrite pmul_1. apply (apart_ok _ _ _ _ y H1 R1). left. reflexivity.
  - apply (apart_ok _ _ _ _ y H2 R2). left. reflexivity.
Qed.

Lemma entry_first j i : 0 <= j < 63 -> 0 <= i <= 15 -> padd (zpoint nums) (pmul (i * 8 ^ j) G) <> Infinity.
Proof.
  intros Hj Hi E. pose proof nums_on_curve as HN. destruct (Z.eq_dec i 0) as [->|Hnz]; [rewrite padd_infinity_r in E; discriminate E|].
  destruct (Hparts i ltac:(lia)) as (k & e & -> & Hk & He & Ho). destruct points_facts as (_ & _ & Hp). destruct (Hp e He) as [Hc Ee].
  replace (fst e * 2 ^ k * 8 ^ j) with (fst e * 2 ^ (k + 3 * j)) in E
    by (change 8 with (2 ^ 3); rewrite <- Z.pow_mul_r, <- Z.mul_assoc, <- Z.pow_add_r by lia; reflexivity).
  rewrite pmul_mul, <- Ee, <- pmul_padd in E by auto with curve.
  apply pmul_cancel in E; [|auto with curve|unfold n; lia]. apply popp_unique in E; [|assumption|auto with curve].
  apply (proj1 powers_facts (k + 3 * j) e (- toFp (snd (snd e)))%Zmod); [lia | exact He | exact E].
Qed.

Lemma entry_finite j i : 0 <= j < 64 -> 0 <= i < 16 -> prec_point (zpoint nums) j i <> Infinity.
Proof.
  intros Hj Hi E. pose proof nums_on_curve as HN. unfold prec_point, nums_coef in E. destruct (Z.eqb_spec j 63) as [->|Hne].
  - rewrite padd_comm in E by auto with curve. apply popp_unique in E; [|auto with curve..].
    assert (pmul (i * 16 ^ 63) G = zpoint last) as E'.
    { rewrite <- (popp_involutive (pmul (i * 16 ^ 63) G)), <- E, <- pmul_opp, <- last_fact by exact HN. f_equal. } destruct (Z.eq_dec i 0) as [->|Hnz]; [discriminate E'|].
    replace (16 ^ 63) with (2 ^ (Z.of_nat k1 + Z.of_nat k2)) in E' by (rewrite E1, E2; reflexivity).
    rewrite pmul_mul in E' by auto with curve. rewrite (proj2 powers_facts) in E'.
    exact (top_facts i _ ltac:(lia) E').
  - replace (i * 16 ^ j) with (2 ^ j * (i * 8 ^ j)) in E by (change 16 with (2 * 8); rewrite Z.pow_mul_l; ring).
    rewrite pmul_mul, <- pmul_padd in E by auto with curve.
    apply pmul_cancel in E; [|auto with curve|].
    + exact (entry_first j i ltac:(lia) ltac:(lia) E).
    + split; [apply Z.pow_pos_nonneg; lia|]. apply Z.lt_trans with (2 ^ 63); [apply Z.pow_lt_mono_r; lia | reflexivity].
Qed.
End Entries.

Lemma odd_part i : 1 <= i <= 15 -> exists k e, i = fst e * 2 ^ k /\ 0 <= k <= 3 /\ In e z_parts /\ 1 <= fst e <= 15.
Proof.
  intros Hi. assert (exists k m, i = fst (nth m z_parts (0, zG)) * 2 ^ k /\ 0 <= k <= 3 /\ (m < 8)%nat /\ 1 <= fst (nth m z_parts (0, zG)) <= 15) as (k & m & E & Hk & Hm & Ho).
  { assert (i = 1 \/ i = 2 \/ i = 3 \/ i = 4 \/ i = 5 \/ i = 6 \/ i = 7 \/ i = 8 \/ i = 9 \/ i = 10 \/ i = 11 \/ i = 12 \/ i = 13 \/ i = 14 \/ i = 15) as C by lia.
    repeat (destruct C as [->|C]);
      [exists 0, 0%nat|exists 1, 0%nat|exists 0, 1%nat|exists 2, 0%nat|exists 0, 2%nat|exists 1, 1%nat|exists 0, 3%nat|exists 3, 0%nat
      |exists 0, 4%nat|exists 1, 2%nat|exists 0, 5%nat|exists 2, 1%nat|exists 0, 6%nat|exists 1, 3%nat|subst i; exists 0, 7%nat];
      cbn [nth z_parts fst]; lia. }
  exists k, (nth m z_parts (0, zG)). repeat split; try assumption; try lia. apply nth_In. exact Hm.
Qed.

Theorem NUMS_on_curve : on_curve NUMS.
Proof. exact (nums_on_curve _ _ _ points_computed). Qed.

Theorem words_sum : on_curve (zpoint z_words) /\ padd (zpoint z_words) G = NUMS.
Proof. destruct (points_facts _ _ _ points_computed) as (H1 & H2 & _). exact (conj H1 H2). Qed.

(** No entry of the table is the point at infinity. *)
Theorem prec_point_finite j i : 0 <= j < 64 -> 0 <= i < 16 -> prec_point NUMS j i <> Infinity.
Proof.
  exact (entry_finite z_words z_nums z_last z_top z_parts 190 62 63 13 eq_refl eq_refl eq_refl eq_refl
    points_computed powers_computed last_computed top_computed odd_part j i).
Qed.
