(* ===== verification/Ecmult.v ===== *)
(** * Multiplication of points: [ecmult.h] and [ecmult_impl.h]

    Tables of odd multiples, the width-w non-adjacent form of a scalar and the sum
    [na * A + ng * G] by interleaving.  [USE_ENDOMORPHISM] is a parameter, so that a
    function with conditional code is both functions that the preprocessor makes of
    it.  An array that the code fills is a list of the length of the array; what
    objects hold before they are written is a parameter ([Memory]).  Allocation
    succeeds: the callback of a failed one does not return. *)

From Stdlib Require Import ZArith Lia List Bool.
From S2P Require Import Prelude Modulus Bytes Field FieldImpl Curve Group Scalar ScalarImpl.
Import ListNotations.

#[local] Open Scope Z_scope.
#[local] Open Scope checked_scope.

(** What the configuration defines. *)
Class Config : Type := { USE_ENDOMORPHISM : bool }.

(** A build of the multiplications: its configuration, and what uninitialized objects
    and the integers of uninitialized arrays hold. *)
Class Memory (F : FieldOps) (S : ScalarOps) : Type := {
  memory_config :: Config;
  uninit_fe : secp256k1_fe;
  uninit_ge : secp256k1_ge;
  uninit_gej : secp256k1_gej;
  uninit_ge_storage : secp256k1_ge_storage;
  uninit_scalar : secp256k1_scalar;
  uninit_int : nat -> Z
}.

Definition WINDOW_A : Z := 5.
Definition WINDOW_G {C : Config} : Z := if USE_ENDOMORPHISM then 15 else 16.

Definition ECMULT_TABLE_SIZE (w : Z) : nat := Z.to_nat (Z.shiftl 1 (w - 2)).

Section Ecmult.
Context {F : FieldOps} {S : ScalarOps} {M : Memory F S}.

(** ** Tables *)

(** [for (i = 1; i < n; i++)], [k] rounds from [i] on. *)
Fixpoint odd_multiples_loop (k i : nat) (prej : list secp256k1_gej) (zr : list secp256k1_fe) (d_ge : secp256k1_ge) :
    checked (list secp256k1_gej * list secp256k1_fe) :=
  match k with
  | O => ret (prej, zr)
  | Datatypes.S k' =>
      ' (q, z) <- secp256k1_gej_add_ge_var (nth i prej uninit_gej) (nth (i - 1) prej uninit_gej) d_ge (Some (nth i zr uninit_fe));;
      let zr := match z with Some z => upd zr i z | None => zr end in
      odd_multiples_loop k' (i + 1) (upd prej i q) zr d_ge
  end.

Definition secp256k1_ecmult_odd_multiples_table (n : nat) (prej : list secp256k1_gej) (zr : list secp256k1_fe) (a : secp256k1_gej) :
    checked (list secp256k1_gej * list secp256k1_fe) :=
  VERIFY_CHECK (negb (gej_infinity a));;
  ' (d, _) <- secp256k1_gej_double_var uninit_gej a None;;
  let d_ge := mk_ge (gej_x d) (gej_y d) false in
  a_ge <- secp256k1_ge_set_gej_zinv a (gej_z d);;
  let prej := upd prej 0 (mk_gej (ge_x a_ge) (ge_y a_ge) (gej_z a) false) in
  let zr := upd zr 0 (gej_z d) in
  ' (prej, zr) <- odd_multiples_loop (n - 1) 1 prej zr d_ge;;
  let last := nth (n - 1) prej uninit_gej in
  z <- secp256k1_fe_mul (gej_z last) (gej_z d);;
  ret (upd prej (n - 1) (mk_gej (gej_x last) (gej_y last) z (gej_infinity last)), zr).

(** The table and the common [z]. *)
Definition secp256k1_ecmult_odd_multiples_table_globalz_windowa (pre : list secp256k1_ge) (globalz : secp256k1_fe) (a : secp256k1_gej) :
    checked (list secp256k1_ge * secp256k1_fe) :=
  let size := ECMULT_TABLE_SIZE WINDOW_A in
  ' (prej, zr) <- secp256k1_ecmult_odd_multiples_table size (repeat uninit_gej size) (repeat uninit_fe size) a;;
  secp256k1_ge_globalz_set_table_gej size pre globalz prej zr.

(** [for (i = 0; i < n; i++)], over the points that are left. *)
Fixpoint to_storage_loop (i : nat) (pre : list secp256k1_ge_storage) (prea : list secp256k1_ge) : checked (list secp256k1_ge_storage) :=
  match prea with
  | [] => ret pre
  | q :: prea' =>
      s <- secp256k1_ge_to_storage q;;
      to_storage_loop (i + 1) (upd pre i s) prea'
  end.

Definition secp256k1_ecmult_odd_multiples_table_storage_var (n : nat) (pre : list secp256k1_ge_storage) (a : secp256k1_gej) :
    checked (list secp256k1_ge_storage) :=
  ' (prej, zr) <- secp256k1_ecmult_odd_multiples_table n (repeat uninit_gej n) (repeat uninit_fe n) a;;
  prea <- secp256k1_ge_set_table_gej_var (repeat uninit_ge n) prej zr n;;
  to_storage_loop 0 pre prea.

Definition ECMULT_TABLE_GET_GE (pre : list secp256k1_ge) (n w : Z) : checked secp256k1_ge :=
  VERIFY_CHECK (Z.land n 1 =? 1);;
  VERIFY_CHECK (- (Z.shiftl 1 (w - 1) - 1) <=? n);;
  VERIFY_CHECK (n <=? Z.shiftl 1 (w - 1) - 1);;
  if 0 <? n then ret (nth (Z.to_nat ((n - 1) / 2)) pre uninit_ge)
  else secp256k1_ge_neg (nth (Z.to_nat ((- n - 1) / 2)) pre uninit_ge).

Definition ECMULT_TABLE_GET_GE_STORAGE (pre : list secp256k1_ge_storage) (n w : Z) : checked secp256k1_ge :=
  VERIFY_CHECK (Z.land n 1 =? 1);;
  VERIFY_CHECK (- (Z.shiftl 1 (w - 1) - 1) <=? n);;
  VERIFY_CHECK (n <=? Z.shiftl 1 (w - 1) - 1);;
  if 0 <? n then ret (secp256k1_ge_from_storage (nth (Z.to_nat ((n - 1) / 2)) pre uninit_ge_storage))
  else secp256k1_ge_neg (secp256k1_ge_from_storage (nth (Z.to_nat ((- n - 1) / 2)) pre uninit_ge_storage)).

(** ** The context *)

(** Pointers that may be NULL.  Without endomorphism there is no second table: the
    field stays empty and no code reads it. *)
Record secp256k1_ecmult_context : Type := mk_ecmult_context {
  pre_g : option (list secp256k1_ge_storage);
  pre_g_128 : option (list secp256k1_ge_storage)
}.

Definition secp256k1_ecmult_context_init : secp256k1_ecmult_context := mk_ecmult_context None None.

Definition secp256k1_ecmult_context_build (ctx : secp256k1_ecmult_context) : checked secp256k1_ecmult_context :=
  match pre_g ctx with
  | Some _ => ret ctx
  | None =>
      gj <- secp256k1_gej_set_ge secp256k1_ge_const_g;;
      let size := ECMULT_TABLE_SIZE WINDOW_G in
      pre <- secp256k1_ecmult_odd_multiples_table_storage_var size (repeat uninit_ge_storage size) gj;;
      if USE_ENDOMORPHISM then
        g_128j <- repeat_checked 128 (fun g_128j => ' (g_128j, _) <- secp256k1_gej_double_var g_128j g_128j None;; ret g_128j) gj;;
        pre_128 <- secp256k1_ecmult_odd_multiples_table_storage_var size (repeat uninit_ge_storage size) g_128j;;
        ret (mk_ecmult_context (Some pre) (Some pre_128))
      else ret (mk_ecmult_context (Some pre) (pre_g_128 ctx))
  end.

Definition secp256k1_ecmult_context_clone (src : secp256k1_ecmult_context) : secp256k1_ecmult_context :=
  let dst_pre_g := match pre_g src with None => None | Some pre => Some pre end in
  let dst_pre_g_128 := if USE_ENDOMORPHISM then match pre_g_128 src with None => None | Some pre => Some pre end else None in
  mk_ecmult_context dst_pre_g dst_pre_g_128.

Definition secp256k1_ecmult_context_is_built (ctx : secp256k1_ecmult_context) : bool :=
  match pre_g ctx with Some _ => true | None => false end.

Definition secp256k1_ecmult_context_clear (ctx : secp256k1_ecmult_context) : secp256k1_ecmult_context :=
  secp256k1_ecmult_context_init.

(** ** Non-adjacent form *)

(** [while (bit < len)]: every round advances [bit], so [len] rounds are enough.
    The result is the array, the carry and the last bit set. *)
Fixpoint wnaf_loop (fuel : nat) (s : secp256k1_scalar) (len w sign : Z) (wnaf : list Z) (bit carry last_set_bit : Z) :
    checked (list Z * Z * Z) :=
  if bit <? len then
    match fuel with
    | O => None
    | Datatypes.S fuel' =>
        b <- secp256k1_scalar_get_bits s bit 1;;
        if b =? carry then wnaf_loop fuel' s len w sign wnaf (bit + 1) carry last_set_bit else
        let now := if len - bit <? w then len - bit else w in
        x <- secp256k1_scalar_get_bits_var s bit now;;
        let word := i32 (x + carry) in
        let carry := Z.land (Z.shiftr word (w - 1)) 1 in
        let word := i32 (word - Z.shiftl carry w) in
        wnaf_loop fuel' s len w sign (upd wnaf (Z.to_nat bit) (i32 (sign * word))) (bit + now) carry bit
    end
  else ret (wnaf, carry, last_set_bit).

(** [while (bit < 256) CHECK(secp256k1_scalar_get_bits(&s, bit++, 1) == 0)] *)
Fixpoint wnaf_high_bits (fuel : nat) (s : secp256k1_scalar) (bit : Z) : checked unit :=
  if bit <? 256 then
    match fuel with
    | O => None
    | Datatypes.S fuel' =>
        b <- secp256k1_scalar_get_bits s bit 1;;
        VERIFY_CHECK (b =? 0);;
        wnaf_high_bits fuel' s (bit + 1)
    end
  else ret tt.

(** The array and the number of its entries that are set. *)
Definition secp256k1_ecmult_wnaf (len : Z) (a : secp256k1_scalar) (w : Z) : checked (list Z * Z) :=
  VERIFY_CHECK ((0 <=? len) && (len <=? 256));;
  VERIFY_CHECK ((2 <=? w) && (w <=? 31));;
  let wnaf := repeat 0 (Z.to_nat len) in
  top <- secp256k1_scalar_get_bits a 255 1;;
  let '(s, sign) := if negb (top =? 0) then (secp256k1_scalar_negate a, -1) else (a, 1) in
  ' (wnaf, carry, last_set_bit) <- wnaf_loop (Z.to_nat len) s len w sign wnaf 0 0 (-1);;
  VERIFY_CHECK (carry =? 0);;
  wnaf_high_bits 256 s len;;
  ret (wnaf, last_set_bit + 1).

(** ** The sum *)

(** [for (i = 0; i < ECMULT_TABLE_SIZE(WINDOW_A); i++) secp256k1_ge_mul_lambda(&pre_a_lam[i], &pre_a[i])] *)
Fixpoint mul_lambda_table (pre : list secp256k1_ge) : checked (list secp256k1_ge) :=
  match pre with
  | [] => ret []
  | e :: pre' =>
      l <- secp256k1_ge_mul_lambda e;;
      rest <- mul_lambda_table pre';;
      ret (l :: rest)
  end.

(** [if (i < bits && (n = wnaf[i]))] with a table of the point. *)
Definition add_window_a (pre : list secp256k1_ge) (wnaf : list Z) (bits i : Z) (r : secp256k1_gej) : checked secp256k1_gej :=
  let n := nth (Z.to_nat i) wnaf 0 in
  if (i <? bits) && negb (n =? 0) then
    tmpa <- ECMULT_TABLE_GET_GE pre n WINDOW_A;;
    ' (r, _) <- secp256k1_gej_add_ge_var r r tmpa None;;
    ret r
  else ret r.

(** [if (i < bits && (n = wnaf[i]))] with a table of the context.  Without the table
    the code would read through a null pointer. *)
Definition add_window_g (pre : option (list secp256k1_ge_storage)) (z : secp256k1_fe) (wnaf : list Z) (bits i : Z) (r : secp256k1_gej) :
    checked secp256k1_gej :=
  let n := nth (Z.to_nat i) wnaf 0 in
  if (i <? bits) && negb (n =? 0) then
    tmpa <- (match pre with Some pre => ECMULT_TABLE_GET_GE_STORAGE pre n WINDOW_G | None => None end);;
    secp256k1_gej_add_zinv_var r r tmpa z
  else ret r.

(** [for (i = bits - 1; i >= 0; i--)], [k] rounds from [k - 1] down: a doubling and
    the additions of the round, in turn. *)
Fixpoint ecmult_loop (k : nat) (additions : list (Z -> secp256k1_gej -> checked secp256k1_gej)) (r : secp256k1_gej) : checked secp256k1_gej :=
  match k with
  | O => ret r
  | Datatypes.S k' =>
      ' (r, _) <- secp256k1_gej_double_var r r None;;
      r <- fold_left (fun m add => r <- m;; add (Z.of_nat k') r) additions (ret r);;
      ecmult_loop k' additions r
  end.

Definition max_bits (bits bits' : Z) : Z := if bits <? bits' then bits' else bits.

(** The digits and tables of the two builds, the loop over them and the common
    denominator. *)
Definition ecmult_sum (ctx : secp256k1_ecmult_context) (a : secp256k1_gej) (na ng : secp256k1_scalar) : checked (secp256k1_gej * secp256k1_fe) :=
  let pre_a := repeat uninit_ge (ECMULT_TABLE_SIZE WINDOW_A) in
  if USE_ENDOMORPHISM then
    ' (na_1, na_lam) <- secp256k1_scalar_split_lambda na;;
    ' (wnaf_na_1, bits_na_1) <- secp256k1_ecmult_wnaf 130 na_1 WINDOW_A;;
    ' (wnaf_na_lam, bits_na_lam) <- secp256k1_ecmult_wnaf 130 na_lam WINDOW_A;;
    VERIFY_CHECK (bits_na_1 <=? 130);;
    VERIFY_CHECK (bits_na_lam <=? 130);;
    let bits := max_bits bits_na_1 bits_na_lam in
    ' (pre_a, z) <- secp256k1_ecmult_odd_multiples_table_globalz_windowa pre_a uninit_fe a;;
    pre_a_lam <- mul_lambda_table pre_a;;
    let '(ng_1, ng_128) := secp256k1_scalar_split_128 ng in
    ' (wnaf_ng_1, bits_ng_1) <- secp256k1_ecmult_wnaf 129 ng_1 WINDOW_G;;
    ' (wnaf_ng_128, bits_ng_128) <- secp256k1_ecmult_wnaf 129 ng_128 WINDOW_G;;
    let bits := max_bits (max_bits bits bits_ng_1) bits_ng_128 in
    r <- ecmult_loop (Z.to_nat bits)
           [add_window_a pre_a wnaf_na_1 bits_na_1; add_window_a pre_a_lam wnaf_na_lam bits_na_lam;
            add_window_g (pre_g ctx) z wnaf_ng_1 bits_ng_1; add_window_g (pre_g_128 ctx) z wnaf_ng_128 bits_ng_128] secp256k1_gej_set_infinity;;
    ret (r, z)
  else
    ' (wnaf_na, bits_na) <- secp256k1_ecmult_wnaf 256 na WINDOW_A;;
    ' (pre_a, z) <- secp256k1_ecmult_odd_multiples_table_globalz_windowa pre_a uninit_fe a;;
    ' (wnaf_ng, bits_ng) <- secp256k1_ecmult_wnaf 256 ng WINDOW_G;;
    let bits := max_bits bits_na bits_ng in
    r <- ecmult_loop (Z.to_nat bits) [add_window_a pre_a wnaf_na bits_na; add_window_g (pre_g ctx) z wnaf_ng bits_ng] secp256k1_gej_set_infinity;;
    ret (r, z).

Definition secp256k1_ecmult (ctx : secp256k1_ecmult_context) (a : secp256k1_gej) (na ng : secp256k1_scalar) : checked secp256k1_gej :=
  ' (r, z) <- ecmult_sum ctx a na ng;;
  if gej_infinity r then ret r else
  rz <- secp256k1_fe_mul (gej_z r) z;;
  ret (mk_gej (gej_x r) (gej_y r) rz (gej_infinity r)).

End Ecmult.
