(* ===== verification/Wnaf.v ===== *)
(** * The non-adjacent forms of scalars

    [secp256k1_ecmult_wnaf] writes the scalar, with odd digits below [2^(w-1)] that
    are at least [w] positions apart. *)

From Stdlib Require Import ZArith Lia List Bool.
From S2P Require Import Prelude Modulus Bytes Field FieldImpl Curve Group Scalar Ecmult.
Import ListNotations.

#[local] Open Scope Z_scope.
#[local] Open Scope checked_scope.

(** The number that the digits write, the lowest first. *)
Definition naf_value (l : list Z) : Z := fold_right (fun d acc => d + 2 * acc) 0 l.

Definition naf_digit (w d : Z) : Prop := d = 0 \/ Z.odd d = true /\ - 2 ^ (w - 1) < d < 2 ^ (w - 1).

Definition wnaf_ok (w : Z) (l : list Z) : Prop :=
  (forall i, naf_digit w (nth i l 0)) /\
  (forall i j, (i < j)%nat -> nth i l 0 <> 0 -> nth j l 0 <> 0 -> w <= Z.of_nat j - Z.of_nat i).

Lemma naf_value_upd l i d : (i < length l)%nat -> naf_value (upd l i d) = naf_value l + (d - nth i l 0) * 2 ^ Z.of_nat i.
Proof.
  revert i. induction l as [|x l IH]; intros [|i] Hi; cbn [length] in Hi; [lia | lia | |].
  - cbn. ring.
  - cbn [upd nth naf_value fold_right]. fold (naf_value (upd l i d)). fold (naf_value l).
    rewrite IH, Nat2Z.inj_succ, Z.pow_succ_r by lia. ring.
Qed.

Lemma naf_value_zeros k : naf_value (repeat 0 k) = 0.
Proof. induction k as [|k IH]; [reflexivity|]. cbn [repeat naf_value fold_right]. fold (naf_value (repeat 0 k)). lia. Qed.

(** The value from position [i] on. *)
Definition naf_from (i : nat) (l : list Z) : Z := naf_value (skipn i l).

Lemma naf_from_step i l : naf_from i l = nth i l 0 + 2 * naf_from (Datatypes.S i) l.
Proof.
  unfold naf_from. revert i. induction l as [|x l IH]; intros [|i]; try reflexivity. apply (IH i).
Qed.

Lemma naf_from_zero i l : (forall j, (i <= j)%nat -> nth j l 0 = 0) -> naf_from i l = 0.
Proof.
  revert i. induction l as [|x l IH]; intros [|i] H; try reflexivity.
  - unfold naf_from in *. cbn [skipn naf_value fold_right]. fold (naf_value l).
    rewrite (H O (le_n O) : x = 0). change l with (skipn 0 l). rewrite (IH O); [reflexivity|]. intros j _. apply (H (Datatypes.S j)). lia.
  - apply (IH i). intros j Hj. apply (H (Datatypes.S j)). lia.
Qed.

(** ** One word *)

(** The word read at a position where the bit differs from the carry, with the carry
    added: odd, below [2^now]. *)
Lemma naf_word V bit now c : 0 <= V -> 0 <= bit -> 1 <= now -> c = 0 \/ c = 1 -> (V / 2 ^ bit) mod 2 <> c ->
  let x := V / 2 ^ bit mod 2 ^ now in
  Z.odd (x + c) = true /\ 0 < x + c < 2 ^ now /\
  V mod 2 ^ (bit + now) = V mod 2 ^ bit + x * 2 ^ bit.
Proof.
  intros HV Hb Hn Hc Hbit. cbv zeta. set (q := V / 2 ^ bit) in *.
  assert (0 < 2 ^ bit) as P0 by (apply Z.pow_pos_nonneg; lia).
  assert (2 ^ now = 2 * 2 ^ (now - 1)) as Pn by (rewrite <- Z.pow_succ_r by lia; f_equal; lia).
  assert (0 < 2 ^ (now - 1)) as P1 by (apply Z.pow_pos_nonneg; lia).
  assert ((q mod 2 ^ now) mod 2 = q mod 2) as E.
  { apply Z.mod_mod_divide. exists (2 ^ (now - 1)). lia. }
  pose proof (Z.mod_pos_bound (q mod 2 ^ now) 2 ltac:(lia)) as B2. pose proof (Z.mod_pos_bound q (2 ^ now) ltac:(lia)) as Bx.
  assert (((q mod 2 ^ now) + c) mod 2 = 1) as Eo.
  { rewrite Z.add_mod, E by lia. pose proof (Z.mod_pos_bound q 2 ltac:(lia)). destruct Hc as [-> | ->].
    - replace (q mod 2) with 1 by lia. reflexivity.
    - replace (q mod 2) with 0 by lia. reflexivity. }
  assert (Z.odd (q mod 2 ^ now + c) = true) as Ho by (rewrite Zmod_odd in Eo; destruct (Z.odd _); [reflexivity | discriminate]).
  split; [exact Ho|]. split.
  - apply Z.odd_spec in Ho as [k Hk]. lia.
  - rewrite Z.pow_add_r, Z.rem_mul_r by lia. fold q. lia.
Qed.

(** Taking the carry off a word. *)
Lemma naf_digit_of_word w y : 2 <= w -> Z.odd y = true -> 0 < y < 2 ^ w ->
  let c := Z.land (Z.shiftr y (w - 1)) 1 in
  (c = 0 \/ c = 1) /\ naf_digit w (y - Z.shiftl c w) /\ y - Z.shiftl c w <> 0 /\ (y < 2 ^ (w - 1) -> c = 0) /\
  (- 2 ^ (w - 1) <= y - Z.shiftl c w < 2 ^ (w - 1)).
Proof.
  intros Hw Ho Hy. cbv zeta. assert (2 ^ w = 2 * 2 ^ (w - 1)) as Pw by (rewrite <- Z.pow_succ_r by lia; f_equal; lia).
  assert (2 ^ (w - 1) = 2 * 2 ^ (w - 2)) as Pw' by (rewrite <- Z.pow_succ_r by lia; f_equal; lia).
  assert (0 < 2 ^ (w - 2)) by (apply Z.pow_pos_nonneg; lia).
  assert (Z.land (Z.shiftr y (w - 1)) 1 = Z.b2z (2 ^ (w - 1) <=? y)) as ->.
  { change 1 with (Z.ones 1) at 2. rewrite Z.land_ones, Z.shiftr_div_pow2 by lia. destruct (Z.leb_spec (2 ^ (w - 1)) y).
    - replace (y / 2 ^ (w - 1)) with 1; [reflexivity|]. apply (Z.div_unique_pos y (2 ^ (w - 1)) 1 (y - 2 ^ (w - 1))); lia.
    - rewrite Z.div_small by lia. reflexivity. }
  apply Z.odd_spec in Ho as [k Hk]. rewrite Z.shiftl_mul_pow2 by lia. destruct (Z.leb_spec (2 ^ (w - 1)) y); cbn [Z.b2z].
  - split; [auto|]. split; [|lia]. right. split; [|lia]. apply Z.odd_spec. exists (k - 2 ^ (w - 1)). lia.
  - split; [auto|]. split; [|lia]. right. split; [|lia]. apply Z.odd_spec. exists k. lia.
Qed.

(** ** The loop *)

Lemma get_bit {S : ScalarOps} {L : ScalarLaws S} s bit : sc_wf s -> 0 <= bit < 256 ->
  Returns (secp256k1_scalar_get_bits s bit 1) (fun b => b = (sc_Z s / 2 ^ bit) mod 2).
Proof. intros Hs Hb. apply sc_get_bits_law; [exact Hs | lia | lia | lia | f_equal; lia]. Qed.

Section Loop.
Context {F : FieldOps} {S : ScalarOps} {M : Memory F S} {L : ScalarLaws S}.
Context (s : secp256k1_scalar) (len w sign : Z).
Context (Hs : sc_wf s) (Hlen : 1 <= len <= 256) (Hw : 2 <= w <= 30) (Hsign : sign = 1 \/ sign = -1).
Let V := sc_Z s.
Context (HV : V < 2 ^ (len - 1)).

Record wnaf_state (l : list Z) (bit c last : Z) : Prop := {
  ws_len : Z.of_nat (length l) = len;
  ws_bit : 0 <= bit <= len;
  ws_carry : c = 0 \/ c = 1;
  ws_end : bit = len -> c = 0;
  ws_high : forall i, bit <= Z.of_nat i -> nth i l 0 = 0;
  ws_value : sign * naf_value l = V mod 2 ^ bit - c * 2 ^ bit;
  ws_ok : wnaf_ok w l;
  ws_next : bit = len \/ forall i, nth i l 0 <> 0 -> Z.of_nat i + w <= bit;
  ws_last : -1 <= last < len /\ (0 <= last -> nth (Z.to_nat last) l 0 <> 0) /\ forall i, last < Z.of_nat i -> nth i l 0 = 0
}.

Lemma V_range : 0 <= V.
Proof. apply (sc_range s Hs). Qed.

(** The bit is the carry: nothing is written. *)
Lemma wnaf_skip l bit c last : wnaf_state l bit c last -> bit < len -> (V / 2 ^ bit) mod 2 = c -> wnaf_state l (bit + 1) c last.
Proof.
  intros [H1 H2 H3 H4 H5 H6 H7 H8 H9] Hb E. pose proof V_range as HV0. assert (0 < 2 ^ bit) by (apply Z.pow_pos_nonneg; lia).
  split; auto; try lia.
  - intros El. rewrite <- E. rewrite Z.div_small; [reflexivity|]. replace bit with (len - 1) by lia. lia.
  - intros i Hi. apply H5. lia.
  - rewrite H6, Z.pow_add_r, Z.pow_1_r, Z.rem_mul_r, E by lia. lia.
  - destruct H8 as [H8|H8]; [lia|]. right. intros i Hi. apply H8 in Hi. lia.
Qed.

(** The last word has no carry: the scalar is below [2^(len-1)]. *)
Lemma top_word bit x c : 0 <= bit < len -> len = bit + w -> x = V / 2 ^ bit mod 2 ^ w -> c = 0 \/ c = 1 -> Z.odd (x + c) = true -> x + c < 2 ^ (w - 1).
Proof.
  intros Hb El Ex Hc Ho. pose proof V_range as HV0.
  assert (V / 2 ^ bit < 2 ^ (w - 1)) as B.
  { apply Z.div_lt_upper_bound; [apply Z.pow_pos_nonneg; lia|]. rewrite <- Z.pow_add_r by lia. replace (bit + (w - 1)) with (len - 1) by lia. exact HV. }
  assert (2 ^ (w - 1) = 2 * 2 ^ (w - 2)) as Pw by (rewrite <- Z.pow_succ_r by lia; f_equal; lia).
  assert (2 ^ w = 2 * 2 ^ (w - 1)) as Pw' by (rewrite <- Z.pow_succ_r by lia; f_equal; lia).
  assert (0 <= V / 2 ^ bit) by (apply Z.div_pos; [lia | apply Z.pow_pos_nonneg; lia]).
  rewrite Z.mod_small in Ex by lia. apply Z.odd_spec in Ho as [k Hk]. lia.
Qed.

(** A digit is written at the current position. *)
Lemma wnaf_write l bit c last now c' d : wnaf_state l bit c last -> bit < len -> 1 <= now <= w -> now <= len - bit -> (now < w -> bit + now = len) ->
  c' = 0 \/ c' = 1 -> (bit + now = len -> c' = 0) -> naf_digit w d -> d <> 0 ->
  V mod 2 ^ bit - c * 2 ^ bit + d * 2 ^ bit = V mod 2 ^ (bit + now) - c' * 2 ^ (bit + now) ->
  wnaf_state (upd l (Z.to_nat bit) (sign * d)) (bit + now) c' bit.
Proof.
  intros [H1 H2 H3 H4 H5 H6 H7 H8 H9] Hb Bn Bl Bp Hc' Hend Hd Hnz Ev. rewrite <- H6 in Ev. clear H3 H4 H6 H9.
  assert (Z.to_nat bit < length l)%nat as Hbl by lia. assert (Z.of_nat (Z.to_nat bit) = bit) as Hbn by lia.
  assert (forall i, nth i (upd l (Z.to_nat bit) (sign * d)) 0 = if (i =? Z.to_nat bit)%nat then sign * d else nth i l 0) as En'
    by (intros i; apply nth_upd; exact Hbl).
  assert (sign * d <> 0) as Hsd by (destruct Hsign; subst sign; lia).
  assert (naf_digit w (sign * d)) as Hdig.
  { destruct Hd as [Hd|[Ho' Hd]]; [contradiction|]. right. split; [|destruct Hsign; subst sign; lia]. rewrite Z.odd_mul, Ho'. destruct Hsign; subst sign; reflexivity. }
  split; [rewrite length_upd; exact H1 | lia | exact Hc' | exact Hend | | | | |].
  - intros i Hi. rewrite En'. destruct (Nat.eqb_spec i (Z.to_nat bit)); [lia | apply H5; lia].
  - rewrite naf_value_upd, H5, Hbn by lia. rewrite <- Ev. destruct Hsign; subst sign; ring.
  - split; intros i; [rewrite En'; destruct (i =? Z.to_nat bit)%nat; [exact Hdig | apply H7]|]. clear Ev.
    intros j Hij. rewrite !En'. destruct (Nat.eqb_spec i (Z.to_nat bit)) as [Ei|Ei].
    + destruct (Nat.eqb_spec j (Z.to_nat bit)); [lia|]. intros _ Hj. exfalso. apply Hj, H5. lia.
    + destruct (Nat.eqb_spec j (Z.to_nat bit)) as [->|Ej]; [|apply H7; exact Hij]. intros Hi _.
      destruct H8 as [H8|H8]; [lia|]. apply H8 in Hi. lia.
  - clear Ev. destruct (Z.eq_dec (bit + now) len) as [|Hne]; [left; assumption|]. right. intros i. rewrite En'.
    destruct (Nat.eqb_spec i (Z.to_nat bit)) as [->|]; [lia|]. intros Hi. destruct H8 as [H8|H8]; [lia|]. apply H8 in Hi. lia.
  - split; [lia|]. split; [intros _; rewrite En', Nat.eqb_refl; exact Hsd|].
    intros i Hi. rewrite En'. destruct (Nat.eqb_spec i (Z.to_nat bit)); [lia | apply H5; lia].
Qed.

(** A word is written. *)
Lemma wnaf_word l bit c last now x : wnaf_state l bit c last -> bit < len -> (V / 2 ^ bit) mod 2 <> c ->
  now = (if len - bit <? w then len - bit else w) -> x = V / 2 ^ bit mod 2 ^ now ->
  let word := i32 (x + c) in
  let c' := Z.land (Z.shiftr word (w - 1)) 1 in
  let word' := i32 (word - Z.shiftl c' w) in
  wnaf_state (upd l (Z.to_nat bit) (i32 (sign * word'))) (bit + now) c' bit.
Proof.
  intros St Hb E En Ex. pose proof V_range as HV0. cbv zeta. pose proof (ws_bit _ _ _ _ St) as H2. pose proof (ws_carry _ _ _ _ St) as H3.
  assert (1 <= now <= w /\ now <= len - bit /\ (now < w -> bit + now = len)) as (Bn & Bl & Bp) by (clear - En H2 Hb Hw; destruct (Z.ltb_spec (len - bit) w); lia).
  destruct (naf_word V bit now c HV0 ltac:(lia) ltac:(lia) H3 E) as (Ho & By & Em). rewrite <- Ex in *. clear E En.
  assert (2 ^ now <= 2 ^ w) as Pnw by (apply Z.pow_le_mono_r; lia). assert (2 ^ w <= 2 ^ 30) as P30 by (apply Z.pow_le_mono_r; lia).
  assert (2 ^ (w - 1) < 2 ^ 31) as P31 by (apply Z.pow_lt_mono_r; lia).
  rewrite (i32_small (x + c)) by (clear - By Pnw P30; lia).
  destruct (naf_digit_of_word w (x + c) ltac:(lia) Ho) as (Hc' & Hd & Hnz & Hlow & Br); [clear - By Pnw; lia|].
  set (c' := Z.land (Z.shiftr (x + c) (w - 1)) 1) in *. set (d := x + c - Z.shiftl c' w) in *.
  rewrite (i32_small d), (i32_small (sign * d)) by (clear - Hsign Br P31; destruct Hsign; subst sign; lia).
  assert (now < w -> c' = 0) as Hcp.
  { intros Hnw. apply Hlow. apply Z.lt_le_trans with (2 ^ now); [apply By | apply Z.pow_le_mono_r; clear - Hnw Hw; lia]. }
  apply (wnaf_write l bit c last now c' d); auto.
  - intros El. destruct (Z.lt_ge_cases now w) as [Hnw|Hnw]; [auto|]. apply Hlow. replace now with w in * by (clear - Hnw Bn; lia).
    apply (top_word bit x c); auto; clear - H2 Hb El; lia.
  - rewrite Em. unfold d. destruct (Z.eq_dec now w) as [->|Hnw].
    + rewrite Z.shiftl_mul_pow2, Z.pow_add_r by (clear - Hw H2; lia). ring.
    + rewrite Hcp by (clear - Hnw Bn; lia). rewrite Z.shiftl_0_l. ring.
Qed.

Lemma wnaf_loop_ok fuel l bit c last : wnaf_state l bit c last -> (Z.to_nat (len - bit) <= fuel)%nat ->
  Returns (wnaf_loop fuel s len w sign l bit c last) (fun '(l', c', last') => wnaf_state l' len c' last').
Proof.
  revert l bit c last. induction fuel as [|fuel IH]; intros l bit c last St Hf; cbn [wnaf_loop];
    pose proof (ws_bit _ _ _ _ St) as Hb; destruct (Z.ltb_spec bit len) as [Hlt|Hge];
    try (replace bit with len in St by lia; apply Returns_ret; exact St); [exfalso; lia|].
  eapply Returns_bind; [apply (get_bit s bit Hs); lia|]. intros b ->. fold V. destruct (Z.eqb_spec ((V / 2 ^ bit) mod 2) c) as [E|E].
  - apply IH; [apply wnaf_skip; assumption | lia].
  - cbv zeta. set (now := if len - bit <? w then len - bit else w).
    assert (1 <= now <= w /\ now <= len - bit) as (Bn & Bl) by (unfold now; destruct (Z.ltb_spec (len - bit) w); lia).
    eapply Returns_bind; [apply sc_get_bits_var_law; [exact Hs | lia | lia | lia]|]. intros x Ex.
    apply IH; [apply (wnaf_word l bit c last now x St Hlt E eq_refl Ex) | lia].
Qed.

End Loop.

Section Wnaf.
Context {F : FieldOps} {S : ScalarOps} {M : Memory F S} {L : ScalarLaws S}.

(** The representative of a scalar that is encoded: the sign is taken off the
    scalars with bit 255 set. *)
Definition wnaf_signed (v : Z) : Z := if 2 ^ 255 <=? v then v - n else v.

Lemma wnaf_signed_mod v : wnaf_signed v mod n = v mod n.
Proof.
  unfold wnaf_signed. destruct (2 ^ 255 <=? v); [|reflexivity].
  replace (v - n) with (v + (-1) * n) by ring. apply Z.mod_add. discriminate.
Qed.

Lemma wnaf_high_bits_ok fuel s bit : sc_wf s -> 0 <= bit -> sc_Z s < 2 ^ bit -> (Z.to_nat (256 - bit) <= fuel)%nat ->
  Returns (wnaf_high_bits fuel s bit) (fun _ => True).
Proof.
  intros Hs. pose proof (sc_range s Hs) as HR. revert bit. induction fuel as [|fuel IH]; intros bit Hb HV Hf; cbn [wnaf_high_bits];
    destruct (Z.ltb_spec bit 256); try exact I; [lia|].
  eapply Returns_bind; [apply get_bit; [exact Hs | lia]|]. intros b ->.
  rewrite Z.div_small by lia. apply Returns_check; [reflexivity|]. apply IH; [lia | | lia].
  rewrite Z.pow_add_r by lia. lia.
Qed.

Lemma ecmult_wnaf_ok len a w : sc_wf a -> 1 <= len <= 256 -> 2 <= w <= 30 -> Z.abs (wnaf_signed (sc_Z a)) < 2 ^ (len - 1) ->
  Returns (secp256k1_ecmult_wnaf len a w) (fun '(l, bits) => Z.of_nat (length l) = len /\ naf_value l = wnaf_signed (sc_Z a) /\
    wnaf_ok w l /\ 0 <= bits <= len /\ (0 < bits -> nth (Z.to_nat (bits - 1)) l 0 <> 0) /\ (forall i, bits <= Z.of_nat i -> nth i l 0 = 0)).
Proof.
  intros Ha Hl Hw HV. pose proof (sc_range a Ha) as HR. unfold secp256k1_ecmult_wnaf.
  apply Returns_check; [apply andb_true_intro; split; apply Z.leb_le; lia|].
  apply Returns_check; [apply andb_true_intro; split; apply Z.leb_le; lia|]. cbv zeta.
  eapply Returns_bind; [apply (get_bit a 255 Ha); lia|]. intros top Et.
  assert (0 < 2 ^ (len - 1) <= 2 ^ 255) as P by (split; [apply Z.pow_pos_nonneg; lia | apply Z.pow_le_mono_r; lia]).
  assert (exists s sign, (if negb (top =? 0) then (secp256k1_scalar_negate a, -1) else (a, 1)) = (s, sign) /\ sc_wf s /\
    (sign = 1 \/ sign = -1) /\ sign * sc_Z s = wnaf_signed (sc_Z a)) as (s & sign & -> & Hs & Hsign & Es).
  { assert (n < 2 ^ 256) as Hn by reflexivity. unfold wnaf_signed. destruct (Z.leb_spec (2 ^ 255) (sc_Z a)) as [Hh|Hh].
    - assert (top = 1) as ->.
      { rewrite Et. replace (sc_Z a / 2 ^ 255) with 1; [reflexivity|].
        apply (Z.div_unique_pos _ _ 1 (sc_Z a - 2 ^ 255)); [|lia]. change (2 ^ 256) with (2 * 2 ^ 255) in Hn. lia. }
      destruct (sc_negate_law a Ha) as [Hw' Ew]. eexists _, _. split; [reflexivity|]. split; [exact Hw'|]. split; [auto|].
      rewrite Ew. replace (- sc_Z a) with (n - sc_Z a + (-1) * n) by ring. rewrite Z.mod_add, Z.mod_small by lia. lia.
    - rewrite Z.div_small in Et by lia. rewrite Et. eexists _, _. split; [reflexivity|]. split; [exact Ha|]. split; [auto | lia]. }
  assert (sc_Z s < 2 ^ (len - 1)) as HVs by (pose proof (sc_range s Hs); destruct Hsign; subst sign; lia).
  eapply Returns_bind; [apply (wnaf_loop_ok s len w sign Hs Hl Hw Hsign HVs (Z.to_nat len) _ 0 0 (-1)); [|lia]|].
  { assert (forall i, nth i (repeat 0 (Z.to_nat len)) 0 = 0) as Hz by (intros i; apply nth_repeat).
    split; [rewrite repeat_length; lia | lia | auto | auto | auto | | | | ].
    - rewrite naf_value_zeros, Z.pow_0_r, Z.mod_1_r. lia.
    - split; intros i; rewrite ?Hz; [left; reflexivity|]. intros j _ Hi. contradiction.
    - right. intros i Hi. rewrite Hz in Hi. contradiction.
    - split; [lia|]. split; [lia | auto]. }
  intros [[l c] last] [H1 H2 H3 H4 H5 H6 H7 H8 (H9 & H10 & H11)]. rewrite (H4 eq_refl) in *. apply Returns_check; [reflexivity|].
  pose proof (sc_range s Hs). assert (sc_Z s < 2 ^ len) as HVl by (apply Z.lt_trans with (2 ^ (len - 1)); [lia | apply Z.pow_lt_mono_r; lia]).
  eapply Returns_bind; [apply (wnaf_high_bits_ok 256 s len Hs); lia|]. intros _ _. apply Returns_ret.
  rewrite Z.mod_small in H6 by lia. split; [exact H1|]. split; [destruct Hsign; subst sign; lia|]. split; [exact H7|]. split; [lia|].
  split; [intros Hb; replace (last + 1 - 1) with last by lia; apply H10; lia | intros i Hi; apply H11; lia].
Qed.

(** All 256 positions: no condition on the scalar. *)
Lemma wnaf_signed_bound v : 0 <= v < n -> Z.abs (wnaf_signed v) < 2 ^ (256 - 1).
Proof. intros Hv. unfold wnaf_signed, n in *. change (2 ^ (256 - 1)) with (2 ^ 255). destruct (Z.leb_spec (2 ^ 255) v); lia. Qed.

End Wnaf.
