(* ===== verification/EcmultSpec.v ===== *)
(** * Correctness of the multiplication of points

    Points whose common denominator [g] is dropped are points of the isomorphic curve
    [y^2 = x^3 + 7 g^6]; the additions of the code are the additions of that curve. *)

From Stdlib Require Import ZArith Lia List Bool.
From S2P Require Import Prelude Modulus Bytes Field FieldImpl Curve CurveGroup CurveOrder Group GroupConv Scalar ScalarImpl Endomorphism Ecmult Wnaf.
Import ListNotations.

#[local] Open Scope Z_scope.
#[local] Open Scope checked_scope.

(** ** Isomorphic curves *)

Definition pscale (g : Fp) (P : point) : point :=
  match P with
  | Infinity => Infinity
  | Affine x y => Affine (x * (g * g))%Zmod (y * (g * g * g))%Zmod
  end.

Definition cscale (g : Fp) : Fp := (toFp 7 * (g * g * g * (g * g * g)))%Zmod.

#[local] Open Scope Zmod_scope.

Lemma regular_scale g : g <> Zmod.zero -> Regular (cscale g).
Proof.
  intros Hg x E. apply (no_cube_root (x * Zmod.inv (g * g))).
  transitivity (x * x * x * Zmod.inv (g * g * g * (g * g * g))); [field; exact Hg|]. rewrite E. unfold cscale. field. exact Hg.
Qed.

Lemma pscale_on_curve g P : on_curve P -> on_curve_at (cscale g) (pscale g P).
Proof.
  destruct P as [|x y]; [trivial|]. cbn [on_curve_at pscale]. intros H.
  transitivity (y * y * (g * g * g * (g * g * g))); [ring|]. rewrite H. unfold cscale. ring.
Qed.

Lemma pscale_popp g P : pscale g (popp P) = popp (pscale g P).
Proof. destruct P as [|x y]; [reflexivity|]. cbn [popp pscale]. f_equal. ring. Qed.

Lemma pscale_one P : pscale (toFp 1) P = P.
Proof. destruct P as [|x y]; [reflexivity|]. cbn [pscale]. apply Affine_eq; ring. Qed.

Lemma eqb_scale (x y g : Fp) : g <> Zmod.zero -> Zmod.eqb (x * g) (y * g) = Zmod.eqb x y.
Proof.
  intros Hg. apply eq_true_iff_eq. rewrite !Zmod.eqb_eq. split; [|intros ->; reflexivity]. intros E.
  transitivity (x * g * Zmod.inv g); [field; exact Hg|]. rewrite E. field. exact Hg.
Qed.

Lemma pscale_padd g P Q : g <> Zmod.zero -> on_curve P -> on_curve Q -> pscale g (padd P Q) = padd (pscale g P) (pscale g Q).
Proof.
  intros Hg HP HQ. destruct P as [|x1 y1], Q as [|x2 y2]; try reflexivity.
  cbn [pscale]. unfold padd. rewrite eqb_scale by auto using Fp_mul_nonzero.
  replace (- (y2 * (g * g * g))) with (- y2 * (g * g * g)) by ring. rewrite eqb_scale by auto using Fp_mul_nonzero.
  pose proof (on_curve_y_nonzero _ _ HP). pose proof Fp_2_nonzero. destruct (Zmod.eqb_spec x1 x2) as [->|Hx].
  - destruct (Zmod.eqb y1 (- y2)); [reflexivity|]. unfold line_point, pscale. apply Affine_eq; field; auto.
  - apply not_eq_sym, sub_nonzero in Hx. unfold line_point, pscale.
    assert (x2 * (g * g) - x1 * (g * g) <> Zmod.zero) as Hx'.
    { replace (x2 * (g * g) - x1 * (g * g)) with ((x2 - x1) * (g * g)) by ring. auto using Fp_mul_nonzero. }
    apply Affine_eq; field; auto.
Qed.

(** Jacobian coordinates with the factor [g] left out of [z]. *)
Lemma pscale_jacobian g X Y Z : g <> Zmod.zero -> Z <> Zmod.zero -> pscale g (jacobian X Y (Z * g)) = jacobian X Y Z.
Proof. intros Hg HZ. unfold jacobian, pscale. apply Affine_eq; field; auto. Qed.

Lemma pscale_inj g P Q : g <> Zmod.zero -> pscale g P = pscale g Q -> P = Q.
Proof.
  intros Hg. destruct P as [|x y], Q as [|x' y']; try discriminate; [reflexivity|]. cbn [pscale]. intros E.
  assert (x * (g * g) = x' * (g * g)) as Ex by congruence. assert (y * (g * g * g) = y' * (g * g * g)) as Ey by congruence.
  apply Affine_eq; apply Zmod.eqb_eq; [rewrite <- (eqb_scale x x' (g * g)) | rewrite <- (eqb_scale y y' (g * g * g))];
    auto using Fp_mul_nonzero; apply Zmod.eqb_eq; assumption.
Qed.

Lemma pscale_plambda g P : plambda (pscale g P) = pscale g (plambda P).
Proof. destruct P as [|x y]; [reflexivity|]. cbn [plambda pscale]. apply Affine_eq; ring. Qed.

#[local] Close Scope Zmod_scope.

Section Spec.
Context {F : FieldOps} {SO : ScalarOps} {M : Memory F SO} {L : FieldLaws F} {LS : ScalarLaws SO}.

Lemma ge_scaled_pscale a g P : g <> Zmod.zero -> ge_scaled_ok a g P -> ge_ok a (pscale g P) /\ ge_infinity a = false.
Proof.
  intros Hg (X & Y & Hx & Hy & Hi & ->). split; [|exact Hi]. exists X, Y. split; [exact Hx|]. split; [exact Hy|]. rewrite Hi.
  unfold jacobian, pscale. apply Affine_eq; field; exact Hg.
Qed.

(** A finite result does not depend on what the output held. *)
Ltac fresh_output H HQ Ia :=
  repeat match goal with
    | |- Returns (bind ?m _) _ => let E := fresh in destruct m eqn:E; cbn [bind] in *; [|contradiction]
    | |- Returns (if ?c then _ else _) _ => destruct c
    end; try exact H;
  [unfold secp256k1_gej_double_var in *; rewrite Ia in *; exact H | apply HQ in H; discriminate].

Lemma gej_add_ge_var_fresh r r' a b rzr Q : Returns (secp256k1_gej_add_ge_var r a b rzr) Q ->
  (forall q z, Q (q, z) -> gej_infinity q = false) -> Returns (secp256k1_gej_add_ge_var r' a b rzr) Q.
Proof.
  intros H HQ. unfold secp256k1_gej_add_ge_var in *. destruct (gej_infinity a) eqn:Ia; [exact H|]. destruct (ge_infinity b); [exact H|].
  fresh_output H HQ Ia.
Qed.

Lemma gej_add_var_fresh r r' a b rzr Q : Returns (secp256k1_gej_add_var r a b rzr) Q ->
  (forall q z, Q (q, z) -> gej_infinity q = false) -> Returns (secp256k1_gej_add_var r' a b rzr) Q.
Proof.
  intros H HQ. unfold secp256k1_gej_add_var in *. destruct (gej_infinity a) eqn:Ia; [exact H|]. destruct (gej_infinity b); [exact H|].
  fresh_output H HQ Ia.
Qed.

Lemma gej_ok_finite q P : gej_ok q P -> P <> Infinity -> gej_infinity q = false.
Proof. intros (X & Y & Z & _ & HP) Hinf. destruct (gej_infinity q); [contradiction | reflexivity]. Qed.

Lemma ge_ok_finite q P : ge_ok q P -> P <> Infinity -> ge_infinity q = false.
Proof. intros (X & Y & _ & _ & HP) Hinf. destruct (ge_infinity q); [contradiction | reflexivity]. Qed.

(** ** Tables of odd multiples *)

Definition fe_val (a : secp256k1_fe) : Fp := toFp (fe_Z a).

(** Entry [j] of the table under construction, on the curve where the double of the
    point is affine. *)
Definition odd_entry (g : Fp) (A : point) (q : secp256k1_gej) (j : nat) : Prop :=
  exists X Y, gej_coords q X Y (fe_val (gej_z q)) /\ gej_infinity q = false /\ fe_val (gej_z q) <> Zmod.zero /\
    jacobian X Y (fe_val (gej_z q)) = pscale g (pmul (2 * Z.of_nat j + 1) A).

Lemma odd_entry_intro g A q j : gej_ok q (pscale g (pmul (2 * Z.of_nat j + 1) A)) -> gej_infinity q = false -> odd_entry g A q j.
Proof.
  intros (X & Y & Z & Hc & HP) Hi. rewrite Hi in HP. destruct HP as [Hnz HP]. exists X, Y.
  destruct Hc as (Hx & Hy & Hz). assert (fe_val (gej_z q) = Z) as -> by apply Hz. repeat split; auto; apply Hx || apply Hy || apply Hz.
Qed.

Lemma odd_entry_ok g A q j : odd_entry g A q j -> gej_ok q (pscale g (pmul (2 * Z.of_nat j + 1) A)).
Proof. intros (X & Y & Hc & Hi & Hnz & <-). exists X, Y, (fe_val (gej_z q)). rewrite Hi. auto. Qed.

Section OddMultiples.
Context (A : point) (g : Fp) (HA : on_curve A) (Hfin : A <> Infinity) (Hg : g <> Zmod.zero).
Context (d_ge : secp256k1_ge) (Hd : ge_ok d_ge (pscale g (pmul 2 A))).

(** The first [i] entries are built. *)
Definition odd_table (i : nat) (prej : list secp256k1_gej) (zr : list secp256k1_fe) : Prop :=
  (forall j, (j < i)%nat -> odd_entry g A (nth j prej uninit_gej) j) /\
  (forall j, (S j < i)%nat -> exists v, fe_ok (nth (S j) zr uninit_fe) 8 v /\
     fe_val (gej_z (nth (S j) prej uninit_gej)) = (fe_val (gej_z (nth j prej uninit_gej)) * v)%Zmod).

Lemma odd_step q j r z0 : odd_entry g A q j -> 2 * (Z.of_nat j + 1) + 1 < n ->
  Returns (secp256k1_gej_add_ge_var r q d_ge (Some z0)) (fun '(q', z) => odd_entry g A q' (j + 1) /\
    exists z' v, z = Some z' /\ fe_ok z' 8 v /\ fe_val (gej_z q') = (fe_val (gej_z q) * v)%Zmod).
Proof.
  intros Hq Hj. pose proof (odd_entry_ok _ _ _ _ Hq) as Hok. pose proof (gej_ok_wf _ _ Hok) as Hwf.
  destruct Hq as (X & Y & Hc & Hi & _ & _). apply (gej_add_ge_var_fresh q).
  - eapply Returns_mono; [apply (gej_add_ge_var_ok (cb := cscale g) (Hreg := regular_scale g Hg) q q d_ge _ _ (Some z0) Hwf Hok Hd)|].
    + apply pscale_on_curve. auto with curve.
    + apply pscale_on_curve. auto with curve.
    + congruence.
    + intros [q' z] [Hr Hz]. rewrite <- pscale_padd, <- pmul_add in Hr by auto with curve.
      replace (2 * Z.of_nat j + 1 + 2) with (2 * Z.of_nat (j + 1) + 1) in Hr by lia.
      assert (gej_infinity q' = false) as Hi'.
      { destruct Hr as (X' & Y' & Z' & _ & HP). destruct (gej_infinity q') eqn:E; [|reflexivity]. exfalso.
        pose proof (pmul_finite (2 * Z.of_nat (j + 1) + 1) A HA Hfin ltac:(lia)) as Hn. destruct (pmul (2 * Z.of_nat (j + 1) + 1) A); [contradiction | discriminate]. }
      split; [apply odd_entry_intro; assumption|]. destruct z as [z|]; [|contradiction]. destruct Hz as (v & Hv & Hz).
      exists z, v. split; [reflexivity|]. split; [exact Hv|]. destruct Hc as (_ & _ & Hcz). destruct (Hz Hi' _ Hcz) as (_ & _ & E). exact E.
  - intros q' z [(X' & Y' & _ & Hi' & _) _]. exact Hi'.
Qed.

Lemma odd_multiples_loop_ok k i prej zr : (0 < i)%nat -> length prej = (i + k)%nat -> length zr = (i + k)%nat -> 2 * Z.of_nat (i + k) < n ->
  odd_table i prej zr ->
  Returns (odd_multiples_loop k i prej zr d_ge) (fun '(prej', zr') =>
    odd_table (i + k) prej' zr' /\ length prej' = (i + k)%nat /\ length zr' = (i + k)%nat).
Proof.
  revert i prej zr. induction k as [|k IH]; intros i prej zr Hi Hp Hz Hn [T1 T2]; cbn [odd_multiples_loop].
  { rewrite Nat.add_0_r in *. apply Returns_ret. repeat split; auto. }
  eapply Returns_bind; [apply (odd_step _ (i - 1)%nat); [apply T1; lia | lia]|].
  intros [q z] (Hq & z' & v & -> & Hv & E). replace (i - 1 + 1)%nat with i in Hq by lia. cbv zeta.
  replace (i + S k)%nat with (i + 1 + k)%nat in * by lia.
  apply IH; [lia | rewrite length_upd; lia | rewrite length_upd; lia | lia|]. split; intros j Hj.
  - rewrite nth_upd by lia. destruct (Nat.eqb_spec j i) as [->|]; [exact Hq | apply T1; lia].
  - rewrite !nth_upd by lia. destruct (Nat.eqb_spec (S j) i) as [Ej|], (Nat.eqb_spec j i) as [|]; try lia; [|apply T2; lia].
    exists v. split; [exact Hv|]. replace (i - 1)%nat with j in E by lia. exact E.
Qed.

End OddMultiples.

Lemma gej_double_var_fresh r r' a rzr : gej_infinity a = false -> secp256k1_gej_double_var r a rzr = secp256k1_gej_double_var r' a rzr.
Proof. intros Ia. unfold secp256k1_gej_double_var. rewrite Ia. reflexivity. Qed.

Lemma odd_multiples_table_ok N prej zr a A : gej_ok a A -> on_curve A -> gej_infinity a = false -> (0 < N)%nat -> 2 * Z.of_nat N < n ->
  length prej = N -> length zr = N ->
  Returns (secp256k1_ecmult_odd_multiples_table N prej zr a) (fun '(prej', zr') =>
    exists Z, table_ok prej' zr' N Z (fun j => pmul (2 * Z.of_nat j + 1) A)).
Proof.
  intros Ha HA Ia HN Hn Hlp Hlz. unfold secp256k1_ecmult_odd_multiples_table. apply Returns_check; [rewrite Ia; reflexivity|].
  pose proof Ha as (X & Y & Z & Hc & HP). rewrite Ia in HP. destruct HP as [HZ EA].
  assert (A <> Infinity) as Hfin by (rewrite EA; discriminate).
  rewrite (gej_double_var_fresh _ a) by exact Ia.
  eapply Returns_bind; [apply (gej_double_var_ok a a A None (gej_ok_wf _ _ Ha) Ha HA)|]. intros [d z0] [Hd _].
  change (padd A A) with (pmul 2 A) in Hd. assert (pmul 2 A <> Infinity) as Hfin2 by (apply pmul_finite; [exact HA | exact Hfin | split; reflexivity]).
  destruct Hd as (Xd & Yd & g & (Hxd & Hyd & Hzd) & HPd). destruct (gej_infinity d); [contradiction|]. destruct HPd as [Hg Ed].
  cbv zeta. set (d_ge := mk_ge (gej_x d) (gej_y d) false).
  assert (ge_ok d_ge (pscale g (pmul 2 A))) as Hdge.
  { rewrite Ed. exists Xd, Yd. split; [exact Hxd|]. split; [exact Hyd|]. unfold jacobian, pscale. apply Affine_eq; field; exact Hg. }
  eapply Returns_bind; [apply (ge_set_gej_zinv_ok a (gej_z d) X Y g (proj1 Hc) (proj1 (proj2 Hc)) Hzd)|]. intros a_ge (Hxa & Hya & _).
  eapply Returns_bind; [apply (odd_multiples_loop_ok A g HA Hfin Hg d_ge Hdge (N - 1) 1); rewrite ?length_upd; try lia|].
  { split; intros j Hj; [|lia]. replace j with 0%nat by lia. rewrite nth_upd by lia. cbn [Nat.eqb]. apply odd_entry_intro; [|reflexivity].
    apply (gej_ok_intro _ _ _ (X * (g * g))%Zmod (Y * (g * g * g))%Zmod Z); try exact HZ.
    - exact (fe_ok_mono _ 1 8 _ Hxa ltac:(lia)).
    - exact (fe_ok_mono _ 1 8 _ Hya ltac:(lia)).
    - apply Hc.
    - change (pmul (2 * Z.of_nat 0 + 1) A) with A. rewrite EA. unfold jacobian, pscale. apply Affine_eq; field; exact HZ. }
  replace (1 + (N - 1))%nat with N by lia. intros [prej' zr'] ([T1 T2] & Hlp' & Hlz').
  destruct (T1 (N - 1)%nat ltac:(lia)) as (Xl & Yl & Hcl & Il & Hzl & _).
  eapply Returns_bind; [eapply fe_mul_ok; [apply Hcl | exact Hzd | lia | lia]|]. intros z Hz. apply Returns_ret.
  exists (fun j => (fe_val (gej_z (nth j prej' uninit_gej)) * g)%Zmod). split.
  - intros j Hj. rewrite nth_upd by lia. destruct (T1 j Hj) as (Xj & Yj & Hcj & Ij & Hzj & Ej). exists Xj, Yj.
    assert (fe_val (gej_z (nth j prej' uninit_gej)) * g <> Zmod.zero)%Zmod as Hnz by (apply Fp_mul_nonzero; assumption).
    rewrite (nth_indep prej' secp256k1_gej_clear uninit_gej) by lia.
    assert (pmul (2 * Z.of_nat j + 1) A = jacobian Xj Yj (fe_val (gej_z (nth j prej' uninit_gej)) * g)%Zmod) as Ep.
    { apply (pscale_inj g); [exact Hg|]. rewrite pscale_jacobian by assumption. symmetry. exact Ej. }
    destruct (Nat.eqb_spec j (N - 1)) as [->|]; cbn [gej_x gej_y gej_infinity]; repeat split; auto; apply Hcj.
  - intros _. rewrite nth_upd, Nat.eqb_refl by lia. cbn [gej_z]. exact (fe_ok_mono _ 1 8 _ Hz ltac:(lia)).
  - intros j Hj. destruct (T2 j Hj) as (v & Hv & Ev). exists v. rewrite (nth_indep zr' secp256k1_fe_clear uninit_fe) by lia.
    split; [exact Hv|]. rewrite Ev. ring.
Qed.

(** A table of [size] odd multiples with the denominator [g] dropped. *)
Definition window_table (size : nat) (pre : list secp256k1_ge) (g : Fp) (A : point) : Prop :=
  forall j, (j < size)%nat -> ge_ok (nth j pre uninit_ge) (pscale g (pmul (2 * Z.of_nat j + 1) A)) /\ ge_infinity (nth j pre uninit_ge) = false.

Lemma table_globalz_windowa_ok pre globalz a A : gej_ok a A -> on_curve A -> gej_infinity a = false -> length pre = ECMULT_TABLE_SIZE WINDOW_A ->
  Returns (secp256k1_ecmult_odd_multiples_table_globalz_windowa pre globalz a) (fun '(pre', z) =>
    exists g, g <> Zmod.zero /\ fe_ok z 8 g /\ length pre' = length pre /\ window_table (ECMULT_TABLE_SIZE WINDOW_A) pre' g A).
Proof.
  intros Ha HA Ia Hl. unfold secp256k1_ecmult_odd_multiples_table_globalz_windowa. change (ECMULT_TABLE_SIZE WINDOW_A) with 8%nat in *.
  eapply Returns_bind; [apply (odd_multiples_table_ok 8 _ _ a A Ha HA Ia); [lia | reflexivity | apply repeat_length | apply repeat_length]|].
  intros [prej zr] [Z T].
  eapply Returns_mono; [apply (ge_globalz_set_table_gej_ok prej zr 8 Z _ pre globalz T); lia|].
  intros [pre' z] (Hl' & Hz & Hnz & H). exists (Z 7%nat). split; [exact Hnz|]. split; [exact Hz|]. split; [exact Hl'|].
  intros j Hj. rewrite (nth_indep pre' uninit_ge secp256k1_ge_clear) by lia. apply ge_scaled_pscale; [exact Hnz | apply H; exact Hj].
Qed.

Lemma table_get_ge_ok pre g A k : g <> Zmod.zero -> on_curve A -> window_table (ECMULT_TABLE_SIZE WINDOW_A) pre g A ->
  naf_digit WINDOW_A k -> k <> 0 ->
  Returns (ECMULT_TABLE_GET_GE pre k WINDOW_A) (fun r => ge_ok r (pscale g (pmul k A))).
Proof.
  intros Hg HA T [Hk|[Ho Hk]] Hnz; [contradiction|]. unfold ECMULT_TABLE_GET_GE, WINDOW_A in *. change (2 ^ (5 - 1)) with 16 in Hk.
  change (ECMULT_TABLE_SIZE 5) with 8%nat in T. apply Z.odd_spec in Ho as [m ->].
  apply Returns_check; [change 1 with (Z.ones 1) at 2; rewrite Z.land_ones by lia; apply Z.eqb_eq; rewrite Z.add_comm, Z.mul_comm, Z.mod_add by lia; reflexivity|].
  change (Z.shiftl 1 (5 - 1)) with 16. apply Returns_check; [apply Z.leb_le; lia|]. apply Returns_check; [apply Z.leb_le; lia|].
  destruct (Z.ltb_spec 0 (2 * m + 1)).
  - apply Returns_ret. replace ((2 * m + 1 - 1) / 2) with m by (replace (2 * m + 1 - 1) with (m * 2) by ring; rewrite Z.div_mul; lia).
    destruct (T (Z.to_nat m) ltac:(lia)) as [H1 _]. rewrite Z2Nat.id in H1 by lia. exact H1.
  - replace ((- (2 * m + 1) - 1) / 2) with (- m - 1) by (replace (- (2 * m + 1) - 1) with ((- m - 1) * 2) by ring; rewrite Z.div_mul; lia).
    destruct (T (Z.to_nat (- m - 1)) ltac:(lia)) as [H1 _]. rewrite Z2Nat.id in H1 by lia.
    eapply Returns_mono; [apply (ge_neg_ok _ _ H1)|]. intros r Hr.
    rewrite <- pscale_popp, <- pmul_opp in Hr by exact HA. replace (- (2 * (- m - 1) + 1)) with (2 * m + 1) in Hr by ring. exact Hr.
Qed.

Lemma mul_lambda_table_ok pre : forall P, (forall j, (j < length pre)%nat -> ge_ok (nth j pre uninit_ge) (P j)) ->
  Returns (mul_lambda_table pre) (fun pre' => length pre' = length pre /\ forall j, (j < length pre)%nat ->
    ge_ok (nth j pre' uninit_ge) (plambda (P j)) /\ ge_y (nth j pre' uninit_ge) = ge_y (nth j pre uninit_ge) /\
    ge_infinity (nth j pre' uninit_ge) = ge_infinity (nth j pre uninit_ge)).
Proof.
  induction pre as [|e pre IH]; intros P HP; cbn [mul_lambda_table length]; [apply Returns_ret; split; [reflexivity | intros j Hj; lia]|].
  eapply Returns_bind; [apply (ge_mul_lambda_ok e _ (HP O ltac:(cbn; lia)))|]. intros l Hl.
  eapply Returns_bind; [apply (IH (fun j => P (S j))); intros j Hj; apply (HP (S j)); cbn; lia|]. intros rest [Lr Hr]. apply Returns_ret.
  split; [cbn; lia|]. intros [|j] Hj; cbn [nth]; [exact Hl | apply Hr; lia].
Qed.

Lemma window_table_lambda size pre g A : on_curve A -> length pre = size -> window_table size pre g A ->
  Returns (mul_lambda_table pre) (fun pre' => length pre' = size /\ window_table size pre' g (plambda A)).
Proof.
  intros HA <- T. eapply Returns_mono; [apply (mul_lambda_table_ok pre (fun j => pscale g (pmul (2 * Z.of_nat j + 1) A))); intros j Hj; apply T, Hj|].
  intros pre' [Hl H]. split; [exact Hl|]. intros j Hj. destruct (H j Hj) as (H1 & _ & H2). rewrite pscale_plambda, plambda_pmul in H1 by exact HA.
  split; [exact H1|]. rewrite H2. apply T, Hj.
Qed.

(** ** The tables of the context *)

Definition g_table (pre : list secp256k1_ge_storage) (B : point) : Prop :=
  length pre = ECMULT_TABLE_SIZE WINDOW_G /\
  forall j, (j < ECMULT_TABLE_SIZE WINDOW_G)%nat -> ge_storage_ok (nth j pre uninit_ge_storage) (pmul (2 * Z.of_nat j + 1) B).

Definition G_128 : point := pmul (2 ^ 128) G.

(** A context that is built: odd multiples of the generator and, with the
    endomorphism, of [2^128] times the generator. *)
Definition ecmult_ready (ctx : secp256k1_ecmult_context) : Prop :=
  (exists pre, pre_g ctx = Some pre /\ g_table pre G) /\
  (USE_ENDOMORPHISM = true -> exists pre, pre_g_128 ctx = Some pre /\ g_table pre G_128).

Lemma window_g_range : 15 <= WINDOW_G <= 16.
Proof. unfold WINDOW_G. destruct USE_ENDOMORPHISM; lia. Qed.

Lemma window_g_size : Z.of_nat (ECMULT_TABLE_SIZE WINDOW_G) = 2 ^ (WINDOW_G - 2).
Proof. unfold ECMULT_TABLE_SIZE. pose proof window_g_range. rewrite Z.shiftl_1_l, Z2Nat.id; [reflexivity | apply Z.pow_nonneg; lia]. Qed.

Lemma to_storage_loop_ok P : forall prea i pre, (i + length prea <= length pre)%nat ->
  (forall j, (j < length prea)%nat -> ge_ok (nth j prea uninit_ge) (P (i + j)%nat) /\ P (i + j)%nat <> Infinity) ->
  (forall j, (j < i)%nat -> ge_storage_ok (nth j pre uninit_ge_storage) (P j)) ->
  Returns (to_storage_loop i pre prea) (fun pre' => length pre' = length pre /\
    forall j, (j < i + length prea)%nat -> ge_storage_ok (nth j pre' uninit_ge_storage) (P j)).
Proof.
  induction prea as [|q prea IH]; intros i pre Hl Hq Hp; cbn [to_storage_loop].
  { apply Returns_ret. split; [reflexivity|]. intros j Hj. apply Hp. cbn [length] in Hj. lia. }
  cbn [length] in Hl. destruct (Hq 0%nat ltac:(cbn; lia)) as [H0 Hf]. cbn [nth] in H0. rewrite Nat.add_0_r in *.
  assert (ge_infinity q = false) as Iq by (destruct H0 as (x & y & _ & _ & E); destruct (ge_infinity q); [contradiction | reflexivity]).
  eapply Returns_bind; [apply (ge_to_storage_ok q _ H0 Iq)|]. intros s Hs.
  eapply Returns_mono; [apply (IH (i + 1)%nat (upd pre i s))|].
  - rewrite length_upd. lia.
  - intros j Hj. specialize (Hq (S j) ltac:(cbn [length]; lia)). cbn [nth] in Hq. replace (i + 1 + j)%nat with (i + S j)%nat by lia. exact Hq.
  - intros j Hj. rewrite nth_upd by lia. destruct (Nat.eqb_spec j i) as [->|]; [exact Hs | apply Hp; lia].
  - intros pre' [H1 H2]. rewrite length_upd in H1. split; [exact H1|]. intros j Hj. apply H2. cbn [length] in Hj. lia.
Qed.

Lemma table_storage_ok N pre a A : gej_ok a A -> on_curve A -> gej_infinity a = false -> (0 < N)%nat -> 2 * Z.of_nat N < n -> length pre = N ->
  Returns (secp256k1_ecmult_odd_multiples_table_storage_var N pre a) (fun pre' => length pre' = N /\
    forall j, (j < N)%nat -> ge_storage_ok (nth j pre' uninit_ge_storage) (pmul (2 * Z.of_nat j + 1) A)).
Proof.
  intros Ha HA Ia HN Hn Hl. unfold secp256k1_ecmult_odd_multiples_table_storage_var.
  assert (A <> Infinity) as Hfin by (destruct Ha as (X & Y & Z & _ & E); rewrite Ia in E; destruct E as [_ ->]; discriminate).
  eapply Returns_bind; [apply (odd_multiples_table_ok N _ _ a A Ha HA Ia HN Hn); apply repeat_length|]. intros [prej zr] [Z T].
  eapply Returns_bind; [apply (ge_set_table_gej_var_ok prej zr N Z _ _ T); rewrite repeat_length; lia|]. rewrite repeat_length. intros prea [Hlp Hp].
  eapply Returns_mono; [apply (to_storage_loop_ok (fun j => pmul (2 * Z.of_nat j + 1) A) prea 0 pre); [lia | | lia]|].
  - intros j Hj. rewrite (nth_indep prea uninit_ge secp256k1_ge_clear) by lia. split; [apply Hp; lia | apply pmul_finite; [exact HA | exact Hfin | lia]].
  - intros pre' [H1 H2]. split; [lia|]. intros j Hj. apply H2. lia.
Qed.

Lemma G_128_on_curve : on_curve G_128.
Proof. apply pmul_on_curve, G_on_curve. Qed.

Lemma halves_point u v x : x = u + v * 2 ^ 128 -> padd (pmul u G) (pmul v G_128) = pmul x G.
Proof. unfold G_128. generalize (2 ^ 128). intros W ->. rewrite pmul_add, pmul_mul by apply G_on_curve. reflexivity. Qed.

Lemma doublings_128_ok gj : gej_ok gj G ->
  Returns (repeat_checked 128 (fun g => ' (g, _) <- secp256k1_gej_double_var g g None;; ret g) gj) (fun g => gej_ok g G_128).
Proof.
  intros Hgj. unfold G_128. change (2 ^ 128) with (2 ^ Z.of_nat 128). apply (Returns_repeat 128 _ gj (fun i g => gej_ok g (pmul (2 ^ Z.of_nat i) G))).
  - change (2 ^ Z.of_nat 0) with 1. rewrite pmul_1. exact Hgj.
  - intros i y _ Hy. eapply Returns_bind; [apply (gej_double_var_ok y y _ None (gej_ok_wf _ _ Hy) Hy); auto with curve|].
    intros [y' z'] [Hy' _]. apply Returns_ret. rewrite <- pmul_double, <- Z.pow_succ_r, <- Nat2Z.inj_succ in Hy' by (auto with curve || lia). exact Hy'.
Qed.

Lemma G_128_finite : G_128 <> Infinity.
Proof. apply pmul_finite; [apply G_on_curve | discriminate | split; reflexivity]. Qed.

#[local] Opaque G_128.

Lemma g_table_built gj B : gej_ok gj B -> on_curve B -> gej_infinity gj = false ->
  Returns (secp256k1_ecmult_odd_multiples_table_storage_var (ECMULT_TABLE_SIZE WINDOW_G) (repeat uninit_ge_storage (ECMULT_TABLE_SIZE WINDOW_G)) gj)
    (fun pre => g_table pre B).
Proof.
  intros Hgj HB Ig. pose proof window_g_size as Hsz. pose proof window_g_range. unfold g_table. set (N := ECMULT_TABLE_SIZE WINDOW_G) in *.
  assert (0 < 2 ^ (WINDOW_G - 2) <= 2 ^ 14) by (split; [apply Z.pow_pos_nonneg | apply Z.pow_le_mono_r]; lia).
  apply (table_storage_ok N _ gj B Hgj HB Ig); [lia | unfold n; lia | apply repeat_length].
Qed.

Lemma ecmult_context_build_ok ctx : (pre_g ctx = None \/ ecmult_ready ctx) ->
  Returns (secp256k1_ecmult_context_build ctx) ecmult_ready.
Proof.
  intros [E|H]; unfold secp256k1_ecmult_context_build; [|pose proof H as [(pre & E & Hp) _]; rewrite E; exact H].
  rewrite E. eapply Returns_bind; [apply (gej_set_ge_ok _ _ ge_const_g_ok)|]. intros gj Hgj. cbv zeta.
  eapply Returns_bind; [apply (g_table_built gj G Hgj G_on_curve), (gej_ok_finite _ _ Hgj); discriminate|]. intros pre Hp.
  destruct USE_ENDOMORPHISM eqn:Ee; [|apply Returns_ret; split; [exists pre; auto | congruence]].
  eapply Returns_bind; [apply (doublings_128_ok gj Hgj)|]. intros g128 Hg128.
  eapply Returns_bind; [exact (g_table_built g128 G_128 Hg128 G_128_on_curve (gej_ok_finite _ _ Hg128 G_128_finite))|]. intros pre128 Hp128.
  apply Returns_ret. split; [exists pre; exact (conj eq_refl Hp) | intros _; exists pre128; exact (conj eq_refl Hp128)].
Qed.

Lemma table_get_storage_ok pre B k : on_curve B -> g_table pre B -> naf_digit WINDOW_G k -> k <> 0 ->
  Returns (ECMULT_TABLE_GET_GE_STORAGE pre k WINDOW_G) (fun r => ge_ok r (pmul k B)).
Proof.
  intros HB [_ T] [Hk|[Ho Hk]] Hnz; [contradiction|]. pose proof window_g_size as Hsz. pose proof window_g_range as Hw. unfold ECMULT_TABLE_GET_GE_STORAGE.
  set (N := ECMULT_TABLE_SIZE WINDOW_G) in *. rewrite Z.shiftl_1_l. assert (2 ^ (WINDOW_G - 1) = 2 * 2 ^ (WINDOW_G - 2)) as E2 by (rewrite <- Z.pow_succ_r by lia; f_equal; lia).
  rewrite E2 in *. clearbody N. set (W := 2 ^ (WINDOW_G - 2)) in *. clearbody W. apply Z.odd_spec in Ho as [m ->].
  apply Returns_check; [change 1 with (Z.ones 1) at 2; rewrite Z.land_ones by lia; apply Z.eqb_eq; rewrite Z.add_comm, Z.mul_comm, Z.mod_add by lia; reflexivity|].
  apply Returns_check; [apply Z.leb_le; lia|]. apply Returns_check; [apply Z.leb_le; lia|].
  destruct (Z.ltb_spec 0 (2 * m + 1)).
  - apply Returns_ret. replace ((2 * m + 1 - 1) / 2) with m by (replace (2 * m + 1 - 1) with (m * 2) by ring; rewrite Z.div_mul; lia).
    pose proof (T (Z.to_nat m) ltac:(lia)) as H1. rewrite Z2Nat.id in H1 by lia. apply ge_from_storage_ok, H1.
  - replace ((- (2 * m + 1) - 1) / 2) with (- m - 1) by (replace (- (2 * m + 1) - 1) with ((- m - 1) * 2) by ring; rewrite Z.div_mul; lia).
    pose proof (T (Z.to_nat (- m - 1)) ltac:(lia)) as H1. rewrite Z2Nat.id in H1 by lia.
    eapply Returns_mono; [apply ge_neg_ok, ge_from_storage_ok, H1|]. intros r Hr.
    rewrite <- pmul_opp in Hr by exact HB. replace (- (2 * (- m - 1) + 1)) with (2 * m + 1) in Hr by ring. exact Hr.
Qed.

(** ** The sum *)

Lemma gej_add_zinv_scaled r b P Q z g : g <> Zmod.zero -> gej_ok r (pscale g P) -> ge_ok b Q -> fe_ok z 8 g -> on_curve P -> on_curve Q ->
  Returns (secp256k1_gej_add_zinv_var r r b z) (fun r' => gej_ok r' (pscale g (padd P Q))).
Proof.
  intros Hg Hr (X & Y & Hx & Hy & EQ) Hz HP HQ. assert (zinv_point b X Y g = pscale g Q) as E by (unfold zinv_point; rewrite EQ; destruct (ge_infinity b); reflexivity).
  rewrite pscale_padd, <- E by assumption.
  apply (gej_add_zinv_var_ok (cb := cscale g) (Hreg := regular_scale g Hg) r r b _ z X Y g (gej_ok_wf _ _ Hr) Hr Hx Hy Hz);
    [|rewrite E]; apply pscale_on_curve; assumption.
Qed.

(** Digits and the point whose multiple they write. *)
Definition strand : Type := list Z * point.

(** The sum of the multiples of the points that [f] gives. *)
Definition combination (f : list Z -> Z) (ss : list strand) : point := fold_right (fun s acc => padd (pmul (f (fst s)) (snd s)) acc) Infinity ss.

Definition strands_on_curve : list strand -> Prop := Forall (fun s => on_curve (snd s)).

Lemma combination_on_curve f ss : strands_on_curve ss -> on_curve (combination f ss).
Proof. induction 1; cbn [combination fold_right]; [exact I | auto with curve]. Qed.

#[local] Hint Resolve combination_on_curve : curve.

(** Digits in front of the values of radix [c]. *)
Lemma combination_step c f d v ss : strands_on_curve ss -> (forall s, In s ss -> v (fst s) = d (fst s) + c * f (fst s)) ->
  combination v ss = padd (pmul c (combination f ss)) (combination d ss).
Proof.
  induction 1 as [|[l B] ss HB Hss IH]; intros E; [cbn [combination fold_right]; rewrite pmul_infinity; reflexivity|]. cbn [combination fold_right fst snd] in *.
  fold (combination v ss) (combination f ss) (combination d ss) in *. rewrite IH by (intros s Hs; apply E; right; exact Hs). specialize (E (l, B) (or_introl eq_refl)). cbn [fst] in E.
  rewrite E, pmul_add, pmul_mul, pmul_padd, (padd_comm (pmul (d l) B)) by auto with curve. apply padd_swap; auto with curve.
Qed.

Lemma combination_zero f ss : (forall s, In s ss -> f (fst s) = 0) -> combination f ss = Infinity.
Proof.
  induction ss as [|[l B] ss IH]; intros Hz; [reflexivity|]. cbn [combination fold_right fst snd].
  pose proof (Hz (l, B) (or_introl eq_refl)) as E. cbn [fst] in E. rewrite E. apply IH. intros s Hs. exact (Hz s (or_intror Hs)).
Qed.

(** The digits at [i], and the numbers that the digits from [i] on write. *)
Definition digits_sum (i : nat) : list strand -> point := combination (fun l => nth i l 0).
Definition strands_sum (i : nat) : list strand -> point := combination (naf_from i).

Section Sum.
Context (g : Fp) (Hg : g <> Zmod.zero).

(** The code [add] adds the digit [i] of the strand to the sum. *)
Definition adds_digit (i : nat) (add : Z -> secp256k1_gej -> checked secp256k1_gej) (s : strand) : Prop :=
  forall r P, on_curve P -> gej_ok r (pscale g P) ->
    Returns (add (Z.of_nat i) r) (fun r' => gej_ok r' (pscale g (padd P (pmul (nth i (fst s) 0) (snd s))))).

Lemma add_window_a_ok A pre l bits : on_curve A -> window_table (ECMULT_TABLE_SIZE WINDOW_A) pre g A -> (forall i, naf_digit WINDOW_A (nth i l 0)) ->
  (forall i, bits <= Z.of_nat i -> nth i l 0 = 0) -> forall i, adds_digit i (add_window_a pre l bits) (l, A).
Proof.
  intros HA T Hd He i r P HP Hr. unfold add_window_a. cbv zeta. cbn [fst snd]. rewrite Nat2Z.id.
  destruct (Z.eqb_spec (nth i l 0) 0) as [E0|E0]; [rewrite andb_false_r, E0, padd_infinity_r; apply Returns_ret; exact Hr|].
  destruct (Z.ltb_spec (Z.of_nat i) bits) as [_|Hb]; [|exfalso; apply E0, He, Hb]. cbn [andb negb].
  eapply Returns_bind; [apply (table_get_ge_ok pre g A _ Hg HA T (Hd i) E0)|]. intros tmpa Ht.
  eapply Returns_bind; [apply (gej_add_ge_var_ok (cb := cscale g) (Hreg := regular_scale g Hg) r r tmpa _ _ None (gej_ok_wf _ _ Hr) Hr Ht)|].
  - apply pscale_on_curve, HP.
  - apply pscale_on_curve. auto with curve.
  - reflexivity.
  - intros [r2 z2] [Hr2 _]. apply Returns_ret. rewrite <- pscale_padd in Hr2 by auto with curve. exact Hr2.
Qed.

Lemma add_window_g_ok B pre z l bits : on_curve B -> g_table pre B -> fe_ok z 8 g -> (forall i, naf_digit WINDOW_G (nth i l 0)) ->
  (forall i, bits <= Z.of_nat i -> nth i l 0 = 0) -> forall i, adds_digit i (add_window_g (Some pre) z l bits) (l, B).
Proof.
  intros HB T Hz Hd He i r P HP Hr. unfold add_window_g. cbv zeta. cbn [fst snd]. rewrite Nat2Z.id.
  destruct (Z.eqb_spec (nth i l 0) 0) as [E0|E0]; [rewrite andb_false_r, E0, padd_infinity_r; apply Returns_ret; exact Hr|].
  destruct (Z.ltb_spec (Z.of_nat i) bits) as [_|Hb]; [|exfalso; apply E0, He, Hb]. cbn [andb negb].
  eapply Returns_bind; [apply (table_get_storage_ok pre B _ HB T (Hd i) E0)|]. intros tmpa Ht.
  apply (gej_add_zinv_scaled r tmpa _ _ z g Hg Hr Ht Hz); auto with curve.
Qed.

Lemma additions_ok i adds ss : Forall2 (adds_digit i) adds ss -> strands_on_curve ss -> forall m P, on_curve P ->
  Returns m (fun r => gej_ok r (pscale g P)) ->
  Returns (fold_left (fun m add => bind m (add (Z.of_nat i))) adds m) (fun r => gej_ok r (pscale g (padd P (digits_sum i ss)))).
Proof.
  induction 1 as [|add s adds ss Ha _ IH]; intros Hss m P HP Hm; cbn [fold_left].
  - cbn [digits_sum combination fold_right]. rewrite padd_infinity_r. exact Hm.
  - inversion Hss as [|? ? Hs Hss']; subst. unfold digits_sum in *. cbn [combination fold_right]. fold (combination (fun l => nth i l 0) ss).
    rewrite <- padd_assoc by auto with curve. apply IH; [exact Hss' | auto with curve|].
    eapply Returns_bind; [exact Hm|]. intros r Hr. exact (Ha r P HP Hr).
Qed.

Lemma ecmult_loop_ok adds ss : (forall i, Forall2 (adds_digit i) adds ss) -> strands_on_curve ss -> forall k r, gej_ok r (pscale g (strands_sum k ss)) ->
  Returns (ecmult_loop k adds r) (fun r' => gej_ok r' (pscale g (strands_sum 0 ss))).
Proof.
  intros Ha Hss. induction k as [|k IH]; intros r Hr; cbn [ecmult_loop]; [exact Hr|]. unfold strands_sum in Hr.
  eapply Returns_bind; [apply (gej_double_var_ok (cb := cscale g) (Hreg := regular_scale g Hg) r r _ None (gej_ok_wf _ _ Hr) Hr); apply pscale_on_curve; auto with curve|].
  intros [r1 z1] [Hr1 _]. rewrite <- pscale_padd in Hr1 by auto with curve.
  eapply Returns_bind; [apply (additions_ok k adds ss (Ha k) Hss (ret r1) (padd (strands_sum (S k) ss) (strands_sum (S k) ss))); [unfold strands_sum; auto with curve | exact Hr1]|].
  intros r2 Hr2. apply IH. unfold strands_sum. rewrite (combination_step 2 (naf_from (S k)) (fun l => nth k l 0)); [exact Hr2 | exact Hss|].
  intros s _. apply naf_from_step.
Qed.

End Sum.

Lemma gej_infinity_ok P : P = Infinity -> gej_ok secp256k1_gej_set_infinity P.
Proof.
  intros ->. pose proof (fe_ok_mono _ 1 8 _ (fe_norm_ok _ _ fe_clear_norm) ltac:(lia)) as H0.
  exists Zmod.zero, Zmod.zero, Zmod.zero. split; [repeat split; apply H0 | reflexivity].
Qed.

(** Back from the scaled curve. *)
Lemma unscale_ok r z g P : g <> Zmod.zero -> gej_ok r (pscale g P) -> fe_ok z 8 g ->
  Returns (secp256k1_fe_mul (gej_z r) z) (fun rz => gej_ok (mk_gej (gej_x r) (gej_y r) rz (gej_infinity r)) P).
Proof.
  intros Hg (X & Y & Zr & (Hx & Hy & Hzr) & HP) Hz.
  eapply Returns_mono; [eapply fe_mul_ok; [exact Hzr | exact Hz | lia | lia]|]. intros rz Hrz. pose proof (fe_ok_mono _ 1 8 _ Hrz ltac:(lia)) as Hrz8.
  exists X, Y, (Zr * g)%Zmod. cbn [gej_infinity]. split; [split; [exact Hx | split; [exact Hy | exact Hrz8]]|].
  destruct (gej_infinity r); [destruct P; [reflexivity | discriminate]|]. destruct HP as [HZ EP]. split; [apply Fp_mul_nonzero; assumption|].
  apply (pscale_inj g _ _ Hg). rewrite pscale_jacobian by assumption. exact EP.
Qed.

(** ** The two builds *)

Lemma max_bits_le b b' : b <= max_bits b b' /\ b' <= max_bits b b'.
Proof. unfold max_bits. destruct (Z.ltb_spec b b'); lia. Qed.

(** The digits of a short scalar. *)
Lemma short_wnaf_ok len a v w : sc_ok a v -> 129 <= len <= 256 -> 2 <= w <= 30 -> Z.abs (signed v) < 2 ^ 128 ->
  Returns (secp256k1_ecmult_wnaf len a w) (fun '(l, bits) => bits <= len /\ (forall i, naf_digit w (nth i l 0)) /\
    (forall i, bits <= Z.of_nat i -> nth i l 0 = 0) /\ forall B, on_curve B -> pmul (naf_from 0 l) B = pmul (Zmod.to_Z v) B).
Proof.
  intros [Ha Ev] Hl Hw Hs. pose proof (sc_range a Ha) as Hr. assert (wnaf_signed (sc_Z a) = signed v) as E.
  { unfold wnaf_signed, signed in *. rewrite <- Ev in *. assert (2 ^ 255 = n / 2 + (2 ^ 255 - n / 2)) by ring.
    assert (n < 2 ^ 256) by reflexivity. assert (n / 2 < 2 ^ 255) by reflexivity. assert (2 ^ 255 + 2 ^ 128 < n) by reflexivity. assert (2 ^ 128 < 2 ^ 255) by reflexivity.
    set (h := n / 2) in *. clearbody h.
    destruct (Z.leb_spec (2 ^ 255) (sc_Z a)), (Z.leb_spec (sc_Z a) h); lia. }
  assert (2 ^ 128 <= 2 ^ (len - 1)) by (apply Z.pow_le_mono_r; lia).
  eapply Returns_mono; [apply (ecmult_wnaf_ok len a w Ha); [lia | exact Hw | rewrite E; lia]|].
  intros [l bits] (_ & V & [D _] & Bl & _ & Ez). split; [lia|]. split; [exact D|]. split; [exact Ez|]. intros B HB.
  unfold naf_from. cbn [skipn]. rewrite V. apply pmul_eqm; [exact HB|]. rewrite wnaf_signed_mod, Ev. reflexivity.
Qed.

Lemma long_wnaf_ok a w : sc_wf a -> 2 <= w <= 30 ->
  Returns (secp256k1_ecmult_wnaf 256 a w) (fun '(l, bits) => (forall i, naf_digit w (nth i l 0)) /\
    (forall i, bits <= Z.of_nat i -> nth i l 0 = 0) /\ forall B, on_curve B -> pmul (naf_from 0 l) B = pmul (sc_Z a) B).
Proof.
  intros Ha Hw. eapply Returns_mono; [apply (ecmult_wnaf_ok 256 a w Ha); [lia | exact Hw | apply wnaf_signed_bound, sc_range, Ha]|].
  intros [l bits] (_ & V & [D _] & _ & _ & Ez). split; [exact D|]. split; [exact Ez|]. intros B HB.
  unfold naf_from. cbn [skipn]. rewrite V. apply pmul_eqm; [exact HB | apply wnaf_signed_mod].
Qed.

(** The halves of the factor of the generator. *)
Lemma split_128_ok a v : sc_ok a v -> let '(r1, r2) := secp256k1_scalar_split_128 a in exists v1 v2, sc_ok r1 v1 /\ sc_ok r2 v2 /\
  Z.abs (signed v1) < 2 ^ 128 /\ Z.abs (signed v2) < 2 ^ 128 /\
  padd (pmul (Zmod.to_Z v1) G) (pmul (Zmod.to_Z v2) G_128) = pmul (Zmod.to_Z v) G.
Proof.
  intros [Ha Ev]. pose proof (sc_split_128_law a Ha) as H. destruct (secp256k1_scalar_split_128 a) as [r1 r2]. destruct H as (H1 & H2 & E1 & E2).
  pose proof (sc_range a Ha) as Hr. exists (toFn (sc_Z r1)), (toFn (sc_Z r2)). split; [apply sc_ok_wf, H1|]. split; [apply sc_ok_wf, H2|].
  pose proof (Z.mod_pos_bound (sc_Z a) (2 ^ 128) ltac:(lia)) as Bm. pose proof (Z.div_mod (sc_Z a) (2 ^ 128) ltac:(lia)) as Ed.
  assert (sc_Z a / 2 ^ 128 < 2 ^ 128) as Bd by (apply Z.div_lt_upper_bound; [lia | unfold n in Hr; lia]). assert (0 <= sc_Z a / 2 ^ 128) by (apply Z.div_pos; lia).
  rewrite !signed_short by lia. split; [lia|]. split; [lia|].
  apply halves_point. assert (2 ^ 128 < n) by reflexivity. rewrite !to_Z_toFn, !(Z.mod_small _ n) by lia. lia.
Qed.

(** The sum of two multiples, up to the common denominator. *)
Definition scaled_sum (P : point) (rz : secp256k1_gej * secp256k1_fe) : Prop :=
  exists g, g <> Zmod.zero /\ fe_ok (snd rz) 8 g /\ gej_ok (fst rz) (pscale g P).

Lemma ecmult_sum_ok ctx a A na ng : ecmult_ready ctx -> gej_ok a A -> on_curve A -> gej_infinity a = false -> sc_wf na -> sc_wf ng ->
  Returns (ecmult_sum ctx a na ng) (scaled_sum (padd (pmul (sc_Z na) A) (pmul (sc_Z ng) G))).
Proof.
  intros [(pre & Epre & Tg) H128] Ha HA Ia Hna Hng. pose proof window_g_range. unfold ecmult_sum. cbv zeta. rewrite Epre. destruct USE_ENDOMORPHISM eqn:Ee.
  - destruct (H128 eq_refl) as (pre128 & -> & Tg128).
    eapply Returns_bind; [apply (sc_split_lambda_ok na _ (sc_ok_wf na Hna))|]. intros [na1 nal] (v1 & v2 & H1 & H2 & Ev & B1 & B2).
    eapply Returns_bind; [apply (short_wnaf_ok 130 na1 v1 WINDOW_A H1); [lia | unfold WINDOW_A; lia | exact B1]|]. intros [l1 b1] (Bb1 & D1 & E1 & V1).
    eapply Returns_bind; [apply (short_wnaf_ok 130 nal v2 WINDOW_A H2); [lia | unfold WINDOW_A; lia | exact B2]|]. intros [l2 b2] (Bb2 & D2 & E2 & V2).
    apply Returns_check; [apply Z.leb_le, Bb1|]. apply Returns_check; [apply Z.leb_le, Bb2|].
    eapply Returns_bind; [apply (table_globalz_windowa_ok _ _ a A Ha HA Ia); apply repeat_length|]. intros [pre_a z] (g & Hg & Hz & Lp & T). rewrite repeat_length in Lp.
    eapply Returns_bind; [apply (window_table_lambda _ pre_a g A HA Lp T)|]. intros pre_l [_ Tl].
    pose proof (split_128_ok ng _ (sc_ok_wf ng Hng)) as Hs. destruct (secp256k1_scalar_split_128 ng) as [ng1 ng128]. destruct Hs as (w1 & w2 & H3 & H4 & B3 & B4 & Ew).
    pose proof G_128_on_curve as HG. set (B := G_128) in *. clearbody B.
    eapply Returns_bind; [apply (short_wnaf_ok 129 ng1 w1 WINDOW_G H3); [lia | lia | exact B3]|]. intros [l3 b3] (_ & D3 & E3 & V3).
    eapply Returns_bind; [apply (short_wnaf_ok 129 ng128 w2 WINDOW_G H4); [lia | lia | exact B4]|]. intros [l4 b4] (_ & D4 & E4 & V4).
    pose proof (max_bits_le b1 b2). pose proof (max_bits_le (max_bits b1 b2) b3). pose proof (max_bits_le (max_bits (max_bits b1 b2) b3) b4). set (bits := max_bits _ b4) in *.
    eapply Returns_bind.
    { apply (ecmult_loop_ok g Hg _ [(l1, A); (l2, plambda A); (l3, G); (l4, B)]).
      - intros i. repeat constructor; [apply add_window_a_ok | apply add_window_a_ok | apply add_window_g_ok | apply add_window_g_ok]; auto with curve.
      - repeat constructor; cbn [snd]; auto with curve.
      - apply gej_infinity_ok. unfold strands_sum. rewrite combination_zero; [reflexivity|].
        intros s Hs. apply naf_from_zero. intros j Hj. destruct Hs as [<-|[<-|[<-|[<-|[]]]]]; [apply E1 | apply E2 | apply E3 | apply E4]; lia. }
    intros r Hr. apply Returns_ret. exists g. split; [exact Hg|]. split; [exact Hz|].
    cbn [strands_sum combination fold_right fst snd] in Hr. rewrite V1, V2, V3, V4, padd_infinity_r, Ew in Hr by auto with curve.
    rewrite <- padd_assoc, (split_lambda_point v1 v2 _ A HA Ev) in Hr by auto with curve. cbn [fst]. rewrite !to_Z_toFn, !Z.mod_small in Hr by (apply sc_range; assumption). exact Hr.
  - eapply Returns_bind; [apply (long_wnaf_ok na WINDOW_A Hna); unfold WINDOW_A; lia|]. intros [l1 b1] (D1 & E1 & V1).
    eapply Returns_bind; [apply (table_globalz_windowa_ok _ _ a A Ha HA Ia); apply repeat_length|]. intros [pre_a z] (g & Hg & Hz & _ & T).
    eapply Returns_bind; [apply (long_wnaf_ok ng WINDOW_G Hng); lia|]. intros [l2 b2] (D2 & E2 & V2).
    pose proof (max_bits_le b1 b2). set (bits := max_bits b1 b2) in *.
    eapply Returns_bind.
    { apply (ecmult_loop_ok g Hg _ [(l1, A); (l2, G)]).
      - intros i. repeat constructor; [apply add_window_a_ok | apply add_window_g_ok]; auto with curve.
      - repeat constructor; cbn [snd]; auto with curve.
      - apply gej_infinity_ok. unfold strands_sum. rewrite combination_zero; [reflexivity|].
        intros s Hs. apply naf_from_zero. intros j Hj. destruct Hs as [<-|[<-|[]]]; [apply E1 | apply E2]; lia. }
    intros r Hr. apply Returns_ret. exists g. split; [exact Hg|]. split; [exact Hz|].
    cbn [strands_sum combination fold_right fst snd] in Hr. rewrite V1, V2, padd_infinity_r in Hr by auto with curve. exact Hr.
Qed.

Lemma ecmult_ok ctx a A na ng : ecmult_ready ctx -> gej_ok a A -> on_curve A -> gej_infinity a = false -> sc_wf na -> sc_wf ng ->
  Returns (secp256k1_ecmult ctx a na ng) (fun r => gej_ok r (padd (pmul (sc_Z na) A) (pmul (sc_Z ng) G))).
Proof.
  intros Hctx Ha HA Ia Hna Hng. unfold secp256k1_ecmult.
  eapply Returns_bind; [apply (ecmult_sum_ok ctx a A na ng Hctx Ha HA Ia Hna Hng)|]. intros [r z] (g & Hg & Hz & Hr). cbn [fst snd] in *.
  destruct (gej_infinity r) eqn:Ir.
  - apply Returns_ret. destruct Hr as (X & Y & Zr & Hc & HP). exists X, Y, Zr. rewrite Ir in *. split; [exact Hc|]. destruct (padd _ _); [reflexivity | discriminate].
  - rewrite <- Ir. eapply Returns_bind; [apply (unscale_ok r z g _ Hg Hr Hz)|]. intros rz Hrz. apply Returns_ret. exact Hrz.
Qed.

End Spec.
