(* ===== verification/EcmultGen.v ===== *)
(** * Multiples of the generator: [ecmult_gen.h] and [ecmult_gen_impl.h]

    The comb with blinding, in the build that computes its table
    ([USE_ECMULT_STATIC_PRECOMPUTATION] is not set). *)

From Stdlib Require Import ZArith Lia List Bool.
From S2P Require Import Prelude Modulus Bytes Field FieldImpl Curve Group Scalar Hash Ecmult.
Import ListNotations.

#[local] Open Scope Z_scope.
#[local] Open Scope checked_scope.

(** What the uninitialized hash contexts of a function hold; the length of a buffer
    is the one of its array. *)
Class HashMemory : Type := {
  uninit_sha : secp256k1_sha256_t;
  uninit_hmac : secp256k1_hmac_sha256_t;
  uninit_sha_buf : length (sha_buf uninit_sha) = 64%nat;
  uninit_hmac_buf : length (sha_buf (inner uninit_hmac)) = 64%nat /\ length (sha_buf (outer uninit_hmac)) = 64%nat
}.

Section EcmultGen.
Context {F : FieldOps} {S : ScalarOps} {M : Memory F S} {H : HashMemory}.

(** The table is a pointer that may be NULL. *)
Record secp256k1_ecmult_gen_context : Type := mk_ecmult_gen_context {
  prec : option (list (list secp256k1_ge_storage));
  blind : secp256k1_scalar;
  initial : secp256k1_gej
}.

Definition secp256k1_ecmult_gen_context_init (ctx : secp256k1_ecmult_gen_context) : secp256k1_ecmult_gen_context :=
  mk_ecmult_gen_context None (blind ctx) (initial ctx).

Definition secp256k1_ecmult_gen_context_is_built (ctx : secp256k1_ecmult_gen_context) : bool :=
  match prec ctx with Some _ => true | None => false end.

Definition secp256k1_ecmult_gen_context_clone (dst src : secp256k1_ecmult_gen_context) : secp256k1_ecmult_gen_context :=
  match prec src with
  | None => mk_ecmult_gen_context None (blind dst) (initial dst)
  | Some t => mk_ecmult_gen_context (Some t) (blind src) (initial src)
  end.

Definition secp256k1_ecmult_gen_context_clear (ctx : secp256k1_ecmult_gen_context) : secp256k1_ecmult_gen_context :=
  mk_ecmult_gen_context None secp256k1_scalar_clear secp256k1_gej_clear.

(** ** The multiplication *)

(** [for (i = 0; i < 16; i++) secp256k1_ge_storage_cmov(&adds, &prec[j][i], i == bits)] *)
Fixpoint gen_select (row : list secp256k1_ge_storage) (i bits : Z) (adds : secp256k1_ge_storage) : secp256k1_ge_storage :=
  match row with
  | [] => adds
  | e :: row' => gen_select row' (i + 1) bits (secp256k1_ge_storage_cmov adds e (Z.b2z (i =? bits)))
  end.

(** [for (j = 0; j < 64; j++)], over the rows that are left. *)
Fixpoint gen_loop (rows : list (list secp256k1_ge_storage)) (j : Z) (gnb : secp256k1_scalar) (adds : secp256k1_ge_storage) (r : secp256k1_gej) :
    checked secp256k1_gej :=
  match rows with
  | [] => ret r
  | row :: rows' =>
      bits <- secp256k1_scalar_get_bits gnb (j * 4) 4;;
      let adds := gen_select row 0 bits adds in
      r <- secp256k1_gej_add_ge r (secp256k1_ge_from_storage adds);;
      gen_loop rows' (j + 1) gnb adds r
  end.

Definition zero_storage : secp256k1_ge_storage :=
  mk_ge_storage (SECP256K1_FE_STORAGE_CONST 0 0 0 0 0 0 0 0) (SECP256K1_FE_STORAGE_CONST 0 0 0 0 0 0 0 0).

(** Without a table the code reads through a null pointer. *)
Definition secp256k1_ecmult_gen (ctx : secp256k1_ecmult_gen_context) (gn : secp256k1_scalar) : checked secp256k1_gej :=
  let r := initial ctx in
  ' (_, gnb) <- secp256k1_scalar_add gn (blind ctx);;
  match prec ctx with
  | Some rows => gen_loop rows 0 gnb zero_storage r
  | None => None
  end.

(** ** Blinding *)

(** [do { ... } while (retry)] for the projection and for the blinding value; [fuel]
    bounds the number of rounds. *)
Fixpoint blind_field_loop (fuel : nat) (rng : secp256k1_rfc6979_hmac_sha256_t) (s : secp256k1_fe) :
    checked (secp256k1_rfc6979_hmac_sha256_t * secp256k1_fe) :=
  match fuel with
  | O => None
  | Datatypes.S fuel' =>
      ' (rng, nonce32) <- secp256k1_rfc6979_hmac_sha256_generate uninit_hmac uninit_sha rng 32;;
      ' (ok, s) <- secp256k1_fe_set_b32 s nonce32;;
      zero <- secp256k1_fe_is_zero s;;
      if negb ok || zero then blind_field_loop fuel' rng s else ret (rng, s)
  end.

Fixpoint blind_scalar_loop (fuel : nat) (rng : secp256k1_rfc6979_hmac_sha256_t) :
    checked (secp256k1_rfc6979_hmac_sha256_t * secp256k1_scalar) :=
  match fuel with
  | O => None
  | Datatypes.S fuel' =>
      ' (rng, nonce32) <- secp256k1_rfc6979_hmac_sha256_generate uninit_hmac uninit_sha rng 32;;
      ' (retry, b) <- secp256k1_scalar_set_b32 nonce32;;
      if negb (retry =? 0) || secp256k1_scalar_is_zero b then blind_scalar_loop fuel' rng else ret (rng, b)
  end.

(** [seed32] is a pointer that may be NULL. *)
Definition secp256k1_ecmult_gen_blind (fuel : nat) (ctx : secp256k1_ecmult_gen_context) (seed32 : option (list Z)) :
    checked secp256k1_ecmult_gen_context :=
  ctx <- (match seed32 with
          | None =>
              g <- secp256k1_gej_set_ge secp256k1_ge_const_g;;
              g <- secp256k1_gej_neg g;;
              ret (mk_ecmult_gen_context (prec ctx) (secp256k1_scalar_set_int 1) g)
          | Some _ => ret ctx
          end);;
  let nonce32 := secp256k1_scalar_get_b32 (blind ctx) in
  let keydata := nonce32 ++ match seed32 with Some seed32 => seed32 | None => [] end in
  rng <- secp256k1_rfc6979_hmac_sha256_initialize uninit_hmac uninit_sha keydata;;
  ' (rng, s) <- blind_field_loop fuel rng uninit_fe;;
  initial <- secp256k1_gej_rescale (initial ctx) s;;
  let ctx := mk_ecmult_gen_context (prec ctx) (blind ctx) initial in
  ' (rng, b) <- blind_scalar_loop fuel rng;;
  gb <- secp256k1_ecmult_gen ctx b;;
  let b := secp256k1_scalar_negate b in
  ret (mk_ecmult_gen_context (prec ctx) b gb).

(** ** The table *)

(** "The scalar for this x is unknown" *)
Definition nums_b32 : list Z :=
  [0x54; 0x68; 0x65; 0x20; 0x73; 0x63; 0x61; 0x6c; 0x61; 0x72; 0x20; 0x66; 0x6f; 0x72; 0x20; 0x74;
   0x68; 0x69; 0x73; 0x20; 0x78; 0x20; 0x69; 0x73; 0x20; 0x75; 0x6e; 0x6b; 0x6e; 0x6f; 0x77; 0x6e].

(** [for (i = 1; i < 16; i++)]: [k] entries after [q]. *)
Fixpoint prec_row (k : nat) (q gbase : secp256k1_gej) : checked (list secp256k1_gej) :=
  match k with
  | O => ret []
  | Datatypes.S k' =>
      ' (q, _) <- secp256k1_gej_add_var uninit_gej q gbase None;;
      row <- prec_row k' q gbase;;
      ret (q :: row)
  end.

(** [for (j = 0; j < 64; j++)], [k] rounds from [j] on; the entries that the rounds
    write. *)
Fixpoint prec_rows (k : nat) (j : Z) (nums_gej gbase numsbase : secp256k1_gej) : checked (list secp256k1_gej) :=
  match k with
  | O => ret []
  | Datatypes.S k' =>
      row <- prec_row 15 numsbase gbase;;
      let row := numsbase :: row in
      gbase <- repeat_checked 4 (fun g => ' (g, _) <- secp256k1_gej_double_var g g None;; ret g) gbase;;
      ' (numsbase, _) <- secp256k1_gej_double_var numsbase numsbase None;;
      numsbase <- (if j =? 62 then
                     numsbase <- secp256k1_gej_neg numsbase;;
                     ' (numsbase, _) <- secp256k1_gej_add_var numsbase numsbase nums_gej None;;
                     ret numsbase
                   else ret numsbase);;
      rest <- prec_rows k' (j + 1) nums_gej gbase numsbase;;
      ret (row ++ rest)
  end.

(** [for (j = 0; j < 64; j++) for (i = 0; i < 16; i++) secp256k1_ge_to_storage(...)] *)
Fixpoint store_row (l : list secp256k1_ge) : checked (list secp256k1_ge_storage) :=
  match l with
  | [] => ret []
  | q :: l' =>
      s <- secp256k1_ge_to_storage q;;
      rest <- store_row l';;
      ret (s :: rest)
  end.

Fixpoint store_rows (k : nat) (l : list secp256k1_ge) : checked (list (list secp256k1_ge_storage)) :=
  match k with
  | O => ret []
  | Datatypes.S k' =>
      row <- store_row (firstn 16 l);;
      rest <- store_rows k' (skipn 16 l);;
      ret (row :: rest)
  end.

Definition secp256k1_ecmult_gen_context_build (fuel : nat) (ctx : secp256k1_ecmult_gen_context) : checked secp256k1_ecmult_gen_context :=
  match prec ctx with
  | Some _ => ret ctx
  | None =>
      gj <- secp256k1_gej_set_ge secp256k1_ge_const_g;;
      ' (r, nums_x) <- secp256k1_fe_set_b32 uninit_fe nums_b32;;
      VERIFY_CHECK r;;
      ' (r, nums_ge) <- secp256k1_ge_set_xo_var nums_x false;;
      VERIFY_CHECK r;;
      nums_gej <- secp256k1_gej_set_ge nums_ge;;
      ' (nums_gej, _) <- secp256k1_gej_add_ge_var nums_gej nums_gej secp256k1_ge_const_g None;;
      precj <- prec_rows 64 0 nums_gej gj nums_gej;;
      prec <- secp256k1_ge_set_all_gej_var (repeat uninit_fe (length (filter (fun q => negb (gej_infinity q)) precj))) (repeat uninit_ge 1024) precj;;
      rows <- store_rows 64 prec;;
      secp256k1_ecmult_gen_blind fuel (mk_ecmult_gen_context (Some rows) (blind ctx) (initial ctx)) None
  end.

End EcmultGen.
