(* ===== verification/EcmultGenSpec.v ===== *)
(** * Multiples of the generator: specification

    [secp256k1_ecmult_gen] computes the multiple for every scalar and every blinding
    that the context holds; blinding keeps this, and the context that
    [secp256k1_ecmult_gen_context_build] makes has it. *)

From Stdlib Require Import ZArith Lia List Bool.
From S2P Require Import Prelude Modulus Bytes Field FieldImpl Curve CurveGroup CurveOrder Group GroupConv Scalar Hash HashSpec Nums Ecmult EcmultSpec EcmultGen.
Import ListNotations.

#[local] Open Scope Z_scope.

(** ** Statements *)

Section Statements.
Context {F : FieldOps} {SO : ScalarOps} {L : FieldLaws F} {LS : ScalarLaws SO}.

(** A row that holds the points [P 0], [P 1], ... *)
Definition row_ok (row : list secp256k1_ge_storage) (P : Z -> point) : Prop :=
  forall i, (i < length row)%nat -> ge_storage_ok (nth i row zero_storage) (P (Z.of_nat i)).

(** Rows [j], [j + 1], ... of a table that starts at [U]. *)
Definition rows_ok (U : point) (j : Z) (rows : list (list secp256k1_ge_storage)) : Prop :=
  forall k, (k < length rows)%nat -> length (nth k rows []) = 16%nat /\ row_ok (nth k rows []) (prec_point U (j + Z.of_nat k)).

(** A context that is built: its table, and the initial point that the blinding
    value takes away. *)
Definition gen_ready (ctx : secp256k1_ecmult_gen_context) : Prop :=
  (exists rows, prec ctx = Some rows /\ length rows = 64%nat /\ rows_ok NUMS 0 rows) /\
  sc_wf (blind ctx) /\ gej_ok (initial ctx) (pmul (- sc_Z (blind ctx)) G).

(** The outputs of the generator that the blinding reads: the first is the
    projection, one of the next [fuel] is the blinding value.  An output is rejected
    with a probability below [2^-127]. *)
Definition blind_reads_ok (fuel : nat) (key : list Z) : Prop :=
  0 < be_value (RFC6979_read key 32 0) < p /\
  exists k, (k < fuel)%nat /\ 0 < be_value (RFC6979_read key 32 (1 + k)) < n.

End Statements.

(** ** The multiplication *)

Section Loop.
Context {F : FieldOps} {SO : ScalarOps} {L : FieldLaws F} {LS : ScalarLaws SO}.

Lemma zero_storage_ok : ge_storage_ok zero_storage (Affine (toFp 0) (toFp 0)).
Proof.
  assert (storage_ok (SECP256K1_FE_STORAGE_CONST 0 0 0 0 0 0 0 0) (toFp 0)) as H.
  { destruct (STORAGE_CONST_law 0 0 0 0 0 0 0 0) as [Hw Hz]; try (split; [discriminate | reflexivity]). split; [exact Hw|]. rewrite Hz. reflexivity. }
  exists (toFp 0), (toFp 0). split; [exact H|]. split; [exact H | reflexivity].
Qed.

Lemma gen_select_ok P row : forall i bits adds A, ge_storage_ok adds A ->
  (forall k, (k < length row)%nat -> ge_storage_ok (nth k row zero_storage) (P (i + Z.of_nat k))) ->
  ge_storage_ok (gen_select row i bits adds) (if (i <=? bits) && (bits <? i + Z.of_nat (length row)) then P bits else A).
Proof.
  induction row as [|e row IH]; intros i bits adds A Ha Hrow; cbn [gen_select length].
  { replace ((i <=? bits) && (bits <? i + Z.of_nat 0)) with false; [exact Ha|]. symmetry. apply andb_false_iff. rewrite Z.leb_gt, Z.ltb_ge. lia. }
  pose proof (Hrow O ltac:(cbn; lia)) as He. cbn [nth] in He. rewrite Z.add_0_r in He.
  pose proof (IH (i + 1) bits _ _ (ge_storage_cmov_ok adds e A (P i) (i =? bits) Ha He)) as H.
  replace ((i <=? bits) && (bits <? i + Z.of_nat (S (length row)))) with ((i =? bits) || ((i + 1 <=? bits) && (bits <? i + 1 + Z.of_nat (length row))))
    by (apply eq_true_iff_eq; rewrite orb_true_iff, !andb_true_iff, Z.eqb_eq, !Z.leb_le, !Z.ltb_lt; lia).
  destruct (Z.eqb_spec i bits) as [->|Hne]; cbn [orb].
  - replace ((bits + 1 <=? bits) && _) with false in H; [|symmetry; apply andb_false_iff; rewrite Z.leb_gt; lia]. apply H.
    intros k Hk. replace (bits + 1 + Z.of_nat k) with (bits + Z.of_nat (S k)) by lia. apply (Hrow (S k)). cbn. lia.
  - apply H. intros k Hk. replace (i + 1 + Z.of_nat k) with (i + Z.of_nat (S k)) by lia. apply (Hrow (S k)). cbn. lia.
Qed.

Context (U : point) (HU : on_curve U).

(** The factor of [U] in the sum of the first [j] rows. *)
Definition usum (j : Z) : Z := if j =? 64 then 0 else 2 ^ j - 1.

Lemma usum_step j : 0 <= j < 64 -> usum (j + 1) = usum j + nums_coef j.
Proof.
  intros Hj. unfold usum, nums_coef. destruct (Z.eqb_spec j 64) as [->|_]; [lia|].
  destruct (Z.eqb_spec j 63) as [->|Hne]; [reflexivity|]. destruct (Z.eqb_spec (j + 1) 64) as [E|_]; [lia|]. rewrite Z.pow_add_r by lia. lia.
Qed.

(** The partial sum, for a start [P]. *)
Definition comb (P : point) (j m : Z) : point := padd P (padd (pmul (usum j) U) (pmul m G)).

Lemma comb_on_curve P j m : on_curve P -> on_curve (comb P j m).
Proof. intros HP. unfold comb. auto with curve. Qed.

Lemma comb_step P j m i : on_curve P -> 0 <= j < 64 -> padd (comb P j m) (prec_point U j i) = comb P (j + 1) (m + i * 16 ^ j).
Proof.
  intros HP Hj. unfold comb, prec_point. rewrite usum_step by exact Hj. rewrite padd_assoc by auto with curve. f_equal.
  rewrite padd_swap, !pmul_add by auto with curve. reflexivity.
Qed.

Lemma comb_start P : comb P 0 0 = P.
Proof. unfold comb. change (usum 0) with 0. destruct P; reflexivity. Qed.

Lemma comb_end P m : comb P 64 m = padd P (pmul m G).
Proof. reflexivity. Qed.

Lemma prec_point_on_curve j i : on_curve (prec_point U j i).
Proof. unfold prec_point. auto with curve. Qed.

Lemma gen_loop_ok rows : forall j gnb adds A r P, sc_wf gnb -> on_curve P -> 0 <= j -> j + Z.of_nat (length rows) = 64 -> rows_ok U j rows ->
  ge_storage_ok adds A -> gej_ok r (comb P j (sc_Z gnb mod 16 ^ j)) ->
  Returns (gen_loop rows j gnb adds r) (fun r' => gej_ok r' (comb P 64 (sc_Z gnb mod 16 ^ 64))).
Proof.
  induction rows as [|row rows IH]; intros j gnb adds A r P Hs HP Hj Hl Hrows Ha Hr; cbn [gen_loop length] in *.
  { replace j with 64 in Hr by lia. exact Hr. }
  assert ((j * 4 + 4 - 1) / 32 = j * 4 / 32) as E32.
  { clear. symmetry. apply Z.div_unique with (r := j * 4 mod 32 + 3); pose proof (Z.div_mod (j * 4) 32 ltac:(discriminate)) as D;
      pose proof (Z.mod_pos_bound (j * 4) 32 eq_refl) as B; lia. }
  eapply Returns_bind; [apply (sc_get_bits_law gnb (j * 4) 4 Hs); [lia | lia | lia | exact E32]|]. intros bits ->. cbv zeta.
  set (bits := sc_Z gnb / 2 ^ (j * 4) mod 2 ^ 4). assert (0 <= bits < 16) as Hb by (apply Z.mod_pos_bound; reflexivity).
  destruct (Hrows O ltac:(cbn; lia)) as [L16 Hrow]. cbn [nth] in L16, Hrow. rewrite Z.add_0_r in Hrow.
  pose proof (gen_select_ok (prec_point U j) row 0 bits adds A Ha Hrow) as Hsel.
  replace ((0 <=? bits) && _) with true in Hsel by (symmetry; rewrite L16, andb_true_iff, Z.leb_le, Z.ltb_lt; lia).
  eapply Returns_bind; [apply (gej_add_ge_ok _ _ _ _ Hr (ge_from_storage_ok _ _ Hsel)); [reflexivity | apply comb_on_curve, HP | apply prec_point_on_curve]|].
  intros r' Hr'. apply (IH (j + 1) gnb _ (prec_point U j bits) r' P Hs HP); [lia | lia | | exact Hsel |].
  - intros k Hk. replace (j + 1 + Z.of_nat k) with (j + Z.of_nat (S k)) by lia. apply (Hrows (S k)). cbn. lia.
  - rewrite comb_step in Hr' by (auto; lia). replace (sc_Z gnb mod 16 ^ (j + 1)) with (sc_Z gnb mod 16 ^ j + bits * 16 ^ j); [exact Hr'|].
    unfold bits. rewrite (Z.mul_comm j 4), Z.pow_mul_r by lia. change (2 ^ 4) with 16. rewrite Z.pow_add_r, (Z.rem_mul_r _ (16 ^ j) (16 ^ 1)) by lia.
    rewrite Z.pow_1_r. ring.
Qed.

End Loop.

Section Spec.
Context {F : FieldOps} {SO : ScalarOps} {M : Memory F SO} {H : HashMemory} {L : FieldLaws F} {LS : ScalarLaws SO}.

(** The multiple, whatever the blinding. *)
Lemma ecmult_gen_ok ctx gn : gen_ready ctx -> sc_wf gn -> Returns (secp256k1_ecmult_gen ctx gn) (fun r => gej_ok r (pmul (sc_Z gn) G)).
Proof.
  intros ((rows & E & Hl & Hrows) & Hb & Hi) Hg. unfold secp256k1_ecmult_gen. cbv zeta.
  eapply Returns_bind; [apply (sc_add_law gn (blind ctx) Hg Hb)|]. intros [o gnb] (_ & Hw & Ez). rewrite E.
  eapply Returns_mono.
  - apply (gen_loop_ok NUMS NUMS_on_curve rows 0 gnb zero_storage (Affine (toFp 0) (toFp 0)) (initial ctx) (pmul (- sc_Z (blind ctx)) G));
      [exact Hw | auto with curve | lia | rewrite Hl; reflexivity | exact Hrows | exact zero_storage_ok |].
    change (16 ^ 0) with 1. rewrite Z.mod_1_r, comb_start. exact Hi.
  - intros r Hr. rewrite comb_end in Hr. pose proof (sc_range gnb Hw) as B.
    rewrite Z.mod_small in Hr by (change (16 ^ 64) with (2 ^ 256); unfold n in B; lia).
    rewrite <- pmul_add in Hr by auto with curve. eapply eq_ind; [exact Hr|]. apply pmul_eqm; [auto with curve|].
    rewrite Ez, <- Zplus_mod_idemp_r, Z.mod_mod, Zplus_mod_idemp_r by discriminate. f_equal. ring.
Qed.

(** ** Blinding *)

Definition rng_before (rng : secp256k1_rfc6979_hmac_sha256_t) (key : list Z) (i : nat) : Prop := rng_at rng key 32 i.

Lemma rng_next rng key i : rng_before rng key i ->
  Returns (secp256k1_rfc6979_hmac_sha256_generate uninit_hmac uninit_sha rng 32) (fun '(rng', out) => out = RFC6979_read key 32 i /\ rng_before rng' key (S i)).
Proof. intros Hr. apply (rng_at_read _ _ uninit_hmac_buf uninit_sha_buf rng key 32 i Hr). reflexivity. Qed.

Lemma blind_field_loop_ok fuel rng key s : rng_before rng key 0 -> 0 < be_value (RFC6979_read key 32 0) < p ->
  Returns (blind_field_loop (S fuel) rng s) (fun '(rng', s') => rng_before rng' key 1 /\ exists v, fe_norm s' v /\ v <> Zmod.zero).
Proof.
  intros Hr Hv. cbn [blind_field_loop]. eapply Returns_bind; [apply (rng_next rng key 0 Hr)|]. intros [rng' out] [-> Hr'].
  eapply Returns_bind; [apply (fe_set_b32_norm s _ (RFC6979_read_bytes key 0))|]. intros [ok s'] [-> Hs].
  rewrite (proj2 (Z.ltb_lt _ _) (proj2 Hv)) in *. specialize (Hs eq_refl). eapply Returns_bind; [apply (fe_is_zero_ok _ _ Hs)|]. intros zero ->.
  assert (toFp (be_value (RFC6979_read key 32 0)) <> Zmod.zero) as Hnz by (apply toFp_nonzero, Z.eqb_neq; rewrite Z.mod_small by lia; lia).
  destruct (Zmod.eqb_spec (toFp (be_value (RFC6979_read key 32 0))) Zmod.zero) as [E|_]; [contradiction|]. cbn [negb orb].
  apply Returns_ret. split; [exact Hr'|]. exists (toFp (be_value (RFC6979_read key 32 0))). split; assumption.
Qed.

Lemma blind_scalar_loop_ok key k : forall fuel rng i, (k < fuel)%nat -> rng_before rng key i -> 0 < be_value (RFC6979_read key 32 (i + k)) < n ->
  Returns (blind_scalar_loop fuel rng) (fun '(_, b) => sc_wf b).
Proof.
  induction k as [|k IH]; intros [|fuel] rng i Hf Hr Hv; try lia; cbn [blind_scalar_loop];
    (eapply Returns_bind; [apply (rng_next rng key i Hr)|]); intros [rng' out] [-> Hr'];
    (eapply Returns_bind; [apply (sc_set_b32_law _ (RFC6979_read_bytes key i))|]); intros [o b] (-> & Hb & Ez).
  - rewrite Nat.add_0_r in Hv. rewrite (proj2 (Z.leb_gt _ _) (proj2 Hv)), (sc_is_zero_law b Hb), Ez, Z.mod_small by lia.
    destruct (Z.eqb_spec (be_value (RFC6979_read key 32 i)) 0) as [E|_]; [lia|]. exact Hb.
  - destruct (negb _ || _); [|exact Hb]. apply (IH fuel rng' (S i)); [lia | exact Hr'|]. rewrite Nat.add_succ_comm. exact Hv.
Qed.

(** The key of the generator. *)
Definition blind_key (b : Z) (seed : option (list Z)) : list Z :=
  be_bytes 32 b ++ match seed with Some seed => seed | None => [] end.

Definition seed_ok (seed : option (list Z)) : Prop := match seed with Some s => bytes_of_len 32 s | None => True end.

Lemma blind_key_bytes b seed : seed_ok seed -> Forall is_byte (blind_key b seed) /\ Z.of_nat (length (blind_key b seed)) < 2 ^ 60.
Proof.
  intros Hs. destruct (be_bytes_wf 32 b) as [Lb Fb]. unfold blind_key. rewrite length_app, Lb.
  destruct seed as [s|]; [destruct Hs as [Ls Fs]; rewrite Ls | ]; (split; [apply Forall_app; split; auto | reflexivity]).
Qed.

(** A new blinding of a context whose table is built; without a seed the old values
    are not read. *)
Lemma ecmult_gen_blind_ok fuel ctx seed rows : prec ctx = Some rows -> length rows = 64%nat -> rows_ok NUMS 0 rows ->
  seed_ok seed -> (seed <> None -> gen_ready ctx) ->
  blind_reads_ok fuel (blind_key (match seed with Some _ => sc_Z (blind ctx) | None => 1 end) seed) ->
  Returns (secp256k1_ecmult_gen_blind fuel ctx seed) (fun ctx' => gen_ready ctx' /\ prec ctx' = prec ctx).
Proof.
  intros E Hl Hrows Hs Hc [Hv0 (k & Hk & Hvk)]. unfold secp256k1_ecmult_gen_blind. set (b := match seed with Some _ => _ | None => _ end) in *.
  apply Returns_bind with (P := fun c => gen_ready c /\ prec c = prec ctx /\ sc_Z (blind c) = b).
  { destruct seed as [s|]; [repeat split; apply Hc; discriminate|].
    eapply Returns_bind; [apply (gej_set_ge_ok _ _ ge_const_g_ok)|]. intros g Hg.
    eapply Returns_bind; [apply (gej_neg_ok _ _ Hg)|]. intros g' Hg'. apply Returns_ret. destruct (sc_set_int_law 1 ltac:(lia)) as [H1 E1].
    split; [|split; [reflexivity | exact E1]]. split; [exists rows; auto|]. cbn [blind initial]. rewrite E1. exact (conj H1 Hg'). }
  intros c ((_ & Hw & Hi) & Ec & Eb). cbv zeta. rewrite (sc_get_b32_law _ Hw), Eb. fold (blind_key b seed). destruct (blind_key_bytes b seed Hs) as [Fk Lk].
  eapply Returns_bind; [apply (rng_at_start _ _ uninit_hmac_buf uninit_sha_buf (blind_key b seed) 32 Fk Lk)|]. intros rng Hr.
  destruct fuel as [|fuel]; [lia|].
  eapply Returns_bind; [apply (blind_field_loop_ok fuel rng _ uninit_fe Hr Hv0)|]. intros [rng' s] [Hr' (v & Hv & Hnz)].
  eapply Returns_bind; [apply (gej_rescale_ok _ _ _ _ Hi Hv Hnz)|]. intros i' [Hi' _].
  eapply Returns_bind; [apply (blind_scalar_loop_ok (blind_key b seed) k (S fuel) rng' 1 Hk Hr' Hvk)|]. intros [rng2 b'] Hb'.
  eapply Returns_bind; [apply (ecmult_gen_ok _ b'); [|exact Hb']|].
  { split; [exists rows; rewrite <- E; auto | split; [exact Hw | exact Hi']]. }
  intros gb Hgb. apply Returns_ret. destruct (sc_negate_law b' Hb') as [Hn En].
  split; [|exact Ec]. split; [exists rows; rewrite <- E; auto|]. split; [exact Hn|]. cbn [blind initial]. rewrite En.
  eapply eq_ind; [exact Hgb|]. apply pmul_eqm; [auto with curve|].
  rewrite <- (Z.sub_0_l (_ mod n)), Zminus_mod_idemp_r. f_equal. ring.
Qed.

(** ** The table *)

Section Table.
Context (U : point) (HU : on_curve U) (Hfin : forall j i, 0 <= j < 64 -> 0 <= i < 16 -> prec_point U j i <> Infinity).

Definition row_points (j : Z) : list point := map (fun i => prec_point U j (Z.of_nat i)) (seq 0 16).

(** [k] rows from [j] on. *)
Fixpoint table_points (k : nat) (j : Z) : list point :=
  match k with
  | O => []
  | S k' => row_points j ++ table_points k' (j + 1)
  end.

Lemma table_points_finite k : forall j, 0 <= j -> j + Z.of_nat k <= 64 -> Forall (fun P => P <> Infinity) (table_points k j).
Proof.
  induction k as [|k IH]; intros j Hj Hk; cbn [table_points]; [constructor|]. apply Forall_app. split; [|apply IH; lia].
  apply Forall_map, Forall_forall. intros i Hi%in_seq. apply Hfin; lia.
Qed.

Lemma length_table_points k j : length (table_points k j) = (k * 16)%nat.
Proof. revert j. induction k as [|k IH]; intros j; cbn [table_points]; [reflexivity|]. rewrite length_app, IH. unfold row_points. rewrite length_map, length_seq. lia. Qed.

Lemma prec_point_next j i : padd (prec_point U j i) (pmul (16 ^ j) G) = prec_point U j (i + 1).
Proof.
  unfold prec_point. rewrite padd_assoc by auto with curve. rewrite <- pmul_add by auto with curve. do 2 f_equal. ring.
Qed.

Lemma prec_row_ok k : forall i j q gbase, 0 <= j < 64 -> (i + k < 16)%nat -> gej_ok q (prec_point U j (Z.of_nat i)) -> gej_ok gbase (pmul (16 ^ j) G) ->
  Returns (prec_row k q gbase) (fun row => Forall2 gej_ok row (map (fun i => prec_point U j (Z.of_nat i)) (seq (S i) k))).
Proof.
  induction k as [|k IH]; intros i j q gbase Hj Hi Hq Hg; cbn [prec_row seq map]; [apply Returns_ret; constructor|].
  apply Returns_bind with (P := fun '(q', _) => gej_ok q' (prec_point U j (Z.of_nat (S i)))).
  - apply gej_add_var_fresh with (r := q).
    + eapply Returns_mono; [apply (gej_add_var_ok q q gbase _ _ None (gej_ok_wf _ _ Hq) Hq Hg); auto using prec_point_on_curve with curve|].
      intros [q' z] [Hq' _]. rewrite prec_point_next in Hq'. replace (Z.of_nat (S i)) with (Z.of_nat i + 1) by lia. exact Hq'.
    + intros q' z Hq'. apply (gej_ok_finite _ _ Hq'), Hfin; lia.
  - intros [q' z] Hq'. eapply Returns_bind; [apply (IH (S i) j q' gbase Hj); [lia | exact Hq' | exact Hg]|]. intros row Hrow.
    apply Returns_ret. constructor; assumption.
Qed.

Lemma double_self q P : gej_ok q P -> on_curve P -> Returns (secp256k1_gej_double_var q q None) (fun '(q', _) => gej_ok q' (padd P P)).
Proof. intros Hq HP. eapply Returns_mono; [apply (gej_double_var_ok q q P None (gej_ok_wf _ _ Hq) Hq HP)|]. intros [q' z] [H' _]. exact H'. Qed.

Lemma gbase_next gbase j : 0 <= j -> gej_ok gbase (pmul (16 ^ j) G) ->
  Returns (repeat_checked 4 (fun g => bind (secp256k1_gej_double_var g g None) (fun '(g, _) => ret g)) gbase) (fun g => gej_ok g (pmul (16 ^ (j + 1)) G)).
Proof.
  intros Hj Hg. replace (16 ^ (j + 1)) with (2 ^ Z.of_nat 4 * 16 ^ j) by (rewrite Z.pow_add_r by lia; change (16 ^ 1) with (2 ^ Z.of_nat 4); ring).
  apply (Returns_repeat 4 _ gbase (fun i g => gej_ok g (pmul (2 ^ Z.of_nat i * 16 ^ j) G))).
  - replace (2 ^ Z.of_nat 0 * 16 ^ j) with (16 ^ j) by (change (2 ^ Z.of_nat 0) with 1; ring). exact Hg.
  - intros i y _ Hy. eapply Returns_bind; [apply (double_self y _ Hy); auto with curve|]. intros [g z] Hg'. apply Returns_ret.
    replace (2 ^ Z.of_nat (S i) * 16 ^ j) with (2 * (2 ^ Z.of_nat i * 16 ^ j)) by (rewrite Nat2Z.inj_succ, Z.pow_succ_r by lia; ring).
    rewrite pmul_double by auto with curve. exact Hg'.
Qed.

Lemma numsbase_next nums_gej b j : 0 <= j < 64 -> gej_ok nums_gej U -> gej_ok b (padd (pmul (nums_coef j) U) (pmul (nums_coef j) U)) ->
  Returns (if j =? 62 then bind (secp256k1_gej_neg b) (fun numsbase =>
       bind (secp256k1_gej_add_var numsbase numsbase nums_gej None) (fun '(numsbase, _) => ret numsbase)) else ret b)
    (fun r => j < 63 -> gej_ok r (pmul (nums_coef (j + 1)) U)).
Proof.
  intros Hj HN Hb'. rewrite <- pmul_double in Hb' by exact HU. unfold nums_coef in *. destruct (Z.eqb_spec j 62) as [->|Hne].
  - eapply Returns_bind; [apply (gej_neg_ok _ _ Hb')|]. intros nb Hn.
    eapply Returns_bind; [apply (gej_add_var_ok nb nb nums_gej _ _ None (gej_ok_wf _ _ Hn) Hn HN); auto with curve|]. intros [r z'] [Hr _].
    apply Returns_ret. intros _. change (if 62 + 1 =? 63 then 1 - 2 ^ 63 else 2 ^ (62 + 1)) with (- (2 * 2 ^ 62) + 1).
    rewrite pmul_add, pmul_opp by exact HU. exact Hr.
  - apply Returns_ret. intros Hlt. destruct (Z.eqb_spec j 63) as [|_]; [lia|]. destruct (Z.eqb_spec (j + 1) 63) as [|_]; [lia|].
    rewrite Z.pow_add_r, Z.mul_comm by lia. exact Hb'.
Qed.

Lemma row_0 j q : gej_ok q (pmul (nums_coef j) U) -> gej_ok q (prec_point U j (Z.of_nat 0)).
Proof. intros Hq. unfold prec_point. change (Z.of_nat 0 * 16 ^ j) with 0. cbn [pmul]. rewrite padd_infinity_r. exact Hq. Qed.

Lemma prec_rows_ok k : forall j nums_gej gbase numsbase, 0 <= j -> j + Z.of_nat k <= 64 -> gej_ok nums_gej U -> gej_ok gbase (pmul (16 ^ j) G) ->
  ((0 < k)%nat -> gej_ok numsbase (pmul (nums_coef j) U)) ->
  Returns (prec_rows k j nums_gej gbase numsbase) (fun l => Forall2 gej_ok l (table_points k j)).
Proof.
  induction k as [|k IH]; intros j nums_gej gbase numsbase Hj Hk HN Hg Hb; cbn [prec_rows table_points]; [apply Returns_ret; constructor|].
  specialize (Hb ltac:(lia)). pose proof (row_0 j numsbase Hb) as H0.
  eapply Returns_bind; [apply (prec_row_ok 15 0 j numsbase gbase ltac:(lia) ltac:(lia) H0 Hg)|]. intros row Hrow. cbv zeta.
  eapply Returns_bind; [apply (gbase_next gbase j Hj Hg)|]. intros gbase' Hg'.
  eapply Returns_bind; [apply (double_self _ _ Hb); auto with curve|]. intros [b z] Hb'.
  eapply Returns_bind; [apply (numsbase_next nums_gej b j ltac:(lia) HN Hb')|]. intros numsbase' Hn.
  eapply Returns_bind; [apply (IH (j + 1) nums_gej gbase' numsbase'); [lia | lia | exact HN | exact Hg' | intros; apply Hn; lia]|].
  intros rest Hrest. apply Returns_ret. apply (Forall2_app (l1 := numsbase :: row)); [|exact Hrest]. constructor; assumption.
Qed.

Lemma set_all_loop_fresh a azi : Forall (fun q => gej_infinity q = false) a -> forall r r', length r = length a -> length r' = length a ->
  set_all_loop r a azi = set_all_loop r' a azi.
Proof.
  intros Ha. revert azi. induction Ha as [|q a Iq _ IH]; intros azi [|x r] [|x' r'] Hl Hl'; try discriminate; [reflexivity|].
  cbn [set_all_loop]. rewrite Iq. destruct (secp256k1_ge_set_gej_zinv q _) as [g|]; [|reflexivity]. cbn [bind].
  rewrite (IH (tl azi) r r') by (cbn in *; lia). reflexivity.
Qed.

Lemma ge_clear_wf : ge_wf secp256k1_ge_clear.
Proof.
  pose proof (fe_ok_mono _ 1 8 _ (fe_norm_ok _ _ fe_clear_norm) ltac:(lia)) as H0. exists Zmod.zero, Zmod.zero. split; exact H0.
Qed.

Lemma set_all_finite azi0 r a Ps : Forall2 gej_ok a Ps -> Forall (fun P => P <> Infinity) Ps -> length r = length a ->
  length azi0 = length (filter (fun ai => negb (gej_infinity ai)) a) ->
  Returns (secp256k1_ge_set_all_gej_var azi0 r a) (fun r' => Forall2 ge_ok r' Ps).
Proof.
  intros Ha HPs Hl Hz. assert (Forall (fun q => gej_infinity q = false) a) as Hi.
  { clear -Ha HPs. induction Ha as [|q P a Ps Hq _ IH]; [constructor|]. inversion HPs; subst. constructor; [apply (gej_ok_finite _ _ Hq); assumption | apply IH; assumption]. }
  unfold secp256k1_ge_set_all_gej_var. cbv zeta.
  pose proof (ge_set_all_gej_var_ok azi0 (repeat secp256k1_ge_clear (length a)) a Ps Ha (repeat_length _ _)
    (proj2 (Forall_forall _ _) (fun x Hx => eq_ind_r ge_wf ge_clear_wf (repeat_spec _ _ _ Hx))) Hz) as H'.
  unfold secp256k1_ge_set_all_gej_var in H'. cbv zeta in H'. destruct (secp256k1_fe_inv_all_var _ _ _) as [azi|]; [|contradiction]. cbn [bind] in *.
  rewrite (set_all_loop_fresh a azi Hi r (repeat secp256k1_ge_clear (length a)) Hl (repeat_length _ _)). exact H'.
Qed.

Lemma store_row_ok l Ps : Forall2 ge_ok l Ps -> Forall (fun P => P <> Infinity) Ps ->
  Returns (store_row l) (fun row => length row = length Ps /\ forall i, (i < length Ps)%nat -> ge_storage_ok (nth i row zero_storage) (nth i Ps Infinity)).
Proof.
  induction 1 as [|q P l Ps Hq _ IH]; intros HPs; cbn [store_row]; [apply Returns_ret; split; [reflexivity | cbn; lia]|].
  inversion HPs as [|? ? HP HPs']; subst.
  eapply Returns_bind; [apply (ge_to_storage_ok q P Hq (ge_ok_finite q P Hq HP))|]. intros s Hs.
  eapply Returns_bind; [apply (IH HPs')|]. intros row [Lr Hr]. apply Returns_ret. split; [cbn; lia|].
  intros [|i] Hi; cbn [nth]; [exact Hs | apply Hr; cbn in Hi; lia].
Qed.

Lemma store_rows_ok k : forall j l, 0 <= j -> j + Z.of_nat k <= 64 -> Forall2 ge_ok l (table_points k j) ->
  Returns (store_rows k l) (fun rows => length rows = k /\ rows_ok U j rows).
Proof.
  induction k as [|k IH]; intros j l Hj Hk Hl; cbn [store_rows table_points] in *; [apply Returns_ret; split; [reflexivity | intros i Hi; cbn in Hi; lia]|].
  pose proof (table_points_finite (S k) j Hj Hk) as Hf. cbn [table_points] in Hf. apply Forall_app in Hf as [Hf1 _].
  apply Forall2_app_inv_r in Hl as (l1 & l2 & Hl1 & Hl2 & ->).
  assert (length l1 = 16%nat) as L1 by (apply Forall2_length in Hl1; rewrite Hl1; reflexivity).
  rewrite firstn_app, skipn_app, L1, Nat.sub_diag, firstn_O, skipn_O, app_nil_r, firstn_all2, skipn_all2 by lia.
  eapply Returns_bind; [apply (store_row_ok l1 _ Hl1 Hf1)|]. intros row [Lr Hr].
  eapply Returns_bind; [apply (IH (j + 1) l2); [lia | lia | exact Hl2]|]. intros rows [Lrs Hrs]. apply Returns_ret. split; [cbn; lia|].
  intros [|m] Hm; cbn [nth].
  - rewrite Z.add_0_r. split; [exact Lr|]. intros i Hi. unfold row_points in Hr. rewrite length_map, length_seq in Hr.
    rewrite Lr in Hi. specialize (Hr i Hi). rewrite (nth_indep _ _ (prec_point U j (Z.of_nat 0))), (map_nth (fun i => prec_point U j (Z.of_nat i))), seq_nth in Hr;
      [exact Hr | exact Hi | rewrite length_map, length_seq; exact Hi].
  - replace (j + Z.of_nat (S m)) with (j + 1 + Z.of_nat m) by lia. apply Hrs. cbn in Hm. lia.
Qed.

End Table.

(** ** The context *)

(** The outputs for the blinding of a new context, whose key is 1. *)
Definition reads_check (key : list Z) : bool :=
  let v0 := be_value (RFC6979_read key 32 0) in
  let v1 := be_value (RFC6979_read key 32 1) in
  (0 <? v0) && (v0 <? p) && (0 <? v1) && (v1 <? n).

Lemma reads_check_ok fuel key : reads_check key = true -> (0 < fuel)%nat -> blind_reads_ok fuel key.
Proof.
  unfold reads_check. intros H' Hf. rewrite !andb_true_iff, !Z.ltb_lt in H'. split; [tauto|]. exists O. change (1 + 0)%nat with 1%nat. tauto.
Qed.

Lemma default_reads : reads_check (blind_key 1 None) = true.
Proof. vm_cast_no_check (eq_refl true). Qed.

Lemma nums_b32_value : bytes_of_len 32 nums_b32 /\ be_value nums_b32 = fst z_words.
Proof. split; [apply bytes_of_len_test|]; reflexivity. Qed.

Lemma words_even : Z.odd (Zmod.to_Z (toFp (snd z_words))) = false.
Proof. rewrite to_Z_toFp. reflexivity. Qed.

(** The ordinate of a point is given by its parity. *)
Lemma same_parity x y y' : on_curve (Affine x y) -> on_curve (Affine x y') -> Z.odd (Zmod.to_Z y) = Z.odd (Zmod.to_Z y') -> y = y'.
Proof.
  intros Hc Hc' Ho. destruct (same_x _ _ y' Hc Hc') as [->| ->]; [reflexivity|]. exfalso.
  rewrite opp_parity in Ho by (apply (on_curve_y_nonzero _ _ Hc')). destruct (Z.odd (Zmod.to_Z y')); discriminate.
Qed.

Lemma nums_gej_ok r : Returns (secp256k1_fe_set_b32 r nums_b32) (fun '(ok, x) => ok = true /\
    Returns (secp256k1_ge_set_xo_var x false) (fun '(ok, g) => ok = true /\ ge_ok g (zpoint z_words))).
Proof.
  destruct nums_b32_value as [Hb Ev]. eapply Returns_mono; [apply (fe_set_b32_norm r nums_b32 Hb)|]. rewrite Ev. intros [ok x] [-> Hx].
  split; [reflexivity|]. pose proof (fe_ok_mono _ 1 8 _ (fe_norm_ok _ _ (Hx eq_refl)) ltac:(lia)) as Hx8.
  eapply Returns_mono; [apply (ge_set_xo_var_ok x _ false Hx8)|]. intros [ok g] [Hok Hg].
  assert (ok = true) as -> by (apply Hok; exists (toFp (snd z_words)); exact (proj1 words_sum)).
  split; [reflexivity|]. destruct (Hg eq_refl) as (y & Hgy & Hc & Ho). rewrite (same_parity _ _ _ Hc (proj1 words_sum)) in Hgy; [exact Hgy|].
  rewrite words_even. exact Ho.
Qed.

Lemma ecmult_gen_context_build_ok fuel ctx : (prec ctx = None \/ gen_ready ctx) -> (0 < fuel)%nat ->
  Returns (secp256k1_ecmult_gen_context_build fuel ctx) gen_ready.
Proof.
  intros [E|Hc] Hf; unfold secp256k1_ecmult_gen_context_build;
    [rewrite E | destruct Hc as ((rows & E & Hr) & Hc); rewrite E; split; [exists rows; auto | exact Hc]].
  eapply Returns_bind; [apply (gej_set_ge_ok _ _ ge_const_g_ok)|]. intros gj Hg.
  eapply Returns_bind; [apply nums_gej_ok|]. intros [ok x] [-> Hx]. apply Returns_check; [reflexivity|].
  eapply Returns_bind; [exact Hx|]. intros [ok g] [-> Hw]. apply Returns_check; [reflexivity|].
  eapply Returns_bind; [apply (gej_set_ge_ok _ _ Hw)|]. intros wj Hwj.
  eapply Returns_bind; [apply (gej_add_ge_var_ok wj wj _ _ _ None (gej_ok_wf _ _ Hwj) Hwj ge_const_g_ok); [apply words_sum | auto with curve | reflexivity]|].
  intros [nums z] [Hn _]. rewrite (proj2 words_sum) in Hn.
  assert (gej_ok gj (pmul (16 ^ 0) G)) as Hg0 by exact Hg. assert (gej_ok nums (pmul (nums_coef 0) NUMS)) as Hn0 by exact Hn.
  eapply Returns_bind; [apply (prec_rows_ok NUMS NUMS_on_curve prec_point_finite 64 0 nums gj nums); [lia | lia | exact Hn | exact Hg0 | intros _; exact Hn0]|].
  intros precj Hp. pose proof (table_points_finite NUMS prec_point_finite 64 0 ltac:(lia) ltac:(lia)) as Hf64.
  assert (length precj = 1024%nat) as Lp by (apply Forall2_length in Hp; rewrite Hp; apply length_table_points).
  eapply Returns_bind; [apply (set_all_finite _ _ precj _ Hp Hf64); rewrite repeat_length; [symmetry; exact Lp | reflexivity]|]. intros pr Hpr.
  eapply Returns_bind; [apply (store_rows_ok NUMS prec_point_finite 64 0 pr ltac:(lia) ltac:(lia) Hpr)|]. intros rows [Lr Hr].
  eapply Returns_mono; [apply (ecmult_gen_blind_ok fuel (mk_ecmult_gen_context (Some rows) _ _) None rows eq_refl Lr Hr I); [contradiction | apply (reads_check_ok _ _ default_reads Hf)]|].
  intros ctx' [H' _]. exact H'.
Qed.

End Spec.
