(* ===== verification/EcmultConst.v ===== *)
(** * Constant-time multiplication of points: [ecmult_const_impl.h]

    The scalar is written with odd digits of a fixed length, whole with
    [WNAF_BITS = 256] or, with the endomorphism, in two halves of 128 bits. *)

From Stdlib Require Import ZArith Lia List Bool.
From S2P Require Import Prelude Modulus Bytes Field FieldImpl Curve Group Scalar ScalarImpl Ecmult.
Import ListNotations.

#[local] Open Scope Z_scope.
#[local] Open Scope checked_scope.

Definition WNAF_BITS {C : Config} : Z := if USE_ENDOMORPHISM then 128 else 256.
Definition WNAF_SIZE {C : Config} (w : Z) : Z := (WNAF_BITS + w - 1) / w.

(** ** Digits *)

Section Digits.
Context {C : Config} {S : ScalarOps}.

(** [while (word * w < WNAF_BITS)]: every round writes a word, so [WNAF_BITS] rounds
    are enough.  The result is the scalar that is left, the last [u], the number of
    words and the array. *)
Fixpoint wnaf_const_loop (fuel : nat) (w global_sign : Z) (s : secp256k1_scalar) (u_last u word : Z) (wnaf : list Z) :
    checked (secp256k1_scalar * Z * Z * list Z) :=
  if word * w <? WNAF_BITS then
    match fuel with
    | O => None
    | Datatypes.S fuel' =>
        ' (u, s) <- secp256k1_scalar_shr_int s w;;
        let even := Z.b2z (Z.land u 1 =? 0) in
        let sign := 2 * Z.b2z (0 <? u_last) - 1 in
        let u := i32 (u + sign * even) in
        let u_last := i32 (u_last - sign * even * Z.shiftl 1 w) in
        let wnaf := upd wnaf (Z.to_nat word) (i32 (u_last * global_sign)) in
        wnaf_const_loop fuel' w global_sign s u u (word + 1) wnaf
    end
  else ret (s, u, word, wnaf).

(** The array and the skew.  The loop writes [u] before it is read. *)
Definition secp256k1_wnaf_const (wnaf : list Z) (s : secp256k1_scalar) (w : Z) : checked (list Z * Z) :=
  let flip := secp256k1_scalar_is_high s in
  let bit := Z.lxor flip (Z.b2z (negb (secp256k1_scalar_is_even s))) in
  let neg_s := secp256k1_scalar_negate s in
  let not_neg_one := Z.b2z (negb (secp256k1_scalar_is_one neg_s)) in
  s <- secp256k1_scalar_cadd_bit s bit not_neg_one;;
  let '(global_sign, s) := secp256k1_scalar_cond_negate s flip in
  let global_sign := global_sign * (not_neg_one * 2 - 1) in
  let skew := Z.shiftl 1 bit in
  ' (u_last, s) <- secp256k1_scalar_shr_int s w;;
  ' (s, u, word, wnaf) <- wnaf_const_loop (Z.to_nat WNAF_BITS) w global_sign s u_last 0 0 wnaf;;
  let wnaf := upd wnaf (Z.to_nat word) (i32 (u * global_sign)) in
  VERIFY_CHECK (secp256k1_scalar_is_zero s);;
  VERIFY_CHECK (word =? WNAF_SIZE w);;
  ret (wnaf, skew).

End Digits.

(** ** The multiple *)

Section EcmultConst.
Context {F : FieldOps} {S : ScalarOps} {M : Memory F S}.

(** [for (m = 0; m < ECMULT_TABLE_SIZE(w); m++)] *)
Definition const_select (pre : list secp256k1_ge) (size : nat) (idx_n : Z) (x y : secp256k1_fe) : secp256k1_fe * secp256k1_fe :=
  fold_left (fun '(x, y) m =>
    let e := nth m pre uninit_ge in
    let flag := Z.b2z (Z.of_nat m =? idx_n) in
    (secp256k1_fe_cmov x (ge_x e) flag, secp256k1_fe_cmov y (ge_y e) flag)) (seq 0 size) (x, y).

Definition ECMULT_CONST_TABLE_GET_GE (pre : list secp256k1_ge) (n w : Z) : checked secp256k1_ge :=
  let abs_n := i32 (n * (Z.b2z (0 <? n) * 2 - 1)) in
  let idx_n := Z.quot abs_n 2 in
  VERIFY_CHECK (Z.land n 1 =? 1);;
  VERIFY_CHECK (- (Z.shiftl 1 (w - 1) - 1) <=? n);;
  VERIFY_CHECK (n <=? Z.shiftl 1 (w - 1) - 1);;
  let '(x, y) := const_select pre (ECMULT_TABLE_SIZE w) idx_n secp256k1_fe_clear secp256k1_fe_clear in
  neg_y <- secp256k1_fe_negate y 1;;
  let y := secp256k1_fe_cmov y neg_y (Z.b2z (negb (n =? abs_n))) in
  ret (mk_ge x y false).

(** [for (i = 0; i < ECMULT_TABLE_SIZE(WINDOW_A); i++) secp256k1_fe_normalize_weak(&pre_a[i].y)] *)
Fixpoint normalize_table (pre : list secp256k1_ge) : checked (list secp256k1_ge) :=
  match pre with
  | [] => ret []
  | e :: pre' =>
      y <- secp256k1_fe_normalize_weak (ge_y e);;
      rest <- normalize_table pre';;
      ret (mk_ge (ge_x e) y (ge_infinity e) :: rest)
  end.

(** One of the additions of a round, [n] the digit of the round. *)
Definition add_const (pre : list secp256k1_ge) (wnaf : list Z) (i : Z) (r : secp256k1_gej) : checked secp256k1_gej :=
  let n := nth (Z.to_nat i) wnaf 0 in
  tmpa <- ECMULT_CONST_TABLE_GET_GE pre n WINDOW_A;;
  VERIFY_CHECK (negb (n =? 0));;
  secp256k1_gej_add_ge r tmpa.

(** [for (i = WNAF_SIZE(WINDOW_A - 1) - 1; i >= 0; i--)], [k] rounds from [k - 1] down:
    doublings and the additions of the round, in turn. *)
Fixpoint ecmult_const_loop (k : nat) (additions : list (Z -> secp256k1_gej -> checked secp256k1_gej)) (r : secp256k1_gej) : checked secp256k1_gej :=
  match k with
  | O => ret r
  | Datatypes.S k' =>
      r <- repeat_checked (Z.to_nat (WINDOW_A - 1)) (fun r => ' (r, _) <- secp256k1_gej_double_nonzero r r None;; ret r) r;;
      r <- fold_left (fun m add => r <- m;; add (Z.of_nat k') r) additions (ret r);;
      ecmult_const_loop k' additions r
  end.

(** The multiple before the skew is corrected, and the skews: one, or two with the
    endomorphism. *)
Definition ecmult_const_skewed (a : secp256k1_ge) (scalar : secp256k1_scalar) : checked (secp256k1_gej * Z * Z) :=
  let size := Z.to_nat (WNAF_SIZE (WINDOW_A - 1)) in
  let wnaf_1 := map uninit_int (seq 0 (1 + size)) in
  let wnaf_lam := map uninit_int (seq (1 + size) (1 + size)) in
  let pre_a := repeat uninit_ge (ECMULT_TABLE_SIZE WINDOW_A) in
  if USE_ENDOMORPHISM then
    ' (q_1, q_lam) <- secp256k1_scalar_split_lambda scalar;;
    ' (wnaf_1, skew_1) <- secp256k1_wnaf_const wnaf_1 q_1 (WINDOW_A - 1);;
    ' (wnaf_lam, skew_lam) <- secp256k1_wnaf_const wnaf_lam q_lam (WINDOW_A - 1);;
    r <- secp256k1_gej_set_ge a;;
    ' (pre_a, z) <- secp256k1_ecmult_odd_multiples_table_globalz_windowa pre_a uninit_fe r;;
    pre_a <- normalize_table pre_a;;
    pre_a_lam <- mul_lambda_table pre_a;;
    let i := nth size wnaf_1 0 in
    VERIFY_CHECK (negb (i =? 0));;
    tmpa <- ECMULT_CONST_TABLE_GET_GE pre_a i WINDOW_A;;
    r <- secp256k1_gej_set_ge tmpa;;
    let i := nth size wnaf_lam 0 in
    VERIFY_CHECK (negb (i =? 0));;
    tmpa <- ECMULT_CONST_TABLE_GET_GE pre_a_lam i WINDOW_A;;
    r <- secp256k1_gej_add_ge r tmpa;;
    r <- ecmult_const_loop size [add_const pre_a wnaf_1; add_const pre_a_lam wnaf_lam] r;;
    rz <- secp256k1_fe_mul (gej_z r) z;;
    ret (mk_gej (gej_x r) (gej_y r) rz (gej_infinity r), skew_1, skew_lam)
  else
    ' (wnaf_1, skew_1) <- secp256k1_wnaf_const wnaf_1 scalar (WINDOW_A - 1);;
    r <- secp256k1_gej_set_ge a;;
    ' (pre_a, z) <- secp256k1_ecmult_odd_multiples_table_globalz_windowa pre_a uninit_fe r;;
    pre_a <- normalize_table pre_a;;
    let i := nth size wnaf_1 0 in
    VERIFY_CHECK (negb (i =? 0));;
    tmpa <- ECMULT_CONST_TABLE_GET_GE pre_a i WINDOW_A;;
    r <- secp256k1_gej_set_ge tmpa;;
    r <- ecmult_const_loop size [add_const pre_a wnaf_1] r;;
    rz <- secp256k1_fe_mul (gej_z r) z;;
    ret (mk_gej (gej_x r) (gej_y r) rz (gej_infinity r), skew_1, 0).

Definition secp256k1_ecmult_const (a : secp256k1_ge) (scalar : secp256k1_scalar) : checked secp256k1_gej :=
  ' (r, skew_1, skew_lam) <- ecmult_const_skewed a scalar;;
  (* Correct for wNAF skew *)
  tmpj <- secp256k1_gej_set_ge a;;
  ' (tmpj, _) <- secp256k1_gej_double_var tmpj tmpj None;;
  ' (correction, _) <- secp256k1_ge_set_gej tmpj;;
  correction_1_stor <- secp256k1_ge_to_storage a;;
  correction_lam_stor <- (if USE_ENDOMORPHISM then secp256k1_ge_to_storage a else ret uninit_ge_storage);;
  a2_stor <- secp256k1_ge_to_storage correction;;
  let correction_1_stor := secp256k1_ge_storage_cmov correction_1_stor a2_stor (Z.b2z (skew_1 =? 2)) in
  correction <- secp256k1_ge_neg (secp256k1_ge_from_storage correction_1_stor);;
  r <- secp256k1_gej_add_ge r correction;;
  if USE_ENDOMORPHISM then
    let correction_lam_stor := secp256k1_ge_storage_cmov correction_lam_stor a2_stor (Z.b2z (skew_lam =? 2)) in
    correction <- secp256k1_ge_neg (secp256k1_ge_from_storage correction_lam_stor);;
    correction <- secp256k1_ge_mul_lambda correction;;
    secp256k1_gej_add_ge r correction
  else ret r.

End EcmultConst.
