(* ===== verification/EcmultConstSpec.v ===== *)
(** * Constant-time multiplication of points: specification

    The digits that [secp256k1_wnaf_const] writes are odd and write the scalar plus
    the skew; [secp256k1_ecmult_const] computes the multiple for every scalar. *)

From Stdlib Require Import ZArith Lia List Bool.
From S2P Require Import Prelude Modulus Bytes Field FieldImpl Curve CurveGroup CurveOrder Group GroupConv Scalar ScalarImpl Endomorphism Ecmult Wnaf EcmultSpec EcmultConst.
Import ListNotations.

#[local] Open Scope Z_scope.
#[local] Open Scope checked_scope.

(** ** Digits *)

(** The number that the digits write in base [2^w], the lowest first. *)
Definition radix_value (w : Z) (l : list Z) : Z := fold_right (fun d acc => d + 2 ^ w * acc) 0 l.

Definition const_digit (w d : Z) : Prop := Z.odd d = true /\ - 2 ^ w < d < 2 ^ w.

Lemma radix_value_snoc w l d : 0 <= w -> radix_value w (l ++ [d]) = radix_value w l + 2 ^ (w * Z.of_nat (length l)) * d.
Proof.
  intros Hw. induction l as [|x l IH]; cbn [app radix_value fold_right length]; [change (Z.of_nat 0) with 0; rewrite !Z.mul_0_r, Z.pow_0_r; ring|].
  fold (radix_value w (l ++ [d])). fold (radix_value w l). rewrite IH, Nat2Z.inj_succ.
  replace (w * Z.succ (Z.of_nat (length l))) with (w + w * Z.of_nat (length l)) by ring. rewrite Z.pow_add_r by lia. ring.
Qed.

(** With a positive last digit the value from every position on is positive, and
    not above the whole. *)
Lemma radix_suffix w l d : 0 < w -> Forall (const_digit w) l -> 0 < d -> 1 <= radix_value w (l ++ [d]).
Proof.
  intros Hw Hl Hd. induction Hl as [|x l [_ Hx] _ IH]; cbn [app radix_value fold_right]; [lia|].
  fold (radix_value w (l ++ [d])). assert (0 < 2 ^ w) by (apply Z.pow_pos_nonneg; lia). nia.
Qed.

Lemma radix_suffix_le w x l : 0 < w -> const_digit w x -> 1 <= radix_value w l -> radix_value w l <= radix_value w (x :: l).
Proof.
  intros Hw [_ Hx] Hl. cbn [radix_value fold_right]. fold (radix_value w l).
  assert (2 <= 2 ^ w) by (change 2 with (2 ^ 1) at 1; apply Z.pow_le_mono_r; lia). nia.
Qed.

Lemma radix_skipn w k l : radix_value w (skipn k l) = nth k l 0 + 2 ^ w * radix_value w (skipn (S k) l).
Proof.
  revert l. induction k as [|k IH]; intros [|x l]; [rewrite Z.mul_0_r; reflexivity | reflexivity | rewrite Z.mul_0_r; reflexivity|].
  exact (IH l).
Qed.

Lemma radix_signed w gs l : radix_value w (map (Z.mul gs) l) = gs * radix_value w l.
Proof.
  induction l as [|x l IH]; cbn [map radix_value fold_right]; [ring|]. fold (radix_value w (map (Z.mul gs) l)) (radix_value w l). rewrite IH. ring.
Qed.

Lemma const_digit_signed w gs d : gs = 1 \/ gs = -1 -> const_digit w d -> const_digit w (gs * d).
Proof.
  intros [-> | ->] [Ho Hd]; [rewrite Z.mul_1_l; split; assumption|]. replace (-1 * d) with (- d) by ring. split; [rewrite Z.odd_opp; exact Ho | lia].
Qed.

(** Odd digits of which no suffix is zero, and every proper suffix is shorter by a
    digit. *)
Definition odd_digits (w : Z) (l : list Z) : Prop := Forall (const_digit w) l /\ forall j, (j < length l)%nat ->
  1 <= Z.abs (radix_value w (skipn j l)) /\ ((0 < j)%nat -> 2 ^ w * Z.abs (radix_value w (skipn j l)) < Z.abs (radix_value w l) + 2 ^ w).

Lemma odd_digits_positive w ds d j : 0 < w -> Forall (const_digit w) ds -> 0 < d -> (j <= length ds)%nat ->
  1 <= radix_value w (skipn j (ds ++ [d])) /\ ((0 < j)%nat -> 2 ^ w * radix_value w (skipn j (ds ++ [d])) < radix_value w (ds ++ [d]) + 2 ^ w).
Proof.
  intros Hw Hds Hd. revert j. induction Hds as [|x l Hx Hl IH]; intros [|j] Hj; cbn [length] in Hj; try lia.
  - cbn [skipn app radix_value fold_right]. lia.
  - split; [apply radix_suffix; auto | lia].
  - cbn [skipn app]. destruct (IH j ltac:(lia)) as [H1 H2]. split; [exact H1|]. intros _. cbn [radix_value fold_right]. fold (radix_value w (l ++ [d])).
    pose proof (radix_suffix w l d Hw Hl Hd) as H0. destruct Hx as [_ Hx]. destruct j as [|j]; [cbn [skipn]; nia|].
    assert (2 <= 2 ^ w) by (change 2 with (2 ^ 1) at 1; apply Z.pow_le_mono_r; lia). specialize (H2 ltac:(lia)).
    set (V := radix_value w (skipn (S j) (l ++ [d]))) in *. nia.
Qed.

Lemma odd_digits_signed w gs ds d : 0 < w -> gs = 1 \/ gs = -1 -> Forall (const_digit w) (ds ++ [d]) -> 0 < d -> odd_digits w (map (Z.mul gs) (ds ++ [d])).
Proof.
  intros Hw Hgs Hds Hd. apply Forall_app in Hds as [Hds Hdd]. split.
  - apply Forall_map. apply Forall_app. split; [eapply Forall_impl; [|exact Hds] | eapply Forall_impl; [|exact Hdd]]; intros x Hx; apply const_digit_signed; assumption.
  - intros j Hj. rewrite length_map, length_app in Hj. cbn [length] in Hj. rewrite skipn_map, !radix_signed.
    destruct (odd_digits_positive w ds d j Hw Hds Hd ltac:(lia)) as [H1 H2]. pose proof (radix_suffix w ds d Hw Hds Hd) as H0.
    set (V := radix_value w (skipn j (ds ++ [d]))) in *. set (W := radix_value w (ds ++ [d])) in *.
    assert (Z.abs (gs * V) = V /\ Z.abs (gs * W) = W) as [-> ->] by (destruct Hgs as [-> | ->]; lia). split; [exact H1 | exact H2].
Qed.

Lemma firstn_upd {A} (l : list A) i x : (i < length l)%nat -> firstn (S i) (upd l i x) = firstn i l ++ [x].
Proof. revert i. induction l as [|y l IH]; intros [|i] Hi; cbn [length] in Hi; try lia; [reflexivity|]. cbn [upd firstn app]. f_equal. apply IH. lia. Qed.

Section Digits.
Context {C : Config} {SO : ScalarOps} {LS : ScalarLaws SO}.

(** The words that are written cover the bits, and not one word less. *)
Lemma wnaf_size_spec w k : 0 < w -> 0 <= k -> k * w < WNAF_BITS <-> k < WNAF_SIZE w.
Proof. intros Hw Hk. unfold WNAF_SIZE. pose proof (Z.div_mod (WNAF_BITS + w - 1) w ltac:(lia)). pose proof (Z.mod_pos_bound (WNAF_BITS + w - 1) w ltac:(lia)). nia. Qed.

Lemma wnaf_bits_range : 128 <= WNAF_BITS <= 256.
Proof. unfold WNAF_BITS. destruct USE_ENDOMORPHISM; lia. Qed.

(** The digits [ds], with the sign [gs], of the first words; [u_last] and the scalar
    hold what is left of [v]. *)
Definition const_state (w gs v : Z) (s : secp256k1_scalar) (u_last word : Z) (wnaf : list Z) : Prop :=
  sc_wf s /\ const_digit w u_last /\ 0 < u_last /\
  exists ds, firstn (Z.to_nat word) wnaf = map (Z.mul gs) ds /\ Z.of_nat (length ds) = word /\ Forall (const_digit w) ds /\
    v = radix_value w ds + 2 ^ (w * word) * (u_last + 2 ^ w * sc_Z s).

Lemma digit_round w u_last s : 0 < w <= 15 -> const_digit w u_last -> 0 < u_last -> sc_wf s ->
  let u0 := sc_Z s mod 2 ^ w in
  let even := Z.b2z (Z.land u0 1 =? 0) in
  let sign := 2 * Z.b2z (0 <? u_last) - 1 in
  let u := i32 (u0 + sign * even) in
  let d := i32 (u_last - sign * even * Z.shiftl 1 w) in
  const_digit w u /\ 0 < u /\ const_digit w d /\ u_last + 2 ^ w * sc_Z s = d + 2 ^ w * (u + 2 ^ w * (sc_Z s / 2 ^ w)).
Proof.
  intros Hw [Ho Hd] Hpos Hs. cbv zeta. rewrite (proj2 (Z.ltb_lt 0 u_last) Hpos). cbn [Z.b2z]. rewrite Z.shiftl_1_l.
  pose proof (Z.mod_pos_bound (sc_Z s) (2 ^ w) ltac:(apply Z.pow_pos_nonneg; lia)) as B. pose proof (Z.div_mod (sc_Z s) (2 ^ w) ltac:(lia)) as D.
  set (u0 := sc_Z s mod 2 ^ w) in *. assert (Z.land u0 1 = u0 mod 2) as -> by (change 1 with (Z.ones 1); rewrite Z.land_ones by lia; reflexivity).
  assert (2 ^ w = 2 * 2 ^ (w - 1)) as Pw by (rewrite <- Z.pow_succ_r by lia; f_equal; lia).
  assert (2 ^ w <= 2 ^ 15) as Pm by (apply Z.pow_le_mono_r; lia).
  rewrite Zmod_odd. apply Z.odd_spec in Ho as [m Hm]. destruct (Z.odd u0) eqn:Hu; cbn [Z.eqb Z.b2z].
  - rewrite !i32_small by lia. replace (u0 + (2 * 1 - 1) * 0) with u0 by ring. replace (u_last - (2 * 1 - 1) * 0 * 2 ^ w) with u_last by ring.
    apply Z.odd_spec in Hu as Hu'. destruct Hu' as [k Hk].
    repeat split; try assumption; try lia. apply Z.odd_spec. exists m. exact Hm.
  - rewrite !i32_small by lia. replace (u0 + (2 * 1 - 1) * 1) with (u0 + 1) by ring. replace (u_last - (2 * 1 - 1) * 1 * 2 ^ w) with (u_last - 2 ^ w) by ring.
    rewrite <- Z.negb_even in Hu. apply negb_false_iff, Z.even_spec in Hu as [k Hk].
    repeat split; try lia; [apply Z.odd_spec; exists k; lia | apply Z.odd_spec; exists (m - 2 ^ (w - 1)); lia].
Qed.

Lemma wnaf_const_loop_ok w gs v : 0 < w <= 15 -> (gs = 1 \/ gs = -1) -> forall fuel s u_last u word wnaf, 0 <= word ->
  WNAF_BITS - word * w <= Z.of_nat fuel -> Z.of_nat (length wnaf) = WNAF_SIZE w + 1 -> (word * w < WNAF_BITS \/ word = WNAF_SIZE w /\ u = u_last) ->
  const_state w gs v s u_last word wnaf ->
  Returns (wnaf_const_loop fuel w gs s u_last u word wnaf) (fun '(s', u', word', wnaf') =>
    word' = WNAF_SIZE w /\ length wnaf' = length wnaf /\ const_state w gs v s' u' word' wnaf').
Proof.
  intros Hw Hgs. pose proof (fun k => wnaf_size_spec w k ltac:(lia)) as Hsize.
  induction fuel as [|fuel IH]; intros s u_last u word wnaf H0 Hf Hl Hword Hst; cbn [wnaf_const_loop].
  - destruct (Z.ltb_spec (word * w) WNAF_BITS) as [Hlt|Hge]; [lia|]. destruct Hword as [|[-> ->]]; [lia|]. apply Returns_ret. auto.
  - destruct (Z.ltb_spec (word * w) WNAF_BITS) as [Hlt|Hge]; [|destruct Hword as [|[-> ->]]; [lia|]; apply Returns_ret; auto].
    destruct Hst as (Hs & Hd & Hpos & ds & Eds & Lds & Fds & Ev).
    eapply Returns_bind; [apply (sc_shr_int_law s w Hs); lia|]. intros [u0 s'] (-> & Hs' & Es'). cbv zeta.
    destruct (digit_round w u_last s Hw Hd Hpos Hs) as (Hu & Hupos & Hdd & E). set (u' := i32 (sc_Z s mod 2 ^ w + _)) in *. set (d := i32 (u_last - _)) in *.
    assert (i32 (d * gs) = gs * d) as ->.
    { rewrite Z.mul_comm. apply i32_small. destruct Hdd as [_ Hdd]. assert (2 ^ w <= 2 ^ 15) by (apply Z.pow_le_mono_r; lia). destruct Hgs as [-> | ->]; lia. }
    assert (word < WNAF_SIZE w) as Hws by (apply Hsize; assumption).
    pose proof (Hsize (word + 1) ltac:(lia)) as Hnext.
    eapply Returns_mono; [apply (IH s' u' u' (word + 1)); [lia | nia | rewrite length_upd; exact Hl | lia |]|].
    + split; [exact Hs'|]. split; [exact Hu|]. split; [exact Hupos|]. exists (ds ++ [d]).
      split; [|split; [rewrite length_app; cbn [length]; lia | split; [apply Forall_app; split; [exact Fds | repeat constructor; apply Hdd]|]]].
      * replace (Z.to_nat (word + 1)) with (S (Z.to_nat word)) by lia. rewrite firstn_upd, Eds, map_app by lia. reflexivity.
      * rewrite radix_value_snoc, Lds, Es' by lia. replace (w * (word + 1)) with (w * word + w) by ring. rewrite Z.pow_add_r by nia.
        rewrite Ev, E. ring.
    + intros [[[s2 u2] word2] wnaf2] (E1 & E2 & E3). rewrite length_upd in E2. auto.
Qed.

(** The odd number that is written, its sign and the skew: one is added to the even
    scalars and two to the odd ones, after the upper half has been negated. *)
Definition const_target (s : secp256k1_scalar) (v gs skew : Z) : Prop :=
  (gs = 1 \/ gs = -1) /\ (skew = 1 \/ skew = 2) /\ Z.odd v = true /\ 0 < v <= n / 2 + 2 /\ (gs * v) mod n = (sc_Z s + skew) mod n.

Lemma mod_n_shift a b k : a = b + k * n -> a mod n = b mod n.
Proof. intros ->. apply Z.mod_add. discriminate. Qed.

Lemma half_n : n = 2 * (n / 2) + 1.
Proof. reflexivity. Qed.

Lemma const_skew s : sc_wf s ->
  let flip := secp256k1_scalar_is_high s in
  let bit := Z.lxor flip (Z.b2z (negb (secp256k1_scalar_is_even s))) in
  let not_neg_one := Z.b2z (negb (secp256k1_scalar_is_one (secp256k1_scalar_negate s))) in
  Returns (secp256k1_scalar_cadd_bit s bit not_neg_one) (fun s' =>
    let '(global_sign, s'') := secp256k1_scalar_cond_negate s' flip in
    sc_wf s'' /\ const_target s (sc_Z s'') (global_sign * (not_neg_one * 2 - 1)) (Z.shiftl 1 bit)).
Proof.
  intros Hs. cbv zeta. destruct (sc_negate_law s Hs) as [Hns Ens]. pose proof (sc_range s Hs) as B. pose proof half_n as Hn. assert (10 < n) as Hbig by reflexivity.
  rewrite (sc_is_high_law s Hs), (sc_is_even_law s Hs), (sc_is_one_law _ Hns), Ens, Z.negb_even.
  assert ((((- sc_Z s) mod n =? 1) = true) <-> sc_Z s = n - 1) as Hone.
  { rewrite Z.eqb_eq. destruct (Z.eq_dec (sc_Z s) 0) as [->|Hnz]; [rewrite Z.mod_small by lia; unfold n; lia|].
    rewrite (mod_n_shift (- sc_Z s) (n - sc_Z s) (-1)) by ring. rewrite Z.mod_small by lia. lia. }
  set (one := (- sc_Z s) mod n =? 1) in *. set (flip := n / 2 <? sc_Z s). set (odd := Z.odd (sc_Z s)).
  assert (Z.lxor (Z.b2z flip) (Z.b2z odd) = Z.b2z (xorb flip odd)) as -> by (destruct flip, odd; reflexivity).
  assert (exists k, sc_Z s = 2 * k + Z.b2z odd) as [k Ek].
  { exists (Z.div2 (sc_Z s)). unfold odd. rewrite (Z.div2_odd (sc_Z s)) at 1. destruct (Z.odd (sc_Z s)); reflexivity. }
  assert (if flip then n / 2 < sc_Z s else sc_Z s <= n / 2) as Hflip by (unfold flip; destruct (Z.ltb_spec (n / 2) (sc_Z s)); assumption).
  eapply Returns_mono; [apply (sc_cadd_bit_law s (Z.b2z (xorb flip odd)) (negb one) Hs); [destruct flip, odd; cbn; lia|]|].
  { intros Hno. assert (sc_Z s <> n - 1) by (intros E; apply Hone in E; rewrite E in Hno; discriminate). destruct flip, odd; cbn [xorb Z.b2z] in *; change (2 ^ 0) with 1; change (2 ^ 1) with 2; lia. }
  intros s' [Hs' Es']. pose proof (sc_range s' Hs') as B'. rewrite (sc_cond_negate_law s' _ Hs').
  destruct (sc_negate_law s' Hs') as [Hn' En'].
  assert (flip = true -> sc_Z (secp256k1_scalar_negate s') = n - sc_Z s') as Eneg.
  { intros Hf. rewrite En', (mod_n_shift (- sc_Z s') (n - sc_Z s') (-1)) by ring. apply Z.mod_small. rewrite Hf in Hflip.
    destruct one; cbn [negb] in Es'; [lia|]. assert (0 < 2 ^ Z.b2z (xorb flip odd)) by (apply Z.pow_pos_nonneg; destruct flip, odd; cbn; lia). lia. }
  destruct flip; cbn [Z.b2z Z.eqb xorb negb] in *; [specialize (Eneg eq_refl) | clear Eneg]; (split; [assumption|]); unfold const_target.
  - rewrite Eneg. destruct one.
    + assert (sc_Z s = n - 1) as E by (apply Hone; reflexivity). destruct odd; cbn [negb Z.b2z] in *; [lia|]. change (Z.shiftl 1 1) with 2.
      repeat split; try lia; [apply Z.odd_spec; exists 0; lia|]. apply (mod_n_shift _ _ (-1)). lia.
    + assert (sc_Z s <> n - 1) by (intros E; apply Hone in E; discriminate).
      destruct odd; cbn [negb Z.b2z] in *; [change (Z.shiftl 1 0) with 1; change (2 ^ 0) with 1 in Es' | change (Z.shiftl 1 1) with 2; change (2 ^ 1) with 2 in Es'];
        (repeat split; try lia; [apply Z.odd_spec; exists (n / 2 - k - 1); lia|]); apply (mod_n_shift _ _ (-1)); lia.
  - destruct one; [assert (sc_Z s = n - 1) by (apply Hone; reflexivity); lia|].
    destruct odd; cbn [negb Z.b2z] in *; [change (Z.shiftl 1 1) with 2; change (2 ^ 1) with 2 in Es' | change (Z.shiftl 1 0) with 1; change (2 ^ 0) with 1 in Es'];
      (repeat split; try lia; [apply Z.odd_spec; (exists k; lia) || (exists (k + 1); lia)|]); f_equal; lia.
Qed.

(** The number that is written has its words. *)
Definition const_short (s : secp256k1_scalar) (w : Z) : Prop := forall v gs skew, const_target s v gs skew -> v < 2 ^ WNAF_BITS * 2 ^ w.

(** The digits are odd and write the target; the last one is positive before the
    sign. *)
Lemma wnaf_const_ok wnaf s w : sc_wf s -> 0 < w <= 15 -> Z.of_nat (length wnaf) = WNAF_SIZE w + 1 -> const_short s w ->
  Returns (secp256k1_wnaf_const wnaf s w) (fun '(wnaf', skew) => exists ds d gs v,
    wnaf' = map (Z.mul gs) (ds ++ [d]) /\ length (ds ++ [d]) = length wnaf /\ Forall (const_digit w) (ds ++ [d]) /\ 0 < d /\
    v = radix_value w (ds ++ [d]) /\ const_target s v gs skew).
Proof.
  intros Hs Hw Hl Hshort. unfold secp256k1_wnaf_const. eapply Returns_bind; [apply (const_skew s Hs)|]. intros s' Ht. cbv zeta. cbv beta zeta in Ht.
  set (flip := secp256k1_scalar_is_high s) in *. destruct (secp256k1_scalar_cond_negate s' flip) as [gs0 s'']. destruct Ht as [Hs'' Ht].
  set (gs := gs0 * _) in *. set (skew := Z.shiftl 1 _) in *. pose proof (sc_range s'' Hs'') as B.
  eapply Returns_bind; [apply (sc_shr_int_law s'' w Hs''); lia|]. intros [u_last s3] (-> & Hs3 & Es3).
  assert (const_digit w (sc_Z s'' mod 2 ^ w) /\ 0 < sc_Z s'' mod 2 ^ w) as [Hd Hpos].
  { pose proof (Z.mod_pos_bound (sc_Z s'') (2 ^ w) ltac:(apply Z.pow_pos_nonneg; lia)) as Bm.
    assert (Z.odd (sc_Z s'' mod 2 ^ w) = true) as Ho.
    { rewrite <- Z.bit0_odd, Z.mod_pow2_bits_low, Z.bit0_odd by lia. apply Ht. }
    split; [split; [exact Ho | lia]|]. apply Z.odd_spec in Ho as [m Hm]. lia. }
  pose proof wnaf_bits_range as Hbits. assert (0 <= WNAF_SIZE w) as Hsz0 by (apply Z.div_pos; lia).
  assert (WNAF_BITS <= w * WNAF_SIZE w) as Hsz by (apply Z.nlt_ge; rewrite Z.mul_comm, (wnaf_size_spec w _ (proj1 Hw) Hsz0); apply Z.lt_irrefl).
  eapply Returns_bind.
  { apply (wnaf_const_loop_ok w gs (sc_Z s'') Hw (proj1 Ht)); [lia | lia | exact Hl | lia |].
    split; [exact Hs3|]. split; [exact Hd|]. split; [exact Hpos|]. exists []. repeat split; auto.
    rewrite Z.mul_0_r, Es3, Z.pow_0_r. cbn [radix_value fold_right]. rewrite (Z.div_mod (sc_Z s'') (2 ^ w)) at 1 by (apply Z.pow_nonzero; lia). ring. }
  intros [[[s4 u] word] wnaf'] (-> & Lw & Hs4 & Hu & Hupos & ds & Eds & Lds & Fds & Ev).
  assert (sc_Z s4 = 0) as Z4.
  { pose proof (sc_range s4 Hs4) as B4. pose proof (radix_suffix w ds u ltac:(lia) Fds Hupos) as Hr. rewrite radix_value_snoc, Lds in Hr by lia.
    assert (2 ^ WNAF_BITS <= 2 ^ (w * WNAF_SIZE w)) by (apply Z.pow_le_mono_r; [reflexivity | exact Hsz]). pose proof (Hshort _ _ _ Ht) as Hv.
    assert (0 < 2 ^ WNAF_BITS) by (apply Z.pow_pos_nonneg; lia). assert (2 <= 2 ^ w) by (change 2 with (2 ^ 1) at 1; apply Z.pow_le_mono_r; lia).
    set (P := 2 ^ (w * WNAF_SIZE w)) in *. assert (P * (2 ^ w * sc_Z s4) = sc_Z s'' - (radix_value w ds + P * u)) as E4 by (rewrite Ev; ring).
    assert (2 ^ WNAF_BITS * 2 ^ w <= P * 2 ^ w) by (apply Z.mul_le_mono_nonneg_r; lia).
    destruct (Z.eq_dec (sc_Z s4) 0) as [E0|E0]; [exact E0|]. assert (P * 2 ^ w <= P * (2 ^ w * sc_Z s4)) by (apply Z.mul_le_mono_nonneg_l; nia). lia. }
  rewrite (sc_is_zero_law s4 Hs4), Z4. apply Returns_check; [reflexivity|]. apply Returns_check; [apply Z.eqb_refl|]. apply Returns_ret.
  exists ds, u, gs, (sc_Z s''). rewrite Z4 in Ev. rewrite length_app. cbn [length].
  assert (i32 (u * gs) = gs * u) as ->.
  { rewrite Z.mul_comm. apply i32_small. destruct Hu as [_ Hu]. assert (2 ^ w <= 2 ^ 15) by (apply Z.pow_le_mono_r; lia). destruct (proj1 Ht) as [-> | ->]; lia. }
  split; [|split; [lia | split; [apply Forall_app; split; [exact Fds | repeat constructor; apply Hu] | split; [exact Hupos | split; [|exact Ht]]]]].
  - rewrite map_app, <- Eds. cbn [map]. rewrite <- firstn_upd by lia. symmetry. apply firstn_all2. rewrite length_upd. lia.
  - rewrite Ev, radix_value_snoc, Lds by lia. ring.
Qed.

(** What the multiplication uses of the digits. *)
Lemma const_digits_ok wnaf s w : sc_wf s -> 0 < w <= 15 -> Z.of_nat (length wnaf) = WNAF_SIZE w + 1 -> const_short s w ->
  Returns (secp256k1_wnaf_const wnaf s w) (fun '(l, skew) => length l = length wnaf /\ odd_digits w l /\ (skew = 1 \/ skew = 2) /\
    (radix_value w l) mod n = (sc_Z s + skew) mod n /\ exists v gs, const_target s v gs skew /\ Z.abs (radix_value w l) = v).
Proof.
  intros Hs Hw Hl Hshort. eapply Returns_mono; [apply (wnaf_const_ok wnaf s w Hs Hw Hl Hshort)|].
  intros [l skew] (ds & d & gs & v & -> & Ll & Fd & Hd & Ev & Ht). pose proof Ht as (Hgs & Hskew & _ & Hv & Em).
  rewrite length_map, radix_signed, <- Ev. split; [exact Ll|]. split; [apply odd_digits_signed; auto; lia|]. split; [exact Hskew|]. split; [exact Em|].
  exists v, gs. split; [exact Ht|]. destruct Hgs as [-> | ->]; lia.
Qed.

(** A scalar of any length in 256 bits, and a short one in 128. *)
Lemma const_short_256 s w : 0 <= w -> WNAF_BITS = 256 -> const_short s w.
Proof.
  intros Hw E v gs skew (_ & _ & _ & Hv & _). rewrite E. assert (n / 2 + 2 < 2 ^ 256) by reflexivity. assert (0 < 2 ^ w) by (apply Z.pow_pos_nonneg; lia). nia.
Qed.

Lemma const_target_short s x v gs skew : sc_ok s x -> Z.abs (signed x) < 2 ^ 128 -> const_target s v gs skew -> v <= 2 ^ 128 + 1.
Proof.
  intros [_ Es] Hx (Hgs & Hskew & _ & Hv & Em). assert ((signed x) mod n = Zmod.to_Z x mod n) as Ex.
  { unfold signed. destruct (_ <=? _); [reflexivity|]. replace (Zmod.to_Z x - n) with (Zmod.to_Z x + (-1) * n) by ring. apply Z.mod_add. discriminate. }
  assert (gs * v = signed x + skew) as E.
  { assert ((signed x + skew) mod n = (sc_Z s + skew) mod n) as Ey by (rewrite <- (Zplus_mod_idemp_l (signed x)), Ex, <- Es, Zplus_mod_idemp_l; reflexivity).
    assert (n | gs * v - (signed x + skew)) as Hd by (apply Z.mod_divide; [discriminate|]; rewrite Zminus_mod, Em, Ey, Z.sub_diag; reflexivity).
    apply n_divide_small in Hd; [lia|]. assert (n / 2 + 2 + (2 ^ 128 + 2) < n) by reflexivity. destruct Hgs as [-> | ->]; lia. }
  destruct Hgs as [-> | ->]; lia.
Qed.

Lemma const_short_128 s x w : 2 <= w -> sc_ok s x -> Z.abs (signed x) < 2 ^ 128 -> const_short s w.
Proof.
  intros Hw Hs Hx v gs skew Ht. pose proof (const_target_short s x v gs skew Hs Hx Ht). pose proof wnaf_bits_range.
  assert (2 ^ 128 <= 2 ^ WNAF_BITS) by (apply Z.pow_le_mono_r; lia). assert (2 ^ 2 <= 2 ^ w) by (apply Z.pow_le_mono_r; lia). change (2 ^ 2) with 4 in *. nia.
Qed.

End Digits.

(** ** The table *)

Section Spec.
Context {F : FieldOps} {SO : ScalarOps} {M : Memory F SO} {L : FieldLaws F} {LS : ScalarLaws SO}.

(** A table with ordinates of magnitude one. *)
Definition const_table (size : nat) (pre : list secp256k1_ge) (P : nat -> point) : Prop :=
  length pre = size /\ forall j, (j < size)%nat -> exists X Y,
    fe_ok (ge_x (nth j pre uninit_ge)) 8 X /\ fe_ok (ge_y (nth j pre uninit_ge)) 1 Y /\ P j = Affine X Y /\ ge_infinity (nth j pre uninit_ge) = false.

Lemma normalize_table_ok pre : forall P, (forall j, (j < length pre)%nat -> ge_ok (nth j pre uninit_ge) (P j) /\ ge_infinity (nth j pre uninit_ge) = false) ->
  Returns (normalize_table pre) (fun pre' => const_table (length pre) pre' P).
Proof.
  induction pre as [|e pre IH]; intros P HP; cbn [normalize_table length]; [apply Returns_ret; split; [reflexivity | intros j Hj; lia]|].
  destruct (HP O ltac:(cbn; lia)) as [(X & Y & Hx & Hy & E) Ie]. cbn [nth] in *. rewrite Ie in E.
  eapply Returns_bind; [apply (fe_normalize_weak_ok _ 8 Y Hy); lia|]. intros y Hy'.
  eapply Returns_bind; [apply (IH (fun j => P (S j))); intros j Hj; apply (HP (S j)); cbn; lia|]. intros rest [Lr Hr]. apply Returns_ret.
  split; [cbn; lia|]. intros [|j] Hj; cbn [nth]; [exists X, Y; auto | apply Hr; lia].
Qed.

Lemma lambda_const_table_ok pre size P : const_table size pre P -> Returns (mul_lambda_table pre) (fun pre' => const_table size pre' (fun j => plambda (P j))).
Proof.
  intros [<- T]. eapply Returns_mono; [apply (mul_lambda_table_ok pre P)|].
  - intros j Hj. destruct (T j Hj) as (X & Y & Hx & Hy & E & Ie). exists X, Y. rewrite Ie. split; [exact Hx|]. split; [exact (fe_ok_mono _ 1 8 _ Hy ltac:(lia)) | exact E].
  - intros pre' [Hl H]. split; [exact Hl|]. intros j Hj. destruct (T j Hj) as (X & Y & Hx & Hy & E & Ie). destruct (H j Hj) as ((X' & Y' & Hx' & _ & E') & Ey & Ei).
    rewrite Ie in Ei. rewrite Ei, E in E'. exists X', Y. split; [exact Hx'|]. split; [rewrite Ey; exact Hy|]. split; [|exact Ei]. rewrite E. cbn [plambda] in *. congruence.
Qed.

(** The loop that reads the whole table. *)
Lemma const_select_ok pre P size idx : const_table size pre P -> 0 <= idx < Z.of_nat size -> exists X Y,
  let '(x, y) := const_select pre size idx secp256k1_fe_clear secp256k1_fe_clear in
  fe_ok x 8 X /\ fe_ok y 1 Y /\ P (Z.to_nat idx) = Affine X Y.
Proof.
  intros [_ T] Hidx. destruct (T (Z.to_nat idx) ltac:(lia)) as (X & Y & Hx & Hy & E & _). exists X, Y. unfold const_select.
  enough (forall k, (k <= size)%nat ->
    let '(x, y) := fold_left (fun '(x, y) m => let e := nth m pre uninit_ge in let flag := Z.b2z (Z.of_nat m =? idx) in
      (secp256k1_fe_cmov x (ge_x e) flag, secp256k1_fe_cmov y (ge_y e) flag)) (seq 0 k) (secp256k1_fe_clear, secp256k1_fe_clear) in
    exists vx vy, fe_ok x 8 vx /\ fe_ok y 1 vy /\ (idx < Z.of_nat k -> vx = X /\ vy = Y)) as Hk.
  { specialize (Hk size (le_n _)). destruct (fold_left _ _ _) as [x y]. destruct Hk as (vx & vy & H1 & H2 & H3).
    destruct (H3 ltac:(lia)) as [-> ->]. auto. }
  induction k as [|k IH]; intros Hk.
  - cbn. pose proof (fe_norm_ok _ _ fe_clear_norm) as H0. exists Zmod.zero, Zmod.zero. split; [exact (fe_ok_mono _ 1 8 _ H0 ltac:(lia))|]. split; [exact H0 | lia].
  - rewrite seq_S, fold_left_app. cbn [fold_left Nat.add]. specialize (IH ltac:(lia)). destruct (fold_left _ (seq 0 k) _) as [x y].
    destruct IH as (vx & vy & H1 & H2 & H3). destruct (T k ltac:(lia)) as (X' & Y' & Hx' & Hy' & E' & _). cbv zeta.
    exists (if Z.of_nat k =? idx then X' else vx), (if Z.of_nat k =? idx then Y' else vy).
    split; [exact (fe_cmov_bool _ _ 8 8 _ _ _ H1 Hx')|]. split; [exact (fe_cmov_bool _ _ 1 1 _ _ _ H2 Hy')|]. intros Hi.
    destruct (Z.eqb_spec (Z.of_nat k) idx) as [<-|Hne]; [|apply H3; lia]. rewrite Nat2Z.id in E. rewrite E in E'. split; congruence.
Qed.

Lemma const_table_get_ok pre g A d : on_curve A -> const_table (ECMULT_TABLE_SIZE WINDOW_A) pre (fun j => pscale g (pmul (2 * Z.of_nat j + 1) A)) ->
  const_digit (WINDOW_A - 1) d ->
  Returns (ECMULT_CONST_TABLE_GET_GE pre d WINDOW_A) (fun r => ge_ok r (pscale g (pmul d A)) /\ ge_infinity r = false).
Proof.
  intros HA T [Ho Hd]. unfold ECMULT_CONST_TABLE_GET_GE, WINDOW_A in *. change (2 ^ (5 - 1)) with 16 in Hd. change (ECMULT_TABLE_SIZE 5) with 8%nat in *.
  cbv zeta. assert (i32 (d * (Z.b2z (0 <? d) * 2 - 1)) = Z.abs d) as ->.
  { rewrite i32_small by (destruct (0 <? d); cbn [Z.b2z]; lia). destruct (Z.ltb_spec 0 d); cbn [Z.b2z]; lia. }
  apply Z.odd_spec in Ho as Ho'. destruct Ho' as [m Em].
  apply Returns_check; [change 1 with (Z.ones 1) at 1; rewrite Z.land_ones by lia; change (2 ^ 1) with 2; rewrite Zmod_odd, Ho; reflexivity|].
  change (Z.shiftl 1 (5 - 1)) with 16. apply Returns_check; [apply Z.leb_le; lia|]. apply Returns_check; [apply Z.leb_le; lia|].
  assert (Z.abs d = 2 * Z.quot (Z.abs d) 2 + 1) as Eq.
  { pose proof (Z.quot_rem' (Z.abs d) 2) as Q. pose proof (Z.rem_bound_pos (Z.abs d) 2 ltac:(lia) ltac:(lia)). lia. }
  destruct (const_select_ok pre _ 8 (Z.quot (Z.abs d) 2) T ltac:(lia)) as (X & Y & Hsel).
  destruct (const_select pre 8 _ _ _) as [x y]. destruct Hsel as (Hx & Hy & E). rewrite Z2Nat.id, <- Eq in E by lia.
  eapply Returns_bind; [apply (fe_negate_ok y 1 Y Hy); lia|]. intros neg_y Hny. apply Returns_ret. split; [|reflexivity].
  pose proof (fe_cmov_bool y neg_y 1 2 Y (- Y)%Zmod (negb (d =? Z.abs d)) Hy Hny) as Hc.
  exists X, (if negb (d =? Z.abs d) then (- Y)%Zmod else Y). split; [exact Hx|]. split; [exact (fe_ok_mono _ _ 8 _ Hc ltac:(lia))|]. cbn [ge_infinity].
  destruct (Z.eqb_spec d (Z.abs d)) as [Ed|Hne]; cbn [negb]; [rewrite Ed; exact E|].
  replace d with (- Z.abs d) by lia. rewrite pmul_opp, pscale_popp, E by exact HA. reflexivity.
Qed.

(** ** The loop *)

(** The sum of what the digits from [i] on write. *)
Definition words_sum (i : nat) : list strand -> point := combination (fun l => radix_value (WINDOW_A - 1) (skipn i l)).

Section Loop.
Context (g : Fp) (Hg : g <> Zmod.zero).

Lemma pscale_finite P : P <> Infinity -> pscale g P <> Infinity.
Proof. destruct P; [contradiction | discriminate]. Qed.

Lemma doublings_ok r P : on_curve P -> P <> Infinity -> gej_ok r (pscale g P) ->
  Returns (repeat_checked (Z.to_nat (WINDOW_A - 1)) (fun r => ' (r, _) <- secp256k1_gej_double_nonzero r r None;; ret r) r)
    (fun r' => gej_ok r' (pscale g (pmul (2 ^ (WINDOW_A - 1)) P))).
Proof.
  intros HP Hfin Hr. change (Z.to_nat (WINDOW_A - 1)) with 4%nat. change (2 ^ (WINDOW_A - 1)) with (2 ^ Z.of_nat 4).
  apply (Returns_repeat 4 _ r (fun i r' => gej_ok r' (pscale g (pmul (2 ^ Z.of_nat i) P)))).
  - change (2 ^ Z.of_nat 0) with 1. rewrite pmul_1. exact Hr.
  - intros i y Hi Hy. unfold secp256k1_gej_double_nonzero, secp256k1_gej_is_infinity.
    assert (pmul (2 ^ Z.of_nat i) P <> Infinity) as Hnz.
    { apply pmul_finite; [exact HP | exact Hfin |]. split; [apply Z.pow_pos_nonneg; lia|]. apply Z.le_lt_trans with (2 ^ 4); [apply Z.pow_le_mono_r; lia | reflexivity]. }
    rewrite (gej_ok_finite _ _ Hy (pscale_finite _ Hnz)). apply Returns_seq, Returns_check; [reflexivity|].
    eapply Returns_mono; [apply (gej_double_var_ok (cb := cscale g) (Hreg := regular_scale g Hg) y y _ None (gej_ok_wf _ _ Hy) Hy); apply pscale_on_curve; auto with curve|].
    intros [y' z'] [Hy' _]. apply Returns_ret. rewrite <- pscale_padd, <- pmul_double in Hy' by auto with curve.
    rewrite Nat2Z.inj_succ, Z.pow_succ_r by lia. exact Hy'.
Qed.

Lemma add_const_ok A pre l i : on_curve A -> const_table (ECMULT_TABLE_SIZE WINDOW_A) pre (fun j => pscale g (pmul (2 * Z.of_nat j + 1) A)) ->
  const_digit (WINDOW_A - 1) (nth i l 0) -> adds_digit g i (add_const pre l) (l, A).
Proof.
  intros HA T Hd r P HP Hr. unfold add_const. cbv zeta. cbn [fst snd]. rewrite Nat2Z.id.
  eapply Returns_bind; [apply (const_table_get_ok pre g A _ HA T Hd)|]. intros tmpa [Ht It].
  apply Returns_check; [destruct (Z.eqb_spec (nth i l 0) 0) as [E|]; [|reflexivity]; destruct Hd as [Ho _]; rewrite E in Ho; discriminate|].
  eapply Returns_mono; [apply (gej_add_ge_ok (cb := cscale g) (Hreg := regular_scale g Hg) _ _ _ _ Hr Ht It); apply pscale_on_curve; auto with curve|].
  intros r2 Hr2. rewrite <- pscale_padd in Hr2 by auto with curve. exact Hr2.
Qed.

(** The digits that are left, the highest first. *)
Lemma ecmult_const_loop_ok adds ss size : strands_on_curve ss -> (forall i, (i < size)%nat -> Forall2 (adds_digit g i) adds ss) ->
  (forall i, (0 < i <= size)%nat -> words_sum i ss <> Infinity) -> forall k r, (k <= size)%nat -> gej_ok r (pscale g (words_sum k ss)) ->
  Returns (ecmult_const_loop k adds r) (fun r' => gej_ok r' (pscale g (words_sum 0 ss))).
Proof.
  intros Hss Ha Hfin. induction k as [|k IH]; intros r Hk Hr; cbn [ecmult_const_loop]; [exact Hr|].
  assert (forall i, on_curve (words_sum i ss)) as Hc by (intros i; apply combination_on_curve, Hss).
  eapply Returns_bind; [apply (doublings_ok r _ (Hc _) (Hfin (S k) ltac:(lia)) Hr)|]. intros r1 Hr1.
  eapply Returns_bind; [apply (additions_ok g k adds ss (Ha k ltac:(lia)) Hss (ret r1) (pmul (2 ^ (WINDOW_A - 1)) (words_sum (S k) ss))); [apply pmul_on_curve, Hc | exact Hr1]|].
  intros r2 Hr2. apply IH; [lia|]. unfold words_sum.
  rewrite (combination_step (2 ^ (WINDOW_A - 1)) (fun l => radix_value (WINDOW_A - 1) (skipn (S k) l)) (fun l => nth k l 0)); [exact Hr2 | exact Hss|].
  intros s _. apply radix_skipn.
Qed.

End Loop.

(** ** The multiple *)

Definition const_table_of (g : Fp) (A : point) (pre : list secp256k1_ge) : Prop :=
  const_table (ECMULT_TABLE_SIZE WINDOW_A) pre (fun j => pscale g (pmul (2 * Z.of_nat j + 1) A)).

Lemma const_setup a A (k : list secp256k1_ge -> secp256k1_fe -> checked (secp256k1_gej * Z * Z)) Q : ge_ok a A -> on_curve A -> A <> Infinity ->
  (forall pre z g, g <> Zmod.zero -> fe_ok z 8 g -> const_table_of g A pre -> Returns (k pre z) Q) ->
  Returns (r <- secp256k1_gej_set_ge a;;
           ' (pre_a, z) <- secp256k1_ecmult_odd_multiples_table_globalz_windowa (repeat uninit_ge (ECMULT_TABLE_SIZE WINDOW_A)) uninit_fe r;;
           pre_a <- normalize_table pre_a;;
           k pre_a z) Q.
Proof.
  intros Ha HA Hfin Hk. eapply Returns_bind; [apply (gej_set_ge_ok _ _ Ha)|]. intros aj Haj.
  eapply Returns_bind; [apply (table_globalz_windowa_ok _ _ aj A Haj HA (gej_ok_finite _ _ Haj Hfin)); apply repeat_length|].
  intros [pre z] (g & Hg & Hz & Lp & T). rewrite repeat_length in Lp.
  eapply Returns_bind; [apply (normalize_table_ok pre (fun j => pscale g (pmul (2 * Z.of_nat j + 1) A))); rewrite Lp; exact T|].
  intros pre' T'. rewrite Lp in T'. exact (Hk pre' z g Hg Hz T').
Qed.

Lemma lambda_table_of g A pre : on_curve A -> const_table_of g A pre -> Returns (mul_lambda_table pre) (const_table_of g (plambda A)).
Proof.
  intros HA T. eapply Returns_mono; [apply (lambda_const_table_ok _ _ _ T)|]. intros pre' [Hl H]. split; [exact Hl|]. intros j Hj. cbn beta.
  rewrite <- plambda_pmul, <- pscale_plambda by exact HA. exact (H j Hj).
Qed.

(** The first digit, [size] the length without it. *)
Lemma last_digit w l size : odd_digits w l -> length l = S size -> const_digit w (nth size l 0) /\ negb (nth size l 0 =? 0) = true /\
  radix_value w (skipn size l) = nth size l 0.
Proof.
  intros [Hd _] Hl. assert (const_digit w (nth size l 0)) as H by (apply (proj1 (Forall_nth _ _) Hd); lia). split; [exact H|]. split.
  - destruct H as [Ho _]. destruct (nth size l 0); [discriminate | reflexivity | reflexivity].
  - rewrite radix_skipn, skipn_all2 by lia. cbn [radix_value fold_right]. ring.
Qed.

Lemma pmul_words_finite l A i : on_curve A -> A <> Infinity -> odd_digits (WINDOW_A - 1) l -> Z.abs (radix_value (WINDOW_A - 1) l) <= n / 2 + 2 -> (0 < i < length l)%nat ->
  words_sum i [(l, A)] <> Infinity.
Proof.
  intros HA Hfin [_ Hs] Hv Hi. destruct (Hs i ltac:(lia)) as [H1 H2]. specialize (H2 ltac:(lia)). cbn [words_sum combination fold_right fst snd]. rewrite padd_infinity_r.
  set (V := radix_value _ (skipn i l)) in *. change (2 ^ (WINDOW_A - 1)) with 16 in H2. intros E. apply pmul_infinity_iff in E; [|assumption|assumption].
  apply n_divide_small in E; [lia|]. assert (n / 2 + 2 + 16 < n) by reflexivity. lia.
Qed.

Lemma pmul_words_lambda_finite l l' A i : on_curve A -> A <> Infinity -> odd_digits (WINDOW_A - 1) l -> odd_digits (WINDOW_A - 1) l' ->
  Z.abs (radix_value (WINDOW_A - 1) l) <= 2 ^ 128 + 1 -> Z.abs (radix_value (WINDOW_A - 1) l') <= 2 ^ 128 + 1 -> (0 < i < length l)%nat -> length l' = length l ->
  words_sum i [(l, A); (l', plambda A)] <> Infinity.
Proof.
  intros HA Hfin [_ Hs] [_ Hs'] Hv Hv' Hi El. destruct (Hs i ltac:(lia)) as [H1 H2]. destruct (Hs' i ltac:(lia)) as [H1' H2'].
  specialize (H2 ltac:(lia)). specialize (H2' ltac:(lia)). cbn [words_sum combination fold_right fst snd]. rewrite padd_infinity_r. change (2 ^ (WINDOW_A - 1)) with 16 in *.
  apply pmul_lambda_finite; [exact HA | exact Hfin | lia | lia | lia].
Qed.

(** The multiples of the scalar plus the skew, or of its two halves plus theirs. *)
Definition skewed_multiple (A : point) (k : Z) (r : secp256k1_gej * Z * Z) : Prop :=
  let '(r, skew_1, skew_lam) := r in (skew_1 = 1 \/ skew_1 = 2) /\
  if USE_ENDOMORPHISM then (skew_lam = 1 \/ skew_lam = 2) /\ gej_ok r (padd (pmul (k + skew_1) A) (pmul skew_lam (plambda A)))
  else gej_ok r (pmul (k + skew_1) A).

(** The array of digits that is written. *)
Definition uninit_words (from : nat) : list Z := map uninit_int (seq from (1 + Z.to_nat (WNAF_SIZE (WINDOW_A - 1)))).

Lemma wnaf_window : 0 < WINDOW_A - 1 <= 15 /\ 0 <= WNAF_SIZE (WINDOW_A - 1).
Proof. pose proof wnaf_bits_range. split; [unfold WINDOW_A; lia | apply Z.div_pos; unfold WINDOW_A; lia]. Qed.

Lemma uninit_words_digits s from : sc_wf s -> const_short s (WINDOW_A - 1) ->
  Returns (secp256k1_wnaf_const (uninit_words from) s (WINDOW_A - 1)) (fun '(l, skew) => length l = S (Z.to_nat (WNAF_SIZE (WINDOW_A - 1))) /\
    odd_digits (WINDOW_A - 1) l /\ (skew = 1 \/ skew = 2) /\ (radix_value (WINDOW_A - 1) l) mod n = (sc_Z s + skew) mod n /\
    exists v gs, const_target s v gs skew /\ Z.abs (radix_value (WINDOW_A - 1) l) = v).
Proof.
  intros Hs Hshort. destruct wnaf_window as [Hw Hsz]. assert (length (uninit_words from) = S (Z.to_nat (WNAF_SIZE (WINDOW_A - 1)))) as Lu by (unfold uninit_words; rewrite length_map, length_seq; reflexivity).
  rewrite <- Lu. apply const_digits_ok; [exact Hs | exact Hw | rewrite Lu; lia | exact Hshort].
Qed.

Lemma ecmult_const_skewed_lambda a A s : ge_ok a A -> on_curve A -> A <> Infinity -> sc_wf s -> USE_ENDOMORPHISM = true ->
  Returns (ecmult_const_skewed a s) (skewed_multiple A (sc_Z s)).
Proof.
  intros Ha HA Hfin Hs Ee. unfold ecmult_const_skewed, skewed_multiple. rewrite Ee. cbv zeta. fold (uninit_words 0). fold (uninit_words (1 + Z.to_nat (WNAF_SIZE (WINDOW_A - 1)))).
  set (size := Z.to_nat (WNAF_SIZE (WINDOW_A - 1))) in *.
  eapply Returns_bind; [apply (sc_split_lambda_ok s _ (sc_ok_wf s Hs))|]. intros [q1 ql] (v1 & v2 & H1 & H2 & Ev & B1 & B2).
  eapply Returns_bind; [apply (uninit_words_digits q1 _ (proj1 H1)), (const_short_128 _ v1); [unfold WINDOW_A; lia | exact H1 | exact B1]|].
  intros [l1 k1] (L1 & O1 & S1 & E1 & w1 & gs1 & T1 & A1).
  eapply Returns_bind; [apply (uninit_words_digits ql _ (proj1 H2)), (const_short_128 _ v2); [unfold WINDOW_A; lia | exact H2 | exact B2]|].
  intros [l2 k2] (L2 & O2 & S2 & E2 & w2 & gs2 & T2 & A2).
  apply (const_setup a A); [exact Ha | exact HA | exact Hfin|]. intros pre z g Hg Hz T.
  eapply Returns_bind; [apply (lambda_table_of g A pre HA T)|]. intros prel Tl.
  destruct (last_digit _ _ size O1 L1) as (D1 & N1 & V1). destruct (last_digit _ _ size O2 L2) as (D2 & N2 & V2).
  apply Returns_check; [exact N1|]. eapply Returns_bind; [apply (const_table_get_ok pre g A _ HA T D1)|]. intros t1 [Ht1 It1].
  eapply Returns_bind; [apply (gej_set_ge_ok _ _ Ht1)|]. intros r0 Hr0.
  apply Returns_check; [exact N2|]. eapply Returns_bind; [apply (const_table_get_ok prel g (plambda A)); [auto with curve | exact Tl | exact D2]|]. intros t2 [Ht2 It2].
  eapply Returns_bind; [apply (gej_add_ge_ok (cb := cscale g) (Hreg := regular_scale g Hg) _ _ _ _ Hr0 Ht2 It2); apply pscale_on_curve; auto with curve|]. intros r1 Hr1.
  rewrite <- pscale_padd in Hr1 by auto with curve.
  eapply Returns_bind.
  { apply (ecmult_const_loop_ok g Hg _ [(l1, A); (l2, plambda A)] size); [| | | apply le_n |].
    - repeat constructor; cbn [snd]; auto with curve.
    - intros i Hi. repeat constructor; apply add_const_ok; auto with curve; [apply (proj1 (Forall_nth _ _) (proj1 O1)) | apply (proj1 (Forall_nth _ _) (proj1 O2))]; lia.
    - intros i Hi. apply pmul_words_lambda_finite; auto; try lia; [rewrite A1; exact (const_target_short _ _ _ _ _ H1 B1 T1) | rewrite A2; exact (const_target_short _ _ _ _ _ H2 B2 T2)].
    - cbn [words_sum combination fold_right fst snd]. rewrite padd_infinity_r, V1, V2. exact Hr1. }
  intros r Hr. eapply Returns_bind; [apply (unscale_ok r z g _ Hg Hr Hz)|]. intros rz Hrz. apply Returns_ret. split; [exact S1|]. split; [exact S2|].
  eapply eq_ind; [exact Hrz|]. cbn [words_sum combination fold_right fst snd skipn]. rewrite padd_infinity_r.
  rewrite (pmul_eqm _ _ A HA E1), (pmul_eqm _ _ (plambda A) ltac:(auto with curve) E2), !pmul_add, padd_swap by auto with curve.
  destruct H1 as [_ H1]. destruct H2 as [_ H2]. rewrite H1, H2, (split_lambda_point v1 v2 _ A HA Ev), to_Z_toFn, Z.mod_small by (apply sc_range, Hs).
  symmetry. apply padd_assoc; auto with curve.
Qed.

Lemma ecmult_const_skewed_plain a A s : ge_ok a A -> on_curve A -> A <> Infinity -> sc_wf s -> USE_ENDOMORPHISM = false ->
  Returns (ecmult_const_skewed a s) (skewed_multiple A (sc_Z s)).
Proof.
  intros Ha HA Hfin Hs Ee. unfold ecmult_const_skewed, skewed_multiple. rewrite Ee. cbv zeta. fold (uninit_words 0).
  set (size := Z.to_nat (WNAF_SIZE (WINDOW_A - 1))) in *.
  eapply Returns_bind; [apply (uninit_words_digits s _ Hs), const_short_256; [discriminate | unfold WNAF_BITS; rewrite Ee; reflexivity]|].
  intros [l1 k1] (L1 & O1 & S1 & E1 & w1 & gs1 & T1 & A1).
  apply (const_setup a A); [exact Ha | exact HA | exact Hfin|]. intros pre z g Hg Hz T. destruct (last_digit _ _ size O1 L1) as (D1 & N1 & V1).
  apply Returns_check; [exact N1|]. eapply Returns_bind; [apply (const_table_get_ok pre g A _ HA T D1)|]. intros t1 [Ht1 It1].
  eapply Returns_bind; [apply (gej_set_ge_ok _ _ Ht1)|]. intros r0 Hr0.
  eapply Returns_bind.
  { apply (ecmult_const_loop_ok g Hg _ [(l1, A)] size); [| | | apply le_n |].
    - repeat constructor; cbn [snd]; auto with curve.
    - intros i Hi. repeat constructor. apply add_const_ok; auto with curve. apply (proj1 (Forall_nth _ _) (proj1 O1)). lia.
    - intros i Hi. apply pmul_words_finite; auto; [rewrite A1; apply T1 | lia].
    - cbn [words_sum combination fold_right fst snd]. rewrite padd_infinity_r, V1. exact Hr0. }
  intros r Hr. eapply Returns_bind; [apply (unscale_ok r z g _ Hg Hr Hz)|]. intros rz Hrz. apply Returns_ret. split; [exact S1|].
  eapply eq_ind; [exact Hrz|]. cbn [words_sum combination fold_right fst snd skipn]. rewrite padd_infinity_r. exact (pmul_eqm _ _ A HA E1).
Qed.

Lemma ecmult_const_skewed_ok a A s : ge_ok a A -> on_curve A -> A <> Infinity -> sc_wf s ->
  Returns (ecmult_const_skewed a s) (skewed_multiple A (sc_Z s)).
Proof. intros Ha HA Hfin Hs. destruct USE_ENDOMORPHISM eqn:Ee; [apply ecmult_const_skewed_lambda | apply ecmult_const_skewed_plain]; assumption. Qed.

(** The correction for a skew. *)
Lemma correction_ok s1 s2 A skew : on_curve A -> A <> Infinity -> ge_storage_ok s1 A -> ge_storage_ok s2 (pmul 2 A) -> (skew = 1 \/ skew = 2) ->
  Returns (secp256k1_ge_neg (secp256k1_ge_from_storage (secp256k1_ge_storage_cmov s1 s2 (Z.b2z (skew =? 2)))))
    (fun c => ge_ok c (pmul (- skew) A) /\ ge_infinity c = false).
Proof.
  intros HA Hfin H1 H2 Hskew.
  eapply Returns_mono; [apply (ge_neg_ok _ _ (ge_from_storage_ok _ _ (ge_storage_cmov_ok s1 s2 _ _ (skew =? 2) H1 H2)))|]. intros r Hr.
  assert (popp (if skew =? 2 then pmul 2 A else A) = pmul (- skew) A) as E.
  { rewrite pmul_opp by exact HA. destruct Hskew as [-> | ->]; reflexivity. }
  rewrite E in Hr. split; [exact Hr|]. apply (ge_ok_finite _ _ Hr). intros Ei. apply pmul_infinity_iff in Ei; [|assumption|assumption].
  apply n_divide_small in Ei; unfold n; lia.
Qed.

Lemma ecmult_const_ok a A s : ge_ok a A -> ge_infinity a = false -> on_curve A -> A <> Infinity -> sc_wf s ->
  Returns (secp256k1_ecmult_const a s) (fun r => gej_ok r (pmul (sc_Z s) A)).
Proof.
  intros Ha Ia HA Hfin Hs. unfold secp256k1_ecmult_const.
  eapply Returns_bind; [apply (ecmult_const_skewed_ok a A s Ha HA Hfin Hs)|]. intros [[r k1] k2] [S1 Hr].
  eapply Returns_bind; [apply (gej_set_ge_ok _ _ Ha)|]. intros t Ht.
  eapply Returns_bind; [apply (gej_double_var_ok t t A None (gej_ok_wf _ _ Ht) Ht HA)|]. intros [t2 z2] [Ht2 _].
  eapply Returns_bind; [apply (ge_set_gej_ok _ _ Ht2)|]. intros [c c'] [Hc _].
  change (padd A A) with (pmul 2 A) in Hc. assert (pmul 2 A <> Infinity) as H2 by (apply pmul_finite; [exact HA | exact Hfin | unfold n; lia]).
  eapply Returns_bind; [apply (ge_to_storage_ok _ _ Ha Ia)|]. intros s1 Hs1.
  eapply Returns_bind with (P := fun s => USE_ENDOMORPHISM = true -> ge_storage_ok s A).
  { destruct USE_ENDOMORPHISM; [eapply Returns_mono; [apply (ge_to_storage_ok _ _ Ha Ia)|]; auto | apply Returns_ret; discriminate]. }
  intros sl Hsl. eapply Returns_bind; [apply (ge_to_storage_ok _ _ Hc (ge_ok_finite _ _ Hc H2))|]. intros s2 Hs2.
  eapply Returns_bind; [apply (correction_ok s1 s2 A k1 HA Hfin Hs1 Hs2 S1)|]. intros c1 [Hc1 Ic1].
  destruct USE_ENDOMORPHISM.
  - destruct Hr as [S2 Hr].
    eapply Returns_bind; [apply (gej_add_ge_ok _ _ _ _ Hr Hc1 Ic1); auto with curve|]. intros r1 Hr1.
    eapply Returns_bind; [apply (correction_ok sl s2 A k2 HA Hfin (Hsl eq_refl) Hs2 S2)|]. intros c2 [Hc2 Ic2].
    eapply Returns_bind; [apply (ge_mul_lambda_ok c2 _ Hc2)|]. intros c3 (Hc3 & _ & Ic3). rewrite Ic2, plambda_pmul in * by exact HA.
    eapply Returns_mono; [apply (gej_add_ge_ok _ _ _ _ Hr1 Hc3 Ic3); auto with curve|]. intros r2 Hr2. eapply eq_ind; [exact Hr2|].
    rewrite padd_assoc, padd_swap, <- !pmul_add by auto with curve. replace (k2 + - k2) with 0 by ring.
    change (pmul 0 (plambda A)) with Infinity. rewrite padd_infinity_r. f_equal. ring.
  - eapply Returns_bind; [apply (gej_add_ge_ok _ _ _ _ Hr Hc1 Ic1); auto with curve|]. intros r1 Hr1. apply Returns_ret.
    rewrite <- pmul_add in Hr1 by exact HA. replace (sc_Z s + k1 + - k1) with (sc_Z s) in Hr1 by ring. exact Hr1.
Qed.

End Spec.
