(* ===== verification/Objects.v ===== *)
(** * Objects in memory

    [secp256k1.c] copies field elements in storage form and scalars into its opaque
    objects with [memcpy].  [Objects] is the memory representation of the two types
    and [ObjectLaws] what the copies rely on; the instances are the two
    representations of each on a little-endian machine. *)

From Stdlib Require Import ZArith Lia List Bool.
From S2P Require Import Prelude Modulus Bytes Field5x52 Field10x26 Field FieldReprs ScalarAcc Scalar4x64 Scalar8x32 Scalar ScalarReprs.
Import ListNotations.

#[local] Open Scope Z_scope.

(** ** Little-endian words *)

Definition le_value (b : list Z) : Z := be_value (rev b).

Definition le_bytes (k : nat) (v : Z) : list Z := rev (be_bytes k v).

(** An array of words of [w] bytes, and the words read back from [k] of them. *)
Definition words_bytes (w : nat) (ws : list Z) : list Z := flat_map (le_bytes w) ws.

Fixpoint bytes_words (w k : nat) (b : list Z) : list Z :=
  match k with
  | O => []
  | S k' => le_value (firstn w b) :: bytes_words w k' (skipn w b)
  end.

(** The number an array of words writes. *)
Fixpoint words_le (w : nat) (ws : list Z) : Z :=
  match ws with
  | [] => 0
  | x :: ws' => x + 256 ^ Z.of_nat w * words_le w ws'
  end.

Lemma length_le_bytes k v : length (le_bytes k v) = k.
Proof. unfold le_bytes. rewrite length_rev. apply length_be_bytes. Qed.

Lemma le_bytes_wf k v : bytes_of_len k (le_bytes k v).
Proof. split; [apply length_le_bytes|]. unfold le_bytes. apply Forall_rev. apply be_bytes_wf. Qed.

Lemma bytes_of_len_rev k b : bytes_of_len k b -> bytes_of_len k (rev b).
Proof. intros [H1 H2]. split; [rewrite length_rev; exact H1 | apply Forall_rev; exact H2]. Qed.

Lemma bytes_of_len_app j k a b : bytes_of_len j a -> bytes_of_len k b -> bytes_of_len (j + k) (a ++ b).
Proof. intros [Ha Ha'] [Hb Hb']. split; [rewrite length_app; congruence | apply Forall_app; auto]. Qed.

Lemma bytes_of_len_firstn j k b : bytes_of_len k b -> (j <= k)%nat -> bytes_of_len j (firstn j b).
Proof. intros [H H'] Hj. split; [rewrite length_firstn; lia | apply Forall_firstn; exact H']. Qed.

Lemma bytes_of_len_skipn j k b : bytes_of_len (j + k) b -> bytes_of_len k (skipn j b).
Proof. intros [H H']. split; [rewrite length_skipn; lia | apply Forall_skipn; exact H']. Qed.

Lemma le_value_bytes k v : 0 <= v < 256 ^ Z.of_nat k -> le_value (le_bytes k v) = v.
Proof. intros H. unfold le_value, le_bytes. rewrite rev_involutive. apply be_value_bytes, H. Qed.

Lemma le_bytes_value k b : bytes_of_len k b -> le_bytes k (le_value b) = b.
Proof. intros H. unfold le_value, le_bytes. rewrite be_bytes_value by (apply bytes_of_len_rev, H). apply rev_involutive. Qed.

Lemma le_value_range k b : bytes_of_len k b -> 0 <= le_value b < 256 ^ Z.of_nat k.
Proof. intros H. apply be_value_range, bytes_of_len_rev, H. Qed.

Lemma be_value_app a b : be_value (a ++ b) = be_value a * 256 ^ Z.of_nat (length b) + be_value b.
Proof.
  induction b as [|x b IH] using rev_ind; [rewrite app_nil_r; cbn; lia|].
  rewrite app_assoc, !be_value_snoc, IH, length_app, Nat2Z.inj_add. cbn [length]. change (Z.of_nat 1) with 1. rewrite Z.pow_add_r by lia. lia.
Qed.

Lemma le_value_app a b : le_value (a ++ b) = le_value a + 256 ^ Z.of_nat (length a) * le_value b.
Proof. unfold le_value. rewrite rev_app_distr, be_value_app, length_rev. lia. Qed.

Lemma words_bytes_wf w ws : bytes_of_len (w * length ws) (words_bytes w ws).
Proof.
  induction ws as [|x ws IH]; [rewrite Nat.mul_0_r; split; [reflexivity | constructor]|].
  cbn [words_bytes flat_map length]. rewrite Nat.mul_succ_r, Nat.add_comm. apply bytes_of_len_app; [apply le_bytes_wf | exact IH].
Qed.

Lemma bytes_words_words w ws : Forall (fun x => 0 <= x < 256 ^ Z.of_nat w) ws -> bytes_words w (length ws) (words_bytes w ws) = ws.
Proof.
  induction 1 as [|x ws Hx _ IH]; [reflexivity|]. cbn [words_bytes flat_map length bytes_words].
  rewrite firstn_app, skipn_app, !length_le_bytes, Nat.sub_diag, firstn_O, skipn_O, app_nil_r.
  rewrite firstn_all2, skipn_all2 by (rewrite length_le_bytes; lia). cbn [app]. fold (words_bytes w ws). rewrite IH, le_value_bytes by exact Hx. reflexivity.
Qed.

Lemma words_bytes_bytes w k b : bytes_of_len (w * k) b -> words_bytes w (bytes_words w k b) = b.
Proof.
  revert b. induction k as [|k IH]; intros b Hb.
  - rewrite Nat.mul_0_r in Hb. destruct Hb as [Hb _]. destruct b; [reflexivity | discriminate].
  - rewrite Nat.mul_succ_r, Nat.add_comm in Hb. cbn [bytes_words words_bytes flat_map]. fold (words_bytes w (bytes_words w k (skipn w b))).
    rewrite IH by (apply bytes_of_len_skipn, Hb). rewrite le_bytes_value by (eapply bytes_of_len_firstn; [exact Hb | lia]). apply firstn_skipn.
Qed.

Lemma bytes_words_le w k b : bytes_of_len (w * k) b -> words_le w (bytes_words w k b) = le_value b.
Proof.
  revert b. induction k as [|k IH]; intros b Hb.
  - rewrite Nat.mul_0_r in Hb. destruct Hb as [Hb _]. destruct b; [reflexivity | discriminate].
  - rewrite Nat.mul_succ_r, Nat.add_comm in Hb. cbn [bytes_words words_le]. rewrite IH by (apply bytes_of_len_skipn, Hb).
    rewrite <- (firstn_skipn w b) at 3. rewrite le_value_app, length_firstn. destruct Hb as [Hl _]. do 3 f_equal. lia.
Qed.

Lemma bytes_words_range w k b : bytes_of_len (w * k) b -> Forall (fun x => 0 <= x < 256 ^ Z.of_nat w) (bytes_words w k b).
Proof.
  revert b. induction k as [|k IH]; intros b Hb; [constructor|]. rewrite Nat.mul_succ_r, Nat.add_comm in Hb.
  constructor; [eapply le_value_range, bytes_of_len_firstn; [exact Hb | lia] | apply IH, bytes_of_len_skipn, Hb].
Qed.

Lemma length_bytes_words w k b : length (bytes_words w k b) = k.
Proof. revert b. induction k as [|k IH]; intros b; [reflexivity|]. cbn [bytes_words length]. rewrite IH. reflexivity. Qed.

Lemma le_value_zeros k : le_value (repeat 0 k) = 0.
Proof. unfold le_value. rewrite rev_repeat. induction k as [|k IH]; [reflexivity|]. cbn [repeat]. rewrite repeat_cons, be_value_snoc, IH. reflexivity. Qed.

(** ** The interface *)

Class Objects (F : FieldOps) (SO : ScalarOps) : Type := {
  sizeof_fe_storage : Z;
  sizeof_scalar : Z;
  storage_bytes : secp256k1_fe_storage -> list Z;
  bytes_storage : list Z -> secp256k1_fe_storage;
  scalar_bytes : secp256k1_scalar -> list Z;
  bytes_scalar : list Z -> secp256k1_scalar
}.

Class ObjectLaws {F : FieldOps} {SO : ScalarOps} (FL : FieldLaws F) (SL : ScalarLaws SO) (O : Objects F SO) : Type := {
  sizeof_fe_storage_law : sizeof_fe_storage = 32;
  sizeof_scalar_law : sizeof_scalar = 32;
  storage_bytes_law s : storage_wf s -> storage_bytes s = le_bytes 32 (storage_Z s) /\ bytes_storage (storage_bytes s) = s;
  bytes_storage_law b : bytes_of_len 32 b -> storage_wf (bytes_storage b) /\ storage_Z (bytes_storage b) = le_value b;
  scalar_bytes_law a : sc_wf a -> scalar_bytes a = le_bytes 32 (sc_Z a) /\ bytes_scalar (scalar_bytes a) = a;
  bytes_scalar_law b : bytes_of_len 32 b -> le_value b < n -> sc_wf (bytes_scalar b) /\ sc_Z (bytes_scalar b) = le_value b
}.

(** ** The representations

    [w] is the size of a word in bytes and [k] the number of words; [words] and
    [of_words] take the type apart and build it. *)

Section Representation.
Context {T : Type} (w k : nat) (words : T -> list Z) (of_words : list Z -> T) (wf : T -> Prop) (value : T -> Z).
Hypothesis size_words : (w * k = 32)%nat.
Hypothesis words_wf : forall x, wf x -> length (words x) = k /\ Forall (fun x => 0 <= x < 256 ^ Z.of_nat w) (words x).
Hypothesis words_value : forall x, wf x -> value x = words_le w (words x).
Hypothesis of_words_words : forall x, of_words (words x) = x.
Hypothesis of_words_wf : forall l, length l = k -> Forall (fun x => 0 <= x < 256 ^ Z.of_nat w) l -> wf (of_words l) /\ words (of_words l) = l.

Definition object_bytes (x : T) : list Z := words_bytes w (words x).
Definition bytes_object (b : list Z) : T := of_words (bytes_words w k b).

Lemma object_bytes_spec x : wf x -> object_bytes x = le_bytes 32 (value x) /\ bytes_object (object_bytes x) = x.
Proof.
  intros Hx. destruct (words_wf x Hx) as [Hl Hw]. assert (E : bytes_words w k (object_bytes x) = words x)
    by (unfold object_bytes; rewrite <- Hl; apply bytes_words_words, Hw).
  assert (Hb : bytes_of_len 32 (object_bytes x)) by (rewrite <- size_words, <- Hl; apply words_bytes_wf).
  split; [|unfold bytes_object; rewrite E; apply of_words_words].
  rewrite <- (le_bytes_value 32 (object_bytes x)) by exact Hb. f_equal. rewrite words_value, <- E by exact Hx. symmetry. apply bytes_words_le. rewrite size_words. exact Hb.
Qed.

Lemma bytes_object_spec b : bytes_of_len 32 b -> wf (bytes_object b) /\ value (bytes_object b) = le_value b.
Proof.
  intros Hb. rewrite <- size_words in Hb. destruct (of_words_wf (bytes_words w k b) (length_bytes_words w k b) (bytes_words_range w k b Hb)) as [Hw E].
  split; [exact Hw|]. rewrite words_value by exact Hw. unfold bytes_object. rewrite E. apply bytes_words_le, Hb.
Qed.

End Representation.

(** A field element in storage form, or a scalar, is eight words of four bytes. *)
Definition words8 {T} (mk : Z -> Z -> Z -> Z -> Z -> Z -> Z -> Z -> T) (l : list Z) : T :=
  mk (nth 0 l 0) (nth 1 l 0) (nth 2 l 0) (nth 3 l 0) (nth 4 l 0) (nth 5 l 0) (nth 6 l 0) (nth 7 l 0).

Definition storage26_words (s : Field10x26.secp256k1_fe_storage) : list Z :=
  let '(Field10x26.mk_storage a0 a1 a2 a3 a4 a5 a6 a7) := s in [a0; a1; a2; a3; a4; a5; a6; a7].

(** Or four words of eight bytes. *)
Definition words4 {T} (mk : Z -> Z -> Z -> Z -> T) (l : list Z) : T := mk (nth 0 l 0) (nth 1 l 0) (nth 2 l 0) (nth 3 l 0).

Definition storage52_words (s : Field5x52.secp256k1_fe_storage) : list Z :=
  let '(Field5x52.mk_storage a0 a1 a2 a3) := s in [a0; a1; a2; a3].

#[export] Instance Objects_10x26_8x32 : Objects Field_10x26 Scalar_8x32 :=
  @Build_Objects Field_10x26 Scalar_8x32 (8 * 4) (8 * 4)
    (object_bytes 4 storage26_words) (bytes_object 4 8 (words8 Field10x26.mk_storage))
    (object_bytes 4 Scalar8x32.limbs) (bytes_object 4 8 (words8 Scalar8x32.S8)).

Definition Objects_5x52_4x64 : Objects Field_5x52 Scalar_4x64 :=
  @Build_Objects Field_5x52 Scalar_4x64 (4 * 8) (4 * 8)
    (object_bytes 8 storage52_words) (bytes_object 8 4 (words4 Field5x52.mk_storage))
    (object_bytes 8 Scalar4x64.limbs) (bytes_object 8 4 (words4 Scalar4x64.S4)).

(** ** The representations satisfy the interface *)

Ltac word_bounds := unfold is_word, is_uw in *; cbn [length nth Field10x26.s0 Field10x26.s1 Field10x26.s2 Field10x26.s3 Field10x26.s4 Field10x26.s5 Field10x26.s6 Field10x26.s7
  Field5x52.s0 Field5x52.s1 Field5x52.s2 Field5x52.s3] in *; change (256 ^ Z.of_nat 4) with (2 ^ 32) in *; change (256 ^ Z.of_nat 8) with (2 ^ 64) in *.

(** Lists of words of a fixed length. *)
Ltac split_words l := repeat (let x := fresh "x" in destruct l as [|x l]; [discriminate|]); destruct l; [|discriminate].

Ltac forall_words := repeat match goal with H : Forall _ (_ :: _) |- _ => apply Forall_cons_iff in H; destruct H end.

Lemma storage26_wf s : Field10x26.storage_wf s ->
  length (storage26_words s) = 8%nat /\ Forall (fun x => 0 <= x < 256 ^ Z.of_nat 4) (storage26_words s).
Proof. destruct s. intros H. unfold Field10x26.storage_wf in H. word_bounds. split; [reflexivity|]. repeat constructor; tauto. Qed.

Lemma storage26_value s : Field10x26.storage_wf s -> Field10x26.storage_Z s = words_le 4 (storage26_words s).
Proof. intros _. destruct s. unfold Field10x26.storage_Z, storage26_words, words_le. word_bounds. ring. Qed.

Lemma storage26_of_words l : length l = 8%nat -> Forall (fun x => 0 <= x < 256 ^ Z.of_nat 4) l ->
  Field10x26.storage_wf (words8 Field10x26.mk_storage l) /\ storage26_words (words8 Field10x26.mk_storage l) = l.
Proof. intros Hl Hw. split_words l. forall_words. unfold Field10x26.storage_wf, words8. word_bounds. split; [repeat split; tauto | reflexivity]. Qed.

Lemma storage52_wf s : Field5x52.storage_wf s ->
  length (storage52_words s) = 4%nat /\ Forall (fun x => 0 <= x < 256 ^ Z.of_nat 8) (storage52_words s).
Proof. destruct s. intros H. unfold Field5x52.storage_wf in H. word_bounds. split; [reflexivity|]. repeat constructor; tauto. Qed.

Lemma storage52_value s : Field5x52.storage_wf s -> Field5x52.storage_Z s = words_le 8 (storage52_words s).
Proof. intros _. destruct s. unfold Field5x52.storage_Z, storage52_words, words_le. word_bounds. ring. Qed.

Lemma storage52_of_words l : length l = 4%nat -> Forall (fun x => 0 <= x < 256 ^ Z.of_nat 8) l ->
  Field5x52.storage_wf (words4 Field5x52.mk_storage l) /\ storage52_words (words4 Field5x52.mk_storage l) = l.
Proof. intros Hl Hw. split_words l. forall_words. unfold Field5x52.storage_wf, words4. word_bounds. split; [repeat split; tauto | reflexivity]. Qed.

Lemma scalar32_wf a : Scalar8x32.limbs_ok a ->
  length (Scalar8x32.limbs a) = 8%nat /\ Forall (fun x => 0 <= x < 256 ^ Z.of_nat 4) (Scalar8x32.limbs a).
Proof. Scalar8x32.open_scalar a. intros H. unfold Scalar8x32.limbs. word_bounds. split; [reflexivity|]. repeat constructor; tauto. Qed.

Lemma scalar32_value a : Scalar8x32.limbs_ok a -> Scalar8x32.limbs_Z a = words_le 4 (Scalar8x32.limbs a).
Proof. intros _. destruct a. unfold Scalar8x32.limbs_Z, Scalar8x32.limbs, words_le. word_bounds. ring. Qed.

Lemma scalar32_of_words l : length l = 8%nat -> Forall (fun x => 0 <= x < 256 ^ Z.of_nat 4) l ->
  Scalar8x32.limbs_ok (words8 Scalar8x32.S8 l) /\ Scalar8x32.limbs (words8 Scalar8x32.S8 l) = l.
Proof. intros Hl Hw. split_words l. forall_words. unfold Scalar8x32.limbs_ok, words8. word_bounds. split; [repeat split; tauto | reflexivity]. Qed.

Lemma scalar64_wf a : Scalar4x64.limbs_ok a ->
  length (Scalar4x64.limbs a) = 4%nat /\ Forall (fun x => 0 <= x < 256 ^ Z.of_nat 8) (Scalar4x64.limbs a).
Proof. Scalar4x64.open_scalar a. intros H. unfold Scalar4x64.limbs. word_bounds. split; [reflexivity|]. repeat constructor; tauto. Qed.

Lemma scalar64_value a : Scalar4x64.limbs_ok a -> Scalar4x64.limbs_Z a = words_le 8 (Scalar4x64.limbs a).
Proof. intros _. destruct a. unfold Scalar4x64.limbs_Z, Scalar4x64.limbs, words_le. word_bounds. ring. Qed.

Lemma scalar64_of_words l : length l = 4%nat -> Forall (fun x => 0 <= x < 256 ^ Z.of_nat 8) l ->
  Scalar4x64.limbs_ok (words4 Scalar4x64.S4 l) /\ Scalar4x64.limbs (words4 Scalar4x64.S4 l) = l.
Proof. intros Hl Hw. split_words l. forall_words. unfold Scalar4x64.limbs_ok, words4. word_bounds. split; [repeat split; tauto | reflexivity]. Qed.

Lemma words8_storage26 s : words8 Field10x26.mk_storage (storage26_words s) = s.
Proof. destruct s. reflexivity. Qed.

Lemma words8_scalar32 a : words8 Scalar8x32.S8 (Scalar8x32.limbs a) = a.
Proof. destruct a. reflexivity. Qed.

Lemma words4_storage52 s : words4 Field5x52.mk_storage (storage52_words s) = s.
Proof. destruct s. reflexivity. Qed.

Lemma words4_scalar64 a : words4 Scalar4x64.S4 (Scalar4x64.limbs a) = a.
Proof. destruct a. reflexivity. Qed.

(** A scalar that is read has its words and is below the order if its value is. *)
Lemma scalar_from_bytes {T} (ok : T -> Prop) (value : T -> Z) (x : T) v : ok x /\ value x = v -> v < n -> (ok x /\ value x < n) /\ value x = v.
Proof. intros [H E] Hv. rewrite E. auto. Qed.

#[export] Instance ObjectLaws_10x26_8x32 : ObjectLaws Laws_10x26 Laws_8x32 Objects_10x26_8x32 :=
  @Build_ObjectLaws _ _ Laws_10x26 Laws_8x32 Objects_10x26_8x32 eq_refl eq_refl
    (object_bytes_spec 4 8 _ _ _ _ eq_refl storage26_wf storage26_value words8_storage26)
    (bytes_object_spec 4 8 _ _ _ _ eq_refl storage26_value storage26_of_words)
    (fun a Ha => object_bytes_spec 4 8 _ _ _ _ eq_refl scalar32_wf scalar32_value words8_scalar32 a (proj1 Ha))
    (fun b Hb => scalar_from_bytes _ _ _ _ (bytes_object_spec 4 8 _ _ _ _ eq_refl scalar32_value scalar32_of_words b Hb)).

#[export] Instance ObjectLaws_5x52_4x64 : ObjectLaws Laws_5x52 Laws_4x64 Objects_5x52_4x64 :=
  @Build_ObjectLaws _ _ Laws_5x52 Laws_4x64 Objects_5x52_4x64 eq_refl eq_refl
    (object_bytes_spec 8 4 _ _ _ _ eq_refl storage52_wf storage52_value words4_storage52)
    (bytes_object_spec 8 4 _ _ _ _ eq_refl storage52_value storage52_of_words)
    (fun a Ha => object_bytes_spec 8 4 _ _ _ _ eq_refl scalar64_wf scalar64_value words4_scalar64 a (proj1 Ha))
    (fun b Hb => scalar_from_bytes _ _ _ _ (bytes_object_spec 8 4 _ _ _ _ eq_refl scalar64_value scalar64_of_words b Hb)).
