(* ===== verification/Buffer.v ===== *)
(** * Buffers, callbacks and argument checks

    What the public functions of the library share: writes into the caller's
    buffers, the callback of [util.h] and the [ARG_CHECK] macro of [secp256k1.c].  A
    pointer that may be NULL is an [option]. *)

From Stdlib Require Import String ZArith Lia List Bool.
From S2P Require Import Prelude Bytes.
Import ListNotations.

#[local] Open Scope Z_scope.
#[local] Open Scope checked_scope.

(** The bytes [b] written at [off]; a write past the end of the array is [None]. *)
Definition store (buf : list Z) (off : nat) (b : list Z) : checked (list Z) :=
  if (off + length b <=? length buf)%nat then ret (firstn off buf ++ b ++ skipn (off + length b) buf) else None.

(** A function and the pointer it is called with; [None] is a call that does not
    return. *)
Record secp256k1_callback : Type := mk_callback { cb_fn : string -> Z -> checked unit; cb_data : Z }.

Definition secp256k1_callback_call (cb : secp256k1_callback) (text : string) : checked unit :=
  cb_fn cb text (cb_data cb).

(** A call to the library: the texts that the illegal argument callback was called
    with, and the result. *)
Definition api (A : Type) : Type := checked (list string * A).

Definition done {A} (x : A) : api A := ret ([], x).

Definition api_bind {A B} (m : api A) (k : A -> api B) : api B :=
  ' (t, x) <- m;; ' (t', y) <- k x;; ret (t ++ t', y).

(** [secp256k1_callback_call(&ctx->illegal_callback, text); return early;] *)
Definition illegal {A} (cb : secp256k1_callback) (text : string) (early : A) : api A :=
  secp256k1_callback_call cb text;; ret ([text], early).

Definition ARG_CHECK {A} (cb : secp256k1_callback) (cond : bool) (text : string) (early : A) (k : api A) : api A :=
  if cond then k else illegal cb text early.

(** [ARG_CHECK(p != NULL)], after which the rest of the function uses what [p]
    points at. *)
Definition ARG_PTR {A P} (cb : secp256k1_callback) (p : option P) (text : string) (early : A) (k : P -> api A) : api A :=
  match p with
  | Some x => k x
  | None => illegal cb text early
  end.

Notation "x <~ m ;; k" := (api_bind m (fun x => k)) (at level 61, m at next level, right associativity) : checked_scope.
Notation "' pat <~ m ;; k" := (api_bind m (fun x => match x with pat => k end))
  (at level 61, pat pattern, m at next level, right associativity) : checked_scope.

Notation "'REQUIRE' c 'ELSE' cb , text , early ;; k" := (ARG_CHECK cb c text early k)
  (at level 61, c at level 60, cb at level 60, text at level 60, early at level 60, right associativity) : checked_scope.
Notation "'REQUIRE_PTR' x := p 'ELSE' cb , text , early ;; k" := (ARG_PTR cb p text early (fun x => k))
  (at level 61, x name, p at level 60, cb at level 60, text at level 60, early at level 60, right associativity) : checked_scope.

(** ** Lemmas *)

Lemma store_ok buf off b (Q : list Z -> Prop) : (off + length b <= length buf)%nat ->
  Q (firstn off buf ++ b ++ skipn (off + length b) buf) -> Returns (store buf off b) Q.
Proof. intros H HQ. unfold store. rewrite (proj2 (Nat.leb_le _ _) H). exact HQ. Qed.

Lemma length_store (buf : list Z) off (b : list Z) : (off + length b <= length buf)%nat -> length (firstn off buf ++ b ++ skipn (off + length b) buf) = length buf.
Proof. intros H. rewrite !length_app, length_firstn, length_skipn. lia. Qed.

Lemma api_bind_ok {A B} (m : api A) (k : A -> api B) (P : list string * A -> Prop) Q :
  Returns m P -> (forall t x, P (t, x) -> Returns (k x) (fun '(t', y) => Q (t ++ t', y))) -> Returns (api_bind m k) Q.
Proof.
  intros Hm Hk. unfold api_bind. eapply Returns_bind; [exact Hm|]. intros [t x] HP.
  eapply Returns_bind; [exact (Hk t x HP)|]. intros [t' y] HQ. exact HQ.
Qed.

Lemma ARG_CHECK_ok {A} cb cond text (early : A) k Q : cond = true -> Returns k Q -> Returns (ARG_CHECK cb cond text early k) Q.
Proof. intros -> H. exact H. Qed.
