(* ===== verification/Ecdsa.v ===== *)
(** * Signatures: [ecdsa_impl.h]

    The DER coding of signatures, verification and signing.  A pointer into a buffer
    and the end of the buffer are the list of the bytes between them; reading at the
    end of the buffer is [None].  [size_t] has 64 bits. *)

From Stdlib Require Import ZArith Lia List Bool.
From S2P Require Import Prelude Modulus Bytes Field FieldImpl Curve Group Scalar ScalarImpl Hash Ecmult EcmultGen Buffer.
Import ListNotations.

#[local] Open Scope Z_scope.
#[local] Open Scope checked_scope.

Section Der.
Context {S : ScalarOps}.

(** [while (lenleft > 0)], then the last test. *)
Fixpoint der_len_loop (lenleft : nat) (len : Z) (sig : list Z) : checked (Z * list Z) :=
  match lenleft with
  | O => if len <? 128 then ret (-1, sig) else ret (i32 len, sig)
  | Datatypes.S lenleft' =>
      match sig with
      | [] => None
      | b :: sig' =>
          let len := Z.lor (u64 (Z.shiftl len 8)) b in
          if Z.of_nat (length sig) <? u64 (len + Z.of_nat lenleft) then ret (-1, sig)
          else der_len_loop lenleft' len sig'
      end
  end.

(** The length, [-1] for an error, and the bytes after it. *)
Definition secp256k1_der_read_len (sig : list Z) : checked (Z * list Z) :=
  match sig with
  | [] => ret (-1, sig)
  | b1 :: sig =>
      if b1 =? 0xFF then ret (-1, sig) else
      if Z.land b1 0x80 =? 0 then ret (b1, sig) else
      if b1 =? 0x80 then ret (-1, sig) else
      let lenleft := Z.land b1 0x7F in
      if Z.of_nat (length sig) <? lenleft then ret (-1, sig) else
      match sig with
      | [] => None
      | b :: _ =>
          if b =? 0 then ret (-1, sig) else
          if 8 <? lenleft then ret (-1, sig) else
          der_len_loop (Z.to_nat lenleft) 0 sig
      end
  end.

(** [while (rlen > 0 && **sig == 0)]: the length that is left and the bytes. *)
Fixpoint skip_zeros (rlen : nat) (sig : list Z) : checked (nat * list Z) :=
  match rlen with
  | O => ret (O, sig)
  | Datatypes.S rlen' =>
      match sig with
      | [] => None
      | b :: sig' => if b =? 0 then skip_zeros rlen' sig' else ret (rlen, sig)
      end
  end.

(** Success, the scalar and the bytes after the integer. *)
Definition secp256k1_der_parse_integer (r : secp256k1_scalar) (sig : list Z) : checked (bool * secp256k1_scalar * list Z) :=
  match sig with
  | [] => ret (false, r, sig)
  | tag :: sig' =>
      if negb (tag =? 0x02) then ret (false, r, sig) else
      ' (rlen, sig) <- secp256k1_der_read_len sig';;
      if (rlen <=? 0) || (Z.of_nat (length sig) <? rlen) then ret (false, r, sig) else
      match sig with
      | [] => None
      | b0 :: sig1 =>
          let b1 := hd 0 sig1 in
          if (b0 =? 0x00) && (1 <? rlen) && (Z.land b1 0x80 =? 0x00) then ret (false, r, sig) else
          if (b0 =? 0xFF) && (1 <? rlen) && (Z.land b1 0x80 =? 0x80) then ret (false, r, sig) else
          let overflow := Z.land b0 0x80 =? 0x80 in
          ' (rlen, sig) <- skip_zeros (Z.to_nat rlen) sig;;
          let overflow := if (32 <? rlen)%nat then true else overflow in
          ' (overflow, r) <- (if overflow then ret (true, r) else
                                ' (o, r) <- secp256k1_scalar_set_b32 (repeat 0 (32 - rlen) ++ firstn rlen sig);;
                                ret (negb (o =? 0), r));;
          let r := if overflow : bool then secp256k1_scalar_set_int 0 else r in
          ret (true, r, skipn rlen sig)
      end
  end.

(** Success and the two scalars. *)
Definition secp256k1_ecdsa_sig_parse (rr rs : secp256k1_scalar) (sig : list Z) : checked (bool * secp256k1_scalar * secp256k1_scalar) :=
  match sig with
  | [] => ret (false, rr, rs)
  | tag :: sig =>
      if negb (tag =? 0x30) then ret (false, rr, rs) else
      ' (rlen, sig) <- secp256k1_der_read_len sig;;
      if (rlen <? 0) || (Z.of_nat (length sig) <? rlen) then ret (false, rr, rs) else
      if negb (rlen =? Z.of_nat (length sig)) then ret (false, rr, rs) else
      ' (ok, rr, sig) <- secp256k1_der_parse_integer rr sig;;
      if negb ok then ret (false, rr, rs) else
      ' (ok, rs, sig) <- secp256k1_der_parse_integer rs sig;;
      if negb ok then ret (false, rr, rs) else
      match sig with
      | [] => ret (true, rr, rs)
      | _ :: _ => ret (false, rr, rs)
      end
  end.

(** [while (lenR > 1 && rp[0] == 0 && rp[1] < 0x80) { lenR--; rp++; }] *)
Fixpoint strip_zeros (rp : list Z) : list Z :=
  match rp with
  | b0 :: ((b1 :: _) as rp') => if (b0 =? 0) && (b1 <? 0x80) then strip_zeros rp' else rp
  | _ => rp
  end.

(** Success, the size and the buffer; [size] is the one of the buffer at first. *)
Definition secp256k1_ecdsa_sig_serialize (sig : list Z) (size : Z) (ar as_ : secp256k1_scalar) : checked (bool * Z * list Z) :=
  let rp := strip_zeros (0 :: secp256k1_scalar_get_b32 ar) in
  let sp := strip_zeros (0 :: secp256k1_scalar_get_b32 as_) in
  let lenR := Z.of_nat (length rp) in
  let lenS := Z.of_nat (length sp) in
  if size <? 6 + lenS + lenR then ret (false, 6 + lenS + lenR, sig) else
  sig <- store sig 0 ([0x30; u8 (4 + lenS + lenR); 0x02; u8 lenR] ++ rp ++ [0x02; u8 lenS] ++ sp);;
  ret (true, 6 + lenS + lenR, sig).

End Der.

Section Ecdsa.
Context {F : FieldOps} {S : ScalarOps} {M : Memory F S} {H : HashMemory}.

Definition secp256k1_ecdsa_const_order_as_fe : secp256k1_fe :=
  SECP256K1_FE_CONST 0xFFFFFFFF 0xFFFFFFFF 0xFFFFFFFF 0xFFFFFFFE 0xBAAEDCE6 0xAF48A03B 0xBFD25E8C 0xD0364141.

Definition secp256k1_ecdsa_const_p_minus_order : secp256k1_fe :=
  SECP256K1_FE_CONST 0 0 0 1 0x45512319 0x50B75FC4 0x402DA172 0x2FC9BAEE.

Definition secp256k1_ecdsa_sig_verify (ctx : secp256k1_ecmult_context) (sigr sigs : secp256k1_scalar) (pubkey : secp256k1_ge) (message : secp256k1_scalar) :
    checked bool :=
  if secp256k1_scalar_is_zero sigr || secp256k1_scalar_is_zero sigs then ret false else
  sn <- secp256k1_scalar_inverse_var sigs;;
  u1 <- secp256k1_scalar_mul sn message;;
  u2 <- secp256k1_scalar_mul sn sigr;;
  pubkeyj <- secp256k1_gej_set_ge pubkey;;
  pr <- secp256k1_ecmult ctx pubkeyj u2 u1;;
  if secp256k1_gej_is_infinity pr then ret false else
  let c := secp256k1_scalar_get_b32 sigr in
  ' (_, xr) <- secp256k1_fe_set_b32 uninit_fe c;;
  eq <- secp256k1_gej_eq_x_var xr pr;;
  if (eq : bool) then ret true else
  cmp <- secp256k1_fe_cmp_var xr secp256k1_ecdsa_const_p_minus_order;;
  if 0 <=? cmp then ret false else
  xr <- secp256k1_fe_add xr secp256k1_ecdsa_const_order_as_fe;;
  secp256k1_gej_eq_x_var xr pr.

(** Success, the signature and the recovery id; [recid] is a pointer that may be
    NULL, [Some] of what it points at. *)
Definition secp256k1_ecdsa_sig_sign (ctx : secp256k1_ecmult_gen_context) (seckey message nonce : secp256k1_scalar) (recid : option Z) :
    checked (bool * secp256k1_scalar * secp256k1_scalar * option Z) :=
  rp <- secp256k1_ecmult_gen ctx nonce;;
  ' (r, _) <- secp256k1_ge_set_gej rp;;
  x <- secp256k1_fe_normalize (ge_x r);;
  y <- secp256k1_fe_normalize (ge_y r);;
  b <- secp256k1_fe_get_b32 x;;
  ' (overflow, sigr) <- secp256k1_scalar_set_b32 b;;
  VERIFY_CHECK (negb (secp256k1_scalar_is_zero sigr));;
  VERIFY_CHECK (overflow =? 0);;
  recid <- (match recid with
            | Some _ => odd <- secp256k1_fe_is_odd y;; ret (Some (Z.lor (if overflow =? 0 then 0 else 2) (if (odd : bool) then 1 else 0)))
            | None => ret None
            end);;
  n <- secp256k1_scalar_mul sigr seckey;;
  ' (_, n) <- secp256k1_scalar_add n message;;
  sigs <- secp256k1_scalar_inverse nonce;;
  sigs <- secp256k1_scalar_mul sigs n;;
  if secp256k1_scalar_is_zero sigs then ret (false, sigr, sigs, recid) else
  if secp256k1_scalar_is_high sigs =? 0 then ret (true, sigr, sigs, recid)
  else ret (true, sigr, secp256k1_scalar_negate sigs, option_map (fun r => Z.lxor r 1) recid).

End Ecdsa.
