(* ===== verification/Eckey.v ===== *)
(** * Keys: [eckey_impl.h]

    The encodings of public keys and the tweaks of both kinds of key. *)

From Stdlib Require Import ZArith Lia List Bool.
From S2P Require Import Prelude Modulus Bytes Field FieldImpl Curve Group Scalar ScalarImpl Ecmult Buffer.
Import ListNotations.

#[local] Open Scope Z_scope.
#[local] Open Scope checked_scope.

Section Eckey.
Context {F : FieldOps} {S : ScalarOps} {M : Memory F S}.

(** Success and the new contents of [elem]. *)
Definition secp256k1_eckey_pubkey_parse (elem : secp256k1_ge) (pub : list Z) : checked (bool * secp256k1_ge) :=
  let size := Z.of_nat (length pub) in
  let pub0 := hd 0 pub in
  if (size =? 33) && ((pub0 =? 0x02) || (pub0 =? 0x03)) then
    ' (ok, x) <- secp256k1_fe_set_b32 uninit_fe (skipn 1 pub);;
    if negb ok then ret (false, elem) else secp256k1_ge_set_xo_var x (pub0 =? 0x03)
  else if (size =? 65) && ((pub0 =? 0x04) || (pub0 =? 0x06) || (pub0 =? 0x07)) then
    ' (ok, x) <- secp256k1_fe_set_b32 uninit_fe (firstn 32 (skipn 1 pub));;
    if negb ok then ret (false, elem) else
    ' (ok, y) <- secp256k1_fe_set_b32 uninit_fe (skipn 33 pub);;
    if negb ok then ret (false, elem) else
    let elem := secp256k1_ge_set_xy x y in
    wrong <- (if (pub0 =? 0x06) || (pub0 =? 0x07) then
                odd <- secp256k1_fe_is_odd y;; ret (negb (Bool.eqb odd (pub0 =? 0x07)))
              else ret false);;
    if (wrong : bool) then ret (false, elem) else
    ok <- secp256k1_ge_is_valid_var elem;;
    ret (ok, elem)
  else ret (false, elem).

(** Success, the buffer and the size. *)
Definition secp256k1_eckey_pubkey_serialize (elem : secp256k1_ge) (pub : list Z) (size : Z) (compressed : bool) : checked (bool * list Z * Z) :=
  if secp256k1_ge_is_infinity elem then ret (false, pub, size) else
  x <- secp256k1_fe_normalize_var (ge_x elem);;
  y <- secp256k1_fe_normalize_var (ge_y elem);;
  bx <- secp256k1_fe_get_b32 x;;
  pub <- store pub 1 bx;;
  if compressed then
    odd <- secp256k1_fe_is_odd y;;
    pub <- store pub 0 [Z.lor 0x02 (if (odd : bool) then 0x01 else 0x00)];;
    ret (true, pub, 33)
  else
    pub <- store pub 0 [0x04];;
    by_ <- secp256k1_fe_get_b32 y;;
    pub <- store pub 33 by_;;
    ret (true, pub, 65).

(** Success and the new key. *)
Definition secp256k1_eckey_privkey_tweak_add (key tweak : secp256k1_scalar) : checked (bool * secp256k1_scalar) :=
  ' (_, key) <- secp256k1_scalar_add key tweak;;
  if secp256k1_scalar_is_zero key then ret (false, key) else ret (true, key).

Definition secp256k1_eckey_pubkey_tweak_add (ctx : secp256k1_ecmult_context) (key : secp256k1_ge) (tweak : secp256k1_scalar) :
    checked (bool * secp256k1_ge) :=
  pt <- secp256k1_gej_set_ge key;;
  let one := secp256k1_scalar_set_int 1 in
  pt <- secp256k1_ecmult ctx pt one tweak;;
  if secp256k1_gej_is_infinity pt then ret (false, key) else
  ' (key, _) <- secp256k1_ge_set_gej pt;;
  ret (true, key).

Definition secp256k1_eckey_privkey_tweak_mul (key tweak : secp256k1_scalar) : checked (bool * secp256k1_scalar) :=
  if secp256k1_scalar_is_zero tweak then ret (false, key) else
  key <- secp256k1_scalar_mul key tweak;;
  ret (true, key).

Definition secp256k1_eckey_pubkey_tweak_mul (ctx : secp256k1_ecmult_context) (key : secp256k1_ge) (tweak : secp256k1_scalar) :
    checked (bool * secp256k1_ge) :=
  if secp256k1_scalar_is_zero tweak then ret (false, key) else
  let zero := secp256k1_scalar_set_int 0 in
  pt <- secp256k1_gej_set_ge key;;
  pt <- secp256k1_ecmult ctx pt tweak zero;;
  ' (key, _) <- secp256k1_ge_set_gej pt;;
  ret (true, key).

End Eckey.
