(* ===== verification/Secp256k1.v ===== *)
(** * The public functions: [secp256k1.c]

    Contexts, and the functions on them.  [unsigned char *] arguments are the arrays
    they point at, or [None] for NULL; a function returns its result after the
    objects and buffers that it may write. *)

From Stdlib Require Import String ZArith Lia List Bool.
From S2P Require Import Prelude Modulus Bytes Field FieldImpl Curve Group Scalar ScalarImpl Hash Ecmult EcmultGen EcmultConst Objects Buffer Ecdsa Eckey.
Import ListNotations.

#[local] Open Scope Z_scope.
#[local] Open Scope checked_scope.

(** ** Flags *)

Definition SECP256K1_FLAGS_TYPE_MASK : Z := Z.shiftl 1 8 - 1.
Definition SECP256K1_FLAGS_TYPE_CONTEXT : Z := Z.shiftl 1 0.
Definition SECP256K1_FLAGS_TYPE_COMPRESSION : Z := Z.shiftl 1 1.
Definition SECP256K1_FLAGS_BIT_CONTEXT_VERIFY : Z := Z.shiftl 1 8.
Definition SECP256K1_FLAGS_BIT_CONTEXT_SIGN : Z := Z.shiftl 1 9.
Definition SECP256K1_FLAGS_BIT_COMPRESSION : Z := Z.shiftl 1 8.
Definition SECP256K1_CONTEXT_VERIFY : Z := Z.lor SECP256K1_FLAGS_TYPE_CONTEXT SECP256K1_FLAGS_BIT_CONTEXT_VERIFY.
Definition SECP256K1_CONTEXT_SIGN : Z := Z.lor SECP256K1_FLAGS_TYPE_CONTEXT SECP256K1_FLAGS_BIT_CONTEXT_SIGN.
Definition SECP256K1_CONTEXT_NONE : Z := SECP256K1_FLAGS_TYPE_CONTEXT.
Definition SECP256K1_EC_COMPRESSED : Z := Z.lor SECP256K1_FLAGS_TYPE_COMPRESSION SECP256K1_FLAGS_BIT_COMPRESSION.
Definition SECP256K1_EC_UNCOMPRESSED : Z := SECP256K1_FLAGS_TYPE_COMPRESSION.

(** ** Objects *)

Definition secp256k1_pubkey : Type := list Z.
Definition secp256k1_ecdsa_signature : Type := list Z.

(** [noncefp(nonce32, msg32, key32, algo16, data, counter)]: its result and the new
    contents of [nonce32]. *)
Definition secp256k1_nonce_function : Type :=
  list Z -> list Z -> list Z -> option (list Z) -> option (list Z) -> Z -> checked (Z * list Z).

(** What the local array of a nonce holds before it is written. *)
Class ApiMemory : Type := { uninit_b32 : list Z }.

(** Both default callbacks print the text and abort. *)
Definition default_illegal_callback_fn (str : string) (data : Z) : checked unit := None.

Definition default_illegal_callback : secp256k1_callback := mk_callback default_illegal_callback_fn 0.

Definition default_error_callback_fn (str : string) (data : Z) : checked unit := None.

Definition default_error_callback : secp256k1_callback := mk_callback default_error_callback_fn 0.

Section Api.
Context {F : FieldOps} {S : ScalarOps} {Ob : Objects F S} {M : Memory F S} {H : HashMemory} {A : ApiMemory}.

(** ** Contexts *)

Record secp256k1_context : Type := mk_context {
  ecmult_ctx : secp256k1_ecmult_context;
  ecmult_gen_ctx : secp256k1_ecmult_gen_context;
  illegal_callback : secp256k1_callback;
  error_callback : secp256k1_callback
}.

(** The new context, [None] for NULL; [fuel] bounds the rounds of the blinding. *)
Definition secp256k1_context_create (fuel : nat) (flags : Z) : api (option secp256k1_context) :=
  if negb (Z.land flags SECP256K1_FLAGS_TYPE_MASK =? SECP256K1_FLAGS_TYPE_CONTEXT) then
    illegal default_illegal_callback "Invalid flags" None
  else
    let ecmult := secp256k1_ecmult_context_init in
    let gen := secp256k1_ecmult_gen_context_init (mk_ecmult_gen_context None uninit_scalar uninit_gej) in
    gen <- (if negb (Z.land flags SECP256K1_FLAGS_BIT_CONTEXT_SIGN =? 0) then secp256k1_ecmult_gen_context_build fuel gen else ret gen);;
    ecmult <- (if negb (Z.land flags SECP256K1_FLAGS_BIT_CONTEXT_VERIFY =? 0) then secp256k1_ecmult_context_build ecmult else ret ecmult);;
    done (Some (mk_context ecmult gen default_illegal_callback default_error_callback)).

Definition secp256k1_context_clone (ctx : secp256k1_context) : secp256k1_context :=
  mk_context (secp256k1_ecmult_context_clone (ecmult_ctx ctx))
    (secp256k1_ecmult_gen_context_clone (mk_ecmult_gen_context None uninit_scalar uninit_gej) (ecmult_gen_ctx ctx))
    (illegal_callback ctx) (error_callback ctx).

(** What the memory holds when it is freed. *)
Definition secp256k1_context_destroy (ctx : option secp256k1_context) : option secp256k1_context :=
  match ctx with
  | Some ctx => Some (mk_context (secp256k1_ecmult_context_clear (ecmult_ctx ctx)) (secp256k1_ecmult_gen_context_clear (ecmult_gen_ctx ctx))
                        (illegal_callback ctx) (error_callback ctx))
  | None => None
  end.

Definition secp256k1_context_set_illegal_callback (ctx : secp256k1_context) (fun_ : option (string -> Z -> checked unit)) (data : Z) : secp256k1_context :=
  let fun_ := match fun_ with None => default_illegal_callback_fn | Some f => f end in
  mk_context (ecmult_ctx ctx) (ecmult_gen_ctx ctx) (mk_callback fun_ data) (error_callback ctx).

Definition secp256k1_context_set_error_callback (ctx : secp256k1_context) (fun_ : option (string -> Z -> checked unit)) (data : Z) : secp256k1_context :=
  let fun_ := match fun_ with None => default_error_callback_fn | Some f => f end in
  mk_context (ecmult_ctx ctx) (ecmult_gen_ctx ctx) (illegal_callback ctx) (mk_callback fun_ data).

(** ** Public keys *)

Definition sizeof_ge_storage : Z := 2 * sizeof_fe_storage.

Definition secp256k1_pubkey_load (ctx : secp256k1_context) (pubkey : secp256k1_pubkey) : api (bool * secp256k1_ge) :=
  ge <- (if sizeof_ge_storage =? 64 then
           ret (secp256k1_ge_from_storage (mk_ge_storage (bytes_storage (firstn 32 pubkey)) (bytes_storage (skipn 32 pubkey))))
         else
           ' (_, x) <- secp256k1_fe_set_b32 uninit_fe (firstn 32 pubkey);;
           ' (_, y) <- secp256k1_fe_set_b32 uninit_fe (skipn 32 pubkey);;
           ret (secp256k1_ge_set_xy x y));;
  zero <- secp256k1_fe_is_zero (ge_x ge);;
  REQUIRE negb zero ELSE illegal_callback ctx, "!secp256k1_fe_is_zero(&ge->x)"%string, (false, ge);;
  done (true, ge).

Definition secp256k1_pubkey_save (ge : secp256k1_ge) : checked secp256k1_pubkey :=
  if sizeof_ge_storage =? 64 then
    s <- secp256k1_ge_to_storage ge;;
    ret (storage_bytes (ges_x s) ++ storage_bytes (ges_y s))
  else
    VERIFY_CHECK (negb (secp256k1_ge_is_infinity ge));;
    x <- secp256k1_fe_normalize_var (ge_x ge);;
    y <- secp256k1_fe_normalize_var (ge_y ge);;
    bx <- secp256k1_fe_get_b32 x;;
    by_ <- secp256k1_fe_get_b32 y;;
    ret (bx ++ by_).

Definition zero_pubkey : secp256k1_pubkey := repeat 0 64.
Definition zero_signature : secp256k1_ecdsa_signature := repeat 0 64.

Definition secp256k1_ec_pubkey_parse (ctx : secp256k1_context) (pubkey : option secp256k1_pubkey) (input : option (list Z)) :
    api (option secp256k1_pubkey * bool) :=
  REQUIRE_PTR _ := pubkey ELSE illegal_callback ctx, "pubkey != NULL"%string, (None, false);;
  REQUIRE_PTR input := input ELSE illegal_callback ctx, "input != NULL"%string, (Some zero_pubkey, false);;
  ' (ok, Q) <- secp256k1_eckey_pubkey_parse uninit_ge input;;
  if negb ok then done (Some zero_pubkey, false) else
  pubkey <- secp256k1_pubkey_save Q;;
  done (Some pubkey, true).

(** The output, its length and the result. *)
Definition secp256k1_ec_pubkey_serialize (ctx : secp256k1_context) (output : option (list Z)) (outputlen : option Z)
    (pubkey : option secp256k1_pubkey) (flags : Z) : api (option (list Z) * option Z * bool) :=
  REQUIRE_PTR len := outputlen ELSE illegal_callback ctx, "outputlen != NULL"%string, (output, None, false);;
  let compressed := negb (Z.land flags SECP256K1_FLAGS_BIT_COMPRESSION =? 0) in
  REQUIRE ((if compressed then 33 else 65) <=? len)
    ELSE illegal_callback ctx, "*outputlen >= ((flags & SECP256K1_FLAGS_BIT_COMPRESSION) ? 33 : 65)"%string, (output, outputlen, false);;
  REQUIRE_PTR output := output ELSE illegal_callback ctx, "output != NULL"%string, (None, Some 0, false);;
  output <- store output 0 (repeat 0 (Z.to_nat len));;
  REQUIRE_PTR pubkey := pubkey ELSE illegal_callback ctx, "pubkey != NULL"%string, (Some output, Some 0, false);;
  REQUIRE (Z.land flags SECP256K1_FLAGS_TYPE_MASK =? SECP256K1_FLAGS_TYPE_COMPRESSION)
    ELSE illegal_callback ctx, "(flags & SECP256K1_FLAGS_TYPE_MASK) == SECP256K1_FLAGS_TYPE_COMPRESSION"%string, (Some output, Some 0, false);;
  ' (ok, Q) <~ secp256k1_pubkey_load ctx pubkey;;
  if negb ok then done (Some output, Some 0, false) else
  ' (ok, output, len) <- secp256k1_eckey_pubkey_serialize Q output len compressed;;
  done (Some output, Some (if (ok : bool) then len else 0), ok).

(** ** Signatures *)

Definition secp256k1_ecdsa_signature_load (sig : secp256k1_ecdsa_signature) : checked (secp256k1_scalar * secp256k1_scalar) :=
  if sizeof_scalar =? 32 then ret (bytes_scalar (firstn 32 sig), bytes_scalar (skipn 32 sig))
  else
    ' (_, r) <- secp256k1_scalar_set_b32 (firstn 32 sig);;
    ' (_, s) <- secp256k1_scalar_set_b32 (skipn 32 sig);;
    ret (r, s).

Definition secp256k1_ecdsa_signature_save (r s : secp256k1_scalar) : secp256k1_ecdsa_signature :=
  if sizeof_scalar =? 32 then scalar_bytes r ++ scalar_bytes s
  else secp256k1_scalar_get_b32 r ++ secp256k1_scalar_get_b32 s.

Definition secp256k1_ecdsa_signature_parse_der (ctx : secp256k1_context) (sig : option secp256k1_ecdsa_signature) (input : option (list Z)) :
    api (option secp256k1_ecdsa_signature * bool) :=
  REQUIRE_PTR _ := sig ELSE illegal_callback ctx, "sig != NULL"%string, (None, false);;
  REQUIRE_PTR input := input ELSE illegal_callback ctx, "input != NULL"%string, (sig, false);;
  ' (ok, r, s) <- secp256k1_ecdsa_sig_parse uninit_scalar uninit_scalar input;;
  if (ok : bool) then done (Some (secp256k1_ecdsa_signature_save r s), true) else done (Some zero_signature, false).

Definition secp256k1_ecdsa_signature_parse_compact (ctx : secp256k1_context) (sig : option secp256k1_ecdsa_signature) (input64 : option (list Z)) :
    api (option secp256k1_ecdsa_signature * bool) :=
  REQUIRE_PTR _ := sig ELSE illegal_callback ctx, "sig != NULL"%string, (None, false);;
  REQUIRE_PTR input64 := input64 ELSE illegal_callback ctx, "input64 != NULL"%string, (sig, false);;
  ' (overflow, r) <- secp256k1_scalar_set_b32 (firstn 32 input64);;
  let ok := overflow =? 0 in
  ' (overflow, s) <- secp256k1_scalar_set_b32 (skipn 32 input64);;
  let ok := ok && (overflow =? 0) in
  if ok then done (Some (secp256k1_ecdsa_signature_save r s), true) else done (Some zero_signature, false).

Definition secp256k1_ecdsa_signature_serialize_der (ctx : secp256k1_context) (output : option (list Z)) (outputlen : option Z)
    (sig : option secp256k1_ecdsa_signature) : api (option (list Z) * option Z * bool) :=
  REQUIRE_PTR out := output ELSE illegal_callback ctx, "output != NULL"%string, (output, outputlen, false);;
  REQUIRE_PTR len := outputlen ELSE illegal_callback ctx, "outputlen != NULL"%string, (output, outputlen, false);;
  REQUIRE_PTR sig := sig ELSE illegal_callback ctx, "sig != NULL"%string, (output, outputlen, false);;
  ' (r, s) <- secp256k1_ecdsa_signature_load sig;;
  ' (ok, len, out) <- secp256k1_ecdsa_sig_serialize out len r s;;
  done (Some out, Some len, ok).

Definition secp256k1_ecdsa_signature_serialize_compact (ctx : secp256k1_context) (output64 : option (list Z)) (sig : option secp256k1_ecdsa_signature) :
    api (option (list Z) * bool) :=
  REQUIRE_PTR out := output64 ELSE illegal_callback ctx, "output64 != NULL"%string, (output64, false);;
  REQUIRE_PTR sig := sig ELSE illegal_callback ctx, "sig != NULL"%string, (output64, false);;
  ' (r, s) <- secp256k1_ecdsa_signature_load sig;;
  out <- store out 0 (secp256k1_scalar_get_b32 r);;
  out <- store out 32 (secp256k1_scalar_get_b32 s);;
  done (Some out, true).

(** [sigout] may be NULL. *)
Definition secp256k1_ecdsa_signature_normalize (ctx : secp256k1_context) (sigout sigin : option secp256k1_ecdsa_signature) :
    api (option secp256k1_ecdsa_signature * Z) :=
  REQUIRE_PTR sigin := sigin ELSE illegal_callback ctx, "sigin != NULL"%string, (sigout, 0);;
  ' (r, s) <- secp256k1_ecdsa_signature_load sigin;;
  let high := secp256k1_scalar_is_high s in
  match sigout with
  | Some _ =>
      let s := if high =? 0 then s else secp256k1_scalar_negate s in
      done (Some (secp256k1_ecdsa_signature_save r s), high)
  | None => done (None, high)
  end.

Definition secp256k1_ecdsa_verify (ctx : secp256k1_context) (sig : option secp256k1_ecdsa_signature) (msg32 : option (list Z)) (pubkey : option secp256k1_pubkey) :
    api bool :=
  REQUIRE secp256k1_ecmult_context_is_built (ecmult_ctx ctx)
    ELSE illegal_callback ctx, "secp256k1_ecmult_context_is_built(&ctx->ecmult_ctx)"%string, false;;
  REQUIRE_PTR msg32 := msg32 ELSE illegal_callback ctx, "msg32 != NULL"%string, false;;
  REQUIRE_PTR sig := sig ELSE illegal_callback ctx, "sig != NULL"%string, false;;
  REQUIRE_PTR pubkey := pubkey ELSE illegal_callback ctx, "pubkey != NULL"%string, false;;
  ' (_, m) <- secp256k1_scalar_set_b32 msg32;;
  ' (r, s) <- secp256k1_ecdsa_signature_load sig;;
  if negb (secp256k1_scalar_is_high s =? 0) then done false else
  ' (ok, q) <~ secp256k1_pubkey_load ctx pubkey;;
  if negb ok then done false else
  ok <- secp256k1_ecdsa_sig_verify (ecmult_ctx ctx) r s q m;;
  done ok.

(** ** Signing *)

(** [for (i = 0; i <= counter; i++)], where [i] is an [unsigned int]; [fuel] bounds
    the number of rounds. *)
Fixpoint nonce_loop (fuel : nat) (i counter : Z) (rng : secp256k1_rfc6979_hmac_sha256_t) (nonce32 : list Z) :
    checked (secp256k1_rfc6979_hmac_sha256_t * list Z) :=
  if counter <? i then ret (rng, nonce32) else
  match fuel with
  | O => None
  | Datatypes.S fuel' =>
      ' (rng, nonce32) <- secp256k1_rfc6979_hmac_sha256_generate uninit_hmac uninit_sha rng 32;;
      nonce_loop fuel' (u32 (i + 1)) counter rng nonce32
  end.

Definition nonce_function_rfc6979 (fuel : nat) : secp256k1_nonce_function := fun nonce32 msg32 key32 algo16 data counter =>
  let keydata := firstn 32 key32 ++ firstn 32 msg32 in
  let keydata := match data with Some data => keydata ++ firstn 32 data | None => keydata end in
  let keydata := match algo16 with Some algo16 => keydata ++ firstn 16 algo16 | None => keydata end in
  rng <- secp256k1_rfc6979_hmac_sha256_initialize uninit_hmac uninit_sha keydata;;
  ' (_, nonce32) <- nonce_loop fuel 0 counter rng nonce32;;
  ret (1, nonce32).

(** The [while (1)] loop of the two signing functions, after [count] rounds; its
    result is [ret], [r], [s] and [recid]. *)
Fixpoint sign_loop (fuel : nat) (ctx : secp256k1_context) (noncefp : secp256k1_nonce_function) (msg32 seckey : list Z) (noncedata : option (list Z))
    (sec msg : secp256k1_scalar) (nonce32 : list Z) (count : Z) (r s : secp256k1_scalar) (recid : option Z) :
    checked (Z * secp256k1_scalar * secp256k1_scalar * option Z) :=
  match fuel with
  | O => None
  | Datatypes.S fuel' =>
      ' (ret_, nonce32) <- noncefp nonce32 msg32 seckey None noncedata count;;
      if ret_ =? 0 then ret (ret_, r, s, recid) else
      ' (overflow, non) <- secp256k1_scalar_set_b32 nonce32;;
      if (overflow =? 0) && negb (secp256k1_scalar_is_zero non) then
        ' (ok, r, s, recid) <- secp256k1_ecdsa_sig_sign (ecmult_gen_ctx ctx) sec msg non recid;;
        if (ok : bool) then ret (ret_, r, s, recid)
        else sign_loop fuel' ctx noncefp msg32 seckey noncedata sec msg nonce32 (u32 (count + 1)) r s recid
      else sign_loop fuel' ctx noncefp msg32 seckey noncedata sec msg nonce32 (u32 (count + 1)) r s recid
  end.

(** The part of the two signing functions between their argument checks and their
    results. *)
Definition sign_inner (fuel : nat) (ctx : secp256k1_context) (msg32 seckey : list Z) (noncefp : option secp256k1_nonce_function)
    (noncedata : option (list Z)) (recid : option Z) : checked (Z * secp256k1_scalar * secp256k1_scalar * option Z) :=
  let noncefp := match noncefp with Some f => f | None => nonce_function_rfc6979 fuel end in
  ' (overflow, sec) <- secp256k1_scalar_set_b32 seckey;;
  if (overflow =? 0) && negb (secp256k1_scalar_is_zero sec) then
    ' (_, msg) <- secp256k1_scalar_set_b32 msg32;;
    sign_loop fuel ctx noncefp msg32 seckey noncedata sec msg uninit_b32 0 uninit_scalar uninit_scalar recid
  else ret (0, uninit_scalar, uninit_scalar, recid).

Definition secp256k1_ecdsa_sign (fuel : nat) (ctx : secp256k1_context) (signature : option secp256k1_ecdsa_signature) (msg32 seckey : option (list Z))
    (noncefp : option secp256k1_nonce_function) (noncedata : option (list Z)) : api (option secp256k1_ecdsa_signature * Z) :=
  REQUIRE secp256k1_ecmult_gen_context_is_built (ecmult_gen_ctx ctx)
    ELSE illegal_callback ctx, "secp256k1_ecmult_gen_context_is_built(&ctx->ecmult_gen_ctx)"%string, (signature, 0);;
  REQUIRE_PTR msg32 := msg32 ELSE illegal_callback ctx, "msg32 != NULL"%string, (signature, 0);;
  REQUIRE_PTR _ := signature ELSE illegal_callback ctx, "signature != NULL"%string, (signature, 0);;
  REQUIRE_PTR seckey := seckey ELSE illegal_callback ctx, "seckey != NULL"%string, (signature, 0);;
  ' (ret_, r, s, _) <- sign_inner fuel ctx msg32 seckey noncefp noncedata None;;
  if ret_ =? 0 then done (Some zero_signature, ret_) else done (Some (secp256k1_ecdsa_signature_save r s), ret_).

(** ** Keys *)

Definition secp256k1_ec_seckey_verify (ctx : secp256k1_context) (seckey : option (list Z)) : api bool :=
  REQUIRE_PTR seckey := seckey ELSE illegal_callback ctx, "seckey != NULL"%string, false;;
  ' (overflow, sec) <- secp256k1_scalar_set_b32 seckey;;
  done ((overflow =? 0) && negb (secp256k1_scalar_is_zero sec)).

Definition secp256k1_ec_pubkey_create (ctx : secp256k1_context) (pubkey : option secp256k1_pubkey) (seckey : option (list Z)) :
    api (option secp256k1_pubkey * bool) :=
  REQUIRE_PTR _ := pubkey ELSE illegal_callback ctx, "pubkey != NULL"%string, (None, false);;
  REQUIRE secp256k1_ecmult_gen_context_is_built (ecmult_gen_ctx ctx)
    ELSE illegal_callback ctx, "secp256k1_ecmult_gen_context_is_built(&ctx->ecmult_gen_ctx)"%string, (Some zero_pubkey, false);;
  REQUIRE_PTR seckey := seckey ELSE illegal_callback ctx, "seckey != NULL"%string, (Some zero_pubkey, false);;
  ' (overflow, sec) <- secp256k1_scalar_set_b32 seckey;;
  if (overflow =? 0) && negb (secp256k1_scalar_is_zero sec) then
    pj <- secp256k1_ecmult_gen (ecmult_gen_ctx ctx) sec;;
    ' (p, _) <- secp256k1_ge_set_gej pj;;
    pubkey <- secp256k1_pubkey_save p;;
    done (Some pubkey, true)
  else done (Some zero_pubkey, false).

Definition secp256k1_ec_privkey_tweak_add (ctx : secp256k1_context) (seckey tweak : option (list Z)) : api (option (list Z) * bool) :=
  REQUIRE_PTR key := seckey ELSE illegal_callback ctx, "seckey != NULL"%string, (seckey, false);;
  REQUIRE_PTR tweak := tweak ELSE illegal_callback ctx, "tweak != NULL"%string, (seckey, false);;
  ' (overflow, term) <- secp256k1_scalar_set_b32 tweak;;
  ' (_, sec) <- secp256k1_scalar_set_b32 key;;
  ' (ok, sec) <- (if overflow =? 0 then secp256k1_eckey_privkey_tweak_add sec term else ret (false, sec));;
  done (Some (if (ok : bool) then secp256k1_scalar_get_b32 sec else repeat 0 32), ok).

Definition secp256k1_ec_pubkey_tweak_add (ctx : secp256k1_context) (pubkey : option secp256k1_pubkey) (tweak : option (list Z)) :
    api (option secp256k1_pubkey * bool) :=
  REQUIRE secp256k1_ecmult_context_is_built (ecmult_ctx ctx)
    ELSE illegal_callback ctx, "secp256k1_ecmult_context_is_built(&ctx->ecmult_ctx)"%string, (pubkey, false);;
  REQUIRE_PTR key := pubkey ELSE illegal_callback ctx, "pubkey != NULL"%string, (pubkey, false);;
  REQUIRE_PTR tweak := tweak ELSE illegal_callback ctx, "tweak != NULL"%string, (pubkey, false);;
  ' (overflow, term) <- secp256k1_scalar_set_b32 tweak;;
  if negb (overflow =? 0) then done (Some zero_pubkey, false) else
  ' (ok, p) <~ secp256k1_pubkey_load ctx key;;
  if negb ok then done (Some zero_pubkey, false) else
  ' (ok, p) <- secp256k1_eckey_pubkey_tweak_add (ecmult_ctx ctx) p term;;
  if negb ok then done (Some zero_pubkey, false) else
  pubkey <- secp256k1_pubkey_save p;;
  done (Some pubkey, true).

Definition secp256k1_ec_privkey_tweak_mul (ctx : secp256k1_context) (seckey tweak : option (list Z)) : api (option (list Z) * bool) :=
  REQUIRE_PTR key := seckey ELSE illegal_callback ctx, "seckey != NULL"%string, (seckey, false);;
  REQUIRE_PTR tweak := tweak ELSE illegal_callback ctx, "tweak != NULL"%string, (seckey, false);;
  ' (overflow, factor) <- secp256k1_scalar_set_b32 tweak;;
  ' (_, sec) <- secp256k1_scalar_set_b32 key;;
  ' (ok, sec) <- (if overflow =? 0 then secp256k1_eckey_privkey_tweak_mul sec factor else ret (false, sec));;
  done (Some (if (ok : bool) then secp256k1_scalar_get_b32 sec else repeat 0 32), ok).

Definition secp256k1_ec_pubkey_tweak_mul (ctx : secp256k1_context) (pubkey : option secp256k1_pubkey) (tweak : option (list Z)) :
    api (option secp256k1_pubkey * bool) :=
  REQUIRE secp256k1_ecmult_context_is_built (ecmult_ctx ctx)
    ELSE illegal_callback ctx, "secp256k1_ecmult_context_is_built(&ctx->ecmult_ctx)"%string, (pubkey, false);;
  REQUIRE_PTR key := pubkey ELSE illegal_callback ctx, "pubkey != NULL"%string, (pubkey, false);;
  REQUIRE_PTR tweak := tweak ELSE illegal_callback ctx, "tweak != NULL"%string, (pubkey, false);;
  ' (overflow, factor) <- secp256k1_scalar_set_b32 tweak;;
  if negb (overflow =? 0) then done (Some zero_pubkey, false) else
  ' (ok, p) <~ secp256k1_pubkey_load ctx key;;
  if negb ok then done (Some zero_pubkey, false) else
  ' (ok, p) <- secp256k1_eckey_pubkey_tweak_mul (ecmult_ctx ctx) p factor;;
  if negb ok then done (Some zero_pubkey, false) else
  pubkey <- secp256k1_pubkey_save p;;
  done (Some pubkey, true).

Definition secp256k1_context_randomize (fuel : nat) (ctx : secp256k1_context) (seed32 : option (list Z)) : api (secp256k1_context * bool) :=
  REQUIRE secp256k1_ecmult_gen_context_is_built (ecmult_gen_ctx ctx)
    ELSE illegal_callback ctx, "secp256k1_ecmult_gen_context_is_built(&ctx->ecmult_gen_ctx)"%string, (ctx, false);;
  gen <- secp256k1_ecmult_gen_blind fuel (ecmult_gen_ctx ctx) seed32;;
  done (mk_context (ecmult_ctx ctx) gen (illegal_callback ctx) (error_callback ctx), true).

(** [for (i = 0; i < n; i++)]: [n] more rounds, over the keys that are left. *)
Fixpoint combine_loop (n : nat) (ctx : secp256k1_context) (pubnonces : list secp256k1_pubkey) (Qj : secp256k1_gej) : api secp256k1_gej :=
  match n with
  | O => done Qj
  | Datatypes.S n' =>
      match pubnonces with
      | [] => None
      | pubnonce :: pubnonces' =>
          ' (_, Q) <~ secp256k1_pubkey_load ctx pubnonce;;
          Qj <- secp256k1_gej_add_ge Qj Q;;
          combine_loop n' ctx pubnonces' Qj
      end
  end.

Definition secp256k1_ec_pubkey_combine (ctx : secp256k1_context) (pubnonce : option secp256k1_pubkey) (pubnonces : option (list secp256k1_pubkey)) (n : Z) :
    api (option secp256k1_pubkey * bool) :=
  REQUIRE_PTR _ := pubnonce ELSE illegal_callback ctx, "pubnonce != NULL"%string, (None, false);;
  REQUIRE (1 <=? n) ELSE illegal_callback ctx, "n >= 1"%string, (Some zero_pubkey, false);;
  REQUIRE_PTR pubnonces := pubnonces ELSE illegal_callback ctx, "pubnonces != NULL"%string, (Some zero_pubkey, false);;
  Qj <~ combine_loop (Z.to_nat n) ctx pubnonces secp256k1_gej_set_infinity;;
  if secp256k1_gej_is_infinity Qj then done (Some zero_pubkey, false) else
  ' (Q, _) <- secp256k1_ge_set_gej Qj;;
  pubnonce <- secp256k1_pubkey_save Q;;
  done (Some pubnonce, true).

End Api.
