(* ===== verification/Recovery.v ===== *)
(** * Signatures with a recovery id: [modules/recovery/main_impl.h] *)

From Stdlib Require Import String ZArith Lia List Bool.
From S2P Require Import Prelude Modulus Bytes Field FieldImpl Curve Group Scalar ScalarImpl Hash Ecmult EcmultGen Objects Buffer Ecdsa Eckey Secp256k1.
Import ListNotations.

#[local] Open Scope Z_scope.
#[local] Open Scope checked_scope.

(** 65 bytes; the last one is the recovery id. *)
Definition secp256k1_ecdsa_recoverable_signature : Type := list Z.

Section Recovery.
Context {F : FieldOps} {S : ScalarOps} {Ob : Objects F S} {M : Memory F S} {H : HashMemory} {A : ApiMemory}.

Definition secp256k1_ecdsa_recoverable_signature_load (sig : secp256k1_ecdsa_recoverable_signature) : checked (secp256k1_scalar * secp256k1_scalar * Z) :=
  ' (r, s) <- (if sizeof_scalar =? 32 then ret (bytes_scalar (firstn 32 sig), bytes_scalar (firstn 32 (skipn 32 sig)))
               else
                 ' (_, r) <- secp256k1_scalar_set_b32 (firstn 32 sig);;
                 ' (_, s) <- secp256k1_scalar_set_b32 (firstn 32 (skipn 32 sig));;
                 ret (r, s));;
  ret (r, s, nth 64 sig 0).

Definition secp256k1_ecdsa_recoverable_signature_save (r s : secp256k1_scalar) (recid : Z) : secp256k1_ecdsa_recoverable_signature :=
  (if sizeof_scalar =? 32 then scalar_bytes r ++ scalar_bytes s
   else secp256k1_scalar_get_b32 r ++ secp256k1_scalar_get_b32 s) ++ [u8 recid].

Definition zero_recoverable : secp256k1_ecdsa_recoverable_signature := repeat 0 65.

Definition secp256k1_ecdsa_recoverable_signature_parse_compact (ctx : secp256k1_context) (sig : option secp256k1_ecdsa_recoverable_signature)
    (input64 : option (list Z)) (recid : Z) : api (option secp256k1_ecdsa_recoverable_signature * bool) :=
  REQUIRE_PTR _ := sig ELSE illegal_callback ctx, "sig != NULL"%string, (sig, false);;
  REQUIRE_PTR input64 := input64 ELSE illegal_callback ctx, "input64 != NULL"%string, (sig, false);;
  REQUIRE ((0 <=? recid) && (recid <=? 3)) ELSE illegal_callback ctx, "recid >= 0 && recid <= 3"%string, (sig, false);;
  ' (overflow, r) <- secp256k1_scalar_set_b32 (firstn 32 input64);;
  let ok := overflow =? 0 in
  ' (overflow, s) <- secp256k1_scalar_set_b32 (firstn 32 (skipn 32 input64));;
  let ok := ok && (overflow =? 0) in
  if ok then done (Some (secp256k1_ecdsa_recoverable_signature_save r s recid), true) else done (Some zero_recoverable, false).

(** The output, the recovery id and the result. *)
Definition secp256k1_ecdsa_recoverable_signature_serialize_compact (ctx : secp256k1_context) (output64 : option (list Z)) (recid : option Z)
    (sig : option secp256k1_ecdsa_recoverable_signature) : api (option (list Z) * option Z * bool) :=
  REQUIRE_PTR out := output64 ELSE illegal_callback ctx, "output64 != NULL"%string, (output64, recid, false);;
  REQUIRE_PTR sig := sig ELSE illegal_callback ctx, "sig != NULL"%string, (output64, recid, false);;
  REQUIRE_PTR _ := recid ELSE illegal_callback ctx, "recid != NULL"%string, (output64, recid, false);;
  ' (r, s, recid) <- secp256k1_ecdsa_recoverable_signature_load sig;;
  out <- store out 0 (secp256k1_scalar_get_b32 r);;
  out <- store out 32 (secp256k1_scalar_get_b32 s);;
  done (Some out, Some recid, true).

Definition secp256k1_ecdsa_recoverable_signature_convert (ctx : secp256k1_context) (sig : option secp256k1_ecdsa_signature)
    (sigin : option secp256k1_ecdsa_recoverable_signature) : api (option secp256k1_ecdsa_signature * bool) :=
  REQUIRE_PTR _ := sig ELSE illegal_callback ctx, "sig != NULL"%string, (sig, false);;
  REQUIRE_PTR sigin := sigin ELSE illegal_callback ctx, "sigin != NULL"%string, (sig, false);;
  ' (r, s, _) <- secp256k1_ecdsa_recoverable_signature_load sigin;;
  done (Some (secp256k1_ecdsa_signature_save r s), true).

(** Success and the new contents of [pubkey]. *)
Definition secp256k1_ecdsa_sig_recover (ctx : secp256k1_ecmult_context) (sigr sigs : secp256k1_scalar) (pubkey : secp256k1_ge) (message : secp256k1_scalar) (recid : Z) :
    checked (bool * secp256k1_ge) :=
  if secp256k1_scalar_is_zero sigr || secp256k1_scalar_is_zero sigs then ret (false, pubkey) else
  let brx := secp256k1_scalar_get_b32 sigr in
  ' (r, fx) <- secp256k1_fe_set_b32 uninit_fe brx;;
  VERIFY_CHECK r;;
  ' (ok, fx) <- (if Z.land recid 2 =? 0 then ret (true, fx) else
                   cmp <- secp256k1_fe_cmp_var fx secp256k1_ecdsa_const_p_minus_order;;
                   if 0 <=? cmp then ret (false, fx) else
                   fx <- secp256k1_fe_add fx secp256k1_ecdsa_const_order_as_fe;;
                   ret (true, fx));;
  if negb ok then ret (false, pubkey) else
  ' (ok, x) <- secp256k1_ge_set_xo_var fx (negb (Z.land recid 1 =? 0));;
  if negb ok then ret (false, pubkey) else
  xj <- secp256k1_gej_set_ge x;;
  rn <- secp256k1_scalar_inverse_var sigr;;
  u1 <- secp256k1_scalar_mul rn message;;
  let u1 := secp256k1_scalar_negate u1 in
  u2 <- secp256k1_scalar_mul rn sigs;;
  qj <- secp256k1_ecmult ctx xj u2 u1;;
  ' (pubkey, qj) <- secp256k1_ge_set_gej_var pubkey qj;;
  ret (negb (secp256k1_gej_is_infinity qj), pubkey).

(** [recid] is a local variable, so its address is not NULL. *)
Definition secp256k1_ecdsa_sign_recoverable (fuel : nat) (ctx : secp256k1_context) (signature : option secp256k1_ecdsa_recoverable_signature)
    (msg32 seckey : option (list Z)) (noncefp : option secp256k1_nonce_function) (noncedata : option (list Z)) :
    api (option secp256k1_ecdsa_recoverable_signature * Z) :=
  REQUIRE secp256k1_ecmult_gen_context_is_built (ecmult_gen_ctx ctx)
    ELSE illegal_callback ctx, "secp256k1_ecmult_gen_context_is_built(&ctx->ecmult_gen_ctx)"%string, (signature, 0);;
  REQUIRE_PTR msg32 := msg32 ELSE illegal_callback ctx, "msg32 != NULL"%string, (signature, 0);;
  REQUIRE_PTR _ := signature ELSE illegal_callback ctx, "signature != NULL"%string, (signature, 0);;
  REQUIRE_PTR seckey := seckey ELSE illegal_callback ctx, "seckey != NULL"%string, (signature, 0);;
  ' (ret_, r, s, recid) <- sign_inner fuel ctx msg32 seckey noncefp noncedata (Some 0);;
  if ret_ =? 0 then done (Some zero_recoverable, ret_) else
  match recid with
  | Some recid => done (Some (secp256k1_ecdsa_recoverable_signature_save r s recid), ret_)
  | None => None
  end.

Definition secp256k1_ecdsa_recover (ctx : secp256k1_context) (pubkey : option secp256k1_pubkey) (signature : option secp256k1_ecdsa_recoverable_signature)
    (msg32 : option (list Z)) : api (option secp256k1_pubkey * bool) :=
  REQUIRE secp256k1_ecmult_context_is_built (ecmult_ctx ctx)
    ELSE illegal_callback ctx, "secp256k1_ecmult_context_is_built(&ctx->ecmult_ctx)"%string, (pubkey, false);;
  REQUIRE_PTR msg32 := msg32 ELSE illegal_callback ctx, "msg32 != NULL"%string, (pubkey, false);;
  REQUIRE_PTR signature := signature ELSE illegal_callback ctx, "signature != NULL"%string, (pubkey, false);;
  REQUIRE_PTR _ := pubkey ELSE illegal_callback ctx, "pubkey != NULL"%string, (pubkey, false);;
  ' (r, s, recid) <- secp256k1_ecdsa_recoverable_signature_load signature;;
  VERIFY_CHECK ((0 <=? recid) && (recid <? 4));;
  ' (_, m) <- secp256k1_scalar_set_b32 msg32;;
  ' (ok, q) <- secp256k1_ecdsa_sig_recover (ecmult_ctx ctx) r s uninit_ge m recid;;
  if (ok : bool) then
    pubkey <- secp256k1_pubkey_save q;;
    done (Some pubkey, true)
  else done (Some zero_pubkey, false).

End Recovery.
