(* ===== verification/Ecdh.v ===== *)
(** * Shared secrets: [modules/ecdh/main_impl.h], and the functions of [ext.h]

    [ext.h] wraps the library for the Go package: verification and recovery on
    encoded keys and signatures, conversion of public keys, and multiplication of a
    point. *)

From Stdlib Require Import String ZArith Lia List Bool.
From S2P Require Import Prelude Modulus Bytes Field FieldImpl Curve Group Scalar ScalarImpl Hash Ecmult EcmultGen EcmultConst Objects Buffer Ecdsa Eckey Secp256k1 Recovery.
Import ListNotations.

#[local] Open Scope Z_scope.
#[local] Open Scope checked_scope.

Section Ecdh.
Context {F : FieldOps} {S : ScalarOps} {Ob : Objects F S} {M : Memory F S} {H : HashMemory} {A : ApiMemory}.

Definition secp256k1_ecdh (ctx : secp256k1_context) (result : option (list Z)) (point : option secp256k1_pubkey) (scalar : option (list Z)) :
    api (option (list Z) * bool) :=
  REQUIRE_PTR res := result ELSE illegal_callback ctx, "result != NULL"%string, (result, false);;
  REQUIRE_PTR point := point ELSE illegal_callback ctx, "point != NULL"%string, (result, false);;
  REQUIRE_PTR scalar := scalar ELSE illegal_callback ctx, "scalar != NULL"%string, (result, false);;
  ' (_, pt) <~ secp256k1_pubkey_load ctx point;;
  ' (overflow, s) <- secp256k1_scalar_set_b32 scalar;;
  if negb (overflow =? 0) || secp256k1_scalar_is_zero s then done (result, false) else
  r <- secp256k1_ecmult_const pt s;;
  ' (pt, _) <- secp256k1_ge_set_gej r;;
  ptx <- secp256k1_fe_normalize (ge_x pt);;
  pty <- secp256k1_fe_normalize (ge_y pt);;
  x <- secp256k1_fe_get_b32 ptx;;
  odd <- secp256k1_fe_is_odd pty;;
  let y := [Z.lor 0x02 (Z.b2z odd)] in
  let sha := secp256k1_sha256_initialize uninit_sha in
  sha <- secp256k1_sha256_write sha y;;
  sha <- secp256k1_sha256_write sha x;;
  ' (_, out) <- secp256k1_sha256_finalize sha;;
  res <- store res 0 out;;
  done (Some res, true).

(** ** [ext.h] *)

Definition secp256k1_context_create_sign_verify (fuel : nat) : api (option secp256k1_context) :=
  secp256k1_context_create fuel (Z.lor SECP256K1_CONTEXT_SIGN SECP256K1_CONTEXT_VERIFY).

(** The arrays and structures of [ext.h] are never NULL; [zero_pubkey] and the like
    stand for what the local structures hold before they are written. *)
Definition secp256k1_ext_ecdsa_recover (ctx : secp256k1_context) (pubkey_out sigdata msgdata : list Z) : api (list Z * bool) :=
  ' (sig, ok) <~ secp256k1_ecdsa_recoverable_signature_parse_compact ctx (Some zero_recoverable) (Some sigdata) (nth 64 sigdata 0);;
  if negb ok then done (pubkey_out, false) else
  ' (pubkey, ok) <~ secp256k1_ecdsa_recover ctx (Some zero_pubkey) sig (Some msgdata);;
  if negb ok then done (pubkey_out, false) else
  ' (out, _, ok) <~ secp256k1_ec_pubkey_serialize ctx (Some pubkey_out) (Some 65) pubkey SECP256K1_EC_UNCOMPRESSED;;
  done (match out with Some out => out | None => pubkey_out end, ok).

Definition secp256k1_ext_ecdsa_verify (ctx : secp256k1_context) (sigdata msgdata pubkeydata : list Z) : api bool :=
  ' (sig, ok) <~ secp256k1_ecdsa_signature_parse_compact ctx (Some zero_signature) (Some sigdata);;
  if negb ok then done false else
  ' (pubkey, ok) <~ secp256k1_ec_pubkey_parse ctx (Some zero_pubkey) (Some pubkeydata);;
  if negb ok then done false else
  secp256k1_ecdsa_verify ctx sig (Some msgdata) pubkey.

Definition secp256k1_ext_reencode_pubkey (ctx : secp256k1_context) (out : list Z) (outlen : Z) (pubkeydata : list Z) : api (list Z * bool) :=
  ' (pubkey, ok) <~ secp256k1_ec_pubkey_parse ctx (Some zero_pubkey) (Some pubkeydata);;
  if negb ok then done (out, false) else
  let flag := if outlen =? 33 then SECP256K1_EC_COMPRESSED else SECP256K1_EC_UNCOMPRESSED in
  ' (out', _, ok) <~ secp256k1_ec_pubkey_serialize ctx (Some out) (Some outlen) pubkey flag;;
  done (match out' with Some out' => out' | None => out end, ok).

(** The point is read and written as two numbers of 32 bytes. *)
Definition secp256k1_ext_scalar_mul (ctx : secp256k1_context) (point scalar : option (list Z)) : api (option (list Z) * bool) :=
  REQUIRE_PTR pt := point ELSE illegal_callback ctx, "point != NULL"%string, (point, false);;
  REQUIRE_PTR scalar := scalar ELSE illegal_callback ctx, "scalar != NULL"%string, (point, false);;
  ' (_, feX) <- secp256k1_fe_set_b32 uninit_fe (firstn 32 pt);;
  ' (_, feY) <- secp256k1_fe_set_b32 uninit_fe (firstn 32 (skipn 32 pt));;
  let ge := secp256k1_ge_set_xy feX feY in
  ' (overflow, s) <- secp256k1_scalar_set_b32 scalar;;
  if negb (overflow =? 0) || secp256k1_scalar_is_zero s then done (point, false) else
  r <- secp256k1_ecmult_const ge s;;
  ' (ge, _) <- secp256k1_ge_set_gej r;;
  x <- secp256k1_fe_normalize (ge_x ge);;
  y <- secp256k1_fe_normalize (ge_y ge);;
  bx <- secp256k1_fe_get_b32 x;;
  pt <- store pt 0 bx;;
  by_ <- secp256k1_fe_get_b32 y;;
  pt <- store pt 32 by_;;
  done (Some pt, true).

End Ecdh.
