(* ===== verification/Der.v ===== *)
(** * The DER coding of signatures

    The reference: lengths, integers and pairs of integers in the distinguished
    encoding.  The parser of [ecdsa_impl.h] accepts exactly the encodings of pairs of
    integers, and what the serializer writes is one of them. *)

From Stdlib Require Import ZArith Lia List Bool.
From S2P Require Import Prelude Modulus Bytes Scalar ScalarImpl Objects Buffer Ecdsa.
Import ListNotations.

#[local] Open Scope Z_scope.
#[local] Open Scope checked_scope.

(** ** Reference: X.690 *)

Definition byte_length (v : Z) : nat := Z.to_nat (Z.log2 v / 8 + 1).

(** 8.1.3: the short form below 128, the shortest long form from there on. *)
Definition der_length (v : Z) : list Z :=
  if v <? 128 then [v] else 0x80 + Z.of_nat (byte_length v) :: be_bytes (byte_length v) v.

Definition der_tlv (tag : Z) (c : list Z) : list Z := tag :: der_length (Z.of_nat (length c)) ++ c.

(** 8.3: two's complement, of at least one byte and as short as can be. *)
Definition der_minimal (c : list Z) : Prop :=
  match c with
  | [] => False
  | [_] => True
  | b0 :: b1 :: _ => ~ (b0 = 0 /\ b1 < 0x80) /\ ~ (b0 = 0xFF /\ 0x80 <= b1)
  end.

Definition der_integer (c : list Z) : Z := be_value c - (if 0x80 <=? hd 0 c then 256 ^ Z.of_nat (length c) else 0).

Definition der_signature (c d : list Z) : list Z := der_tlv 0x30 (der_tlv 0x02 c ++ der_tlv 0x02 d).

(** What the library makes of an integer: out of range is zero. *)
Definition der_scalar (c : list Z) : Z := let v := der_integer c in if (0 <=? v) && (v <? n) then v else 0.

(** The encoding of a number below the order. *)
Definition der_content (v : Z) : list Z := strip_zeros (be_bytes 33 v).

Definition is_bytes (b : list Z) : Prop := Forall is_byte b.

(** An integer in DER. *)
Definition der_int (c : list Z) : Prop := is_bytes c /\ der_minimal c.

(** ** Lengths *)

Lemma lor_byte a b : 0 <= a < 2 ^ 31 -> is_byte b -> Z.lor (u64 (Z.shiftl a 8)) b = a * 256 + b.
Proof.
  intros Ha Hb. unfold is_byte in Hb. unfold u64. rewrite Z.mod_small by (rewrite Z.shiftl_mul_pow2; lia).
  rewrite Z.lor_comm, lor_shiftl_add by lia. lia.
Qed.

Lemma byte_length_unique v k : (0 < k)%nat -> 256 ^ (Z.of_nat k - 1) <= v < 256 ^ Z.of_nat k -> byte_length v = k.
Proof.
  intros Hk Hv. change 256 with (2 ^ 8) in Hv. rewrite <- !Z.pow_mul_r in Hv by lia.
  assert (8 * (Z.of_nat k - 1) <= Z.log2 v) by (apply Z.log2_le_pow2; lia).
  assert (Z.log2 v < 8 * Z.of_nat k) by (apply Z.log2_lt_pow2; lia).
  unfold byte_length. replace (Z.log2 v / 8) with (Z.of_nat k - 1); [lia|]. apply Z.div_unique with (Z.log2 v - 8 * (Z.of_nat k - 1)); lia.
Qed.

Lemma byte_length_bounds v : 0 < v -> (0 < byte_length v)%nat /\ 256 ^ (Z.of_nat (byte_length v) - 1) <= v < 256 ^ Z.of_nat (byte_length v).
Proof.
  intros Hv. pose proof (Z.log2_nonneg v) as Hl. pose proof (Z.log2_spec v Hv) as Hs. unfold byte_length.
  pose proof (Z.div_mod (Z.log2 v) 8 ltac:(lia)). pose proof (Z.mod_pos_bound (Z.log2 v) 8 ltac:(lia)).
  assert (0 <= Z.log2 v / 8) by (apply Z.div_pos; lia). split; [lia|]. rewrite Z2Nat.id by lia.
  change 256 with (2 ^ 8). rewrite <- !Z.pow_mul_r by lia. split.
  - eapply Z.le_trans; [apply Z.pow_le_mono_r with (c := Z.log2 v); lia | lia].
  - eapply Z.lt_le_trans; [apply Hs | apply Z.pow_le_mono_r; lia].
Qed.

Lemma be_value_cons b l : be_value (b :: l) = b * 256 ^ Z.of_nat (length l) + be_value l.
Proof. change (b :: l) with ([b] ++ l). rewrite be_value_app. reflexivity. Qed.

Lemma be_value_bound l : is_bytes l -> 0 <= be_value l < 256 ^ Z.of_nat (length l).
Proof. intros H. apply be_value_range. split; [reflexivity | exact H]. Qed.

(** The loop reads [k] bytes after [acc], unless the number is below 128 or leaves
    the buffer. *)
Lemma der_len_loop_spec k acc sig : is_bytes sig -> 0 <= acc -> acc + Z.of_nat k <= Z.of_nat (length sig) < 2 ^ 31 ->
  let V := acc * 256 ^ Z.of_nat k + be_value (firstn k sig) in
  Returns (der_len_loop k acc sig) (fun '(l, rest) =>
    if (128 <=? V) && (V + Z.of_nat k <=? Z.of_nat (length sig)) then l = V /\ rest = skipn k sig else l = -1).
Proof.
  cbv zeta. revert acc sig. induction k as [|k IH]; intros acc sig Hb Ha Hl.
  - cbn [firstn skipn der_len_loop]. change (be_value []) with 0. rewrite Z.mul_1_r, Z.add_0_r. change (Z.of_nat 0) with 0 in *.
    rewrite (proj2 (Z.leb_le (acc + 0) _)) by lia. rewrite andb_true_r, Z.leb_antisym. destruct (acc <? 128); cbn; [reflexivity|].
    split; [|reflexivity]. unfold i32. rewrite Z.mod_small; lia.
  - destruct sig as [|b sig]; [cbn [length] in Hl; lia|]. apply Forall_cons_iff in Hb. destruct Hb as [Hb Hbs].
    cbn [der_len_loop firstn skipn]. rewrite lor_byte by (try exact Hb; cbn [length] in Hl; lia).
    cbn [length] in Hl |- *. rewrite be_value_cons, length_firstn. replace (Nat.min k (length sig)) with k by lia.
    replace (256 ^ Z.of_nat (S k)) with (256 * 256 ^ Z.of_nat k) by (rewrite Nat2Z.inj_succ, Z.pow_succ_r by lia; ring).
    replace (acc * (256 * 256 ^ Z.of_nat k) + (b * 256 ^ Z.of_nat k + be_value (firstn k sig)))
      with ((acc * 256 + b) * 256 ^ Z.of_nat k + be_value (firstn k sig)) by ring.
    set (len := acc * 256 + b) in *. assert (0 <= len < 2 ^ 62) by (unfold is_byte in Hb; subst len; lia). unfold u64. rewrite Z.mod_small by lia.
    pose proof (be_value_bound (firstn k sig) (Forall_firstn _ _ _ Hbs)) as Hr.
    assert (len <= len * 256 ^ Z.of_nat k) by (pose proof (Z.pow_pos_nonneg 256 (Z.of_nat k)); nia).
    destruct (Z.ltb_spec (Z.of_nat (S (length sig))) (len + Z.of_nat (S k))) as [Hgt|Hle].
    + apply Returns_ret. rewrite (proj2 (Z.leb_gt (_ + Z.of_nat (S k)) _)) by lia. rewrite andb_false_r. reflexivity.
    + eapply Returns_mono; [apply IH; [exact Hbs | lia | lia]|]. intros [l rest] HQ.
      replace (_ + Z.of_nat (S k) <=? Z.of_nat (S (length sig))) with (len * 256 ^ Z.of_nat k + be_value (firstn k sig) + Z.of_nat k <=? Z.of_nat (length sig)); [exact HQ|].
      apply eq_true_iff_eq. rewrite !Z.leb_le. lia.
Qed.

(** A test that holds of the 256 bytes. *)
Lemma byte_forall (P : Z -> bool) b : forallb P (map Z.of_nat (seq 0 256)) = true -> is_byte b -> P b = true.
Proof.
  intros H [H0 H1]. apply (proj1 (forallb_forall P _) H). apply in_map_iff. exists (Z.to_nat b). split; [lia|]. apply in_seq. lia.
Qed.

Lemma land_0x80 b : is_byte b -> Z.land b 0x80 = if b <? 128 then 0 else 128.
Proof. intros Hb. apply Z.eqb_eq, (byte_forall (fun b => Z.land b 0x80 =? if b <? 128 then 0 else 128)); [vm_compute; reflexivity | exact Hb]. Qed.

Lemma land_0x7F b : is_byte b -> Z.land b 0x7F = if b <? 128 then b else b - 128.
Proof. intros Hb. apply Z.eqb_eq, (byte_forall (fun b => Z.land b 0x7F =? if b <? 128 then b else b - 128)); [vm_compute; reflexivity | exact Hb]. Qed.

Lemma firstn_exact {A} k (a b : list A) : length a = k -> firstn k (a ++ b) = a.
Proof. intros <-. rewrite firstn_app, Nat.sub_diag, firstn_O, app_nil_r. apply firstn_all. Qed.

Lemma skipn_exact {A} k (a b : list A) : length a = k -> skipn k (a ++ b) = b.
Proof. intros <-. rewrite skipn_app, Nat.sub_diag, skipn_all. reflexivity. Qed.

Lemma leading_byte k v : (0 < k)%nat -> 256 ^ (Z.of_nat k - 1) <= v < 256 ^ Z.of_nat k -> exists b l, be_bytes k v = b :: l /\ b <> 0.
Proof.
  intros Hk Hv. pose proof (be_bytes_wf k v) as [Hl Hb]. assert (0 < 256 ^ (Z.of_nat k - 1)) by (apply Z.pow_pos_nonneg; lia).
  assert (E : be_value (be_bytes k v) = v) by (apply be_value_bytes; lia). destruct (be_bytes k v) as [|b l]; [cbn [length] in Hl; lia|].
  exists b, l. split; [reflexivity|]. intros ->. rewrite be_value_cons in E. apply Forall_cons_iff in Hb. pose proof (be_value_bound l (proj2 Hb)) as Hr.
  cbn [length] in Hl. replace (Z.of_nat k - 1) with (Z.of_nat (length l)) in Hv by lia. lia.
Qed.

Lemma der_read_len_encoded v rest : 0 <= v -> v < 128 \/ v <= Z.of_nat (length rest) -> is_bytes rest ->
  Z.of_nat (length (der_length v ++ rest)) < 2 ^ 31 -> secp256k1_der_read_len (der_length v ++ rest) = Some (v, rest).
Proof.
  intros H0 Hv Hb Hl. unfold der_length in *. destruct (Z.ltb_spec v 128) as [Hs|Hs]; cbn [app secp256k1_der_read_len].
  - rewrite land_0x80 by (unfold is_byte; lia). rewrite (proj2 (Z.eqb_neq v 0xFF)), (proj2 (Z.ltb_lt v 128)) by lia. reflexivity.
  - destruct Hv as [Hv|Hv]; [lia|]. destruct (byte_length_bounds v ltac:(lia)) as [Hk Hkv]. set (k := byte_length v) in *.
    cbn [app length] in Hl. rewrite length_app, length_be_bytes in Hl.
    assert (k <= 4)%nat. { apply Nat.nlt_ge. intros Hk4. assert (256 ^ 4 <= 256 ^ (Z.of_nat k - 1)) by (apply Z.pow_le_mono_r; lia). lia. }
    assert (is_byte (128 + Z.of_nat k)) by (unfold is_byte; lia). rewrite land_0x80, land_0x7F by assumption.
    rewrite (proj2 (Z.eqb_neq _ 0xFF)), (proj2 (Z.ltb_ge (128 + Z.of_nat k) 128)) by lia. cbn [Z.eqb].
    rewrite (proj2 (Z.eqb_neq (128 + Z.of_nat k) 128)) by lia. replace (128 + Z.of_nat k - 128) with (Z.of_nat k) by lia.
    rewrite length_app, length_be_bytes, (proj2 (Z.ltb_ge (Z.of_nat (k + length rest)) _)) by lia.
    destruct (leading_byte k v Hk Hkv) as (b & l & E & Hb0). pose proof (be_bytes_wf k v) as [_ Hbk]. rewrite E at 1. cbn [app].
    rewrite (proj2 (Z.eqb_neq b 0) Hb0), (proj2 (Z.ltb_ge 8 (Z.of_nat k))), Nat2Z.id by lia.
    pose proof (der_len_loop_spec k 0 (be_bytes k v ++ rest) (proj2 (Forall_app _ _ _) (conj Hbk Hb)) ltac:(lia)) as Hlp.
    cbv zeta in Hlp. rewrite length_app, length_be_bytes, firstn_exact, skipn_exact, be_value_bytes in Hlp by (try apply length_be_bytes; lia). specialize (Hlp ltac:(lia)).
    rewrite !(proj2 (Z.leb_le _ _)) in Hlp by lia. unfold Returns in Hlp.
    destruct (der_len_loop k 0 (be_bytes k v ++ rest)) as [[l' rest']|]; [|contradiction]. cbn in Hlp. destruct Hlp as [-> ->]. reflexivity.
Qed.

Lemma der_read_len_spec sig : is_bytes sig -> Z.of_nat (length sig) < 2 ^ 31 ->
  Returns (secp256k1_der_read_len sig) (fun '(l, rest) => l = -1 \/ (0 <= l /\ sig = der_length l ++ rest)).
Proof.
  intros Hb Hl. destruct sig as [|b1 sig]; [left; reflexivity|]. apply Forall_cons_iff in Hb. destruct Hb as [Hb1 Hb]. cbn [length] in Hl.
  cbn [secp256k1_der_read_len]. destruct (b1 =? 0xFF) eqn:EFF; [left; reflexivity|]. apply Z.eqb_neq in EFF. rewrite land_0x80 by exact Hb1. unfold is_byte in Hb1.
  destruct (Z.ltb_spec b1 128) as [Hs|Hs]; cbn [Z.eqb].
  - right. split; [lia|]. unfold der_length. rewrite (proj2 (Z.ltb_lt _ _) Hs). reflexivity.
  - destruct (b1 =? 128) eqn:E80; [left; reflexivity|]. apply Z.eqb_neq in E80. rewrite land_0x7F, (proj2 (Z.ltb_ge b1 128)) by (unfold is_byte; lia).
    destruct (Z.ltb_spec (Z.of_nat (length sig)) (b1 - 128)); [left; reflexivity|]. destruct sig as [|b sig]; [cbn [length] in *; lia|].
    destruct (b =? 0) eqn:Eb0; [left; reflexivity|]. apply Z.eqb_neq in Eb0. destruct (Z.ltb_spec 8 (b1 - 128)) as [H8|H8]; [left; reflexivity|].
    remember (Z.to_nat (b1 - 128)) as k eqn:Ek. assert (b1 = 128 + Z.of_nat k) by lia. subst b1. clear Ek. set (s := b :: sig) in *.
    pose proof (der_len_loop_spec k 0 s Hb ltac:(lia) ltac:(lia)) as Hlp. cbv zeta in Hlp.
    eapply Returns_mono; [exact Hlp|]. intros [l rest]. destruct (_ && _) eqn:EV; [|intros ->; left; reflexivity]. intros [-> ->]. right.
    apply andb_true_iff in EV. destruct EV as [EV _]. apply Z.leb_le in EV. set (V := 0 * 256 ^ Z.of_nat k + be_value (firstn k s)) in *. split; [lia|].
    assert (Hf : bytes_of_len k (firstn k s)) by (split; [rewrite length_firstn; lia | apply Forall_firstn, Hb]).
    assert (byte_length V = k) as EK.
    { apply byte_length_unique; [lia|]. subst V. destruct k as [|k]; [lia|]. subst s. cbn [firstn]. rewrite be_value_cons.
      assert (length (firstn k sig) = k) as -> by (rewrite length_firstn; cbn [length] in *; lia). apply Forall_cons_iff in Hb. destruct Hb as [Hb Hbs]. unfold is_byte in Hb.
      pose proof (be_value_range k (firstn k sig)) as Hr. specialize (Hr ltac:(split; [rewrite length_firstn; cbn [length] in *; lia | apply Forall_firstn, Hbs])).
      replace (Z.of_nat (S k) - 1) with (Z.of_nat k) by lia. rewrite Nat2Z.inj_succ, Z.pow_succ_r by lia. nia. }
    unfold der_length. rewrite (proj2 (Z.ltb_ge V 128)), EK by lia. subst V. rewrite Z.mul_0_l, Z.add_0_l, be_bytes_value by exact Hf.
    cbn [app]. rewrite firstn_skipn. reflexivity.
Qed.

(** ** Integers *)

Fixpoint drop_zeros (c : list Z) : list Z :=
  match c with
  | b :: c' => if b =? 0 then drop_zeros c' else c
  | [] => []
  end.

Lemma skip_zeros_spec c rest : skip_zeros (length c) (c ++ rest) = Some (length (drop_zeros c), drop_zeros c ++ rest).
Proof. induction c as [|b c IH]; [reflexivity|]. cbn [length skip_zeros app drop_zeros]. destruct (b =? 0); [exact IH | reflexivity]. Qed.

Lemma drop_zeros_value c : be_value (drop_zeros c) = be_value c.
Proof.
  induction c as [|b c IH]; [reflexivity|]. cbn [drop_zeros]. destruct (Z.eqb_spec b 0) as [->|]; [|reflexivity]. rewrite be_value_cons, IH. lia.
Qed.

Lemma drop_zeros_bytes c : is_bytes c -> is_bytes (drop_zeros c).
Proof. induction 1 as [|b c Hb Hc IH]; [constructor|]. cbn [drop_zeros]. destruct (b =? 0); [exact IH | constructor; assumption]. Qed.

Lemma drop_zeros_long c : is_bytes c -> (32 < length (drop_zeros c))%nat -> n <= be_value c.
Proof.
  intros Hc. rewrite <- drop_zeros_value. apply drop_zeros_bytes in Hc.
  assert (Hd : match drop_zeros c with b :: _ => b <> 0 | [] => True end).
  { clear. induction c as [|b c IH]; [exact I|]. cbn [drop_zeros]. destruct (Z.eqb_spec b 0) as [|Hb]; [exact IH | exact Hb]. }
  destruct (drop_zeros c) as [|b d]; [cbn [length]; lia|]. intros Hl. apply Forall_cons_iff in Hc. destruct Hc as [Hb Hc]. unfold is_byte in Hb.
  rewrite be_value_cons. pose proof (be_value_bound d Hc). assert (256 ^ 32 <= 256 ^ Z.of_nat (length d)) by (apply Z.pow_le_mono_r; cbn [length] in Hl; lia).
  assert (n < 256 ^ 32) by reflexivity. nia.
Qed.

Lemma be_value_pad k c : be_value (repeat 0 k ++ c) = be_value c.
Proof. induction k as [|k IH]; [reflexivity|]. cbn [repeat app]. rewrite be_value_cons, IH. lia. Qed.

Lemma bytes_pad k c : is_bytes c -> is_bytes (repeat 0 k ++ c).
Proof. intros Hc. apply Forall_app. split; [|exact Hc]. apply Forall_forall. intros x Hx. apply repeat_spec in Hx. subst x. unfold is_byte. lia. Qed.

Section Parse.
Context {SO : ScalarOps} {SL : ScalarLaws SO}.

(** The code after the length of an integer is read. *)
Definition integer_body (r : secp256k1_scalar) (rlen : Z) (sig : list Z) : checked (bool * secp256k1_scalar * list Z) :=
  match sig with
  | [] => None
  | b0 :: sig1 =>
      let b1 := hd 0 sig1 in
      if (b0 =? 0x00) && (1 <? rlen) && (Z.land b1 0x80 =? 0x00) then ret (false, r, sig) else
      if (b0 =? 0xFF) && (1 <? rlen) && (Z.land b1 0x80 =? 0x80) then ret (false, r, sig) else
      let overflow := Z.land b0 0x80 =? 0x80 in
      ' (rlen, sig) <- skip_zeros (Z.to_nat rlen) sig;;
      let overflow := if (32 <? rlen)%nat then true else overflow in
      ' (overflow, r) <- (if overflow then ret (true, r) else
                            ' (o, r) <- secp256k1_scalar_set_b32 (repeat 0 (32 - rlen) ++ firstn rlen sig);;
                            ret (negb (o =? 0), r));;
      let r := if overflow : bool then secp256k1_scalar_set_int 0 else r in
      ret (true, r, skipn rlen sig)
  end.

(** The value part of the body. *)
Lemma integer_value_spec r c rest : is_bytes c -> is_bytes rest -> c <> [] ->
  let d := drop_zeros c in
  Returns (' (overflow, r) <- (if (if (32 <? length d)%nat then true else Z.land (hd 0 c) 0x80 =? 0x80) then ret (true, r) else
                            ' (o, r) <- secp256k1_scalar_set_b32 (repeat 0 (32 - length d) ++ firstn (length d) (d ++ rest));;
                            ret (negb (o =? 0), r));;
      let r := if overflow : bool then secp256k1_scalar_set_int 0 else r in
      ret (true, r, skipn (length d) (d ++ rest)))
    (fun '(ok, r', rest') => ok = true /\ rest' = rest /\ sc_wf r' /\ sc_Z r' = der_scalar c).
Proof.
  intros Hc Hr Hne d. assert (Hd : is_bytes d) by (apply drop_zeros_bytes, Hc). assert (Ev : be_value d = be_value c) by apply drop_zeros_value.
  rewrite firstn_exact, skipn_exact by reflexivity. pose proof (sc_set_int_law 0 ltac:(lia)) as [H0 E0]. pose proof (be_value_bound c Hc) as Hcv.
  assert (Hh : is_byte (hd 0 c)) by (destruct Hc; [contradiction | assumption]). rewrite land_0x80 by exact Hh.
  unfold der_scalar, der_integer. cbv zeta. destruct (Nat.ltb_spec 32 (length d)) as [Hl|Hl].
  - apply drop_zeros_long in Hl; [|exact Hc]. cbn. split; [reflexivity|]. split; [reflexivity|]. split; [exact H0|]. rewrite E0.
    destruct (0x80 <=? hd 0 c); [rewrite (proj2 (Z.leb_gt 0 _)) by lia; reflexivity|].
    rewrite (proj2 (Z.ltb_ge (be_value c - 0) n)) by lia. rewrite andb_false_r. reflexivity.
  - destruct (Z.ltb_spec (hd 0 c) 128) as [Hs|Hs]; cbn [Z.eqb].
    + rewrite (proj2 (Z.leb_gt 128 _)), Z.sub_0_r by lia. assert (Hb : bytes_of_len 32 (repeat 0 (32 - length d) ++ d))
        by (split; [rewrite length_app, repeat_length; lia | apply bytes_pad, Hd]).
      eapply Returns_bind with (P := fun '(o, r) => o = (n <=? be_value c) /\ sc_wf r /\ sc_Z r = be_value c mod n).
      * eapply Returns_bind; [exact (sc_set_b32_law _ Hb)|]. intros [o r1] (Ho & H1 & E1). rewrite be_value_pad, Ev in *. apply Returns_ret.
        subst o. split; [destruct (n <=? be_value c); reflexivity | auto].
      * intros [o r1] (-> & H1 & E1). apply Returns_ret. split; [reflexivity|]. split; [reflexivity|].
        rewrite (proj2 (Z.leb_le 0 (be_value c))) by lia. rewrite Z.leb_antisym. cbn [andb].
        destruct (Z.ltb_spec (be_value c) n); cbn [negb]; [split; [exact H1|]; rewrite E1; apply Z.mod_small; lia | split; [exact H0 | exact E0]].
    + apply Returns_ret. split; [reflexivity|]. split; [reflexivity|]. split; [exact H0|]. rewrite E0.
      rewrite (proj2 (Z.leb_le 128 _)), (proj2 (Z.leb_gt 0 _)) by lia. reflexivity.
Qed.

Lemma minimal_test b0 b1 c rest : is_byte b1 ->
  let len := Z.of_nat (length (b0 :: b1 :: c)) in
  (b0 =? 0x00) && (1 <? len) && (Z.land (hd 0 (b1 :: c ++ rest)) 0x80 =? 0x00) = (b0 =? 0) && (b1 <? 0x80) /\
  (b0 =? 0xFF) && (1 <? len) && (Z.land (hd 0 (b1 :: c ++ rest)) 0x80 =? 0x80) = (b0 =? 0xFF) && (0x80 <=? b1).
Proof.
  intros Hb len. subst len. cbn [length hd]. rewrite (proj2 (Z.ltb_lt 1 _)) by lia. rewrite land_0x80, !andb_true_r, Z.leb_antisym by exact Hb.
  destruct (b1 <? 128); cbn [Z.eqb negb Pos.eqb]; auto.
Qed.

Lemma integer_body_spec r c rest : is_bytes c -> is_bytes rest -> c <> [] ->
  Returns (integer_body r (Z.of_nat (length c)) (c ++ rest)) (fun '(ok, r', rest') =>
    (ok = true <-> der_minimal c) /\ (ok = true -> rest' = rest /\ sc_wf r' /\ sc_Z r' = der_scalar c)).
Proof.
  intros Hc Hr Hne. assert (HV : der_minimal c -> Returns (integer_body r (Z.of_nat (length c)) (c ++ rest)) (fun '(ok, r', rest') =>
    ok = true /\ rest' = rest /\ sc_wf r' /\ sc_Z r' = der_scalar c)).
  { intros Hm. pose proof (integer_value_spec r c rest Hc Hr Hne) as HV. cbv zeta in HV. unfold integer_body. rewrite Nat2Z.id, skip_zeros_spec.
    destruct c as [|b0 [|b1 c]]; [contradiction| |].
    - cbn [app hd length] in *. change (1 <? Z.of_nat 1) with false. rewrite !andb_false_r. exact HV.
    - apply Forall_cons_iff in Hc. destruct Hc as [_ Hc]. apply Forall_cons_iff in Hc. destruct (minimal_test b0 b1 c rest (proj1 Hc)) as [T1 T2]. cbn [app]. rewrite T1, T2.
      destruct Hm as [Hm1 Hm2]. replace ((b0 =? 0) && (b1 <? 128)) with false by (symmetry; apply andb_false_iff; lia).
      replace ((b0 =? 255) && (128 <=? b1)) with false by (symmetry; apply andb_false_iff; lia). exact HV. }
  destruct c as [|b0 [|b1 c]]; [contradiction| |].
  - eapply Returns_mono; [exact (HV I)|]. intros [[ok r'] rest'] (-> & HQ). split; [split; [constructor | reflexivity] | intros _; exact HQ].
  - destruct (((b0 =? 0) && (b1 <? 128)) || ((b0 =? 255) && (128 <=? b1))) eqn:ET.
    + clear HV. apply Forall_cons_iff in Hc. destruct Hc as [_ Hc]. apply Forall_cons_iff in Hc. destruct (minimal_test b0 b1 c rest (proj1 Hc)) as [T1 T2].
      unfold integer_body. cbn [app]. rewrite T1, T2. apply orb_true_iff in ET. unfold der_minimal. rewrite !andb_true_iff, !Z.eqb_eq, Z.ltb_lt, Z.leb_le in ET.
      destruct ((b0 =? 0) && (b1 <? 128)) eqn:E1; [cbn; split; [split; [discriminate | tauto] | discriminate]|].
      apply andb_false_iff in E1. rewrite Z.eqb_neq, Z.ltb_ge in E1. replace ((b0 =? 255) && (128 <=? b1)) with true by (symmetry; apply andb_true_iff; lia).
      cbn. split; [split; [discriminate | lia] | discriminate].
    + apply orb_false_iff in ET. rewrite !andb_false_iff, !Z.eqb_neq, Z.ltb_ge, Z.leb_gt in ET. assert (Hm : der_minimal (b0 :: b1 :: c)) by (cbn; lia).
      eapply Returns_mono; [exact (HV Hm)|]. intros [[ok r'] rest'] (-> & HQ). split; [split; [intros _; exact Hm | reflexivity] | intros _; exact HQ].
Qed.

Lemma der_parse_integer_spec r sig : is_bytes sig -> Z.of_nat (length sig) < 2 ^ 31 ->
  Returns (secp256k1_der_parse_integer r sig) (fun '(ok, r', rest) => ok = true -> exists c,
    is_bytes c /\ der_minimal c /\ sig = der_tlv 0x02 c ++ rest /\ sc_wf r' /\ sc_Z r' = der_scalar c).
Proof.
  intros Hb Hl. destruct sig as [|tag sig]; [discriminate|]. cbn [secp256k1_der_parse_integer]. destruct (Z.eqb_spec tag 2) as [->|]; [|discriminate].
  apply Forall_cons_iff in Hb. destruct Hb as [_ Hb]. cbn [length negb] in *.
  eapply Returns_bind; [exact (der_read_len_spec sig Hb ltac:(lia))|]. intros [l s] Hs. cbv beta iota.
  destruct ((l <=? 0) || (Z.of_nat (length s) <? l)) eqn:EL; [discriminate|]. apply orb_false_iff in EL. rewrite Z.leb_gt, Z.ltb_ge in EL.
  destruct Hs as [->|[H0 ->]]; [lia|]. apply Forall_app in Hb. destruct Hb as [_ Hb].
  set (c := firstn (Z.to_nat l) s). assert (Hc : length c = Z.to_nat l) by (unfold c; rewrite length_firstn; lia).
  assert (Es : s = c ++ skipn (Z.to_nat l) s) by (symmetry; apply firstn_skipn). set (rest := skipn (Z.to_nat l) s) in *. clearbody c rest. subst s.
  apply Forall_app in Hb. destruct Hb as [Hbc Hbr]. change (Returns (integer_body r l (c ++ rest)) (fun '(ok, r', rest0) => ok = true -> exists c0,
    is_bytes c0 /\ der_minimal c0 /\ 2 :: der_length l ++ c ++ rest = der_tlv 2 c0 ++ rest0 /\ sc_wf r' /\ sc_Z r' = der_scalar c0)).
  assert (l = Z.of_nat (length c)) as -> by lia. eapply Returns_mono; [apply integer_body_spec; [exact Hbc | exact Hbr | intros ->; cbn [length] in *; lia]|].
  intros [[ok r'] rest'] [Hm HQ] ->. destruct (HQ eq_refl) as (-> & Hw & Ev). exists c. split; [exact Hbc|]. split; [apply Hm; reflexivity|].
  split; [|auto]. unfold der_tlv. cbn [app]. rewrite <- app_assoc. reflexivity.
Qed.

Lemma der_parse_integer_encoded r c rest : is_bytes c -> der_minimal c -> is_bytes rest -> Z.of_nat (length (der_tlv 0x02 c ++ rest)) < 2 ^ 31 ->
  Returns (secp256k1_der_parse_integer r (der_tlv 0x02 c ++ rest)) (fun '(ok, r', rest') =>
    ok = true /\ rest' = rest /\ sc_wf r' /\ sc_Z r' = der_scalar c).
Proof.
  intros Hc Hm Hr Hl. unfold der_tlv in *. cbn [app length] in Hl. rewrite <- app_assoc in Hl. cbn [app secp256k1_der_parse_integer]. rewrite <- app_assoc.
  change (2 =? 2) with true. cbn [negb]. rewrite !length_app in Hl.
  rewrite der_read_len_encoded; [|lia|rewrite length_app; lia|apply Forall_app; auto|rewrite !length_app; lia].
  cbn [bind]. assert (0 < length c)%nat by (destruct c; [contradiction | cbn [length]; lia]). rewrite length_app, (proj2 (Z.leb_gt _ 0)), (proj2 (Z.ltb_ge _ _)) by lia. cbn [orb].
  change (Returns (integer_body r (Z.of_nat (length c)) (c ++ rest)) (fun '(ok, r', rest') => ok = true /\ rest' = rest /\ sc_wf r' /\ sc_Z r' = der_scalar c)).
  eapply Returns_mono; [apply integer_body_spec; [exact Hc | exact Hr | intros ->; contradiction]|]. intros [[ok r'] rest'] [Hok HQ].
  assert (ok = true) by (apply Hok, Hm). auto.
Qed.

(** ** Signatures *)

Lemma is_bytes_tlv tag c rest : is_bytes (der_tlv tag c ++ rest) -> is_bytes c /\ is_bytes rest.
Proof. unfold der_tlv. cbn [app]. rewrite <- app_assoc. intros H. apply Forall_cons_iff in H. destruct H as [_ H]. apply Forall_app in H. destruct H as [_ H]. apply Forall_app in H. exact H. Qed.

Lemma length_tlv tag c rest : (length rest < length (der_tlv tag c ++ rest))%nat.
Proof. unfold der_tlv. cbn [app length]. rewrite !length_app. lia. Qed.

Lemma ecdsa_sig_parse_spec rr rs sig : is_bytes sig -> Z.of_nat (length sig) < 2 ^ 31 ->
  Returns (secp256k1_ecdsa_sig_parse rr rs sig) (fun '(ok, r, s) => ok = true -> exists c d,
    (is_bytes c /\ der_minimal c) /\ (is_bytes d /\ der_minimal d) /\ sig = der_signature c d /\
    sc_wf r /\ sc_Z r = der_scalar c /\ sc_wf s /\ sc_Z s = der_scalar d).
Proof.
  intros Hb Hl. destruct sig as [|tag sig]; [discriminate|]. cbn [secp256k1_ecdsa_sig_parse]. destruct (Z.eqb_spec tag 0x30) as [->|]; [|discriminate].
  apply Forall_cons_iff in Hb. destruct Hb as [_ Hb]. cbn [length negb] in *.
  eapply Returns_bind; [exact (der_read_len_spec sig Hb ltac:(lia))|]. intros [l s] Hs. cbv beta iota.
  destruct ((l <? 0) || (Z.of_nat (length s) <? l)) eqn:EL; [discriminate|]. apply orb_false_iff in EL. rewrite !Z.ltb_ge in EL.
  destruct Hs as [->|[H0 ->]]; [lia|]. destruct (Z.eqb_spec l (Z.of_nat (length s))) as [->|]; [|discriminate]. cbn [negb].
  rewrite length_app in Hl. apply Forall_app in Hb. destruct Hb as [_ Hb].
  eapply Returns_bind; [exact (der_parse_integer_spec rr s Hb ltac:(lia))|]. intros [[ok r] s1] H1. destruct ok; [|discriminate]. cbn [negb].
  destruct (H1 eq_refl) as (c & Hc & Hmc & -> & Hwr & Er). destruct (is_bytes_tlv _ _ _ Hb) as [_ Hb1]. pose proof (length_tlv 2 c s1).
  eapply Returns_bind; [exact (der_parse_integer_spec rs s1 Hb1 ltac:(lia))|]. intros [[ok s'] s2] H2. destruct ok; [|discriminate]. cbn [negb].
  destruct (H2 eq_refl) as (d & Hd & Hmd & -> & Hws & Es). destruct s2; [|discriminate]. intros _. exists c, d. unfold der_signature. rewrite app_nil_r.
  repeat split; auto.
Qed.

Lemma ecdsa_sig_parse_encoded rr rs c d : is_bytes c -> der_minimal c -> is_bytes d -> der_minimal d -> Z.of_nat (length (der_signature c d)) < 2 ^ 31 ->
  Returns (secp256k1_ecdsa_sig_parse rr rs (der_signature c d)) (fun '(ok, r, s) =>
    ok = true /\ sc_wf r /\ sc_Z r = der_scalar c /\ sc_wf s /\ sc_Z s = der_scalar d).
Proof.
  intros Hc Hmc Hd Hmd Hl. unfold der_signature in *. set (body := der_tlv 2 c ++ der_tlv 2 d) in *. unfold der_tlv in Hl at 1. unfold der_tlv at 1. cbn [length] in Hl. rewrite length_app in Hl.
  assert (Hlen : forall x, is_bytes x -> Z.of_nat (length x) < 2 ^ 31 -> is_bytes (der_length (Z.of_nat (length x)))).
  { intros x _ Hx. unfold der_length. destruct (Z.ltb_spec (Z.of_nat (length x)) 128); [repeat constructor; unfold is_byte; lia|].
    constructor; [|apply be_bytes_wf]. destruct (byte_length_bounds (Z.of_nat (length x)) ltac:(lia)) as [_ Hk]. unfold is_byte.
    assert (byte_length (Z.of_nat (length x)) <= 4)%nat; [|lia]. apply Nat.nlt_ge. intros H4.
    assert (256 ^ 4 <= 256 ^ (Z.of_nat (byte_length (Z.of_nat (length x))) - 1)) by (apply Z.pow_le_mono_r; lia). lia. }
  assert (Ht : forall x, is_bytes x -> Z.of_nat (length x) < 2 ^ 31 -> is_bytes (der_tlv 2 x)).
  { intros x Hx Hlx. unfold der_tlv. constructor; [unfold is_byte; lia|]. apply Forall_app. split; [apply Hlen; assumption | exact Hx]. }
  assert (Hlb : (length c < length body)%nat /\ (length (der_tlv 2 d) < length body)%nat /\ (length d < length body)%nat).
  { unfold body. rewrite length_app. pose proof (length_tlv 2 c (der_tlv 2 d)). rewrite length_app in *. unfold der_tlv. cbn [length]. rewrite !length_app. lia. }
  cbn [secp256k1_ecdsa_sig_parse]. change (0x30 =? 0x30) with true. cbn [negb].
  rewrite der_read_len_encoded; [|lia|lia|unfold body; apply Forall_app; split; apply Ht; assumption || lia|rewrite length_app; lia].
  cbn [bind]. rewrite (proj2 (Z.ltb_ge _ 0)), Z.ltb_irrefl, Z.eqb_refl by lia. cbn [orb negb].
  eapply Returns_bind; [apply der_parse_integer_encoded; [exact Hc | exact Hmc | apply Ht; [exact Hd | lia] | fold body; lia]|].
  intros [[ok r] s1] (-> & -> & Hwr & Er). cbn [negb]. eapply Returns_bind.
  - rewrite <- (app_nil_r (der_tlv 2 d)). apply der_parse_integer_encoded; [exact Hd | exact Hmd | constructor | rewrite app_nil_r; lia].
  - intros [[ok s] s2] (-> & -> & Hws & Es). cbn. auto.
Qed.

End Parse.

(** ** Serializing *)

Lemma strip_zeros_spec c : is_bytes c -> c <> [] -> hd 0 c < 0x80 ->
  let d := strip_zeros c in
  is_bytes d /\ der_minimal d /\ hd 0 d < 0x80 /\ be_value d = be_value c /\ (1 <= length d <= length c)%nat.
Proof.
  intros Hb Hne Hh. cbv zeta. induction c as [|b0 c IH]; [contradiction|]. apply Forall_cons_iff in Hb. destruct Hb as [Hb0 Hb]. unfold is_byte in Hb0.
  destruct c as [|b1 c]; [cbn [strip_zeros hd length] in *; split; [repeat constructor; unfold is_byte; lia|]; split; [exact I|]; repeat split; lia|].
  change (strip_zeros (b0 :: b1 :: c)) with (if (b0 =? 0) && (b1 <? 0x80) then strip_zeros (b1 :: c) else b0 :: b1 :: c).
  destruct ((b0 =? 0) && (b1 <? 128)) eqn:E.
  - apply andb_true_iff in E. rewrite Z.eqb_eq, Z.ltb_lt in E. destruct E as [-> E1]. destruct (IH Hb ltac:(discriminate) E1) as (H1 & H2 & H3 & H4 & H5).
    split; [exact H1|]. split; [exact H2|]. split; [exact H3|]. split; [rewrite H4, (be_value_cons 0); lia | cbn [length] in *; lia].
  - cbn [hd] in Hh. apply andb_false_iff in E. rewrite Z.eqb_neq, Z.ltb_ge in E. split; [constructor; assumption|]. split; [cbn; lia|]. cbn [hd length]. repeat split; lia.
Qed.

Lemma strip_zeros_pad k c : der_minimal c -> hd 0 c < 0x80 -> is_bytes c -> strip_zeros (repeat 0 k ++ c) = c.
Proof.
  intros Hm Hh Hb. induction k as [|k IH].
  - destruct c as [|b0 [|b1 c]]; [contradiction | reflexivity|]. cbn [repeat app strip_zeros]. destruct Hm as [Hm _].
    replace ((b0 =? 0) && (b1 <? 128)) with false by (symmetry; apply andb_false_iff; lia). reflexivity.
  - rewrite <- IH at 2. clear IH. destruct k as [|k]; [|reflexivity]. destruct c as [|b0 c]; [contradiction|]. cbn [repeat app strip_zeros hd] in *.
    rewrite (proj2 (Z.ltb_lt b0 128)) by lia. reflexivity.
Qed.

Lemma der_content_spec v : 0 <= v < n ->
  let c := der_content v in
  is_bytes c /\ der_minimal c /\ der_integer c = v /\ der_scalar c = v /\ (1 <= length c <= 33)%nat.
Proof.
  intros Hv. cbv zeta. assert (n < 256 ^ 32) by reflexivity. assert (E : be_bytes 33 v = 0 :: be_bytes 32 v).
  { rewrite <- (be_bytes_value 33 (0 :: be_bytes 32 v)).
    - rewrite be_value_cons, be_value_bytes by (change (Z.of_nat 32) with 32; lia). f_equal.
    - destruct (be_bytes_wf 32 v) as [Hl Hb]. split; [cbn [length]; rewrite Hl; reflexivity | constructor; [unfold is_byte; lia | exact Hb]]. }
  unfold der_content. destruct (be_bytes_wf 33 v) as [Hl Hb].
  destruct (strip_zeros_spec (be_bytes 33 v) Hb ltac:(rewrite E; discriminate) ltac:(rewrite E; cbn [hd]; lia)) as (H1 & H2 & H3 & H4 & H5).
  rewrite Hl in H5. rewrite be_value_bytes in H4 by (change (256 ^ Z.of_nat 33) with (256 ^ 33); assert (256 ^ 32 < 256 ^ 33) by reflexivity; lia).
  assert (EI : der_integer (strip_zeros (be_bytes 33 v)) = v) by (unfold der_integer; rewrite (proj2 (Z.leb_gt 128 _)), H4 by lia; lia).
  split; [exact H1|]. split; [exact H2|]. split; [exact EI|]. split; [|exact H5]. unfold der_scalar. rewrite EI.
  rewrite (proj2 (Z.leb_le 0 v)), (proj2 (Z.ltb_lt v n)) by lia. reflexivity.
Qed.

(** An integer in range has one encoding. *)
Lemma der_content_unique c : is_bytes c -> der_minimal c -> 0 <= der_integer c < n -> c = der_content (der_integer c).
Proof.
  intros Hb Hm Hv. assert (Hh : hd 0 c < 128 /\ der_integer c = be_value c).
  { unfold der_integer in *. pose proof (be_value_bound c Hb). destruct (Z.leb_spec 128 (hd 0 c)); lia. }
  destruct Hh as [Hh EI]. rewrite EI in *. assert (Hl : (length c <= 33)%nat).
  { apply Nat.nlt_ge. intros Hl. assert (256 ^ 32 <= be_value c); [|assert (n < 256 ^ 32) by reflexivity; lia].
    destruct c as [|b0 [|b1 c]]; [contradiction | cbn [length] in Hl; lia|]. destruct Hm as [Hm _]. apply Forall_cons_iff in Hb. destruct Hb as [Hb0 Hb].
    apply Forall_cons_iff in Hb. destruct Hb as [Hb1 Hb]. unfold is_byte in *. rewrite !be_value_cons. pose proof (be_value_bound c Hb).
    cbn [length] in *. rewrite Nat2Z.inj_succ, Z.pow_succ_r by lia. assert (256 ^ 32 <= 256 ^ Z.of_nat (length c)) by (apply Z.pow_le_mono_r; lia).
    assert (b0 = 0 /\ 128 <= b1 \/ 1 <= b0) as [[? ?]|?] by lia; nia. }
  unfold der_content. rewrite <- (strip_zeros_pad (33 - length c) c Hm Hh Hb) at 1. f_equal. symmetry.
  rewrite <- (be_value_pad (33 - length c) c). apply be_bytes_value. split; [rewrite length_app, repeat_length; lia | apply bytes_pad, Hb].
Qed.

(** The encoding of a signature. *)
Definition der_encode (r s : Z) : list Z := der_signature (der_content r) (der_content s).

Lemma der_encode_short c d : (length c <= 33)%nat -> (length d <= 33)%nat ->
  der_signature c d = [0x30; 4 + Z.of_nat (length d) + Z.of_nat (length c); 0x02; Z.of_nat (length c)] ++ c ++ [0x02; Z.of_nat (length d)] ++ d.
Proof.
  intros Hc Hd. unfold der_signature. assert (E : forall tag x, (length x < 128)%nat -> der_tlv tag x = tag :: Z.of_nat (length x) :: x).
  { intros tag x Hx. unfold der_tlv, der_length. rewrite (proj2 (Z.ltb_lt _ 128)) by lia. reflexivity. }
  rewrite (E 2 c), (E 2 d) by lia. rewrite E by (cbn [app length]; rewrite length_app; cbn [length]; lia). cbn [app length]. rewrite length_app. cbn [length].
  do 2 f_equal. lia.
Qed.

Lemma length_der_signature c d : (length c <= 33)%nat -> (length d <= 33)%nat -> length (der_signature c d) = (6 + length d + length c)%nat.
Proof. intros Hc Hd. rewrite der_encode_short by assumption. rewrite !length_app. cbn [length]. lia. Qed.

Section Serialize.
Context {SO : ScalarOps} {SL : ScalarLaws SO}.

Lemma ecdsa_sig_serialize_spec sig size r s : sc_wf r -> sc_wf s -> 0 <= size <= Z.of_nat (length sig) ->
  let e := der_encode (sc_Z r) (sc_Z s) in
  Returns (secp256k1_ecdsa_sig_serialize sig size r s) (fun '(ok, size', sig') => size' = Z.of_nat (length e) /\
    if size <? Z.of_nat (length e) then ok = false /\ sig' = sig else ok = true /\ sig' = e ++ skipn (length e) sig).
Proof.
  intros Hr Hs Hsize. cbv zeta. pose proof (sc_range r Hr) as Rr. pose proof (sc_range s Hs) as Rs.
  assert (EC : forall a, sc_wf a -> strip_zeros (0 :: secp256k1_scalar_get_b32 a) = der_content (sc_Z a)).
  { intros a Ha. pose proof (sc_range a Ha). rewrite sc_get_b32_law by exact Ha. unfold der_content. f_equal.
    assert (n < 256 ^ 32) by reflexivity. rewrite <- (be_bytes_value 33 (0 :: be_bytes 32 (sc_Z a))).
    - rewrite be_value_cons, be_value_bytes by (change (Z.of_nat 32) with 32; lia). reflexivity.
    - destruct (be_bytes_wf 32 (sc_Z a)) as [Hl Hb]. split; [cbn [length]; rewrite Hl; reflexivity | constructor; [unfold is_byte; lia | exact Hb]]. }
  unfold secp256k1_ecdsa_sig_serialize. rewrite !EC by assumption. destruct (der_content_spec _ Rr) as (_ & _ & _ & _ & Lr).
  destruct (der_content_spec _ Rs) as (_ & _ & _ & _ & Ls). unfold der_encode. rewrite length_der_signature by lia.
  set (c := der_content (sc_Z r)) in *. set (d := der_content (sc_Z s)) in *. clearbody c d.
  replace (Z.of_nat (6 + length d + length c)) with (6 + Z.of_nat (length d) + Z.of_nat (length c)) by lia.
  destruct (Z.ltb_spec size (6 + Z.of_nat (length d) + Z.of_nat (length c))) as [Hlt|Hge]; [cbn; auto|].
  unfold u8. rewrite !Z.mod_small by lia. rewrite <- der_encode_short by lia. eapply Returns_bind.
  - apply (store_ok _ _ _ (fun x => x = der_signature c d ++ skipn (length (der_signature c d)) sig)); [rewrite length_der_signature by lia; lia | reflexivity].
  - intros x ->. rewrite length_der_signature by lia. apply Returns_ret. auto.
Qed.

End Serialize.
