(* ===== verification/Signatures.v ===== *)
(** * Reference: ECDSA on the curve

    Multiples of a point by residues modulo the order, and the signature scheme the
    library implements: the verification equation, signing and the recovery of a
    public key, with the facts that relate them. *)

From Stdlib Require Import ZArith Lia List Bool.
From S2P Require Import Prelude Modulus Bytes Field FieldImpl Curve CurveGroup CurveOrder Group GroupConv.
Import ListNotations.

#[local] Open Scope Z_scope.

(** [k P] for a residue [k]. *)
Definition fmul (k : Fn) (P : point) : point := pmul (Zmod.to_Z k) P.

(** An abscissa as a residue modulo the order. *)
Definition x_residue (x : Fp) : Fn := toFn (Zmod.to_Z x).

(** The signature [(r, s)] of the message [m] is valid for the public key [Q]. *)
Definition ecdsa_valid (Q : point) (m r s : Fn) : Prop :=
  r <> Zmod.zero /\ s <> Zmod.zero /\
  exists x y, padd (fmul (Zmod.inv s * r)%Zmod Q) (fmul (Zmod.inv s * m)%Zmod G) = Affine x y /\ x_residue x = r.

(** A signature in the form with the smaller [s]. *)
Definition low_s (s : Fn) : Prop := Zmod.to_Z s <= n / 2.

Definition lower_s (s : Fn) : Fn := if n / 2 <? Zmod.to_Z s then (- s)%Zmod else s.

(** The signature of [m] with the key [d] and the nonce [k], and its recovery id;
    [None] when the nonce has to be rejected. *)
Definition ecdsa_sign_with (d m k : Fn) : option (Fn * Fn * Z) :=
  match fmul k G with
  | Infinity => None
  | Affine x y =>
      let r := x_residue x in
      let s := (Zmod.inv k * (r * d + m))%Zmod in
      if Zmod.eqb r Zmod.zero || Zmod.eqb s Zmod.zero then None
      else Some (r, lower_s s, Z.lxor (Z.lor (if n <=? Zmod.to_Z x then 2 else 0) (Z.b2z (Z.odd (Zmod.to_Z y)))) (Z.b2z (n / 2 <? Zmod.to_Z s)))
  end.

(** The signature with the first number of a sequence that is a usable nonce. *)
Fixpoint first_signature (d m : Fn) (nonces : list Z) : option (Fn * Fn * Z) :=
  match nonces with
  | [] => None
  | v :: nonces' =>
      if (0 <? v) && (v <? n) then
        match ecdsa_sign_with d m (toFn v) with
        | Some sig => Some sig
        | None => first_signature d m nonces'
        end
      else first_signature d m nonces'
  end.

(** The point that a recovery id selects, and the key recovered from it. *)
Definition recid_point (r : Fn) (recid : Z) (R : point) : Prop :=
  exists x y, R = Affine x y /\ on_curve R /\ Zmod.to_Z x = Zmod.to_Z r + (if Z.land recid 2 =? 0 then 0 else n) /\
    Z.odd (Zmod.to_Z y) = negb (Z.land recid 1 =? 0).

Definition recovered_key (R : point) (m r s : Fn) : point :=
  padd (fmul (Zmod.inv r * s)%Zmod R) (fmul (- (Zmod.inv r * m))%Zmod G).

(** ** Multiples by residues *)

Lemma pmul_toFn k P : on_curve P -> fmul (toFn k) P = pmul k P.
Proof. intros H. unfold fmul. rewrite to_Z_toFn. apply pmul_mod, H. Qed.

Lemma fmul_on_curve k P : on_curve P -> on_curve (fmul k P).
Proof. apply pmul_on_curve. Qed.

#[export] Hint Resolve fmul_on_curve : curve.

Lemma fmul_add a b P : on_curve P -> fmul (a + b)%Zmod P = padd (fmul a P) (fmul b P).
Proof.
  intros H. rewrite <- (toFn_to_Z a), <- (toFn_to_Z b), <- toFn_add, !pmul_toFn by exact H. apply pmul_add, H.
Qed.

Lemma fmul_mul a b P : on_curve P -> fmul (a * b)%Zmod P = fmul a (fmul b P).
Proof.
  intros H. rewrite <- (toFn_to_Z a), <- (toFn_to_Z b), <- toFn_mul, !pmul_toFn by auto with curve. apply pmul_mul, H.
Qed.

Lemma fmul_opp a P : on_curve P -> fmul (- a)%Zmod P = popp (fmul a P).
Proof. intros H. rewrite <- (toFn_to_Z a), <- toFn_opp, !pmul_toFn by exact H. apply pmul_opp, H. Qed.

Lemma fmul_padd a P Q : on_curve P -> on_curve Q -> fmul a (padd P Q) = padd (fmul a P) (fmul a Q).
Proof. apply pmul_padd. Qed.

Lemma fmul_1 P : on_curve P -> fmul Zmod.one P = P.
Proof. intros H. change Zmod.one with (toFn 1). rewrite pmul_toFn by exact H. apply pmul_1. Qed.

Lemma fmul_zero P : fmul Zmod.zero P = Infinity.
Proof. reflexivity. Qed.

Lemma to_Z_nonzero (k : Fn) : k <> Zmod.zero <-> 0 < Zmod.to_Z k.
Proof.
  pose proof (Fn_range k). split.
  - intros Hk. enough (Zmod.to_Z k <> 0) by lia. intros E. apply Hk, Zmod.to_Z_inj. rewrite E. reflexivity.
  - intros Hk ->. change (Zmod.to_Z Zmod.zero) with 0 in Hk. lia.
Qed.

Lemma fmul_finite k P : on_curve P -> P <> Infinity -> k <> Zmod.zero -> fmul k P <> Infinity.
Proof. intros H HP Hk. apply pmul_finite; auto. pose proof (Fn_range k). apply to_Z_nonzero in Hk. lia. Qed.

Lemma fmul_G_inj a b : fmul a G = fmul b G -> a = b.
Proof.
  unfold fmul. rewrite pmul_G_inj. intros [q Hq]. rewrite <- (toFn_to_Z a), <- (toFn_to_Z b). apply toFn_eq.
  replace (Zmod.to_Z a) with (Zmod.to_Z b + q * n) by lia. apply Z_mod_plus_full.
Qed.

(** Every point of the curve is the public key of one secret. *)
Lemma fmul_generated P : on_curve P -> exists d, P = fmul d G.
Proof. intros H. destruct (all_generated P H) as [k ->]. exists (toFn k). rewrite pmul_toFn by auto with curve. reflexivity. Qed.

(** ** Signatures *)

Lemma popp_affine P x y : popp P = Affine x y -> P = Affine x (- y)%Zmod.
Proof. intros E. rewrite <- (popp_involutive P), E. reflexivity. Qed.

Lemma inv_nonzero_n (x : Fn) : x <> Zmod.zero -> (Zmod.inv x * x)%Zmod = Zmod.one.
Proof. intros H. field. exact H. Qed.

Lemma Fn_inv_nonzero (x : Fn) : x <> Zmod.zero -> Zmod.inv x <> Zmod.zero.
Proof. intros H E. pose proof (inv_nonzero_n x H) as E1. rewrite E in E1. assert (Zmod.zero = Zmod.one :> Fn) by (rewrite <- E1; ring). discriminate. Qed.

Lemma Fn_mul_nonzero (x y : Fn) : x <> Zmod.zero -> y <> Zmod.zero -> (x * y)%Zmod <> Zmod.zero.
Proof.
  intros Hx Hy E. apply Hy. replace y with (Zmod.inv x * (x * y))%Zmod by (field; exact Hx). rewrite E. ring.
Qed.

Lemma opp_nonzero (x : Fn) : x <> Zmod.zero -> (- x)%Zmod <> Zmod.zero.
Proof. intros H E. apply H. replace x with (- - x)%Zmod by ring. rewrite E. reflexivity. Qed.

Lemma lower_s_nonzero s : s <> Zmod.zero -> lower_s s <> Zmod.zero.
Proof. intros H. unfold lower_s. destruct (_ <? _); [apply opp_nonzero, H | exact H]. Qed.

Lemma lower_s_low s : low_s (lower_s s).
Proof.
  unfold low_s, lower_s. destruct (Z.ltb_spec (n / 2) (Zmod.to_Z s)) as [H|H]; [|exact H].
  rewrite <- (toFn_to_Z s), <- toFn_opp, to_Z_toFn. pose proof (Fn_range s).
  pose proof (Z.div_mod n 2 ltac:(lia)). pose proof (Z.mod_pos_bound n 2 ltac:(lia)). assert (0 < n) by reflexivity.
  replace ((- Zmod.to_Z s) mod n) with (n - Zmod.to_Z s); [lia|]. apply Z.mod_unique with (-1); lia.
Qed.

(** The equation on [s] and on [-s] have opposite points, hence one abscissa. *)
Lemma ecdsa_valid_opp Q m r s : on_curve Q -> ecdsa_valid Q m r s -> ecdsa_valid Q m r (- s)%Zmod.
Proof.
  intros HQ (Hr & Hs & x & y & E & Ex). split; [exact Hr|]. split; [apply opp_nonzero, Hs|]. exists x, (- y)%Zmod. split; [|exact Ex].
  replace (Zmod.inv (- s) * r)%Zmod with (- (Zmod.inv s * r))%Zmod by (field; repeat split; auto using opp_nonzero).
  replace (Zmod.inv (- s) * m)%Zmod with (- (Zmod.inv s * m))%Zmod by (field; repeat split; auto using opp_nonzero).
  rewrite !fmul_opp, <- popp_padd, E by auto with curve. reflexivity.
Qed.

Lemma ecdsa_valid_lower Q m r s : on_curve Q -> ecdsa_valid Q m r s -> ecdsa_valid Q m r (lower_s s).
Proof. intros HQ H. unfold lower_s. destruct (_ <? _); [apply ecdsa_valid_opp|]; assumption. Qed.

(** What a signature is made of. *)
Lemma ecdsa_sign_with_inv d m k r s i : ecdsa_sign_with d m k = Some (r, s, i) -> exists x y s0,
  fmul k G = Affine x y /\ k <> Zmod.zero /\ r = x_residue x /\ r <> Zmod.zero /\ s0 = (Zmod.inv k * (r * d + m))%Zmod /\ s0 <> Zmod.zero /\ s = lower_s s0 /\
  i = Z.lxor (Z.lor (if n <=? Zmod.to_Z x then 2 else 0) (Z.b2z (Z.odd (Zmod.to_Z y)))) (Z.b2z (n / 2 <? Zmod.to_Z s0)).
Proof.
  unfold ecdsa_sign_with. destruct (fmul k G) as [|x y] eqn:E; [discriminate|]. cbv zeta.
  destruct (Zmod.eqb_spec (x_residue x) Zmod.zero) as [|Hr]; [discriminate|]. destruct (Zmod.eqb_spec (Zmod.inv k * (x_residue x * d + m))%Zmod Zmod.zero) as [|Hs]; [discriminate|].
  cbn [orb]. intros E'. assert (Hk : k <> Zmod.zero) by (intros ->; discriminate E). 
  exists x, y, (Zmod.inv k * (x_residue x * d + m))%Zmod. set (s1 := lower_s _) in *. set (i1 := Z.lxor _ _) in *. clearbody s1 i1.
  assert (r = x_residue x) as -> by congruence. repeat split; auto; congruence.
Qed.

(** A signature is valid for the key that made it. *)
Lemma ecdsa_sign_valid d m k r s i : ecdsa_sign_with d m k = Some (r, s, i) -> ecdsa_valid (fmul d G) m r s /\ low_s s.
Proof.
  intros H. destruct (ecdsa_sign_with_inv d m k r s i H) as (x & y & s0 & E & Hk & Er & Hr & E0 & Hs & -> & _). split; [|apply lower_s_low].
  apply ecdsa_valid_lower; [auto with curve|]. split; [exact Hr|]. split; [exact Hs|]. exists x, y. split; [|symmetry; exact Er].
  rewrite <- fmul_mul, <- fmul_add by auto with curve. rewrite <- E. f_equal.
  assert (Hrd : (r * d + m)%Zmod <> Zmod.zero) by (intros E1; apply Hs; rewrite E0, E1; ring).
  rewrite E0. field. auto.
Qed.

Lemma first_signature_nonce d m nonces r s i : first_signature d m nonces = Some (r, s, i) ->
  exists v, In v nonces /\ 0 < v < n /\ ecdsa_sign_with d m (toFn v) = Some (r, s, i).
Proof.
  induction nonces as [|v l IH]; [discriminate|]. cbn [first_signature]. destruct ((0 <? v) && (v <? n)) eqn:Ev.
  - apply andb_true_iff in Ev. rewrite !Z.ltb_lt in Ev. destruct (ecdsa_sign_with d m (toFn v)) as [sig|] eqn:E.
    + intros E'. exists v. split; [left; reflexivity|]. split; [exact Ev | congruence].
    + intros E'. destruct (IH E') as (w & Hw & Hr). exists w. split; [right; exact Hw | exact Hr].
  - intros E'. destruct (IH E') as (w & Hw & Hr). exists w. split; [right; exact Hw | exact Hr].
Qed.

(** The bits of a recovery id. *)
Lemma recid_bits (o a b : bool) : let i := Z.lxor (Z.lor (if o then 2 else 0) (Z.b2z a)) (Z.b2z b) in
  (Z.land i 2 =? 0) = negb o /\ negb (Z.land i 1 =? 0) = xorb a b /\ 0 <= i < 4.
Proof. destruct o, a, b; cbn; repeat split; lia. Qed.

Lemma recid_point_unique r i R R' : recid_point r i R -> recid_point r i R' -> R = R'.
Proof.
  intros (x & y & -> & HR & Ex & Ey) (x' & y' & -> & HR' & Ex' & Ey'). assert (x' = x) by (apply Zmod.to_Z_inj; congruence). subst x'. f_equal.
  destruct (same_x x y y' HR HR') as [->| ->]; [reflexivity|]. exfalso. rewrite opp_parity in Ey by exact (on_curve_y_nonzero _ _ HR'). rewrite <- Ey' in Ey.
  exact (Bool.no_fixpoint_negb _ Ey).
Qed.

(** The recovery id of a signature selects the point of the nonce, up to the sign
    that the lower [s] undoes. *)
Lemma ecdsa_recover_signed d m k r s i : ecdsa_sign_with d m k = Some (r, s, i) ->
  exists R, recid_point r i R /\ recovered_key R m r s = fmul d G.
Proof.
  intros H. destruct (ecdsa_sign_with_inv d m k r s i H) as (x & y & s0 & E & Hk & Er & Hr & E0 & Hs & -> & ->).
  assert (HK : on_curve (Affine x y)) by (rewrite <- E; apply fmul_on_curve, G_on_curve). pose proof (Fp_range x) as Bx. pose proof (on_curve_y_nonzero _ _ HK) as Hy.
  unfold lower_s. destruct (recid_bits (n <=? Zmod.to_Z x) (Z.odd (Zmod.to_Z y)) (n / 2 <? Zmod.to_Z s0)) as (H2 & H1 & _).
  set (i := Z.lxor _ _) in *. clearbody i. set (b := n / 2 <? Zmod.to_Z s0) in *. clearbody b.
  assert (Ex : Zmod.to_Z x = Zmod.to_Z r + (if Z.land i 2 =? 0 then 0 else n)).
  { rewrite H2, Er. unfold x_residue. rewrite to_Z_toFn. destruct (Z.leb_spec n (Zmod.to_Z x)); cbn [negb]; [|rewrite Z.mod_small; lia].
    assert (p < 2 * n) by reflexivity. replace (Zmod.to_Z x mod n) with (Zmod.to_Z x - n); [lia|]. apply Z.mod_unique with 1; lia. }
  set (y1 := if b then (- y)%Zmod else y). assert (Ey : Z.odd (Zmod.to_Z y1) = negb (Z.land i 1 =? 0)).
  { rewrite H1. unfold y1. destruct b; [rewrite opp_parity by exact Hy; destruct (Z.odd (Zmod.to_Z y)); reflexivity | destruct (Z.odd (Zmod.to_Z y)); reflexivity]. }
  assert (HR : Affine x y1 = fmul (if b then (- k)%Zmod else k) G) by (unfold y1; destruct b; rewrite ?fmul_opp by apply G_on_curve; rewrite E; reflexivity).
  assert (HC : on_curve (Affine x y1)) by (rewrite HR; apply fmul_on_curve, G_on_curve). exists (Affine x y1). split.
  - exists x, y1. auto.
  - rewrite HR. unfold recovered_key. rewrite <- fmul_mul, <- fmul_add by apply G_on_curve. f_equal. destruct b; rewrite E0; field; auto.
Qed.

(** The recovered key verifies the signature it was recovered from. *)
Lemma ecdsa_valid_recovered R m r s i : r <> Zmod.zero -> s <> Zmod.zero -> recid_point r i R -> ecdsa_valid (recovered_key R m r s) m r s.
Proof.
  intros Hr Hs (x & y & -> & HR & Ex & _). split; [exact Hr|]. split; [exact Hs|]. exists x, y. split.
  - destruct (fmul_generated _ HR) as [k E]. rewrite E. unfold recovered_key.
    rewrite fmul_padd, <- !fmul_mul, <- !fmul_add by auto using fmul_on_curve, G_on_curve. f_equal. field; auto.
  - unfold x_residue. rewrite Ex, toFn_add. apply Zmod.to_Z_inj. rewrite <- toFn_add, to_Z_toFn. pose proof (Fn_range r).
    destruct (Z.land i 2 =? 0); [rewrite Z.add_0_r | rewrite <- Z.add_mod_idemp_r, Z.mod_same, Z.add_0_r by discriminate]; apply Z.mod_small; assumption.
Qed.
