(* ===== verification/EcdsaSpec.v ===== *)
(** * The signature code implements ECDSA

    [ecdsa_impl.h] and the recovery of [modules/recovery/main_impl.h] against the
    reference of [Signatures]. *)

From Stdlib Require Import ZArith Lia List Bool.
From S2P Require Import Prelude Modulus Bytes Field FieldImpl Curve CurveGroup CurveOrder Group GroupConv Scalar ScalarImpl Hash Ecmult EcmultSpec EcmultGen EcmultGenSpec Objects Buffer Ecdsa Secp256k1 Recovery Signatures.
Import ListNotations.

#[local] Open Scope Z_scope.
#[local] Open Scope checked_scope.

Section EcdsaSpec.
Context {F : FieldOps} {L : FieldLaws F} {SO : ScalarOps} {SL : ScalarLaws SO} {M : Memory F SO} {H : HashMemory}.

Lemma order_as_fe_norm : fe_norm secp256k1_ecdsa_const_order_as_fe (toFp n).
Proof. apply FE_CONST_norm; vm_compute; try split; congruence. Qed.

Lemma p_minus_order_norm : fe_norm secp256k1_ecdsa_const_p_minus_order (toFp (p - n)).
Proof. apply FE_CONST_norm; vm_compute; try split; congruence. Qed.

Lemma n_lt_p : n < p < 2 * n.
Proof. split; reflexivity. Qed.

(** A scalar as a field element. *)
Lemma fe_of_scalar x a r : sc_ok a r ->
  Returns (secp256k1_fe_set_b32 x (secp256k1_scalar_get_b32 a)) (fun '(ok, f) => ok = true /\ fe_norm f (toFp (Zmod.to_Z r))).
Proof.
  intros Ha. rewrite (sc_get_b32_ok a r Ha). pose proof (Fn_range r) as Rr. pose proof n_lt_p. assert (n < 256 ^ 32) by reflexivity.
  eapply Returns_mono; [apply fe_set_b32_norm, be_bytes_wf|]. intros [ok f] [Hok Hf]. rewrite be_value_bytes in * by (change (Z.of_nat 32) with 32; lia).
  assert (ok = true) as -> by (rewrite Hok; apply Z.ltb_lt; lia). auto.
Qed.

(** The abscissas of residue [r] are [r] and, when it is below [p - n], [r + n]. *)
Lemma x_residue_iff (x : Fp) (r : Fn) : x_residue x = r <->
  x = toFp (Zmod.to_Z r) \/ (Zmod.to_Z r < p - n /\ x = (toFp (Zmod.to_Z r) + toFp n)%Zmod).
Proof.
  pose proof (Fn_range r) as Rr. pose proof (Fp_range x) as Rx. pose proof n_lt_p as Hnp. unfold x_residue. rewrite <- toFp_add. split.
  - intros <-. rewrite to_Z_toFn in *. destruct (Z.lt_ge_cases (Zmod.to_Z x) n) as [Hx|Hx].
    + left. rewrite Z.mod_small, toFp_to_Z by lia. reflexivity.
    + right. assert (E : Zmod.to_Z x mod n = Zmod.to_Z x - n) by (symmetry; apply Z.mod_unique with 1; lia). rewrite E. split; [lia|].
      replace (Zmod.to_Z x - n + n) with (Zmod.to_Z x) by lia. symmetry. apply toFp_to_Z.
  - intros [->|[Hr ->]]; rewrite toFp_small by lia; [exact (toFn_to_Z r) |
    rewrite <- (toFn_to_Z r) at 2; apply toFn_eq; rewrite <- (Z_mod_plus_full (Zmod.to_Z r) 1 n); f_equal; lia].
Qed.

Lemma sign_of_cmp a b : 0 <= sign_of (a ?= b) <-> b <= a.
Proof. destruct (Z.compare_spec a b); cbn; lia. Qed.

(** The two tests of the abscissa. *)
Lemma verify_tail_ok xr r pr P : fe_norm xr (toFp (Zmod.to_Z r)) -> gej_ok pr P -> gej_infinity pr = false ->
  Returns (eq <- secp256k1_gej_eq_x_var xr pr;;
    if (eq : bool) then ret true else
    cmp <- secp256k1_fe_cmp_var xr secp256k1_ecdsa_const_p_minus_order;;
    if 0 <=? cmp then ret false else
    xr <- secp256k1_fe_add xr secp256k1_ecdsa_const_order_as_fe;;
    secp256k1_gej_eq_x_var xr pr) (fun b => b = true <-> exists x y, P = Affine x y /\ x_residue x = r).
Proof.
  intros Hx Hp Hi. pose proof (Fn_range r) as Rr. pose proof n_lt_p as Hnp.
  eapply Returns_bind; [apply (gej_eq_x_var_ok xr pr P _ (fe_ok_mono _ _ 8 _ (fe_norm_ok _ _ Hx) ltac:(lia)) Hp Hi)|]. intros b Hb. destruct b.
  { apply Returns_ret. split; [intros _|reflexivity]. destruct (proj1 Hb eq_refl) as [y ->]. exists (toFp (Zmod.to_Z r)), y. split; [reflexivity|].
    apply x_residue_iff. left. reflexivity. }
  assert (Hb1 : forall y, P <> Affine (toFp (Zmod.to_Z r)) y) by (intros y E; assert (false = true) by (apply Hb; exists y; exact E); discriminate). clear Hb.
  eapply Returns_bind; [apply (fe_cmp_var_ok _ _ _ _ Hx p_minus_order_norm)|]. intros c ->. rewrite !toFp_small by lia.
  destruct (Z.leb_spec 0 (sign_of (Zmod.to_Z r ?= p - n))) as [Hc|Hc].
  { apply Returns_ret. rewrite sign_of_cmp in Hc. split; [discriminate|]. intros (x & y & -> & E). apply x_residue_iff in E as [->|[E _]]; [exfalso; apply (Hb1 y); reflexivity | lia]. }
  assert (Hlt : Zmod.to_Z r < p - n) by (rewrite <- Z.nle_gt, <- sign_of_cmp; lia).
  eapply Returns_bind; [apply (fe_add_ok _ _ _ _ _ _ (fe_norm_ok _ _ Hx) (fe_norm_ok _ _ order_as_fe_norm)); lia|]. intros xr' Hx'.
  eapply Returns_mono; [apply (gej_eq_x_var_ok xr' pr P _ (fe_ok_mono _ _ 8 _ Hx' ltac:(lia)) Hp Hi)|]. intros b ->. split.
  - intros [y ->]. eexists _, y. split; [reflexivity|]. apply x_residue_iff. right. auto.
  - intros (x & y & -> & E). apply x_residue_iff in E as [->|[_ ->]]; [exfalso; apply (Hb1 y); reflexivity | exists y; reflexivity].
Qed.

Lemma sc_ok_fmul a k P : sc_ok a k -> pmul (sc_Z a) P = fmul k P.
Proof. intros [_ ->]. reflexivity. Qed.

Lemma ecdsa_sig_verify_ok ctx sigr sigs pubkey message r s Q m : ecmult_ready ctx -> sc_ok sigr r -> sc_ok sigs s -> sc_ok message m ->
  ge_ok pubkey Q -> on_curve Q -> Q <> Infinity ->
  Returns (secp256k1_ecdsa_sig_verify ctx sigr sigs pubkey message) (fun b => b = true <-> ecdsa_valid Q m r s).
Proof.
  intros Hctx Hr Hs Hm Hpk HQ HQi. unfold secp256k1_ecdsa_sig_verify. rewrite (sc_is_zero_ok _ _ Hr), (sc_is_zero_ok _ _ Hs).
  destruct (Zmod.eqb_spec r Zmod.zero) as [Er|Er]; [apply Returns_ret; split; [discriminate | intros (E & _); contradiction]|].
  destruct (Zmod.eqb_spec s Zmod.zero) as [Es|Es]; [apply Returns_ret; split; [discriminate | intros (_ & E & _); contradiction]|]. cbn [orb].
  eapply Returns_bind; [exact (sc_inverse_var_ok _ _ Hs)|]. intros sn Hsn.
  eapply Returns_bind; [exact (sc_mul_ok _ _ _ _ Hsn Hm)|]. intros u1 Hu1. eapply Returns_bind; [exact (sc_mul_ok _ _ _ _ Hsn Hr)|]. intros u2 Hu2.
  eapply Returns_bind; [exact (gej_set_ge_ok _ _ Hpk)|]. intros pj Hpj.
  eapply Returns_bind; [apply (ecmult_ok ctx pj Q u2 u1 Hctx Hpj HQ (gej_ok_finite _ _ Hpj HQi) (proj1 Hu2) (proj1 Hu1))|].
  intros pr Hpr. rewrite (sc_ok_fmul _ _ _ Hu1), (sc_ok_fmul _ _ _ Hu2) in Hpr. unfold secp256k1_gej_is_infinity, ecdsa_valid.
  destruct (gej_infinity pr) eqn:Ei.
  { apply Returns_ret. destruct Hpr as (X & Y & Z & _ & HP). rewrite Ei in HP. rewrite HP. split; [discriminate | intros (_ & _ & x & y & E & _); discriminate]. }
  eapply Returns_bind; [exact (fe_of_scalar uninit_fe _ _ Hr)|]. intros [ok xr] [_ Hxr].
  eapply Returns_mono; [exact (verify_tail_ok xr r pr _ Hxr Hpr Ei)|]. intros b ->. split; [intros HE; auto | intros (_ & _ & HE); exact HE].
Qed.

(** ** Signing *)

(** What the caller of the signing function has to check. *)
Definition nonce_usable (k : Fn) : Prop :=
  exists x y, fmul k G = Affine x y /\ 0 < Zmod.to_Z x < n.

Lemma sig_sign_finish_ok sigr r sigs0 s0 recid : sc_ok sigr r -> sc_ok sigs0 s0 ->
  Returns (if secp256k1_scalar_is_zero sigs0 then ret (false, sigr, sigs0, recid) else
    if secp256k1_scalar_is_high sigs0 =? 0 then ret (true, sigr, sigs0, recid)
    else ret (true, sigr, secp256k1_scalar_negate sigs0, option_map (fun r => Z.lxor r 1) recid))
   (fun '(ok, r', s', recid') => ok = negb (Zmod.eqb s0 Zmod.zero) /\ sc_ok r' r /\ (recid' = None <-> recid = None) /\
     (ok = true -> sc_ok s' (lower_s s0) /\ recid' = option_map (fun i => Z.lxor i (Z.b2z (n / 2 <? Zmod.to_Z s0))) recid)).
Proof.
  intros Hr Hs. rewrite (sc_is_zero_ok _ _ Hs), (sc_is_high_ok _ _ Hs). unfold lower_s. destruct (Zmod.eqb s0 Zmod.zero); [apply Returns_ret; split; [reflexivity|]; split; [exact Hr | split; [reflexivity | discriminate]]|].
  destruct (n / 2 <? Zmod.to_Z s0); cbn [Z.b2z Z.eqb]; apply Returns_ret; (split; [reflexivity|]; split; [exact Hr|]; split; [destruct recid; split; (discriminate || reflexivity)|]; intros _).
  - split; [exact (sc_negate_ok _ _ Hs) | reflexivity].
  - split; [exact Hs|]. destruct recid; [cbn [option_map]; rewrite Z.lxor_0_r|]; reflexivity.
Qed.

Lemma ecdsa_sig_sign_ok ctx seckey message nonce d m k recid : gen_ready ctx -> sc_ok seckey d -> sc_ok message m -> sc_ok nonce k -> nonce_usable k ->
  Returns (secp256k1_ecdsa_sig_sign ctx seckey message nonce recid) (fun '(ok, r', s', recid') =>
    match ecdsa_sign_with d m k with
    | Some (r, s, i) => ok = true /\ sc_ok r' r /\ sc_ok s' s /\ recid' = option_map (fun _ => i) recid
    | None => ok = false /\ (recid' = None <-> recid = None)
    end).
Proof.
  intros Hctx Hd Hm Hk (x & y & EK & Hx). pose proof (Fp_range x) as Rx. unfold secp256k1_ecdsa_sig_sign, ecdsa_sign_with. rewrite EK.
  eapply Returns_bind; [exact (ecmult_gen_ok ctx nonce Hctx (proj1 Hk))|]. intros rp Hrp. rewrite (sc_ok_fmul _ _ _ Hk), EK in Hrp.
  eapply Returns_bind; [exact (ge_set_gej_ok _ _ Hrp)|]. intros [R R'] [(X & Y & HX & HY & HR) _].
  destruct (ge_infinity R); [discriminate|]. assert (X = x /\ Y = y) as [-> ->] by (split; congruence). clear HR.
  eapply Returns_bind; [apply (fe_normalize_ok _ _ _ HX); lia|]. intros fx Hfx. eapply Returns_bind; [apply (fe_normalize_ok _ _ _ HY); lia|]. intros fy Hfy.
  eapply Returns_bind; [exact (fe_get_b32_ok _ _ Hfx)|]. intros b ->.
  eapply Returns_bind; [apply sc_set_b32_ok, be_bytes_wf|]. intros [o sigr] [Ho Hr].
  rewrite be_value_bytes in Ho, Hr by (change (256 ^ Z.of_nat 32) with (2 ^ 256); assert (p < 2 ^ 256) by reflexivity; lia).
  change (toFn (Zmod.to_Z x)) with (x_residue x) in Hr. rewrite (proj2 (Z.leb_gt n (Zmod.to_Z x))) in * by lia. subst o. set (r := x_residue x) in *.
  assert (Hnz : r <> Zmod.zero) by (apply to_Z_nonzero; unfold r, x_residue; rewrite toFn_small; lia).
  apply Returns_check; [rewrite (sc_is_zero_ok _ _ Hr); destruct (Zmod.eqb_spec r Zmod.zero); [contradiction | reflexivity]|]. apply Returns_check; [reflexivity|].
  set (odd := Z.odd (Zmod.to_Z y)). apply Returns_bind with (P := fun i => i = option_map (fun _ => Z.b2z odd) recid).
  { destruct recid; [|apply Returns_ret; reflexivity]. eapply Returns_bind; [exact (fe_is_odd_ok _ _ Hfy)|]. intros o ->. fold odd. destruct odd; reflexivity. }
  intros i Hi. eapply Returns_bind; [exact (sc_mul_ok _ _ _ _ Hr Hd)|]. intros n1 Hn1. eapply Returns_bind; [exact (sc_add_ok _ _ _ _ Hn1 Hm)|]. intros [o n2] [_ Hn2].
  eapply Returns_bind; [exact (sc_inverse_ok _ _ Hk)|]. intros s1 Hs1. eapply Returns_bind; [exact (sc_mul_ok _ _ _ _ Hs1 Hn2)|]. intros s2 Hs2.
  eapply Returns_mono; [exact (sig_sign_finish_ok _ _ _ _ i Hr Hs2)|]. intros [[[ok r'] s'] recid'] (-> & Hr' & Hn & HQ).
  destruct (Zmod.eqb_spec r Zmod.zero) as [|_]; [contradiction|]. cbn [orb]. cbv zeta. destruct (Zmod.eqb _ Zmod.zero); [split; [reflexivity|]; rewrite Hn, Hi; destruct recid; split; (discriminate || reflexivity)|].
  destruct (HQ eq_refl) as [Hs' ->]. split; [reflexivity|]. split; [exact Hr'|]. split; [exact Hs'|]. rewrite Hi. destruct recid; reflexivity.
Qed.

(** ** Recovery *)

(** The abscissa of a recovery id: [None] when it is out of range. *)
Lemma recover_x_ok fx (r : Fn) recid : fe_norm fx (toFp (Zmod.to_Z r)) ->
  Returns (if Z.land recid 2 =? 0 then ret (true, fx) else
             cmp <- secp256k1_fe_cmp_var fx secp256k1_ecdsa_const_p_minus_order;;
             if 0 <=? cmp then ret (false, fx) else
             fx <- secp256k1_fe_add fx secp256k1_ecdsa_const_order_as_fe;;
             ret (true, fx)) (fun '(ok, f) => let v := Zmod.to_Z r + (if Z.land recid 2 =? 0 then 0 else n) in
    (ok = true <-> v < p) /\ (ok = true -> fe_ok f 8 (toFp v))).
Proof.
  intros Hx. pose proof (Fn_range r) as Rr. pose proof n_lt_p as Hnp. cbv zeta. destruct (Z.land recid 2 =? 0).
  { apply Returns_ret. rewrite Z.add_0_r. split; [split; [lia | reflexivity]|]. intros _. apply (fe_ok_mono _ 1); [apply fe_norm_ok, Hx | lia]. }
  eapply Returns_bind; [apply (fe_cmp_var_ok _ _ _ _ Hx p_minus_order_norm)|]. intros c ->. rewrite !toFp_small by lia.
  destruct (Z.leb_spec 0 (sign_of (Zmod.to_Z r ?= p - n))) as [Hc|Hc].
  { apply Returns_ret. rewrite sign_of_cmp in Hc. split; [split; [discriminate | lia] | discriminate]. }
  assert (Hlt : Zmod.to_Z r < p - n) by (rewrite <- Z.nle_gt, <- sign_of_cmp; lia).
  eapply Returns_bind; [apply (fe_add_ok _ _ _ _ _ _ (fe_norm_ok _ _ Hx) (fe_norm_ok _ _ order_as_fe_norm)); lia|]. intros f Hf.
  apply Returns_ret. split; [split; [lia | reflexivity]|]. intros _. rewrite toFp_add. apply (fe_ok_mono _ (1 + 1)); [exact Hf | lia].
Qed.

(** The point of a recovery id: the rest of the function runs on it, or there is
    none. *)
Lemma recover_point_ok {A} fx0 (r : Fn) recid (fail : A) (k : secp256k1_ge -> checked A) (Q : A -> Prop) : fe_norm fx0 (toFp (Zmod.to_Z r)) ->
  ((forall R, ~ recid_point r recid R) -> Q fail) ->
  (forall x R, recid_point r recid R -> ge_ok x R -> Returns (k x) Q) ->
  Returns (' (ok, fx) <- (if Z.land recid 2 =? 0 then ret (true, fx0) else
                            cmp <- secp256k1_fe_cmp_var fx0 secp256k1_ecdsa_const_p_minus_order;;
                            if 0 <=? cmp then ret (false, fx0) else
                            fx <- secp256k1_fe_add fx0 secp256k1_ecdsa_const_order_as_fe;;
                            ret (true, fx));;
           if negb ok then ret fail else
           ' (ok, x) <- secp256k1_ge_set_xo_var fx (negb (Z.land recid 1 =? 0));;
           if negb ok then ret fail else k x) Q.
Proof.
  intros Hx0 Hfail Hk. eapply Returns_bind; [exact (recover_x_ok fx0 r recid Hx0)|]. intros [ok fx] [Hv Hfx]. cbv zeta in Hv, Hfx. set (v := Zmod.to_Z r + _) in *.
  assert (Hpt : forall R, recid_point r recid R -> exists y, R = Affine (toFp v) y /\ on_curve R /\ v < p).
  { intros R (x & y & -> & HR & Ex & Ey). exists y. fold v in Ex. rewrite <- Ex, toFp_to_Z. pose proof (Fp_range x). split; [reflexivity|]. split; [exact HR | lia]. }
  destruct ok; cbn [negb]; [|apply Returns_ret, Hfail; intros R HR; destruct (Hpt R HR) as (y & _ & _ & Hlt); apply Hv in Hlt; discriminate].
  assert (Hvp : 0 <= v < p) by (split; [pose proof (Fn_range r); pose proof n_lt_p; unfold v; destruct (_ =? 0); lia | apply Hv; reflexivity]).
  eapply Returns_bind; [exact (ge_set_xo_var_ok fx _ (negb (Z.land recid 1 =? 0)) (Hfx eq_refl))|]. intros [ok x] [Hsq Hx].
  destruct ok; cbn [negb]; [|apply Returns_ret, Hfail; intros R HR; destruct (Hpt R HR) as (y & -> & Hc & _); assert (false = true) by (apply Hsq; exists y; exact Hc); discriminate].
  destruct (Hx eq_refl) as (y & Hge & HR & Hodd). apply (Hk x (Affine (toFp v) y)); [|exact Hge]. exists (toFp v), y. rewrite toFp_small by exact Hvp. auto.
Qed.

(** The key that the signature and the recovery id determine, when there is one. *)
Definition recovers (r s m : Fn) (recid : Z) (Q : point) : Prop :=
  r <> Zmod.zero /\ s <> Zmod.zero /\ exists R, recid_point r recid R /\ Q = recovered_key R m r s /\ Q <> Infinity.

Lemma ecdsa_sig_recover_ok ctx sigr sigs pk message recid r s m : ecmult_ready ctx -> sc_ok sigr r -> sc_ok sigs s -> sc_ok message m ->
  Returns (secp256k1_ecdsa_sig_recover ctx sigr sigs pk message recid) (fun '(ok, q) =>
    if ok then exists Q, recovers r s m recid Q /\ ge_ok q Q else forall Q, ~ recovers r s m recid Q).
Proof.
  intros Hctx Hr Hs Hm. unfold secp256k1_ecdsa_sig_recover. rewrite (sc_is_zero_ok _ _ Hr), (sc_is_zero_ok _ _ Hs).
  destruct (Zmod.eqb_spec r Zmod.zero) as [Er|Er]; [apply Returns_ret; intros Q (E & _); contradiction|].
  destruct (Zmod.eqb_spec s Zmod.zero) as [Es|Es]; [apply Returns_ret; intros Q (_ & E & _); contradiction|]. cbn [orb].
  eapply Returns_bind; [exact (fe_of_scalar uninit_fe _ _ Hr)|]. intros [ok fx0] [-> Hx0]. apply Returns_check; [reflexivity|].
  apply (recover_point_ok fx0 r recid (false, pk)); [exact Hx0 | intros Hno Q (_ & _ & R & HR & _); exact (Hno R HR)|]. intros x R HRp Hge.
  assert (HR : on_curve R /\ R <> Infinity) by (destruct HRp as (a & b & -> & HR & _); split; [exact HR | discriminate]). destruct HR as [HR HRi].
  eapply Returns_bind; [exact (gej_set_ge_ok _ _ Hge)|]. intros xj Hxj. eapply Returns_bind; [exact (sc_inverse_var_ok _ _ Hr)|]. intros rn Hrn.
  eapply Returns_bind; [exact (sc_mul_ok _ _ _ _ Hrn Hm)|]. intros u1 Hu1. apply sc_negate_ok in Hu1. eapply Returns_bind; [exact (sc_mul_ok _ _ _ _ Hrn Hs)|]. intros u2 Hu2.
  eapply Returns_bind; [apply (ecmult_ok ctx xj R u2 _ Hctx Hxj HR (gej_ok_finite _ _ Hxj HRi) (proj1 Hu2) (proj1 Hu1))|].
  intros qj Hqj. rewrite (sc_ok_fmul _ _ _ Hu1), (sc_ok_fmul _ _ _ Hu2) in Hqj. change (padd _ _) with (recovered_key R m r s) in Hqj.
  unfold secp256k1_ge_set_gej_var, secp256k1_gej_is_infinity. destruct (gej_infinity qj) eqn:Ei.
  - apply Returns_ret. cbn [bind]. rewrite Ei. cbn [negb]. intros Q (_ & _ & R' & HR' & EQ & HQ). rewrite (recid_point_unique _ _ _ _ HR' HRp) in EQ.
    destruct Hqj as (X & Y & Z & _ & HP). rewrite Ei in HP. congruence.
  - rewrite <- Ei. fold (secp256k1_ge_set_gej qj). eapply Returns_bind; [exact (ge_set_gej_ok qj _ Hqj)|]. intros [q qj'] [Hq Hqj'].
    assert (HQ : recovered_key R m r s <> Infinity) by (destruct Hqj as (X & Y & Z & _ & HP); rewrite Ei in HP; destruct HP as [_ ->]; discriminate).
    apply Returns_ret. rewrite (gej_ok_finite _ _ Hqj' HQ). cbn [negb]. exists (recovered_key R m r s). split; [|exact Hq].
    split; [exact Er|]. split; [exact Es|]. exists R. auto.
Qed.

End EcdsaSpec.
