(* ===== verification/EckeySpec.v ===== *)
(** * Encodings of public keys, and tweaks

    The reference encodings of SEC 1 and what [eckey_impl.h] makes of them. *)

From Stdlib Require Import ZArith Lia List Bool.
From S2P Require Import Prelude Modulus Bytes Field FieldImpl Curve CurveGroup CurveOrder Group GroupConv Scalar ScalarImpl Hash Ecmult EcmultSpec EcmultGen Objects Buffer Eckey Ecdsa Secp256k1 Der Signatures EcdsaSpec.
Import ListNotations.

#[local] Open Scope Z_scope.
#[local] Open Scope checked_scope.

(** ** Reference: SEC 1, 2.3.3 *)

Definition compressed_point (x y : Fp) : list Z := 2 + Z.b2z (Z.odd (Zmod.to_Z y)) :: be_bytes 32 (Zmod.to_Z x).

Definition uncompressed_point (x y : Fp) : list Z := 4 :: be_bytes 32 (Zmod.to_Z x) ++ be_bytes 32 (Zmod.to_Z y).

(** The hybrid form of X9.62, which is accepted and never written. *)
Definition hybrid_point (x y : Fp) : list Z := 6 + Z.b2z (Z.odd (Zmod.to_Z y)) :: be_bytes 32 (Zmod.to_Z x) ++ be_bytes 32 (Zmod.to_Z y).

(** [b] encodes a point of the curve. *)
Definition encodes (b : list Z) (P : point) : Prop :=
  exists x y, P = Affine x y /\ on_curve P /\ (b = compressed_point x y \/ b = uncompressed_point x y \/ b = hybrid_point x y).

(** ** No point has [x = 0]: 7 is not a square *)

Lemma seven_residue : (pow_fold 7 (Z.to_pos ((p - 1) / 2)) mod p =? 1) = false.
Proof. vm_cast_no_check (eq_refl false). Qed.

Lemma seven_not_square (y : Fp) : (y * y)%Zmod <> toFp 7.
Proof.
  intros E. assert (Hy : y <> Zmod.zero).
  { intros ->. apply (toFp_nonzero 7); [reflexivity|]. rewrite <- E. ring. }
  apply (pow_fold_not_one 7 (Z.to_pos ((p - 1) / 2))); [exact seven_residue|].
  rewrite Z2Pos.id, toFp_pow, <- E, <- Zmod.pow_2_r, <- Zmod.pow_mul_r_nonneg by first [reflexivity | vm_compute; discriminate].
  change (2 * ((p - 1) / 2)) with (Z.pred p). exact (Zmod.fermat_nz y Hy p_prime).
Qed.

Lemma on_curve_x_nonzero x y : on_curve (Affine x y) -> x <> Zmod.zero.
Proof. cbn [on_curve_at]. intros E ->. apply (seven_not_square y). rewrite E. ring. Qed.

(** ** Encodings *)

Lemma Fp_bytes (x : Fp) : 0 <= Zmod.to_Z x < 256 ^ Z.of_nat 32.
Proof. pose proof (Fp_range x). change (256 ^ Z.of_nat 32) with (2 ^ 256). assert (p < 2 ^ 256) by reflexivity. lia. Qed.

Lemma Fp_bytes_value (x : Fp) : be_value (be_bytes 32 (Zmod.to_Z x)) = Zmod.to_Z x.
Proof. apply be_value_bytes, Fp_bytes. Qed.

Lemma Fp_bytes_inj (x x' : Fp) : be_bytes 32 (Zmod.to_Z x) = be_bytes 32 (Zmod.to_Z x') -> x = x'.
Proof. intros E. apply Zmod.to_Z_inj. rewrite <- (Fp_bytes_value x), <- (Fp_bytes_value x'), E. reflexivity. Qed.

(** An abscissa and a parity determine the point. *)
Lemma parity_unique x y y' : on_curve (Affine x y) -> on_curve (Affine x y') -> Z.odd (Zmod.to_Z y) = Z.odd (Zmod.to_Z y') -> y = y'.
Proof.
  intros H H' E. destruct (same_x x y y' H H') as [->| ->]; [reflexivity|]. exfalso.
  rewrite opp_parity in E by exact (on_curve_y_nonzero _ _ H'). symmetry in E. exact (Bool.no_fixpoint_negb _ (eq_sym E)).
Qed.

Lemma odd_b2z_inj a b : Z.b2z a = Z.b2z b -> a = b.
Proof. destruct a, b; [reflexivity | discriminate | discriminate | reflexivity]. Qed.

Lemma cons_inv {A} (a b : A) l m : a :: l = b :: m -> a = b /\ l = m.
Proof. intros E. split; congruence. Qed.

Lemma app_inv_length {A} (a b c d : list A) : length a = length c -> a ++ b = c ++ d -> a = c /\ b = d.
Proof. intros Hl E. split; [rewrite <- (firstn_exact (length a) a b), E, Hl; [apply firstn_exact|] | rewrite <- (skipn_exact (length a) a b), E, Hl; [apply skipn_exact|]]; reflexivity. Qed.

Lemma encodes_unique b P P' : encodes b P -> encodes b P' -> P = P'.
Proof.
  intros (x & y & -> & HP & Hb) (x' & y' & -> & HP' & Hb').
  assert (Hu : forall t t', t :: be_bytes 32 (Zmod.to_Z x) ++ be_bytes 32 (Zmod.to_Z y) = t' :: be_bytes 32 (Zmod.to_Z x') ++ be_bytes 32 (Zmod.to_Z y') -> Affine x y = Affine x' y').
  { intros t t' E. apply cons_inv in E as [_ E]. apply app_inv_length in E as [E1 E2]; [|rewrite !length_be_bytes; reflexivity]. apply Affine_eq; apply Fp_bytes_inj; assumption. }
  assert (Hl' : forall t t' a c d, t :: be_bytes 32 a <> t' :: be_bytes 32 c ++ be_bytes 32 d) by
    (intros t t' a c d E; apply (f_equal (@length Z)) in E; cbn [length] in E; rewrite !length_app, !length_be_bytes in E; lia).
  unfold compressed_point, uncompressed_point, hybrid_point in *. destruct Hb as [->|[->| ->]], Hb' as [E|[E|E]];
    try (exfalso; exact (Hl' _ _ _ _ _ E)); try (exfalso; exact (Hl' _ _ _ _ _ (eq_sym E))); try exact (Hu _ _ E).
  apply cons_inv in E as [E1 E2]. apply Fp_bytes_inj in E2. subst x'. f_equal. apply (parity_unique x); auto. apply odd_b2z_inj. lia.
Qed.

Section Parse.
Context {F : FieldOps} {L : FieldLaws F} {SO : ScalarOps} {SL : ScalarLaws SO} {M : Memory F SO}.

Lemma ge_set_xy_ok x y X Y : fe_norm x X -> fe_norm y Y -> ge_ok (secp256k1_ge_set_xy x y) (Affine X Y).
Proof.
  intros Hx Hy. exists X, Y. split; [apply (fe_ok_mono _ 1); [apply fe_norm_ok, Hx | lia]|].
  split; [apply (fe_ok_mono _ 1); [apply fe_norm_ok, Hy | lia] | reflexivity].
Qed.

(** Bytes and the field element they write. *)
Lemma be_value_Fp b : bytes_of_len 32 b -> be_value b < p -> be_bytes 32 (Zmod.to_Z (toFp (be_value b))) = b.
Proof. intros Hb Hp. pose proof (be_value_range _ _ Hb). rewrite toFp_small by lia. apply be_bytes_value, Hb. Qed.

Lemma parse_compressed_ok elem t bx : bytes_of_len 32 bx -> t = 2 \/ t = 3 ->
  Returns (' (ok, x) <- secp256k1_fe_set_b32 uninit_fe bx;; if negb ok then ret (false, elem) else secp256k1_ge_set_xo_var x (t =? 0x03))
    (fun '(ok, ge) => if ok then exists P, encodes (t :: bx) P /\ ge_ok ge P else forall x y, on_curve (Affine x y) -> t :: bx <> compressed_point x y).
Proof.
  intros Hb Ht. eapply Returns_bind; [exact (fe_set_b32_norm uninit_fe bx Hb)|]. intros [ok x] [Hok Hx]. destruct ok; cbn [negb].
  - specialize (Hx eq_refl). symmetry in Hok. apply Z.ltb_lt in Hok.
    eapply Returns_mono; [exact (ge_set_xo_var_ok x _ (t =? 3) (fe_ok_mono _ _ 8 _ (fe_norm_ok _ _ Hx) ltac:(lia)))|]. intros [ok ge] [Hsq Hge].
    destruct ok.
    + destruct (Hge eq_refl) as (y & Hgy & Hc & Ho). eexists. split; [|exact Hgy]. eexists _, y. split; [reflexivity|]. split; [exact Hc|]. left.
      unfold compressed_point. rewrite Ho, be_value_Fp by assumption. f_equal. destruct Ht as [->| ->]; reflexivity.
    + intros x' y' Hc E. apply cons_inv in E as [_ E]. assert (false = true); [|discriminate]. apply Hsq. exists y'. rewrite E, Fp_bytes_value, toFp_to_Z. exact Hc.
  - apply Returns_ret. intros x' y' _ E. apply cons_inv in E as [_ E]. symmetry in Hok. apply Z.ltb_ge in Hok. rewrite E, Fp_bytes_value in Hok. pose proof (Fp_range x'). lia.
Qed.

(** The test of the first byte of a hybrid key. *)
Definition hybrid_wrong (t : Z) (Y : Fp) : bool := ((t =? 6) || (t =? 7)) && negb (Bool.eqb (Z.odd (Zmod.to_Z Y)) (t =? 7)).

Lemma parse_uncompressed_ok elem t bx by_ : bytes_of_len 32 bx -> bytes_of_len 32 by_ -> t = 4 \/ t = 6 \/ t = 7 ->
  Returns (' (ok, x) <- secp256k1_fe_set_b32 uninit_fe bx;;
    if negb ok then ret (false, elem) else
    ' (ok, y) <- secp256k1_fe_set_b32 uninit_fe by_;;
    if negb ok then ret (false, elem) else
    let elem := secp256k1_ge_set_xy x y in
    wrong <- (if (t =? 0x06) || (t =? 0x07) then
                odd <- secp256k1_fe_is_odd y;; ret (negb (Bool.eqb odd (t =? 0x07)))
              else ret false);;
    if (wrong : bool) then ret (false, elem) else
    ok <- secp256k1_ge_is_valid_var elem;;
    ret (ok, elem))
  (fun '(ok, ge) => if ok then exists P, encodes (t :: bx ++ by_) P /\ ge_ok ge P
    else forall x y, on_curve (Affine x y) -> t :: bx ++ by_ <> uncompressed_point x y /\ t :: bx ++ by_ <> hybrid_point x y).
Proof.
  intros Hbx Hby Ht. assert (Hinv : forall (x' y' : Fp) t', t :: bx ++ by_ = t' :: be_bytes 32 (Zmod.to_Z x') ++ be_bytes 32 (Zmod.to_Z y') ->
    t = t' /\ be_value bx = Zmod.to_Z x' /\ be_value by_ = Zmod.to_Z y').
  { intros x' y' t' E. apply cons_inv in E as [-> E]. apply app_inv_length in E as [-> ->]; [|rewrite (proj1 Hbx), length_be_bytes; reflexivity]. rewrite !Fp_bytes_value. auto. }
  assert (Hno : (forall x' y' : Fp, be_value bx = Zmod.to_Z x' -> be_value by_ = Zmod.to_Z y' -> t = 4 \/ t = 6 + Z.b2z (Z.odd (Zmod.to_Z y')) -> on_curve (Affine x' y') -> False) ->
    forall x y, on_curve (Affine x y) -> t :: bx ++ by_ <> uncompressed_point x y /\ t :: bx ++ by_ <> hybrid_point x y).
  { intros HQ x' y' Hc. split; intros E; apply Hinv in E as (Et & Ex & Ey); apply (HQ x' y'); auto. }
  eapply Returns_bind; [exact (fe_set_b32_norm uninit_fe bx Hbx)|]. intros [ok x] [Hokx Hx]. destruct ok; cbn [negb].
  2: { apply Returns_ret, Hno. intros x' y' Ex _ _ _. symmetry in Hokx. apply Z.ltb_ge in Hokx. pose proof (Fp_range x'). lia. }
  eapply Returns_bind; [exact (fe_set_b32_norm uninit_fe by_ Hby)|]. intros [ok y] [Hoky Hy]. destruct ok; cbn [negb].
  2: { apply Returns_ret, Hno. intros x' y' _ Ey _ _. symmetry in Hoky. apply Z.ltb_ge in Hoky. pose proof (Fp_range y'). lia. }
  specialize (Hx eq_refl). specialize (Hy eq_refl). symmetry in Hokx, Hoky. apply Z.ltb_lt in Hokx, Hoky. set (X := toFp (be_value bx)) in *. set (Y := toFp (be_value by_)) in *.
  assert (HXY : forall x' y' : Fp, be_value bx = Zmod.to_Z x' -> be_value by_ = Zmod.to_Z y' -> x' = X /\ y' = Y) by (intros x' y' Ex Ey; unfold X, Y; rewrite Ex, Ey, !toFp_to_Z; auto).
  cbv zeta. apply Returns_bind with (P := fun w => w = hybrid_wrong t Y).
  { unfold hybrid_wrong. destruct ((t =? 6) || (t =? 7)); [|reflexivity]. eapply Returns_bind; [exact (fe_is_odd_ok _ _ Hy)|]. intros o ->. reflexivity. }
  intros w ->. unfold hybrid_wrong. destruct (((t =? 6) || (t =? 7)) && negb (Bool.eqb (Z.odd (Zmod.to_Z Y)) (t =? 7))) eqn:Ew.
  { apply Returns_ret, Hno. intros x' y' Ex Ey Et _. destruct (HXY x' y' Ex Ey) as [_ ->]. destruct Et as [->| ->]; [discriminate|]. destruct (Z.odd (Zmod.to_Z Y)); discriminate. }
  eapply Returns_bind; [exact (ge_is_valid_var_ok _ _ (ge_set_xy_ok x y X Y Hx Hy))|]. intros ok Hok. apply Returns_ret. destruct ok.
  - destruct (proj1 Hok eq_refl) as [_ Hc]. exists (Affine X Y). split; [|exact (ge_set_xy_ok x y X Y Hx Hy)]. exists X, Y. split; [reflexivity|]. split; [exact Hc|]. right.
    unfold uncompressed_point, hybrid_point, X, Y. rewrite !be_value_Fp by assumption. fold Y. destruct Ht as [->|[->| ->]]; [left; reflexivity | right | right];
      f_equal; destruct (Z.odd (Zmod.to_Z Y)); try reflexivity; discriminate.
  - apply Hno. intros x' y' Ex Ey _ Hc. destruct (HXY x' y' Ex Ey) as [-> ->]. assert (false = true); [|discriminate]. apply Hok. split; [discriminate | exact Hc].
Qed.

Lemma eckey_pubkey_parse_ok elem pub : is_bytes pub ->
  Returns (secp256k1_eckey_pubkey_parse elem pub) (fun '(ok, ge) => if ok then exists P, encodes pub P /\ ge_ok ge P else forall P, ~ encodes pub P).
Proof.
  intros Hb. assert (Hlen : forall x y, (length (compressed_point x y) = 33 /\ length (uncompressed_point x y) = 65 /\ length (hybrid_point x y) = 65)%nat).
  { intros x y. unfold compressed_point, uncompressed_point, hybrid_point. cbn [length]. rewrite !length_app, !length_be_bytes. auto. }
  assert (Hhd : forall x y, (hd 0 (compressed_point x y) = 2 \/ hd 0 (compressed_point x y) = 3) /\ hd 0 (uncompressed_point x y) = 4 /\
    (hd 0 (hybrid_point x y) = 6 \/ hd 0 (hybrid_point x y) = 7)) by (intros x y; cbn [hd compressed_point uncompressed_point hybrid_point]; destruct (Z.odd (Zmod.to_Z y)); cbn; lia).
  unfold secp256k1_eckey_pubkey_parse. cbv zeta. destruct ((Z.of_nat (length pub) =? 33) && ((hd 0 pub =? 2) || (hd 0 pub =? 3))) eqn:E1.
  - apply andb_true_iff in E1 as [E1 E2]. apply Z.eqb_eq in E1. apply orb_true_iff in E2. rewrite !Z.eqb_eq in E2. destruct pub as [|t bx]; [discriminate|]. cbn [hd skipn length] in *.
    apply Forall_cons_iff in Hb. eapply Returns_mono; [apply (parse_compressed_ok elem t bx); [split; [lia | apply Hb] | exact E2]|]. intros [ok ge]. destruct ok; [auto|].
    intros Hn P (x & y & -> & Hc & [E|[E|E]]); [exact (Hn x y Hc E)| |]; apply (f_equal (@length Z)) in E; cbn [length] in E; destruct (Hlen x y) as (_ & ? & ?); lia.
  - destruct ((Z.of_nat (length pub) =? 65) && ((hd 0 pub =? 4) || (hd 0 pub =? 6) || (hd 0 pub =? 7))) eqn:E2.
    + apply andb_true_iff in E2 as [E2 E3]. apply Z.eqb_eq in E2. rewrite !orb_true_iff, !Z.eqb_eq in E3. destruct pub as [|t b]; [discriminate|]. cbn [hd length] in *.
      apply Forall_cons_iff in Hb. destruct Hb as [_ Hb]. change (skipn 33 (t :: b)) with (skipn 32 b). change (skipn 1 (t :: b)) with b. rewrite <- (firstn_skipn 32 b).
      set (bx := firstn 32 b). set (by_ := skipn 32 b). assert (Hbx : bytes_of_len 32 bx) by (apply (bytes_of_len_firstn 32 64); [split; [lia | exact Hb] | lia]).
      assert (Hby : bytes_of_len 32 by_) by (apply (bytes_of_len_skipn 32 32); split; [lia | exact Hb]). rewrite (firstn_exact 32 bx by_), (skipn_exact 32 bx by_) by apply Hbx.
      eapply Returns_mono; [apply (parse_uncompressed_ok elem t bx by_ Hbx Hby); lia|]. intros [ok ge]. destruct ok; [auto|].
      intros Hn P (x & y & -> & Hc & [E|[E|E]]); [|exact (proj1 (Hn x y Hc) E) | exact (proj2 (Hn x y Hc) E)].
      apply (f_equal (@length Z)) in E. cbn [length] in E. rewrite length_app, (proj1 Hbx), (proj1 Hby) in E. destruct (Hlen x y) as (? & _ & _); lia.
    + apply Returns_ret. intros P (x & y & -> & Hc & HE). destruct (Hlen x y) as (L1 & L2 & L3), (Hhd x y) as (H1 & H2 & H3).
      apply andb_false_iff in E1, E2. rewrite ?orb_false_iff, ?Z.eqb_neq in E1, E2. destruct HE as [->|[->| ->]]; lia.
Qed.

End Parse.

(** ** Writing a key *)

Definition encode_point (compressed : bool) (x y : Fp) : list Z := if compressed then compressed_point x y else uncompressed_point x y.

Lemma length_encode_point c x y : length (encode_point c x y) = if c then 33%nat else 65%nat.
Proof. unfold encode_point, compressed_point, uncompressed_point. destruct c; cbn [length]; rewrite ?length_app, !length_be_bytes; reflexivity. Qed.

Lemma encode_point_bytes c x y : is_bytes (encode_point c x y).
Proof.
  unfold encode_point, compressed_point, uncompressed_point. destruct c; constructor; try (unfold is_byte; destruct (Z.odd (Zmod.to_Z y)); cbn; lia).
  - apply be_bytes_wf.
  - apply Forall_app. split; apply be_bytes_wf.
Qed.

Lemma encode_point_encodes c x y : on_curve (Affine x y) -> encodes (encode_point c x y) (Affine x y).
Proof. intros H. exists x, y. split; [reflexivity|]. split; [exact H|]. destruct c; auto. Qed.

Section Write.
Context {F : FieldOps} {L : FieldLaws F} {SO : ScalarOps} {SL : ScalarLaws SO} {M : Memory F SO}.

Lemma eckey_pubkey_serialize_ok elem x y pub size c : ge_ok elem (Affine x y) -> (length (encode_point c x y) <= length pub)%nat ->
  Returns (secp256k1_eckey_pubkey_serialize elem pub size c) (fun '(ok, pub', size') =>
    ok = true /\ pub' = encode_point c x y ++ skipn (length (encode_point c x y)) pub /\ size' = Z.of_nat (length (encode_point c x y))).
Proof.
  intros Hge Hl. rewrite length_encode_point in *. unfold secp256k1_eckey_pubkey_serialize, secp256k1_ge_is_infinity. rewrite (ge_ok_finite _ _ Hge) by discriminate.
  pose proof Hge as (X & Y & HX & HY & E). rewrite (ge_ok_finite _ _ Hge) in E by discriminate. assert (X = x /\ Y = y) as [-> ->] by (split; congruence). clear E.
  eapply Returns_bind; [apply (fe_normalize_var_ok _ _ _ HX); lia|]. intros fx Hfx. eapply Returns_bind; [apply (fe_normalize_var_ok _ _ _ HY); lia|]. intros fy Hfy.
  eapply Returns_bind; [exact (fe_get_b32_ok _ _ Hfx)|]. intros bx ->. set (bx := be_bytes 32 (Zmod.to_Z x)). assert (Lx : length bx = 32%nat) by apply length_be_bytes.
  destruct pub as [|p0 pub]; [destruct c; cbn [length] in Hl; lia|].
  eapply Returns_bind with (P := fun b => b = p0 :: bx ++ skipn 32 pub).
  { apply store_ok; [rewrite Lx; cbn [length] in *; destruct c; lia|]. rewrite Lx. reflexivity. }
  intros b ->. destruct c.
  - eapply Returns_bind; [exact (fe_is_odd_ok _ _ Hfy)|]. intros o ->. eapply Returns_bind with (P := fun b => b = compressed_point x y ++ skipn 32 pub).
    + apply store_ok; [cbn [length]; lia|]. unfold compressed_point. cbn [length app firstn skipn Nat.add]. fold bx. destruct (Z.odd (Zmod.to_Z y)); reflexivity.
    + intros b ->. apply Returns_ret. auto.
  - eapply Returns_bind with (P := fun b => b = 4 :: bx ++ skipn 32 pub); [apply store_ok; [cbn [length]; lia | reflexivity]|]. intros b ->.
    eapply Returns_bind; [exact (fe_get_b32_ok _ _ Hfy)|]. intros b' ->. eapply Returns_bind with (P := fun b => b = uncompressed_point x y ++ skipn 64 pub).
    + apply store_ok; [cbn [length] in *; rewrite length_app, Lx, length_skipn, length_be_bytes; lia|]. rewrite length_be_bytes. unfold uncompressed_point. fold bx.
      change (firstn 33 (4 :: bx ++ skipn 32 pub)) with (4 :: firstn 32 (bx ++ skipn 32 pub)). rewrite (firstn_exact 32 bx) by exact Lx.
      change (skipn (33 + 32) (4 :: bx ++ skipn 32 pub)) with (skipn 64 (bx ++ skipn 32 pub)). rewrite skipn_app, Lx, skipn_skipn, skipn_all2 by lia. cbn [app]. rewrite <- app_assoc. reflexivity.
    + intros b ->. apply Returns_ret. auto.
Qed.

(** ** Tweaks *)

Lemma eckey_privkey_tweak_add_ok key tweak d t : sc_ok key d -> sc_ok tweak t ->
  Returns (secp256k1_eckey_privkey_tweak_add key tweak) (fun '(ok, k) => ok = negb (Zmod.eqb (d + t)%Zmod Zmod.zero) /\ sc_ok k (d + t)%Zmod).
Proof.
  intros Hd Ht. unfold secp256k1_eckey_privkey_tweak_add. eapply Returns_bind; [exact (sc_add_ok _ _ _ _ Hd Ht)|]. intros [o k] [_ Hk].
  rewrite (sc_is_zero_ok _ _ Hk). destruct (Zmod.eqb _ _); apply Returns_ret; auto.
Qed.

Lemma eckey_privkey_tweak_mul_ok key tweak d t : sc_ok key d -> sc_ok tweak t ->
  Returns (secp256k1_eckey_privkey_tweak_mul key tweak) (fun '(ok, k) => ok = negb (Zmod.eqb t Zmod.zero) /\ (ok = true -> sc_ok k (d * t)%Zmod)).
Proof.
  intros Hd Ht. unfold secp256k1_eckey_privkey_tweak_mul. rewrite (sc_is_zero_ok _ _ Ht). destruct (Zmod.eqb t Zmod.zero); [apply Returns_ret; split; [reflexivity | discriminate]|].
  eapply Returns_bind; [exact (sc_mul_ok _ _ _ _ Hd Ht)|]. intros k Hk. apply Returns_ret. auto.
Qed.

(** A Jacobian point that is the result of a tweak. *)
Lemma gej_infinity_iff a P : gej_ok a P -> gej_infinity a = true <-> P = Infinity.
Proof.
  intros (X & Y & Z & _ & HP). destruct (gej_infinity a); [tauto|]. destruct HP as [_ ->]. split; discriminate.
Qed.

Lemma eckey_pubkey_tweak_add_ok ctx key tweak Q t : ecmult_ready ctx -> ge_ok key Q -> on_curve Q -> Q <> Infinity -> sc_ok tweak t ->
  Returns (secp256k1_eckey_pubkey_tweak_add ctx key tweak) (fun '(ok, k) => (ok = true <-> padd Q (fmul t G) <> Infinity) /\ (ok = true -> ge_ok k (padd Q (fmul t G)))).
Proof.
  intros Hctx Hk HQ HQi Ht. unfold secp256k1_eckey_pubkey_tweak_add. eapply Returns_bind; [exact (gej_set_ge_ok _ _ Hk)|]. intros pt Hpt.
  pose proof (sc_set_int_ok 1 ltac:(lia)) as H1.
  eapply Returns_bind; [apply (ecmult_ok ctx pt Q _ tweak Hctx Hpt HQ (gej_ok_finite _ _ Hpt HQi) (proj1 H1) (proj1 Ht))|].
  intros r Hr. rewrite (sc_ok_fmul _ _ _ H1), (sc_ok_fmul _ _ _ Ht) in Hr. change (toFn 1) with (Zmod.one : Fn) in Hr. rewrite fmul_1 in Hr by exact HQ.
  unfold secp256k1_gej_is_infinity. pose proof (gej_infinity_iff _ _ Hr) as Hi. destruct (gej_infinity r).
  - apply Returns_ret. split; [split; [discriminate | intros E; exfalso; apply E, Hi; reflexivity] | discriminate].
  - eapply Returns_bind; [exact (ge_set_gej_ok _ _ Hr)|]. intros [k r'] [Hk' _]. apply Returns_ret. split; [|auto]. split; [|reflexivity]. intros _ E. apply Hi in E. discriminate.
Qed.

Lemma eckey_pubkey_tweak_mul_ok ctx key tweak Q t : ecmult_ready ctx -> ge_ok key Q -> on_curve Q -> Q <> Infinity -> sc_ok tweak t ->
  Returns (secp256k1_eckey_pubkey_tweak_mul ctx key tweak) (fun '(ok, k) => ok = negb (Zmod.eqb t Zmod.zero) /\ (ok = true -> ge_ok k (fmul t Q))).
Proof.
  intros Hctx Hk HQ HQi Ht. unfold secp256k1_eckey_pubkey_tweak_mul. rewrite (sc_is_zero_ok _ _ Ht). destruct (Zmod.eqb t Zmod.zero); [apply Returns_ret; split; [reflexivity | discriminate]|].
  pose proof (sc_set_int_ok 0 ltac:(lia)) as H0. eapply Returns_bind; [exact (gej_set_ge_ok _ _ Hk)|]. intros pt Hpt.
  eapply Returns_bind; [apply (ecmult_ok ctx pt Q tweak _ Hctx Hpt HQ (gej_ok_finite _ _ Hpt HQi) (proj1 Ht) (proj1 H0))|].
  intros r Hr. rewrite (sc_ok_fmul _ _ _ H0), (sc_ok_fmul _ _ _ Ht) in Hr. change (toFn 0) with (Zmod.zero : Fn) in Hr. rewrite fmul_zero, padd_infinity_r in Hr.
  eapply Returns_bind; [exact (ge_set_gej_ok _ _ Hr)|]. intros [k r'] [Hk' _]. apply Returns_ret. auto.
Qed.

End Write.
