(* ===== verification/ApiSpec.v ===== *)
(** * The public functions on valid arguments

    What the opaque objects hold, and the functional behaviour of the functions of
    [secp256k1.c] when no argument is illegal. *)

From Stdlib Require Import String ZArith Lia List Bool.
From S2P Require Import Prelude Modulus Bytes Field FieldImpl Curve CurveGroup CurveOrder Group GroupConv Scalar ScalarImpl Hash HashSpec Ecmult EcmultSpec EcmultGen EcmultGenSpec Objects Buffer Eckey Ecdsa Secp256k1 Der Signatures EcdsaSpec EckeySpec.
Import ListNotations.

#[local] Open Scope Z_scope.
#[local] Open Scope checked_scope.

(** [m] returns, its result satisfies [Q], and the illegal argument callback is not
    called. *)
Definition Quiet {A} (m : api A) (Q : A -> Prop) : Prop := Returns m (fun '(t, x) => t = [] /\ Q x).

(** ** Objects *)

(** A public key object that holds the coordinates of [P]. *)
Definition pubkey_obj (b : list Z) (P : point) : Prop :=
  exists x y, P = Affine x y /\ b = le_bytes 32 (Zmod.to_Z x) ++ le_bytes 32 (Zmod.to_Z y).

(** A parsed and valid public key. *)
Definition valid_pubkey (b : list Z) (P : point) : Prop := pubkey_obj b P /\ on_curve P.

Definition sig_obj (r s : Fn) : list Z := le_bytes 32 (Zmod.to_Z r) ++ le_bytes 32 (Zmod.to_Z s).

(** A secret key: 32 bytes that write a number between 0 and the order. *)
Definition seckey_of (b : list Z) (d : Fn) : Prop := bytes_of_len 32 b /\ be_value b = Zmod.to_Z d /\ d <> Zmod.zero.

(** The residue of 32 bytes. *)
Definition residue (b : list Z) : Fn := toFn (be_value b).

Lemma Quiet_done {A} (x : A) (Q : A -> Prop) : Q x -> Quiet (done x) Q.
Proof. intros H. split; [reflexivity | exact H]. Qed.

Lemma Quiet_bind {A B} (m : api A) (k : A -> api B) (P : A -> Prop) Q : Quiet m P -> (forall x, P x -> Quiet (k x) Q) -> Quiet (api_bind m k) Q.
Proof.
  intros Hm Hk. unfold Quiet. eapply api_bind_ok; [exact Hm|]. intros t x [-> HP]. eapply Returns_mono; [exact (Hk x HP)|]. intros [t' y] HQ. exact HQ.
Qed.

Lemma Quiet_step {A B} (m : checked A) (k : A -> api B) (P : A -> Prop) Q : Returns m P -> (forall x, P x -> Quiet (k x) Q) -> Quiet (bind m k) Q.
Proof. apply Returns_bind. Qed.

Lemma Quiet_mono {A} (m : api A) (P Q : A -> Prop) : Quiet m P -> (forall x, P x -> Q x) -> Quiet m Q.
Proof. intros H HQ. eapply Returns_mono; [exact H|]. intros [t x] [Ht Hx]. auto. Qed.

Lemma Quiet_arg {A} cb cond text (early : A) k Q : cond = true -> Quiet k Q -> Quiet (ARG_CHECK cb cond text early k) Q.
Proof. intros -> H. exact H. Qed.

Lemma seckey_residue b d : seckey_of b d -> residue b = d.
Proof. intros (_ & E & _). unfold residue. rewrite E. apply toFn_to_Z. Qed.

Lemma valid_pubkey_finite b P : valid_pubkey b P -> P <> Infinity.
Proof. intros [(x & y & -> & _) _]. discriminate. Qed.

Lemma Fp_le_value (x : Fp) : le_value (le_bytes 32 (Zmod.to_Z x)) = Zmod.to_Z x.
Proof. apply le_value_bytes, Fp_bytes. Qed.

Lemma pubkey_obj_inj b P P' : pubkey_obj b P -> pubkey_obj b P' -> P = P'.
Proof.
  intros (x & y & -> & ->) (x' & y' & -> & E). apply app_inv_length in E as [E1 E2]; [|rewrite !length_le_bytes; reflexivity].
  apply Affine_eq; apply Zmod.to_Z_inj; rewrite <- Fp_le_value; [rewrite E1 | rewrite E2]; apply Fp_le_value.
Qed.

Lemma pubkey_obj_unique b b' P : pubkey_obj b P -> pubkey_obj b' P -> b = b'.
Proof. intros (x & y & -> & ->) (x' & y' & E & ->). assert (x = x' /\ y = y') as [-> ->] by (split; congruence). reflexivity. Qed.

Lemma pubkey_obj_exists P : P <> Infinity -> exists b, pubkey_obj b P.
Proof. destruct P as [|x y]; [contradiction|]. intros _. eexists. exists x, y. split; reflexivity. Qed.

Lemma Fn_le_range (r : Fn) : 0 <= Zmod.to_Z r < 256 ^ Z.of_nat 32.
Proof. pose proof (Fn_range r). change (256 ^ Z.of_nat 32) with (2 ^ 256). assert (n < 2 ^ 256) by reflexivity. lia. Qed.

Lemma sig_obj_inj r s r' s' : sig_obj r s = sig_obj r' s' -> r = r' /\ s = s'.
Proof.
  intros E. apply app_inv_length in E as [E1 E2]; [|rewrite !length_le_bytes; reflexivity]. apply (f_equal le_value) in E1, E2.
  rewrite !le_value_bytes in E1, E2 by apply Fn_le_range. split; apply Zmod.to_Z_inj; assumption.
Qed.

Lemma some_inj {T} (a b : T) : Some a = Some b -> a = b.
Proof. congruence. Qed.

Section Objects.
Context {F : FieldOps} {L : FieldLaws F} {SO : ScalarOps} {SL : ScalarLaws SO} {Ob : Objects F SO} {OL : ObjectLaws L SL Ob} {M : Memory F SO}.

Lemma sizeof_ge_storage_64 : (sizeof_ge_storage =? 64) = true.
Proof. unfold sizeof_ge_storage. rewrite sizeof_fe_storage_law. reflexivity. Qed.

Lemma sizeof_scalar_32 : (sizeof_scalar =? 32) = true.
Proof. rewrite sizeof_scalar_law. reflexivity. Qed.

Lemma storage_of_bytes (x : Fp) : storage_ok (bytes_storage (le_bytes 32 (Zmod.to_Z x))) x.
Proof. destruct (bytes_storage_law _ (le_bytes_wf 32 (Zmod.to_Z x))) as [H E]. split; [exact H|]. rewrite E. apply Fp_le_value. Qed.

Lemma bytes_of_storage s x : storage_ok s x -> storage_bytes s = le_bytes 32 (Zmod.to_Z x).
Proof. intros [H E]. rewrite (proj1 (storage_bytes_law s H)), E. reflexivity. Qed.

Lemma scalar_of_bytes (r : Fn) : sc_ok (bytes_scalar (le_bytes 32 (Zmod.to_Z r))) r.
Proof.
  pose proof (Fn_range r). destruct (bytes_scalar_law _ (le_bytes_wf 32 (Zmod.to_Z r))) as [H1 H2]; rewrite le_value_bytes in * by apply Fn_le_range; [lia|]. split; assumption.
Qed.

Lemma bytes_of_scalar a r : sc_ok a r -> scalar_bytes a = le_bytes 32 (Zmod.to_Z r).
Proof. intros [H E]. rewrite (proj1 (scalar_bytes_law a H)), E. reflexivity. Qed.

Lemma pubkey_save_ok ge P : ge_ok ge P -> P <> Infinity -> Returns (secp256k1_pubkey_save ge) (fun b => pubkey_obj b P).
Proof.
  intros Hge HP. unfold secp256k1_pubkey_save. rewrite sizeof_ge_storage_64. eapply Returns_bind; [exact (ge_to_storage_ok _ _ Hge (ge_ok_finite _ _ Hge HP))|].
  intros s (x & y & Hx & Hy & ->). apply Returns_ret. exists x, y. split; [reflexivity|]. rewrite (bytes_of_storage _ _ Hx), (bytes_of_storage _ _ Hy). reflexivity.
Qed.

(** The element that is loaded, before its abscissa is tested. *)
Lemma pubkey_load_point (ctx : secp256k1_context) b x y (Q : list string * (bool * secp256k1_ge) -> Prop) : pubkey_obj b (Affine x y) ->
  (forall ge, ge_ok ge (Affine x y) -> ge_infinity ge = false ->
     Returns (ARG_CHECK (illegal_callback ctx) (negb (Zmod.eqb x Zmod.zero)) "!secp256k1_fe_is_zero(&ge->x)" (false, ge) (done (true, ge))) Q) ->
  Returns (secp256k1_pubkey_load ctx b) Q.
Proof.
  intros (x' & y' & E & ->) HQ. assert (x' = x /\ y' = y) as [-> ->] by (split; congruence). unfold secp256k1_pubkey_load. rewrite sizeof_ge_storage_64.
  cbn [bind ret]. rewrite firstn_exact, skipn_exact by apply length_le_bytes.
  assert (Hge : ge_ok (secp256k1_ge_from_storage (mk_ge_storage (bytes_storage (le_bytes 32 (Zmod.to_Z x))) (bytes_storage (le_bytes 32 (Zmod.to_Z y))))) (Affine x y)).
  { apply ge_from_storage_ok. exists x, y. split; [apply storage_of_bytes|]. split; [apply storage_of_bytes | reflexivity]. }
  eapply Returns_bind; [apply (fe_is_zero_ok _ x), fe_from_storage_norm, storage_of_bytes|]. intros z ->. apply HQ; [exact Hge | reflexivity].
Qed.

Lemma pubkey_load_ok ctx b P : valid_pubkey b P -> Quiet (secp256k1_pubkey_load ctx b) (fun '(ok, ge) => ok = true /\ ge_ok ge P).
Proof.
  intros [Hb HP]. pose proof Hb as (x & y & -> & _). apply (pubkey_load_point ctx b x y); [exact Hb|]. intros ge Hge _. pose proof (on_curve_x_nonzero x y HP) as Hx.
  destruct (Zmod.eqb_spec x Zmod.zero); [contradiction|]. split; [reflexivity|]. auto.
Qed.

Lemma signature_load_ok r s : Returns (secp256k1_ecdsa_signature_load (sig_obj r s)) (fun '(a, b) => sc_ok a r /\ sc_ok b s).
Proof.
  unfold secp256k1_ecdsa_signature_load, sig_obj. rewrite sizeof_scalar_32, firstn_exact, skipn_exact by apply length_le_bytes.
  apply Returns_ret. split; apply scalar_of_bytes.
Qed.

Lemma signature_save_ok a b r s : sc_ok a r -> sc_ok b s -> secp256k1_ecdsa_signature_save a b = sig_obj r s.
Proof. intros Ha Hb. unfold secp256k1_ecdsa_signature_save, sig_obj. rewrite sizeof_scalar_32, (bytes_of_scalar _ _ Ha), (bytes_of_scalar _ _ Hb). reflexivity. Qed.

Lemma zero_signature_obj : zero_signature = sig_obj Zmod.zero Zmod.zero.
Proof. reflexivity. Qed.

(** A secret key as a scalar, and the test the functions make of it. *)
Definition seckey_ok (b : list Z) : bool := (0 <? be_value b) && (be_value b <? n).

Lemma seckey_ok_of b : bytes_of_len 32 b -> seckey_ok b = true -> seckey_of b (residue b).
Proof.
  intros Hb E. apply andb_true_iff in E. rewrite !Z.ltb_lt in E. split; [exact Hb|]. unfold residue. split; [rewrite toFn_small; lia|].
  apply to_Z_nonzero. rewrite toFn_small; lia.
Qed.

Lemma seckey_of_ok b d : seckey_of b d -> seckey_ok b = true.
Proof. intros (_ & E & Hd). apply to_Z_nonzero in Hd. pose proof (Fn_range d). unfold seckey_ok. apply andb_true_iff. rewrite !Z.ltb_lt. lia. Qed.

Lemma set_seckey_ok b : bytes_of_len 32 b ->
  Returns (secp256k1_scalar_set_b32 b) (fun '(o, a) => (o =? 0) && negb (secp256k1_scalar_is_zero a) = seckey_ok b /\ sc_ok a (residue b) /\ (o =? 0) = (be_value b <? n)).
Proof.
  intros Hb. pose proof (be_value_range _ _ Hb) as HV. eapply Returns_mono; [exact (sc_set_b32_ok b Hb)|]. intros [o a] [-> Ha]. split; [|split; [exact Ha|]].
  - rewrite (sc_is_zero_ok _ _ Ha). unfold seckey_ok, residue. rewrite Z.ltb_antisym, (Z.ltb_antisym n). destruct (Z.leb_spec n (be_value b)); cbn [Z.b2z Z.eqb negb andb]; [rewrite andb_false_r; reflexivity|].
    rewrite andb_true_r. f_equal. unfold Zmod.eqb. rewrite toFn_small by lia. change (Zmod.to_Z Zmod.zero) with 0. destruct (Z.eqb_spec (be_value b) 0), (Z.leb_spec (be_value b) 0); lia || reflexivity.
  - rewrite Z.ltb_antisym. destruct (n <=? be_value b); reflexivity.
Qed.

End Objects.
