(* ===== verification/ApiKeys.v ===== *)
(** * Keys, signatures and contexts through the public functions

    The functional behaviour of the functions of [secp256k1.c], other than signing,
    on arguments that are not NULL and contexts that have their tables. *)

From Stdlib Require Import String ZArith Lia List Bool.
From S2P Require Import Prelude Modulus Bytes Field FieldImpl Curve CurveGroup CurveOrder Group GroupConv Scalar ScalarImpl Hash HashSpec Ecmult EcmultSpec EcmultGen EcmultGenSpec Objects Buffer Eckey Ecdsa Secp256k1 Der Signatures EcdsaSpec EckeySpec ApiSpec.
Import ListNotations.

#[local] Open Scope Z_scope.
#[local] Open Scope checked_scope.

Section Keys.
Context {F : FieldOps} {L : FieldLaws F} {SO : ScalarOps} {SL : ScalarLaws SO} {Ob : Objects F SO} {OL : ObjectLaws L SL Ob} {M : Memory F SO} {H : HashMemory} {A : ApiMemory}.

(** The tables of a context are built. *)
Definition verify_ready (ctx : secp256k1_context) : Prop := ecmult_ready (ecmult_ctx ctx).
Definition sign_ready (ctx : secp256k1_context) : Prop := gen_ready (ecmult_gen_ctx ctx).

Lemma verify_ready_built ctx : verify_ready ctx -> secp256k1_ecmult_context_is_built (ecmult_ctx ctx) = true.
Proof. intros [(pre & E & _) _]. unfold secp256k1_ecmult_context_is_built. rewrite E. reflexivity. Qed.

Lemma sign_ready_built ctx : sign_ready ctx -> secp256k1_ecmult_gen_context_is_built (ecmult_gen_ctx ctx) = true.
Proof. intros ((rows & E & _) & _). unfold secp256k1_ecmult_gen_context_is_built. rewrite E. reflexivity. Qed.

(** ** Public keys *)

Lemma skipn_repeat {T} (x : T) j k : skipn j (repeat x k) = repeat x (k - j).
Proof. revert j. induction k as [|k IH]; intros [|j]; try reflexivity. apply IH. Qed.

Lemma ec_pubkey_parse_ok ctx pk input : is_bytes input ->
  Quiet (secp256k1_ec_pubkey_parse ctx (Some pk) (Some input)) (fun '(o, ok) =>
    if ok then exists b P, o = Some b /\ valid_pubkey b P /\ encodes input P else o = Some zero_pubkey /\ forall P, ~ encodes input P).
Proof.
  intros Hb. unfold secp256k1_ec_pubkey_parse. cbn [ARG_PTR]. eapply Quiet_step; [exact (eckey_pubkey_parse_ok uninit_ge input Hb)|].
  intros [ok Q] HQ. destruct ok; cbn [negb]; [|apply Quiet_done; auto]. destruct HQ as (P & HP & Hge).
  assert (Hinf : P <> Infinity /\ on_curve P) by (destruct HP as (x & y & -> & Hc & _); split; [discriminate | exact Hc]).
  eapply Quiet_step; [exact (pubkey_save_ok _ _ Hge (proj1 Hinf))|]. intros b Hb'. apply Quiet_done. exists b, P. split; [reflexivity|]. split; [split; [exact Hb' | apply Hinf] | exact HP].
Qed.

Lemma ec_pubkey_serialize_ok ctx out len pk x y (c : bool) : valid_pubkey pk (Affine x y) ->
  let e := encode_point c x y in
  Z.of_nat (length e) <= len <= Z.of_nat (length out) ->
  Quiet (secp256k1_ec_pubkey_serialize ctx (Some out) (Some len) (Some pk) (if c then SECP256K1_EC_COMPRESSED else SECP256K1_EC_UNCOMPRESSED))
    (fun '(o, l, ok) => ok = true /\ l = Some (Z.of_nat (length e)) /\ o = Some (e ++ repeat 0 (Z.to_nat len - length e) ++ skipn (Z.to_nat len) out)).
Proof.
  intros Hpk e Hl. unfold secp256k1_ec_pubkey_serialize. cbn [ARG_PTR]. replace (negb _) with c by (destruct c; reflexivity).
  assert (Ze : Z.of_nat (length e) = if c then 33 else 65) by (unfold e; rewrite length_encode_point; destruct c; reflexivity).
  apply Quiet_arg; [apply Z.leb_le; destruct c; lia|].
  eapply Quiet_step with (P := fun b => b = repeat 0 (Z.to_nat len) ++ skipn (Z.to_nat len) out); [apply store_ok; rewrite repeat_length; [lia | reflexivity]|].
  intros b ->. apply Quiet_arg; [destruct c; reflexivity|]. eapply Quiet_bind; [exact (pubkey_load_ok ctx pk _ Hpk)|]. intros [ok Q] [-> HQ]. cbn [negb].
  eapply Quiet_step; [apply (eckey_pubkey_serialize_ok Q x y _ len c HQ); fold e; rewrite length_app, repeat_length; lia|]. intros [[ok o] l] (-> & -> & ->).
  apply Quiet_done. fold e. split; [reflexivity|]. split; [reflexivity|]. do 2 f_equal. rewrite skipn_app, repeat_length, skipn_repeat.
  replace (length e - Z.to_nat len)%nat with 0%nat by lia. reflexivity.
Qed.

(** ** Secret keys *)

Lemma ec_seckey_verify_ok ctx seckey : bytes_of_len 32 seckey -> Quiet (secp256k1_ec_seckey_verify ctx (Some seckey)) (fun ok => ok = seckey_ok seckey).
Proof.
  intros Hb. unfold secp256k1_ec_seckey_verify. cbn [ARG_PTR]. eapply Quiet_step; [exact (set_seckey_ok seckey Hb)|]. intros [o a] (E & _). apply Quiet_done, E.
Qed.

Lemma ec_pubkey_create_ok ctx pk seckey : sign_ready ctx -> bytes_of_len 32 seckey ->
  Quiet (secp256k1_ec_pubkey_create ctx (Some pk) (Some seckey)) (fun '(o, ok) => ok = seckey_ok seckey /\
    if ok then exists b, o = Some b /\ valid_pubkey b (fmul (residue seckey) G) else o = Some zero_pubkey).
Proof.
  intros Hctx Hb. unfold secp256k1_ec_pubkey_create. cbn [ARG_PTR]. apply Quiet_arg; [apply sign_ready_built, Hctx|]. cbn [ARG_PTR].
  eapply Quiet_step; [exact (set_seckey_ok seckey Hb)|]. intros [o a] (E & Ha & _). rewrite E. destruct (seckey_ok seckey) eqn:Es; [|apply Quiet_done; auto].
  eapply Quiet_step; [exact (ecmult_gen_ok _ a Hctx (proj1 Ha))|]. intros pj Hpj. rewrite (sc_ok_fmul _ _ _ Ha) in Hpj.
  eapply Quiet_step; [exact (ge_set_gej_ok _ _ Hpj)|]. intros [q pj'] [Hq _]. destruct (seckey_ok_of seckey Hb Es) as (_ & _ & Hnz).
  eapply Quiet_step; [apply (pubkey_save_ok _ _ Hq), fmul_finite; [apply G_on_curve | discriminate | exact Hnz]|]. intros b Hb'.
  apply Quiet_done. split; [reflexivity|]. exists b. split; [reflexivity|]. split; [exact Hb' | apply fmul_on_curve, G_on_curve].
Qed.

(** ** Tweaks *)

Lemma ec_privkey_tweak_add_ok ctx seckey tweak : bytes_of_len 32 seckey -> bytes_of_len 32 tweak ->
  let d := (residue seckey + residue tweak)%Zmod in
  Quiet (secp256k1_ec_privkey_tweak_add ctx (Some seckey) (Some tweak)) (fun '(o, ok) => ok = (be_value tweak <? n) && negb (Zmod.eqb d Zmod.zero) /\
    o = Some (if ok then be_bytes 32 (Zmod.to_Z d) else repeat 0 32)).
Proof.
  intros Hs Ht d. unfold secp256k1_ec_privkey_tweak_add. cbn [ARG_PTR]. eapply Quiet_step; [exact (set_seckey_ok tweak Ht)|]. intros [o t] (_ & Hsc & Eo).
  eapply Quiet_step; [exact (set_seckey_ok seckey Hs)|]. intros [o' a] (_ & Ha & _). rewrite Eo.
  eapply Quiet_step with (P := fun '(ok, k) => ok = (be_value tweak <? n) && negb (Zmod.eqb d Zmod.zero) /\ (ok = true -> sc_ok k d)).
  - destruct (be_value tweak <? n); [|apply Returns_ret; split; [reflexivity | discriminate]].
    eapply Returns_mono; [exact (eckey_privkey_tweak_add_ok _ _ _ _ Ha Hsc)|]. intros [ok k] [-> Hk]. auto.
  - intros [ok k] [-> Hk]. apply Quiet_done. split; [reflexivity|]. destruct (_ && _); [|reflexivity]. rewrite (sc_get_b32_ok _ _ (Hk eq_refl)). reflexivity.
Qed.

Lemma ec_privkey_tweak_mul_ok ctx seckey tweak : bytes_of_len 32 seckey -> bytes_of_len 32 tweak ->
  let d := (residue seckey * residue tweak)%Zmod in
  Quiet (secp256k1_ec_privkey_tweak_mul ctx (Some seckey) (Some tweak)) (fun '(o, ok) => ok = seckey_ok tweak /\
    o = Some (if ok then be_bytes 32 (Zmod.to_Z d) else repeat 0 32)).
Proof.
  intros Hs Ht d. unfold secp256k1_ec_privkey_tweak_mul. cbn [ARG_PTR]. eapply Quiet_step; [exact (set_seckey_ok tweak Ht)|]. intros [o t] (E & Hsc & Eo).
  eapply Quiet_step; [exact (set_seckey_ok seckey Hs)|]. intros [o' a] (_ & Ha & _). rewrite (sc_is_zero_ok _ _ Hsc) in E.
  eapply Quiet_step with (P := fun '(ok, k) => ok = seckey_ok tweak /\ (ok = true -> sc_ok k d)).
  - destruct (o =? 0); [|apply Returns_ret; split; [exact E | discriminate]].
    eapply Returns_mono; [exact (eckey_privkey_tweak_mul_ok _ _ _ _ Ha Hsc)|]. intros [ok k] [-> Hk]. split; [exact E | exact Hk].
  - intros [ok k] [-> Hk]. apply Quiet_done. split; [reflexivity|]. destruct (seckey_ok tweak); [|reflexivity]. rewrite (sc_get_b32_ok _ _ (Hk eq_refl)). reflexivity.
Qed.

(** The part the two tweaks of a public key share: [Q'] is the tweaked key, which the
    inner function computes when it succeeds. *)
Lemma pubkey_tweak_finish ctx pk Q Q' (ok0 : bool) (f : secp256k1_ge -> checked (bool * secp256k1_ge)) : valid_pubkey pk Q -> on_curve Q' -> (ok0 = true -> Q' <> Infinity) ->
  (forall p, ge_ok p Q -> Returns (f p) (fun '(ok, k) => ok = ok0 /\ (ok = true -> ge_ok k Q'))) ->
  Quiet (' (ok, p) <~ secp256k1_pubkey_load ctx pk;;
    if negb ok then done (Some zero_pubkey, false) else
    ' (ok, p) <- f p;;
    if negb ok then done (Some zero_pubkey, false) else
    pubkey <- secp256k1_pubkey_save p;;
    done (Some pubkey, true)) (fun '(o, ok) => ok = ok0 /\ if ok then exists b, o = Some b /\ valid_pubkey b Q' else o = Some zero_pubkey).
Proof.
  intros Hpk HQ' Hfin Hf. eapply Quiet_bind; [exact (pubkey_load_ok ctx pk Q Hpk)|]. intros [ok p] [-> Hp]. cbn [negb].
  eapply Quiet_step; [exact (Hf p Hp)|]. intros [ok k] [-> Hk]. destruct ok0; cbn [negb]; [|apply Quiet_done; auto].
  eapply Quiet_step; [exact (pubkey_save_ok _ _ (Hk eq_refl) (Hfin eq_refl))|]. intros b Hb. apply Quiet_done. split; [reflexivity|]. exists b. split; [reflexivity | split; assumption].
Qed.

Definition is_finite (P : point) : bool := match P with Infinity => false | Affine _ _ => true end.

Lemma ec_pubkey_tweak_add_ok ctx pk Q tweak : verify_ready ctx -> valid_pubkey pk Q -> bytes_of_len 32 tweak ->
  let Q' := padd Q (fmul (residue tweak) G) in
  Quiet (secp256k1_ec_pubkey_tweak_add ctx (Some pk) (Some tweak)) (fun '(o, ok) => ok = (be_value tweak <? n) && is_finite Q' /\
    if ok then exists b, o = Some b /\ valid_pubkey b Q' else o = Some zero_pubkey).
Proof.
  intros Hctx Hpk Ht Q'. unfold secp256k1_ec_pubkey_tweak_add. apply Quiet_arg; [apply verify_ready_built, Hctx|]. cbn [ARG_PTR].
  eapply Quiet_step; [exact (set_seckey_ok tweak Ht)|]. intros [o t] (_ & Hsc & Eo). rewrite Eo. destruct (be_value tweak <? n); cbn [negb]; [|apply Quiet_done; auto].
  assert (HQ' : on_curve Q') by (apply padd_closed; [apply Hpk | apply fmul_on_curve, G_on_curve]).
  apply (pubkey_tweak_finish ctx pk Q Q' (is_finite Q')); [exact Hpk | exact HQ' | destruct Q'; [discriminate | discriminate]|].
  intros q Hq. eapply Returns_mono; [apply (eckey_pubkey_tweak_add_ok _ _ _ Q (residue tweak) Hctx Hq (proj2 Hpk) (valid_pubkey_finite _ _ Hpk) Hsc)|].
  intros [ok k] [Hok Hk]. split; [|exact Hk]. fold Q' in Hok. apply eq_true_iff_eq. rewrite Hok. destruct Q'; cbn; split; intros; congruence.
Qed.

Lemma ec_pubkey_tweak_mul_ok ctx pk Q tweak : verify_ready ctx -> valid_pubkey pk Q -> bytes_of_len 32 tweak ->
  let Q' := fmul (residue tweak) Q in
  Quiet (secp256k1_ec_pubkey_tweak_mul ctx (Some pk) (Some tweak)) (fun '(o, ok) => ok = seckey_ok tweak /\
    if ok then exists b, o = Some b /\ valid_pubkey b Q' else o = Some zero_pubkey).
Proof.
  intros Hctx Hpk Ht Q'. unfold secp256k1_ec_pubkey_tweak_mul. apply Quiet_arg; [apply verify_ready_built, Hctx|]. cbn [ARG_PTR].
  eapply Quiet_step; [exact (set_seckey_ok tweak Ht)|]. intros [o t] (E & Hsc & Eo). rewrite (sc_is_zero_ok _ _ Hsc) in E. rewrite Eo in *.
  destruct (be_value tweak <? n); cbn [negb andb] in *; [|rewrite <- E; apply Quiet_done; auto].
  apply (pubkey_tweak_finish ctx pk Q Q' (seckey_ok tweak)); [exact Hpk | apply fmul_on_curve, Hpk | |].
  - intros Es. apply fmul_finite; [apply Hpk | exact (valid_pubkey_finite _ _ Hpk) | apply (seckey_ok_of tweak Ht Es)].
  - intros q Hq. eapply Returns_mono; [apply (eckey_pubkey_tweak_mul_ok _ _ _ Q (residue tweak) Hctx Hq (proj2 Hpk) (valid_pubkey_finite _ _ Hpk) Hsc)|].
    intros [ok k] [-> Hk]. split; [exact E | exact Hk].
Qed.

(** ** Sums of public keys *)

Fixpoint psum (l : list point) : point := match l with [] => Infinity | P :: l' => padd P (psum l') end.

Lemma psum_on_curve l : Forall on_curve l -> on_curve (psum l).
Proof. induction 1 as [|P l HP _ IH]; [exact I | apply padd_closed; assumption]. Qed.

Lemma combine_loop_ok ctx pks Ps : Forall2 valid_pubkey pks Ps -> forall Qj Q, gej_ok Qj Q -> on_curve Q ->
  Quiet (combine_loop (length pks) ctx pks Qj) (fun r => gej_ok r (padd Q (psum Ps))).
Proof.
  induction 1 as [|pk P pks Ps Hpk HF IH]; intros Qj Q HQ Hc; cbn [combine_loop length psum]; [apply Quiet_done; rewrite padd_infinity_r; exact HQ|].
  eapply Quiet_bind; [exact (pubkey_load_ok ctx pk P Hpk)|]. intros [ok ge] [_ Hge].
  eapply Quiet_step; [apply (gej_add_ge_ok _ _ Q P HQ Hge (ge_ok_finite _ _ Hge (valid_pubkey_finite _ _ Hpk)) Hc (proj2 Hpk))|]. intros r Hr.
  rewrite <- padd_assoc; [|exact Hc | apply Hpk | apply psum_on_curve; clear - HF; induction HF; constructor; [apply H | assumption]].
  apply IH; [exact Hr | apply padd_closed; [exact Hc | apply Hpk]].
Qed.

(** C21: the combination of public keys is their sum on the curve, and it fails exactly
    when that is the point at infinity. *)
Theorem ec_pubkey_combine_ok ctx out pks Ps : Forall2 valid_pubkey pks Ps -> pks <> [] ->
  Quiet (secp256k1_ec_pubkey_combine ctx (Some out) (Some pks) (Z.of_nat (length pks))) (fun '(o, ok) => ok = is_finite (psum Ps) /\
    if ok then exists b, o = Some b /\ valid_pubkey b (psum Ps) else o = Some zero_pubkey).
Proof.
  intros HF Hne. assert (HC : on_curve (psum Ps)) by (apply psum_on_curve; clear - HF; induction HF; constructor; [apply H | assumption]).
  unfold secp256k1_ec_pubkey_combine. cbn [ARG_PTR]. apply Quiet_arg; [apply Z.leb_le; destruct pks; [contradiction | cbn [length]; lia]|]. cbn [ARG_PTR].
  rewrite Nat2Z.id. eapply Quiet_bind; [exact (combine_loop_ok ctx pks Ps HF _ Infinity (gej_infinity_ok Infinity eq_refl) I)|]. intros r Hr. cbn [padd] in Hr.
  unfold secp256k1_gej_is_infinity. pose proof (gej_infinity_iff _ _ Hr) as Hi. destruct (gej_infinity r).
  - rewrite (proj1 Hi eq_refl). apply Quiet_done. auto.
  - assert (Hfin : psum Ps <> Infinity) by (intros E; apply Hi in E; discriminate). eapply Quiet_step; [exact (ge_set_gej_ok _ _ Hr)|]. intros [q r'] [Hq _].
    eapply Quiet_step; [exact (pubkey_save_ok _ _ Hq Hfin)|]. intros b Hb. apply Quiet_done. split; [destruct (psum Ps); [contradiction | reflexivity]|]. exists b. split; [reflexivity | split; assumption].
Qed.

End Keys.
