(* ===== verification/ApiSign.v ===== *)
(** * Signatures through the public functions

    Parsing, serializing, verifying, signing and recovery, on arguments that are not
    NULL and contexts that have their tables. *)

From Stdlib Require Import String ZArith Lia List Bool.
From S2P Require Import Prelude Modulus Bytes Field FieldImpl Curve CurveGroup CurveOrder Group GroupConv Scalar ScalarImpl Hash HashSpec Ecmult EcmultSpec EcmultGen EcmultGenSpec Objects Buffer Eckey Ecdsa Secp256k1 Recovery Der Signatures EcdsaSpec EckeySpec ApiSpec ApiKeys.
Import ListNotations.

#[local] Open Scope Z_scope.
#[local] Open Scope checked_scope.

(** The compact form of a signature. *)
Definition compact (r s : Fn) : list Z := be_bytes 32 (Zmod.to_Z r) ++ be_bytes 32 (Zmod.to_Z s).

Definition recoverable_obj (r s : Fn) (recid : Z) : list Z := sig_obj r s ++ [recid].

Section Sign.
Context {F : FieldOps} {L : FieldLaws F} {SO : ScalarOps} {SL : ScalarLaws SO} {Ob : Objects F SO} {OL : ObjectLaws L SL Ob} {M : Memory F SO} {H : HashMemory} {A : ApiMemory}.

(** ** Parsing and serializing *)

(** The two scalars of 64 bytes and the test of their overflow. *)
Lemma set_two_ok {B} a b (k : Z -> secp256k1_scalar -> Z -> secp256k1_scalar -> checked B) (Q : B -> Prop) : bytes_of_len 32 a -> bytes_of_len 32 b ->
  (forall o r o' s, ((o =? 0) && (o' =? 0)) = (be_value a <? n) && (be_value b <? n) -> sc_ok r (residue a) -> sc_ok s (residue b) -> Returns (k o r o' s) Q) ->
  Returns (' (o, r) <- secp256k1_scalar_set_b32 a;; ' (o', s) <- secp256k1_scalar_set_b32 b;; k o r o' s) Q.
Proof.
  intros Ha Hb Hk. eapply Returns_bind; [exact (set_seckey_ok a Ha)|]. intros [o r] (_ & Hr & Eo). eapply Returns_bind; [exact (set_seckey_ok b Hb)|]. intros [o' s] (_ & Hs & Eo').
  apply Hk; [rewrite Eo, Eo'; reflexivity | exact Hr | exact Hs].
Qed.

Lemma signature_parse_compact_ok ctx sig a b : bytes_of_len 32 a -> bytes_of_len 32 b ->
  Quiet (secp256k1_ecdsa_signature_parse_compact ctx (Some sig) (Some (a ++ b))) (fun '(o, ok) => ok = (be_value a <? n) && (be_value b <? n) /\
    o = Some (if ok then sig_obj (residue a) (residue b) else zero_signature)).
Proof.
  intros Ha Hb. unfold secp256k1_ecdsa_signature_parse_compact. cbn [ARG_PTR]. rewrite firstn_exact, skipn_exact by apply Ha.
  eapply (set_two_ok a b (fun o r o' s => if (o =? 0) && (o' =? 0) then done (Some (secp256k1_ecdsa_signature_save r s), true) else done (Some zero_signature, false))); [exact Ha | exact Hb|].
  intros o r o' s E Hr Hs. rewrite E. clear E. destruct ((be_value a <? n) && (be_value b <? n)); apply Returns_ret; cbv beta iota; (split; [reflexivity|]; split; [reflexivity|]); [rewrite (signature_save_ok _ _ _ _ Hr Hs)|]; reflexivity.
Qed.

Lemma store_two b0 a b : bytes_of_len 64 b0 -> length a = 32%nat -> length b = 32%nat ->
  Returns (o <- store b0 0 a;; store o 32 b) (fun o => o = a ++ b).
Proof.
  intros [Hl _] Ha Hb. eapply Returns_bind with (P := fun o => o = a ++ skipn 32 b0); [apply store_ok; [lia|]; rewrite Ha; reflexivity|]. intros o ->.
  apply store_ok; [rewrite length_app, length_skipn; lia|]. rewrite firstn_exact by exact Ha. rewrite Hb, skipn_all2 by (rewrite length_app, length_skipn; lia). rewrite app_nil_r. reflexivity.
Qed.

Lemma signature_serialize_compact_ok ctx out r s : bytes_of_len 64 out ->
  Quiet (secp256k1_ecdsa_signature_serialize_compact ctx (Some out) (Some (sig_obj r s))) (fun '(o, ok) => ok = true /\ o = Some (compact r s)).
Proof.
  intros Hout. unfold secp256k1_ecdsa_signature_serialize_compact. cbn [ARG_PTR]. eapply Quiet_step; [exact (signature_load_ok r s)|]. intros [a b] [Ha Hb].
  rewrite (sc_get_b32_ok _ _ Ha), (sc_get_b32_ok _ _ Hb). unfold Quiet.
  pose proof (store_two out (be_bytes 32 (Zmod.to_Z r)) (be_bytes 32 (Zmod.to_Z s)) Hout (length_be_bytes _ _) (length_be_bytes _ _)) as HS.
  destruct (store out 0 _) as [o|]; [|contradiction]. cbn [bind] in *. eapply Returns_bind; [exact HS|]. intros o' ->. split; auto.
Qed.

Lemma signature_normalize_ok ctx out r s :
  Quiet (secp256k1_ecdsa_signature_normalize ctx out (Some (sig_obj r s))) (fun '(o, high) => high = Z.b2z (n / 2 <? Zmod.to_Z s) /\
    o = match out with Some _ => Some (sig_obj r (lower_s s)) | None => None end).
Proof.
  unfold secp256k1_ecdsa_signature_normalize. cbn [ARG_PTR]. eapply Quiet_step; [exact (signature_load_ok r s)|]. intros [a b] [Ha Hb].
  rewrite (sc_is_high_ok _ _ Hb). unfold lower_s. destruct out; [|apply Quiet_done; auto]. destruct (n / 2 <? Zmod.to_Z s); cbn [Z.b2z Z.eqb]; apply Quiet_done; (split; [reflexivity|]).
  - rewrite (signature_save_ok _ _ _ _ Ha (sc_negate_ok _ _ Hb)). reflexivity.
  - rewrite (signature_save_ok _ _ _ _ Ha Hb). reflexivity.
Qed.

Lemma signature_parse_der_ok ctx sig input : is_bytes input -> Z.of_nat (length input) < 2 ^ 31 ->
  Quiet (secp256k1_ecdsa_signature_parse_der ctx (Some sig) (Some input)) (fun '(o, ok) =>
    (ok = true -> exists c d, is_bytes c /\ der_minimal c /\ is_bytes d /\ der_minimal d /\ input = der_signature c d /\
       o = Some (sig_obj (toFn (der_scalar c)) (toFn (der_scalar d)))) /\
    (ok = false -> o = Some zero_signature)).
Proof.
  intros Hb Hl. unfold secp256k1_ecdsa_signature_parse_der. cbn [ARG_PTR]. eapply Quiet_step; [exact (ecdsa_sig_parse_spec uninit_scalar uninit_scalar input Hb Hl)|].
  intros [[ok r] s] HQ. destruct ok; apply Quiet_done; [split; [intros _|discriminate] | split; [discriminate | reflexivity]]. destruct (HQ eq_refl) as (c & d & [H1 H2] & [H3 H4] & E & Hr & Er & Hs & Es).
  exists c, d. repeat split; auto. rewrite <- Er, <- Es. rewrite (signature_save_ok _ _ _ _ (sc_ok_wf _ Hr) (sc_ok_wf _ Hs)). reflexivity.
Qed.

Lemma signature_serialize_der_ok ctx out len r s : 0 <= len <= Z.of_nat (length out) ->
  let e := der_encode (Zmod.to_Z r) (Zmod.to_Z s) in
  Quiet (secp256k1_ecdsa_signature_serialize_der ctx (Some out) (Some len) (Some (sig_obj r s))) (fun '(o, l, ok) => l = Some (Z.of_nat (length e)) /\
    if len <? Z.of_nat (length e) then ok = false /\ o = Some out else ok = true /\ o = Some (e ++ skipn (length e) out)).
Proof.
  intros Hlen e. unfold secp256k1_ecdsa_signature_serialize_der. cbn [ARG_PTR]. eapply Quiet_step; [exact (signature_load_ok r s)|]. intros [a b] [[Ha Ea] [Hb Eb]].
  pose proof (ecdsa_sig_serialize_spec out len a b Ha Hb Hlen) as HS. cbv zeta in HS. rewrite Ea, Eb in HS. eapply Quiet_step; [exact HS|].
  intros [[ok l] o] [-> HQ]. apply Quiet_done. split; [reflexivity|]. unfold e. destruct (_ <? _); destruct HQ as [-> ->]; auto.
Qed.

(** ** Verification *)

Lemma ecdsa_verify_ok ctx r s msg pk Q : verify_ready ctx -> bytes_of_len 32 msg -> valid_pubkey pk Q ->
  Quiet (secp256k1_ecdsa_verify ctx (Some (sig_obj r s)) (Some msg) (Some pk)) (fun ok => ok = true <-> low_s s /\ ecdsa_valid Q (residue msg) r s).
Proof.
  intros Hctx Hmsg Hpk. unfold secp256k1_ecdsa_verify. apply Quiet_arg; [apply verify_ready_built, Hctx|]. cbn [ARG_PTR].
  eapply Quiet_step; [exact (sc_set_b32_ok msg Hmsg)|]. intros [o m] [_ Hm]. eapply Quiet_step; [exact (signature_load_ok r s)|]. intros [a b] [Ha Hb].
  rewrite (sc_is_high_ok _ _ Hb). unfold low_s. destruct (Z.ltb_spec (n / 2) (Zmod.to_Z s)); cbn [Z.b2z Z.eqb negb]; [apply Quiet_done; split; [discriminate | lia]|].
  eapply Quiet_bind; [exact (pubkey_load_ok ctx pk Q Hpk)|]. intros [ok q] [-> Hq]. cbn [negb].
  eapply Quiet_step; [exact (ecdsa_sig_verify_ok _ _ _ _ _ r s Q _ Hctx Ha Hb Hm Hq (proj2 Hpk) (valid_pubkey_finite _ _ Hpk))|].
  intros ok Hok. apply Quiet_done. rewrite Hok. tauto.
Qed.

(** ** Nonces *)

(** The input of the generator. *)
Definition nonce_key (key msg : list Z) (data algo : option (list Z)) : list Z :=
  key ++ msg ++ match data with Some d => d | None => [] end ++ match algo with Some a => a | None => [] end.

Definition optional_bytes (k : nat) (o : option (list Z)) : Prop := match o with Some b => bytes_of_len k b | None => True end.

Lemma nonce_loop_ok key counter : 0 <= counter < 2 ^ 32 - 1 -> forall fuel i rng nonce32, rng_at rng key 32 (Z.to_nat i) -> 0 <= i <= counter -> counter - i < Z.of_nat fuel ->
  Returns (nonce_loop fuel i counter rng nonce32) (fun '(_, out) => out = RFC6979_read key 32 (Z.to_nat counter)).
Proof.
  intros Hc. induction fuel as [|fuel IH]; intros i rng nonce32 Hr Hi Hf; [lia|]. cbn [nonce_loop]. rewrite (proj2 (Z.ltb_ge counter i)) by lia.
  eapply Returns_bind; [apply (rng_at_read uninit_hmac uninit_sha uninit_hmac_buf uninit_sha_buf rng key 32 _ Hr ltac:(reflexivity))|].
  intros [rng' out] [-> Hr']. unfold u32. rewrite Z.mod_small by lia. destruct (Z.eq_dec i counter) as [->|Hne].
  - destruct fuel; cbn [nonce_loop]; rewrite (proj2 (Z.ltb_lt counter (counter + 1))) by lia; reflexivity.
  - apply IH; [|lia|lia]. replace (Z.to_nat (i + 1)) with (S (Z.to_nat i)) by lia. exact Hr'.
Qed.

(** At the largest counter the loop test always holds: the counter of the loop wraps
    around. *)
Lemma nonce_loop_diverges fuel : forall i rng nonce32, 0 <= i < 2 ^ 32 -> nonce_loop fuel i (2 ^ 32 - 1) rng nonce32 = None.
Proof.
  induction fuel as [|fuel IH]; intros i rng nonce32 Hi; cbn [nonce_loop]; rewrite (proj2 (Z.ltb_ge _ i)) by lia; [reflexivity|].
  destruct (secp256k1_rfc6979_hmac_sha256_generate uninit_hmac uninit_sha rng 32) as [[rng' out]|]; [|reflexivity]. cbn [bind].
  apply IH. unfold u32. pose proof (Z.mod_pos_bound (i + 1) (2 ^ 32)). lia.
Qed.

Lemma firstn_bytes k b : bytes_of_len k b -> firstn k b = b.
Proof. intros [E _]. apply firstn_all2. lia. Qed.

Lemma nonce_function_ok fuel nonce32 msg key algo data counter : bytes_of_len 32 msg -> bytes_of_len 32 key -> optional_bytes 32 data -> optional_bytes 16 algo ->
  0 <= counter < 2 ^ 32 - 1 -> counter < Z.of_nat fuel ->
  Returns (nonce_function_rfc6979 fuel nonce32 msg key algo data counter) (fun '(ret, out) => ret = 1 /\ out = RFC6979_read (nonce_key key msg data algo) 32 (Z.to_nat counter)).
Proof.
  intros Hm Hk Hd Ha Hc Hf. unfold nonce_function_rfc6979. rewrite (firstn_bytes 32 key Hk), (firstn_bytes 32 msg Hm).
  assert (EK : (match algo with Some a => (match data with Some d => (key ++ msg) ++ firstn 32 d | None => key ++ msg end) ++ firstn 16 a
    | None => match data with Some d => (key ++ msg) ++ firstn 32 d | None => key ++ msg end end) = nonce_key key msg data algo).
  { unfold nonce_key. destruct data as [d|], algo as [a|]; cbn in Hd, Ha; rewrite ?(firstn_bytes 32 _ Hd), ?(firstn_bytes 16 _ Ha), ?app_nil_r, <- ?app_assoc; reflexivity. }
  rewrite EK. assert (HK : is_bytes (nonce_key key msg data algo) /\ (length (nonce_key key msg data algo) <= 112)%nat).
  { unfold nonce_key. destruct Hk as [Lk Fk], Hm as [Lm Fm]. rewrite !length_app, Lk, Lm.
    destruct data as [d|], algo as [a|]; cbn in Hd, Ha; cbn [length]; repeat match goal with HH : bytes_of_len _ _ |- _ => destruct HH as [-> ?] end; (split; [repeat (apply Forall_app; split); auto | lia]). }
  eapply Returns_bind; [apply (rng_at_start uninit_hmac uninit_sha uninit_hmac_buf uninit_sha_buf _ 32 (proj1 HK)); lia|]. intros rng Hr.
  eapply Returns_bind; [apply (nonce_loop_ok (nonce_key key msg data algo) counter Hc fuel 0 rng nonce32 Hr); lia|]. intros [rng' out] ->. split; reflexivity.
Qed.

(** ** Signing *)

(** The loop over the nonces [N count], [N (count + 1)], ... of a nonce function
    signs with the first one that is accepted. *)
Lemma sign_loop_ok ctx f msg32 seckey data sec msg d m (N : nat -> list Z) lim : sign_ready ctx -> sc_ok sec d -> sc_ok msg m -> Z.of_nat lim < 2 ^ 32 ->
  (forall buf c, (c < lim)%nat -> Returns (f buf msg32 seckey None data (Z.of_nat c)) (fun '(ret, out) => ret = 1 /\ out = N c)) ->
  (forall c, bytes_of_len 32 (N c)) ->
  forall fuel count nonce32 r0 s0 recid r s i, (count + fuel <= lim)%nat ->
  let nonces := map (fun c => be_value (N c)) (seq count fuel) in
  Forall (fun v => 0 < v < n -> nonce_usable (toFn v)) nonces -> first_signature d m nonces = Some (r, s, i) ->
  Returns (sign_loop fuel ctx f msg32 seckey data sec msg nonce32 (Z.of_nat count) r0 s0 recid) (fun '(ret, r', s', recid') =>
    ret = 1 /\ sc_ok r' r /\ sc_ok s' s /\ recid' = option_map (fun _ => i) recid).
Proof.
  intros Hctx Hd Hm Hlim Hf HN. induction fuel as [|fuel IH]; intros count nonce32 r0 s0 recid r s i Hc; cbv zeta; [discriminate|].
  cbn [seq map first_signature]. intros HU HS. apply Forall_cons_iff in HU. destruct HU as [Hu HU]. cbn [sign_loop].
  assert (HI : forall nonce32 r0 s0 recid, first_signature d m (map (fun c => be_value (N c)) (seq (S count) fuel)) = Some (r, s, i) ->
    Returns (sign_loop fuel ctx f msg32 seckey data sec msg nonce32 (u32 (Z.of_nat count + 1)) r0 s0 recid) (fun '(ret, r', s', recid') =>
      ret = 1 /\ sc_ok r' r /\ sc_ok s' s /\ recid' = option_map (fun _ => i) recid)).
  { intros. unfold u32. rewrite Z.mod_small by lia. replace (Z.of_nat count + 1) with (Z.of_nat (S count)) by lia. apply IH; [lia | exact HU | assumption]. }
  eapply Returns_bind; [exact (Hf nonce32 count ltac:(lia))|]. intros [ret out] [-> ->]. cbn [Z.eqb].
  eapply Returns_bind; [exact (set_seckey_ok (N count) (HN count))|]. intros [o non] (E & Hnon & _). rewrite E. fold (seckey_ok (N count)) in HS.
  destruct (seckey_ok (N count)) eqn:Es; [|exact (HI _ _ _ _ HS)].
  assert (Hus : nonce_usable (residue (N count))) by (apply Hu; apply andb_true_iff in Es; rewrite !Z.ltb_lt in Es; exact Es).
  eapply Returns_bind; [exact (ecdsa_sig_sign_ok _ _ _ _ d m _ recid Hctx Hd Hm Hnon Hus)|]. intros [[[ok r'] s'] recid'].
  change (residue (N count)) with (toFn (be_value (N count))). destruct (ecdsa_sign_with d m (toFn (be_value (N count)))) as [[[r1 s1] i1]|].
  - intros (-> & Hr' & Hs' & ->). apply Returns_ret. split; [reflexivity|]. assert (r1 = r /\ s1 = s /\ i1 = i) as (-> & -> & ->) by (repeat split; congruence). auto.
  - intros [-> Hrec]. eapply Returns_mono; [exact (HI _ _ _ _ HS)|]. intros [[[ret r2] s2] rec2] (H1 & H2 & H3 & ->). repeat split; auto; try apply H2; try apply H3.
    destruct recid, recid'; try reflexivity; [destruct Hrec as [Hx _]; discriminate (Hx eq_refl) | destruct Hrec as [_ Hx]; discriminate (Hx eq_refl)].
Qed.

(** The numbers that the default nonce function proposes for a key and a message. *)
Definition rfc6979_nonces (fuel : nat) (seckey msg : list Z) (data : option (list Z)) : list Z :=
  map (fun c => be_value (RFC6979_read (nonce_key seckey msg data None) 32 c)) (seq 0 fuel).

(** A proposed number that is in range has an abscissa between 0 and the order. *)
Definition nonces_usable (l : list Z) : Prop := Forall (fun v => 0 < v < n -> nonce_usable (toFn v)) l.

Lemma sign_inner_ok fuel ctx msg32 seckey data recid r s i : sign_ready ctx -> bytes_of_len 32 msg32 -> seckey_of seckey (residue seckey) -> optional_bytes 32 data ->
  Z.of_nat fuel < 2 ^ 32 - 1 -> nonces_usable (rfc6979_nonces fuel seckey msg32 data) ->
  first_signature (residue seckey) (residue msg32) (rfc6979_nonces fuel seckey msg32 data) = Some (r, s, i) ->
  Returns (sign_inner fuel ctx msg32 seckey None data recid) (fun '(ret, r', s', recid') => ret = 1 /\ sc_ok r' r /\ sc_ok s' s /\ recid' = option_map (fun _ => i) recid).
Proof.
  intros Hctx Hm Hs Hd Hf HU HS. unfold sign_inner. destruct Hs as (Hb & Es). pose proof (seckey_of_ok seckey (residue seckey) (conj Hb Es)) as Hk.
  eapply Returns_bind; [exact (set_seckey_ok seckey Hb)|]. intros [o sec] (E & Hsec & _). rewrite E, Hk.
  eapply Returns_bind; [exact (sc_set_b32_ok msg32 Hm)|]. intros [o' msg] [_ Hmsg].
  apply (sign_loop_ok ctx _ msg32 seckey data sec msg (residue seckey) (residue msg32) (RFC6979_read (nonce_key seckey msg32 data None) 32) fuel) with (count := 0%nat);
    [exact Hctx | exact Hsec | exact Hmsg | lia | | intros c; apply RFC6979_read_bytes | lia | exact HU | exact HS].
  intros buf c Hc. eapply Returns_mono; [apply (nonce_function_ok fuel buf msg32 seckey None data (Z.of_nat c) Hm Hb Hd I); lia|]. rewrite Nat2Z.id. auto.
Qed.

(** An invalid secret key: no loop, and the result is 0. *)
Lemma sign_inner_fail fuel ctx msg32 seckey noncefp data recid : bytes_of_len 32 seckey -> seckey_ok seckey = false ->
  Returns (sign_inner fuel ctx msg32 seckey noncefp data recid) (fun '(ret, _, _, _) => ret = 0).
Proof.
  intros Hb Hk. unfold sign_inner. eapply Returns_bind; [exact (set_seckey_ok seckey Hb)|]. intros [o sec] (E & _). rewrite E, Hk. reflexivity.
Qed.

Lemma ecdsa_sign_ok fuel ctx sig msg32 seckey data r s i : sign_ready ctx -> bytes_of_len 32 msg32 -> seckey_of seckey (residue seckey) -> optional_bytes 32 data ->
  Z.of_nat fuel < 2 ^ 32 - 1 -> nonces_usable (rfc6979_nonces fuel seckey msg32 data) ->
  first_signature (residue seckey) (residue msg32) (rfc6979_nonces fuel seckey msg32 data) = Some (r, s, i) ->
  Quiet (secp256k1_ecdsa_sign fuel ctx (Some sig) (Some msg32) (Some seckey) None data) (fun '(o, ret) => ret = 1 /\ o = Some (sig_obj r s)).
Proof.
  intros Hctx Hm Hs Hd Hf HU HS. unfold secp256k1_ecdsa_sign. apply Quiet_arg; [apply sign_ready_built, Hctx|]. cbn [ARG_PTR].
  eapply Quiet_step; [exact (sign_inner_ok fuel ctx msg32 seckey data None r s i Hctx Hm Hs Hd Hf HU HS)|]. intros [[[ret r'] s'] rec'] (-> & Hr & Hs' & _). cbn [Z.eqb].
  apply Quiet_done. rewrite (signature_save_ok _ _ _ _ Hr Hs'). auto.
Qed.

(** ** Recoverable signatures *)

Lemma recoverable_load_ok r s recid : Returns (secp256k1_ecdsa_recoverable_signature_load (recoverable_obj r s recid)) (fun '(a, b, i) => sc_ok a r /\ sc_ok b s /\ i = recid).
Proof.
  unfold secp256k1_ecdsa_recoverable_signature_load, recoverable_obj, sig_obj. rewrite sizeof_scalar_32, <- app_assoc.
  rewrite firstn_exact, skipn_exact, firstn_exact by apply length_le_bytes. cbn [bind ret]. split; [apply scalar_of_bytes|]. split; [apply scalar_of_bytes|].
  rewrite app_assoc, app_nth2; rewrite length_app, !length_le_bytes; [reflexivity | lia].
Qed.

Lemma recoverable_save_ok a b r s recid : sc_ok a r -> sc_ok b s -> 0 <= recid < 256 -> secp256k1_ecdsa_recoverable_signature_save a b recid = recoverable_obj r s recid.
Proof.
  intros Ha Hb Hi. unfold secp256k1_ecdsa_recoverable_signature_save, recoverable_obj, sig_obj, u8.
  rewrite sizeof_scalar_32, (bytes_of_scalar _ _ Ha), (bytes_of_scalar _ _ Hb), Z.mod_small by lia. reflexivity.
Qed.

Lemma ecdsa_sign_recoverable_ok fuel ctx sig msg32 seckey data r s i : sign_ready ctx -> bytes_of_len 32 msg32 -> seckey_of seckey (residue seckey) -> optional_bytes 32 data ->
  Z.of_nat fuel < 2 ^ 32 - 1 -> nonces_usable (rfc6979_nonces fuel seckey msg32 data) ->
  first_signature (residue seckey) (residue msg32) (rfc6979_nonces fuel seckey msg32 data) = Some (r, s, i) ->
  Quiet (secp256k1_ecdsa_sign_recoverable fuel ctx (Some sig) (Some msg32) (Some seckey) None data) (fun '(o, ret) => ret = 1 /\ o = Some (recoverable_obj r s i)).
Proof.
  intros Hctx Hm Hs Hd Hf HU HS. unfold secp256k1_ecdsa_sign_recoverable. apply Quiet_arg; [apply sign_ready_built, Hctx|]. cbn [ARG_PTR].
  eapply Quiet_step; [exact (sign_inner_ok fuel ctx msg32 seckey data (Some 0) r s i Hctx Hm Hs Hd Hf HU HS)|]. intros [[[ret r'] s'] rec'] (-> & Hr & Hs' & ->). cbn [Z.eqb option_map].
  apply Quiet_done. destruct (first_signature_nonce _ _ _ _ _ _ HS) as (v & _ & _ & Hv).
  destruct (ecdsa_sign_with_inv _ _ _ _ _ _ Hv) as (x & y & s0 & _ & _ & _ & _ & _ & _ & _ & Ei).
  pose proof (recid_bits (n <=? Zmod.to_Z x) (Z.odd (Zmod.to_Z y)) (n / 2 <? Zmod.to_Z s0)) as (_ & _ & Hi). rewrite <- Ei in Hi. rewrite (recoverable_save_ok _ _ _ _ _ Hr Hs') by lia. auto.
Qed.

Lemma ecdsa_recover_ok ctx pk msg32 r s i : verify_ready ctx -> bytes_of_len 32 msg32 -> 0 <= i < 4 ->
  Quiet (secp256k1_ecdsa_recover ctx (Some pk) (Some (recoverable_obj r s i)) (Some msg32)) (fun '(o, ok) =>
    if ok then exists b Q, o = Some b /\ valid_pubkey b Q /\ recovers r s (residue msg32) i Q
    else o = Some zero_pubkey /\ forall Q, ~ recovers r s (residue msg32) i Q).
Proof.
  intros Hctx Hm Hi. unfold secp256k1_ecdsa_recover. apply Quiet_arg; [apply verify_ready_built, Hctx|]. cbn [ARG_PTR].
  eapply Quiet_step; [exact (recoverable_load_ok r s i)|]. intros [[a b] j] (Ha & Hb & ->). eapply Quiet_step with (P := fun _ => True).
  { unfold VERIFY_CHECK. rewrite (proj2 (Z.leb_le 0 i)), (proj2 (Z.ltb_lt i 4)) by lia. exact I. } intros _ _.
  eapply Quiet_step; [exact (sc_set_b32_ok msg32 Hm)|]. intros [o m] [_ Hmsg].
  eapply Quiet_step; [exact (ecdsa_sig_recover_ok _ _ _ uninit_ge _ i r s _ Hctx Ha Hb Hmsg)|]. intros [ok q] HQ. destruct ok; [|apply Quiet_done; auto].
  destruct HQ as (Q & HR & Hq). assert (HQ : Q <> Infinity /\ on_curve Q).
  { destruct HR as (_ & _ & R & (x & y & ER & HR & _) & EQ & Hfin). split; [exact Hfin|]. rewrite EQ. apply padd_closed; apply fmul_on_curve; [exact HR | apply G_on_curve]. }
  eapply Quiet_step; [exact (pubkey_save_ok _ _ Hq (proj1 HQ))|]. intros b' Hb'. apply Quiet_done. exists b', Q. split; [reflexivity|]. split; [split; [exact Hb' | apply HQ] | exact HR].
Qed.

End Sign.
