(* ===== verification/ApiEcdh.v ===== *)
(** * Contexts, shared secrets, and the functions of [ext.h]

    Contexts keep their tables ready under creation, cloning and randomization; the
    functions of [modules/ecdh] and [ext.h] on valid arguments. *)

From Stdlib Require Import String ZArith Lia List Bool.
From S2P Require Import Prelude Modulus Bytes Field FieldImpl Curve CurveGroup CurveOrder Group GroupConv Scalar ScalarImpl Hash HashSpec Ecmult EcmultSpec EcmultGen EcmultGenSpec EcmultConst EcmultConstSpec Objects Buffer Eckey Ecdsa Secp256k1 Recovery Ecdh Der Signatures EcdsaSpec EckeySpec ApiSpec ApiKeys ApiSign.
Import ListNotations.

#[local] Open Scope Z_scope.
#[local] Open Scope checked_scope.

Section Contexts.
Context {F : FieldOps} {L : FieldLaws F} {SO : ScalarOps} {SL : ScalarLaws SO} {Ob : Objects F SO} {OL : ObjectLaws L SL Ob} {M : Memory F SO} {H : HashMemory} {A : ApiMemory}.

(** ** Contexts *)

(** What the flags of a context promise: a table that is asked for is ready, and the
    other one is not there. *)
Definition context_ok (sign verify : bool) (ctx : secp256k1_context) : Prop :=
  (if sign then sign_ready ctx else prec (ecmult_gen_ctx ctx) = None) /\
  (if verify then verify_ready ctx else pre_g (ecmult_ctx ctx) = None).

Definition sign_flag (flags : Z) : bool := negb (Z.land flags SECP256K1_FLAGS_BIT_CONTEXT_SIGN =? 0).
Definition verify_flag (flags : Z) : bool := negb (Z.land flags SECP256K1_FLAGS_BIT_CONTEXT_VERIFY =? 0).

Lemma context_create_ok fuel flags : Z.land flags SECP256K1_FLAGS_TYPE_MASK = SECP256K1_FLAGS_TYPE_CONTEXT -> (0 < fuel)%nat ->
  Quiet (secp256k1_context_create fuel flags) (fun o => exists ctx, o = Some ctx /\ context_ok (sign_flag flags) (verify_flag flags) ctx /\
    illegal_callback ctx = default_illegal_callback /\ error_callback ctx = default_error_callback).
Proof.
  intros Hf Hfuel. unfold secp256k1_context_create. rewrite Hf, Z.eqb_refl. cbn [negb]. fold (sign_flag flags) (verify_flag flags). cbv zeta.
  set (gen0 := secp256k1_ecmult_gen_context_init _).
  eapply Quiet_step with (P := fun gen => if sign_flag flags then gen_ready gen else prec gen = None).
  { destruct (sign_flag flags); [|reflexivity]. apply ecmult_gen_context_build_ok; [left; reflexivity | exact Hfuel]. }
  intros gen Hgen. eapply Quiet_step with (P := fun ec => if verify_flag flags then ecmult_ready ec else pre_g ec = None).
  { destruct (verify_flag flags); [|reflexivity]. apply ecmult_context_build_ok. left. reflexivity. }
  intros ec Hec. apply Quiet_done. eexists. split; [reflexivity|]. split; [split; [exact Hgen | exact Hec]|]. split; reflexivity.
Qed.

(** A context that can sign is its own clone. *)
Lemma context_clone_ok ctx sign verify : context_ok sign verify ctx -> context_ok sign verify (secp256k1_context_clone ctx).
Proof.
  intros [Hs Hv]. unfold context_ok, sign_ready, verify_ready, secp256k1_context_clone, secp256k1_ecmult_context_clone, secp256k1_ecmult_gen_context_clone in *.
  cbn [ecmult_ctx ecmult_gen_ctx]. split.
  - destruct sign; [|rewrite Hs; reflexivity]. destruct Hs as ((rows & E & Hr) & Hb & Hi). rewrite E. split; [exists rows; auto|]. auto.
  - destruct verify; [|rewrite Hv; reflexivity]. destruct Hv as [(pre & E & Hp) H128]. cbn [pre_g pre_g_128]. rewrite E.
    split; [exists pre; auto|]. intros Ee. destruct (H128 Ee) as (pre' & E' & Hp'). cbn [pre_g_128]. rewrite Ee, E'. exists pre'. exact (conj eq_refl Hp').
Qed.

(** The reads of the generator that randomization makes. *)
Definition randomize_reads (fuel : nat) (ctx : secp256k1_context) (seed : option (list Z)) : Prop :=
  blind_reads_ok fuel (blind_key (match seed with Some _ => sc_Z (blind (ecmult_gen_ctx ctx)) | None => 1 end) seed).

Lemma context_randomize_ok fuel ctx seed verify : context_ok true verify ctx -> seed_ok seed -> randomize_reads fuel ctx seed ->
  Quiet (secp256k1_context_randomize fuel ctx seed) (fun '(ctx', ok) => ok = true /\ context_ok true verify ctx' /\
    illegal_callback ctx' = illegal_callback ctx /\ error_callback ctx' = error_callback ctx).
Proof.
  intros [Hs Hv] Hseed Hreads. unfold secp256k1_context_randomize. apply Quiet_arg; [apply sign_ready_built, Hs|]. pose proof Hs as ((rows & E & Hl & Hr) & _).
  eapply Quiet_step; [apply (ecmult_gen_blind_ok fuel _ seed rows E Hl Hr Hseed (fun _ => Hs) Hreads)|]. intros gen [Hgen _]. apply Quiet_done.
  split; [reflexivity|]. split; [split; [exact Hgen | exact Hv]|]. split; reflexivity.
Qed.

(** ** Shared secrets *)

(** The coordinates of a multiple of a valid key. *)
Lemma const_multiple_ok {B} pt Q a d (k : secp256k1_ge -> checked B) (R : B -> Prop) : ge_ok pt Q -> on_curve Q -> Q <> Infinity -> sc_ok a d -> d <> Zmod.zero ->
  (forall ge x y, fmul d Q = Affine x y -> fe_ok (ge_x ge) 8 x -> fe_ok (ge_y ge) 8 y -> Returns (k ge) R) ->
  Returns (r <- secp256k1_ecmult_const pt a;; ' (ge, _) <- secp256k1_ge_set_gej r;; k ge) R.
Proof.
  intros Hpt HQ HQi Ha Hd Hk. eapply Returns_bind; [exact (ecmult_const_ok pt Q a Hpt (ge_ok_finite _ _ Hpt HQi) HQ HQi (proj1 Ha))|].
  intros r Hr. rewrite (sc_ok_fmul _ _ _ Ha) in Hr. eapply Returns_bind; [exact (ge_set_gej_ok _ _ Hr)|]. intros [ge r'] [Hge _].
  pose proof (fmul_finite d Q HQ HQi Hd) as Hfin. pose proof (ge_ok_finite _ _ Hge Hfin) as Hi. destruct Hge as (x & y & Hx & Hy & E). rewrite Hi in E. exact (Hk ge x y E Hx Hy).
Qed.

Definition ecdh_secret (P : point) : list Z := match P with Affine x y => SHA256 (compressed_point x y) | Infinity => [] end.

Lemma ecdh_ok ctx result pk Q scalar : valid_pubkey pk Q -> bytes_of_len 32 scalar -> bytes_of_len 32 result ->
  Quiet (secp256k1_ecdh ctx (Some result) (Some pk) (Some scalar)) (fun '(o, ok) => ok = seckey_ok scalar /\
    o = Some (if ok then ecdh_secret (fmul (residue scalar) Q) else result)).
Proof.
  intros Hpk Hs Hres. unfold secp256k1_ecdh. cbn [ARG_PTR]. eapply Quiet_bind; [exact (pubkey_load_ok ctx pk Q Hpk)|]. intros [ok0 pt] [_ Hpt].
  eapply Quiet_step; [exact (set_seckey_ok scalar Hs)|]. intros [o a] (E & Ha & _). rewrite <- (negb_involutive (secp256k1_scalar_is_zero a)), <- negb_andb, E.
  destruct (seckey_ok scalar) eqn:Es; cbn [negb]; [|apply Quiet_done; auto]. destruct (seckey_ok_of scalar Hs Es) as (_ & _ & Hnz).
  unfold Quiet. apply (const_multiple_ok pt Q a (residue scalar)); [exact Hpt | apply Hpk | exact (valid_pubkey_finite _ _ Hpk) | exact Ha | exact Hnz|].
  intros ge x y EP Hx Hy. rewrite EP. eapply Returns_bind; [apply (fe_normalize_ok _ _ _ Hx); lia|]. intros fx Hfx. eapply Returns_bind; [apply (fe_normalize_ok _ _ _ Hy); lia|]. intros fy Hfy.
  eapply Returns_bind; [exact (fe_get_b32_ok _ _ Hfx)|]. intros bx ->. eapply Returns_bind; [exact (fe_is_odd_ok _ _ Hfy)|]. intros odd ->. cbv zeta.
  set (t := Z.lor 2 _). assert (Et : t = 2 + Z.b2z (Z.odd (Zmod.to_Z y))) by (unfold t; destruct (Z.odd (Zmod.to_Z y)); reflexivity).
  assert (Hbt : Forall is_byte [t]) by (repeat constructor; rewrite Et; destruct (Z.odd (Zmod.to_Z y)); cbn; lia).
  eapply Returns_bind; [apply (sha_write_ok _ [] [t] (sha_initialize_ok _ uninit_sha_buf) Hbt); cbn; lia|]. intros h1 Hh1.
  eapply Returns_bind; [apply (sha_write_ok _ _ (be_bytes 32 (Zmod.to_Z x)) Hh1 (proj2 (be_bytes_wf _ _))); rewrite length_app, length_be_bytes; cbn; lia|]. intros h2 Hh2.
  eapply Returns_bind; [apply (sha_finalize_ok h2 _ Hh2); rewrite !length_app, length_be_bytes; cbn; lia|]. intros [h3 out] [-> _].
  assert (Lo : length (SHA256 (([] ++ [t]) ++ be_bytes 32 (Zmod.to_Z x))) = 32%nat) by apply SHA256_bytes.
  eapply Returns_bind with (P := fun b => b = SHA256 (compressed_point x y)).
  - destruct Hres as [Lr _]. apply store_ok; [lia|]. rewrite Lo, skipn_all2, app_nil_r by lia. unfold compressed_point. rewrite <- Et. reflexivity.
  - intros b ->. apply Quiet_done. split; [reflexivity|]. unfold ecdh_secret. reflexivity.
Qed.

(** ** [ext.h] *)

Lemma ext_scalar_mul_ok ctx x y scalar : on_curve (Affine x y) -> bytes_of_len 32 scalar ->
  let pt := be_bytes 32 (Zmod.to_Z x) ++ be_bytes 32 (Zmod.to_Z y) in
  Quiet (secp256k1_ext_scalar_mul ctx (Some pt) (Some scalar)) (fun '(o, ok) => ok = seckey_ok scalar /\
    if ok then exists x' y', fmul (residue scalar) (Affine x y) = Affine x' y' /\ o = Some (be_bytes 32 (Zmod.to_Z x') ++ be_bytes 32 (Zmod.to_Z y')) else o = Some pt).
Proof.
  intros HQ Hs pt. unfold secp256k1_ext_scalar_mul. cbn [ARG_PTR]. unfold pt. rewrite firstn_exact, skipn_exact, (firstn_all2 (be_bytes 32 (Zmod.to_Z y))) by (rewrite length_be_bytes; lia). fold pt.
  assert (Hset : forall v : Fp, Returns (secp256k1_fe_set_b32 uninit_fe (be_bytes 32 (Zmod.to_Z v))) (fun '(ok, f) => fe_norm f v)).
  { intros v. eapply Returns_mono; [apply fe_set_b32_norm, be_bytes_wf|]. intros [ok f] [Hok Hf]. rewrite Fp_bytes_value, toFp_to_Z in *. apply Hf. rewrite Hok. apply Z.ltb_lt, Fp_range. }
  eapply Quiet_step; [exact (Hset x)|]. intros [o1 fx] Hfx. eapply Quiet_step; [exact (Hset y)|]. intros [o2 fy] Hfy. cbv zeta.
  eapply Quiet_step; [exact (set_seckey_ok scalar Hs)|]. intros [o a] (E & Ha & _). rewrite <- (negb_involutive (secp256k1_scalar_is_zero a)), <- negb_andb, E.
  destruct (seckey_ok scalar) eqn:Es; cbn [negb]; [|apply Quiet_done; auto]. destruct (seckey_ok_of scalar Hs Es) as (_ & _ & Hnz).
  unfold Quiet. apply (const_multiple_ok _ (Affine x y) a (residue scalar)); [exact (ge_set_xy_ok _ _ _ _ Hfx Hfy) | exact HQ | discriminate | exact Ha | exact Hnz|].
  intros ge x' y' EP Hx Hy. eapply Returns_bind; [apply (fe_normalize_ok _ _ _ Hx); lia|]. intros nx Hnx. eapply Returns_bind; [apply (fe_normalize_ok _ _ _ Hy); lia|]. intros ny Hny.
  eapply Returns_bind; [exact (fe_get_b32_ok _ _ Hnx)|]. intros bx ->.
  pose proof (store_two pt (be_bytes 32 (Zmod.to_Z x')) (be_bytes 32 (Zmod.to_Z y')) (bytes_of_len_app 32 32 _ _ (be_bytes_wf _ _) (be_bytes_wf _ _)) (length_be_bytes _ _) (length_be_bytes _ _)) as HS.
  destruct (store pt 0 _) as [o3|]; [|contradiction]. cbn [bind] in *. eapply Returns_bind; [exact (fe_get_b32_ok _ _ Hny)|]. intros by_ ->.
  eapply Returns_bind; [exact HS|]. intros o4 ->. split; [reflexivity|]. split; [reflexivity|]. exists x', y'. auto.
Qed.

Lemma ext_reencode_pubkey_ok ctx out pubkeydata : is_bytes pubkeydata -> length out = 33%nat \/ length out = 65%nat ->
  Quiet (secp256k1_ext_reencode_pubkey ctx out (Z.of_nat (length out)) pubkeydata) (fun '(o, ok) =>
    if ok then exists x y, encodes pubkeydata (Affine x y) /\ o = encode_point (length out =? 33)%nat x y else o = out /\ forall P, ~ encodes pubkeydata P).
Proof.
  intros Hb Hl. unfold secp256k1_ext_reencode_pubkey. eapply Quiet_bind; [exact (ec_pubkey_parse_ok ctx zero_pubkey pubkeydata Hb)|]. intros [o ok] HQ.
  destruct ok; cbn [negb]; [|apply Quiet_done; split; [reflexivity | apply HQ]]. destruct HQ as (b & P & -> & Hpk & He). pose proof Hpk as [(x & y & -> & _) _]. cbv zeta.
  set (c := (length out =? 33)%nat). replace (Z.of_nat (length out) =? 33) with c by (unfold c; destruct Hl as [-> | ->]; reflexivity).
  assert (Le : length (encode_point c x y) = length out) by (rewrite length_encode_point; unfold c; destruct Hl as [-> | ->]; reflexivity).
  eapply Quiet_bind; [apply (ec_pubkey_serialize_ok ctx out (Z.of_nat (length out)) b x y c Hpk); rewrite Le; lia|]. intros [[o l] ok] (-> & _ & ->).
  apply Quiet_done. exists x, y. split; [exact He|]. rewrite Nat2Z.id, Le, Nat.sub_diag, skipn_all. cbn [repeat app]. rewrite app_nil_r. reflexivity.
Qed.

Lemma ext_ecdsa_verify_ok ctx a b msg pubkeydata : verify_ready ctx -> bytes_of_len 32 a -> bytes_of_len 32 b -> bytes_of_len 32 msg -> is_bytes pubkeydata ->
  Quiet (secp256k1_ext_ecdsa_verify ctx (a ++ b) msg pubkeydata) (fun ok => ok = true <->
    be_value a < n /\ be_value b < n /\ exists Q, encodes pubkeydata Q /\ low_s (residue b) /\ ecdsa_valid Q (residue msg) (residue a) (residue b)).
Proof.
  intros Hctx Ha Hb Hm Hpk. unfold secp256k1_ext_ecdsa_verify. eapply Quiet_bind; [exact (signature_parse_compact_ok ctx zero_signature a b Ha Hb)|]. intros [o ok] [-> ->].
  destruct ((be_value a <? n) && (be_value b <? n)) eqn:E; cbn [negb]; rewrite ?andb_true_iff, ?andb_false_iff, ?Z.ltb_lt, ?Z.ltb_ge in E; [|apply Quiet_done; split; [discriminate | lia]].
  eapply Quiet_bind; [exact (ec_pubkey_parse_ok ctx zero_pubkey pubkeydata Hpk)|]. intros [o ok] HQ. destruct ok; cbn [negb].
  - destruct HQ as (pk & Q & -> & Hv & He). eapply Quiet_mono; [exact (ecdsa_verify_ok ctx (residue a) (residue b) msg pk Q Hctx Hm Hv)|]. intros ok ->. split.
    + intros HV. split; [apply E|]. split; [apply E|]. exists Q. split; [exact He | exact HV].
    + intros (_ & _ & Q' & He' & HV). rewrite (encodes_unique _ _ _ He He'). exact HV.
  - apply Quiet_done. split; [discriminate|]. intros (_ & _ & Q & He & _). exfalso. destruct HQ as [_ HQ]. exact (HQ Q He).
Qed.

Lemma ext_ecdsa_recover_ok ctx out a b i msg : verify_ready ctx -> length out = 65%nat -> bytes_of_len 32 a -> bytes_of_len 32 b -> bytes_of_len 32 msg -> 0 <= i < 4 ->
  Quiet (secp256k1_ext_ecdsa_recover ctx out (a ++ b ++ [i]) msg) (fun '(o, ok) =>
    if ok then be_value a < n /\ be_value b < n /\ exists x y, recovers (residue a) (residue b) (residue msg) i (Affine x y) /\ o = uncompressed_point x y
    else o = out /\ (be_value a < n -> be_value b < n -> forall Q, ~ recovers (residue a) (residue b) (residue msg) i Q)).
Proof.
  intros Hctx Lo Ha Hb Hm Hi. unfold secp256k1_ext_ecdsa_recover. replace (nth 64 (a ++ b ++ [i]) 0) with i
    by (rewrite app_assoc, app_nth2; rewrite length_app, (proj1 Ha), (proj1 Hb); [reflexivity | lia]).
  eapply Quiet_bind with (P := fun '(o, ok) => ok = (be_value a <? n) && (be_value b <? n) /\ (ok = true -> o = Some (recoverable_obj (residue a) (residue b) i))).
  { unfold secp256k1_ecdsa_recoverable_signature_parse_compact. cbn [ARG_PTR]. apply Quiet_arg; [apply andb_true_iff; lia|].
    rewrite firstn_exact, skipn_exact, firstn_exact by first [apply Ha | apply Hb].
    eapply (set_two_ok a b (fun o r o' s => if (o =? 0) && (o' =? 0) then done (Some (secp256k1_ecdsa_recoverable_signature_save r s i), true) else done (Some zero_recoverable, false))); [exact Ha | exact Hb|].
    intros o r o' s E Hr Hs. rewrite E. destruct ((be_value a <? n) && (be_value b <? n)); (split; [reflexivity|]; split; [reflexivity|]); [intros _; rewrite (recoverable_save_ok _ _ _ _ _ Hr Hs) by lia; reflexivity | discriminate]. }
  intros [o ok] [-> Ho]. destruct ((be_value a <? n) && (be_value b <? n)) eqn:E; cbn [negb]; rewrite ?andb_true_iff, ?andb_false_iff, ?Z.ltb_lt, ?Z.ltb_ge in E;
    [|apply Quiet_done; split; [reflexivity | lia]]. rewrite (Ho eq_refl).
  eapply Quiet_bind; [exact (ecdsa_recover_ok ctx zero_pubkey msg (residue a) (residue b) i Hctx Hm Hi)|]. intros [o' ok] HQ. destruct ok; cbn [negb].
  - destruct HQ as (pk & Q & -> & Hv & HR). pose proof Hv as [(x & y & -> & _) _]. assert (Le : length (encode_point false x y) = 65%nat) by apply length_encode_point.
    eapply Quiet_bind; [apply (ec_pubkey_serialize_ok ctx out 65 pk x y false Hv); rewrite Le; lia|]. intros [[o'' l] ok] (-> & _ & ->).
    apply Quiet_done. split; [apply E|]. split; [apply E|]. exists x, y. split; [exact HR|]. rewrite Le. change (Z.to_nat 65) with 65%nat. rewrite Nat.sub_diag, skipn_all2 by lia. cbn [repeat app]. rewrite app_nil_r. reflexivity.
  - apply Quiet_done. split; [reflexivity|]. intros _ _. apply HQ.
Qed.

End Contexts.
