(* ===== verification/ContextSpec.v ===== *)
(** * Contexts over their life

    A context is created and then cloned, randomized and given callbacks in any
    order.  Whatever the random numbers were, a randomization that returns leaves a
    context that computes the same multiples. *)

From Stdlib Require Import String ZArith Lia List Bool.
From S2P Require Import Prelude Modulus Bytes Field FieldImpl Curve CurveGroup CurveOrder Group GroupConv Scalar ScalarImpl Hash HashSpec Nums Ecmult EcmultSpec EcmultGen EcmultGenSpec Objects Buffer Secp256k1 ApiSpec ApiKeys ApiEcdh.
Import ListNotations.

#[local] Open Scope Z_scope.
#[local] Open Scope checked_scope.

(** Partial correctness: [Q] holds of the result if there is one. *)
Definition Ensures {A} (m : checked A) (Q : A -> Prop) : Prop := forall x, m = Some x -> Q x.

Lemma Ensures_bind {A B} (m : checked A) (k : A -> checked B) (P : A -> Prop) Q : Ensures m P -> (forall x, P x -> Ensures (k x) Q) -> Ensures (bind m k) Q.
Proof. intros Hm Hk y E. destruct m as [x|]; [|discriminate]. exact (Hk x (Hm x eq_refl) y E). Qed.

Lemma Returns_Ensures {A} (m : checked A) Q : Returns m Q -> Ensures m Q.
Proof. intros H x ->. exact H. Qed.

Lemma Ensures_ret {A} (x : A) (Q : A -> Prop) : Q x -> Ensures (ret x) Q.
Proof. intros H y E. injection E as <-. exact H. Qed.

Section Contexts.
Context {F : FieldOps} {L : FieldLaws F} {SO : ScalarOps} {SL : ScalarLaws SO} {Ob : Objects F SO} {OL : ObjectLaws L SL Ob} {M : Memory F SO} {H : HashMemory} {A : ApiMemory}.

(** ** The steps *)

Inductive context_step : secp256k1_context -> secp256k1_context -> Prop :=
  | step_clone ctx : context_step ctx (secp256k1_context_clone ctx)
  | step_illegal_callback ctx f data : context_step ctx (secp256k1_context_set_illegal_callback ctx f data)
  | step_error_callback ctx f data : context_step ctx (secp256k1_context_set_error_callback ctx f data)
  | step_randomize fuel ctx seed ctx' t ok : seed_ok seed -> secp256k1_context_randomize fuel ctx seed = Some (t, (ctx', ok)) -> context_step ctx ctx'.

(** The contexts that a program can hold. *)
Inductive context_reachable (flags : Z) : secp256k1_context -> Prop :=
  | reach_create fuel t ctx : (0 < fuel)%nat -> secp256k1_context_create fuel flags = Some (t, Some ctx) -> context_reachable flags ctx
  | reach_step ctx ctx' : context_reachable flags ctx -> context_step ctx ctx' -> context_reachable flags ctx'.

(** ** Blinding, whatever is read *)

Lemma blind_field_loop_partial key : forall fuel rng s i, rng_before rng key i ->
  Ensures (blind_field_loop fuel rng s) (fun '(rng', s') => (exists j, rng_before rng' key j) /\ exists v, fe_norm s' v /\ v <> Zmod.zero).
Proof.
  induction fuel as [|fuel IH]; intros rng s i Hr; [intros x E; discriminate|]. cbn [blind_field_loop].
  eapply Ensures_bind; [apply Returns_Ensures, (rng_next rng key i Hr)|]. intros [rng' out] [-> Hr'].
  eapply Ensures_bind; [apply Returns_Ensures, (fe_set_b32_norm s _ (RFC6979_read_bytes key i))|]. intros [ok s'] [_ Hs]. destruct ok.
  - specialize (Hs eq_refl). eapply Ensures_bind; [apply Returns_Ensures, (fe_is_zero_ok _ _ Hs)|]. intros zero ->.
    destruct (Zmod.eqb_spec (toFp (be_value (RFC6979_read key 32 i))) Zmod.zero) as [E|E]; cbn [negb orb]; [exact (IH rng' s' _ Hr')|].
    apply Ensures_ret. split; [exists (S i); exact Hr' | eexists; split; [exact Hs | exact E]].
  - eapply Ensures_bind with (P := fun _ => True); [intros x _; exact I|]. intros zero _. exact (IH rng' s' _ Hr').
Qed.

Lemma blind_scalar_loop_partial key : forall fuel rng i, rng_before rng key i -> Ensures (blind_scalar_loop fuel rng) (fun '(_, b) => sc_wf b).
Proof.
  induction fuel as [|fuel IH]; intros rng i Hr; [intros x E; discriminate|]. cbn [blind_scalar_loop].
  eapply Ensures_bind; [apply Returns_Ensures, (rng_next rng key i Hr)|]. intros [rng' out] [-> Hr'].
  eapply Ensures_bind; [apply Returns_Ensures, (sc_set_b32_law _ (RFC6979_read_bytes key i))|]. intros [o b] (_ & Hb & _).
  destruct (negb _ || _); [exact (IH rng' _ Hr') | apply Ensures_ret, Hb].
Qed.

Lemma ecmult_gen_blind_partial fuel ctx seed : gen_ready ctx -> seed_ok seed -> Ensures (secp256k1_ecmult_gen_blind fuel ctx seed) gen_ready.
Proof.
  intros Hc Hs. pose proof Hc as ((rows & E & Hl & Hrows) & _). unfold secp256k1_ecmult_gen_blind.
  apply Ensures_bind with (P := fun c => gen_ready c /\ prec c = prec ctx).
  { destruct seed as [s|]; [apply Ensures_ret; auto|]. eapply Ensures_bind; [apply Returns_Ensures, (gej_set_ge_ok _ _ ge_const_g_ok)|]. intros g Hg.
    eapply Ensures_bind; [apply Returns_Ensures, (gej_neg_ok _ _ Hg)|]. intros g' Hg'. apply Ensures_ret. destruct (sc_set_int_law 1 ltac:(lia)) as [H1 E1].
    split; [|reflexivity]. split; [exists rows; auto|]. cbn [blind initial]. rewrite E1. exact (conj H1 Hg'). }
  intros c ((Hp & Hw & Hi) & Ec). cbv zeta. rewrite (sc_get_b32_law _ Hw). fold (blind_key (sc_Z (blind c)) seed). destruct (blind_key_bytes (sc_Z (blind c)) seed Hs) as [Fk Lk].
  eapply Ensures_bind; [apply Returns_Ensures, (rng_at_start _ _ uninit_hmac_buf uninit_sha_buf _ 32 Fk Lk)|]. intros rng Hr.
  eapply Ensures_bind; [exact (blind_field_loop_partial _ fuel rng uninit_fe 0 Hr)|]. intros [rng' s] [[j Hr'] (v & Hv & Hnz)].
  eapply Ensures_bind; [apply Returns_Ensures, (gej_rescale_ok _ _ _ _ Hi Hv Hnz)|]. intros i' [Hi' _].
  eapply Ensures_bind; [exact (blind_scalar_loop_partial _ fuel rng' j Hr')|]. intros [rng2 b'] Hb'.
  assert (Hc' : gen_ready (mk_ecmult_gen_context (prec c) (blind c) i')) by (split; [exact Hp | split; [exact Hw | exact Hi']]).
  eapply Ensures_bind; [apply Returns_Ensures, (ecmult_gen_ok _ b' Hc' Hb')|].
  intros gb Hgb. apply Ensures_ret. destruct (sc_negate_law b' Hb') as [Hn En].
  split; [exact Hp|]. split; [exact Hn|]. cbn [blind initial]. rewrite En. eapply eq_ind; [exact Hgb|]. apply pmul_eqm; [auto with curve|].
  rewrite <- (Z.sub_0_l (_ mod n)), Zminus_mod_idemp_r. f_equal. ring.
Qed.

(** ** The invariant *)

Lemma context_step_ok sign verify ctx ctx' : context_ok sign verify ctx -> context_step ctx ctx' -> context_ok sign verify ctx'.
Proof.
  intros Hc Hstep. destruct Hstep as [ctx | ctx f data | ctx f data | fuel ctx seed ctx' t ok Hs E]; [exact (context_clone_ok ctx sign verify Hc) | exact Hc | exact Hc|].
  unfold secp256k1_context_randomize, ARG_CHECK in E. destruct Hc as [Hsign Hver]. destruct sign.
  - rewrite (sign_ready_built _ Hsign) in E. pose proof (ecmult_gen_blind_partial fuel _ seed Hsign Hs) as HB.
    destruct (secp256k1_ecmult_gen_blind fuel (ecmult_gen_ctx ctx) seed) as [gen|]; [|discriminate]. specialize (HB gen eq_refl). cbn in E. injection E as _ <- _. split; assumption.
  - unfold secp256k1_ecmult_gen_context_is_built in E. rewrite Hsign in E. unfold illegal in E.
    destruct (secp256k1_callback_call _ _); [|discriminate]. cbn in E. injection E as _ <- _. split; assumption.
Qed.

(** C6: a context keeps what its flags promise: over any sequence of clones,
    randomizations and changes of callbacks, a table asked for at creation is there
    and right, whatever the random numbers were, and one not asked for is absent. *)
Theorem context_reachable_ok flags ctx : context_reachable flags ctx -> context_ok (sign_flag flags) (verify_flag flags) ctx.
Proof.
  induction 1 as [fuel t ctx Hf E | ctx ctx' _ IH Hstep]; [|exact (context_step_ok _ _ _ _ IH Hstep)].
  destruct (Z.eq_dec (Z.land flags SECP256K1_FLAGS_TYPE_MASK) SECP256K1_FLAGS_TYPE_CONTEXT) as [Hfl|Hfl].
  - pose proof (context_create_ok fuel flags Hfl Hf) as HC. unfold Quiet in HC. rewrite E in HC. destruct HC as [_ (ctx0 & E0 & HC & _)]. injection E0 as <-. exact HC.
  - unfold secp256k1_context_create in E. rewrite (proj2 (Z.eqb_neq _ _) Hfl) in E. discriminate.
Qed.

End Contexts.
