(* ===== verification/Build.v ===== *)
(** * The build of the Go package, and a sample key

    The representations that [secp256.go] selects, some garbage for uninitialized
    memory, and a secret key, a message and their signature to evaluate the
    properties on. *)

From Stdlib Require Import String ZArith Lia List Bool.
From S2P Require Import Prelude Modulus Bytes Field5x52 Field10x26 Field FieldReprs FieldImpl Curve CurveGroup CurveOrder Group GroupConv ScalarAcc Scalar4x64 Scalar8x32 Scalar ScalarReprs ScalarImpl Hash HashSpec Ecmult EcmultSpec EcmultGen EcmultGenSpec EcmultConst Objects Buffer Eckey Ecdsa Secp256k1 Recovery Ecdh Der Signatures EcdsaSpec EckeySpec ApiSpec ApiKeys ApiSign ApiEcdh.
Import ListNotations.

#[local] Open Scope Z_scope.

(** ** Uninitialized memory *)

Definition garbage_fe26 : @secp256k1_fe Field_10x26 := Field10x26.mk_fe (Field10x26.L10 1 2 3 4 5 6 7 8 9 10) 77 true.

(** The configuration of the Go package, and one with the endomorphism. *)
Definition without_endomorphism : Config := {| USE_ENDOMORPHISM := false |}.
Definition with_endomorphism : Config := {| USE_ENDOMORPHISM := true |}.

Definition garbage_int (i : nat) : Z := 99 + Z.of_nat i.

#[export] Instance garbage_32 : Memory Field_10x26 Scalar_8x32 :=
  @Build_Memory Field_10x26 Scalar_8x32 without_endomorphism garbage_fe26 (mk_ge garbage_fe26 garbage_fe26 true) (mk_gej garbage_fe26 garbage_fe26 garbage_fe26 true)
    (mk_ge_storage (Field10x26.mk_storage 1 2 3 4 5 6 7 8) (Field10x26.mk_storage 8 7 6 5 4 3 2 1)) (Scalar8x32.S8 9 9 9 9 9 9 9 9) garbage_int.

Definition garbage_fe52 : @secp256k1_fe Field_5x52 := Field5x52.mk_fe (Field5x52.L5 1 2 3 4 5) 77 true.

Definition garbage_64 : Memory Field_5x52 Scalar_4x64 :=
  @Build_Memory Field_5x52 Scalar_4x64 with_endomorphism garbage_fe52 (@mk_ge Field_5x52 garbage_fe52 garbage_fe52 true) (@mk_gej Field_5x52 garbage_fe52 garbage_fe52 garbage_fe52 true)
    (@mk_ge_storage Field_5x52 (Field5x52.mk_storage 1 2 3 4) (Field5x52.mk_storage 4 3 2 1)) (Scalar4x64.S4 9 9 9 9) garbage_int.

Definition garbage_sha : secp256k1_sha256_t := mk_sha (repeat 0x55 8) (repeat 0xAA 64) 0x1234.

#[export] Instance garbage_hash : HashMemory := {|
  uninit_sha := garbage_sha;
  uninit_hmac := mk_hmac garbage_sha garbage_sha;
  uninit_sha_buf := eq_refl;
  uninit_hmac_buf := conj eq_refl eq_refl
|}.

#[export] Instance garbage_api : ApiMemory := {| uninit_b32 := repeat 0xEE 32 |}.

(** ** A key, a message and their signature *)

Definition sample_key : list Z := map Z.of_nat (seq 1 32).
Definition sample_msg : list Z := repeat 7 32.

Definition sample_nonce : Z := 0x9dce04b1823dbc89003d419c7453169dfb7d24a37676e4509a1ade6597b2073f.

(** The point of the nonce and the public key. *)
Definition sample_R : Z * Z :=
  (0xdb06999165fe9c2fb2588ba6be4616845a48ed69dd3d4bc496b45fda40e5face, 0x22d073fcf15b9bde4fe8464f11c17a563be89aa3de18920eed4a83e42bb2d3ff).
Definition sample_Q : Z * Z :=
  (0x84bf7562262bbd6940085748f3be6afa52ae317155181ece31b66351ccffa4b0, 0x8cc43d63b2859d469fee15f31c9edb5324266e6fd0407e87382d60fc4511acd8).

Lemma sample_R_point : fmul (toFn sample_nonce) G = zpoint sample_R.
Proof. rewrite pmul_toFn by apply G_on_curve. apply multiple_check_ok. vm_cast_no_check (eq_refl true). Qed.

Lemma sample_Q_point : fmul (residue sample_key) G = zpoint sample_Q.
Proof. unfold residue. rewrite pmul_toFn by apply G_on_curve. apply multiple_check_ok. vm_cast_no_check (eq_refl true). Qed.

Lemma sample_key_of : seckey_of sample_key (residue sample_key).
Proof. apply seckey_ok_of; [apply bytes_of_len_test; reflexivity | vm_compute; reflexivity]. Qed.

Lemma sample_msg_bytes : bytes_of_len 32 sample_msg.
Proof. apply bytes_of_len_test. reflexivity. Qed.

Lemma sample_nonce_read : be_value (RFC6979_read (nonce_key sample_key sample_msg None None) 32 0) = sample_nonce.
Proof. vm_cast_no_check (eq_refl sample_nonce). Qed.

Lemma sample_nonces_value : rfc6979_nonces 1 sample_key sample_msg None = [sample_nonce].
Proof. unfold rfc6979_nonces. cbn [seq map]. rewrite sample_nonce_read. reflexivity. Qed.

(** An abscissa in range is usable. *)
Lemma usable_check k q : fmul (toFn k) G = zpoint q -> (0 <? fst q) && (fst q <? n) = true -> nonce_usable (toFn k).
Proof.
  intros E H. apply andb_true_iff in H. rewrite !Z.ltb_lt in H. exists (toFp (fst q)), (toFp (snd q)). split; [exact E|].
  rewrite toFp_small; [exact H|]. pose proof n_lt_p. lia.
Qed.

Lemma sample_usable : nonces_usable (rfc6979_nonces 1 sample_key sample_msg None).
Proof. rewrite sample_nonces_value. constructor; [|constructor]. intros _. apply (usable_check _ _ sample_R_point). vm_compute. reflexivity. Qed.

(** The first nonce signs. *)
Lemma sign_check k q d m : fmul (toFn k) G = zpoint q -> (0 <? k) && (k <? n) && (0 <? fst q) && (fst q <? n) = true -> ((fst q * d + m) mod n =? 0) = false ->
  exists r s i, first_signature (toFn d) (toFn m) [k] = Some (r, s, i).
Proof.
  intros E Hk Hs. rewrite !andb_true_iff, !Z.ltb_lt in Hk. destruct Hk as [[Hk Hq0] Hqn]. cbn [first_signature].
  rewrite (proj2 (Z.ltb_lt 0 k)), (proj2 (Z.ltb_lt k n)) by lia. cbn [andb]. unfold ecdsa_sign_with. rewrite E. unfold zpoint. cbv zeta.
  assert (Er : x_residue (toFp (fst q)) = toFn (fst q)) by (unfold x_residue; rewrite toFp_small by (pose proof n_lt_p; lia); reflexivity). rewrite Er.
  assert (Hnz : forall v, 0 < v < n -> toFn v <> Zmod.zero) by (intros v Hv; apply to_Z_nonzero; rewrite toFn_small; lia).
  destruct (Zmod.eqb_spec (toFn (fst q)) Zmod.zero) as [E0|_]; [exfalso; apply (Hnz (fst q)); [lia | exact E0]|]. cbn [orb].
  destruct (Zmod.eqb_spec (Zmod.inv (toFn k) * (toFn (fst q) * toFn d + toFn m))%Zmod Zmod.zero) as [E0|_]; [|eauto]. exfalso.
  apply Z.eqb_neq in Hs. apply Hs. rewrite <- toFn_mul, <- toFn_add in E0. assert (toFn k <> Zmod.zero) by (apply Hnz; lia).
  assert (toFn (fst q * d + m) = toFn 0) as E1. { replace (toFn (fst q * d + m)) with (toFn k * (Zmod.inv (toFn k) * toFn (fst q * d + m)))%Zmod by (field; assumption). rewrite E0. ring. }
  apply toFn_eq in E1. rewrite E1. reflexivity.
Qed.

Lemma sample_signature : exists r s i, first_signature (residue sample_key) (residue sample_msg) (rfc6979_nonces 1 sample_key sample_msg None) = Some (r, s, i).
Proof. rewrite sample_nonces_value. apply (sign_check _ _ _ _ sample_R_point); vm_compute; reflexivity. Qed.

(** ** Contexts with both tables *)

Lemma context_of fuel flags : Z.land flags SECP256K1_FLAGS_TYPE_MASK = SECP256K1_FLAGS_TYPE_CONTEXT -> sign_flag flags = true -> verify_flag flags = true -> (0 < fuel)%nat ->
  exists ctx : secp256k1_context, context_ok true true ctx /\ secp256k1_context_create fuel flags = Some ([], Some ctx).
Proof.
  intros Hf Hs Hv Hfuel. pose proof (context_create_ok fuel flags Hf Hfuel) as HC. rewrite Hs, Hv in HC. unfold Quiet in HC.
  destruct (secp256k1_context_create fuel flags) as [[t o]|]; [|contradiction]. destruct HC as [-> (ctx & -> & Hc & _)]. exists ctx. split; [exact Hc | reflexivity].
Qed.

Definition sample_flags : Z := Z.lor SECP256K1_CONTEXT_SIGN SECP256K1_CONTEXT_VERIFY.

Lemma sample_context : exists ctx : secp256k1_context, context_ok true true ctx /\ secp256k1_context_create 1 sample_flags = Some ([], Some ctx).
Proof. exact (context_of 1 sample_flags eq_refl eq_refl eq_refl (le_n 1)). Qed.

(** The public key of the sample key. *)
Lemma sample_pubkey : exists pk, valid_pubkey pk (fmul (residue sample_key) G).
Proof.
  destruct (pubkey_obj_exists (fmul (residue sample_key) G)) as [pk Hpk]; [apply fmul_finite; [apply G_on_curve | discriminate | apply sample_key_of]|].
  exists pk. split; [exact Hpk | apply fmul_on_curve, G_on_curve].
Qed.

(** A context of any build. *)
Lemma some_sign_context {F : FieldOps} {L : FieldLaws F} {SO : ScalarOps} {SL : ScalarLaws SO} {M : Memory F SO} fuel : (0 < fuel)%nat -> exists ctx, sign_ready (F := F) (SO := SO) ctx.
Proof.
  intros Hf. pose proof (ecmult_gen_context_build_ok fuel (mk_ecmult_gen_context None uninit_scalar uninit_gej) (or_introl eq_refl) Hf) as HB.
  apply Returns_exists in HB. destruct HB as (gen & _ & Hgen). exists (mk_context secp256k1_ecmult_context_init gen default_illegal_callback default_error_callback). exact Hgen.
Qed.

Lemma sample_context_64 : exists ctx, sign_ready (F := Field_5x52) (SO := Scalar_4x64) ctx.
Proof. exact (some_sign_context (M := garbage_64) 1 (le_n 1)). Qed.

(** An object that is not written yet. *)
Definition blank64 : list Z := repeat 0xCC 64.

Lemma blank64_bytes : bytes_of_len 64 blank64.
Proof. split; [reflexivity|]. apply Forall_forall. intros x Hx. apply repeat_spec in Hx. subst x. unfold is_byte. lia. Qed.

(** The context that can do everything, for the witnesses. *)
Ltac sample_ctx := let Hc := fresh "Hc" in destruct sample_context as (ctx & Hc & _); exists ctx; destruct Hc as [Hsign Hverify].
