(* ===== verification/X86.v ===== *)
(** * Straight-line x86-64 code

    The machine that [field_5x52_asm_impl.h], the assembly of [scalar_4x64_impl.h]
    and that of [bn256/cloudflare] run on: the general registers, the carry flag,
    memory in blocks of 64-bit words, and the operands [%k] of an inline assembly
    statement, each in the place the compiler gave it.  A register holds an integer or
    a pointer to the start of a block.  An access outside a block, an access through an
    integer or arithmetic on a pointer is [None]. *)

From Stdlib Require Import ZArith Lia List Bool.
From S2P Require Import Prelude Modulus Bytes ScalarAcc ScalarWords.
Import ListNotations.

#[local] Open Scope Z_scope.
#[local] Open Scope checked_scope.

(** ** The machine *)

Inductive reg : Type := rax | rbx | rcx | rdx | rsi | rdi | r8 | r9 | r10 | r11 | r12 | r13 | r14 | r15 | rsp | rbp.

Definition reg_index (r : reg) : nat :=
  match r with
  | rax => 0 | rbx => 1 | rcx => 2 | rdx => 3 | rsi => 4 | rdi => 5 | r8 => 6 | r9 => 7
  | r10 => 8 | r11 => 9 | r12 => 10 | r13 => 11 | r14 => 12 | r15 => 13 | rsp => 14 | rbp => 15
  end.

Inductive val : Type :=
  | Int (x : Z)
  | Ptr (block : nat).

(** [Mem k r] is the word at [8 * k(%r)]; [Arg k] is the operand [%k]. *)
Inductive operand : Type :=
  | Reg (r : reg)
  | Imm (x : Z)
  | Mem (k : nat) (base : reg)
  | Arg (k : nat).

(** Sources come first, as in the AT&T syntax and in Go's.  [leaq a b c] is
    [leaq (a,b,1),c]; [mulxq] multiplies by [rdx] and leaves the flags. *)
Inductive instr : Type :=
  | movq (src dst : operand)
  | addq (src dst : operand)
  | adcq (src dst : operand)
  | mulq (src : operand)
  | andq (src dst : operand)
  | orq (src dst : operand)
  | xorq (src dst : operand)
  | shlq (k : Z) (dst : operand)
  | shrq (k : Z) (dst : operand)
  | shrdq (k : Z) (src dst : operand)
  | leaq (a b dst : operand)
  | subq (src dst : operand)
  | sbbq (src dst : operand)
  | cmovccq (src dst : operand)
  | mulxq (src lo hi : operand).

(** The place of an operand: a register, a word of the stack frame, or a value that
    does not change. *)
Inductive place : Type :=
  | InReg (r : reg)
  | Slot (k : nat)
  | Const (v : val).

Record state : Type := mk_state { regs : list val; cf : bool; slots : list Z; mem : list (list Z) }.

(** The carry out of a 64-bit sum. *)
Definition carry (s : Z) : bool := 2 ^ 64 <=? s.

(** The borrow out of a 64-bit difference. *)
Definition borrow (s : Z) : bool := s <? 0.

Fixpoint put {A} (l : list A) (i : nat) (x : A) : checked (list A) :=
  match l, i with
  | [], _ => None
  | _ :: l', O => ret (x :: l')
  | y :: l', S i' => l'' <- put l' i' x;; ret (y :: l'')
  end.

(** The words of a block, and the memory with other words in a block. *)
Definition block (m : list (list Z)) (b : nat) : checked (list Z) := nth_error m b.

Fixpoint set_block (m : list (list Z)) (b : nat) (l : list Z) : list (list Z) :=
  match m, b with
  | [], _ => []
  | _ :: m', O => l :: m'
  | l' :: m', S b' => l' :: set_block m' b' l
  end.

Section Machine.
Variable alloc : nat -> place.

Definition read (s : state) (o : operand) : checked val :=
  match o with
  | Reg r => nth_error (regs s) (reg_index r)
  | Imm x => ret (Int x)
  | Mem k base =>
      match nth_error (regs s) (reg_index base) with
      | Some (Ptr b) => l <- block (mem s) b;; x <- nth_error l k;; ret (Int x)
      | _ => None
      end
  | Arg k =>
      match alloc k with
      | InReg r => nth_error (regs s) (reg_index r)
      | Slot j => x <- nth_error (slots s) j;; ret (Int x)
      | Const v => ret v
      end
  end.

Definition read_int (s : state) (o : operand) : checked Z :=
  v <- read s o;;
  match v with
  | Int x => ret x
  | Ptr _ => None
  end.

Definition write_reg (s : state) (r : reg) (v : val) : checked state :=
  l <- put (regs s) (reg_index r) v;;
  ret (mk_state l (cf s) (slots s) (mem s)).

Definition write (s : state) (o : operand) (v : val) : checked state :=
  match o with
  | Reg r => write_reg s r v
  | Imm _ => None
  | Mem k base =>
      match nth_error (regs s) (reg_index base), v with
      | Some (Ptr b), Int x => l <- block (mem s) b;; l <- put l k x;; ret (mk_state (regs s) (cf s) (slots s) (set_block (mem s) b l))
      | _, _ => None
      end
  | Arg k =>
      match alloc k with
      | InReg r => write_reg s r v
      | Slot j =>
          match v with
          | Int x => l <- put (slots s) j x;; ret (mk_state (regs s) (cf s) l (mem s))
          | Ptr _ => None
          end
      | Const _ => None
      end
  end.

Definition set_cf (s : state) (c : bool) : state := mk_state (regs s) c (slots s) (mem s).

(** An instruction with a result in [dst] and a carry flag. *)
Definition result (s : state) (dst : operand) (x : Z) (c : bool) : checked state :=
  s <- write s dst (Int x);; ret (set_cf s c).

Definition exec (i : instr) (s : state) : checked state :=
  match i with
  | movq src dst => v <- read s src;; write s dst v
  | addq src dst => x <- read_int s src;; y <- read_int s dst;; result s dst (u64 (y + x)) (carry (y + x))
  | adcq src dst =>
      x <- read_int s src;; y <- read_int s dst;;
      result s dst (u64 (y + x + Z.b2z (cf s))) (carry (y + x + Z.b2z (cf s)))
  | mulq src =>
      x <- read_int s src;; y <- read_int s (Reg rax);;
      s <- write_reg s rax (Int (u64 (y * x)));;
      s <- write_reg s rdx (Int (u64 (Z.shiftr (y * x) 64)));;
      ret (set_cf s (carry (y * x)))
  | andq src dst => x <- read_int s src;; y <- read_int s dst;; result s dst (Z.land y x) false
  | orq src dst => x <- read_int s src;; y <- read_int s dst;; result s dst (Z.lor y x) false
  | xorq src dst => x <- read_int s src;; y <- read_int s dst;; result s dst (Z.lxor y x) false
  | shlq k dst => y <- read_int s dst;; result s dst (u64 (Z.shiftl y k)) (Z.testbit y (64 - k))
  | shrq k dst => y <- read_int s dst;; result s dst (Z.shiftr y k) (Z.testbit y (k - 1))
  | shrdq k src dst =>
      x <- read_int s src;; y <- read_int s dst;;
      result s dst (Z.lor (Z.shiftr y k) (u64 (Z.shiftl x (64 - k)))) (Z.testbit y (k - 1))
  | subq src dst => x <- read_int s src;; y <- read_int s dst;; result s dst (u64 (y - x)) (borrow (y - x))
  | sbbq src dst =>
      x <- read_int s src;; y <- read_int s dst;;
      result s dst (u64 (y - x - Z.b2z (cf s))) (borrow (y - x - Z.b2z (cf s)))
  | cmovccq src dst => x <- read_int s src;; y <- read_int s dst;; write s dst (Int (if cf s then y else x))
  | mulxq src lo hi =>
      x <- read_int s src;; y <- read_int s (Reg rdx);;
      s <- write s lo (Int (u64 (y * x)));;
      write s hi (Int (u64 (Z.shiftr (y * x) 64)))
  | leaq a b dst => x <- read_int s a;; y <- read_int s b;; write s dst (Int (u64 (x + y)))
  end.

Fixpoint run (p : list instr) (s : state) : checked state :=
  match p with
  | [] => ret s
  | i :: p' => s <- exec i s;; run p' s
  end.

End Machine.

(** What the registers and the carry flag hold before an inline assembly statement,
    but for its inputs. *)
Record registers : Type := mk_registers { g_rax : Z; g_rbx : Z; g_rcx : Z; g_rdx : Z; g_rsi : Z; g_rdi : Z; g_r8 : Z; g_r9 : Z; g_r10 : Z; g_r11 : Z;
  g_r12 : Z; g_r13 : Z; g_r14 : Z; g_r15 : Z; g_rsp : Z; g_rbp : Z; g_cf : bool }.

Definition left_regs (g : registers) : list val :=
  [Int (g_rax g); Int (g_rbx g); Int (g_rcx g); Int (g_rdx g); Int (g_rsi g); Int (g_rdi g); Int (g_r8 g); Int (g_r9 g); Int (g_r10 g); Int (g_r11 g);
   Int (g_r12 g); Int (g_r13 g); Int (g_r14 g); Int (g_r15 g); Int (g_rsp g); Int (g_rbp g)].

(** What a statement finds: the registers, and words of memory not written yet. *)
Record leftover : Type := mk_leftover { left : registers; junk : nat -> Z }.

Definition junk_words (lo : leftover) (k : nat) : list Z := map (junk lo) (seq 0 k).

(** The state with the inputs in their registers. *)
Definition enter (lo : leftover) (inputs : list (reg * val)) (frame : list Z) (m : list (list Z)) : state :=
  mk_state (fold_left (fun l '(r, v) => upd l (reg_index r) v) inputs (left_regs (left lo))) (g_cf (left lo)) frame m.

(** The integers in the operands [%k], for [k] in [ks]. *)
Fixpoint read_args (alloc : nat -> place) (s : state) (ks : list nat) : checked (list Z) :=
  match ks with
  | [] => ret []
  | k :: ks' => x <- read_int alloc s (Arg k);; l <- read_args alloc s ks';; ret (x :: l)
  end.

(** ** Sequences *)

Lemma run_app alloc p q s : run alloc (p ++ q) s = bind (run alloc p s) (run alloc q).
Proof.
  revert s. induction p as [|i p IH]; intros s; [reflexivity|]. cbn [app run]. destruct (exec alloc i s) as [s'|]; [apply IH | reflexivity].
Qed.

Lemma Returns_step alloc i p s s' (Q : state -> Prop) : exec alloc i s = Some s' -> Returns (run alloc p s') Q -> Returns (run alloc (i :: p) s) Q.
Proof. intros E. cbn [run]. rewrite E. exact (fun H => H). Qed.

Lemma run_step alloc i p s s' : exec alloc i s = Some s' -> run alloc (i :: p) s = run alloc p s'.
Proof. intros E. cbn [run]. rewrite E. reflexivity. Qed.

(** A function that returns what another returns satisfies its specifications. *)
Lemma Returns_refines {T} (m m' : checked T) Q : (forall r, m = Some r -> m' = Some r) -> Returns m Q -> Returns m' Q.
Proof. intros HR. destruct m as [r|]; [|contradiction]. rewrite (HR r eq_refl). exact (fun H => H). Qed.

Lemma bind_refines {T U} (m : checked T) (k k' : T -> checked U) : (forall x r, k x = Some r -> k' x = Some r) -> forall r, bind m k = Some r -> bind m k' = Some r.
Proof. intros HR r. destruct m as [x|]; [apply HR | discriminate]. Qed.

Lemma bind_refines_l {T U} (m m' : checked T) (k : T -> checked U) : (forall r, m = Some r -> m' = Some r) -> forall r, bind m k = Some r -> bind m' k = Some r.
Proof. intros HR r. destruct m as [x|]; [rewrite (HR x eq_refl); exact (fun H => H) | discriminate]. Qed.

(** The memory after a run. *)
Lemma run_mem alloc p s m' : Returns (run alloc p s) (fun s' => mem s' = m') -> bind (run alloc p s) (fun s' => ret (mem s')) = Some m'.
Proof. destruct (run alloc p s) as [s'|]; [|contradiction]. cbn [Returns bind]. intros <-. reflexivity. Qed.

Lemma block_set_same m b l l' : block m b = Some l -> block (set_block m b l') b = Some l'.
Proof. revert b. induction m as [|x m IH]; intros [|b] H; [discriminate | discriminate | reflexivity | exact (IH b H)]. Qed.

Lemma block_set_other m b b' l : b <> b' -> block (set_block m b l) b' = block m b'.
Proof. revert b b'. induction m as [|x m IH]; intros [|b] [|b'] H; [reflexivity | reflexivity | reflexivity | reflexivity | contradiction | reflexivity | reflexivity |]. apply (IH b b'). congruence. Qed.

Lemma set_block_length m b l : length (set_block m b l) = length m.
Proof. revert b. induction m as [|x m IH]; intros [|b]; [reflexivity | reflexivity | reflexivity |]. cbn [set_block length]. f_equal. apply IH. Qed.

Lemma set_block_twice m b l l' : set_block (set_block m b l) b l' = set_block m b l'.
Proof. revert b. induction m as [|x m IH]; intros [|b]; [reflexivity | reflexivity | reflexivity |]. cbn [set_block]. f_equal. apply IH. Qed.

(** ** Accumulators in registers

    Two words hold a number modulo [2^128]; three words hold a number, at most [k]
    times [2^128]. *)

Definition word (x : Z) : Prop := 0 <= x < 2 ^ 64.

Definition acc2 (V x y : Z) : Prop := word x /\ word y /\ (x + 2 ^ 64 * y) mod 2 ^ 128 = V mod 2 ^ 128.

Definition acc3 (k V x y z : Z) : Prop := word x /\ word y /\ word z /\ V = x + 2 ^ 64 * y + 2 ^ 128 * z /\ V <= k * 2 ^ 128.

Lemma word_u64 x : word (u64 x).
Proof. apply Z.mod_pos_bound. reflexivity. Qed.

Lemma u64_of_word x : word x -> u64 x = x.
Proof. apply Z.mod_small. Qed.

Lemma carry_sum x y c : word x -> word y -> 0 <= c <= 1 -> x + y + c = u64 (x + y + c) + 2 ^ 64 * Z.b2z (carry (x + y + c)).
Proof.
  intros Hx Hy Hc. unfold word, u64, carry in *. destruct (Z.leb_spec (2 ^ 64) (x + y + c)); cbn [Z.b2z].
  - rewrite <- (Z.mod_unique (x + y + c) (2 ^ 64) 1 (x + y + c - 2 ^ 64)); lia.
  - rewrite Z.mod_small; lia.
Qed.

Lemma carry_sum0 x y : word x -> word y -> x + y = u64 (x + y) + 2 ^ 64 * Z.b2z (carry (x + y)).
Proof. intros Hx Hy. pose proof (carry_sum x y 0 Hx Hy ltac:(lia)) as H. rewrite Z.add_0_r in H. exact H. Qed.

Lemma borrow_diff x y c : word x -> word y -> 0 <= c <= 1 -> y - x - c = u64 (y - x - c) - 2 ^ 64 * Z.b2z (borrow (y - x - c)).
Proof.
  intros Hx Hy Hc. unfold word, u64, borrow in *. destruct (Z.ltb_spec (y - x - c) 0); cbn [Z.b2z].
  - rewrite <- (Z.mod_unique (y - x - c) (2 ^ 64) (-1) (y - x - c + 2 ^ 64)); lia.
  - rewrite Z.mod_small; lia.
Qed.

Lemma borrow_diff0 x y : word x -> word y -> y - x = u64 (y - x) - 2 ^ 64 * Z.b2z (borrow (y - x)).
Proof. intros Hx Hy. pose proof (borrow_diff x y 0 Hx Hy ltac:(lia)) as H. rewrite Z.sub_0_r in H. exact H. Qed.

(** The two words of a product. *)
Lemma product_words E : 0 <= E < 2 ^ 128 -> E = u64 E + 2 ^ 64 * u64 (Z.shiftr E 64) /\ word (u64 E) /\ word (u64 (Z.shiftr E 64)).
Proof.
  intros HE. split; [|split; apply word_u64]. rewrite Z.shiftr_div_pow2 by lia. unfold u64.
  rewrite (Z.mod_small (E / 2 ^ 64)); [pose proof (Z.div_mod E (2 ^ 64)); lia|].
  split; [apply Z.div_pos; lia | apply Z.div_lt_upper_bound; [reflexivity|]]. change (2 ^ 64 * 2 ^ 64) with (2 ^ 128). apply HE.
Qed.

Lemma acc2_start E : 0 <= E < 2 ^ 128 -> acc2 E (u64 E) (u64 (Z.shiftr E 64)).
Proof. intros HE. destruct (product_words E HE) as (H & H1 & H2). split; [exact H1|]. split; [exact H2|]. rewrite <- H. reflexivity. Qed.

Lemma acc2_word x : word x -> acc2 x x 0.
Proof. intros H. unfold acc2, word in *. rewrite Z.mul_0_r, Z.add_0_r. split; [exact H|]. split; [lia | reflexivity]. Qed.

(** A sum modulo [2^128] of an accumulator and two words. *)
Lemma acc2_add V x y e0 e1 : acc2 V x y -> word e0 -> word e1 ->
  acc2 (V + (e0 + 2 ^ 64 * e1)) (u64 (x + e0)) (u64 (y + e1 + Z.b2z (carry (x + e0)))).
Proof.
  intros (Hx & Hy & HV) H0 H1. split; [apply word_u64|]. split; [apply word_u64|]. rewrite <- (Z.add_mod_idemp_l V), <- HV, Z.add_mod_idemp_l by discriminate.
  pose proof (carry_sum0 x e0 Hx H0) as E0. pose proof (bnd_b2z (carry (x + e0))) as Hc. pose proof (carry_sum y e1 _ Hy H1 Hc) as E1.
  set (c := Z.b2z (carry (x + e0))) in *. set (t := Z.b2z (carry (y + e1 + c))) in *. change (2 ^ 128) with (2 ^ 64 * 2 ^ 64).
  replace (x + 2 ^ 64 * y + (e0 + 2 ^ 64 * e1)) with (u64 (x + e0) + 2 ^ 64 * u64 (y + e1 + c) + t * (2 ^ 64 * 2 ^ 64)) by lia.
  symmetry. apply Z.mod_add. discriminate.
Qed.

Lemma acc2_product V x y E : acc2 V x y -> 0 <= E < 2 ^ 128 ->
  acc2 (V + E) (u64 (x + u64 E)) (u64 (y + u64 (Z.shiftr E 64) + Z.b2z (carry (x + u64 E)))).
Proof. intros H HE. destruct (product_words E HE) as (EE & H0 & H1). rewrite EE at 1. apply acc2_add; assumption. Qed.

(** An accumulator holds a number [D] below [2^128] where the C code has one. *)
Lemma acc2_sync V x y D : acc2 V x y -> D = u128 V -> acc2 D x y.
Proof. intros (Hx & Hy & HV) ->. split; [exact Hx|]. split; [exact Hy|]. unfold u128. rewrite Z.mod_mod by discriminate. exact HV. Qed.

Lemma acc2_read D x y : acc2 D x y -> 0 <= D < 2 ^ 128 -> x = u64 D /\ y = u64 (Z.shiftr D 64).
Proof.
  intros (Hx & Hy & HV) HD. unfold word in *. rewrite !Z.mod_small in HV by (change (2 ^ 128) with (2 ^ 64 * 2 ^ 64) in *; nia). rewrite <- HV.
  rewrite Z.shiftr_div_pow2 by lia. unfold u64. rewrite (Z.mul_comm (2 ^ 64) y), Z.mod_add, Z.div_add, (Z.div_small x), Z.add_0_l, !Z.mod_small by (lia || discriminate). split; reflexivity.
Qed.

(** The shift of an accumulator by less than a word. *)
Lemma shrd_read D k : 0 < k < 64 -> 0 <= D < 2 ^ 128 -> Z.lor (Z.shiftr (u64 D) k) (u64 (Z.shiftl (u64 (Z.shiftr D 64)) (64 - k))) = u64 (Z.shiftr D k).
Proof.
  intros Hk HD. unfold u64. apply Z.bits_inj'. intros i Hi. rewrite Z.lor_spec, Z.shiftr_spec by exact Hi.
  assert (HB : forall j, 128 <= j -> Z.testbit D j = false) by (intros j Hj; rewrite <- (Z.mod_small D (2 ^ 128)) by exact HD; apply Z.mod_pow2_bits_high; lia).
  destruct (Z.ltb_spec i 64) as [Hl|Hl].
  - rewrite !(Z.mod_pow2_bits_low _ 64 i) by lia. rewrite Z.shiftl_spec, Z.shiftr_spec by lia. destruct (Z.ltb_spec i (64 - k)) as [Hlk|Hlk].
    + rewrite Z.mod_pow2_bits_low, (Z.testbit_neg_r _ (i - (64 - k))), orb_false_r by lia. reflexivity.
    + rewrite Z.mod_pow2_bits_high, Z.mod_pow2_bits_low, Z.shiftr_spec by lia. cbn [orb]. f_equal. lia.
  - rewrite !Z.mod_pow2_bits_high by lia. reflexivity.
Qed.

Lemma land_low x m : word m -> Z.land (u64 x) m = Z.land x m.
Proof.
  intros Hm. unfold u64. rewrite <- (Z.land_ones x 64), <- Z.land_assoc by lia. f_equal. rewrite Z.land_comm, Z.land_ones by lia. apply Z.mod_small, Hm.
Qed.

Lemma word_land x m : word m -> word (Z.land x m).
Proof. intros Hm. pose proof (bnd_land_l x m (2 ^ 64 - 1)) as HB. unfold word in *. lia. Qed.

Lemma i64_land x m : 0 <= m < 2 ^ 63 -> i64 (Z.land x m) = Z.land x m.
Proof. intros Hm. pose proof (bnd_land_l x m m ltac:(lia)) as HB. unfold i64. rewrite Z.mod_small; lia. Qed.

Lemma u64_land x m : word m -> u64 (Z.land x m) = Z.land x m.
Proof. intros Hm. apply u64_of_word, word_land, Hm. Qed.

Lemma word_mul x y : word x -> word y -> 0 <= x * y < 2 ^ 128.
Proof. unfold word. change (2 ^ 128) with (2 ^ 64 * 2 ^ 64). nia. Qed.

(** A sum into three words. *)
Lemma acc3_sum k V x y z e0 e1 : acc3 k V x y z -> word e0 -> word e1 -> k < 2 ^ 63 ->
  acc3 (k + 1) (V + (e0 + 2 ^ 64 * e1)) (u64 (x + e0)) (u64 (y + e1 + Z.b2z (carry (x + e0))))
    (u64 (z + 0 + Z.b2z (carry (y + e1 + Z.b2z (carry (x + e0)))))).
Proof.
  intros (Hx & Hy & Hz & -> & HB) H0 H1 Hk. pose proof (carry_sum0 x e0 Hx H0) as E0. pose proof (bnd_b2z (carry (x + e0))) as Hc. pose proof (carry_sum y e1 _ Hy H1 Hc) as E1.
  set (c := Z.b2z (carry (x + e0))) in *. pose proof (bnd_b2z (carry (y + e1 + c))) as Ht. set (t := Z.b2z (carry (y + e1 + c))) in *.
  pose proof (word_u64 (x + e0)) as W0. pose proof (word_u64 (y + e1 + c)) as W1. set (x' := u64 (x + e0)) in *. set (y' := u64 (y + e1 + c)) in *.
  rewrite Z.add_0_r. unfold word in *. assert (word (z + t)) as W2 by (unfold word; lia).
  rewrite (u64_of_word _ W2). split; [exact W0|]. split; [exact W1|]. split; [exact W2|]. lia.
Qed.

Lemma acc3_product k V x y z E : acc3 k V x y z -> 0 <= E < 2 ^ 128 -> k < 2 ^ 63 ->
  acc3 (k + 1) (V + E) (u64 (x + u64 E)) (u64 (y + u64 (Z.shiftr E 64) + Z.b2z (carry (x + u64 E))))
    (u64 (z + 0 + Z.b2z (carry (y + u64 (Z.shiftr E 64) + Z.b2z (carry (x + u64 E)))))).
Proof. intros H HE Hk. destruct (product_words E HE) as (EE & H0 & H1). rewrite EE at 1. apply acc3_sum; assumption. Qed.

Lemma acc3_add k V x y z e : acc3 k V x y z -> word e -> k < 2 ^ 63 ->
  acc3 (k + 1) (V + e) (u64 (x + e)) (u64 (y + 0 + Z.b2z (carry (x + e)))) (u64 (z + 0 + Z.b2z (carry (y + 0 + Z.b2z (carry (x + e)))))).
Proof.
  intros H He Hk. pose proof (acc3_sum k V x y z e 0 H He ltac:(unfold word; lia) Hk) as HS. rewrite Z.mul_0_r, Z.add_0_r in HS. exact HS.
Qed.

Lemma acc2_add_word V x y e : acc2 V x y -> word e -> acc2 (V + e) (u64 (x + e)) (u64 (y + 0 + Z.b2z (carry (x + e)))).
Proof. intros H He. pose proof (acc2_add V x y e 0 H He ltac:(unfold word; lia)) as HS. rewrite Z.mul_0_r, Z.add_0_r in HS. exact HS. Qed.

(** Taking the low word off. *)
Lemma acc3_extract k V x y z : acc3 k V x y z -> word x /\ exists V', V = x + 2 ^ 64 * V' /\ 0 <= V' /\ acc3 1 V' y z 0.
Proof. intros (Hx & Hy & Hz & -> & _). split; [exact Hx|]. exists (y + 2 ^ 64 * z). unfold acc3, word in *. lia. Qed.

Lemma acc2_extract V x y : acc2 V x y -> 0 <= V < 2 ^ 128 -> word x /\ word y /\ V = x + 2 ^ 64 * y.
Proof.
  intros (Hx & Hy & HV) HB. split; [exact Hx|]. split; [exact Hy|]. unfold word in *. rewrite !Z.mod_small in HV by lia. lia.
Qed.

Lemma acc3_of_word x : word x -> acc3 1 x x 0 0.
Proof. unfold acc3, word. lia. Qed.

Lemma acc3_of_acc2 V x y : acc2 V x y -> 0 <= V < 2 ^ 128 -> acc3 1 V x y 0.
Proof. intros H HV. destruct (acc2_extract V x y H HV) as (Hx & Hy & E). unfold acc3, word in *. lia. Qed.

Lemma acc2_of_acc3 k V x y : acc3 k V x y 0 -> acc2 V x y.
Proof. intros (Hx & Hy & _ & -> & _). split; [exact Hx|]. split; [exact Hy|]. f_equal. lia. Qed.

(** A list of words of a known length. *)
Lemma words_ok_cons k l : words_ok 64 (S k) l -> exists x l', l = x :: l' /\ word x /\ words_ok 64 k l'.
Proof. intros [Hl Hw]. destruct l as [|x l']; [discriminate|]. apply Forall_cons_iff in Hw as [Hx Hw]. exists x, l'. split; [reflexivity|]. split; [exact Hx|]. split; [injection Hl as Hl; exact Hl | exact Hw]. Qed.

Lemma words_ok_nil l : words_ok 64 0 l -> l = [].
Proof. intros [Hl _]. destruct l; [reflexivity | discriminate]. Qed.

(** A list of words is its value. *)
Lemma words_Z_inj k l l' : words_ok 64 k l -> words_ok 64 k l' -> words_Z 64 l = words_Z 64 l' -> l = l'.
Proof.
  revert l l'. induction k as [|k IH]; intros l l' H H'; [apply words_ok_nil in H, H'; congruence|].
  apply words_ok_cons in H as (x & t & -> & Hx & Ht). apply words_ok_cons in H' as (x' & t' & -> & Hx' & Ht'). cbn [words_Z]. unfold word in *. intros E.
  assert (x = x' /\ words_Z 64 t = words_Z 64 t') as [-> E'] by lia. f_equal. exact (IH t t' Ht Ht' E').
Qed.

Ltac open_list H :=
  match type of H with
  | words_ok 64 (S ?k) ?l =>
      let x := fresh "w" in let l' := fresh "l" in let W := fresh "W" in
      apply words_ok_cons in H; destruct H as (x & l' & -> & W & H); open_list H
  | words_ok 64 O ?l => apply words_ok_nil in H; subst l
  end.

(** ** The steps of the C code

    The assertions that hold of a run that returns, and its variables. *)

Lemma VERIFY_BITS_inv {A} x n (k : unit -> checked A) r : 0 <= n -> bind (VERIFY_BITS x n) k = Some r -> 0 <= x < 2 ^ n /\ k tt = Some r.
Proof.
  intros Hn. unfold VERIFY_BITS, VERIFY_CHECK. destruct (Z.eqb_spec (Z.shiftr x n) 0) as [E|_]; [|discriminate]. intros H. split; [|exact H].
  rewrite Z.shiftr_div_pow2 in E by exact Hn. apply Z.div_small_iff in E; lia.
Qed.

Lemma let_inv {A B} (e : A) (K : A -> checked B) r : (let x := e in K x) = Some r -> exists x, x = e /\ K x = Some r.
Proof. intros H. exists e. split; [reflexivity | exact H]. Qed.

(** The assertions that hold of a run of the C code that returns, and its next
    variable. *)
Ltac c_checks :=
  repeat match goal with
  | H : bind (VERIFY_BITS ?x ?n) _ = Some _ |- _ => let B := fresh "B" in apply VERIFY_BITS_inv in H; [destruct H as [B H] | lia]
  end.

Tactic Notation "c_let" ident(v) :=
  match goal with
  | H : (let x := ?e in @?K x) = Some _ |- _ => let E := fresh "E" in let H1 := fresh in destruct (let_inv e K _ H) as (v & E & H1); clear H; rename H1 into H; cbv beta in H; c_checks
  end.

(** ** Symbolic execution *)

(** The words of the blocks that the hypotheses name. *)
Ltac mem_step :=
  match goal with
  | |- context [set_block (set_block _ ?b _) ?b _] => rewrite set_block_twice
  | H : block ?m ?b = Some _ |- context [block (set_block ?m ?b _) ?b] => rewrite (block_set_same m b _ _ H)
  | H : ?b <> ?b' |- context [block (set_block ?m ?b _) ?b'] => rewrite (block_set_other m b b' _ H)
  | H : block ?m ?b = Some _ |- context [block ?m ?b] => rewrite H
  end.

(** One instruction on a state whose registers are listed. *)
Ltac x86_eval := cbv [exec read read_int write write_reg result set_cf put bind ret nth_error reg_index regs cf slots mem].

Ltac word_bound :=
  match goal with
  | |- word (Z.land _ _) => apply word_land; word_bound
  | |- word (u64 _) => apply word_u64
  | |- word _ => assumption || (unfold word; lia) || (split; vm_compute; congruence)
  end.

(** The sum of a product into two words. *)
Ltac acc2_step :=
  match goal with
  | |- context [u64 (?y + u64 (Z.shiftr (?a * ?b) 64) + Z.b2z (carry (?x + u64 (?a * ?b))))] =>
      match goal with
      | H : acc2 ?V x y |- _ =>
          apply (fun H => acc2_product V x y (a * b) H (word_mul a b ltac:(word_bound) ltac:(word_bound))) in H;
          let x' := fresh "x" in let y' := fresh "y" in
          set (y' := u64 (y + u64 (Z.shiftr (a * b) 64) + Z.b2z (carry (x + u64 (a * b))))) in *;
          set (x' := u64 (x + u64 (a * b))) in *; clearbody x' y'
      end
  end.

Ltac acc2_word_step :=
  match goal with
  | |- context [u64 (?y + 0 + Z.b2z (carry (?x + ?e)))] =>
      match goal with
      | H : acc2 ?V x y |- _ =>
          apply (fun H => acc2_add_word V x y e H ltac:(word_bound)) in H;
          let x' := fresh "x" in let y' := fresh "y" in
          set (y' := u64 (y + 0 + Z.b2z (carry (x + e)))) in *; set (x' := u64 (x + e)) in *; clearbody x' y'
      end
  end.

(** The sum of a product, or of a word, into three words. *)
Ltac acc3_name x y z e0 e1 :=
  let x' := fresh "x" in let y' := fresh "y" in let z' := fresh "z" in
  set (z' := u64 (z + 0 + Z.b2z (carry (y + e1 + Z.b2z (carry (x + e0)))))) in *;
  set (y' := u64 (y + e1 + Z.b2z (carry (x + e0)))) in *; set (x' := u64 (x + e0)) in *; clearbody x' y' z'.

Ltac acc3_step :=
  match goal with
  | |- context [u64 (?z + 0 + Z.b2z (carry (?y + u64 (Z.shiftr (?a * ?b) 64) + Z.b2z (carry (?x + u64 (?a * ?b))))))] =>
      match goal with
      | H : acc3 ?k ?V x y z |- _ =>
          apply (fun H => acc3_product k V x y z (a * b) H (word_mul a b ltac:(word_bound) ltac:(word_bound)) ltac:(lia)) in H;
          acc3_name x y z (u64 (a * b)) (u64 (Z.shiftr (a * b) 64))
      end
  | |- context [u64 (?z + 0 + Z.b2z (carry (?y + 0 + Z.b2z (carry (?x + ?e)))))] =>
      match goal with
      | H : acc3 ?k ?V x y z |- _ => apply (fun H => acc3_add k V x y z e H ltac:(word_bound) ltac:(lia)) in H; acc3_name x y z e 0
      end
  end.

(** The state before the first instruction. *)
Ltac x86_enter := cbv [enter left_regs fold_left upd reg_index junk_words map seq]; cbn [app].

Ltac x86_step := eapply Returns_step; [x86_eval; repeat (mem_step; x86_eval); reflexivity|]; try acc2_step.

(** The same for accumulators of three words, in a memory whose blocks are listed. *)
Ltac x86_step3 :=
  eapply Returns_step; [x86_eval; cbv [block set_block nth_error]; reflexivity|]; rewrite ?Z.lxor_nilpotent;
  first [acc3_step | acc2_step | acc2_word_step | idtac].

(** The low word of an accumulator is stored: what is above it remains. *)
Ltac acc3_next V' :=
  match goal with
  | H : acc3 ?k ?V ?x ?y ?z |- _ =>
      let W := fresh "W" in let E := fresh "E" in let B := fresh "B" in
      apply acc3_extract in H; destruct H as (W & V' & E & B & H)
  end.

(** A product moved to two words. *)
Ltac acc2_new a b :=
  let H := fresh "HA" in pose proof (acc2_start (a * b) (word_mul a b ltac:(word_bound) ltac:(word_bound))) as H;
  let x' := fresh "x" in let y' := fresh "y" in
  set (x' := u64 (a * b)) in *; set (y' := u64 (Z.shiftr (a * b) 64)) in *; clearbody x' y'.

(** The accumulator that holds the variable [D] of the C code. *)
Ltac c_sync D :=
  match goal with
  | E : D = u128 ?e, H : acc2 ?V ?x ?y |- _ =>
      let R := fresh in assert (e = V) as R by ring; apply (fun H => acc2_sync V x y D H (eq_trans E (f_equal u128 R))) in H; clear E R
  end.

(** The words of the accumulator, to be masked and shifted. *)
Ltac c_read D :=
  match goal with
  | H : acc2 D ?x ?y |- _ =>
      let Ex := fresh in let Ey := fresh in
      destruct (acc2_read D x y H ltac:(lia)) as [Ex Ey]; clear H; subst x y
  end.

(** The low bits of the accumulator of [D] are the variable [t]. *)
Ltac c_mask D t :=
  rewrite (land_low D) by word_bound;
  match goal with
  | E : t = _ |- _ => rewrite ?u64_land, ?i64_land in E by (word_bound || lia); rewrite <- E
  end.

(** The accumulator of [D], shifted into its first word, is the variable [D']; and
    the same with the second word cleared. *)
Ltac c_shift D D' :=
  rewrite (shrd_read D 52) by lia;
  match goal with
  | E : D' = Z.shiftr D 52 |- _ => rewrite <- E
  end; rewrite (u64_of_word D') by word_bound.

Ltac c_next D D' :=
  c_shift D D'; rewrite Z.lxor_nilpotent;
  let H := fresh "HA" in assert (acc2 D' D' 0) as H by (apply acc2_word; word_bound).

(** The value of the variable [v]. *)
Ltac c_var v :=
  match goal with
  | E : v = _ |- _ => rewrite <- E
  end.

(** One instruction, as an equation. *)
Ltac x86_step_eq := erewrite run_step by (x86_eval; cbv [block set_block nth_error]; reflexivity).

(** ** Carry chains

    Each sum, difference and product of a run as an equation between words and carry
    bits; a group of equations is then replaced by what it gives. *)

Definition chain (P : Prop) : Prop := P.

(** A product that the equations only name. *)
Definition times (a b : Z) : Z := a * b.

Lemma product_chain a b : word a -> word b ->
  let lo := u64 (a * b) in let hi := u64 (Z.shiftr (a * b) 64) in
  chain (times a b = lo + 2 ^ 64 * hi) /\ chain (0 <= times a b <= (2 ^ 64 - 1) * (2 ^ 64 - 1)) /\ word lo /\ word hi.
Proof.
  intros Ha Hb. cbv zeta. destruct (product_words (a * b) (word_mul a b Ha Hb)) as (E & H0 & H1). split; [exact E|]. split; [unfold chain, times, word in *; nia | auto].
Qed.

(** The flag [c], whatever it stands for. *)
Ltac name_flag e :=
  let c := fresh "c" in set (c := e) in *; clearbody c; pose proof (bnd_b2z c).

Ltac chain_step :=
  match goal with
  | |- context [u64 (Z.shiftr (?a * ?b) 64)] =>
      let E := fresh "E" in let B := fresh "B" in let W := fresh "W" in let W' := fresh "W" in
      destruct (product_chain a b ltac:(word_bound) ltac:(word_bound)) as (E & B & W & W');
      let l := fresh "l" in let h := fresh "h" in
      set (l := u64 (a * b)) in *; set (h := u64 (Z.shiftr (a * b) 64)) in *; clearbody l h
  | |- context [u64 (?y + ?x + Z.b2z ?c)] =>
      let E := fresh "E" in pose proof (carry_sum y x (Z.b2z c) ltac:(word_bound) ltac:(word_bound) ltac:(assumption)) as E;
      let W := fresh "W" in pose proof (word_u64 (y + x + Z.b2z c)) as W;
      let s := fresh "s" in set (s := u64 (y + x + Z.b2z c)) in *; name_flag (carry (y + x + Z.b2z c)); clearbody s;
      match type of E with ?P => change (chain P) in E end
  | |- context [u64 (?y + ?x)] =>
      let E := fresh "E" in pose proof (carry_sum0 y x ltac:(word_bound) ltac:(word_bound)) as E;
      let W := fresh "W" in pose proof (word_u64 (y + x)) as W;
      let s := fresh "s" in set (s := u64 (y + x)) in *; name_flag (carry (y + x)); clearbody s;
      match type of E with ?P => change (chain P) in E end
  | |- context [u64 (?y - ?x - Z.b2z ?c)] =>
      let E := fresh "E" in pose proof (borrow_diff x y (Z.b2z c) ltac:(word_bound) ltac:(word_bound) ltac:(assumption)) as E;
      let W := fresh "W" in pose proof (word_u64 (y - x - Z.b2z c)) as W;
      let s := fresh "s" in set (s := u64 (y - x - Z.b2z c)) in *; name_flag (borrow (y - x - Z.b2z c)); clearbody s;
      match type of E with ?P => change (chain P) in E end
  | |- context [u64 (?y - ?x)] =>
      let E := fresh "E" in pose proof (borrow_diff0 x y ltac:(word_bound) ltac:(word_bound)) as E;
      let W := fresh "W" in pose proof (word_u64 (y - x)) as W;
      let s := fresh "s" in set (s := u64 (y - x)) in *; name_flag (borrow (y - x)); clearbody s;
      match type of E with ?P => change (chain P) in E end
  end.

Ltac x86_chain := eapply Returns_step; [x86_eval; repeat (mem_step; x86_eval); reflexivity|]; try chain_step.

(** Forgets the equations, and the words and flags that are not needed any more. *)
Ltac chain_clear :=
  repeat match goal with H : chain _ |- _ => clear H end;
  repeat match goal with H : 0 <= Z.b2z ?c <= 1 |- _ => clear H; clear c end;
  repeat match goal with H : word ?x |- _ => clear H; clear x end.

Tactic Notation "chain_gives" constr(P) "as" ident(K) := assert (chain P) as K by (unfold chain, word in *; lia); unfold chain in K; chain_clear.

(** A sum that an equation has on its left, and that [H] gives the value of, is named. *)
Tactic Notation "name_sum" constr(H) "in" ident(K) "as" ident(R) :=
  match type of H with ?x = ?y => let r := fresh "r" in assert (id (x = y)) as R by exact H; set (r := x) in *; clearbody r end.
