(* ===== verification/Operands.v ===== *)
(** * The operands of an inline assembly statement

    A statement of the compiler's extended [asm] has code, a constraint for each operand
    and a list of registers that the code overwrites.  The compiler chooses a place for
    each operand, within what the constraints permit: an output without [&] may share
    the place of an input, as the code is taken to read its inputs before it writes the
    output.  The main lemma shows that a statement whose code keeps to its constraints
    does the same for every choice. *)

From Stdlib Require Import ZArith Lia List Bool.
From S2P Require Import Prelude Modulus Bytes ScalarAcc ScalarWords X86.
Import ListNotations.

#[local] Open Scope Z_scope.
#[local] Open Scope checked_scope.

(** ** Statements and places *)

(** [Out false] is [=g], [Out true] is [=&g], [Inp] is [g], [Fixed rsi] is [S], and
    [Number x] is [n]. *)
Inductive constraint : Type :=
  | Out (early : bool)
  | Inp
  | Fixed (r : reg)
  | Number (x : Z).

Record statement : Type := mk_statement { code : list instr; constraints : list constraint; clobbers : list reg }.

(** The place of each operand, and the words of the stack frame. *)
Record placement : Type := mk_placement { alloc : nat -> place; frame : nat }.

Definition reg_eqb (r r' : reg) : bool := (reg_index r =? reg_index r')%nat.

Definition clobbered (st : statement) (r : reg) : bool := existsb (reg_eqb r) (clobbers st).

(** A register that is an input. *)
Definition fixed (st : statement) (r : reg) : bool := existsb (fun c => match c with Fixed r' => reg_eqb r r' | _ => false end) (constraints st).

Definition same_place (p q : place) : bool :=
  match p, q with
  | InReg r, InReg r' => reg_eqb r r'
  | Slot j, Slot j' => (j =? j')%nat
  | _, _ => false
  end.

(** The places that fit a constraint: [g] is a register, but for those the statement
    overwrites and the stack pointer, or memory. *)
Definition allowed (st : statement) (frame : nat) (c : constraint) (p : place) : bool :=
  match c, p with
  | Fixed r, InReg r' => reg_eqb r r'
  | Number x, Const (Int y) => x =? y
  | (Out _ | Inp), InReg r => negb (reg_eqb r rsp) && negb (clobbered st r)
  | (Out _ | Inp), Slot j => (j <? frame)%nat
  | _, _ => false
  end.

(** Operands that need places of their own: two outputs, two inputs, and an output
    with [&] and an input. *)
Definition apart (c c' : constraint) : bool :=
  match c, c' with
  | Out _, Out _ => true
  | (Inp | Fixed _), (Inp | Fixed _) => true
  | Out early, (Inp | Fixed _) | (Inp | Fixed _), Out early => early
  | _, _ => false
  end.

(** The choices the compiler has. *)
Definition permitted (st : statement) (pl : placement) : Prop :=
  (forall k c, nth_error (constraints st) k = Some c -> allowed st (frame pl) c (alloc pl k) = true) /\
  (forall i j ci cj, i <> j -> nth_error (constraints st) i = Some ci -> nth_error (constraints st) j = Some cj -> apart ci cj = true ->
     same_place (alloc pl i) (alloc pl j) = false).

Definition permittedb (st : statement) (pl : placement) : bool :=
  let cs := combine (seq 0 (length (constraints st))) (constraints st) in
  forallb (fun '(k, c) => allowed st (frame pl) c (alloc pl k)) cs &&
  forallb (fun '(i, ci) => forallb (fun '(j, cj) => (i =? j)%nat || negb (apart ci cj) || negb (same_place (alloc pl i) (alloc pl j))) cs) cs.

(** ** Running a statement *)

(** The inputs [(k, x)] in their places. *)
Fixpoint place_inputs (al : nat -> place) (s : state) (inputs : list (nat * Z)) : checked state :=
  match inputs with
  | [] => ret s
  | (k, x) :: inputs' => s <- write al s (Arg k) (Int x);; place_inputs al s inputs'
  end.

(** The state that the compiler sets up: pointers in the registers that the constraints
    name, and the inputs in their places. *)
Definition start (lo : leftover) (pointers : list (reg * val)) (pl : placement) (inputs : list (nat * Z)) (m : list (list Z)) : checked state :=
  place_inputs (alloc pl) (enter lo pointers (junk_words lo (frame pl)) m) inputs.

(** The outputs [%k], for [k] in [outs], and the memory after the statement. *)
Definition run_statement (lo : leftover) (st : statement) (pl : placement) (pointers : list (reg * val)) (inputs : list (nat * Z)) (m : list (list Z)) (outs : list nat) :
    checked (list Z * list (list Z)) :=
  s <- start lo pointers pl inputs m;;
  s <- run (alloc pl) (code st) s;;
  l <- read_args (alloc pl) s outs;;
  ret (l, mem s).

(** ** Code that keeps to its constraints

    [live] says that the inputs can still be read.  An output without [&] ends that. *)

Definition src_ok (st : statement) (live : bool) (o : operand) : bool :=
  match o with
  | Reg r => clobbered st r
  | Imm _ => true
  | Mem _ base => live && fixed st base
  | Arg k => match nth_error (constraints st) k with Some Inp => live | Some (Number _) => true | _ => false end
  end.

Definition dst_ok (st : statement) (live : bool) (o : operand) : bool :=
  match o with
  | Reg r => clobbered st r
  | Mem _ base => live && fixed st base
  | _ => false
  end.

Definition instr_ok (st : statement) (live : bool) (i : instr) : bool :=
  match i with
  | movq src dst | addq src dst | adcq src dst | xorq src dst => src_ok st live src && dst_ok st live dst
  | mulq src => src_ok st live src && clobbered st rax && clobbered st rdx
  | _ => false
  end.

(** The outputs written, if the code keeps to the constraints. *)
Fixpoint outputs (st : statement) (live : bool) (p : list instr) : option (bool * list nat) :=
  match p with
  | [] => Some (live, [])
  | movq src (Arg k) :: p' =>
      match nth_error (constraints st) k with
      | Some (Out early) =>
          if src_ok st live src then match outputs st (live && early) p' with Some (live', ks) => Some (live', k :: ks) | None => None end else None
      | _ => None
      end
  | i :: p' => if instr_ok st live i then outputs st live p' else None
  end.

(** The registers of the inputs are not overwritten. *)
Definition inputs_kept (st : statement) : bool := forallb (fun r => negb (fixed st r)) (clobbers st).

(** ** Registers and slots *)

Lemma reg_index_inj r r' : reg_index r = reg_index r' -> r = r'.
Proof. destruct r, r'; (reflexivity || discriminate). Qed.

Lemma reg_eqb_spec r r' : reflect (r = r') (reg_eqb r r').
Proof. unfold reg_eqb. destruct (Nat.eqb_spec (reg_index r) (reg_index r')) as [E|N]; constructor; [exact (reg_index_inj _ _ E) | congruence]. Qed.

Lemma reg_index_bound r : (reg_index r < 16)%nat.
Proof. destruct r; cbn; lia. Qed.

Lemma put_some {A} (l : list A) i x : (i < length l)%nat -> exists l', put l i x = Some l'.
Proof.
  revert i. induction l as [|y l IH]; intros [|i] Hi; cbn [length] in Hi; try lia; cbn [put]; [eexists; reflexivity|].
  destruct (IH i ltac:(lia)) as [l' ->]. eexists. reflexivity.
Qed.

Lemma put_spec {A} (l : list A) i x l' : put l i x = Some l' -> length l' = length l /\ nth_error l' i = Some x /\ forall j, j <> i -> nth_error l' j = nth_error l j.
Proof.
  revert i l'. induction l as [|y l IH]; intros [|i] l'; cbn [put]; try discriminate.
  - intros [= <-]. split; [reflexivity|]. split; [reflexivity|]. intros [|j] Hj; [contradiction | reflexivity].
  - destruct (put l i x) as [l0|] eqn:E; [|discriminate]. intros [= <-]. destruct (IH i l0 E) as (H1 & H2 & H3). cbn [length nth_error]. split; [congruence|]. split; [exact H2|].
    intros [|j] Hj; [reflexivity | apply H3; congruence].
Qed.

Lemma put_bound {A} (l : list A) i x l' : put l i x = Some l' -> (i < length l)%nat.
Proof. intros H. destruct (put_spec l i x l' H) as (HL & Hi & _). rewrite <- HL. apply nth_error_Some. congruence. Qed.

(** What an operand in a place reads, and a write to it. *)
Definition read_place (s : state) (p : place) : checked val := read (fun _ => p) s (Arg 0).

Lemma read_arg al s k : read al s (Arg k) = read_place s (al k).
Proof. reflexivity. Qed.

(** A write of an integer to a place changes what that place holds, and nothing else. *)
Record written (p : place) (x : Z) (s s' : state) : Prop := {
  written_cf : cf s' = cf s;
  written_mem : mem s' = mem s;
  written_regs : length (regs s') = length (regs s);
  written_slots : length (slots s') = length (slots s);
  written_here : read_place s' p = Some (Int x);
  written_else : forall q, same_place q p = false -> read_place s' q = read_place s q
}.

Lemma write_written al s k x s' : write al s (Arg k) (Int x) = Some s' -> written (al k) x s s'.
Proof.
  cbn [write]. destruct (al k) as [r|j|v] eqn:E; [| |discriminate].
  - unfold write_reg. destruct (put (regs s) (reg_index r) (Int x)) as [l|] eqn:EP; [|discriminate]. intros [= <-]. destruct (put_spec _ _ _ _ EP) as (HL & Hi & Ho).
    constructor; cbn [cf mem regs slots]; try reflexivity; [exact HL | exact Hi|]. intros [r'|j'|v'] HQ; try reflexivity. cbn. apply Ho. cbn [same_place] in HQ. unfold reg_eqb in HQ. apply Nat.eqb_neq, HQ.
  - destruct (put (slots s) j x) as [l|] eqn:EP; [|discriminate]. intros [= <-]. destruct (put_spec _ _ _ _ EP) as (HL & Hi & Ho).
    constructor; cbn [cf mem regs slots]; try reflexivity; [exact HL | cbn; rewrite Hi; reflexivity|]. intros [r'|j'|v'] HQ; try reflexivity. cbn. rewrite Ho; [reflexivity|].
    cbn [same_place] in HQ. apply Nat.eqb_neq, HQ.
Qed.

(** A place that is allowed can be written. *)
Lemma write_allowed st al s k x c fr : allowed st fr c (al k) = true -> (match c with Out _ | Inp => True | _ => False end) -> length (regs s) = 16%nat -> length (slots s) = fr ->
  exists s', write al s (Arg k) (Int x) = Some s'.
Proof.
  intros Ha Hc HR HS. cbn [write]. destruct c; try contradiction; (destruct (al k) as [r|j|v]; cbn [allowed] in Ha; [| |discriminate]).
  all: try (unfold write_reg; destruct (put_some (regs s) (reg_index r) (Int x)) as [l ->]; [rewrite HR; apply reg_index_bound | eexists; reflexivity]).
  all: apply Nat.ltb_lt in Ha; destruct (put_some (slots s) j x) as [l ->]; [lia | eexists; reflexivity].
Qed.

(** ** Two choices of places

    [can] puts each operand of a [g] in the word of the frame with its number; [pl] is
    any choice that the constraints permit. *)

Definition slot_choice (st : statement) (can : nat -> place) : Prop := forall k c, nth_error (constraints st) k = Some c ->
  can k = match c with Fixed r => InReg r | Number x => Const (Int x) | _ => Slot k end.

Section Choices.
Variables (st : statement) (can : nat -> place) (pl : placement).
Hypotheses (Hcan : slot_choice st can) (Hpl : permitted st pl) (Hkept : inputs_kept st = true).

#[local] Abbreviation reg_of s r := (nth_error (regs s) (reg_index r)).

(** The states of the two runs, with the outputs [ks] written. *)
Record matches (live : bool) (ks : list nat) (c s : state) : Prop := {
  matches_cf : cf s = cf c;
  matches_mem : mem s = mem c;
  matches_regs : length (regs s) = 16%nat;
  matches_slots : length (slots s) = frame pl;
  matches_clobbered : forall r, clobbered st r = true -> reg_of s r = reg_of c r;
  matches_fixed : live = true -> forall k r, nth_error (constraints st) k = Some (Fixed r) -> reg_of s r = reg_of c r;
  matches_inputs : live = true -> forall k, nth_error (constraints st) k = Some Inp -> read_place s (alloc pl k) = read_place c (can k);
  matches_outputs : forall k, In k ks -> (exists early, nth_error (constraints st) k = Some (Out early)) /\ read_place s (alloc pl k) = read_place c (can k)
}.

Lemma clobbered_not_fixed r k : clobbered st r = true -> nth_error (constraints st) k <> Some (Fixed r).
Proof.
  intros Hr Hk. unfold inputs_kept in Hkept. rewrite forallb_forall in Hkept. unfold clobbered in Hr. apply existsb_exists in Hr as (r' & Hin & E).
  destruct (reg_eqb_spec r r') as [<-|]; [|discriminate]. specialize (Hkept r Hin). apply negb_true_iff in Hkept. unfold fixed in Hkept.
  assert (existsb (fun c => match c with Fixed r' => reg_eqb r r' | _ => false end) (constraints st) = true); [|congruence].
  apply existsb_exists. exists (Fixed r). split; [exact (nth_error_In _ _ Hk)|]. destruct (reg_eqb_spec r r); congruence.
Qed.

Lemma fixed_operand r : fixed st r = true -> exists k, nth_error (constraints st) k = Some (Fixed r).
Proof.
  unfold fixed. rewrite existsb_exists. intros (c & Hin & E). destruct c as [| |r'|]; try discriminate. destruct (reg_eqb_spec r r') as [<-|]; [|discriminate]. exact (In_nth_error _ _ Hin).
Qed.

(** The place of an input or of an output is not overwritten with a register. *)
Lemma place_not_clobbered k c r : nth_error (constraints st) k = Some c -> (match c with Out _ | Inp => True | _ => False end) -> clobbered st r = true -> same_place (alloc pl k) (InReg r) = false.
Proof.
  intros Hk Hc Hr. pose proof (proj1 Hpl k c Hk) as Ha. destruct (alloc pl k) as [r'|j|v]; cbn [same_place]; try reflexivity.
  destruct (reg_eqb_spec r' r) as [->|]; [|reflexivity]. destruct c; try contradiction; cbn [allowed] in Ha; rewrite Hr in Ha; destruct (reg_eqb r rsp); discriminate.
Qed.

Lemma can_slot k c : nth_error (constraints st) k = Some c -> (match c with Out _ | Inp => True | _ => False end) -> can k = Slot k.
Proof. intros Hk Hc. rewrite (Hcan k c Hk). destruct c; (reflexivity || contradiction). Qed.

Lemma read_matches live ks c s o : matches live ks c s -> src_ok st live o = true -> read (alloc pl) s o = read can c o.
Proof.
  intros HM Ho. destruct o as [r|x|k base|k]; cbn [src_ok] in Ho.
  - exact (matches_clobbered _ _ _ _ HM r Ho).
  - reflexivity.
  - apply andb_true_iff in Ho as [Hl Hf]. destruct (fixed_operand base Hf) as [i Hi]. cbn [read]. rewrite (matches_fixed _ _ _ _ HM Hl i base Hi), (matches_mem _ _ _ _ HM). reflexivity.
  - rewrite !read_arg. destruct (nth_error (constraints st) k) as [[| |r|x]|] eqn:Ek; try discriminate.
    + exact (matches_inputs _ _ _ _ HM Ho k Ek).
    + rewrite (Hcan k _ Ek). pose proof (proj1 Hpl k _ Ek) as Ha. destruct (alloc pl k) as [| |[y|b]]; cbn [allowed] in Ha; try discriminate. apply Z.eqb_eq in Ha as ->. reflexivity.
Qed.

Lemma read_int_matches live ks c s o : matches live ks c s -> src_ok st live o = true -> read_int (alloc pl) s o = read_int can c o.
Proof. intros HM Ho. unfold read_int. rewrite (read_matches live ks c s o HM Ho). reflexivity. Qed.

Lemma dst_src live o : dst_ok st live o = true -> src_ok st live o = true.
Proof. destruct o; cbn [dst_ok src_ok]; (discriminate || exact (fun H => H)). Qed.

Lemma set_cf_matches live ks c s b : matches live ks c s -> matches live ks (set_cf c b) (set_cf s b).
Proof. intros []. constructor; auto. Qed.

(** A register that the statement overwrites. *)
Lemma write_reg_matches live ks c s r v c' : matches live ks c s -> clobbered st r = true -> write_reg c r v = Some c' -> exists s', write_reg s r v = Some s' /\ matches live ks c' s'.
Proof.
  intros HM Hr. unfold write_reg. destruct (put (regs c) (reg_index r) v) as [lc|] eqn:Ec; [|discriminate]. intros [= <-].
  destruct (put_some (regs s) (reg_index r) v) as [ls Es]; [rewrite (matches_regs _ _ _ _ HM); apply reg_index_bound|]. rewrite Es. eexists. split; [reflexivity|].
  destruct (put_spec _ _ _ _ Ec) as (_ & Hc1 & Hc2), (put_spec _ _ _ _ Es) as (HL & Hs1 & Hs2).
  assert (forall q, same_place q (InReg r) = false -> read_place (mk_state ls (cf s) (slots s) (mem s)) q = read_place s q) as HP.
  { intros [r'|j|w] HQ; try reflexivity. cbn. apply Hs2. cbn [same_place] in HQ. unfold reg_eqb in HQ. apply Nat.eqb_neq, HQ. }
  assert (forall k d, nth_error (constraints st) k = Some d -> (match d with Out _ | Inp => True | _ => False end) ->
    read_place (mk_state lc (cf c) (slots c) (mem c)) (can k) = read_place c (can k)) as HC by (intros k d Hk Hd; rewrite (can_slot k d Hk Hd); reflexivity).
  destruct HM as [M1 M2 M3 M4 M5 M6 M7 M8]. constructor; cbn [cf mem regs slots]; try assumption; [congruence | | | |].
  - intros q Hq. destruct (Nat.eq_dec (reg_index q) (reg_index r)) as [E|N]; [rewrite E; congruence | rewrite Hc2, Hs2 by exact N; exact (M5 q Hq)].
  - intros Hl k q Hk. destruct (Nat.eq_dec (reg_index q) (reg_index r)) as [E|N]; [apply reg_index_inj in E as ->; exfalso; exact (clobbered_not_fixed r k Hr Hk)|].
    rewrite Hc2, Hs2 by exact N. exact (M6 Hl k q Hk).
  - intros Hl k Hk. rewrite (HC k _ Hk I), HP by exact (place_not_clobbered k _ r Hk I Hr). exact (M7 Hl k Hk).
  - intros k Hk. destruct (M8 k Hk) as [[e He] E]. split; [eauto|]. rewrite (HC k _ He I), HP by exact (place_not_clobbered k _ r He I Hr). exact E.
Qed.

Lemma write_matches live ks c s o v c' : matches live ks c s -> dst_ok st live o = true -> write can c o v = Some c' -> exists s', write (alloc pl) s o v = Some s' /\ matches live ks c' s'.
Proof.
  intros HM Ho. destruct o as [r|x|k base|k]; cbn [dst_ok] in Ho; try discriminate; [exact (write_reg_matches live ks c s r v c' HM Ho)|].
  apply andb_true_iff in Ho as [Hl Hf]. destruct (fixed_operand base Hf) as [i Hi]. cbn [write]. rewrite (matches_fixed _ _ _ _ HM Hl i base Hi), (matches_mem _ _ _ _ HM).
  destruct (reg_of c base) as [[|b]|]; try discriminate. destruct v as [x|]; [|discriminate]. destruct (block (mem c) b) as [l|]; [|discriminate]. cbn [bind].
  destruct (put l k x) as [l'|]; [|discriminate]. cbn [bind ret]. intros [= <-]. eexists. split; [reflexivity|]. destruct HM. constructor; auto.
Qed.

(** An output.  With [&], or when the inputs are not read any more. *)
Lemma write_output live ks c s k v c' early : matches live ks c s -> nth_error (constraints st) k = Some (Out early) -> write can c (Arg k) v = Some c' ->
  exists s', write (alloc pl) s (Arg k) v = Some s' /\ matches (live && early) (k :: ks) c' s'.
Proof.
  intros HM Hk Hw. destruct v as [x|b]; [|cbn [write] in Hw; rewrite (can_slot k _ Hk I) in Hw; discriminate].
  destruct (write_allowed st (alloc pl) s k x _ _ (proj1 Hpl k _ Hk) I (matches_regs _ _ _ _ HM) (matches_slots _ _ _ _ HM)) as [s' Es]. exists s'. split; [exact Es|].
  apply write_written in Hw as Wc. apply write_written in Es as Ws. rewrite (can_slot k _ Hk I) in Wc.
  assert (forall q, read_place c' (InReg q) = read_place c (InReg q)) as HCR by (intros q; apply (written_else _ _ _ _ Wc); reflexivity).
  assert (forall k' d, k' <> k -> nth_error (constraints st) k' = Some d -> (match d with Out _ | Inp => True | _ => False end) -> read_place c' (can k') = read_place c (can k')) as HC.
  { intros k' d N Hk' Hd. apply (written_else _ _ _ _ Wc). rewrite (can_slot k' d Hk' Hd). cbn [same_place]. apply Nat.eqb_neq, N. }
  pose proof (matches_regs _ _ _ _ HM) as M3. pose proof (matches_slots _ _ _ _ HM) as M4.
  destruct HM as [M1 M2 _ _ M5 M6 M7 M8], Ws as [W1 W2 W3 W4 W5 W6]. constructor; [| | | | | | |].
  - rewrite W1, (written_cf _ _ _ _ Wc). exact M1.
  - rewrite W2, (written_mem _ _ _ _ Wc). exact M2.
  - congruence.
  - congruence.
  - intros r Hr. change (read_place s' (InReg r) = read_place c' (InReg r)). rewrite HCR, W6; [exact (M5 r Hr)|].
    pose proof (place_not_clobbered k _ r Hk I Hr) as HN. destruct (alloc pl k) as [r'| |]; try reflexivity. cbn [same_place] in *. unfold reg_eqb in *. rewrite Nat.eqb_sym. exact HN.
  - intros Hl k' r Hk'. apply andb_true_iff in Hl as [Hl ->]. change (read_place s' (InReg r) = read_place c' (InReg r)). rewrite HCR, W6; [exact (M6 Hl k' r Hk')|].
    assert (k' <> k) as N by congruence. pose proof (proj2 Hpl k' k _ _ N Hk' Hk eq_refl) as HN. pose proof (proj1 Hpl k' _ Hk') as Ha.
    destruct (alloc pl k') as [r'| |]; cbn [allowed] in Ha; try discriminate. destruct (reg_eqb_spec r r') as [<-|]; [exact HN | discriminate].
  - intros Hl k' Hk'. apply andb_true_iff in Hl as [Hl ->]. assert (k' <> k) as N by congruence. rewrite (HC k' _ N Hk' I), W6; [exact (M7 Hl k' Hk')|]. exact (proj2 Hpl k' k _ _ N Hk' Hk eq_refl).
  - intros k' Hin. destruct (Nat.eq_dec k' k) as [->|N]; [split; [eauto|]; rewrite W5, (can_slot k _ Hk I); symmetry; exact (written_here _ _ _ _ Wc)|].
    destruct Hin as [E|Hin]; [congruence|]. destruct (M8 k' Hin) as [[e He] E]. split; [eauto|]. rewrite (HC k' _ N He I), W6; [exact E|]. exact (proj2 Hpl k' k _ _ N He Hk eq_refl).
Qed.

(** An instruction with a result. *)
Lemma result_matches live ks c s o x b c' : matches live ks c s -> dst_ok st live o = true -> result can c o x b = Some c' -> exists s', result (alloc pl) s o x b = Some s' /\ matches live ks c' s'.
Proof.
  intros HM Ho. unfold result. destruct (write can c o (Int x)) as [c1|] eqn:Ec; [|discriminate]. intros [= <-]. destruct (write_matches live ks c s o _ c1 HM Ho Ec) as (s1 & -> & HM').
  eexists. split; [reflexivity|]. apply set_cf_matches, HM'.
Qed.

Lemma exec_matches live ks c s i c' : matches live ks c s -> instr_ok st live i = true -> exec can i c = Some c' -> exists s', exec (alloc pl) i s = Some s' /\ matches live ks c' s'.
Proof.
  intros HM Hi. pose proof (matches_cf _ _ _ _ HM) as Ecf. destruct i; cbn [instr_ok] in Hi; try discriminate; cbn [exec].
  4: { apply andb_true_iff in Hi as [Hi Hd], Hi as [Hs Ha]. rewrite (read_int_matches _ _ _ _ _ HM Hs), (read_int_matches _ _ _ _ (Reg rax) HM Ha).
       destruct (read_int can c src) as [x|]; [|discriminate]. destruct (read_int can c (Reg rax)) as [y|]; [|discriminate]. cbn [bind].
       destruct (write_reg c rax _) as [c1|] eqn:E1; [|discriminate]. destruct (write_reg_matches _ _ _ _ _ _ _ HM Ha E1) as (s1 & -> & HM1). cbn [bind].
       destruct (write_reg c1 rdx _) as [c2|] eqn:E2; [|discriminate]. destruct (write_reg_matches _ _ _ _ _ _ _ HM1 Hd E2) as (s2 & -> & HM2). cbn [bind ret]. intros [= <-].
       eexists. split; [reflexivity|]. apply set_cf_matches, HM2. }
  1: { apply andb_true_iff in Hi as [Hs Hd]. rewrite (read_matches _ _ _ _ _ HM Hs). destruct (read can c src) as [v|]; [|discriminate]. exact (write_matches _ _ _ _ _ _ _ HM Hd). }
  all: apply andb_true_iff in Hi as [Hs Hd]; rewrite (read_int_matches _ _ _ _ _ HM Hs), (read_int_matches _ _ _ _ _ HM (dst_src _ _ Hd)), ?Ecf.
  all: destruct (read_int can c src) as [x|]; [|discriminate]; destruct (read_int can c dst) as [y|]; [|discriminate]; exact (result_matches _ _ _ _ _ _ _ _ HM Hd).
Qed.

Lemma outputs_step live i p : outputs st live (i :: p) =
  match i with
  | movq src (Arg k) =>
      match nth_error (constraints st) k with
      | Some (Out early) =>
          if src_ok st live src then match outputs st (live && early) p with Some (live', ks) => Some (live', k :: ks) | None => None end else None
      | _ => None
      end
  | _ => if instr_ok st live i then outputs st live p else None
  end.
Proof. reflexivity. Qed.

Lemma run_matches p : forall live ks c s live' ws c', matches live ks c s -> outputs st live p = Some (live', ws) -> run can p c = Some c' ->
  exists s', run (alloc pl) p s = Some s' /\ matches live' (rev ws ++ ks) c' s'.
Proof.
  induction p as [|i p IH]; intros live ks c s live' ws c' HM Ho Hr; [injection Ho as <- <-; injection Hr as <-; exists s; split; [reflexivity | exact HM]|].
  cbn [run] in *. destruct (exec can i c) as [c1|] eqn:Ec; [|discriminate]. cbn [bind] in Hr. rewrite outputs_step in Ho.
  assert ((exists src k early ws', i = movq src (Arg k) /\ nth_error (constraints st) k = Some (Out early) /\ src_ok st live src = true /\ outputs st (live && early) p = Some (live', ws') /\ ws = k :: ws') \/
    (instr_ok st live i = true /\ outputs st live p = Some (live', ws))) as [(src & k & early & ws' & -> & Hk & Hs & Ho' & ->)|[Hi Ho']].
  { destruct i as [src dst| | | | | | | | | | | | | |]; try (right; destruct (instr_ok _ _ _); [auto | discriminate]). destruct dst as [r|x|j b|k]; try (right; destruct (instr_ok _ _ _); [auto | discriminate]). left.
    destruct (nth_error (constraints st) k) as [[early| | |]|] eqn:Hk; try discriminate. destruct (src_ok st live src) eqn:Hs; [|discriminate].
    destruct (outputs st (live && early) p) as [[live1 ws']|] eqn:Ho'; [|discriminate]. injection Ho as <- <-. exists src, k, early, ws'. auto 6. }
  - cbn [exec] in *. rewrite (read_matches _ _ _ _ _ HM Hs). destruct (read can c src) as [v|]; [|discriminate]. cbn [bind] in *. destruct (write_output _ _ _ _ _ _ _ _ HM Hk Ec) as (s1 & -> & HM1).
    cbn [bind]. destruct (IH _ _ _ _ _ _ _ HM1 Ho' Hr) as (s' & Es & HM'). exists s'. split; [exact Es|]. cbn [rev]. rewrite <- app_assoc. exact HM'.
  - destruct (exec_matches _ _ _ _ _ _ HM Hi Ec) as (s1 & -> & HM1). cbn [bind]. exact (IH _ _ _ _ _ _ _ HM1 Ho' Hr).
Qed.

Lemma read_args_matches live ks c s outs : matches live ks c s -> incl outs ks -> read_args (alloc pl) s outs = read_args can c outs.
Proof.
  intros HM. induction outs as [|k outs IH]; intros Hin; [reflexivity|]. cbn [read_args]. apply incl_cons_inv in Hin as [Hk Hin]. unfold read_int. rewrite !read_arg.
  rewrite (proj2 (matches_outputs _ _ _ _ HM k Hk)), (IH Hin). reflexivity.
Qed.

(** ** The state at the start *)

Lemma enter_regs_length lo pointers fr m : length (regs (enter lo pointers fr m)) = 16%nat.
Proof.
  cbn [enter regs]. change 16%nat with (length (left_regs (left lo))). generalize (left_regs (left lo)). induction pointers as [|[r v] ps IH]; intros l; cbn [fold_left]; [reflexivity|].
  rewrite IH. apply length_upd.
Qed.

(** The inputs [todo] are still to be placed. *)
Lemma place_inputs_matches c (kept : list (nat * Z)) todo : forall s, NoDup (map fst (kept ++ todo)) -> (forall k x, In (k, x) (kept ++ todo) -> nth_error (constraints st) k = Some Inp) ->
  matches false [] c s -> (forall k r, nth_error (constraints st) k = Some (Fixed r) -> reg_of s r = reg_of c r) -> (forall k x, In (k, x) kept -> read_place s (alloc pl k) = Some (Int x)) ->
  exists s', place_inputs (alloc pl) s todo = Some s' /\ matches false [] c s' /\ (forall k r, nth_error (constraints st) k = Some (Fixed r) -> reg_of s' r = reg_of c r) /\
    (forall k x, In (k, x) (kept ++ todo) -> read_place s' (alloc pl k) = Some (Int x)).
Proof.
  revert kept. induction todo as [|[k x] todo IH]; intros kept s Hnd Hinp HM HF HK; [exists s; rewrite app_nil_r in *; auto|]. cbn [place_inputs].
  assert (nth_error (constraints st) k = Some Inp) as Hk by (apply (Hinp k x), in_elt).
  destruct (write_allowed st (alloc pl) s k x _ _ (proj1 Hpl k _ Hk) I (matches_regs _ _ _ _ HM) (matches_slots _ _ _ _ HM)) as [s1 Es]. rewrite Es. cbn [bind].
  apply write_written in Es as W. destruct W as [W1 W2 W3 W4 W5 W6]. specialize (IH (kept ++ [(k, x)]) s1). rewrite <- app_assoc in IH. cbn [app] in IH. apply IH; [exact Hnd | exact Hinp | | |].
  - destruct HM as [M1 M2 M3 M4 M5 M6 M7 M8]. constructor; try congruence; try discriminate; [|intros k' []]. intros r Hr. rewrite <- (M5 r Hr). apply (W6 (InReg r)).
    pose proof (place_not_clobbered k _ r Hk I Hr) as HN. destruct (alloc pl k) as [r'| |]; try reflexivity. cbn [same_place] in *. unfold reg_eqb in *. rewrite Nat.eqb_sym. exact HN.
  - intros k' r Hk'. rewrite <- (HF k' r Hk'). apply (W6 (InReg r)). assert (k' <> k) as N by congruence. pose proof (proj2 Hpl k' k _ _ N Hk' Hk eq_refl) as HN. pose proof (proj1 Hpl k' _ Hk') as Ha.
    destruct (alloc pl k') as [r'| |]; cbn [allowed] in Ha; try discriminate. destruct (reg_eqb_spec r r') as [<-|]; [exact HN | discriminate].
  - intros k' x' Hin. apply in_app_iff in Hin as [Hin|[E|[]]]; [|injection E as <- <-; exact W5]. rewrite W6; [exact (HK k' x' Hin)|].
    assert (k' <> k) as N. { intros ->. rewrite map_app in Hnd. cbn [map fst] in Hnd. apply NoDup_remove_2 in Hnd. apply Hnd, in_app_iff. left. change k with (fst (k, x')). apply in_map, Hin. }
    exact (proj2 Hpl k' k _ _ N (Hinp k' x' (in_or_app _ _ _ (or_introl Hin))) Hk eq_refl).
Qed.

(** The inputs of the statement, once each, with their words in the frame of [can]. *)
Definition inputs_in (inputs : list (nat * Z)) (fr : list Z) : Prop :=
  NoDup (map fst inputs) /\ (forall k x, In (k, x) inputs -> nth_error (constraints st) k = Some Inp /\ nth_error fr k = Some x) /\
  (forall k, nth_error (constraints st) k = Some Inp -> In k (map fst inputs)).

Lemma start_matches lo pointers inputs fr m : inputs_in inputs fr -> exists s, start lo pointers pl inputs m = Some s /\ matches true [] (enter lo pointers fr m) s.
Proof.
  intros (Hnd & Hin & Hall). unfold start. destruct (place_inputs_matches (enter lo pointers fr m) [] inputs (enter lo pointers (junk_words lo (frame pl)) m)) as (s & Es & HM & HF & HI).
  - exact Hnd.
  - intros k x H. exact (proj1 (Hin k x H)).
  - constructor; try reflexivity; try discriminate; [apply enter_regs_length | cbn [enter slots]; unfold junk_words; rewrite length_map; apply length_seq | intros k []].
  - reflexivity.
  - intros k x [].
  - exists s. split; [exact Es|]. destruct HM as [M1 M2 M3 M4 M5 M6 M7 M8]. constructor; try assumption; [intros _; exact HF|]. intros _ k Hk.
    apply Hall, in_map_iff in Hk as ([k' x] & E & Hkx). cbn [fst] in E. subst k'. rewrite (HI k x Hkx). destruct (Hin k x Hkx) as [Hk Hx]. rewrite (can_slot k _ Hk I). cbn. rewrite Hx. reflexivity.
Qed.

(** A statement whose code keeps to its constraints does the same for every choice. *)
Lemma statement_refines lo pointers inputs fr m outs live ws : inputs_in inputs fr -> outputs st true (code st) = Some (live, ws) -> incl outs ws ->
  forall r, (s <- run can (code st) (enter lo pointers fr m);; l <- read_args can s outs;; ret (l, mem s)) = Some r -> run_statement lo st pl pointers inputs m outs = Some r.
Proof.
  intros HI Ho Hw r Hr. unfold run_statement. destruct (start_matches lo pointers inputs fr m HI) as (s & -> & HM). cbn [bind].
  destruct (run can (code st) (enter lo pointers fr m)) as [c'|] eqn:Ec; [|discriminate]. cbn [bind] in Hr. destruct (run_matches _ _ _ _ _ _ _ _ HM Ho Ec) as (s' & -> & HM'). cbn [bind].
  rewrite (read_args_matches _ _ _ _ outs HM'), (matches_mem _ _ _ _ HM') by (rewrite app_nil_r; intros k Hk; apply in_rev; rewrite rev_involutive; exact (Hw k Hk)). exact Hr.
Qed.

Lemma run_cons al i p s : run al (i :: p) s = bind (exec al i s) (run al p).
Proof. reflexivity. Qed.

(** An output in the register of a pointer that the code still needs: the next read
    through it has no address. *)
Lemma lost_read al s x q i base d rest : reg_of s base = Some (Int x) -> reg_eqb q base = false -> run al (xorq (Reg q) (Reg q) :: addq (Mem i base) (Reg d) :: rest) s = None.
Proof.
  intros E Hq. cbn [run exec]. destruct (read_int al s (Reg q)) as [y|]; [|reflexivity]. unfold result. cbn [bind write]. unfold write_reg.
  destruct (put (regs s) (reg_index q) (Int (Z.lxor y y))) as [l|] eqn:El; [|reflexivity]. cbn [bind ret]. unfold read_int at 1. cbn [read set_cf regs].
  rewrite (proj2 (proj2 (put_spec _ _ _ _ El))), E; [reflexivity|]. unfold reg_eqb in Hq. apply Nat.eqb_neq in Hq. congruence.
Qed.

Lemma pointer_lost lo pointers inputs fr m outs p j r q i base d rest live ws early : inputs_in inputs fr ->
  code st = p ++ movq (Reg r) (Arg j) :: xorq (Reg q) (Reg q) :: addq (Mem i base) (Reg d) :: rest -> outputs st true p = Some (live, ws) ->
  nth_error (constraints st) j = Some (Out early) -> alloc pl j = InReg base -> clobbered st r = true -> reg_eqb q base = false ->
  run can (code st) (enter lo pointers fr m) <> None -> run_statement lo st pl pointers inputs m outs = None.
Proof.
  intros HI Hcode Ho Hj Ha Hr Hq Hrun. unfold run_statement. destruct (start_matches lo pointers inputs fr m HI) as (s & -> & HM). cbn [bind].
  rewrite Hcode, run_app in *. destruct (run can p (enter lo pointers fr m)) as [c|] eqn:Ec; [|contradiction]. cbn [bind] in Hrun. destruct (run_matches _ _ _ _ _ _ _ _ HM Ho Ec) as (s1 & -> & HM1). cbn [bind].
  assert (exists x, reg_of s1 r = Some (Int x)) as [x Ex].
  { rewrite (matches_clobbered _ _ _ _ HM1 r Hr). cbn [run exec read write] in Hrun. rewrite (can_slot j _ Hj I) in Hrun. destruct (reg_of c r) as [[x|b]|]; [eexists; reflexivity | contradiction | contradiction]. }
  rewrite run_cons. cbn [exec read write]. rewrite Ex, Ha. cbn [bind]. unfold write_reg at 1. destruct (put_some (regs s1) (reg_index base) (Int x)) as [l El]; [rewrite (matches_regs _ _ _ _ HM1); apply reg_index_bound|].
  rewrite El. cbn [bind ret]. rewrite (lost_read (alloc pl) _ x q i base d rest); [reflexivity | exact (proj1 (proj2 (put_spec _ _ _ _ El))) | exact Hq].
Qed.

End Choices.

(** ** Deciding what is permitted *)

Lemma indexed_In {A} (l : list A) b k c : nth_error l k = Some c -> In ((b + k)%nat, c) (combine (seq b (length l)) l).
Proof.
  revert b k. induction l as [|d l IH]; intros b [|k] Hk; cbn [nth_error length seq combine] in *; try discriminate; [injection Hk as ->; left; f_equal; lia|].
  right. replace (b + S k)%nat with (S b + k)%nat by lia. exact (IH (S b) k Hk).
Qed.

Lemma permittedb_permitted st pl : permittedb st pl = true -> permitted st pl.
Proof.
  unfold permittedb. cbv zeta. rewrite andb_true_iff, !forallb_forall. intros [H1 H2]. split.
  - intros k c Hk. exact (H1 (k, c) (indexed_In _ 0 k c Hk)).
  - intros i j ci cj N Hi Hj HA. specialize (H2 (i, ci) (indexed_In _ 0 i ci Hi)). cbv beta iota in H2. rewrite forallb_forall in H2. specialize (H2 (j, cj) (indexed_In _ 0 j cj Hj)). cbv beta iota in H2.
    rewrite HA, (proj2 (Nat.eqb_neq i j) N) in H2. cbn [orb negb] in H2. apply negb_true_iff, H2.
Qed.

(** ** Inputs in a row *)

Lemma combine_seq_In {A} (m : list A) b k x : In (k, x) (combine (seq b (length m)) m) -> exists i, k = (b + i)%nat /\ nth_error m i = Some x.
Proof.
  revert b. induction m as [|y m IH]; intros b; [intros []|]. cbn [length seq combine In]. intros [[= <- <-]|H]; [exists O; split; [lia | reflexivity]|].
  destruct (IH (S b) H) as (i & -> & Hi). exists (S i). split; [lia | exact Hi].
Qed.

Lemma map_fst_combine {A B} (l : list A) (m : list B) : length l = length m -> map fst (combine l m) = l.
Proof. revert m. induction l as [|x l IH]; intros [|y m] H; try discriminate; [reflexivity|]. cbn [combine map fst]. f_equal. apply IH. injection H. auto. Qed.

Lemma inputs_in_row st outs rest jk m : constraints st = outs ++ repeat Inp (length m) ++ rest -> length jk = length outs -> ~ In Inp outs -> ~ In Inp rest ->
  inputs_in st (combine (seq (length outs) (length m)) m) (jk ++ m).
Proof.
  intros Hc Hj Ho Hr. split; [rewrite map_fst_combine by apply length_seq; apply seq_NoDup|]. rewrite map_fst_combine, Hc by apply length_seq. split.
  - intros k x H. apply combine_seq_In in H as (i & -> & Hi). assert (i < length m)%nat as Hl by (apply nth_error_Some; congruence).
    rewrite nth_error_app2, nth_error_app1, nth_error_repeat by (rewrite ?repeat_length; lia). split; [reflexivity|]. rewrite nth_error_app2 by lia. rewrite <- Hi. f_equal. lia.
  - intros k Hk. apply in_seq. destruct (Nat.ltb_spec k (length outs)) as [H1|H1]; [rewrite nth_error_app1 in Hk by lia; exfalso; exact (Ho (nth_error_In _ _ Hk))|].
    rewrite nth_error_app2 in Hk by lia. destruct (Nat.ltb_spec (k - length outs) (length m)) as [H2|H2]; [lia|].
    rewrite nth_error_app2 in Hk by (rewrite repeat_length; lia). exfalso. exact (Hr (nth_error_In _ _ Hk)).
Qed.

Lemma inputs_in_none st fr : ~ In Inp (constraints st) -> inputs_in st [] fr.
Proof. intros H. split; [constructor|]. split; [intros k x []|]. intros k Hk. exact (H (nth_error_In _ _ Hk)). Qed.
