(* ===== verification/FieldAsm.v ===== *)
(** * The x86-64 assembly of the field multiplication ([field_5x52_asm_impl.h])

    The instructions of [secp256k1_fe_mul_inner] and [secp256k1_fe_sqr_inner] for a
    build with [USE_ASM_X86_64], in parts of the source's text, each row under the
    comment it has there.  The assembly computes the limbs that the C code of
    [field_5x52_int128_impl.h] computes, whatever the registers held before, also
    where the result overwrites an operand. *)

From Stdlib Require Import ZArith Lia List Bool.
From S2P Require Import Prelude Modulus Bytes Field5x52 Field FieldReprs X86.
Import ListNotations.

#[local] Open Scope Z_scope.
#[local] Open Scope checked_scope.

(** The limbs of [a], and [t3], [t4] and [tx] to the stack frame. *)
Definition fe_mul_inner_t3_t4 : list instr :=
  [ movq (Mem 0 rsi) (Reg r10); movq (Mem 1 rsi) (Reg r11); movq (Mem 2 rsi) (Reg r12); movq (Mem 3 rsi) (Reg r13); movq (Mem 4 rsi) (Reg r14);
    (* d += a3 * b0 *) movq (Mem 0 rbx) (Reg rax); mulq (Reg r13); movq (Reg rax) (Reg rcx); movq (Reg rdx) (Reg r15);
    (* d += a2 * b1 *) movq (Mem 1 rbx) (Reg rax); mulq (Reg r12); addq (Reg rax) (Reg rcx); adcq (Reg rdx) (Reg r15);
    (* d += a1 * b2 *) movq (Mem 2 rbx) (Reg rax); mulq (Reg r11); addq (Reg rax) (Reg rcx); adcq (Reg rdx) (Reg r15);
    (* d = a0 * b3 *) movq (Mem 3 rbx) (Reg rax); mulq (Reg r10); addq (Reg rax) (Reg rcx); adcq (Reg rdx) (Reg r15);
    (* c = a4 * b4 *) movq (Mem 4 rbx) (Reg rax); mulq (Reg r14); movq (Reg rax) (Reg r8); movq (Reg rdx) (Reg r9);
    (* d += (c & M) * R *) movq (Imm 0xfffffffffffff) (Reg rdx); andq (Reg rdx) (Reg rax); movq (Imm 0x1000003d10) (Reg rdx); mulq (Reg rdx); addq (Reg rax) (Reg rcx); adcq (Reg rdx) (Reg r15);
    (* c >>= 52 (%r8 only) *) shrdq 52 (Reg r9) (Reg r8);
    (* t3 (tmp1) = d & M *) movq (Reg rcx) (Reg rsi); movq (Imm 0xfffffffffffff) (Reg rdx); andq (Reg rdx) (Reg rsi); movq (Reg rsi) (Arg 1);
    (* d >>= 52 *) shrdq 52 (Reg r15) (Reg rcx); xorq (Reg r15) (Reg r15);
    (* d += a4 * b0 *) movq (Mem 0 rbx) (Reg rax); mulq (Reg r14); addq (Reg rax) (Reg rcx); adcq (Reg rdx) (Reg r15);
    (* d += a3 * b1 *) movq (Mem 1 rbx) (Reg rax); mulq (Reg r13); addq (Reg rax) (Reg rcx); adcq (Reg rdx) (Reg r15);
    (* d += a2 * b2 *) movq (Mem 2 rbx) (Reg rax); mulq (Reg r12); addq (Reg rax) (Reg rcx); adcq (Reg rdx) (Reg r15);
    (* d += a1 * b3 *) movq (Mem 3 rbx) (Reg rax); mulq (Reg r11); addq (Reg rax) (Reg rcx); adcq (Reg rdx) (Reg r15);
    (* d += a0 * b4 *) movq (Mem 4 rbx) (Reg rax); mulq (Reg r10); addq (Reg rax) (Reg rcx); adcq (Reg rdx) (Reg r15);
    (* d += c * R *) movq (Reg r8) (Reg rax); movq (Imm 0x1000003d10) (Reg rdx); mulq (Reg rdx); addq (Reg rax) (Reg rcx); adcq (Reg rdx) (Reg r15);
    (* t4 = d & M (%rsi) *) movq (Reg rcx) (Reg rsi); movq (Imm 0xfffffffffffff) (Reg rdx); andq (Reg rdx) (Reg rsi);
    (* d >>= 52 *) shrdq 52 (Reg r15) (Reg rcx); xorq (Reg r15) (Reg r15);
    (* tx = t4 >> 48 (tmp3) *) movq (Reg rsi) (Reg rax); shrq 48 (Reg rax); movq (Reg rax) (Arg 3);
    (* t4 &= (M >> 4) (tmp2) *) movq (Imm 0xffffffffffff) (Reg rax); andq (Reg rax) (Reg rsi); movq (Reg rsi) (Arg 2) ].

(** The limbs [r[0]] and [r[1]]. *)
Definition fe_mul_inner_r0_r1 : list instr :=
  [ (* c = a0 * b0 *) movq (Mem 0 rbx) (Reg rax); mulq (Reg r10); movq (Reg rax) (Reg r8); movq (Reg rdx) (Reg r9);
    (* d += a4 * b1 *) movq (Mem 1 rbx) (Reg rax); mulq (Reg r14); addq (Reg rax) (Reg rcx); adcq (Reg rdx) (Reg r15);
    (* d += a3 * b2 *) movq (Mem 2 rbx) (Reg rax); mulq (Reg r13); addq (Reg rax) (Reg rcx); adcq (Reg rdx) (Reg r15);
    (* d += a2 * b3 *) movq (Mem 3 rbx) (Reg rax); mulq (Reg r12); addq (Reg rax) (Reg rcx); adcq (Reg rdx) (Reg r15);
    (* d += a1 * b4 *) movq (Mem 4 rbx) (Reg rax); mulq (Reg r11); addq (Reg rax) (Reg rcx); adcq (Reg rdx) (Reg r15);
    (* u0 = d & M (%rsi) *) movq (Reg rcx) (Reg rsi); movq (Imm 0xfffffffffffff) (Reg rdx); andq (Reg rdx) (Reg rsi);
    (* d >>= 52 *) shrdq 52 (Reg r15) (Reg rcx); xorq (Reg r15) (Reg r15);
    (* u0 = (u0 << 4) | tx (%rsi) *) shlq 4 (Reg rsi); movq (Arg 3) (Reg rax); orq (Reg rax) (Reg rsi);
    (* c += u0 * (R >> 4) *) movq (Imm 0x1000003d1) (Reg rax); mulq (Reg rsi); addq (Reg rax) (Reg r8); adcq (Reg rdx) (Reg r9);
    (* r[0] = c & M *) movq (Reg r8) (Reg rax); movq (Imm 0xfffffffffffff) (Reg rdx); andq (Reg rdx) (Reg rax); movq (Reg rax) (Mem 0 rdi);
    (* c >>= 52 *) shrdq 52 (Reg r9) (Reg r8); xorq (Reg r9) (Reg r9);
    (* c += a1 * b0 *) movq (Mem 0 rbx) (Reg rax); mulq (Reg r11); addq (Reg rax) (Reg r8); adcq (Reg rdx) (Reg r9);
    (* c += a0 * b1 *) movq (Mem 1 rbx) (Reg rax); mulq (Reg r10); addq (Reg rax) (Reg r8); adcq (Reg rdx) (Reg r9);
    (* d += a4 * b2 *) movq (Mem 2 rbx) (Reg rax); mulq (Reg r14); addq (Reg rax) (Reg rcx); adcq (Reg rdx) (Reg r15);
    (* d += a3 * b3 *) movq (Mem 3 rbx) (Reg rax); mulq (Reg r13); addq (Reg rax) (Reg rcx); adcq (Reg rdx) (Reg r15);
    (* d += a2 * b4 *) movq (Mem 4 rbx) (Reg rax); mulq (Reg r12); addq (Reg rax) (Reg rcx); adcq (Reg rdx) (Reg r15);
    (* c += (d & M) * R *) movq (Reg rcx) (Reg rax); movq (Imm 0xfffffffffffff) (Reg rdx); andq (Reg rdx) (Reg rax); movq (Imm 0x1000003d10) (Reg rdx); mulq (Reg rdx); addq (Reg rax) (Reg r8); adcq (Reg rdx) (Reg r9);
    (* d >>= 52 *) shrdq 52 (Reg r15) (Reg rcx); xorq (Reg r15) (Reg r15);
    (* r[1] = c & M *) movq (Reg r8) (Reg rax); movq (Imm 0xfffffffffffff) (Reg rdx); andq (Reg rdx) (Reg rax); movq (Reg rax) (Mem 1 rdi);
    (* c >>= 52 *) shrdq 52 (Reg r9) (Reg r8); xorq (Reg r9) (Reg r9) ].

(** The limbs [r[2]], [r[3]] and [r[4]]. *)
Definition fe_mul_inner_r2_r4 : list instr :=
  [ (* c += a2 * b0 *) movq (Mem 0 rbx) (Reg rax); mulq (Reg r12); addq (Reg rax) (Reg r8); adcq (Reg rdx) (Reg r9);
    (* c += a1 * b1 *) movq (Mem 1 rbx) (Reg rax); mulq (Reg r11); addq (Reg rax) (Reg r8); adcq (Reg rdx) (Reg r9);
    (* c += a0 * b2 (last use of %r10 = a0) *) movq (Mem 2 rbx) (Reg rax); mulq (Reg r10); addq (Reg rax) (Reg r8); adcq (Reg rdx) (Reg r9);
    (* fetch t3 (%r10, overwrites a0), t4 (%rsi) *) movq (Arg 2) (Reg rsi); movq (Arg 1) (Reg r10);
    (* d += a4 * b3 *) movq (Mem 3 rbx) (Reg rax); mulq (Reg r14); addq (Reg rax) (Reg rcx); adcq (Reg rdx) (Reg r15);
    (* d += a3 * b4 *) movq (Mem 4 rbx) (Reg rax); mulq (Reg r13); addq (Reg rax) (Reg rcx); adcq (Reg rdx) (Reg r15);
    (* c += (d & M) * R *) movq (Reg rcx) (Reg rax); movq (Imm 0xfffffffffffff) (Reg rdx); andq (Reg rdx) (Reg rax); movq (Imm 0x1000003d10) (Reg rdx); mulq (Reg rdx); addq (Reg rax) (Reg r8); adcq (Reg rdx) (Reg r9);
    (* d >>= 52 (%rcx only) *) shrdq 52 (Reg r15) (Reg rcx);
    (* r[2] = c & M *) movq (Reg r8) (Reg rax); movq (Imm 0xfffffffffffff) (Reg rdx); andq (Reg rdx) (Reg rax); movq (Reg rax) (Mem 2 rdi);
    (* c >>= 52 *) shrdq 52 (Reg r9) (Reg r8); xorq (Reg r9) (Reg r9);
    (* c += t3 *) addq (Reg r10) (Reg r8);
    (* c += d * R *) movq (Reg rcx) (Reg rax); movq (Imm 0x1000003d10) (Reg rdx); mulq (Reg rdx); addq (Reg rax) (Reg r8); adcq (Reg rdx) (Reg r9);
    (* r[3] = c & M *) movq (Reg r8) (Reg rax); movq (Imm 0xfffffffffffff) (Reg rdx); andq (Reg rdx) (Reg rax); movq (Reg rax) (Mem 3 rdi);
    (* c >>= 52 (%r8 only) *) shrdq 52 (Reg r9) (Reg r8);
    (* c += t4 (%r8 only) *) addq (Reg rsi) (Reg r8);
    (* r[4] = c *) movq (Reg r8) (Mem 4 rdi) ].

(** The same three parts of the squaring. *)
Definition fe_sqr_inner_t3_t4 : list instr :=
  [ movq (Mem 0 rsi) (Reg r10); movq (Mem 1 rsi) (Reg r11); movq (Mem 2 rsi) (Reg r12); movq (Mem 3 rsi) (Reg r13); movq (Mem 4 rsi) (Reg r14); movq (Imm 0xfffffffffffff) (Reg r15);
    (* d = (a0*2) * a3 *) leaq (Reg r10) (Reg r10) (Reg rax); mulq (Reg r13); movq (Reg rax) (Reg rbx); movq (Reg rdx) (Reg rcx);
    (* d += (a1*2) * a2 *) leaq (Reg r11) (Reg r11) (Reg rax); mulq (Reg r12); addq (Reg rax) (Reg rbx); adcq (Reg rdx) (Reg rcx);
    (* c = a4 * a4 *) movq (Reg r14) (Reg rax); mulq (Reg r14); movq (Reg rax) (Reg r8); movq (Reg rdx) (Reg r9);
    (* d += (c & M) * R *) andq (Reg r15) (Reg rax); movq (Imm 0x1000003d10) (Reg rdx); mulq (Reg rdx); addq (Reg rax) (Reg rbx); adcq (Reg rdx) (Reg rcx);
    (* c >>= 52 (%r8 only) *) shrdq 52 (Reg r9) (Reg r8);
    (* t3 (tmp1) = d & M *) movq (Reg rbx) (Reg rsi); andq (Reg r15) (Reg rsi); movq (Reg rsi) (Arg 1);
    (* d >>= 52 *) shrdq 52 (Reg rcx) (Reg rbx); xorq (Reg rcx) (Reg rcx);
    (* a4 *= 2 *) addq (Reg r14) (Reg r14);
    (* d += a0 * a4 *) movq (Reg r10) (Reg rax); mulq (Reg r14); addq (Reg rax) (Reg rbx); adcq (Reg rdx) (Reg rcx);
    (* d+= (a1*2) * a3 *) leaq (Reg r11) (Reg r11) (Reg rax); mulq (Reg r13); addq (Reg rax) (Reg rbx); adcq (Reg rdx) (Reg rcx);
    (* d += a2 * a2 *) movq (Reg r12) (Reg rax); mulq (Reg r12); addq (Reg rax) (Reg rbx); adcq (Reg rdx) (Reg rcx);
    (* d += c * R *) movq (Reg r8) (Reg rax); movq (Imm 0x1000003d10) (Reg rdx); mulq (Reg rdx); addq (Reg rax) (Reg rbx); adcq (Reg rdx) (Reg rcx);
    (* t4 = d & M (%rsi) *) movq (Reg rbx) (Reg rsi); andq (Reg r15) (Reg rsi);
    (* d >>= 52 *) shrdq 52 (Reg rcx) (Reg rbx); xorq (Reg rcx) (Reg rcx);
    (* tx = t4 >> 48 (tmp3) *) movq (Reg rsi) (Reg rax); shrq 48 (Reg rax); movq (Reg rax) (Arg 3);
    (* t4 &= (M >> 4) (tmp2) *) movq (Imm 0xffffffffffff) (Reg rax); andq (Reg rax) (Reg rsi); movq (Reg rsi) (Arg 2) ].

(** The limbs [r[0]] and [r[1]]. *)
Definition fe_sqr_inner_r0_r1 : list instr :=
  [ (* c = a0 * a0 *) movq (Reg r10) (Reg rax); mulq (Reg r10); movq (Reg rax) (Reg r8); movq (Reg rdx) (Reg r9);
    (* d += a1 * a4 *) movq (Reg r11) (Reg rax); mulq (Reg r14); addq (Reg rax) (Reg rbx); adcq (Reg rdx) (Reg rcx);
    (* d += (a2*2) * a3 *) leaq (Reg r12) (Reg r12) (Reg rax); mulq (Reg r13); addq (Reg rax) (Reg rbx); adcq (Reg rdx) (Reg rcx);
    (* u0 = d & M (%rsi) *) movq (Reg rbx) (Reg rsi); andq (Reg r15) (Reg rsi);
    (* d >>= 52 *) shrdq 52 (Reg rcx) (Reg rbx); xorq (Reg rcx) (Reg rcx);
    (* u0 = (u0 << 4) | tx (%rsi) *) shlq 4 (Reg rsi); movq (Arg 3) (Reg rax); orq (Reg rax) (Reg rsi);
    (* c += u0 * (R >> 4) *) movq (Imm 0x1000003d1) (Reg rax); mulq (Reg rsi); addq (Reg rax) (Reg r8); adcq (Reg rdx) (Reg r9);
    (* r[0] = c & M *) movq (Reg r8) (Reg rax); andq (Reg r15) (Reg rax); movq (Reg rax) (Mem 0 rdi);
    (* c >>= 52 *) shrdq 52 (Reg r9) (Reg r8); xorq (Reg r9) (Reg r9);
    (* a0 *= 2 *) addq (Reg r10) (Reg r10);
    (* c += a0 * a1 *) movq (Reg r10) (Reg rax); mulq (Reg r11); addq (Reg rax) (Reg r8); adcq (Reg rdx) (Reg r9);
    (* d += a2 * a4 *) movq (Reg r12) (Reg rax); mulq (Reg r14); addq (Reg rax) (Reg rbx); adcq (Reg rdx) (Reg rcx);
    (* d += a3 * a3 *) movq (Reg r13) (Reg rax); mulq (Reg r13); addq (Reg rax) (Reg rbx); adcq (Reg rdx) (Reg rcx);
    (* c += (d & M) * R *) movq (Reg rbx) (Reg rax); andq (Reg r15) (Reg rax); movq (Imm 0x1000003d10) (Reg rdx); mulq (Reg rdx); addq (Reg rax) (Reg r8); adcq (Reg rdx) (Reg r9);
    (* d >>= 52 *) shrdq 52 (Reg rcx) (Reg rbx); xorq (Reg rcx) (Reg rcx);
    (* r[1] = c & M *) movq (Reg r8) (Reg rax); andq (Reg r15) (Reg rax); movq (Reg rax) (Mem 1 rdi);
    (* c >>= 52 *) shrdq 52 (Reg r9) (Reg r8); xorq (Reg r9) (Reg r9) ].

(** The limbs [r[2]], [r[3]] and [r[4]]. *)
Definition fe_sqr_inner_r2_r4 : list instr :=
  [ (* c += a0 * a2 (last use of %r10) *) movq (Reg r10) (Reg rax); mulq (Reg r12); addq (Reg rax) (Reg r8); adcq (Reg rdx) (Reg r9);
    (* fetch t3 (%r10, overwrites a0),t4 (%rsi) *) movq (Arg 2) (Reg rsi); movq (Arg 1) (Reg r10);
    (* c += a1 * a1 *) movq (Reg r11) (Reg rax); mulq (Reg r11); addq (Reg rax) (Reg r8); adcq (Reg rdx) (Reg r9);
    (* d += a3 * a4 *) movq (Reg r13) (Reg rax); mulq (Reg r14); addq (Reg rax) (Reg rbx); adcq (Reg rdx) (Reg rcx);
    (* c += (d & M) * R *) movq (Reg rbx) (Reg rax); andq (Reg r15) (Reg rax); movq (Imm 0x1000003d10) (Reg rdx); mulq (Reg rdx); addq (Reg rax) (Reg r8); adcq (Reg rdx) (Reg r9);
    (* d >>= 52 (%rbx only) *) shrdq 52 (Reg rcx) (Reg rbx);
    (* r[2] = c & M *) movq (Reg r8) (Reg rax); andq (Reg r15) (Reg rax); movq (Reg rax) (Mem 2 rdi);
    (* c >>= 52 *) shrdq 52 (Reg r9) (Reg r8); xorq (Reg r9) (Reg r9);
    (* c += t3 *) addq (Reg r10) (Reg r8);
    (* c += d * R *) movq (Reg rbx) (Reg rax); movq (Imm 0x1000003d10) (Reg rdx); mulq (Reg rdx); addq (Reg rax) (Reg r8); adcq (Reg rdx) (Reg r9);
    (* r[3] = c & M *) movq (Reg r8) (Reg rax); andq (Reg r15) (Reg rax); movq (Reg rax) (Mem 3 rdi);
    (* c >>= 52 (%r8 only) *) shrdq 52 (Reg r9) (Reg r8);
    (* c += t4 (%r8 only) *) addq (Reg rsi) (Reg r8);
    (* r[4] = c *) movq (Reg r8) (Mem 4 rdi) ].

(** The operands: [+S](a), [=m](tmp1), [=m](tmp2), [=m](tmp3), [b](b), [D](r). *)
Definition fe_mul_operands (k : nat) : place :=
  match k with
  | 0%nat => InReg rsi
  | 1%nat => Slot 0
  | 2%nat => Slot 1
  | 3%nat => Slot 2
  | 4%nat => InReg rbx
  | _ => InReg rdi
  end.

(** The operands: [+S](a), [=m](tmp1), [=m](tmp2), [=m](tmp3), [D](r). *)
Definition fe_sqr_operands (k : nat) : place :=
  match k with
  | 0%nat => InReg rsi
  | 1%nat => Slot 0
  | 2%nat => Slot 1
  | 3%nat => Slot 2
  | _ => InReg rdi
  end.

(** [a], [b] and [r] are the blocks of the arguments in the memory [m]; the stack
    frame has [tmp1], [tmp2] and [tmp3]. *)
Definition fe_mul_inner_x86 (lo : leftover) (m : list (list Z)) (r a b : nat) : checked (list (list Z)) :=
  s <- run fe_mul_operands (fe_mul_inner_t3_t4 ++ fe_mul_inner_r0_r1 ++ fe_mul_inner_r2_r4) (enter lo [(rsi, Ptr a); (rbx, Ptr b); (rdi, Ptr r)] (junk_words lo 3) m);;
  ret (mem s).

Definition fe_sqr_inner_x86 (lo : leftover) (m : list (list Z)) (r a : nat) : checked (list (list Z)) :=
  s <- run fe_sqr_operands (fe_sqr_inner_t3_t4 ++ fe_sqr_inner_r0_r1 ++ fe_sqr_inner_r2_r4) (enter lo [(rsi, Ptr a); (rdi, Ptr r)] (junk_words lo 3) m);;
  ret (mem s).

Definition limb_list (l : limbs) : list Z := [d0 l; d1 l; d2 l; d3 l; d4 l].

(** ** The field operations of the build *)

Definition list_limbs (l : list Z) : limbs := L5 (nth 0 l 0) (nth 1 l 0) (nth 2 l 0) (nth 3 l 0) (nth 4 l 0).

Section Build.
Variable lo : leftover.

(** The operands, and a result that is neither of them. *)
Definition secp256k1_fe_mul_inner_asm (a b : limbs) : checked limbs :=
  m <- fe_mul_inner_x86 lo [limb_list a; limb_list b; junk_words lo 5] 2 0 1;;
  l <- block m 2;;
  ret (list_limbs l).

Definition secp256k1_fe_sqr_inner_asm (a : limbs) : checked limbs :=
  m <- fe_sqr_inner_x86 lo [limb_list a; junk_words lo 5] 1 0;;
  l <- block m 1;;
  ret (list_limbs l).

Definition secp256k1_fe_mul_asm (a b : Field5x52.secp256k1_fe) : checked Field5x52.secp256k1_fe :=
  VERIFY_CHECK (magnitude a <=? 8);;
  VERIFY_CHECK (magnitude b <=? 8);;
  secp256k1_fe_verify a;;
  secp256k1_fe_verify b;;
  l <- secp256k1_fe_mul_inner_asm (fe_n a) (fe_n b);;
  let r := mk_fe l 1 false in
  secp256k1_fe_verify r;;
  ret r.

Definition secp256k1_fe_sqr_asm (a : Field5x52.secp256k1_fe) : checked Field5x52.secp256k1_fe :=
  VERIFY_CHECK (magnitude a <=? 8);;
  secp256k1_fe_verify a;;
  l <- secp256k1_fe_sqr_inner_asm (fe_n a);;
  let r := mk_fe l 1 false in
  secp256k1_fe_verify r;;
  ret r.

End Build.

Definition Field_5x52_asm (lo : leftover) : FieldOps := {|
  secp256k1_fe := Field5x52.secp256k1_fe;
  secp256k1_fe_storage := Field5x52.secp256k1_fe_storage;
  SECP256K1_FE_CONST := Field5x52.SECP256K1_FE_CONST;
  SECP256K1_FE_STORAGE_CONST := Field5x52.SECP256K1_FE_STORAGE_CONST;
  secp256k1_fe_normalize := Field5x52.secp256k1_fe_normalize;
  secp256k1_fe_normalize_weak := Field5x52.secp256k1_fe_normalize_weak;
  secp256k1_fe_normalize_var := Field5x52.secp256k1_fe_normalize_var;
  secp256k1_fe_normalizes_to_zero := Field5x52.secp256k1_fe_normalizes_to_zero;
  secp256k1_fe_normalizes_to_zero_var := Field5x52.secp256k1_fe_normalizes_to_zero_var;
  secp256k1_fe_set_int := Field5x52.secp256k1_fe_set_int;
  secp256k1_fe_clear := Field5x52.secp256k1_fe_clear;
  secp256k1_fe_is_zero := Field5x52.secp256k1_fe_is_zero;
  secp256k1_fe_is_odd := Field5x52.secp256k1_fe_is_odd;
  secp256k1_fe_cmp_var := Field5x52.secp256k1_fe_cmp_var;
  secp256k1_fe_set_b32 := Field5x52.secp256k1_fe_set_b32;
  secp256k1_fe_get_b32 := Field5x52.secp256k1_fe_get_b32;
  secp256k1_fe_negate := Field5x52.secp256k1_fe_negate;
  secp256k1_fe_mul_int := Field5x52.secp256k1_fe_mul_int;
  secp256k1_fe_add := Field5x52.secp256k1_fe_add;
  secp256k1_fe_mul := secp256k1_fe_mul_asm lo;
  secp256k1_fe_sqr := secp256k1_fe_sqr_asm lo;
  secp256k1_fe_cmov := Field5x52.secp256k1_fe_cmov;
  secp256k1_fe_storage_cmov := Field5x52.secp256k1_fe_storage_cmov;
  secp256k1_fe_to_storage := Field5x52.secp256k1_fe_to_storage;
  secp256k1_fe_from_storage := Field5x52.secp256k1_fe_from_storage
|}.

(** ** The assembly computes what the C code computes *)

Lemma last_limb c t c' r : 0 <= c < 2 ^ 48 -> 0 <= t < 2 ^ 48 -> c' = u128 (c + t) -> r = u64 c' -> u64 (c + t) = r.
Proof. intros Hc Ht -> ->. unfold u64, u128. rewrite (Z.mod_small (c + t) (2 ^ 128)) by lia. reflexivity. Qed.

Lemma double_sum x : u64 (x * 2) = u64 (x + x).
Proof. f_equal. lia. Qed.

Lemma u64_i64_shift x : 0 <= x < 2 ^ 52 -> i64 (Z.shiftl x 4) = u64 (Z.shiftl x 4).
Proof. intros H. rewrite Z.shiftl_mul_pow2 by lia. unfold i64, u64. rewrite !Z.mod_small by lia. lia. Qed.

Lemma fe_mul_inner_x86_run lo m r a b A B R L :
  block m a = Some (limb_list A) -> block m b = Some (limb_list B) -> block m r = Some (limb_list R) -> r <> b ->
  secp256k1_fe_mul_inner A B = Some L ->
  Returns (run fe_mul_operands (fe_mul_inner_t3_t4 ++ fe_mul_inner_r0_r1 ++ fe_mul_inner_r2_r4) (enter lo [(rsi, Ptr a); (rbx, Ptr b); (rdi, Ptr r)] (junk_words lo 3) m))
    (fun s => mem s = set_block m r (limb_list L)).
Proof.
  destruct A as [a0 a1 a2 a3 a4], B as [b0 b1 b2 b3 b4], R as [z0 z1 z2 z3 z4]. unfold limb_list. cbn [d0 d1 d2 d3 d4]. intros HA HB HR Hrb HC.
  cbv beta iota delta [secp256k1_fe_mul_inner] in HC. c_let M. c_let R. subst M R.
  change (Z.shiftr 0x1000003D10 4) with 0x1000003D1 in HC. change (Z.shiftr 0xFFFFFFFFFFFFF 4) with 0xFFFFFFFFFFFF in HC.
  c_let d1; c_let c1; c_let d2; c_let c2; c_let t3; c_let d3; c_let d4; c_let d5; c_let t4; c_let d6; c_let tx; c_let t4'; c_let c3; c_let d7; c_let u0; c_let d8; c_let u0'.
  c_let c4; c_let r0; c_let c5; c_let c6; c_let d9; c_let c7; c_let d10; c_let r1; c_let c8; c_let c9; c_let d11; c_let c10; c_let d12; c_let r2; c_let c11; c_let c12; c_let r3; c_let c13; c_let c14; c_let r4.
  injection HC as <-. cbn [Field5x52.d0 Field5x52.d1 Field5x52.d2 Field5x52.d3 Field5x52.d4].
  unfold fe_mul_inner_t3_t4, fe_mul_inner_r0_r1, fe_mul_inner_r2_r4. x86_enter.
  (* t3 *)
  do 9 x86_step. acc2_new b0 a3. do 12 x86_step. c_sync d1. do 4 x86_step. acc2_new b4 a4. c_sync c1. c_read c1.
  do 2 x86_step. rewrite (land_low c1) by word_bound. do 4 x86_step. c_sync d2. x86_step. c_shift c1 c2.
  c_read d2. do 4 x86_step. c_mask d2 t3. do 2 x86_step. c_next d2 d3.
  (* t4 and tx *)
  do 20 x86_step. c_sync d4. do 5 x86_step. c_sync d5. c_read d5. do 3 x86_step. c_mask d5 t4. do 2 x86_step. c_next d5 d6.
  do 2 x86_step. c_var tx. do 3 x86_step. c_var t4'. x86_step.
  (* r0 *)
  do 4 x86_step. acc2_new b0 a0. c_sync c3. do 16 x86_step. c_sync d7. c_read d7. do 3 x86_step. c_mask d7 u0. do 2 x86_step. c_next d7 d8.
  do 3 x86_step. c_var u0'. do 4 x86_step. c_sync c4. c_read c4. do 4 x86_step. c_mask c4 r0. do 2 x86_step. c_next c4 c5.
  (* r1 *)
  do 8 x86_step. c_sync c6. do 12 x86_step. c_sync d9. c_read d9. do 3 x86_step. rewrite (land_low d9) by word_bound. do 4 x86_step. c_sync c7.
  do 2 x86_step. c_next d9 d10. c_read c7. do 4 x86_step. c_mask c7 r1. do 2 x86_step. c_next c7 c8.
  (* r2 *)
  do 12 x86_step. c_sync c9. do 10 x86_step. c_sync d11. c_read d11. do 3 x86_step. rewrite (land_low d11) by word_bound. do 4 x86_step. c_sync c10.
  x86_step. c_shift d11 d12. c_read c10. do 4 x86_step. c_mask c10 r2. do 2 x86_step. c_next c10 c11.
  (* r3 and r4 *)
  x86_step. rewrite (u64_of_word (c11 + t3)) by word_bound. assert (acc2 (c11 + t3) (c11 + t3) 0) as HT by (apply acc2_word; word_bound).
  do 5 x86_step. c_sync c12. c_read c12. do 4 x86_step. c_mask c12 r3. x86_step. c_shift c12 c13. do 2 x86_step.
  apply Returns_ret. cbn [mem]. rewrite (last_limb c13 t4' c14 r4) by (lia || assumption). reflexivity.
Qed.

Lemma fe_sqr_inner_x86_run lo m r a A R L :
  block m a = Some (limb_list A) -> block m r = Some (limb_list R) -> secp256k1_fe_sqr_inner A = Some L ->
  Returns (run fe_sqr_operands (fe_sqr_inner_t3_t4 ++ fe_sqr_inner_r0_r1 ++ fe_sqr_inner_r2_r4) (enter lo [(rsi, Ptr a); (rdi, Ptr r)] (junk_words lo 3) m))
    (fun s => mem s = set_block m r (limb_list L)).
Proof.
  destruct A as [a0 a1 a2 a3 a4], R as [z0 z1 z2 z3 z4]. unfold limb_list. cbn [d0 d1 d2 d3 d4]. intros HA HR HC.
  cbv beta iota delta [secp256k1_fe_sqr_inner] in HC. c_let M. c_let R. subst M R.
  change (Z.shiftr 0x1000003D10 4) with 0x1000003D1 in HC. change (Z.shiftr 0xFFFFFFFFFFFFF 4) with 0xFFFFFFFFFFFF in HC. rewrite !double_sum in HC.
  c_let d1; c_let c1; c_let d2; c_let c2; c_let t3; c_let d3; c_let a4'; c_let d4; c_let d5; c_let t4; c_let d6; c_let tx; c_let t4'; c_let c3; c_let d7; c_let u0; c_let d8; c_let u0'.
  c_let c4; c_let r0; c_let c5; c_let a0'; c_let c6; c_let d9; c_let c7; c_let d10; c_let r1; c_let c8; c_let c9; c_let d11; c_let c10; c_let d12; c_let r2; c_let c11; c_let c12; c_let r3; c_let c13; c_let c14; c_let r4.
  injection HC as <-. cbn [Field5x52.d0 Field5x52.d1 Field5x52.d2 Field5x52.d3 Field5x52.d4]. rewrite u64_i64_shift in * by lia.
  unfold fe_sqr_inner_t3_t4, fe_sqr_inner_r0_r1, fe_sqr_inner_r2_r4. x86_enter.
  (* t3 *)
  do 10 x86_step. acc2_new (u64 (a0 + a0)) a3. do 4 x86_step. c_sync d1. do 4 x86_step. acc2_new a4 a4. c_sync c1. c_read c1.
  x86_step. rewrite (land_low c1) by word_bound. do 4 x86_step. c_sync d2. x86_step. c_shift c1 c2.
  c_read d2. do 3 x86_step. c_mask d2 t3. do 2 x86_step. c_next d2 d3.
  (* t4 and tx *)
  x86_step. c_var a4'. assert (word a4') as W4 by (subst a4'; apply word_u64).
  do 12 x86_step. c_sync d4. do 5 x86_step. c_sync d5. c_read d5. do 2 x86_step. c_mask d5 t4. do 2 x86_step. c_next d5 d6.
  do 2 x86_step. c_var tx. do 3 x86_step. c_var t4'. x86_step.
  (* r0 *)
  do 4 x86_step. acc2_new a0 a0. c_sync c3. do 8 x86_step. c_sync d7. c_read d7. do 2 x86_step. c_mask d7 u0. do 2 x86_step. c_next d7 d8.
  do 3 x86_step. c_var u0'. do 4 x86_step. c_sync c4. c_read c4. do 3 x86_step. c_mask c4 r0. do 2 x86_step. c_next c4 c5.
  (* r1 *)
  x86_step. c_var a0'. assert (word a0') as W0 by (subst a0'; apply word_u64).
  do 4 x86_step. c_sync c6. do 8 x86_step. c_sync d9. c_read d9. do 2 x86_step. rewrite (land_low d9) by word_bound. do 4 x86_step. c_sync c7.
  do 2 x86_step. c_next d9 d10. c_read c7. do 3 x86_step. c_mask c7 r1. do 2 x86_step. c_next c7 c8.
  (* r2 *)
  do 10 x86_step. c_sync c9. do 4 x86_step. c_sync d11. c_read d11. do 2 x86_step. rewrite (land_low d11) by word_bound. do 4 x86_step. c_sync c10.
  x86_step. c_shift d11 d12. c_read c10. do 3 x86_step. c_mask c10 r2. do 2 x86_step. c_next c10 c11.
  (* r3 and r4 *)
  x86_step. rewrite (u64_of_word (c11 + t3)) by word_bound. assert (acc2 (c11 + t3) (c11 + t3) 0) as HT by (apply acc2_word; word_bound).
  do 5 x86_step. c_sync c12. c_read c12. do 3 x86_step. c_mask c12 r3. x86_step. c_shift c12 c13. do 2 x86_step.
  apply Returns_ret. cbn [mem]. rewrite (last_limb c13 t4' c14 r4) by (lia || assumption). reflexivity.
Qed.

Lemma list_limb_list l : list_limbs (limb_list l) = l.
Proof. destruct l. reflexivity. Qed.

Lemma secp256k1_fe_mul_inner_asm_eq lo a b l : secp256k1_fe_mul_inner a b = Some l -> secp256k1_fe_mul_inner_asm lo a b = Some l.
Proof.
  intros HC. pose proof (fe_mul_inner_x86_run lo [limb_list a; limb_list b; junk_words lo 5] 2 0 1 a b (list_limbs (junk_words lo 5)) l eq_refl eq_refl eq_refl (Nat.neq_succ_diag_l 1) HC) as H.
  unfold secp256k1_fe_mul_inner_asm, fe_mul_inner_x86. destruct (run _ _ _) as [s|]; [|contradiction]. cbn [bind ret Returns] in *. rewrite H. cbn. rewrite list_limb_list. reflexivity.
Qed.

Lemma secp256k1_fe_sqr_inner_asm_eq lo a l : secp256k1_fe_sqr_inner a = Some l -> secp256k1_fe_sqr_inner_asm lo a = Some l.
Proof.
  intros HC. pose proof (fe_sqr_inner_x86_run lo [limb_list a; junk_words lo 5] 1 0 a (list_limbs (junk_words lo 5)) l eq_refl eq_refl HC) as H.
  unfold secp256k1_fe_sqr_inner_asm, fe_sqr_inner_x86. destruct (run _ _ _) as [s|]; [|contradiction]. cbn [bind ret Returns] in *. rewrite H. cbn. rewrite list_limb_list. reflexivity.
Qed.

Lemma secp256k1_fe_mul_asm_eq lo a b r : Field5x52.secp256k1_fe_mul a b = Some r -> secp256k1_fe_mul_asm lo a b = Some r.
Proof.
  unfold Field5x52.secp256k1_fe_mul, secp256k1_fe_mul_asm. revert r. do 4 (apply bind_refines; intros _). apply bind_refines_l. apply secp256k1_fe_mul_inner_asm_eq.
Qed.

Lemma secp256k1_fe_sqr_asm_eq lo a r : Field5x52.secp256k1_fe_sqr a = Some r -> secp256k1_fe_sqr_asm lo a = Some r.
Proof.
  unfold Field5x52.secp256k1_fe_sqr, secp256k1_fe_sqr_asm. revert r. do 2 (apply bind_refines; intros _). apply bind_refines_l. apply secp256k1_fe_sqr_inner_asm_eq.
Qed.

Lemma fe52_mul_asm_spec lo a b : fe_inv a -> fe_inv b -> magnitude a <= 8 -> magnitude b <= 8 ->
  Returns (secp256k1_fe_mul_asm lo a b) (fun r => fe_inv r /\ magnitude r = 1 /\ normalized r = false /\ fe_val r = (fe_val a * fe_val b)%Zmod).
Proof. intros Ha Hb Hma Hmb. apply (Returns_refines _ _ _ (secp256k1_fe_mul_asm_eq lo a b)). apply fe52_mul_spec; assumption. Qed.

Lemma fe52_sqr_asm_spec lo a : fe_inv a -> magnitude a <= 8 ->
  Returns (secp256k1_fe_sqr_asm lo a) (fun r => fe_inv r /\ magnitude r = 1 /\ normalized r = false /\ fe_val r = (fe_val a * fe_val a)%Zmod).
Proof. intros Ha Hma. apply (Returns_refines _ _ _ (secp256k1_fe_sqr_asm_eq lo a)). apply fe52_sqr_spec; assumption. Qed.

#[export] Instance Laws_5x52_asm (lo : leftover) : FieldLaws (Field_5x52_asm lo) :=
  @Build_FieldLaws (Field_5x52_asm lo)
    Field5x52.fe_inv Field5x52.magnitude Field5x52.normalized
    (fun a => Field5x52.limbs_Z (Field5x52.fe_n a)) Field5x52.storage_wf Field5x52.storage_Z 2048
    ltac:(lia) fe52_normalized_spec fe52_const fe52_storage_const fe52_normalize_spec
    fe52_normalize_weak_spec fe52_normalize_var_spec fe52_normalizes_to_zero_spec
    fe52_normalizes_to_zero_var_spec fe52_set_int_spec fe52_clear_spec fe52_is_zero_spec fe52_is_odd_spec
    fe52_cmp_var_spec fe52_set_b32_spec fe52_get_b32_spec fe52_negate_spec fe52_mul_int_spec fe52_add_spec
    (fe52_mul_asm_spec lo) (fe52_sqr_asm_spec lo) fe52_cmov_spec fe52_storage_cmov_spec fe52_to_storage_spec
    fe52_from_storage_spec.

(** The builds are told apart by name. *)
#[export] Typeclasses Opaque Field_5x52 Field_5x52_asm.
