(* ===== verification/ScalarAsm.v ===== *)
(** * The x86-64 assembly of the scalar multiplication ([scalar_4x64_impl.h])

    The instructions of [secp256k1_scalar_reduce_512], [secp256k1_scalar_mul_512] and
    [secp256k1_scalar_sqr_512] for a build with [USE_ASM_X86_64], each row under the
    comment it has in the source.  The reduction is three statements, each with the
    constraints of its operands; the places of the operands are any that the compiler
    may choose, but that [m0], [m1] and [m2] of the first are outside the register of
    [l].  Its constraints do not say so: they lack an early clobber. *)

From Stdlib Require Import ZArith Lia List Bool.
From S2P Require Import Prelude Modulus Bytes ScalarAcc ScalarWords Scalar4x64 Scalar ScalarReprs X86 Operands.
Import ListNotations.

#[local] Open Scope Z_scope.
#[local] Open Scope checked_scope.

(** Reduce 512 bits into 385. *)
Definition reduce_512_385_asm : list instr :=
  [ (* Preload. *) movq (Mem 4 rsi) (Reg r11); movq (Mem 5 rsi) (Reg r12); movq (Mem 6 rsi) (Reg r13); movq (Mem 7 rsi) (Reg r14);
    (* Initialize r8,r9,r10 *) movq (Mem 0 rsi) (Reg r8); xorq (Reg r9) (Reg r9); xorq (Reg r10) (Reg r10);
    (* (r8,r9) += n0 * c0 *) movq (Arg 8) (Reg rax); mulq (Reg r11); addq (Reg rax) (Reg r8); adcq (Reg rdx) (Reg r9);
    (* extract m0 *) movq (Reg r8) (Arg 0); xorq (Reg r8) (Reg r8);
    (* (r9,r10) += l1 *) addq (Mem 1 rsi) (Reg r9); adcq (Imm 0) (Reg r10);
    (* (r9,r10,r8) += n1 * c0 *) movq (Arg 8) (Reg rax); mulq (Reg r12); addq (Reg rax) (Reg r9); adcq (Reg rdx) (Reg r10); adcq (Imm 0) (Reg r8);
    (* (r9,r10,r8) += n0 * c1 *) movq (Arg 9) (Reg rax); mulq (Reg r11); addq (Reg rax) (Reg r9); adcq (Reg rdx) (Reg r10); adcq (Imm 0) (Reg r8);
    (* extract m1 *) movq (Reg r9) (Arg 1); xorq (Reg r9) (Reg r9);
    (* (r10,r8,r9) += l2 *) addq (Mem 2 rsi) (Reg r10); adcq (Imm 0) (Reg r8); adcq (Imm 0) (Reg r9);
    (* (r10,r8,r9) += n2 * c0 *) movq (Arg 8) (Reg rax); mulq (Reg r13); addq (Reg rax) (Reg r10); adcq (Reg rdx) (Reg r8); adcq (Imm 0) (Reg r9);
    (* (r10,r8,r9) += n1 * c1 *) movq (Arg 9) (Reg rax); mulq (Reg r12); addq (Reg rax) (Reg r10); adcq (Reg rdx) (Reg r8); adcq (Imm 0) (Reg r9);
    (* (r10,r8,r9) += n0 *) addq (Reg r11) (Reg r10); adcq (Imm 0) (Reg r8); adcq (Imm 0) (Reg r9);
    (* extract m2 *) movq (Reg r10) (Arg 2); xorq (Reg r10) (Reg r10);
    (* (r8,r9,r10) += l3 *) addq (Mem 3 rsi) (Reg r8); adcq (Imm 0) (Reg r9); adcq (Imm 0) (Reg r10);
    (* (r8,r9,r10) += n3 * c0 *) movq (Arg 8) (Reg rax); mulq (Reg r14); addq (Reg rax) (Reg r8); adcq (Reg rdx) (Reg r9); adcq (Imm 0) (Reg r10);
    (* (r8,r9,r10) += n2 * c1 *) movq (Arg 9) (Reg rax); mulq (Reg r13); addq (Reg rax) (Reg r8); adcq (Reg rdx) (Reg r9); adcq (Imm 0) (Reg r10);
    (* (r8,r9,r10) += n1 *) addq (Reg r12) (Reg r8); adcq (Imm 0) (Reg r9); adcq (Imm 0) (Reg r10);
    (* extract m3 *) movq (Reg r8) (Arg 3); xorq (Reg r8) (Reg r8);
    (* (r9,r10,r8) += n3 * c1 *) movq (Arg 9) (Reg rax); mulq (Reg r14); addq (Reg rax) (Reg r9); adcq (Reg rdx) (Reg r10); adcq (Imm 0) (Reg r8);
    (* (r9,r10,r8) += n2 *) addq (Reg r13) (Reg r9); adcq (Imm 0) (Reg r10); adcq (Imm 0) (Reg r8);
    (* extract m4 *) movq (Reg r9) (Arg 4);
    (* (r10,r8) += n3 *) addq (Reg r14) (Reg r10); adcq (Imm 0) (Reg r8);
    (* extract m5 *) movq (Reg r10) (Arg 5);
    (* extract m6 *) movq (Reg r8) (Arg 6) ].

(** Reduce 385 bits into 258. *)
Definition reduce_385_258_asm : list instr :=
  [ (* Preload *) movq (Arg 9) (Reg r11); movq (Arg 10) (Reg r12); movq (Arg 11) (Reg r13);
    (* Initialize (r8,r9,r10) *) movq (Arg 5) (Reg r8); xorq (Reg r9) (Reg r9); xorq (Reg r10) (Reg r10);
    (* (r8,r9) += m4 * c0 *) movq (Arg 12) (Reg rax); mulq (Reg r11); addq (Reg rax) (Reg r8); adcq (Reg rdx) (Reg r9);
    (* extract p0 *) movq (Reg r8) (Arg 0); xorq (Reg r8) (Reg r8);
    (* (r9,r10) += m1 *) addq (Arg 6) (Reg r9); adcq (Imm 0) (Reg r10);
    (* (r9,r10,r8) += m5 * c0 *) movq (Arg 12) (Reg rax); mulq (Reg r12); addq (Reg rax) (Reg r9); adcq (Reg rdx) (Reg r10); adcq (Imm 0) (Reg r8);
    (* (r9,r10,r8) += m4 * c1 *) movq (Arg 13) (Reg rax); mulq (Reg r11); addq (Reg rax) (Reg r9); adcq (Reg rdx) (Reg r10); adcq (Imm 0) (Reg r8);
    (* extract p1 *) movq (Reg r9) (Arg 1); xorq (Reg r9) (Reg r9);
    (* (r10,r8,r9) += m2 *) addq (Arg 7) (Reg r10); adcq (Imm 0) (Reg r8); adcq (Imm 0) (Reg r9);
    (* (r10,r8,r9) += m6 * c0 *) movq (Arg 12) (Reg rax); mulq (Reg r13); addq (Reg rax) (Reg r10); adcq (Reg rdx) (Reg r8); adcq (Imm 0) (Reg r9);
    (* (r10,r8,r9) += m5 * c1 *) movq (Arg 13) (Reg rax); mulq (Reg r12); addq (Reg rax) (Reg r10); adcq (Reg rdx) (Reg r8); adcq (Imm 0) (Reg r9);
    (* (r10,r8,r9) += m4 *) addq (Reg r11) (Reg r10); adcq (Imm 0) (Reg r8); adcq (Imm 0) (Reg r9);
    (* extract p2 *) movq (Reg r10) (Arg 2);
    (* (r8,r9) += m3 *) addq (Arg 8) (Reg r8); adcq (Imm 0) (Reg r9);
    (* (r8,r9) += m6 * c1 *) movq (Arg 13) (Reg rax); mulq (Reg r13); addq (Reg rax) (Reg r8); adcq (Reg rdx) (Reg r9);
    (* (r8,r9) += m5 *) addq (Reg r12) (Reg r8); adcq (Imm 0) (Reg r9);
    (* extract p3 *) movq (Reg r8) (Arg 3);
    (* (r9) += m6 *) addq (Reg r13) (Reg r9);
    (* extract p4 *) movq (Reg r9) (Arg 4) ].

(** Reduce 258 bits into 256; [%q6] is the register [rdi]. *)
Definition reduce_258_256_asm : list instr :=
  [ (* Preload *) movq (Arg 5) (Reg r10);
    (* (rax,rdx) = p4 * c0 *) movq (Arg 7) (Reg rax); mulq (Reg r10);
    (* (rax,rdx) += p0 *) addq (Arg 1) (Reg rax); adcq (Imm 0) (Reg rdx);
    (* extract r0 *) movq (Reg rax) (Mem 0 rdi);
    (* Move to (r8,r9) *) movq (Reg rdx) (Reg r8); xorq (Reg r9) (Reg r9);
    (* (r8,r9) += p1 *) addq (Arg 2) (Reg r8); adcq (Imm 0) (Reg r9);
    (* (r8,r9) += p4 * c1 *) movq (Arg 8) (Reg rax); mulq (Reg r10); addq (Reg rax) (Reg r8); adcq (Reg rdx) (Reg r9);
    (* Extract r1 *) movq (Reg r8) (Mem 1 rdi); xorq (Reg r8) (Reg r8);
    (* (r9,r8) += p4 *) addq (Reg r10) (Reg r9); adcq (Imm 0) (Reg r8);
    (* (r9,r8) += p2 *) addq (Arg 3) (Reg r9); adcq (Imm 0) (Reg r8);
    (* Extract r2 *) movq (Reg r9) (Mem 2 rdi); xorq (Reg r9) (Reg r9);
    (* (r8,r9) += p3 *) addq (Arg 4) (Reg r8); adcq (Imm 0) (Reg r9);
    (* Extract r3 *) movq (Reg r8) (Mem 3 rdi);
    (* Extract c *) movq (Reg r9) (Arg 0) ].

(** The product of [a] in [rdi] and [pb] in [rdx], to [l] in [rsi]. *)
Definition mul_512_asm : list instr :=
  [ (* Preload *) movq (Mem 0 rdi) (Reg r15); movq (Mem 1 rdi) (Reg rbx); movq (Mem 2 rdi) (Reg rcx); movq (Mem 0 rdx) (Reg r11); movq (Mem 1 rdx) (Reg r12); movq (Mem 2 rdx) (Reg r13); movq (Mem 3 rdx) (Reg r14);
    (* (rax,rdx) = a0 * b0 *) movq (Reg r15) (Reg rax); mulq (Reg r11);
    (* Extract l0 *) movq (Reg rax) (Mem 0 rsi);
    (* (r8,r9,r10) = (rdx) *) movq (Reg rdx) (Reg r8); xorq (Reg r9) (Reg r9); xorq (Reg r10) (Reg r10);
    (* (r8,r9,r10) += a0 * b1 *) movq (Reg r15) (Reg rax); mulq (Reg r12); addq (Reg rax) (Reg r8); adcq (Reg rdx) (Reg r9); adcq (Imm 0) (Reg r10);
    (* (r8,r9,r10) += a1 * b0 *) movq (Reg rbx) (Reg rax); mulq (Reg r11); addq (Reg rax) (Reg r8); adcq (Reg rdx) (Reg r9); adcq (Imm 0) (Reg r10);
    (* Extract l1 *) movq (Reg r8) (Mem 1 rsi); xorq (Reg r8) (Reg r8);
    (* (r9,r10,r8) += a0 * b2 *) movq (Reg r15) (Reg rax); mulq (Reg r13); addq (Reg rax) (Reg r9); adcq (Reg rdx) (Reg r10); adcq (Imm 0) (Reg r8);
    (* (r9,r10,r8) += a1 * b1 *) movq (Reg rbx) (Reg rax); mulq (Reg r12); addq (Reg rax) (Reg r9); adcq (Reg rdx) (Reg r10); adcq (Imm 0) (Reg r8);
    (* (r9,r10,r8) += a2 * b0 *) movq (Reg rcx) (Reg rax); mulq (Reg r11); addq (Reg rax) (Reg r9); adcq (Reg rdx) (Reg r10); adcq (Imm 0) (Reg r8);
    (* Extract l2 *) movq (Reg r9) (Mem 2 rsi); xorq (Reg r9) (Reg r9);
    (* (r10,r8,r9) += a0 * b3 *) movq (Reg r15) (Reg rax); mulq (Reg r14); addq (Reg rax) (Reg r10); adcq (Reg rdx) (Reg r8); adcq (Imm 0) (Reg r9);
    (* Preload a3 *) movq (Mem 3 rdi) (Reg r15);
    (* (r10,r8,r9) += a1 * b2 *) movq (Reg rbx) (Reg rax); mulq (Reg r13); addq (Reg rax) (Reg r10); adcq (Reg rdx) (Reg r8); adcq (Imm 0) (Reg r9);
    (* (r10,r8,r9) += a2 * b1 *) movq (Reg rcx) (Reg rax); mulq (Reg r12); addq (Reg rax) (Reg r10); adcq (Reg rdx) (Reg r8); adcq (Imm 0) (Reg r9);
    (* (r10,r8,r9) += a3 * b0 *) movq (Reg r15) (Reg rax); mulq (Reg r11); addq (Reg rax) (Reg r10); adcq (Reg rdx) (Reg r8); adcq (Imm 0) (Reg r9);
    (* Extract l3 *) movq (Reg r10) (Mem 3 rsi); xorq (Reg r10) (Reg r10);
    (* (r8,r9,r10) += a1 * b3 *) movq (Reg rbx) (Reg rax); mulq (Reg r14); addq (Reg rax) (Reg r8); adcq (Reg rdx) (Reg r9); adcq (Imm 0) (Reg r10);
    (* (r8,r9,r10) += a2 * b2 *) movq (Reg rcx) (Reg rax); mulq (Reg r13); addq (Reg rax) (Reg r8); adcq (Reg rdx) (Reg r9); adcq (Imm 0) (Reg r10);
    (* (r8,r9,r10) += a3 * b1 *) movq (Reg r15) (Reg rax); mulq (Reg r12); addq (Reg rax) (Reg r8); adcq (Reg rdx) (Reg r9); adcq (Imm 0) (Reg r10);
    (* Extract l4 *) movq (Reg r8) (Mem 4 rsi); xorq (Reg r8) (Reg r8);
    (* (r9,r10,r8) += a2 * b3 *) movq (Reg rcx) (Reg rax); mulq (Reg r14); addq (Reg rax) (Reg r9); adcq (Reg rdx) (Reg r10); adcq (Imm 0) (Reg r8);
    (* (r9,r10,r8) += a3 * b2 *) movq (Reg r15) (Reg rax); mulq (Reg r13); addq (Reg rax) (Reg r9); adcq (Reg rdx) (Reg r10); adcq (Imm 0) (Reg r8);
    (* Extract l5 *) movq (Reg r9) (Mem 5 rsi);
    (* (r10,r8) += a3 * b3 *) movq (Reg r15) (Reg rax); mulq (Reg r14); addq (Reg rax) (Reg r10); adcq (Reg rdx) (Reg r8);
    (* Extract l6 *) movq (Reg r10) (Mem 6 rsi);
    (* Extract l7 *) movq (Reg r8) (Mem 7 rsi) ].

(** The square of [a] in [rdi], to [l] in [rsi]. *)
Definition sqr_512_asm : list instr :=
  [ (* Preload *) movq (Mem 0 rdi) (Reg r11); movq (Mem 1 rdi) (Reg r12); movq (Mem 2 rdi) (Reg r13); movq (Mem 3 rdi) (Reg r14);
    (* (rax,rdx) = a0 * a0 *) movq (Reg r11) (Reg rax); mulq (Reg r11);
    (* Extract l0 *) movq (Reg rax) (Mem 0 rsi);
    (* (r8,r9,r10) = (rdx,0) *) movq (Reg rdx) (Reg r8); xorq (Reg r9) (Reg r9); xorq (Reg r10) (Reg r10);
    (* (r8,r9,r10) += 2 * a0 * a1 *) movq (Reg r11) (Reg rax); mulq (Reg r12); addq (Reg rax) (Reg r8); adcq (Reg rdx) (Reg r9); adcq (Imm 0) (Reg r10); addq (Reg rax) (Reg r8); adcq (Reg rdx) (Reg r9); adcq (Imm 0) (Reg r10);
    (* Extract l1 *) movq (Reg r8) (Mem 1 rsi); xorq (Reg r8) (Reg r8);
    (* (r9,r10,r8) += 2 * a0 * a2 *) movq (Reg r11) (Reg rax); mulq (Reg r13); addq (Reg rax) (Reg r9); adcq (Reg rdx) (Reg r10); adcq (Imm 0) (Reg r8); addq (Reg rax) (Reg r9); adcq (Reg rdx) (Reg r10); adcq (Imm 0) (Reg r8);
    (* (r9,r10,r8) += a1 * a1 *) movq (Reg r12) (Reg rax); mulq (Reg r12); addq (Reg rax) (Reg r9); adcq (Reg rdx) (Reg r10); adcq (Imm 0) (Reg r8);
    (* Extract l2 *) movq (Reg r9) (Mem 2 rsi); xorq (Reg r9) (Reg r9);
    (* (r10,r8,r9) += 2 * a0 * a3 *) movq (Reg r11) (Reg rax); mulq (Reg r14); addq (Reg rax) (Reg r10); adcq (Reg rdx) (Reg r8); adcq (Imm 0) (Reg r9); addq (Reg rax) (Reg r10); adcq (Reg rdx) (Reg r8); adcq (Imm 0) (Reg r9);
    (* (r10,r8,r9) += 2 * a1 * a2 *) movq (Reg r12) (Reg rax); mulq (Reg r13); addq (Reg rax) (Reg r10); adcq (Reg rdx) (Reg r8); adcq (Imm 0) (Reg r9); addq (Reg rax) (Reg r10); adcq (Reg rdx) (Reg r8); adcq (Imm 0) (Reg r9);
    (* Extract l3 *) movq (Reg r10) (Mem 3 rsi); xorq (Reg r10) (Reg r10);
    (* (r8,r9,r10) += 2 * a1 * a3 *) movq (Reg r12) (Reg rax); mulq (Reg r14); addq (Reg rax) (Reg r8); adcq (Reg rdx) (Reg r9); adcq (Imm 0) (Reg r10); addq (Reg rax) (Reg r8); adcq (Reg rdx) (Reg r9); adcq (Imm 0) (Reg r10);
    (* (r8,r9,r10) += a2 * a2 *) movq (Reg r13) (Reg rax); mulq (Reg r13); addq (Reg rax) (Reg r8); adcq (Reg rdx) (Reg r9); adcq (Imm 0) (Reg r10);
    (* Extract l4 *) movq (Reg r8) (Mem 4 rsi); xorq (Reg r8) (Reg r8);
    (* (r9,r10,r8) += 2 * a2 * a3 *) movq (Reg r13) (Reg rax); mulq (Reg r14); addq (Reg rax) (Reg r9); adcq (Reg rdx) (Reg r10); adcq (Imm 0) (Reg r8); addq (Reg rax) (Reg r9); adcq (Reg rdx) (Reg r10); adcq (Imm 0) (Reg r8);
    (* Extract l5 *) movq (Reg r9) (Mem 5 rsi);
    (* (r10,r8) += a3 * a3 *) movq (Reg r14) (Reg rax); mulq (Reg r14); addq (Reg rax) (Reg r10); adcq (Reg rdx) (Reg r8);
    (* Extract l6 *) movq (Reg r10) (Mem 6 rsi);
    (* Extract l7 *) movq (Reg r8) (Mem 7 rsi) ].

(** The statements: [=g](m0) to [=g](m6), [S](l) and the constants; [=&g](p0) to
    [=&g](p2), [=g](p3), [=g](p4), [g](m0) to [g](m6) and the constants; [=g](c),
    [g](p0) to [g](p4), [D](r) and the constants.  Each with the registers it
    overwrites. *)
Definition reduce_512_statement : statement := mk_statement reduce_512_385_asm
  (repeat (Out false) 7 ++ [Fixed rsi; Number SECP256K1_N_C_0; Number SECP256K1_N_C_1]) [rax; rdx; r8; r9; r10; r11; r12; r13; r14].

Definition reduce_385_statement : statement := mk_statement reduce_385_258_asm
  ([Out true; Out true; Out true; Out false; Out false] ++ repeat Inp 7 ++ [Number SECP256K1_N_C_0; Number SECP256K1_N_C_1]) [rax; rdx; r8; r9; r10; r11; r12; r13].

Definition reduce_258_statement : statement := mk_statement reduce_258_256_asm
  ([Out false] ++ repeat Inp 5 ++ [Fixed rdi; Number SECP256K1_N_C_0; Number SECP256K1_N_C_1]) [rax; rdx; r8; r9; r10].

(** The pointer [l] is read after [m0], [m1] and [m2] are written. *)
Definition outside_rsi (pl : placement) : Prop := forall k, (k < 3)%nat -> alloc pl k <> InReg rsi.

(** The places of the operands that the compiler chose. *)
Record placements : Type := mk_placements {
  pl_512 : placement;
  pl_385 : placement;
  pl_258 : placement;
  pl_512_ok : permitted reduce_512_statement pl_512;
  pl_512_rsi : outside_rsi pl_512;
  pl_385_ok : permitted reduce_385_statement pl_385;
  pl_258_ok : permitted reduce_258_statement pl_258
}.

(** [mul_512] and [sqr_512] name no operand. *)
Definition no_operands (k : nat) : place := Slot k.

Section Build.
Variables (lo : leftover) (pl : placements).

Definition reduce_512_385_x86 (pl : placement) (l : list Z) : checked (list Z) :=
  ' (m, _) <- run_statement lo reduce_512_statement pl [(rsi, Ptr 0)] [] [l] (seq 0 7);;
  ret m.

Definition reduce_385_258_x86 (pl : placement) (m : list Z) : checked (list Z) :=
  ' (p, _) <- run_statement lo reduce_385_statement pl [] (combine (seq 5 7) m) [] (seq 0 5);;
  ret p.

(** The words of [r], and [c]. *)
Definition reduce_258_256_x86 (pl : placement) (p : list Z) : checked (list Z * Z) :=
  ' (c, mem) <- run_statement lo reduce_258_statement pl [(rdi, Ptr 0)] (combine (seq 1 5) p) [junk_words lo 4] [0%nat];;
  r <- block mem 0;;
  ret (r, nth 0 c 0).

Definition list_scalar (l : list Z) : Scalar4x64.secp256k1_scalar := S4 (nth 0 l 0) (nth 1 l 0) (nth 2 l 0) (nth 3 l 0).

Definition secp256k1_scalar_reduce_512_asm (l : list Z) : checked Scalar4x64.secp256k1_scalar :=
  m <- reduce_512_385_x86 (pl_512 pl) l;;
  q <- reduce_385_258_x86 (pl_385 pl) m;;
  ' (w, c) <- reduce_258_256_x86 (pl_258 pl) q;;
  let r := list_scalar w in
  ' (_, r) <- secp256k1_scalar_reduce r (u32 (c + secp256k1_scalar_check_overflow r));;
  ret r.

(** [l] is an array of its own; [a] and [b] may be one. *)
Definition secp256k1_scalar_mul_512_asm (a b : Scalar4x64.secp256k1_scalar) : checked (list Z) :=
  s <- run no_operands mul_512_asm (enter lo [(rdx, Ptr 2); (rsi, Ptr 0); (rdi, Ptr 1)] [] [junk_words lo 8; limbs a; limbs b]);;
  block (mem s) 0.

Definition secp256k1_scalar_sqr_512_asm (a : Scalar4x64.secp256k1_scalar) : checked (list Z) :=
  s <- run no_operands sqr_512_asm (enter lo [(rsi, Ptr 0); (rdi, Ptr 1)] [] [junk_words lo 8; limbs a]);;
  block (mem s) 0.

Definition secp256k1_scalar_mul_asm (a b : Scalar4x64.secp256k1_scalar) : checked Scalar4x64.secp256k1_scalar :=
  l <- secp256k1_scalar_mul_512_asm a b;;
  secp256k1_scalar_reduce_512_asm l.

Definition secp256k1_scalar_sqr_asm (a : Scalar4x64.secp256k1_scalar) : checked Scalar4x64.secp256k1_scalar :=
  l <- secp256k1_scalar_sqr_512_asm a;;
  secp256k1_scalar_reduce_512_asm l.

Definition secp256k1_scalar_mul_shift_var_asm (a b : Scalar4x64.secp256k1_scalar) (shift : Z) : checked Scalar4x64.secp256k1_scalar :=
  VERIFY_CHECK (256 <=? shift);;
  l <- secp256k1_scalar_mul_512_asm a b;;
  mul_shift_words l shift.

End Build.

Definition Scalar_4x64_asm (lo : leftover) (pl : placements) : ScalarOps := {|
  secp256k1_scalar := Scalar4x64.secp256k1_scalar;
  SECP256K1_SCALAR_CONST := Scalar4x64.SECP256K1_SCALAR_CONST;
  secp256k1_scalar_clear := Scalar4x64.secp256k1_scalar_clear;
  secp256k1_scalar_get_bits := Scalar4x64.secp256k1_scalar_get_bits;
  secp256k1_scalar_get_bits_var := Scalar4x64.secp256k1_scalar_get_bits_var;
  secp256k1_scalar_set_b32 := Scalar4x64.secp256k1_scalar_set_b32;
  secp256k1_scalar_set_int := Scalar4x64.secp256k1_scalar_set_int;
  secp256k1_scalar_get_b32 := Scalar4x64.secp256k1_scalar_get_b32;
  secp256k1_scalar_add := Scalar4x64.secp256k1_scalar_add;
  secp256k1_scalar_cadd_bit := Scalar4x64.secp256k1_scalar_cadd_bit;
  secp256k1_scalar_mul := secp256k1_scalar_mul_asm lo pl;
  secp256k1_scalar_shr_int := Scalar4x64.secp256k1_scalar_shr_int;
  secp256k1_scalar_sqr := secp256k1_scalar_sqr_asm lo pl;
  secp256k1_scalar_negate := Scalar4x64.secp256k1_scalar_negate;
  secp256k1_scalar_is_zero := Scalar4x64.secp256k1_scalar_is_zero;
  secp256k1_scalar_is_one := Scalar4x64.secp256k1_scalar_is_one;
  secp256k1_scalar_is_even := Scalar4x64.secp256k1_scalar_is_even;
  secp256k1_scalar_is_high := Scalar4x64.secp256k1_scalar_is_high;
  secp256k1_scalar_cond_negate := Scalar4x64.secp256k1_scalar_cond_negate;
  secp256k1_scalar_eq := Scalar4x64.secp256k1_scalar_eq;
  secp256k1_scalar_split_128 := Scalar4x64.secp256k1_scalar_split_128;
  secp256k1_scalar_mul_shift_var := secp256k1_scalar_mul_shift_var_asm lo
|}.


(** ** Products *)

Lemma uw_word x : is_uw 64 x -> word x.
Proof. exact (fun H => H). Qed.

(** The top word of a product has no carry. *)
Lemma product_top A B V : 0 <= A < 2 ^ 256 -> 0 <= B < 2 ^ 256 -> 0 <= V -> 2 ^ 384 * V <= A * B -> 0 <= V < 2 ^ 128.
Proof. intros HA HB H0 HV. assert (A * B < 2 ^ 384 * 2 ^ 128) by (change (2 ^ 384 * 2 ^ 128) with (2 ^ 256 * 2 ^ 256); nia). lia. Qed.

Lemma mul_512_asm_spec lo a b : limbs_ok a -> limbs_ok b ->
  Returns (secp256k1_scalar_mul_512_asm lo a b) (fun l => words_ok 64 8 l /\ words_Z 64 l = limbs_Z a * limbs_Z b).
Proof.
  destruct a as [a0 a1 a2 a3], b as [b0 b1 b2 b3]. unfold limbs_ok, limbs_Z, limbs. cbn [d0 d1 d2 d3]. intros (A0 & A1 & A2 & A3) (B0 & B1 & B2 & B3).
  apply uw_word in A0, A1, A2, A3, B0, B1, B2, B3.
  unfold secp256k1_scalar_mul_512_asm, limbs. cbn [d0 d1 d2 d3]. apply Returns_seq. unfold mul_512_asm. x86_enter.
  do 9 x86_step3. destruct (product_words (a0 * b0) (word_mul a0 b0 A0 B0)) as (E0 & W0 & Wh). set (l0 := u64 (a0 * b0)) in *. set (h := u64 (Z.shiftr (a0 * b0) 64)) in *. clearbody l0 h.
  pose proof (acc3_of_word h Wh) as HA. do 14 x86_step3. acc3_next V2. do 17 x86_step3. acc3_next V3. do 23 x86_step3. acc3_next V4.
  do 17 x86_step3. acc3_next V5. do 12 x86_step3. acc3_next V6. apply acc2_of_acc3 in HA. do 7 x86_step3. apply Returns_ret.
  cbv [block mem nth_error Returns].
  pose proof (word_mul a3 b3 A3 B3) as P3. unfold word in *. apply acc2_extract in HA.
  2: { apply (product_top (a0 + a1 * 2 ^ 64 + a2 * 2 ^ 128 + a3 * 2 ^ 192) (b0 + b1 * 2 ^ 64 + b2 * 2 ^ 128 + b3 * 2 ^ 192)); lia. }
  destruct HA as (W6 & W7 & E7). unfold word in *. split; [close_word_list|]. cbn [words_Z]. lia.
Qed.

Lemma sqr_512_asm_spec lo a : limbs_ok a ->
  Returns (secp256k1_scalar_sqr_512_asm lo a) (fun l => words_ok 64 8 l /\ words_Z 64 l = limbs_Z a * limbs_Z a).
Proof.
  destruct a as [a0 a1 a2 a3]. unfold limbs_ok, limbs_Z. cbn [d0 d1 d2 d3]. intros (A0 & A1 & A2 & A3). apply uw_word in A0, A1, A2, A3.
  unfold secp256k1_scalar_sqr_512_asm, limbs. cbn [d0 d1 d2 d3]. apply Returns_seq. unfold sqr_512_asm. x86_enter.
  do 6 x86_step3. destruct (product_words (a0 * a0) (word_mul a0 a0 A0 A0)) as (E0 & W0 & Wh). set (l0 := u64 (a0 * a0)) in *. set (h := u64 (Z.shiftr (a0 * a0) 64)) in *. clearbody l0 h.
  pose proof (acc3_of_word h Wh) as HA. do 12 x86_step3. acc3_next V2. do 15 x86_step3. acc3_next V3. do 18 x86_step3. acc3_next V4.
  do 15 x86_step3. acc3_next V5. do 10 x86_step3. acc3_next V6. apply acc2_of_acc3 in HA. do 7 x86_step3. apply Returns_ret.
  cbv [block mem nth_error Returns]. pose proof (word_mul a3 a3 A3 A3) as P3. unfold word in *. apply acc2_extract in HA.
  2: { apply (product_top (a0 + a1 * 2 ^ 64 + a2 * 2 ^ 128 + a3 * 2 ^ 192) (a0 + a1 * 2 ^ 64 + a2 * 2 ^ 128 + a3 * 2 ^ 192)); lia. }
  destruct HA as (W6 & W7 & E7). unfold word in *. split; [close_word_list|]. cbn [words_Z]. lia.
Qed.

(** ** Reduction *)

(** The low word of an accumulator of two words is stored, and the other stays. *)
Ltac acc2_next :=
  match goal with
  | H : acc2 ?V ?x ?y |- _ =>
      let W := fresh "W" in let W' := fresh "W" in let E := fresh "E" in
      apply acc2_extract in H; [|unfold word, SECP256K1_N_C_0, SECP256K1_N_C_1 in *; lia]; destruct H as (W & W' & E); pose proof (acc2_word y W') as H
  end.

(** The number that replaces the high half of [l]. *)
Lemma fold_high L H : (L + H * (2 ^ 256 - n)) mod n = (L + 2 ^ 256 * H) mod n.
Proof. apply (fold_order _ _ H). ring. Qed.

(** The operands in the stack frame. *)
Definition reduce_512_slots (k : nat) : place :=
  if (k <=? 6)%nat then Slot k else if (k =? 7)%nat then InReg rsi else if (k =? 8)%nat then Const (Int SECP256K1_N_C_0) else Const (Int SECP256K1_N_C_1).

Definition reduce_385_slots (k : nat) : place :=
  if (k <=? 11)%nat then Slot k else if (k =? 12)%nat then Const (Int SECP256K1_N_C_0) else Const (Int SECP256K1_N_C_1).

Definition reduce_258_slots (k : nat) : place :=
  if (k <=? 5)%nat then Slot k else if (k =? 6)%nat then InReg rdi else if (k =? 7)%nat then Const (Int SECP256K1_N_C_0) else Const (Int SECP256K1_N_C_1).

Lemma reduce_512_385_slots_spec lo l : words_ok 64 8 l ->
  Returns (s <- run reduce_512_slots reduce_512_385_asm (enter lo [(rsi, Ptr 0)] (junk_words lo 7) [l]);; m <- read_args reduce_512_slots s (seq 0 7);; ret (m, mem s)) (fun '(m, _) => words_ok 64 7 m /\ nth 6 m 0 <= 1 /\
    words_Z 64 m mod n = words_Z 64 l mod n /\ words_Z 64 m < 2 ^ 256 * (2 ^ 256 - n + 1)).
Proof.
  intros Hl. open_list Hl. apply Returns_seq. unfold reduce_512_385_asm. x86_enter.
  do 7 x86_step3. pose proof (acc2_word w ltac:(assumption)) as HA. do 4 x86_step3. acc2_next. do 4 x86_step3.
  apply acc3_of_acc2 in HA; [|unfold word in *; lia]. do 10 x86_step3. acc3_next V1. do 18 x86_step3. acc3_next V2. do 18 x86_step3. acc3_next V3. do 10 x86_step3. acc3_next V4.
  apply acc2_of_acc3 in HA. do 5 x86_step3. apply Returns_ret. cbv [read_args read_int read reduce_512_slots Nat.leb Nat.eqb slots nth_error bind ret Returns].
  unfold SECP256K1_N_C_0, SECP256K1_N_C_1 in *. unfold word in *. apply acc2_extract in HA; [|lia]. destruct HA as (X5 & X6 & E6). unfold word in *.
  match goal with |- words_ok 64 7 ?m /\ _ => assert (words_Z 64 m =
    (w + 2 ^ 64 * (w0 + 2 ^ 64 * (w1 + 2 ^ 64 * w2))) + (w3 + 2 ^ 64 * (w4 + 2 ^ 64 * (w5 + 2 ^ 64 * w6))) * (2 ^ 256 - n)) as EM by (cbn [words_Z]; unfold n; lia) end.
  split; [close_word_list|]. split; [cbn [nth words_Z] in *; unfold n in *; lia|]. rewrite EM. split; [rewrite fold_high; f_equal; cbn [words_Z]; ring | unfold n; lia].
Qed.

Lemma reduce_385_258_slots_spec lo m : words_ok 64 7 m -> nth 6 m 0 <= 1 -> words_Z 64 m < 2 ^ 256 * (2 ^ 256 - n + 1) ->
  Returns (s <- run reduce_385_slots reduce_385_258_asm (enter lo [] (junk_words lo 5 ++ m) []);; q <- read_args reduce_385_slots s (seq 0 5);; ret (q, mem s)) (fun '(q, _) => words_ok 64 5 q /\ nth 4 q 0 <= 2 /\ words_Z 64 q mod n = words_Z 64 m mod n).
Proof.
  intros Hm H6 HV. open_list Hm. cbn [nth words_Z] in H6, HV. apply Returns_seq. unfold reduce_385_258_asm. x86_enter.
  do 6 x86_step3. pose proof (acc2_word w ltac:(assumption)) as HA. do 4 x86_step3. acc2_next. do 4 x86_step3.
  apply acc3_of_acc2 in HA; [|unfold word in *; lia]. do 10 x86_step3. acc3_next V1. do 18 x86_step3. acc3_next V2. apply acc2_of_acc3 in HA. do 12 x86_step3. apply Returns_ret.
  unfold SECP256K1_N_C_0, SECP256K1_N_C_1 in *. unfold word in *. apply acc2_extract in HA; [|lia]. destruct HA as (X5 & X6 & E6).
  cbv [read_args read_int read reduce_385_slots Nat.leb Nat.eqb slots nth_error bind ret Returns].
  unfold word in *. rewrite (u64_of_word (_ + w5)) by (unfold word; unfold n in HV; lia).
  match goal with |- words_ok 64 5 ?q /\ _ => assert (words_Z 64 q =
    (w + 2 ^ 64 * (w0 + 2 ^ 64 * (w1 + 2 ^ 64 * w2))) + (w3 + 2 ^ 64 * (w4 + 2 ^ 64 * w5)) * (2 ^ 256 - n)) as EQ by (cbn [words_Z]; unfold n; lia) end.
  cbn [words_Z] in EQ. assert (y9 + w5 <= 2) as H2 by (unfold n in *; lia).
  split; [close_word_list|]. split; [cbn [nth]; exact H2|]. cbn [words_Z]. rewrite EQ, fold_high. f_equal. ring.
Qed.

(** The words of [r] and [c]. *)
Lemma reduce_258_256_slots_spec lo q : words_ok 64 5 q -> nth 4 q 0 <= 2 ->
  Returns (s <- run reduce_258_slots reduce_258_256_asm (enter lo [(rdi, Ptr 0)] (junk_words lo 1 ++ q) [junk_words lo 4]);; c <- read_args reduce_258_slots s [0%nat];; ret (c, mem s)) (fun '(c', m) =>
    exists r c, c' = [c] /\ m = [r] /\ words_ok 64 4 r /\ 0 <= c <= 1 /\
    (words_Z 64 r + c * 2 ^ 256) mod n = words_Z 64 q mod n /\ words_Z 64 r + c * 2 ^ 256 < 2 * n).
Proof.
  intros Hq H4. open_list Hq. cbn [nth] in H4. apply Returns_seq. unfold reduce_258_256_asm. x86_enter.
  do 3 x86_step3. acc2_new SECP256K1_N_C_0 w3. do 2 x86_step3. acc2_next. do 5 x86_step3. do 4 x86_step3. acc2_next. do 2 x86_step3. do 4 x86_step3. acc2_next.
  do 4 x86_step3. acc2_next. do 2 x86_step3. apply Returns_ret. cbv [block read_args read_int read reduce_258_slots Nat.leb Nat.eqb slots mem nth_error bind ret Returns].
  do 2 eexists. split; [reflexivity|]. split; [reflexivity|]. unfold word, SECP256K1_N_C_0, SECP256K1_N_C_1 in *.
  match goal with |- words_ok 64 4 ?r /\ 0 <= ?c <= 1 /\ _ => assert (words_Z 64 r + c * 2 ^ 256 = (w + 2 ^ 64 * (w0 + 2 ^ 64 * (w1 + 2 ^ 64 * w2))) + w3 * (2 ^ 256 - n)) as ER by (cbn [words_Z]; unfold n; lia) end.
  split; [close_word_list|]. rewrite ER. cbn [words_Z] in *. unfold n in ER. split; [lia|]. split; [rewrite fold_high; f_equal; ring | unfold n; lia].
Qed.

(** The first statement with early clobbers on its first [j] outputs.  It needs three. *)
Definition reduce_512_385_early (j : nat) : statement := mk_statement reduce_512_385_asm
  (repeat (Out true) j ++ repeat (Out false) (7 - j) ++ [Fixed rsi; Number SECP256K1_N_C_0; Number SECP256K1_N_C_1]) (clobbers reduce_512_statement).

(** The operands one by one. *)
Ltac operand_cases k := do 14 (try (destruct k as [|k]; [cbn; intros [= <-]; reflexivity|])); cbn; destruct k; discriminate.

Lemma reduce_512_slot_choice j : (j <= 3)%nat -> slot_choice (reduce_512_385_early j) reduce_512_slots.
Proof. intros Hj k c. do 4 (destruct j as [|j]; [operand_cases k|]). lia. Qed.

Lemma reduce_385_slot_choice : slot_choice reduce_385_statement reduce_385_slots.
Proof. intros k c. operand_cases k. Qed.

Lemma reduce_258_slot_choice : slot_choice reduce_258_statement reduce_258_slots.
Proof. intros k c. operand_cases k. Qed.

(** The operands of the first statement, for each number of early clobbers. *)
Ltac early_cases j k := do 4 (destruct j as [|j]; [do 10 (destruct k as [|k]; [cbn; intros [=]; (lia || congruence || (subst; reflexivity))|]); cbn; destruct k; discriminate|]); lia.

Lemma early_outputs j k : (j <= 3)%nat -> nth_error (constraints (reduce_512_385_early j)) k = Some (Out true) -> (k < j)%nat.
Proof. intros Hj. early_cases j k. Qed.

Lemma early_no_input j k : (j <= 3)%nat -> nth_error (constraints (reduce_512_385_early j)) k <> Some Inp.
Proof. intros Hj. early_cases j k. Qed.

Lemma early_fixed j k r : (j <= 3)%nat -> nth_error (constraints (reduce_512_385_early j)) k = Some (Fixed r) -> r = rsi.
Proof. intros Hj. early_cases j k. Qed.

Lemma early_weaker j k c : (j <= 3)%nat -> nth_error (constraints (reduce_512_385_early j)) k = Some c -> nth_error (constraints reduce_512_statement) k = Some (match c with Out _ => Out false | _ => c end).
Proof. intros Hj. early_cases j k. Qed.

(** The first [j] outputs are outside the register. *)
Definition first_outside (j : nat) (pl : placement) : Prop := forall k, (k < j)%nat -> alloc pl k <> InReg rsi.

Lemma same_place_rsi j pl k p : first_outside j pl -> (k < j)%nat -> p = InReg rsi -> same_place (alloc pl k) p = false /\ same_place p (alloc pl k) = false.
Proof.
  intros Hr Hk ->. pose proof (Hr k Hk) as N. destruct (alloc pl k) as [r| |]; [|split; reflexivity|split; reflexivity]. cbn [same_place]. split.
  - destruct (reg_eqb_spec r rsi) as [->|]; [contradiction | reflexivity].
  - destruct (reg_eqb_spec rsi r) as [<-|]; [contradiction | reflexivity].
Qed.

Lemma reduce_512_early_permitted j pl : (j <= 3)%nat -> permitted reduce_512_statement pl -> first_outside j pl -> permitted (reduce_512_385_early j) pl.
Proof.
  intros Hj3 [H1 H2] Hr. split.
  - intros k c Hk. pose proof (H1 k _ (early_weaker j k c Hj3 Hk)) as Ha. destruct c; exact Ha.
  - assert (forall k r, nth_error (constraints (reduce_512_385_early j)) k = Some (Fixed r) -> alloc pl k = InReg rsi) as HF.
    { intros k r Hk. pose proof (H1 k _ (early_weaker j k _ Hj3 Hk)) as Ha. rewrite (early_fixed j k r Hj3 Hk) in Ha. cbn [allowed] in Ha. destruct (alloc pl k) as [r'| |]; try discriminate.
      destruct (reg_eqb_spec rsi r') as [E|]; [congruence | discriminate]. }
    intros i i' ci ci' N Hi Hi' HA. pose proof (H2 i i' _ _ N (early_weaker j i ci Hj3 Hi) (early_weaker j i' ci' Hj3 Hi')) as H.
    destruct ci as [e| |ri|xi], ci' as [e'| |ri'|xi']; try discriminate; try (exact (H eq_refl)); cbn [apart] in HA; subst.
    all: try (exfalso; first [exact (early_no_input j _ Hj3 Hi) | exact (early_no_input j _ Hj3 Hi')]).
    + exact (proj1 (same_place_rsi j pl i _ Hr (early_outputs j i Hj3 Hi) (HF i' ri' Hi'))).
    + exact (proj2 (same_place_rsi j pl i' _ Hr (early_outputs j i' Hj3 Hi') (HF i ri Hi))).
Qed.

Lemma early_kept j : (j <= 3)%nat -> inputs_kept (reduce_512_385_early j) = true.
Proof. intros Hj. do 4 (destruct j as [|j]; [reflexivity|]). lia. Qed.

Lemma early_inputs j fr : (j <= 3)%nat -> inputs_in (reduce_512_385_early j) [] fr.
Proof. intros Hj. apply inputs_in_none. intros H. apply In_nth_error in H as [k Hk]. exact (early_no_input j k Hj Hk). Qed.

Lemma reduce_512_385_x86_spec lo pl l : permitted reduce_512_statement pl -> outside_rsi pl -> words_ok 64 8 l ->
  Returns (reduce_512_385_x86 lo pl l) (fun m => words_ok 64 7 m /\ nth 6 m 0 <= 1 /\
    words_Z 64 m mod n = words_Z 64 l mod n /\ words_Z 64 m < 2 ^ 256 * (2 ^ 256 - n + 1)).
Proof.
  intros Hpl Hr Hl. eapply Returns_bind; [exact (Returns_refines _ _ _
    (statement_refines (reduce_512_385_early 3) _ pl (reduce_512_slot_choice 3 (le_n 3)) (reduce_512_early_permitted 3 pl (le_n 3) Hpl Hr) eq_refl lo [(rsi, Ptr 0)] [] (junk_words lo 7) [l] (seq 0 7) false _
      (early_inputs 3 _ (le_n 3)) eq_refl (incl_refl _)) (reduce_512_385_slots_spec lo l Hl))|]. intros [m mm] H. exact H.
Qed.

(** An output in the register of [l]. *)
Lemma reduce_512_385_lost lo pl l j p r q i d rest live ws : (j < 3)%nat -> permitted reduce_512_statement pl -> first_outside j pl -> alloc pl j = InReg rsi -> words_ok 64 8 l ->
  reduce_512_385_asm = p ++ movq (Reg r) (Arg j) :: xorq (Reg q) (Reg q) :: addq (Mem i rsi) (Reg d) :: rest -> outputs (reduce_512_385_early j) true p = Some (live, ws) ->
  clobbered reduce_512_statement r = true -> reg_eqb q rsi = false -> reduce_512_385_x86 lo pl l = None.
Proof.
  intros Hj Hpl Hf Ha Hl Hp Ho Hr Hq. unfold reduce_512_385_x86.
  assert (run_statement lo (reduce_512_385_early j) pl [(rsi, Ptr 0)] [] [l] (seq 0 7) = None) as E.
  { apply (pointer_lost (reduce_512_385_early j) _ pl (reduce_512_slot_choice j ltac:(lia)) (reduce_512_early_permitted j pl ltac:(lia) Hpl Hf) (early_kept j ltac:(lia))
      lo [(rsi, Ptr 0)] [] (junk_words lo 7) [l] (seq 0 7) p j r q i rsi d rest live ws false); [apply early_inputs; lia | exact Hp | exact Ho | | exact Ha | exact Hr | exact Hq |].
    - do 3 (destruct j as [|j]; [reflexivity|]). lia.
    - pose proof (reduce_512_385_slots_spec lo l Hl) as HS. cbn [code reduce_512_385_early]. destruct (run _ _ _); [discriminate | contradiction]. }
  change (run_statement lo (reduce_512_385_early j) pl) with (run_statement lo reduce_512_statement pl) in E. rewrite E. reflexivity.
Qed.

Lemma reduce_512_385_clash lo pl l j : (j < 3)%nat -> permitted reduce_512_statement pl -> alloc pl j = InReg rsi -> words_ok 64 8 l -> reduce_512_385_x86 lo pl l = None.
Proof.
  intros Hj Hpl Ha Hl. assert (first_outside j pl) as Hf.
  { intros k Hk E. assert (forall i, (i < 3)%nat -> nth_error (constraints reduce_512_statement) i = Some (Out false)) as HO by (intros i Hi; do 3 (destruct i as [|i]; [reflexivity|]); lia).
    pose proof (proj2 Hpl k j _ _ ltac:(lia) (HO k ltac:(lia)) (HO j Hj) eq_refl) as HN. rewrite E, Ha in HN. discriminate. }
  destruct j as [|[|[|j]]]; [| | |lia].
  - exact (reduce_512_385_lost lo pl l 0 (firstn 11 reduce_512_385_asm) _ _ _ _ (skipn 14 reduce_512_385_asm) _ _ Hj Hpl Hf Ha Hl eq_refl eq_refl eq_refl eq_refl).
  - exact (reduce_512_385_lost lo pl l 1 (firstn 25 reduce_512_385_asm) _ _ _ _ (skipn 28 reduce_512_385_asm) _ _ Hj Hpl Hf Ha Hl eq_refl eq_refl eq_refl eq_refl).
  - exact (reduce_512_385_lost lo pl l 2 (firstn 43 reduce_512_385_asm) _ _ _ _ (skipn 46 reduce_512_385_asm) _ _ Hj Hpl Hf Ha Hl eq_refl eq_refl eq_refl eq_refl).
Qed.

Lemma not_outside_rsi pl : ~ outside_rsi pl -> exists j, (j < 3)%nat /\ alloc pl j = InReg rsi.
Proof.
  intros HN. assert (forall j, {alloc pl j = InReg rsi} + {alloc pl j <> InReg rsi}) as dec.
  { intros j. destruct (alloc pl j) as [r| |]; try (right; discriminate). destruct (reg_eqb_spec r rsi) as [->|N]; [left; reflexivity | right; congruence]. }
  destruct (dec 0%nat) as [E|N0]; [exists O; auto with arith|]. destruct (dec 1%nat) as [E|N1]; [exists 1%nat; auto with arith|]. destruct (dec 2%nat) as [E|N2]; [exists 2%nat; auto with arith|].
  exfalso. apply HN. intros k Hk. do 3 (destruct k as [|k]; [assumption|]). lia.
Qed.

Lemma reduce_385_258_x86_spec lo pl m : permitted reduce_385_statement pl -> words_ok 64 7 m -> nth 6 m 0 <= 1 -> words_Z 64 m < 2 ^ 256 * (2 ^ 256 - n + 1) ->
  Returns (reduce_385_258_x86 lo pl m) (fun q => words_ok 64 5 q /\ nth 4 q 0 <= 2 /\ words_Z 64 q mod n = words_Z 64 m mod n).
Proof.
  intros Hpl Hm H6 HV.
  assert (inputs_in reduce_385_statement (combine (seq 5 7) m) (junk_words lo 5 ++ m)) as HI.
  { rewrite <- (proj1 Hm). apply (inputs_in_row _ [Out true; Out true; Out true; Out false; Out false] [Number SECP256K1_N_C_0; Number SECP256K1_N_C_1]);
      [rewrite (proj1 Hm); reflexivity | reflexivity | cbn; intuition discriminate | cbn; intuition discriminate]. }
  eapply Returns_bind; [exact (Returns_refines _ _ _ (statement_refines reduce_385_statement _ pl reduce_385_slot_choice Hpl eq_refl lo [] _ _ [] (seq 0 5) false _ HI eq_refl (incl_refl _))
    (reduce_385_258_slots_spec lo m Hm H6 HV))|]. intros [q mm] H. exact H.
Qed.

Lemma reduce_258_256_x86_spec lo pl q : permitted reduce_258_statement pl -> words_ok 64 5 q -> nth 4 q 0 <= 2 ->
  Returns (reduce_258_256_x86 lo pl q) (fun '(r, c) => words_ok 64 4 r /\ 0 <= c <= 1 /\
    (words_Z 64 r + c * 2 ^ 256) mod n = words_Z 64 q mod n /\ words_Z 64 r + c * 2 ^ 256 < 2 * n).
Proof.
  intros Hpl Hq H4.
  assert (inputs_in reduce_258_statement (combine (seq 1 5) q) (junk_words lo 1 ++ q)) as HI.
  { rewrite <- (proj1 Hq). apply (inputs_in_row _ [Out false] [Fixed rdi; Number SECP256K1_N_C_0; Number SECP256K1_N_C_1]);
      [rewrite (proj1 Hq); reflexivity | reflexivity | cbn; intuition discriminate | cbn; intuition discriminate]. }
  eapply Returns_bind; [exact (Returns_refines _ _ _ (statement_refines reduce_258_statement _ pl reduce_258_slot_choice Hpl eq_refl lo [(rdi, Ptr 0)] _ _ [junk_words lo 4] [0%nat] false _ HI eq_refl (incl_refl _))
    (reduce_258_256_slots_spec lo q Hq H4))|]. intros [c' m] (r & c & -> & -> & H). exact H.
Qed.

Lemma reduce_512_asm_spec lo pl l : words_ok 64 8 l ->
  Returns (secp256k1_scalar_reduce_512_asm lo pl l) (fun r => scalar_inv r /\ limbs_Z r = words_Z 64 l mod n).
Proof.
  intros Hl. eapply Returns_bind; [exact (reduce_512_385_x86_spec lo _ l (pl_512_ok pl) (pl_512_rsi pl) Hl)|]. intros m (Hm & H6 & Em & HV).
  eapply Returns_bind; [exact (reduce_385_258_x86_spec lo _ m (pl_385_ok pl) Hm H6 HV)|]. intros q (Hq & H4 & Eq).
  eapply Returns_bind; [exact (reduce_258_256_x86_spec lo _ q (pl_258_ok pl) Hq H4)|]. intros [w c] (Hw & Hc & Ew & HB). cbv beta iota zeta.
  assert (limbs_ok (list_scalar w) /\ words_Z 64 w = limbs_Z (list_scalar w)) as [Hr EL].
  { open_list Hw. unfold list_scalar, limbs_ok, limbs_Z. cbn [nth d0 d1 d2 d3 words_Z]. split; [auto | ring]. }
  rewrite EL in *. clear EL. set (r := list_scalar w) in *. clearbody r.
  rewrite (sc64_overflow r c _ Hr Hc eq_refl HB), u32_flag. eapply Returns_bind; [exact (sc64_reduced r c _ Hr Hc eq_refl HB)|]. intros [o r'] (_ & H & E).
  apply Returns_ret. split; [exact H|]. congruence.
Qed.

(** ** The assembly returns what the C code returns *)

Lemma limbs_Z_inj a b : limbs_ok a -> limbs_ok b -> limbs_Z a = limbs_Z b -> a = b.
Proof. destruct a as [a0 a1 a2 a3], b as [b0 b1 b2 b3]. unfold limbs_ok, limbs_Z, is_uw. cbn [d0 d1 d2 d3]. intros Ha Hb E. f_equal; lia. Qed.

(** Two functions with one result. *)
Lemma Returns_unique {T} (m m' : checked T) (Q : T -> Prop) : (forall x y, Q x -> Q y -> x = y) -> Returns m Q -> Returns m' Q -> m = m'.
Proof. intros HQ. destruct m as [x|], m' as [y|]; try contradiction. intros Hx Hy. f_equal. exact (HQ x y Hx Hy). Qed.

Lemma mul_512_asm_eq lo a b : limbs_ok a -> limbs_ok b -> secp256k1_scalar_mul_512_asm lo a b = secp256k1_scalar_mul_512 a b.
Proof.
  intros Ha Hb. refine (Returns_unique _ _ _ _ (mul_512_asm_spec lo a b Ha Hb) (sc64_mul_512_spec a b Ha Hb)).
  intros l l' [H E] [H' E']. apply (words_Z_inj 8); congruence.
Qed.

Lemma sqr_512_asm_eq lo a : limbs_ok a -> secp256k1_scalar_sqr_512_asm lo a = secp256k1_scalar_sqr_512 a.
Proof.
  intros Ha. refine (Returns_unique _ _ _ _ (sqr_512_asm_spec lo a Ha) (sc64_sqr_512_spec a Ha)). intros l l' [H E] [H' E']. apply (words_Z_inj 8); congruence.
Qed.

Lemma reduce_512_asm_eq lo pl l : words_ok 64 8 l -> secp256k1_scalar_reduce_512_asm lo pl l = secp256k1_scalar_reduce_512 l.
Proof.
  intros Hl. refine (Returns_unique _ _ _ _ (reduce_512_asm_spec lo pl l Hl) (sc64_reduce_512_spec l Hl)). intros r r' [[H _] E] [[H' _] E']. apply limbs_Z_inj; congruence.
Qed.

(** The reduction of what [m] returns. *)
Lemma reduce_bind_eq lo pl (m : checked (list Z)) V : Returns m (fun l => words_ok 64 8 l /\ words_Z 64 l = V) ->
  bind m (secp256k1_scalar_reduce_512_asm lo pl) = bind m secp256k1_scalar_reduce_512.
Proof. destruct m as [l|]; [|contradiction]. intros [Hl _]. exact (reduce_512_asm_eq lo pl l Hl). Qed.

Lemma mul_asm_eq lo pl a b : limbs_ok a -> limbs_ok b -> secp256k1_scalar_mul_asm lo pl a b = Scalar4x64.secp256k1_scalar_mul a b.
Proof.
  intros Ha Hb. unfold secp256k1_scalar_mul_asm. rewrite (mul_512_asm_eq lo a b Ha Hb). exact (reduce_bind_eq lo pl _ _ (sc64_mul_512_spec a b Ha Hb)).
Qed.

Lemma sqr_asm_eq lo pl a : limbs_ok a -> secp256k1_scalar_sqr_asm lo pl a = Scalar4x64.secp256k1_scalar_sqr a.
Proof.
  intros Ha. unfold secp256k1_scalar_sqr_asm. rewrite (sqr_512_asm_eq lo a Ha). exact (reduce_bind_eq lo pl _ _ (sc64_sqr_512_spec a Ha)).
Qed.

Lemma mul_shift_var_asm_eq lo a b shift : limbs_ok a -> limbs_ok b -> secp256k1_scalar_mul_shift_var_asm lo a b shift = Scalar4x64.secp256k1_scalar_mul_shift_var a b shift.
Proof. intros Ha Hb. unfold secp256k1_scalar_mul_shift_var_asm. rewrite (mul_512_asm_eq lo a b Ha Hb). reflexivity. Qed.

Lemma sc64_mul_asm_spec lo pl a b : scalar_inv a -> scalar_inv b ->
  Returns (secp256k1_scalar_mul_asm lo pl a b) (fun r => scalar_inv r /\ limbs_Z r = (limbs_Z a * limbs_Z b) mod n).
Proof. intros Ha Hb. rewrite (mul_asm_eq lo pl a b (proj1 Ha) (proj1 Hb)). exact (sc64_mul_spec a b Ha Hb). Qed.

Lemma sc64_sqr_asm_spec lo pl a : scalar_inv a -> Returns (secp256k1_scalar_sqr_asm lo pl a) (fun r => scalar_inv r /\ limbs_Z r = (limbs_Z a * limbs_Z a) mod n).
Proof. intros Ha. rewrite (sqr_asm_eq lo pl a (proj1 Ha)). exact (sc64_sqr_spec a Ha). Qed.

Lemma sc64_mul_shift_var_asm_spec lo a b shift : scalar_inv a -> scalar_inv b -> 256 <= shift <= 512 ->
  Returns (secp256k1_scalar_mul_shift_var_asm lo a b shift) (fun r => scalar_inv r /\ limbs_Z r = (limbs_Z a * limbs_Z b + 2 ^ (shift - 1)) / 2 ^ shift).
Proof. intros Ha Hb Hs. rewrite (mul_shift_var_asm_eq lo a b shift (proj1 Ha) (proj1 Hb)). exact (sc64_mul_shift_var_spec a b shift Ha Hb Hs). Qed.

#[export] Instance Laws_4x64_asm (lo : leftover) (pl : placements) : ScalarLaws (Scalar_4x64_asm lo pl) :=
  @Build_ScalarLaws (Scalar_4x64_asm lo pl) Scalar4x64.scalar_inv Scalar4x64.limbs_Z sc64_range
    sc64_const
    sc64_clear
    sc64_get_bits_law
    (fun a o c Ha => sc64_get_bits_var_spec a o c (proj1 Ha))
    sc64_set_b32_spec
    sc64_set_int_spec
    (fun a Ha => sc64_get_b32_spec a (proj1 Ha))
    sc64_add_spec
    sc64_cadd_bit_spec
    (sc64_mul_asm_spec lo pl)
    sc64_shr_int_spec
    (sc64_sqr_asm_spec lo pl)
    sc64_negate_spec
    (fun a Ha => sc64_is_zero_spec a (proj1 Ha))
    (fun a Ha => sc64_is_one_spec a (proj1 Ha))
    (fun a Ha => sc64_is_even_spec a (proj1 Ha))
    (fun a Ha => sc64_is_high_spec a (proj1 Ha))
    (fun a f Ha => sc64_cond_negate_spec a f (proj1 Ha))
    (fun a b Ha Hb => sc64_eq_spec a b (proj1 Ha) (proj1 Hb))
    (fun a Ha => sc64_split_128_spec a (proj1 Ha))
    (sc64_mul_shift_var_asm_spec lo).

#[export] Typeclasses Opaque Scalar_4x64 Scalar_4x64_asm.
