(* ===== verification/Lax.v ===== *)
(** * The lax parsers of signatures and private keys

    [contrib/lax_der_parsing.c] and [contrib/lax_der_privatekey_parsing.c].  A
    position in the input is the list of the bytes from there to the end, and a read
    past the end is [None]. *)

From Stdlib Require Import String ZArith Lia List Bool.
From S2P Require Import Prelude Bytes Field Scalar Ecmult Hash EcmultGen Objects Buffer Ecdsa Secp256k1.
Import ListNotations.

#[local] Open Scope Z_scope.
#[local] Open Scope checked_scope.

(** [while (lenbyte > 0)]: the length and the position after it. *)
Fixpoint lax_length_loop (lenbyte : nat) (len : Z) (input : list Z) : checked (Z * list Z) :=
  match lenbyte with
  | O => ret (len, input)
  | Datatypes.S lenbyte' =>
      match input with
      | [] => None
      | b :: input' => lax_length_loop lenbyte' (u64 (u64 (Z.shiftl len 8) + b)) input'
      end
  end.

(** The length of an integer and the position after it; [None] inside is
    [return 0]. *)
Definition lax_length (input : list Z) : checked (option (Z * list Z)) :=
  match input with
  | [] => ret None
  | lenbyte :: input =>
      if negb (Z.land lenbyte 0x80 =? 0) then
        let lenbyte := lenbyte - 0x80 in
        if Z.of_nat (length input) <? lenbyte then ret None else
        ' (lenbyte, input) <- skip_zeros (Z.to_nat lenbyte) input;;
        if (8 <=? lenbyte)%nat then ret None else
        r <- lax_length_loop lenbyte 0 input;;
        ret (Some r)
      else ret (Some (lenbyte, input))
  end.

(** The tag and the length of an integer: [rlen], [rpos] and the position after it. *)
Definition lax_integer (input : list Z) : checked (option (Z * list Z * list Z)) :=
  match input with
  | [] => ret None
  | tag :: input =>
      if negb (tag =? 0x02) then ret None else
      r <- lax_length input;;
      match r with
      | None => ret None
      | Some (rlen, input) =>
          if Z.of_nat (length input) <? rlen then ret None
          else ret (Some (rlen, input, skipn (Z.to_nat rlen) input))
      end
  end.

(** The bytes of an integer without leading zeros in 32 bytes, [None] inside for more
    than 32 bytes. *)
Definition lax_value (rlen : Z) (rpos : list Z) : checked (option (list Z)) :=
  ' (rlen, rpos) <- skip_zeros (Z.to_nat rlen) rpos;;
  if (32 <? rlen)%nat then ret None else ret (Some (repeat 0 (32 - rlen) ++ firstn rlen rpos)).

(** The position after the tag and the length of the sequence. *)
Definition lax_sequence (input : list Z) : option (list Z) :=
  match input with
  | tag :: lenbyte :: input =>
      if negb (tag =? 0x30) then None else
      if negb (Z.land lenbyte 0x80 =? 0) then
        let lenbyte := lenbyte - 0x80 in
        if Z.of_nat (length input) <? lenbyte then None else Some (skipn (Z.to_nat lenbyte) input)
      else Some input
  | _ => None
  end.

Section Lax.
Context {F : FieldOps} {S : ScalarOps} {Ob : Objects F S} {M : Memory F S} {H : HashMemory} {A : ApiMemory}.

Definition ecdsa_signature_parse_der_lax (ctx : secp256k1_context) (sig : secp256k1_ecdsa_signature) (input : list Z) :
    api (option secp256k1_ecdsa_signature * bool) :=
  ' (sig, _) <~ secp256k1_ecdsa_signature_parse_compact ctx (Some sig) (Some (repeat 0 64));;
  match lax_sequence input with
  | None => done (sig, false)
  | Some input =>
      r <- lax_integer input;;
      match r with
      | None => done (sig, false)
      | Some (rlen, rpos, input) =>
          r <- lax_integer input;;
          match r with
          | None => done (sig, false)
          | Some (slen, spos, _) =>
              r <- lax_value rlen rpos;;
              s <- lax_value slen spos;;
              ' (sig, ok) <~ (match r, s with
                              | Some r, Some s => secp256k1_ecdsa_signature_parse_compact ctx sig (Some (r ++ s))
                              | _, _ => done (sig, false)
                              end);;
              if (ok : bool) then done (sig, true) else
              ' (sig, _) <~ secp256k1_ecdsa_signature_parse_compact ctx sig (Some (repeat 0 64));;
              done (sig, true)
          end
      end
  end.

(** ** Private keys *)

(** The position after the header of the sequence and the version number. *)
Definition privkey_header (privkey : list Z) : option (list Z) :=
  match privkey with
  | tag :: lenb :: privkey =>
      if negb (tag =? 0x30) then None else
      if Z.land lenb 0x80 =? 0 then None else
      let lenb := Z.land lenb (Z.lnot 0x80) in
      if (lenb <? 1) || (2 <? lenb) then None else
      if Z.of_nat (length privkey) <? lenb then None else
      let len := Z.lor (nth (Z.to_nat (lenb - 1)) privkey 0) (if 1 <? lenb then Z.shiftl (nth (Z.to_nat (lenb - 2)) privkey 0) 8 else 0) in
      let privkey := skipn (Z.to_nat lenb) privkey in
      if Z.of_nat (length privkey) <? len then None else
      match privkey with
      | v0 :: v1 :: v2 :: privkey => if (v0 =? 0x02) && (v1 =? 0x01) && (v2 =? 0x01) then Some privkey else None
      | _ => None
      end
  | _ => None
  end.

(** Success and the new contents of [out32]. *)
Definition ec_privkey_import_der (ctx : secp256k1_context) (privkey : list Z) : api (list Z * bool) :=
  let out32 := repeat 0 32 in
  match privkey_header privkey with
  | Some (tag :: len :: privkey) =>
      if negb (tag =? 0x04) then done (out32, false) else
      if 0x20 <? len then done (out32, false) else
      if Z.of_nat (length privkey) <? len then done (out32, false) else
      out32 <- store out32 (Z.to_nat (32 - len)) (firstn (Z.to_nat len) privkey);;
      ok <~ secp256k1_ec_seckey_verify ctx (Some out32);;
      if (ok : bool) then done (out32, true) else done (repeat 0 32, false)
  | _ => done (out32, false)
  end.

Definition export_begin (compressed : bool) : list Z :=
  if compressed then [0x30; 0x81; 0xD3; 0x02; 0x01; 0x01; 0x04; 0x20] else [0x30; 0x82; 0x01; 0x13; 0x02; 0x01; 0x01; 0x04; 0x20].

Definition export_middle (compressed : bool) : list Z :=
  if compressed then [
    0xA0; 0x81; 0x85; 0x30; 0x81; 0x82; 0x02; 0x01; 0x01; 0x30; 0x2C; 0x06; 0x07; 0x2A; 0x86; 0x48;
    0xCE; 0x3D; 0x01; 0x01; 0x02; 0x21; 0x00; 0xFF; 0xFF; 0xFF; 0xFF; 0xFF; 0xFF; 0xFF; 0xFF; 0xFF;
    0xFF; 0xFF; 0xFF; 0xFF; 0xFF; 0xFF; 0xFF; 0xFF; 0xFF; 0xFF; 0xFF; 0xFF; 0xFF; 0xFF; 0xFF; 0xFF;
    0xFF; 0xFF; 0xFE; 0xFF; 0xFF; 0xFC; 0x2F; 0x30; 0x06; 0x04; 0x01; 0x00; 0x04; 0x01; 0x07; 0x04;
    0x21; 0x02; 0x79; 0xBE; 0x66; 0x7E; 0xF9; 0xDC; 0xBB; 0xAC; 0x55; 0xA0; 0x62; 0x95; 0xCE; 0x87;
    0x0B; 0x07; 0x02; 0x9B; 0xFC; 0xDB; 0x2D; 0xCE; 0x28; 0xD9; 0x59; 0xF2; 0x81; 0x5B; 0x16; 0xF8;
    0x17; 0x98; 0x02; 0x21; 0x00; 0xFF; 0xFF; 0xFF; 0xFF; 0xFF; 0xFF; 0xFF; 0xFF; 0xFF; 0xFF; 0xFF;
    0xFF; 0xFF; 0xFF; 0xFF; 0xFE; 0xBA; 0xAE; 0xDC; 0xE6; 0xAF; 0x48; 0xA0; 0x3B; 0xBF; 0xD2; 0x5E;
    0x8C; 0xD0; 0x36; 0x41; 0x41; 0x02; 0x01; 0x01; 0xA1; 0x24; 0x03; 0x22; 0x00]
  else [
    0xA0; 0x81; 0xA5; 0x30; 0x81; 0xA2; 0x02; 0x01; 0x01; 0x30; 0x2C; 0x06; 0x07; 0x2A; 0x86; 0x48;
    0xCE; 0x3D; 0x01; 0x01; 0x02; 0x21; 0x00; 0xFF; 0xFF; 0xFF; 0xFF; 0xFF; 0xFF; 0xFF; 0xFF; 0xFF;
    0xFF; 0xFF; 0xFF; 0xFF; 0xFF; 0xFF; 0xFF; 0xFF; 0xFF; 0xFF; 0xFF; 0xFF; 0xFF; 0xFF; 0xFF; 0xFF;
    0xFF; 0xFF; 0xFE; 0xFF; 0xFF; 0xFC; 0x2F; 0x30; 0x06; 0x04; 0x01; 0x00; 0x04; 0x01; 0x07; 0x04;
    0x41; 0x04; 0x79; 0xBE; 0x66; 0x7E; 0xF9; 0xDC; 0xBB; 0xAC; 0x55; 0xA0; 0x62; 0x95; 0xCE; 0x87;
    0x0B; 0x07; 0x02; 0x9B; 0xFC; 0xDB; 0x2D; 0xCE; 0x28; 0xD9; 0x59; 0xF2; 0x81; 0x5B; 0x16; 0xF8;
    0x17; 0x98; 0x48; 0x3A; 0xDA; 0x77; 0x26; 0xA3; 0xC4; 0x65; 0x5D; 0xA4; 0xFB; 0xFC; 0x0E; 0x11;
    0x08; 0xA8; 0xFD; 0x17; 0xB4; 0x48; 0xA6; 0x85; 0x54; 0x19; 0x9C; 0x47; 0xD0; 0x8F; 0xFB; 0x10;
    0xD4; 0xB8; 0x02; 0x21; 0x00; 0xFF; 0xFF; 0xFF; 0xFF; 0xFF; 0xFF; 0xFF; 0xFF; 0xFF; 0xFF; 0xFF;
    0xFF; 0xFF; 0xFF; 0xFF; 0xFE; 0xBA; 0xAE; 0xDC; 0xE6; 0xAF; 0x48; 0xA0; 0x3B; 0xBF; 0xD2; 0x5E;
    0x8C; 0xD0; 0x36; 0x41; 0x41; 0x02; 0x01; 0x01; 0xA1; 0x44; 0x03; 0x42; 0x00].

(** The buffer, its length and success; [pubkey0] is what the local object held. *)
Definition ec_privkey_export_der (ctx : secp256k1_context) (pubkey0 privkey key32 : list Z) (compressed : bool) : api (list Z * Z * bool) :=
  ' (pubkey, ok) <~ secp256k1_ec_pubkey_create ctx (Some pubkey0) (Some key32);;
  if negb ok then done (privkey, 0, false) else
  let header := export_begin compressed ++ firstn 32 key32 ++ export_middle compressed in
  privkey <- store privkey 0 header;;
  let ptr := length header in
  let pubkeylen := if compressed then 33 else 65 in
  ' (out, pubkeylen, _) <~ secp256k1_ec_pubkey_serialize ctx (Some (skipn ptr privkey)) (Some pubkeylen) pubkey
                             (if compressed then SECP256K1_EC_COMPRESSED else SECP256K1_EC_UNCOMPRESSED);;
  match out, pubkeylen with
  | Some out, Some pubkeylen => done (firstn ptr privkey ++ out, Z.of_nat ptr + pubkeylen, true)
  | _, _ => None
  end.

End Lax.
