(* ===== verification/LaxSpec.v ===== *)
(** * What the lax parsers accept *)

From Stdlib Require Import String ZArith Lia List Bool.
From S2P Require Import Prelude Modulus Bytes Field Curve CurveGroup CurveOrder Group Scalar Ecmult Hash EcmultGen EcmultGenSpec Objects Buffer Ecdsa Secp256k1 Der Signatures EckeySpec ApiSpec ApiKeys ApiSign Lax.
Import ListNotations.

#[local] Open Scope Z_scope.
#[local] Open Scope checked_scope.

(** ** Lengths *)

Lemma lax_length_loop_spec k : forall len input, is_bytes input -> 0 <= len -> (k <= length input)%nat -> len * 256 ^ Z.of_nat k + be_value (firstn k input) < 2 ^ 64 ->
  Returns (lax_length_loop k len input) (fun '(l, rest) => l = len * 256 ^ Z.of_nat k + be_value (firstn k input) /\ rest = skipn k input).
Proof.
  induction k as [|k IH]; intros len input Hb Hl Hk HV; [cbn; split; [change (be_value []) with 0; lia | reflexivity]|].
  destruct input as [|b input]; [cbn in Hk; lia|]. pose proof (Forall_inv Hb) as Hbyte. apply Forall_inv_tail in Hb. cbn [lax_length_loop firstn skipn] in *.
  rewrite be_value_cons, length_firstn, Nat.min_l in * by (cbn [length] in Hk; lia). pose proof (be_value_bound (firstn k input) (Forall_firstn _ k _ Hb)) as HB.
  assert (0 < 256 ^ Z.of_nat k) as Hpow by (apply Z.pow_pos_nonneg; lia). replace (256 ^ Z.of_nat (S k)) with (256 * 256 ^ Z.of_nat k) in * by (rewrite Nat2Z.inj_succ, Z.pow_succ_r by lia; reflexivity).
  unfold is_byte in Hbyte. assert (len * 256 + b < 2 ^ 64) by nia. rewrite Z.shiftl_mul_pow2 by lia. change (2 ^ 8) with 256. unfold u64. rewrite (Z.mod_small (len * 256)), Z.mod_small by lia.
  eapply Returns_mono; [apply IH; [exact Hb | lia | cbn [length] in Hk; lia | nia]|]. intros [l rest] [-> ->]. split; [ring | reflexivity].
Qed.

Lemma skip_zeros_total k : forall input, is_bytes input -> (k <= length input)%nat -> Returns (skip_zeros k input) (fun '(j, rest) => is_bytes rest /\ (j <= k)%nat /\ (j <= length rest <= length input)%nat).
Proof.
  induction k as [|k IH]; intros input Hb Hk; [cbn; repeat split; (exact Hb || lia)|]. destruct input as [|b input]; [cbn in Hk; lia|]. cbn [skip_zeros length] in *.
  destruct (b =? 0); [|cbn; repeat split; (exact Hb || lia)]. eapply Returns_mono; [apply IH; [exact (Forall_inv_tail Hb) | lia]|]. intros [j rest] (H1 & H2 & H3). repeat split; (exact H1 || lia).
Qed.

Lemma byte_high b : is_byte b -> negb (Z.land b 0x80 =? 0) = (128 <=? b).
Proof. intros Hb. rewrite (land_0x80 b Hb). destruct (Z.ltb_spec b 128), (Z.leb_spec 128 b); lia || reflexivity. Qed.

(** Every input of bytes gives a length and a position inside the input, or none. *)
Lemma lax_length_total input : is_bytes input ->
  Returns (lax_length input) (fun o => match o with None => True | Some (l, rest) => 0 <= l /\ is_bytes rest /\ (length rest <= length input)%nat end).
Proof.
  intros Hb. destruct input as [|b input]; [exact I|]. pose proof (Forall_inv Hb) as Hbyte. apply Forall_inv_tail in Hb. unfold lax_length. rewrite (byte_high b Hbyte). unfold is_byte in Hbyte.
  destruct (Z.leb_spec 128 b); [|cbn; repeat split; (exact Hb || lia)]. destruct (Z.ltb_spec (Z.of_nat (length input)) (b - 128)); [exact I|].
  eapply Returns_bind; [apply (skip_zeros_total _ input Hb); lia|]. intros [j rest] (Hr & Hj & Hl). destruct (Nat.leb_spec 8 j); [exact I|].
  pose proof (be_value_bound (firstn j rest) (Forall_firstn _ j _ Hr)) as HB. rewrite length_firstn, Nat.min_l in HB by lia.
  assert (256 ^ Z.of_nat j <= 256 ^ 7) by (apply Z.pow_le_mono_r; lia).
  eapply Returns_bind; [apply (lax_length_loop_spec j 0 rest Hr); [lia | lia |]|]; [change (256 ^ 7) with (2 ^ 56) in *; lia|]. intros [l r] [-> ->].
  cbn. split; [lia|]. split; [apply Forall_skipn, Hr | rewrite length_skipn; lia].
Qed.

Lemma byte_length_small v : 0 < v < 2 ^ 31 -> (byte_length v <= 4)%nat.
Proof.
  intros Hv. destruct (byte_length_bounds v ltac:(lia)) as [_ HB]. destruct (Nat.le_gt_cases (byte_length v) 4); [assumption|].
  assert (256 ^ 4 <= 256 ^ (Z.of_nat (byte_length v) - 1)) by (apply Z.pow_le_mono_r; lia). change (256 ^ 4) with (2 ^ 32) in *. lia.
Qed.

Lemma der_length_bytes v : 0 <= v < 2 ^ 31 -> is_bytes (der_length v).
Proof.
  intros Hv. unfold der_length. destruct (Z.ltb_spec v 128); [repeat constructor; lia|]. pose proof (byte_length_small v ltac:(lia)).
  apply Forall_cons; [unfold is_byte; lia | apply be_bytes_wf].
Qed.

(** The length that DER writes is read back, whatever follows. *)
Lemma lax_length_encoded v rest : 0 <= v < 2 ^ 31 -> is_bytes rest -> lax_length (der_length v ++ rest) = Some (Some (v, rest)).
Proof.
  intros Hv Hb. unfold der_length. destruct (Z.ltb_spec v 128) as [Hs|Hs]; cbn [app lax_length].
  - rewrite byte_high by (unfold is_byte; lia). destruct (Z.leb_spec 128 v); [lia | reflexivity].
  - destruct (byte_length_bounds v ltac:(lia)) as [H0 HB]. set (k := byte_length v) in *.
    assert (k <= 4)%nat as Hk by (apply byte_length_small; lia).
    rewrite byte_high by (unfold is_byte; lia). destruct (Z.leb_spec 128 (0x80 + Z.of_nat k)); [|lia]. replace (0x80 + Z.of_nat k - 0x80) with (Z.of_nat k) by lia.
    assert (Lk : length (be_bytes k v) = k) by apply be_bytes_wf. rewrite length_app, Lk. destruct (Z.ltb_spec (Z.of_nat (k + length rest)) (Z.of_nat k)); [lia|]. rewrite Nat2Z.id.
    assert (Es : skip_zeros k (be_bytes k v ++ rest) = Some (k, be_bytes k v ++ rest)).
    { destruct (leading_byte k v H0 HB) as (b & l & E & Hne). rewrite E in *. destruct k as [|k']; [lia|]. cbn [app skip_zeros]. destruct (Z.eqb_spec b 0); [contradiction | reflexivity]. }
    rewrite Es. cbn [bind ret]. destruct (Nat.leb_spec 8 k); [lia|].
    assert (HF : be_value (firstn k (be_bytes k v ++ rest)) = v) by (rewrite firstn_exact by exact Lk; apply be_value_bytes; split; [lia | apply HB]).
    assert (Hall : is_bytes (be_bytes k v ++ rest)) by (apply Forall_app; split; [apply be_bytes_wf | exact Hb]).
    pose proof (lax_length_loop_spec k 0 (be_bytes k v ++ rest) Hall ltac:(lia) ltac:(rewrite length_app; lia) ltac:(rewrite HF; lia)) as HL.
    destruct (lax_length_loop k 0 (be_bytes k v ++ rest)) as [[l r]|]; [|contradiction]. destruct HL as [-> ->]. cbn [bind ret]. rewrite HF, skipn_exact by exact Lk. rewrite Z.mul_0_l, Z.add_0_l. reflexivity.
Qed.

(** ** Integers *)

Definition lax_tail_ok (input : list Z) (o : option (Z * list Z * list Z)) : Prop :=
  match o with
  | None => True
  | Some (rlen, rpos, rest) => 0 <= rlen <= Z.of_nat (length rpos) /\ is_bytes rpos /\ is_bytes rest
  end.

Lemma lax_integer_total input : is_bytes input -> Returns (lax_integer input) (lax_tail_ok input).
Proof.
  intros Hb. destruct input as [|tag input]; [exact I|]. apply Forall_inv_tail in Hb. unfold lax_integer. destruct (negb (tag =? 0x02)); [exact I|].
  eapply Returns_bind; [exact (lax_length_total input Hb)|]. intros [[l rest]|]; [|intros _; exact I]. intros (H1 & H2 & H3).
  destruct (Z.ltb_spec (Z.of_nat (length rest)) l); [exact I|]. cbn. split; [lia|]. split; [exact H2 | apply Forall_skipn, H2].
Qed.

Lemma lax_integer_encoded c rest : is_bytes c -> is_bytes rest -> Z.of_nat (length c) < 2 ^ 31 ->
  lax_integer (der_tlv 0x02 c ++ rest) = Some (Some (Z.of_nat (length c), c ++ rest, rest)).
Proof.
  intros Hc Hr Hl. unfold der_tlv. cbn [app lax_integer]. change (negb (2 =? 2)) with false. cbv iota. rewrite <- app_assoc, lax_length_encoded by (try (apply Forall_app; split; assumption); lia).
  cbn [bind ret]. rewrite length_app. destruct (Z.ltb_spec (Z.of_nat (length c + length rest)) (Z.of_nat (length c))); [lia|]. rewrite Nat2Z.id, skipn_exact by reflexivity. reflexivity.
Qed.

Lemma lax_value_spec c rest : is_bytes c ->
  Returns (lax_value (Z.of_nat (length c)) (c ++ rest)) (fun o => match o with None => n <= be_value c | Some b => bytes_of_len 32 b /\ be_value b = be_value c end).
Proof.
  intros Hc. unfold lax_value. rewrite Nat2Z.id, skip_zeros_spec. cbn [bind ret]. destruct (Nat.ltb_spec 32 (length (drop_zeros c))) as [Hl|Hl].
  - apply drop_zeros_long; assumption.
  - apply Returns_ret. rewrite firstn_exact by reflexivity. split; [|rewrite be_value_pad; apply drop_zeros_value]. split; [rewrite length_app, repeat_length; lia|]. apply bytes_pad, drop_zeros_bytes, Hc.
Qed.

(** ** Signatures *)

Section Signatures.
Context {F : FieldOps} {L : FieldLaws F} {SO : ScalarOps} {SL : ScalarLaws SO} {Ob : Objects F SO} {OL : ObjectLaws L SL Ob} {M : Memory F SO} {H : HashMemory} {A : ApiMemory}.

(** The object that two scalars written in any number of bytes are parsed into. *)
Definition lax_obj (c d : list Z) : list Z :=
  if (be_value c <? n) && (be_value d <? n) then sig_obj (residue c) (residue d) else zero_signature.

Lemma parse_zero_compact ctx sig : Quiet (secp256k1_ecdsa_signature_parse_compact ctx (Some sig) (Some (repeat 0 64))) (fun '(o, ok) => ok = true /\ o = Some zero_signature).
Proof.
  change (repeat 0 64) with (repeat 0 32 ++ repeat 0 32). eapply Quiet_mono; [exact (signature_parse_compact_ok ctx sig _ _ (be_bytes_wf 32 0) (be_bytes_wf 32 0))|].
  intros [o ok] [-> ->]. split; [reflexivity|]. rewrite zero_signature_obj. reflexivity.
Qed.

(** The end of the parser, on two integers found in the input. *)
Lemma lax_finish ctx sig rlen rpos slen spos : is_bytes rpos -> is_bytes spos -> 0 <= rlen <= Z.of_nat (length rpos) -> 0 <= slen <= Z.of_nat (length spos) ->
  Quiet (r <- lax_value rlen rpos;;
         s <- lax_value slen spos;;
         ' (sig, ok) <~ (match r, s with
                         | Some r, Some s => secp256k1_ecdsa_signature_parse_compact ctx (Some sig) (Some (r ++ s))
                         | _, _ => done (Some sig, false)
                         end);;
         if (ok : bool) then done (sig, true) else
         ' (sig, _) <~ secp256k1_ecdsa_signature_parse_compact ctx sig (Some (repeat 0 64));;
         done (sig, true)) (fun '(o, ok) => ok = true /\ o = Some (lax_obj (firstn (Z.to_nat rlen) rpos) (firstn (Z.to_nat slen) spos))).
Proof.
  intros Hr Hs Lr Ls. assert (HV : forall len pos, is_bytes pos -> 0 <= len <= Z.of_nat (length pos) -> Returns (lax_value len pos) (fun o =>
    match o with None => n <= be_value (firstn (Z.to_nat len) pos) | Some b => bytes_of_len 32 b /\ be_value b = be_value (firstn (Z.to_nat len) pos) end)).
  { intros len pos Hp Hl. pose proof (lax_value_spec (firstn (Z.to_nat len) pos) (skipn (Z.to_nat len) pos) (Forall_firstn _ _ _ Hp)) as HL.
    rewrite firstn_skipn, length_firstn, Nat.min_l, Z2Nat.id in HL by lia. exact HL. }
  set (c := firstn (Z.to_nat rlen) rpos) in *. set (d := firstn (Z.to_nat slen) spos) in *.
  assert (Hzero : forall sig, Quiet (' (sig, _) <~ secp256k1_ecdsa_signature_parse_compact ctx (Some sig) (Some (repeat 0 64));; done (sig, true)) (fun '(o, ok) => ok = true /\ o = Some zero_signature)).
  { intros sig0. eapply Quiet_bind; [exact (parse_zero_compact ctx sig0)|]. intros [o ok] [_ ->]. apply Quiet_done. auto. }
  eapply Quiet_step; [exact (HV _ _ Hr Lr)|]. intros r Hrv. eapply Quiet_step; [exact (HV _ _ Hs Ls)|]. intros s Hsv. fold c in Hrv. fold d in Hsv. unfold lax_obj.
  destruct r as [r|]; [destruct s as [s|]|].
  - destruct Hrv as [Br Er]. destruct Hsv as [Bs Es]. eapply Quiet_bind; [exact (signature_parse_compact_ok ctx sig r s Br Bs)|]. intros [o ok] [Eok ->]. rewrite Er, Es in Eok. rewrite <- Eok.
    destruct ok; [apply Quiet_done; unfold residue; rewrite Er, Es; auto | apply Hzero].
  - rewrite (proj2 (Z.ltb_ge _ _) Hsv), andb_false_r. eapply Quiet_bind; [apply Quiet_done with (Q := fun x => x = (Some sig, false)); reflexivity|]. intros x ->. apply Hzero.
  - rewrite (proj2 (Z.ltb_ge _ _) Hrv). eapply Quiet_bind; [apply Quiet_done with (Q := fun x => x = (Some sig, false)); reflexivity|]. intros x ->. apply Hzero.
Qed.

(** Every input of bytes is parsed into a well-formed object. *)
Lemma parse_der_lax_total ctx sig input : is_bytes input ->
  Quiet (ecdsa_signature_parse_der_lax ctx sig input) (fun '(o, ok) => exists r s, o = Some (sig_obj r s) /\ (ok = false -> r = Zmod.zero /\ s = Zmod.zero)).
Proof.
  intros Hb. unfold ecdsa_signature_parse_der_lax. eapply Quiet_bind; [exact (parse_zero_compact ctx sig)|]. intros [o ok] [_ ->].
  assert (Hfail : forall ok, exists r s, Some zero_signature = Some (sig_obj r s) /\ (ok = false -> r = Zmod.zero /\ s = Zmod.zero))
    by (intros ok'; exists Zmod.zero, Zmod.zero; rewrite zero_signature_obj; auto).
  assert (HS : match lax_sequence input with None => True | Some rest => is_bytes rest end).
  { destruct input as [|tag [|lenbyte input]]; try exact I. cbn [lax_sequence]. do 2 apply Forall_inv_tail in Hb. destruct (negb (tag =? 0x30)); [exact I|]. destruct (negb _); [|exact Hb].
    destruct (_ <? _); [exact I | apply Forall_skipn, Hb]. }
  destruct (lax_sequence input) as [rest|]; [|apply Quiet_done, Hfail].
  eapply Quiet_step; [exact (lax_integer_total rest HS)|]. intros [[[rlen rpos] rest']|]; [|intros _; apply Quiet_done, Hfail]. intros (H1 & H2 & H3).
  eapply Quiet_step; [exact (lax_integer_total rest' H3)|]. intros [[[slen spos] rest'']|]; [|intros _; apply Quiet_done, Hfail]. intros (H4 & H5 & _).
  eapply Quiet_mono; [exact (lax_finish ctx _ rlen rpos slen spos H2 H5 H1 H4)|]. intros [o ok'] [-> ->]. unfold lax_obj.
  destruct (_ && _); [eexists _, _; split; [reflexivity | discriminate] | apply Hfail].
Qed.

Lemma lax_sequence_encoded c d g : is_bytes c -> is_bytes d -> is_bytes g -> Z.of_nat (length (der_signature c d)) < 2 ^ 31 ->
  lax_sequence (der_signature c d ++ g) = Some (der_tlv 0x02 c ++ der_tlv 0x02 d ++ g).
Proof.
  intros Hc Hd Hg Hl. unfold der_signature, der_tlv at 1. set (body := der_tlv 0x02 c ++ der_tlv 0x02 d) in *. assert (Z.of_nat (length body) < 2 ^ 31) as HB.
  { unfold der_signature, der_tlv at 1 in Hl. fold body in Hl. cbn [length] in Hl. rewrite length_app in Hl. lia. }
  replace (der_tlv 0x02 c ++ der_tlv 0x02 d ++ g) with (body ++ g) by (unfold body; rewrite <- app_assoc; reflexivity). clearbody body. set (v := Z.of_nat (length body)) in *.
  assert (0 <= v) as Hv by (unfold v; lia). clearbody v. unfold der_length. destruct (Z.ltb_spec v 128) as [Hs|Hs]; cbn [app lax_sequence]; change (negb (48 =? 48)) with false; cbv iota.
  - rewrite byte_high by (unfold is_byte; lia). destruct (Z.leb_spec 128 v); [lia | reflexivity].
  - destruct (byte_length_bounds v ltac:(lia)) as [H0 HB']. set (k := byte_length v) in *. assert (Lk : length (be_bytes k v) = k) by apply be_bytes_wf.
    assert (k <= 4)%nat as Hk by (apply byte_length_small; lia).
    rewrite byte_high by (unfold is_byte; lia). destruct (Z.leb_spec 128 (0x80 + Z.of_nat k)); [|lia]. replace (0x80 + Z.of_nat k - 0x80) with (Z.of_nat k) by lia.
    rewrite <- app_assoc, length_app, Lk. destruct (Z.ltb_spec (Z.of_nat (k + length (body ++ g))) (Z.of_nat k)); [lia|]. rewrite Nat2Z.id, skipn_exact by exact Lk. reflexivity.
Qed.

(** Whatever the contents of the two integers are, minimal or not, negative or empty,
    they are read as the nonnegative integers their bytes write, and bytes after the
    signature are ignored. *)
Lemma parse_der_lax_encoded ctx sig c d g : is_bytes c -> is_bytes d -> is_bytes g -> Z.of_nat (length (der_signature c d)) < 2 ^ 31 ->
  Quiet (ecdsa_signature_parse_der_lax ctx sig (der_signature c d ++ g)) (fun '(o, ok) => ok = true /\ o = Some (lax_obj c d)).
Proof.
  intros Hc Hd Hg Hl. unfold ecdsa_signature_parse_der_lax. eapply Quiet_bind; [exact (parse_zero_compact ctx sig)|]. intros [o ok] [_ ->].
  rewrite (lax_sequence_encoded c d g Hc Hd Hg Hl).
  assert (Z.of_nat (length c) < 2 ^ 31 /\ Z.of_nat (length d) < 2 ^ 31) as [Lc Ld].
  { unfold der_signature, der_tlv in Hl. cbn [length] in Hl. rewrite !length_app in Hl. cbn [length] in Hl. rewrite !length_app in Hl. lia. }
  assert (Hdg : is_bytes (der_tlv 0x02 d ++ g)). { apply Forall_app. split; [|exact Hg]. unfold der_tlv. apply Forall_cons; [unfold is_byte; lia|]. apply Forall_app. split; [|exact Hd]. apply der_length_bytes. lia. }
  rewrite lax_integer_encoded by assumption. cbn [bind ret]. rewrite lax_integer_encoded by assumption. cbn [bind ret].
  eapply Quiet_mono; [apply (lax_finish ctx _ (Z.of_nat (length c)) (c ++ der_tlv 0x02 d ++ g) (Z.of_nat (length d)) (d ++ g)); try (apply Forall_app; split; assumption); rewrite length_app; lia|].
  rewrite !Nat2Z.id, !firstn_exact by reflexivity. auto.
Qed.

End Signatures.

(** ** Private keys *)

Section PrivateKeys.
Context {F : FieldOps} {L : FieldLaws F} {SO : ScalarOps} {SL : ScalarLaws SO} {Ob : Objects F SO} {OL : ObjectLaws L SL Ob} {M : Memory F SO} {H : HashMemory} {A : ApiMemory}.

Lemma privkey_header_bytes privkey : is_bytes privkey -> match privkey_header privkey with None => True | Some rest => is_bytes rest end.
Proof.
  intros Hb. destruct privkey as [|tag [|lenb privkey]]; try exact I. do 2 apply Forall_inv_tail in Hb. cbn [privkey_header]. destruct (negb (tag =? 0x30)); [exact I|].
  destruct (Z.land lenb 0x80 =? 0); [exact I|]. set (k := Z.land lenb (Z.lnot 0x80)). destruct ((k <? 1) || (2 <? k)); [exact I|]. destruct (_ <? k); [exact I|]. destruct (_ <? Z.lor _ _); [exact I|].
  pose proof (Forall_skipn _ (Z.to_nat k) _ Hb) as Hs. destruct (skipn (Z.to_nat k) privkey) as [|v0 [|v1 [|v2 rest]]]; try exact I. destruct (_ && _); [|exact I]. do 3 apply Forall_inv_tail in Hs. exact Hs.
Qed.

(** Every input of bytes gives a valid secret or 32 zero bytes. *)
Lemma privkey_import_total ctx privkey : is_bytes privkey ->
  Quiet (ec_privkey_import_der ctx privkey) (fun '(o, ok) => bytes_of_len 32 o /\ if ok then seckey_ok o = true else o = repeat 0 32).
Proof.
  intros Hb. assert (Hfail : bytes_of_len 32 (repeat 0 32) /\ repeat 0 32 = repeat 0 32) by (split; [exact (be_bytes_wf 32 0) | reflexivity]).
  unfold ec_privkey_import_der. pose proof (privkey_header_bytes privkey Hb) as HH. destruct (privkey_header privkey) as [[|tag [|len rest]]|]; try (apply Quiet_done, Hfail).
  destruct (negb (tag =? 0x04)); [apply Quiet_done, Hfail|]. destruct (Z.ltb_spec 0x20 len); [apply Quiet_done, Hfail|]. destruct (Z.ltb_spec (Z.of_nat (length rest)) len); [apply Quiet_done, Hfail|].
  apply Forall_inv_tail in HH. pose proof (Forall_inv HH) as Hlen. apply Forall_inv_tail in HH. unfold is_byte in Hlen.
  eapply Quiet_step with (P := bytes_of_len 32).
  - apply store_ok; rewrite length_firstn, Nat.min_l by lia; [rewrite repeat_length; lia|].
    split; [rewrite !length_app, !length_firstn, length_skipn, repeat_length; lia|]. pose proof (proj2 (proj1 Hfail)) as HZ. apply Forall_app. split; [apply Forall_firstn, HZ|].
    apply Forall_app. split; [apply Forall_firstn, HH | apply Forall_skipn, HZ].
  - intros o Ho. eapply Quiet_bind; [exact (ec_seckey_verify_ok ctx o Ho)|]. intros ok ->. destruct (seckey_ok o) eqn:E; apply Quiet_done; [auto | exact Hfail].
Qed.

Definition export_size (compressed : bool) : nat := if compressed then 214 else 279.

(** What is written for a key: the header, the secret, the parameters of the curve and
    the public key. *)
Definition exported (compressed : bool) (key : list Z) (x y : Fp) : list Z :=
  export_begin compressed ++ key ++ export_middle compressed ++ encode_point compressed x y.

Lemma length_exported c key x y : length key = 32%nat -> length (exported c key x y) = export_size c.
Proof. intros Hk. unfold exported. rewrite !length_app, length_encode_point, Hk. destruct c; reflexivity. Qed.

Lemma privkey_export_ok ctx pk0 buf key c : sign_ready ctx -> bytes_of_len 32 key -> (export_size c <= length buf)%nat ->
  Quiet (ec_privkey_export_der ctx pk0 buf key c) (fun '(o, l, ok) => ok = seckey_ok key /\
    if ok then exists x y, fmul (residue key) G = Affine x y /\ l = Z.of_nat (export_size c) /\ o = exported c key x y ++ skipn (export_size c) buf else l = 0 /\ o = buf).
Proof.
  intros Hs Hk Hl. unfold ec_privkey_export_der. eapply Quiet_bind; [exact (ec_pubkey_create_ok ctx pk0 key Hs Hk)|]. intros [o ok] [-> HP].
  destruct (seckey_ok key); [|apply Quiet_done; auto]. destruct HP as (pk & -> & Hpk). pose proof Hpk as [(x & y & EP & _) _]. rewrite EP in Hpk. cbn [negb]. rewrite (firstn_bytes 32 key Hk).
  set (header := export_begin c ++ key ++ export_middle c). assert (Lh : (length header + (if c then 33 else 65) = export_size c)%nat)
    by (unfold header; rewrite !length_app, (proj1 Hk); destruct c; reflexivity).
  eapply Quiet_step with (P := fun b => b = header ++ skipn (length header) buf); [apply store_ok; [destruct c; lia | reflexivity]|]. intros b ->. rewrite skipn_exact, firstn_exact by reflexivity.
  pose proof (ec_pubkey_serialize_ok ctx (skipn (length header) buf) (if c then 33 else 65) pk x y c Hpk) as HS. cbv zeta in HS. rewrite length_encode_point, length_skipn in HS.
  eapply Quiet_bind; [apply HS; destruct c; lia|]. intros [[out l] ok] (_ & -> & ->). apply Quiet_done. split; [reflexivity|]. exists x, y. split; [exact EP|]. split; [destruct c; lia|].
  replace (Z.to_nat (if c then 33 else 65)) with (if c then 33 else 65)%nat by (destruct c; reflexivity). rewrite Nat.sub_diag, skipn_skipn. cbn [repeat app].
  replace ((if c then 33 else 65) + length header)%nat with (export_size c) by lia. unfold exported, header. rewrite <- !app_assoc. reflexivity.
Qed.

Lemma privkey_import_exported ctx key x y c : seckey_of key (residue key) ->
  Quiet (ec_privkey_import_der ctx (exported c key x y)) (fun '(o, ok) => ok = true /\ o = key).
Proof.
  intros Hk. pose proof Hk as ([Lk Bk] & _ & _). unfold ec_privkey_import_der, exported.
  assert (EH : privkey_header (export_begin c ++ key ++ export_middle c ++ encode_point c x y) = Some (0x04 :: 0x20 :: key ++ export_middle c ++ encode_point c x y)).
  { assert (LL : length (key ++ export_middle c ++ encode_point c x y) = if c then 206%nat else 270%nat) by (rewrite !length_app, Lk, length_encode_point; destruct c; reflexivity).
    set (t := key ++ export_middle c ++ encode_point c x y) in *. clearbody t. destruct c; cbn [export_begin app]; unfold privkey_header.
    - change (Z.land 0x81 (Z.lnot 0x80)) with 1. change (Z.to_nat 1) with 1%nat. cbn [skipn length]. rewrite LL. reflexivity.
    - change (Z.land 0x82 (Z.lnot 0x80)) with 2. change (Z.to_nat 2) with 2%nat. cbn [skipn length]. rewrite LL. reflexivity. }
  rewrite EH. change (negb (4 =? 4)) with false. change (32 <? 32) with false. cbv iota. rewrite (proj2 (Z.ltb_ge _ _)) by (rewrite length_app, Lk; lia).
  change (Z.to_nat (32 - 32)) with 0%nat. rewrite (firstn_exact 32 key _ Lk). eapply Quiet_step with (P := fun b => b = key).
  - apply store_ok; [rewrite Lk; cbn; lia|]. rewrite Lk. cbn [firstn app Nat.add]. rewrite skipn_all2 by (rewrite repeat_length; lia). apply app_nil_r.
  - intros b ->. eapply Quiet_bind; [exact (ec_seckey_verify_ok ctx key (conj Lk Bk))|]. intros ok ->. rewrite (seckey_of_ok _ _ Hk). apply Quiet_done. auto.
Qed.

End PrivateKeys.
