(* ===== verification/FieldTheorems.v ===== *)
(** * Main theorems on the field

    The two representations, the interface they share and the algorithms of
    [field_impl.h]. *)

From Stdlib Require Import ZArith Lia List Bool.
From S2P Require Import Prelude Modulus Bytes Field5x52 Field10x26 Field FieldReprs FieldImpl.
Import ListNotations.

#[local] Open Scope Z_scope.
#[local] Open Scope checked_scope.

(** ** Expressions and concrete elements *)

(** Expressions over the operations of [field.h]. *)
Inductive fe_expr : Type :=
| FeInt (k : Z)
| FeBytes (b : list Z)
| FeNegate (e : fe_expr)
| FeMulInt (e : fe_expr) (k : Z)
| FeAdd (e1 e2 : fe_expr)
| FeMul (e1 e2 : fe_expr)
| FeSqr (e : fe_expr)
| FeWeak (e : fe_expr)
| FeInv (e : fe_expr)
| FeCmov (e1 e2 : fe_expr) (flag : bool).

(** The magnitude of the result, if the expression keeps the rules of the header. *)
Fixpoint fe_expr_mag (e : fe_expr) : option Z :=
  match e with
  | FeInt k => if (0 <=? k) && (k <? 2 ^ 26) then Some 1 else None
  | FeBytes b =>
      if (length b =? 32)%nat && forallb (fun x => (0 <=? x) && (x <? 256)) b && (be_value b <? p) then Some 1 else None
  | FeNegate e => m <- fe_expr_mag e;; if m <=? 31 then Some (m + 1) else None
  | FeMulInt e k => m <- fe_expr_mag e;; if (0 <=? k) && (m * k <=? 32) then Some (m * k) else None
  | FeAdd e1 e2 => m1 <- fe_expr_mag e1;; m2 <- fe_expr_mag e2;; if m1 + m2 <=? 32 then Some (m1 + m2) else None
  | FeMul e1 e2 => m1 <- fe_expr_mag e1;; m2 <- fe_expr_mag e2;; if (m1 <=? 8) && (m2 <=? 8) then Some 1 else None
  | FeSqr e => m <- fe_expr_mag e;; if m <=? 8 then Some 1 else None
  | FeWeak e => m <- fe_expr_mag e;; if m <=? 31 then Some 1 else None
  | FeInv e => m <- fe_expr_mag e;; if m <=? 8 then Some 1 else None
  | FeCmov e1 e2 _ => m1 <- fe_expr_mag e1;; m2 <- fe_expr_mag e2;; Some (Z.max m1 m2)
  end.

(** Its value in the field. *)
Fixpoint fe_expr_value (e : fe_expr) : Fp :=
  match e with
  | FeInt k => toFp k
  | FeBytes b => toFp (be_value b)
  | FeNegate e => (- fe_expr_value e)%Zmod
  | FeMulInt e k => (fe_expr_value e * toFp k)%Zmod
  | FeAdd e1 e2 => (fe_expr_value e1 + fe_expr_value e2)%Zmod
  | FeMul e1 e2 => (fe_expr_value e1 * fe_expr_value e2)%Zmod
  | FeSqr e => (fe_expr_value e * fe_expr_value e)%Zmod
  | FeWeak e => fe_expr_value e
  | FeInv e => Zmod.inv (fe_expr_value e)
  | FeCmov e1 e2 flag => if flag then fe_expr_value e2 else fe_expr_value e1
  end.

(** Its evaluation by a representation. *)
Fixpoint fe_expr_run {F : FieldOps} (e : fe_expr) : checked secp256k1_fe :=
  match e with
  | FeInt k => secp256k1_fe_set_int k
  | FeBytes b => ' (_, a) <- secp256k1_fe_set_b32 secp256k1_fe_clear b;; ret a
  | FeNegate e => a <- fe_expr_run e;; m <- fe_expr_mag e;; secp256k1_fe_negate a m
  | FeMulInt e k => a <- fe_expr_run e;; secp256k1_fe_mul_int a k
  | FeAdd e1 e2 => a <- fe_expr_run e1;; b <- fe_expr_run e2;; secp256k1_fe_add a b
  | FeMul e1 e2 => a <- fe_expr_run e1;; b <- fe_expr_run e2;; secp256k1_fe_mul a b
  | FeSqr e => a <- fe_expr_run e;; secp256k1_fe_sqr a
  | FeWeak e => a <- fe_expr_run e;; secp256k1_fe_normalize_weak a
  | FeInv e => a <- fe_expr_run e;; secp256k1_fe_inv a
  | FeCmov e1 e2 flag => a <- fe_expr_run e1;; b <- fe_expr_run e2;; ret (secp256k1_fe_cmov a b (Z.b2z flag))
  end.

Definition fe_expr_bytes {F : FieldOps} (e : fe_expr) : checked (list Z) :=
  a <- fe_expr_run e;;
  a <- secp256k1_fe_normalize a;;
  secp256k1_fe_get_b32 a.

(** The largest elements of magnitude 8. *)
Definition full_10x26 : Field10x26.secp256k1_fe :=
  let x := 16 * 0x3FFFFFF in
  Field10x26.mk_fe (Field10x26.L10 x x x x x x x x x (16 * 0x03FFFFF)) 8 false.

Definition full_5x52 : Field5x52.secp256k1_fe :=
  let x := 16 * 0xFFFFFFFFFFFFF in
  Field5x52.mk_fe (Field5x52.L5 x x x x (16 * 0x0FFFFFFFFFFFF)) 8 false.

(** ** Normal forms are unique *)

Lemma fe26_unique a b : Field10x26.fe_inv a -> Field10x26.fe_inv b ->
  Field10x26.normalized a = true -> Field10x26.normalized b = true ->
  Field10x26.magnitude a = Field10x26.magnitude b ->
  Field10x26.limbs_Z (Field10x26.fe_n a) = Field10x26.limbs_Z (Field10x26.fe_n b) -> a = b.
Proof.
  intros Ha Hb Hna Hnb Hm E. destruct (fe26_normalized_Z a Ha Hna) as [Hla _], (fe26_normalized_Z b Hb Hnb) as [Hlb _].
  destruct a as [[a0 a1 a2 a3 a4 a5 a6 a7 a8 a9] ma na], b as [[b0 b1 b2 b3 b4 b5 b6 b7 b8 b9] mb nb].
  unfold Field10x26.limbs_Z, Field10x26.limbs_mag in *. cbn in Hna, Hnb, Hm, E, Hla, Hlb. subst.
  assert (a0 + 0x4000000 * (a1 + 0x4000000 * (a2 + 0x4000000 * (a3 + 0x4000000 * (a4 + 0x4000000 * (a5 + 0x4000000 * (a6 + 0x4000000 * (a7 + 0x4000000 * (a8 + 0x4000000 * a9)))))))) =
    b0 + 0x4000000 * (b1 + 0x4000000 * (b2 + 0x4000000 * (b3 + 0x4000000 * (b4 + 0x4000000 * (b5 + 0x4000000 * (b6 + 0x4000000 * (b7 + 0x4000000 * (b8 + 0x4000000 * b9))))))))) as E' by lia.
  repeat (apply low_digit in E' as [-> E']; [|lia|lia]). rewrite E'. reflexivity.
Qed.

Lemma fe52_unique a b : Field5x52.fe_inv a -> Field5x52.fe_inv b ->
  Field5x52.normalized a = true -> Field5x52.normalized b = true ->
  Field5x52.magnitude a = Field5x52.magnitude b ->
  Field5x52.limbs_Z (Field5x52.fe_n a) = Field5x52.limbs_Z (Field5x52.fe_n b) -> a = b.
Proof.
  intros Ha Hb Hna Hnb Hm E. destruct (fe52_normalized_Z a Ha Hna) as [Hla _], (fe52_normalized_Z b Hb Hnb) as [Hlb _].
  destruct a as [[a0 a1 a2 a3 a4] ma na], b as [[b0 b1 b2 b3 b4] mb nb].
  unfold Field5x52.limbs_Z, Field5x52.limbs_mag in *. cbn in Hna, Hnb, Hm, E, Hla, Hlb. subst.
  assert (a0 + 0x10000000000000 * (a1 + 0x10000000000000 * (a2 + 0x10000000000000 * (a3 + 0x10000000000000 * a4))) =
    b0 + 0x10000000000000 * (b1 + 0x10000000000000 * (b2 + 0x10000000000000 * (b3 + 0x10000000000000 * b4)))) as E' by lia.
  repeat (apply low_digit in E' as [-> E']; [|lia|lia]). rewrite E'. reflexivity.
Qed.

(** ** Multiplication *)

(** In the 10x26 representation, the product and the square of elements of
    magnitude at most 8 pass every assertion of the code and are elements of
    magnitude 1 that stand for the product and the square modulo the prime. *)
Theorem fe26_mul_correct a b : Field10x26.fe_inv a -> Field10x26.fe_inv b ->
  Field10x26.magnitude a <= 8 -> Field10x26.magnitude b <= 8 ->
  Returns (Field10x26.secp256k1_fe_mul a b) (fun r => Field10x26.fe_inv r /\ Field10x26.magnitude r = 1 /\
    Field10x26.limbs_Z (Field10x26.fe_n r) mod p =
    (Field10x26.limbs_Z (Field10x26.fe_n a) * Field10x26.limbs_Z (Field10x26.fe_n b)) mod p) /\
  Returns (Field10x26.secp256k1_fe_sqr a) (fun r => Field10x26.fe_inv r /\ Field10x26.magnitude r = 1 /\
    Field10x26.limbs_Z (Field10x26.fe_n r) mod p = (Field10x26.limbs_Z (Field10x26.fe_n a) ^ 2) mod p).
Proof.
  intros Ha Hb Hma Hmb. rewrite Z.pow_2_r. split;
  (eapply Returns_mono; [first [apply (fe26_mul_spec a b) | apply (fe26_sqr_spec a)]; assumption|]);
  intros r (Hr & Hm & _ & E); (split; [exact Hr|]; split; [exact Hm|]);
  unfold Field10x26.fe_val in E; rewrite <- toFp_mul in E; apply toFp_eq, E.
Qed.

Lemma full_10x26_inv : Field10x26.fe_inv full_10x26.
Proof. split; [vm_compute; split; discriminate|]. split; [|discriminate]. vm_compute. repeat split; discriminate. Qed.

Lemma fe26_mul_witness :
  Returns (Field10x26.secp256k1_fe_mul full_10x26 full_10x26) (fun r => Field10x26.magnitude r = 1) /\
  Returns (Field10x26.secp256k1_fe_sqr full_10x26) (fun r => Field10x26.magnitude r = 1).
Proof.
  destruct (fe26_mul_correct full_10x26 full_10x26 full_10x26_inv full_10x26_inv) as [H H'];
    [discriminate | discriminate|].
  split; [exact (Returns_mono _ _ _ H (fun r Hr => proj1 (proj2 Hr))) | exact (Returns_mono _ _ _ H' (fun r Hr => proj1 (proj2 Hr)))].
Defined.

(** In the 5x52 representation, the product and the square of elements of
    magnitude at most 8 pass every assertion of the code and are elements of
    magnitude 1 that stand for the product and the square modulo the prime. *)
Theorem fe52_mul_correct a b : Field5x52.fe_inv a -> Field5x52.fe_inv b ->
  Field5x52.magnitude a <= 8 -> Field5x52.magnitude b <= 8 ->
  Returns (Field5x52.secp256k1_fe_mul a b) (fun r => Field5x52.fe_inv r /\ Field5x52.magnitude r = 1 /\
    Field5x52.limbs_Z (Field5x52.fe_n r) mod p =
    (Field5x52.limbs_Z (Field5x52.fe_n a) * Field5x52.limbs_Z (Field5x52.fe_n b)) mod p) /\
  Returns (Field5x52.secp256k1_fe_sqr a) (fun r => Field5x52.fe_inv r /\ Field5x52.magnitude r = 1 /\
    Field5x52.limbs_Z (Field5x52.fe_n r) mod p = (Field5x52.limbs_Z (Field5x52.fe_n a) ^ 2) mod p).
Proof.
  intros Ha Hb Hma Hmb. rewrite Z.pow_2_r. split;
  (eapply Returns_mono; [first [apply (fe52_mul_spec a b) | apply (fe52_sqr_spec a)]; assumption|]);
  intros r (Hr & Hm & _ & E); (split; [exact Hr|]; split; [exact Hm|]);
  unfold Field5x52.fe_val in E; rewrite <- toFp_mul in E; apply toFp_eq, E.
Qed.

Lemma full_5x52_inv : Field5x52.fe_inv full_5x52.
Proof. split; [vm_compute; split; discriminate|]. split; [|discriminate]. vm_compute. repeat split; discriminate. Qed.

Lemma fe52_mul_witness :
  Returns (Field5x52.secp256k1_fe_mul full_5x52 full_5x52) (fun r => Field5x52.magnitude r = 1) /\
  Returns (Field5x52.secp256k1_fe_sqr full_5x52) (fun r => Field5x52.magnitude r = 1).
Proof.
  destruct (fe52_mul_correct full_5x52 full_5x52 full_5x52_inv full_5x52_inv) as [H H'];
    [discriminate | discriminate|].
  split; [exact (Returns_mono _ _ _ H (fun r Hr => proj1 (proj2 Hr))) | exact (Returns_mono _ _ _ H' (fun r Hr => proj1 (proj2 Hr)))].
Defined.

(** ** Normalization *)

(** In the 10x26 representation, the constant-time and the variable-time
    normalization of an element of magnitude at most 31 give the same element, the
    one whose limbs write the value modulo the prime; the weak normalization keeps
    the value modulo the prime and has magnitude 1; and both tests for zero tell
    whether the normalization is zero. *)
Lemma fe26_normalize_all a : Field10x26.fe_inv a -> Field10x26.magnitude a < 32 ->
  exists r w z, Field10x26.secp256k1_fe_normalize a = Some r /\ Field10x26.secp256k1_fe_normalize_var a = Some r /\
    Field10x26.fe_inv r /\ Field10x26.normalized r = true /\
    Field10x26.limbs_Z (Field10x26.fe_n r) = Field10x26.limbs_Z (Field10x26.fe_n a) mod p /\
    Field10x26.secp256k1_fe_normalize_weak a = Some w /\ Field10x26.fe_inv w /\ Field10x26.magnitude w = 1 /\
    Field10x26.limbs_Z (Field10x26.fe_n w) mod p = Field10x26.limbs_Z (Field10x26.fe_n a) mod p /\
    Field10x26.secp256k1_fe_normalizes_to_zero a = Some z /\ Field10x26.secp256k1_fe_normalizes_to_zero_var a = Some z /\
    z = (Field10x26.limbs_Z (Field10x26.fe_n r) =? 0).
Proof.
  intros Ha Hm.
  destruct (proj1 (Returns_exists _ _) (fe26_normalize_spec a Ha Hm)) as (r & Er & Hr & Hmr & Hnr & Hz).
  destruct (proj1 (Returns_exists _ _) (fe26_normalize_var_spec a Ha Hm)) as (v & Ev & Hv & Hmv & Hnv & Hzv).
  destruct (proj1 (Returns_exists _ _) (fe26_normalize_weak_spec a Ha Hm)) as (w & Ew & Hw & Hmw & _ & Hzw).
  destruct (proj1 (Returns_exists _ _) (fe26_normalizes_to_zero_spec a Ha Hm)) as (z & Ez & Hzz).
  destruct (proj1 (Returns_exists _ _) (fe26_normalizes_to_zero_var_spec a Ha Hm)) as (y & Ey & Hy).
  exists r, w, z. rewrite (fe26_unique v r) in Ev by congruence. apply toFp_eq in Hzw.
  assert (y = z) as -> by (apply eq_true_iff_eq; tauto). do 10 (split; [assumption|]). split; [assumption|].
  apply eq_true_iff_eq. unfold Field10x26.fe_val in Hzz. rewrite Hzz, toFp_zero, Z.eqb_eq, Hz. reflexivity.
Qed.

(** In the 5x52 representation, the constant-time and the variable-time
    normalization of an element of magnitude at most 2047 give the same element,
    the one whose limbs write the value modulo the prime; the weak normalization
    keeps the value modulo the prime and has magnitude 1; and both tests for zero
    tell whether the normalization is zero. *)
Lemma fe52_normalize_all a : Field5x52.fe_inv a -> Field5x52.magnitude a < 2048 ->
  exists r w z, Field5x52.secp256k1_fe_normalize a = Some r /\ Field5x52.secp256k1_fe_normalize_var a = Some r /\
    Field5x52.fe_inv r /\ Field5x52.normalized r = true /\
    Field5x52.limbs_Z (Field5x52.fe_n r) = Field5x52.limbs_Z (Field5x52.fe_n a) mod p /\
    Field5x52.secp256k1_fe_normalize_weak a = Some w /\ Field5x52.fe_inv w /\ Field5x52.magnitude w = 1 /\
    Field5x52.limbs_Z (Field5x52.fe_n w) mod p = Field5x52.limbs_Z (Field5x52.fe_n a) mod p /\
    Field5x52.secp256k1_fe_normalizes_to_zero a = Some z /\ Field5x52.secp256k1_fe_normalizes_to_zero_var a = Some z /\
    z = (Field5x52.limbs_Z (Field5x52.fe_n r) =? 0).
Proof.
  intros Ha Hm.
  destruct (proj1 (Returns_exists _ _) (fe52_normalize_spec a Ha Hm)) as (r & Er & Hr & Hmr & Hnr & Hz).
  destruct (proj1 (Returns_exists _ _) (fe52_normalize_var_spec a Ha Hm)) as (v & Ev & Hv & Hmv & Hnv & Hzv).
  destruct (proj1 (Returns_exists _ _) (fe52_normalize_weak_spec a Ha Hm)) as (w & Ew & Hw & Hmw & _ & Hzw).
  destruct (proj1 (Returns_exists _ _) (fe52_normalizes_to_zero_spec a Ha Hm)) as (z & Ez & Hzz).
  destruct (proj1 (Returns_exists _ _) (fe52_normalizes_to_zero_var_spec a Ha Hm)) as (y & Ey & Hy).
  exists r, w, z. rewrite (fe52_unique v r) in Ev by congruence. apply toFp_eq in Hzw.
  assert (y = z) as -> by (apply eq_true_iff_eq; tauto). do 10 (split; [assumption|]). split; [assumption|].
  apply eq_true_iff_eq. unfold Field5x52.fe_val in Hzz. rewrite Hzz, toFp_zero, Z.eqb_eq, Hz. reflexivity.
Qed.

Lemma fe26_normalize_canonical a a' : Field10x26.fe_inv a -> Field10x26.fe_inv a' -> Field10x26.magnitude a < 32 -> Field10x26.magnitude a' < 32 ->
  Field10x26.secp256k1_fe_normalize a = Field10x26.secp256k1_fe_normalize a' <-> Field10x26.limbs_Z (Field10x26.fe_n a) mod p = Field10x26.limbs_Z (Field10x26.fe_n a') mod p.
Proof.
  intros Ha Ha' Hm Hm'. destruct (proj1 (Returns_exists _ _) (fe26_normalize_spec a Ha Hm)) as (r & -> & Hr & Hmr & Hnr & Hz).
  destruct (proj1 (Returns_exists _ _) (fe26_normalize_spec a' Ha' Hm')) as (r' & -> & Hr' & Hmr' & Hnr' & Hz'). split; [intros [= ->]; congruence|].
  intros E. f_equal. apply fe26_unique; congruence.
Qed.

Lemma fe52_normalize_canonical a a' : Field5x52.fe_inv a -> Field5x52.fe_inv a' -> Field5x52.magnitude a < 2048 -> Field5x52.magnitude a' < 2048 ->
  Field5x52.secp256k1_fe_normalize a = Field5x52.secp256k1_fe_normalize a' <-> Field5x52.limbs_Z (Field5x52.fe_n a) mod p = Field5x52.limbs_Z (Field5x52.fe_n a') mod p.
Proof.
  intros Ha Ha' Hm Hm'. destruct (proj1 (Returns_exists _ _) (fe52_normalize_spec a Ha Hm)) as (r & -> & Hr & Hmr & Hnr & Hz).
  destruct (proj1 (Returns_exists _ _) (fe52_normalize_spec a' Ha' Hm')) as (r' & -> & Hr' & Hmr' & Hnr' & Hz'). split; [intros [= ->]; congruence|].
  intros E. f_equal. apply fe52_unique; congruence.
Qed.

(** C38: normalization in both representations, for every element of a magnitude below
    the largest one that [secp256k1_fe_verify] accepts (below 32 and below 2048): no
    assertion fails, the constant-time and the variable-time normalization give the same
    element, the one whose limbs write the value modulo the prime; the weak normalization
    keeps the value modulo the prime and has magnitude 1; both tests for zero tell whether
    the normalization is zero; and two elements have the same normal form exactly when
    they stand for the same residue. *)
Theorem fe_normalize_correct (a a' : Field10x26.secp256k1_fe) (b b' : Field5x52.secp256k1_fe) :
  Field10x26.fe_inv a -> Field10x26.fe_inv a' -> Field10x26.magnitude a < 32 -> Field10x26.magnitude a' < 32 ->
  Field5x52.fe_inv b -> Field5x52.fe_inv b' -> Field5x52.magnitude b < 2048 -> Field5x52.magnitude b' < 2048 ->
  (exists r w z, Field10x26.secp256k1_fe_normalize a = Some r /\ Field10x26.secp256k1_fe_normalize_var a = Some r /\
     Field10x26.fe_inv r /\ Field10x26.normalized r = true /\
     Field10x26.limbs_Z (Field10x26.fe_n r) = Field10x26.limbs_Z (Field10x26.fe_n a) mod p /\
     Field10x26.secp256k1_fe_normalize_weak a = Some w /\ Field10x26.fe_inv w /\ Field10x26.magnitude w = 1 /\
     Field10x26.limbs_Z (Field10x26.fe_n w) mod p = Field10x26.limbs_Z (Field10x26.fe_n a) mod p /\
     Field10x26.secp256k1_fe_normalizes_to_zero a = Some z /\ Field10x26.secp256k1_fe_normalizes_to_zero_var a = Some z /\
     z = (Field10x26.limbs_Z (Field10x26.fe_n r) =? 0)) /\
  (Field10x26.secp256k1_fe_normalize a = Field10x26.secp256k1_fe_normalize a' <-> Field10x26.limbs_Z (Field10x26.fe_n a) mod p = Field10x26.limbs_Z (Field10x26.fe_n a') mod p) /\
  (exists r w z, Field5x52.secp256k1_fe_normalize b = Some r /\ Field5x52.secp256k1_fe_normalize_var b = Some r /\
     Field5x52.fe_inv r /\ Field5x52.normalized r = true /\
     Field5x52.limbs_Z (Field5x52.fe_n r) = Field5x52.limbs_Z (Field5x52.fe_n b) mod p /\
     Field5x52.secp256k1_fe_normalize_weak b = Some w /\ Field5x52.fe_inv w /\ Field5x52.magnitude w = 1 /\
     Field5x52.limbs_Z (Field5x52.fe_n w) mod p = Field5x52.limbs_Z (Field5x52.fe_n b) mod p /\
     Field5x52.secp256k1_fe_normalizes_to_zero b = Some z /\ Field5x52.secp256k1_fe_normalizes_to_zero_var b = Some z /\
     z = (Field5x52.limbs_Z (Field5x52.fe_n r) =? 0)) /\
  (Field5x52.secp256k1_fe_normalize b = Field5x52.secp256k1_fe_normalize b' <-> Field5x52.limbs_Z (Field5x52.fe_n b) mod p = Field5x52.limbs_Z (Field5x52.fe_n b') mod p).
Proof.
  intros Ha Ha' Hm Hm' Hb Hb' Hn Hn'. split; [exact (fe26_normalize_all a Ha Hm)|]. split; [exact (fe26_normalize_canonical a a' Ha Ha' Hm Hm')|].
  split; [exact (fe52_normalize_all b Hb Hn) | exact (fe52_normalize_canonical b b' Hb Hb' Hn Hn')].
Qed.

(** The largest elements of magnitude 8. *)
Lemma fe_normalize_witness :
  (exists r, Field10x26.secp256k1_fe_normalize full_10x26 = Some r /\ Field10x26.secp256k1_fe_normalize_var full_10x26 = Some r) /\
  (exists r, Field5x52.secp256k1_fe_normalize full_5x52 = Some r /\ Field5x52.secp256k1_fe_normalize_var full_5x52 = Some r).
Proof.
  destruct (fe_normalize_correct full_10x26 full_10x26 full_5x52 full_5x52 full_10x26_inv full_10x26_inv eq_refl eq_refl full_5x52_inv full_5x52_inv eq_refl eq_refl)
    as ((r & w & z & H & H' & _) & _ & (r2 & w2 & z2 & H2 & H2' & _) & _).
  split; [exists r | exists r2]; split; assumption.
Defined.

(** The bound is sharp: the largest magnitude that [secp256k1_fe_verify] accepts is one
    too large for the normalization.  In both representations there is an element that
    [secp256k1_fe_verify] accepts, of magnitude 32 (2048), for which
    [secp256k1_fe_normalize] passes its assertions and returns a wrong value: a
    word of the first carry chain overflows. *)
Lemma fe_normalize_full_magnitude :
  (exists a r, Field10x26.secp256k1_fe_verify a = Some tt /\ Field10x26.magnitude a = 32 /\
     Field10x26.secp256k1_fe_normalize a = Some r /\
     Field10x26.limbs_Z (Field10x26.fe_n r) mod p <> Field10x26.limbs_Z (Field10x26.fe_n a) mod p) /\
  (exists a r, Field5x52.secp256k1_fe_verify a = Some tt /\ Field5x52.magnitude a = 2048 /\
     Field5x52.secp256k1_fe_normalize a = Some r /\
     Field5x52.limbs_Z (Field5x52.fe_n r) mod p <> Field5x52.limbs_Z (Field5x52.fe_n a) mod p).
Proof.
  split.
  - pose (x := 64 * 0x3FFFFFF).
    exists (Field10x26.mk_fe (Field10x26.L10 x x x x x x x x x (64 * 0x03FFFFF)) 32 false).
    eexists. split; [vm_compute; reflexivity|]. split; [reflexivity|]. split; [vm_compute; reflexivity|].
    vm_compute. discriminate.
  - pose (x := 4096 * 0xFFFFFFFFFFFFF).
    exists (Field5x52.mk_fe (Field5x52.L5 x x x x (4096 * 0x0FFFFFFFFFFFF)) 2048 false).
    eexists. split; [vm_compute; reflexivity|]. split; [reflexivity|]. split; [vm_compute; reflexivity|].
    vm_compute. discriminate.
Qed.

(** ** Bytes *)

(** Reading 32 bytes succeeds exactly when the integer they write is below the
    prime, and writing the element read gives the bytes back; reading the bytes
    written for a normalized element gives a normalized element of the same
    value. *)
Theorem fe_b32_roundtrip {F : FieldOps} {L : FieldLaws F} (r : secp256k1_fe) b : bytes_of_len 32 b ->
  Returns (secp256k1_fe_set_b32 r b) (fun '(ok, a) => ok = (be_value b <? p) /\
    (ok = true -> secp256k1_fe_get_b32 a = Some b)) /\
  (forall a v, fe_norm a v -> Returns (secp256k1_fe_get_b32 a) (fun b' =>
    Returns (secp256k1_fe_set_b32 r b') (fun '(ok, a') => ok = true /\ fe_norm a' v))).
Proof.
  intros Hb. split.
  - eapply Returns_mono; [exact (fe_set_b32_norm r b Hb)|]. intros [ok a] [-> Ha]. split; [reflexivity|].
    intros Hok. specialize (Ha Hok). apply Z.ltb_lt in Hok. pose proof (be_value_range 32 b Hb).
    destruct (proj1 (Returns_exists _ _) (fe_get_b32_ok a _ Ha)) as (b' & -> & ->).
    rewrite toFp_small, (be_bytes_value 32 b Hb) by lia. reflexivity.
  - intros a v Ha. eapply Returns_mono; [exact (fe_get_b32_ok a v Ha)|]. intros b' ->.
    eapply Returns_mono; [exact (fe_set_b32_norm r _ (be_bytes_wf 32 _))|]. intros [ok a'] [-> Ha'].
    pose proof (Fp_range v) as Hv. assert (0 <= Zmod.to_Z v < 256 ^ Z.of_nat 32) as Hv'
      by (assert (p <= 256 ^ Z.of_nat 32) by discriminate; lia).
    rewrite be_value_bytes in * by exact Hv'. rewrite toFp_to_Z in Ha'.
    assert ((Zmod.to_Z v <? p) = true) as E by (apply Z.ltb_lt; lia). auto.
Qed.

Lemma fe_b32_roundtrip_witness :
  Returns (@secp256k1_fe_set_b32 Field_10x26 secp256k1_fe_clear (repeat 255 31 ++ [0])) (fun '(ok, _) => ok = false) /\
  Returns (@secp256k1_fe_set_b32 Field_10x26 secp256k1_fe_clear (be_bytes 32 (p - 1))) (fun '(ok, a) =>
    ok = true -> secp256k1_fe_get_b32 a = Some (be_bytes 32 (p - 1))).
Proof.
  assert (bytes_of_len 32 (repeat 255 31 ++ [0])) as Hb.
  { split; [reflexivity|]. repeat constructor; vm_compute; congruence. }
  split.
  - refine (Returns_mono _ _ _ (proj1 (fe_b32_roundtrip (L := Laws_10x26) _ _ Hb)) _). intros [ok a] [-> _]. reflexivity.
  - refine (Returns_mono _ _ _ (proj1 (fe_b32_roundtrip (L := Laws_10x26) _ _ (be_bytes_wf 32 (p - 1)))) _). intros [ok a] [_ H]. exact H.
Defined.

(** ** The two representations compute the same *)

(** Inverts the computation of a magnitude. *)
Ltac open_mag H :=
  repeat match type of H with
  | bind _ _ = Some _ => let m := fresh "m" in let E := fresh "E" in apply bind_some in H as (m & E & H)
  | (if ?c then _ else _) = Some _ => let E := fresh "C" in destruct c eqn:E; [injection H as <- | discriminate]
  end.

Lemma fe_expr_run_ok {F : FieldOps} {L : FieldLaws F} e : forall m, fe_expr_mag e = Some m ->
  Returns (fe_expr_run e) (fun a => fe_ok a m (fe_expr_value e)).
Proof.
  induction e as [k|b|e IH|e IH k|e1 IH1 e2 IH2|e1 IH1 e2 IH2|e IH|e IH|e IH|e1 IH1 e2 IH2 flag]; intros m H;
    cbn [fe_expr_mag fe_expr_run fe_expr_value] in *; open_mag H;
    try (eapply Returns_bind; [eapply IH; eassumption|]; intros a Ha);
    try (eapply Returns_bind; [eapply IH1; eassumption|]; intros a1 H1);
    try (eapply Returns_bind; [eapply IH2; eassumption|]; intros a2 H2).
  - eapply Returns_mono; [apply fe_set_int_norm; lia|]. intros a Ha. apply fe_norm_ok, Ha.
  - apply andb_prop in C as [Hb Hp]. eapply Returns_bind; [exact (fe_set_b32_norm _ b (bytes_of_len_test b Hb))|].
    intros [ok a] [-> Ha]. apply Returns_ret. apply fe_norm_ok, Ha, Hp.
  - rewrite E. apply fe_negate_ok; [exact Ha | lia].
  - apply fe_mul_int_ok; [exact Ha | lia | lia].
  - eapply fe_add_ok; [exact H1 | exact H2 | lia].
  - eapply fe_mul_ok; [exact H1 | exact H2 | lia | lia].
  - eapply fe_sqr_ok; [exact Ha | lia].
  - eapply fe_normalize_weak_ok; [exact Ha | lia].
  - apply fe_inv_ok. eapply fe_ok_mono; [exact Ha | lia].
  - injection H as <-. apply Returns_ret. apply fe_cmov_bool; assumption.
Qed.

Lemma fe_expr_bytes_ok {F : FieldOps} {L : FieldLaws F} e m : fe_expr_mag e = Some m -> m <= 31 ->
  fe_expr_bytes e = Some (be_bytes 32 (Zmod.to_Z (fe_expr_value e))).
Proof.
  intros H Hm. assert (Returns (fe_expr_bytes e) (fun b => b = be_bytes 32 (Zmod.to_Z (fe_expr_value e)))) as HR.
  { unfold fe_expr_bytes. eapply Returns_bind; [exact (fe_expr_run_ok e m H)|]. intros a Ha.
    eapply Returns_bind; [eapply fe_normalize_ok; [exact Ha | exact Hm]|]. intros r Hr. apply fe_get_b32_ok, Hr. }
  apply Returns_exists in HR as (b & -> & ->). reflexivity.
Qed.

(** C35: an expression over the field operations that keeps the magnitude rules of
    the header gives the same bytes in the 5x52 and in the 10x26 representation,
    those of its value in the field, and passes all assertions in both. *)
Theorem fe_representations_agree e m : fe_expr_mag e = Some m -> m <= 31 ->
  fe_expr_bytes (F := Field_5x52) e = fe_expr_bytes (F := Field_10x26) e /\
  fe_expr_bytes (F := Field_10x26) e = Some (be_bytes 32 (Zmod.to_Z (fe_expr_value e))).
Proof.
  intros H Hm. rewrite (fe_expr_bytes_ok (L := Laws_5x52) e m H Hm), (fe_expr_bytes_ok (L := Laws_10x26) e m H Hm).
  split; reflexivity.
Qed.

Lemma fe_representations_agree_witness :
  let e := FeAdd (FeNegate (FeMul (FeBytes (repeat 171 32)) (FeInt 12345))) (FeMulInt (FeInv (FeInt 7)) 29) in
  fe_expr_bytes (F := Field_5x52) e = fe_expr_bytes (F := Field_10x26) e.
Proof.
  intros e. assert (fe_expr_mag e = Some 31) as H by (vm_compute; reflexivity).
  exact (proj1 (fe_representations_agree e 31 H ltac:(lia))).
Defined.

(** ** Inverses and square roots *)

(** The addition chain of [secp256k1_fe_inv] (and of the builtin
    [secp256k1_fe_inv_var]) computes the inverse of every nonzero element, and zero
    for zero. *)
Theorem fe_inv_correct {F : FieldOps} {L : FieldLaws F} a v : fe_ok a 8 v ->
  Returns (secp256k1_fe_inv a) (fun r => exists w, fe_ok r 1 w /\
    (v <> Zmod.zero -> (v * w)%Zmod = Zmod.one) /\ (v = Zmod.zero -> w = Zmod.zero)) /\
  secp256k1_fe_inv_var a = secp256k1_fe_inv a.
Proof.
  intros Ha. split; [|reflexivity]. eapply Returns_mono; [exact (fe_inv_ok a v Ha)|]. intros r Hr.
  exists (Zmod.inv v). split; [exact Hr|]. split; [|intros ->; apply Zmod.inv_0]. intros Hv. field. exact Hv.
Qed.

Lemma fe_inv_witness : Returns (@secp256k1_fe_inv Field_10x26 (SECP256K1_FE_CONST 0 0 0 0 0 0 0 2)) (fun r =>
  exists w, fe_ok r 1 w /\ (toFp 2 * w)%Zmod = Zmod.one).
Proof.
  refine (Returns_mono _ _ _ (proj1 (fe_inv_correct (L := Laws_10x26) _ (toFp 2) _)) _).
  - apply (fe_ok_mono _ 1); [|lia]. apply fe_norm_ok. apply (FE_CONST_norm 0 0 0 0 0 0 0 2); vm_compute; try split; congruence.
  - intros r (w & Hr & H & _). exists w. split; [exact Hr|]. apply H. apply toFp_nonzero. reflexivity.
Defined.

(** [secp256k1_fe_sqrt] succeeds exactly on the squares and then returns a square
    root that is itself a square (on a non-square [v] it computes the root of [-v]);
    [secp256k1_fe_is_quad_var] decides whether an element is a square. *)
Theorem fe_sqrt_correct {F : FieldOps} {L : FieldLaws F} a v : fe_ok a 8 v ->
  Returns (secp256k1_fe_sqrt a) (fun '(ok, r) => exists w, fe_ok r 1 w /\ is_square w /\
    (ok = true <-> is_square v) /\ (w * w)%Zmod = if ok then v else (- v)%Zmod) /\
  Returns (secp256k1_fe_is_quad_var a) (fun b => b = true <-> is_square v).
Proof. intros Ha. split; [exact (fe_sqrt_ok a v Ha) | exact (fe_is_quad_var_ok a v Ha)]. Qed.

Lemma fe_sqrt_witness : Returns (@secp256k1_fe_sqrt Field_10x26 (SECP256K1_FE_CONST 0 0 0 0 0 0 0 4)) (fun '(ok, r) => ok = true).
Proof.
  refine (Returns_mono _ _ _ (proj1 (fe_sqrt_correct (L := Laws_10x26) _ (toFp 4) _)) _).
  - apply (fe_ok_mono _ 1); [|lia]. apply fe_norm_ok. apply (FE_CONST_norm 0 0 0 0 0 0 0 4); vm_compute; try split; congruence.
  - intros [ok r] (w & _ & _ & H & _). apply H. exists (toFp 2). rewrite <- toFp_mul. reflexivity.
Defined.

(** [secp256k1_fe_inv_all_var] inverts all elements of an array of nonzero
    elements with one inversion. *)
Theorem fe_inv_all_correct {F : FieldOps} {L : FieldLaws F} len a (v : nat -> Fp) r :
  (forall i, (i < len)%nat -> fe_ok (nth i a secp256k1_fe_clear) 8 (v i)) ->
  (forall i, (i < len)%nat -> v i <> Zmod.zero) -> (len <= length r)%nat ->
  Returns (secp256k1_fe_inv_all_var r a len) (fun r' => length r' = length r /\
    forall j, (j < len)%nat -> exists w, fe_ok (nth j r' secp256k1_fe_clear) 1 w /\ (v j * w)%Zmod = Zmod.one).
Proof.
  intros Ha Hv Hl. eapply Returns_mono; [exact (fe_inv_all_var_ok len a v r Ha Hv Hl)|].
  intros r' [Hl' Hr']. split; [exact Hl'|]. intros j Hj. exists (Zmod.inv (v j)). split; [exact (Hr' j Hj)|].
  field. exact (Hv j Hj).
Qed.

Lemma fe_inv_all_witness :
  let c := @SECP256K1_FE_CONST Field_10x26 0 0 0 0 0 0 0 3 in
  Returns (secp256k1_fe_inv_all_var [c; c] [c; c] 2) (fun r' => length r' = 2%nat).
Proof.
  intros c. assert (fe_ok c 8 (toFp 3)) as Hc.
  { apply (fe_ok_mono _ 1); [|lia]. apply fe_norm_ok. apply (FE_CONST_norm 0 0 0 0 0 0 0 3); vm_compute; try split; congruence. }
  refine (Returns_mono _ _ _ (fe_inv_all_correct (L := Laws_10x26) 2 [c; c] (fun _ => toFp 3) [c; c] _ _ _) _).
  - intros [|[|i]] Hi; [exact Hc | exact Hc | lia].
  - intros i _. apply toFp_nonzero. reflexivity.
  - cbn. lia.
  - intros r' [H _]. exact H.
Defined.
