(* ===== verification/GroupTheorems.v ===== *)
(** * Main theorems on the group

    The formulas of [group_impl.h] compute the addition of the curve. *)

From Stdlib Require Import ZArith Lia List Bool.
From S2P Require Import Prelude Modulus Bytes Field FieldReprs FieldImpl Curve Group GroupConv.
Import ListNotations.

#[local] Open Scope Z_scope.
#[local] Open Scope checked_scope.

(** ** The generator as a concrete point *)

Definition gej_g {F : FieldOps} : secp256k1_gej :=
  mk_gej (ge_x secp256k1_ge_const_g) (ge_y secp256k1_ge_const_g) (SECP256K1_FE_CONST 0 0 0 0 0 0 0 1) false.

Lemma G_gej_ok {F : FieldOps} {L : FieldLaws F} : gej_ok gej_g G.
Proof.
  destruct ge_const_g_coords as [Hx Hy].
  apply (gej_ok_intro _ _ _ gx gy (toFp 1));
    [apply (fe_ok_mono _ 1); [apply fe_norm_ok, Hx | lia] | apply (fe_ok_mono _ 1); [apply fe_norm_ok, Hy | lia] | | |].
  - apply (fe_ok_mono _ 1); [apply fe_norm_ok, fe_1_norm | lia].
  - apply toFp_nonzero. reflexivity.
  - apply (Affine_jacobian gx gy).
Qed.

Lemma G_gej_wf {F : FieldOps} {L : FieldLaws F} : gej_wf gej_g.
Proof. exact (gej_ok_wf _ _ G_gej_ok). Qed.

(** ** Addition and doubling *)

(** C37: the constant-time addition of a Jacobian and an affine point computes the
    sum on the curve in every case, doubling, opposite points, infinity and the
    degenerate slope included, and passes every assertion. *)
Theorem gej_add_ge_correct {F : FieldOps} {L : FieldLaws F} a b P Q : gej_ok a P -> ge_ok b Q ->
  ge_infinity b = false -> on_curve P -> on_curve Q ->
  Returns (secp256k1_gej_add_ge a b) (fun r => gej_ok r (padd P Q)).
Proof. exact (gej_add_ge_ok a b P Q). Qed.

Lemma gej_add_ge_witness :
  Returns (secp256k1_gej_add_ge (F := Field_10x26) gej_g secp256k1_ge_const_g) (fun r => gej_ok r (padd G G)).
Proof. exact (gej_add_ge_correct (L := Laws_10x26) _ _ G G G_gej_ok ge_const_g_ok eq_refl G_on_curve G_on_curve). Defined.

(** The variable-time additions, of two Jacobian points and of a Jacobian and an
    affine point, compute the sum on the curve; the ratio they return, when asked
    for, is the ratio of the [z] coordinates of the sum and the first argument. *)
Theorem gej_add_var_correct {F : FieldOps} {L : FieldLaws F} r a b c P Q rzr : gej_wf r -> gej_ok a P ->
  gej_ok b Q -> ge_ok c Q -> on_curve P -> on_curve Q -> (gej_infinity a = true -> rzr = None) ->
  Returns (secp256k1_gej_add_var r a b rzr) (fun '(r', rzr') => gej_ok r' (padd P Q) /\ zratio_ok a r' rzr rzr') /\
  Returns (secp256k1_gej_add_ge_var r a c rzr) (fun '(r', rzr') => gej_ok r' (padd P Q) /\ zratio_ok a r' rzr rzr').
Proof. intros. split; [apply gej_add_var_ok | apply gej_add_ge_var_ok]; assumption. Qed.

Lemma gej_add_var_witness :
  Returns (secp256k1_gej_add_var (F := Field_10x26) gej_g gej_g gej_g (Some secp256k1_fe_clear)) (fun '(r', _) => gej_ok r' (padd G G)).
Proof.
  refine (Returns_mono _ _ _ (proj1 (gej_add_var_correct (L := Laws_10x26) gej_g gej_g gej_g _ G G (Some secp256k1_fe_clear)
    G_gej_wf G_gej_ok G_gej_ok ge_const_g_ok G_on_curve G_on_curve _)) _); [discriminate|].
  intros [r' z] [H _]. exact H.
Defined.

(** The addition of an affine point given with the inverse of its [z] coordinate
    computes the sum on the curve. *)
Theorem gej_add_zinv_var_correct {F : FieldOps} {L : FieldLaws F} r a b P bzinv X2 Y2 w : gej_wf r -> gej_ok a P ->
  fe_ok (ge_x b) 8 X2 -> fe_ok (ge_y b) 8 Y2 -> fe_ok bzinv 8 w -> on_curve P -> on_curve (zinv_point b X2 Y2 w) ->
  Returns (secp256k1_gej_add_zinv_var r a b bzinv) (fun r' => gej_ok r' (padd P (zinv_point b X2 Y2 w))).
Proof. exact (gej_add_zinv_var_ok r a b P bzinv X2 Y2 w). Qed.

Lemma gej_add_zinv_var_witness :
  Returns (secp256k1_gej_add_zinv_var (F := Field_10x26) gej_g gej_g secp256k1_ge_const_g (SECP256K1_FE_CONST 0 0 0 0 0 0 0 1))
    (fun r' => gej_ok r' (padd G (zinv_point secp256k1_ge_const_g gx gy (toFp 1)))).
Proof.
  destruct (ge_const_g_coords (L := Laws_10x26)) as [Hx Hy].
  apply (gej_add_zinv_var_correct (L := Laws_10x26)); [exact G_gej_wf | exact G_gej_ok | | | | exact G_on_curve|].
  - apply (fe_ok_mono _ 1); [apply fe_norm_ok, Hx | lia].
  - apply (fe_ok_mono _ 1); [apply fe_norm_ok, Hy | lia].
  - apply (fe_ok_mono _ 1); [apply fe_norm_ok, fe_1_norm | lia].
  - replace (zinv_point _ _ _ _) with G; [exact G_on_curve|]. apply Affine_eq; ring.
Defined.

(** Doubling computes the double on the curve, and its ratio of the [z]
    coordinates. *)
Theorem gej_double_var_correct {F : FieldOps} {L : FieldLaws F} r a P rzr : gej_wf r -> gej_ok a P -> on_curve P ->
  Returns (secp256k1_gej_double_var r a rzr) (fun '(r', rzr') => gej_ok r' (padd P P) /\ zratio_ok a r' rzr rzr').
Proof. exact (gej_double_var_ok r a P rzr). Qed.

Lemma gej_double_var_witness :
  Returns (secp256k1_gej_double_var (F := Field_10x26) gej_g gej_g None) (fun '(r', _) => gej_ok r' (padd G G)).
Proof.
  refine (Returns_mono _ _ _ (gej_double_var_correct (L := Laws_10x26) gej_g gej_g G None G_gej_wf G_gej_ok G_on_curve) _).
  intros [r' z] [H _]. exact H.
Defined.

(** The sum and the opposite of points of the curve are points of the curve, and
    the code's negations compute the opposite. *)
Theorem group_closed {F : FieldOps} {L : FieldLaws F} a b P Q : ge_ok a P -> gej_ok b P -> on_curve P -> on_curve Q ->
  on_curve (padd P Q) /\ on_curve (popp P) /\ padd P (popp P) = Infinity /\
  Returns (secp256k1_ge_neg a) (fun r => ge_ok r (popp P)) /\
  Returns (secp256k1_gej_neg b) (fun r => gej_ok r (popp P)).
Proof.
  intros Ha Hb HP HQ. split; [exact (padd_on_curve P Q HP HQ)|]. split; [exact (popp_on_curve P HP)|].
  split; [|split; [exact (ge_neg_ok a P Ha) | exact (gej_neg_ok b P Hb)]].
  destruct P as [|x y]; [reflexivity|]. unfold popp, padd. rewrite Zmod.eqb_refl.
  replace (- - y)%Zmod with y by ring. rewrite Zmod.eqb_refl. reflexivity.
Qed.

Lemma group_closed_witness : on_curve (padd G G) /\ padd G (popp G) = Infinity.
Proof.
  destruct (group_closed (L := Laws_10x26) _ _ G G ge_const_g_ok G_gej_ok G_on_curve G_on_curve) as (H & _ & H' & _).
  split; assumption.
Defined.

(** ** Coordinates *)

(** The conversions from Jacobian to affine coordinates, one point at a time or
    many with one inversion, keep the points, infinity included. *)
Theorem ge_set_gej_correct {F : FieldOps} {L : FieldLaws F} azi0 r a Ps : Forall2 gej_ok a Ps -> length r = length a ->
  Forall ge_wf r -> length azi0 = length (filter (fun ai => negb (gej_infinity ai)) a) ->
  Returns (secp256k1_ge_set_all_gej_var azi0 r a) (fun r' => Forall2 ge_ok r' Ps) /\
  Forall2 (fun ai P => Returns (secp256k1_ge_set_gej ai) (fun '(x, ai') => ge_ok x P /\ gej_ok ai' P) /\
    forall x0, ge_wf x0 -> Returns (secp256k1_ge_set_gej_var x0 ai) (fun '(x, ai') => ge_ok x P /\ gej_ok ai' P)) a Ps.
Proof.
  intros Ha Hl Hr Hz. split; [exact (ge_set_all_gej_var_ok azi0 r a Ps Ha Hl Hr Hz)|].
  eapply Forall2_impl; [|exact Ha]. intros ai P Hai. split; [exact (ge_set_gej_ok ai P Hai)|].
  intros x0 Hx0. exact (ge_set_gej_var_ok x0 ai P Hx0 Hai).
Qed.

Lemma ge_set_gej_witness :
  let inf := @secp256k1_gej_set_infinity Field_10x26 in
  Returns (secp256k1_ge_set_all_gej_var [secp256k1_fe_clear] [secp256k1_ge_clear; secp256k1_ge_clear] [inf; gej_g])
    (fun r' => Forall2 ge_ok r' [Infinity; G]).
Proof.
  assert (fe_ok (F := Field_10x26) secp256k1_fe_clear 8 Zmod.zero) as H0
    by (apply (fe_ok_mono _ 1); [apply fe_norm_ok, fe_clear_norm | lia]).
  refine (proj1 (ge_set_gej_correct (L := Laws_10x26) _ _ _ _ _ _ _ _)); try reflexivity.
  - constructor; [|constructor; [exact G_gej_ok | constructor]].
    exists Zmod.zero, Zmod.zero, Zmod.zero. split; [split; [exact H0 | split; exact H0] | reflexivity].
  - assert (ge_wf (F := Field_10x26) secp256k1_ge_clear) as Hw by (exists Zmod.zero, Zmod.zero; split; exact H0).
    constructor; [exact Hw | constructor; [exact Hw | constructor]].
Defined.

(** Scaling a table of points with known ratios of successive [z] coordinates to
    the [z] of its last entry keeps every point, and normalizing the table to affine
    coordinates does. *)
Theorem ge_table_correct {F : FieldOps} {L : FieldLaws F} a zr len Z P r g : table_ok a zr len Z P ->
  (0 < len <= length r)%nat ->
  Returns (secp256k1_ge_globalz_set_table_gej len r g a zr) (fun '(r', g') => length r' = length r /\
    fe_ok g' 8 (Z (len - 1)%nat) /\
    forall j, (j < len)%nat -> ge_scaled_ok (nth j r' secp256k1_ge_clear) (Z (len - 1)%nat) (P j)) /\
  Returns (secp256k1_ge_set_table_gej_var r a zr len) (fun r' => length r' = length r /\
    forall j, (j < len)%nat -> ge_ok (nth j r' secp256k1_ge_clear) (P j)).
Proof.
  intros T Hl. split; [|apply (ge_set_table_gej_var_ok a zr len Z P r T); lia].
  eapply Returns_mono; [exact (ge_globalz_set_table_gej_ok a zr len Z P r g T Hl)|].
  intros [r' g'] (H1 & H2 & _ & H3). auto.
Qed.

Lemma ge_table_witness :
  let one := @SECP256K1_FE_CONST Field_10x26 0 0 0 0 0 0 0 1 in
  Returns (secp256k1_ge_set_table_gej_var [secp256k1_ge_clear; secp256k1_ge_clear] [gej_g; gej_g] [one; one] 2)
    (fun r' => ge_ok (nth 1 r' secp256k1_ge_clear) G).
Proof.
  intros one. destruct (ge_const_g_coords (L := Laws_10x26)) as [Hx Hy].
  assert (fe_ok one 8 (toFp 1)) as H1 by (apply (fe_ok_mono _ 1); [apply fe_norm_ok, fe_1_norm | lia]).
  assert (table_ok [gej_g; gej_g] [one; one] 2 (fun _ => toFp 1) (fun _ => G)) as T.
  { split.
    - intros i Hi. exists gx, gy. assert (nth i [gej_g; gej_g] secp256k1_gej_clear = gej_g) as -> by (destruct i as [|[|]]; [reflexivity..|lia]).
      split; [|split].
      + apply (fe_ok_mono _ 1); [apply fe_norm_ok, Hx | lia].
      + apply (fe_ok_mono _ 1); [apply fe_norm_ok, Hy | lia].
      + split; [reflexivity|]. split; [apply toFp_nonzero; reflexivity | apply (Affine_jacobian gx gy)].
    - intros _. exact H1.
    - intros [|i] Hi; [|lia]. exists (toFp 1). split; [exact H1 | rewrite <- toFp_mul; reflexivity]. }
  refine (Returns_mono _ _ _ (proj2 (ge_table_correct (L := Laws_10x26) _ _ 2 _ _ _ one T _)) _); [cbn; lia|].
  intros r' [_ H]. exact (H 1%nat ltac:(lia)).
Defined.

(** A point is recovered from its abscissa exactly when [x^3 + 7] is a square, with
    the ordinate of the wanted parity, or the ordinate that is a square. *)
Theorem ge_from_x_correct {F : FieldOps} {L : FieldLaws F} x v odd : fe_ok x 8 v ->
  Returns (secp256k1_ge_set_xo_var x odd) (fun '(ok, r) =>
    (ok = true <-> is_square (v * v * v + toFp 7)%Zmod) /\
    (ok = true -> exists y, ge_ok r (Affine v y) /\ on_curve (Affine v y) /\ Z.odd (Zmod.to_Z y) = odd)) /\
  Returns (secp256k1_ge_set_xquad x) (fun '(ok, r) =>
    (ok = true <-> is_square (v * v * v + toFp 7)%Zmod) /\
    (ok = true -> exists y, ge_ok r (Affine v y) /\ on_curve (Affine v y) /\ is_square y)).
Proof.
  intros Hx. split; [exact (ge_set_xo_var_ok x v odd Hx)|].
  eapply Returns_mono; [exact (ge_set_xquad_ok x v Hx)|]. intros [ok r] (H & Ex & Ei & y & Hy & Hs & Hc).
  split; [exact H|]. intros Hok. exists y. split; [|split; [exact (Hc Hok) | exact Hs]].
  exists v, y. rewrite Ex, Ei. split; [exact Hx|]. split; [apply (fe_ok_mono _ 1); [exact Hy | lia] | reflexivity].
Qed.

Lemma ge_from_x_witness : Returns (secp256k1_ge_set_xo_var (ge_x (@secp256k1_ge_const_g Field_10x26)) false) (fun '(ok, r) => ok = true).
Proof.
  destruct (ge_const_g_coords (L := Laws_10x26)) as [Hx _].
  refine (Returns_mono _ _ _ (proj1 (ge_from_x_correct (L := Laws_10x26) _ gx false (fe_ok_mono _ 1 8 _ (fe_norm_ok _ _ Hx) _))) _); [lia|].
  intros [ok r] [H _]. apply H. exists gy. exact G_on_curve.
Defined.

(** The membership tests accept exactly the finite points of the curve, and
    [secp256k1_gej_has_quad_y_var] exactly the finite points whose ordinate is a
    square. *)
Theorem gej_tests_correct {F : FieldOps} {L : FieldLaws F} a b P : gej_ok a P -> ge_ok b P ->
  Returns (secp256k1_gej_is_valid_var a) (fun t => t = true <-> P <> Infinity /\ on_curve P) /\
  Returns (secp256k1_ge_is_valid_var b) (fun t => t = true <-> P <> Infinity /\ on_curve P) /\
  Returns (secp256k1_gej_has_quad_y_var a) (fun t => t = true <-> exists x y, P = Affine x y /\ is_square y).
Proof.
  intros Ha Hb. split; [exact (gej_is_valid_var_ok a P Ha)|].
  split; [exact (ge_is_valid_var_ok b P Hb) | exact (gej_has_quad_y_var_ok a P Ha)].
Qed.

Lemma gej_tests_witness : Returns (secp256k1_ge_is_valid_var (@secp256k1_ge_const_g Field_10x26)) (fun t => t = true).
Proof.
  refine (Returns_mono _ _ _ (proj1 (proj2 (gej_tests_correct (L := Laws_10x26) _ _ G G_gej_ok ge_const_g_ok))) _).
  intros t H. apply H. split; [discriminate | exact G_on_curve].
Defined.

(** Storing a finite affine point and loading it back gives the same point, and a
    conditional move of stored points selects one of them. *)
Theorem ge_storage_roundtrip {F : FieldOps} {L : FieldLaws F} a b P Q flag : ge_ok a P -> ge_ok b Q ->
  ge_infinity a = false -> ge_infinity b = false ->
  Returns (sa <- secp256k1_ge_to_storage a;; sb <- secp256k1_ge_to_storage b;; ret (sa, sb)) (fun '(sa, sb) =>
    ge_ok (secp256k1_ge_from_storage sa) P /\
    ge_ok (secp256k1_ge_from_storage (secp256k1_ge_storage_cmov sa sb (Z.b2z flag))) (if flag then Q else P)).
Proof.
  intros Ha Hb Ia Ib. eapply Returns_bind; [exact (ge_to_storage_ok a P Ha Ia)|]. intros sa Hsa.
  eapply Returns_bind; [exact (ge_to_storage_ok b Q Hb Ib)|]. intros sb Hsb. apply Returns_ret.
  split; apply ge_from_storage_ok; [exact Hsa | exact (ge_storage_cmov_ok sa sb P Q flag Hsa Hsb)].
Qed.

Lemma ge_storage_witness :
  Returns (sa <- secp256k1_ge_to_storage (@secp256k1_ge_const_g Field_10x26);;
           sb <- secp256k1_ge_to_storage secp256k1_ge_const_g;; ret (sa, sb))
    (fun '(sa, _) => ge_ok (secp256k1_ge_from_storage sa) G).
Proof.
  refine (Returns_mono _ _ _ (ge_storage_roundtrip (L := Laws_10x26) _ _ G G true ge_const_g_ok ge_const_g_ok eq_refl eq_refl) _).
  intros [sa sb] [H _]. exact H.
Defined.

(** The endomorphism multiplies the abscissa by a cube root of one that is not one;
    it maps the curve to itself and its cube is the identity. *)
Theorem ge_mul_lambda_correct {F : FieldOps} {L : FieldLaws F} a P : ge_ok a P -> on_curve P ->
  Returns (secp256k1_ge_mul_lambda a) (fun r => ge_ok r (plambda P)) /\ on_curve (plambda P) /\
  plambda (plambda (plambda P)) = P /\ beta <> Zmod.one.
Proof.
  intros Ha HP. split; [eapply Returns_mono; [exact (ge_mul_lambda_ok a P Ha)|]; intros r Hr; apply Hr|]. split; [exact (plambda_on_curve P HP)|]. split.
  - destruct P as [|x y]; [reflexivity|]. apply Affine_eq; [|reflexivity].
    transitivity (x * (beta * beta * beta))%Zmod; [ring | rewrite beta_cubed; ring].
  - intros E. apply (f_equal Zmod.to_Z) in E. unfold beta in E. rewrite to_Z_toFp in E. vm_compute in E. discriminate.
Qed.

Lemma ge_mul_lambda_witness : on_curve (plambda G) /\ plambda (plambda (plambda G)) = G.
Proof.
  destruct (ge_mul_lambda_correct (L := Laws_10x26) _ G ge_const_g_ok G_on_curve) as (_ & H & H' & _). split; assumption.
Defined.
