(* ===== verification/ScalarTheorems.v ===== *)
(** * Main theorems on scalars

    The two representations, the interface they share, inversion and the
    endomorphism split. *)

From Stdlib Require Import ZArith Lia List Bool.
From S2P Require Import Prelude Modulus Bytes ScalarAcc ScalarWords Scalar4x64 Scalar8x32 Scalar ScalarReprs ScalarImpl.
Import ListNotations.

#[local] Open Scope Z_scope.
#[local] Open Scope checked_scope.

(** ** Expressions and windows *)

(** Expressions over the operations of [scalar.h]. *)
Inductive sc_expr : Type :=
| ScInt (k : Z)
| ScBytes (b : list Z)
| ScNegate (e : sc_expr)
| ScCondNegate (e : sc_expr) (flag : Z)
| ScAdd (e1 e2 : sc_expr)
| ScMul (e1 e2 : sc_expr)
| ScSqr (e : sc_expr)
| ScInverse (e : sc_expr).

(** The constants are in the range of the C types. *)
Fixpoint sc_expr_ok (e : sc_expr) : bool :=
  match e with
  | ScInt k => (0 <=? k) && (k <? 2 ^ 32)
  | ScBytes b => (length b =? 32)%nat && forallb (fun x => (0 <=? x) && (x <? 256)) b
  | ScNegate e | ScCondNegate e _ | ScSqr e | ScInverse e => sc_expr_ok e
  | ScAdd e1 e2 | ScMul e1 e2 => sc_expr_ok e1 && sc_expr_ok e2
  end.

(** Its value modulo the order. *)
Fixpoint sc_expr_value (e : sc_expr) : Fn :=
  match e with
  | ScInt k => toFn k
  | ScBytes b => toFn (be_value b)
  | ScNegate e => (- sc_expr_value e)%Zmod
  | ScCondNegate e flag => if flag =? 0 then sc_expr_value e else (- sc_expr_value e)%Zmod
  | ScAdd e1 e2 => (sc_expr_value e1 + sc_expr_value e2)%Zmod
  | ScMul e1 e2 => (sc_expr_value e1 * sc_expr_value e2)%Zmod
  | ScSqr e => (sc_expr_value e * sc_expr_value e)%Zmod
  | ScInverse e => Zmod.inv (sc_expr_value e)
  end.

(** Its evaluation by a representation. *)
Fixpoint sc_expr_run {S : ScalarOps} (e : sc_expr) : checked secp256k1_scalar :=
  match e with
  | ScInt k => ret (secp256k1_scalar_set_int k)
  | ScBytes b => ' (_, a) <- secp256k1_scalar_set_b32 b;; ret a
  | ScNegate e => a <- sc_expr_run e;; ret (secp256k1_scalar_negate a)
  | ScCondNegate e flag => a <- sc_expr_run e;; ret (snd (secp256k1_scalar_cond_negate a flag))
  | ScAdd e1 e2 => a <- sc_expr_run e1;; b <- sc_expr_run e2;; ' (_, r) <- secp256k1_scalar_add a b;; ret r
  | ScMul e1 e2 => a <- sc_expr_run e1;; b <- sc_expr_run e2;; secp256k1_scalar_mul a b
  | ScSqr e => a <- sc_expr_run e;; secp256k1_scalar_sqr a
  | ScInverse e => a <- sc_expr_run e;; secp256k1_scalar_inverse a
  end.

Definition sc_expr_bytes {S : ScalarOps} (e : sc_expr) : checked (list Z) :=
  a <- sc_expr_run e;;
  ret (secp256k1_scalar_get_b32 a).

(** The scalar read in [k] windows of [c] bits from bit [offset] on, as the
    multiplications read it, and put together again. *)
Fixpoint read_windows {S : ScalarOps} (a : secp256k1_scalar) (c offset : Z) (k : nat) : checked Z :=
  match k with
  | O => ret 0
  | S k' =>
      x <- secp256k1_scalar_get_bits_var a offset (Z.min c (256 - offset));;
      rest <- read_windows a c (offset + c) k';;
      ret (x + 2 ^ c * rest)
  end.

(** The largest scalar. *)
Definition top_8x32 : Scalar8x32.secp256k1_scalar :=
  Scalar8x32.S8 0xD0364140 0xBFD25E8C 0xAF48A03B 0xBAAEDCE6 0xFFFFFFFE 0xFFFFFFFF 0xFFFFFFFF 0xFFFFFFFF.

Definition top_4x64 : Scalar4x64.secp256k1_scalar :=
  Scalar4x64.S4 0xBFD25E8CD0364140 0xBAAEDCE6AF48A03B 0xFFFFFFFFFFFFFFFE 0xFFFFFFFFFFFFFFFF.

(** ** Multiplication *)

(** In the 8x32 representation the product and the square of two scalars pass
    the assertions of the accumulator and of the three reductions, and are the
    product and the square modulo the group order, fully reduced. *)
Theorem sc32_mul_correct a b : Scalar8x32.scalar_inv a -> Scalar8x32.scalar_inv b ->
  Returns (Scalar8x32.secp256k1_scalar_mul a b) (fun r => Scalar8x32.scalar_inv r /\
    Scalar8x32.limbs_Z r = (Scalar8x32.limbs_Z a * Scalar8x32.limbs_Z b) mod n) /\
  Returns (Scalar8x32.secp256k1_scalar_sqr a) (fun r => Scalar8x32.scalar_inv r /\
    Scalar8x32.limbs_Z r = (Scalar8x32.limbs_Z a ^ 2) mod n).
Proof. intros Ha Hb. rewrite Z.pow_2_r. split; [exact (sc32_mul_spec a b Ha Hb) | exact (sc32_sqr_spec a Ha)]. Qed.

Lemma top_8x32_inv : Scalar8x32.scalar_inv top_8x32.
Proof. split; [|reflexivity]. repeat split; vm_compute; congruence. Qed.

Lemma sc32_mul_witness : Returns (Scalar8x32.secp256k1_scalar_mul top_8x32 top_8x32) (fun r => Scalar8x32.limbs_Z r = 1).
Proof.
  refine (Returns_mono _ _ _ (proj1 (sc32_mul_correct top_8x32 top_8x32 top_8x32_inv top_8x32_inv)) _).
  intros r [_ E]. rewrite E. vm_compute. reflexivity.
Defined.

(** In the 4x64 representation the product and the square of two scalars pass
    the assertions of the accumulator and of the three reductions, and are the
    product and the square modulo the group order, fully reduced. *)
Theorem sc64_mul_correct a b : Scalar4x64.scalar_inv a -> Scalar4x64.scalar_inv b ->
  Returns (Scalar4x64.secp256k1_scalar_mul a b) (fun r => Scalar4x64.scalar_inv r /\
    Scalar4x64.limbs_Z r = (Scalar4x64.limbs_Z a * Scalar4x64.limbs_Z b) mod n) /\
  Returns (Scalar4x64.secp256k1_scalar_sqr a) (fun r => Scalar4x64.scalar_inv r /\
    Scalar4x64.limbs_Z r = (Scalar4x64.limbs_Z a ^ 2) mod n).
Proof. intros Ha Hb. rewrite Z.pow_2_r. split; [exact (sc64_mul_spec a b Ha Hb) | exact (sc64_sqr_spec a Ha)]. Qed.

Lemma top_4x64_inv : Scalar4x64.scalar_inv top_4x64.
Proof. split; [|reflexivity]. repeat split; vm_compute; congruence. Qed.

Lemma sc64_mul_witness : Returns (Scalar4x64.secp256k1_scalar_mul top_4x64 top_4x64) (fun r => Scalar4x64.limbs_Z r = 1).
Proof.
  refine (Returns_mono _ _ _ (proj1 (sc64_mul_correct top_4x64 top_4x64 top_4x64_inv top_4x64_inv)) _).
  intros r [_ E]. rewrite E. vm_compute. reflexivity.
Defined.

(** ** Sums *)

(** A sum is reduced exactly once: the result and the returned overflow flag
    write the integer sum, the result is below the order, and a scalar plus its
    negation is zero, with an overflow unless the scalar is zero. *)
Theorem sc32_add_correct a b : Scalar8x32.scalar_inv a -> Scalar8x32.scalar_inv b ->
  Returns (Scalar8x32.secp256k1_scalar_add a b) (fun '(o, r) => Scalar8x32.scalar_inv r /\ 0 <= o <= 1 /\
    Scalar8x32.limbs_Z a + Scalar8x32.limbs_Z b = Scalar8x32.limbs_Z r + o * n) /\
  Returns (Scalar8x32.secp256k1_scalar_add a (Scalar8x32.secp256k1_scalar_negate a)) (fun '(o, r) =>
    Scalar8x32.limbs_Z r = 0 /\ o = Z.b2z (negb (Scalar8x32.secp256k1_scalar_is_zero a))).
Proof.
  intros Ha Hb. pose proof (sc32_range a Ha) as Ra. pose proof (sc32_range b Hb) as Rb. split.
  - eapply Returns_mono; [exact (sc32_add_spec a b Ha Hb)|]. intros [o r] (-> & Hr & E). split; [exact Hr|].
    rewrite E. destruct (Z.leb_spec n (Scalar8x32.limbs_Z a + Scalar8x32.limbs_Z b)); cbn [Z.b2z]; (split; [lia|]).
    + rewrite <- (Z.mod_unique_pos _ n 1 (Scalar8x32.limbs_Z a + Scalar8x32.limbs_Z b - n)) by lia. lia.
    + rewrite Z.mod_small by lia. lia.
  - destruct (sc32_negate_spec a Ha) as [Hn En]. eapply Returns_mono; [exact (sc32_add_spec a _ Ha Hn)|]. intros [o r] (-> & Hr & E).
    rewrite E, En, (sc32_is_zero_spec a (proj1 Ha)), Z.add_mod_idemp_r, Z.add_opp_diag_r by discriminate. split; [reflexivity|]. f_equal.
    destruct (Z.eqb_spec (Scalar8x32.limbs_Z a) 0) as [E0 | E0]; [rewrite E0; reflexivity|].
    rewrite <- (Z.mod_unique_pos _ n (-1) (n - Scalar8x32.limbs_Z a)) by lia. apply Z.leb_le. lia.
Qed.

Lemma sc32_add_witness : Returns (Scalar8x32.secp256k1_scalar_add top_8x32 top_8x32) (fun '(o, r) => Scalar8x32.limbs_Z r + o * n = 2 * (n - 1)).
Proof.
  refine (Returns_mono _ _ _ (proj1 (sc32_add_correct top_8x32 top_8x32 top_8x32_inv top_8x32_inv)) _).
  intros [o r] (_ & _ & E). rewrite <- E. reflexivity.
Defined.

(** ** Bytes *)

(** Reading 32 bytes reports an overflow exactly when the integer they write is
    not below the order, and gives its residue; writing the scalar gives the bytes
    back when there was no overflow, and reading what was written for a scalar
    gives the scalar back without an overflow. *)
Theorem sc_b32_roundtrip {S : ScalarOps} {L : ScalarLaws S} b : bytes_of_len 32 b ->
  Returns (secp256k1_scalar_set_b32 b) (fun '(o, a) => o = Z.b2z (n <=? be_value b) /\ sc_ok a (toFn (be_value b)) /\
    (o = 0 -> secp256k1_scalar_get_b32 a = b)) /\
  (forall a v, sc_ok a v -> Returns (secp256k1_scalar_set_b32 (secp256k1_scalar_get_b32 a)) (fun '(o, a') => o = 0 /\ sc_ok a' v)).
Proof.
  intros Hb. split.
  - eapply Returns_mono; [exact (sc_set_b32_ok b Hb)|]. intros [o a] [-> Ha]. split; [reflexivity|]. split; [exact Ha|].
    intros Ho. rewrite (sc_get_b32_ok a _ Ha). pose proof (be_value_range 32 b Hb). destruct (Z.leb_spec n (be_value b)); [discriminate|].
    rewrite toFn_small by lia. apply be_bytes_value. exact Hb.
  - intros a v Ha. rewrite (sc_get_b32_ok a v Ha). eapply Returns_mono; [exact (sc_set_b32_ok _ (be_bytes_wf 32 _))|].
    intros [o a'] [-> Ha']. pose proof (Fn_range v) as Hv. assert (n <= 256 ^ Z.of_nat 32) by discriminate.
    rewrite be_value_bytes in * by lia. rewrite toFn_to_Z in Ha'. rewrite (proj2 (Z.leb_gt n _)) by lia. auto.
Qed.

Lemma sc_b32_roundtrip_witness :
  Returns (@secp256k1_scalar_set_b32 Scalar_8x32 (be_bytes 32 n)) (fun '(o, a) => o = 1 /\ sc_ok a Zmod.zero) /\
  Returns (@secp256k1_scalar_set_b32 Scalar_8x32 (be_bytes 32 (n - 1))) (fun '(o, a) => o = 0).
Proof.
  split.
  - refine (Returns_mono _ _ _ (proj1 (sc_b32_roundtrip (L := Laws_8x32) _ (be_bytes_wf 32 n))) _). intros [o a] (-> & H & _).
    rewrite be_value_bytes in H by (vm_compute; split; congruence). split; [vm_compute; reflexivity|].
    replace (toFn n) with (@Zmod.zero n) in H by (symmetry; apply (toFn_eq n 0); reflexivity). exact H.
  - refine (Returns_mono _ _ _ (proj1 (sc_b32_roundtrip (L := Laws_8x32) _ (be_bytes_wf 32 (n - 1)))) _). intros [o a] (-> & _). vm_compute. reflexivity.
Defined.

(** ** The two representations compute the same *)

Lemma sc_expr_run_ok {S : ScalarOps} {L : ScalarLaws S} e : sc_expr_ok e = true -> Returns (sc_expr_run e) (fun a => sc_ok a (sc_expr_value e)).
Proof.
  induction e as [k|b|e IH|e IH flag|e1 IH1 e2 IH2|e1 IH1 e2 IH2|e IH|e IH]; intros H; cbn [sc_expr_ok sc_expr_run sc_expr_value] in *;
    try (eapply Returns_bind; [exact (IH H)|]; intros a Ha);
    try (apply andb_prop in H as [H1 H2]; eapply Returns_bind; [exact (IH1 H1)|]; intros a1 Ha1; eapply Returns_bind; [exact (IH2 H2)|]; intros a2 Ha2).
  - apply Returns_ret. apply sc_set_int_ok. lia.
  - eapply Returns_bind; [exact (sc_set_b32_ok b (bytes_of_len_test b H))|]. intros [o a] [_ Ha]. exact Ha.
  - apply Returns_ret. exact (sc_negate_ok a _ Ha).
  - apply Returns_ret. pose proof (sc_cond_negate_ok a _ flag Ha) as Hc. destruct (secp256k1_scalar_cond_negate a flag) as [s r]. apply Hc.
  - eapply Returns_bind; [exact (sc_add_ok _ _ _ _ Ha1 Ha2)|]. intros [o r] [_ Hr]. exact Hr.
  - exact (sc_mul_ok _ _ _ _ Ha1 Ha2).
  - exact (sc_sqr_ok _ _ Ha).
  - exact (sc_inverse_ok _ _ Ha).
Qed.

Lemma sc_expr_bytes_ok {S : ScalarOps} {L : ScalarLaws S} e : sc_expr_ok e = true ->
  sc_expr_bytes e = Some (be_bytes 32 (Zmod.to_Z (sc_expr_value e))).
Proof.
  intros H. destruct (proj1 (Returns_exists _ _) (sc_expr_run_ok e H)) as (a & Ea & Ha). unfold sc_expr_bytes. rewrite Ea. cbn [bind].
  rewrite (sc_get_b32_ok a _ Ha). reflexivity.
Qed.

(** C36: an expression over the scalar operations gives the same bytes in the 4x64 and
    in the 8x32 representation, those of its value modulo the order, and passes all
    assertions in both. *)
Theorem sc_representations_agree e : sc_expr_ok e = true ->
  sc_expr_bytes (S := Scalar_4x64) e = sc_expr_bytes (S := Scalar_8x32) e /\
  sc_expr_bytes (S := Scalar_8x32) e = Some (be_bytes 32 (Zmod.to_Z (sc_expr_value e))).
Proof. intros H. rewrite (sc_expr_bytes_ok (L := Laws_4x64) e H), (sc_expr_bytes_ok (L := Laws_8x32) e H). split; reflexivity. Qed.

Lemma sc_representations_agree_witness :
  let e := ScMul (ScAdd (ScBytes (repeat 255 32)) (ScInverse (ScInt 3))) (ScCondNegate (ScSqr (ScInt 65537)) 1) in
  sc_expr_bytes (S := Scalar_4x64) e = sc_expr_bytes (S := Scalar_8x32) e.
Proof. intros e. exact (proj1 (sc_representations_agree e eq_refl)). Defined.

(** ** Inverses, windows and the split *)

(** The addition chain of [secp256k1_scalar_inverse] (and of the builtin
    [secp256k1_scalar_inverse_var]) computes the inverse of every nonzero scalar,
    and zero for zero. *)
Theorem sc_inverse_correct {S : ScalarOps} {L : ScalarLaws S} a v : sc_ok a v ->
  Returns (secp256k1_scalar_inverse a) (fun r => exists w, sc_ok r w /\
    (v <> Zmod.zero -> (v * w)%Zmod = Zmod.one) /\ (v = Zmod.zero -> w = Zmod.zero)) /\
  secp256k1_scalar_inverse_var a = secp256k1_scalar_inverse a.
Proof.
  intros Ha. split; [|reflexivity]. eapply Returns_mono; [exact (sc_inverse_ok a v Ha)|]. intros r Hr.
  exists (Zmod.inv v). split; [exact Hr|]. split; [|intros ->; apply Zmod.inv_0]. intros Hv. field. exact Hv.
Qed.

Lemma sc_inverse_witness : Returns (@secp256k1_scalar_inverse Scalar_8x32 (secp256k1_scalar_set_int 2)) (fun r =>
  exists w, sc_ok r w /\ (toFn 2 * w)%Zmod = Zmod.one).
Proof.
  refine (Returns_mono _ _ _ (proj1 (sc_inverse_correct (L := Laws_8x32) _ (toFn 2) (sc_set_int_ok 2 ltac:(lia)))) _).
  intros r (w & Hr & H & _). exists w. split; [exact Hr|]. apply H. intros E. apply (f_equal Zmod.to_Z) in E.
  rewrite toFn_small in E by (vm_compute; split; congruence). discriminate.
Defined.

Lemma read_windows_ok {S : ScalarOps} {L : ScalarLaws S} a v c k offset : sc_ok a v -> 0 < c < 32 -> 0 <= offset ->
  offset + c * Z.of_nat k < 256 + c -> Returns (read_windows a c offset k) (fun x => 2 ^ (c * Z.of_nat k) * (Zmod.to_Z v / 2 ^ (offset + c * Z.of_nat k)) + x = Zmod.to_Z v / 2 ^ offset).
Proof.
  intros Ha Hc. revert offset. induction k as [|k IH]; intros offset Ho Hk; cbn [read_windows].
  - apply Returns_ret. replace (c * Z.of_nat 0) with 0 by lia. rewrite !Z.add_0_r, Z.pow_0_r, Z.mul_1_l. reflexivity.
  - destruct Ha as [Ha Ea]. assert (offset < 256) by lia.
    eapply Returns_bind; [apply (sc_get_bits_var_law a offset (Z.min c (256 - offset)) Ha); lia|]. intros x ->.
    eapply Returns_bind; [apply (IH (offset + c)); lia|]. intros y Hy. apply Returns_ret. rewrite Ea.
    assert (0 < 2 ^ c /\ 0 < 2 ^ offset) as [Pc Po] by (split; apply Z.pow_pos_nonneg; lia).
    assert (Zmod.to_Z v / 2 ^ offset mod 2 ^ Z.min c (256 - offset) = Zmod.to_Z v / 2 ^ offset mod 2 ^ c) as ->.
    { destruct (Z.min_spec c (256 - offset)) as [[_ ->] | [Hle ->]]; [reflexivity|]. pose proof (Fn_range v) as Hv.
      assert (0 <= Zmod.to_Z v / 2 ^ offset < 2 ^ (256 - offset)).
      { split; [apply Z.div_pos; lia|]. apply Z.div_lt_upper_bound; [lia|]. rewrite <- Z.pow_add_r by lia.
        replace (offset + (256 - offset)) with 256 by lia. assert (n <= 2 ^ 256) by discriminate. lia. }
      rewrite !Z.mod_small; [reflexivity | | lia]. pose proof (Z.pow_le_mono_r 2 (256 - offset) c). lia. }
    replace (c * Z.of_nat (Datatypes.S k)) with (c + c * Z.of_nat k) by lia. rewrite Z.pow_add_r, (Z.add_assoc offset) by lia.
    pose proof (Z.div_mod (Zmod.to_Z v / 2 ^ offset) (2 ^ c) ltac:(lia)) as E. rewrite Z.div_div, <- Z.pow_add_r in E by lia.
    rewrite <- Hy in E. etransitivity; [|symmetry; exact E]. ring.
Qed.

(** Reading a scalar in windows of [c] bits (less in the last one) until bit 256
    is reached, with [secp256k1_scalar_get_bits_var], loses nothing: the windows write
    the scalar. *)
Theorem sc_windows_correct {S : ScalarOps} {L : ScalarLaws S} a v c k : sc_ok a v -> 0 < c < 32 ->
  256 <= c * Z.of_nat k < 256 + c -> Returns (read_windows a c 0 k) (fun x => x = Zmod.to_Z v).
Proof.
  intros Ha Hc Hk. eapply Returns_mono; [apply (read_windows_ok a v c k 0 Ha Hc); lia|]. intros x Hx.
  rewrite Z.pow_0_r, Z.div_1_r in Hx. pose proof (Fn_range v) as Hv. rewrite (Z.div_small (Zmod.to_Z v)) in Hx; [lia|].
  split; [lia|]. apply Z.lt_le_trans with (2 ^ 256); [assert (n <= 2 ^ 256) by discriminate; lia | apply Z.pow_le_mono_r; lia].
Qed.

Lemma sc_windows_witness : Returns (@read_windows Scalar_8x32 top_8x32 5 0 52) (fun x => x = n - 1).
Proof.
  assert (@sc_ok Scalar_8x32 Laws_8x32 top_8x32 (toFn (n - 1))) as H.
  { split; [exact top_8x32_inv|]. rewrite toFn_small by (vm_compute; split; congruence). reflexivity. }
  refine (Returns_mono _ _ _ (sc_windows_correct (L := Laws_8x32) top_8x32 (toFn (n - 1)) 5 52 H _ _) _); [lia | lia|].
  intros x ->. apply toFn_small. vm_compute. split; congruence.
Defined.

(** [secp256k1_scalar_split_lambda] writes a scalar [v] as [v1 + lambda * v2] for the
    cube root of unity [lambda] modulo the order, and both parts, as integers around
    zero, are below [2 ^ 128] in absolute value. *)
Theorem sc_split_lambda_correct {S : ScalarOps} {L : ScalarLaws S} a v : sc_ok a v ->
  Returns (secp256k1_scalar_split_lambda a) (fun '(r1, r2) => exists v1 v2, sc_ok r1 v1 /\ sc_ok r2 v2 /\
    (v1 + lambda * v2)%Zmod = v /\ Z.abs (signed v1) < 2 ^ 128 /\ Z.abs (signed v2) < 2 ^ 128) /\
  (lambda * lambda + lambda + Zmod.one)%Zmod = Zmod.zero.
Proof. intros Ha. split; [exact (sc_split_lambda_ok a v Ha) | exact lambda_root]. Qed.

Lemma sc_split_lambda_witness : Returns (@secp256k1_scalar_split_lambda Scalar_8x32 top_8x32) (fun '(r1, r2) =>
  exists v1 v2, sc_ok r1 v1 /\ sc_ok r2 v2 /\ (v1 + lambda * v2)%Zmod = toFn (n - 1)).
Proof.
  assert (@sc_ok Scalar_8x32 Laws_8x32 top_8x32 (toFn (n - 1))) as H.
  { split; [exact top_8x32_inv|]. rewrite toFn_small by (vm_compute; split; congruence). reflexivity. }
  refine (Returns_mono _ _ _ (proj1 (sc_split_lambda_correct (L := Laws_8x32) top_8x32 (toFn (n - 1)) H)) _).
  intros [r1 r2] (v1 & v2 & H1 & H2 & E & _). exists v1, v2. split; [exact H1|]. split; [exact H2|]. exact E.
Defined.
