(* ===== verification/HashTheorems.v ===== *)
(** * Properties of the hash functions *)

From Stdlib Require Import ZArith Lia List Bool.
From S2P Require Import Prelude Modulus Bytes Hash HashSpec.
Import ListNotations.

#[local] Open Scope Z_scope.
#[local] Open Scope checked_scope.

(** A context initialized, written to piece by piece, and finished. *)
Definition sha256_run (h : secp256k1_sha256_t) (pieces : list (list Z)) : checked (list Z) :=
  h <- fold_left (fun h d => h <- h;; secp256k1_sha256_write h d) pieces (ret (secp256k1_sha256_initialize h));;
  ' (_, out) <- secp256k1_sha256_finalize h;;
  ret out.

Definition hmac_run (h : secp256k1_hmac_sha256_t) (sha : secp256k1_sha256_t) (key : list Z) (pieces : list (list Z)) : checked (list Z) :=
  h <- secp256k1_hmac_sha256_initialize h sha key;;
  h <- fold_left (fun h d => h <- h;; secp256k1_hmac_sha256_write h d) pieces (ret h);;
  ' (_, out) <- secp256k1_hmac_sha256_finalize h;;
  ret out.

(** A generator seeded with [key] and read [k] times, [len] bytes each. *)
Definition rng_run (hmac : secp256k1_hmac_sha256_t) (sha : secp256k1_sha256_t) (key : list Z) (k len : nat) : checked (list (list Z)) :=
  rng <- secp256k1_rfc6979_hmac_sha256_initialize hmac sha key;;
  ' (_, outs) <- repeat_checked k (fun '(rng, outs) =>
      ' (rng, out) <- secp256k1_rfc6979_hmac_sha256_generate hmac sha rng len;; ret (rng, outs ++ [out])) (rng, []);;
  ret outs.

Definition sha_garbage : secp256k1_sha256_t := mk_sha (repeat 0x55 8) (repeat 0xAA 64) 0x1234.
Definition hmac_garbage : secp256k1_hmac_sha256_t := mk_hmac sha_garbage sha_garbage.

Lemma sha_writes_ok h m pieces : sha_repr h m -> Forall (Forall is_byte) pieces -> Z.of_nat (length (m ++ concat pieces)) < 2 ^ 64 ->
  Returns (fold_left (fun h d => bind h (fun h => secp256k1_sha256_write h d)) pieces (ret h)) (fun h' => sha_repr h' (m ++ concat pieces)).
Proof.
  revert h m. induction pieces as [|d pieces IH]; intros h m Hr Hd Hl; cbn [concat fold_left].
  - rewrite app_nil_r. exact Hr.
  - inversion Hd as [|? ? Hd1 Hd2]; subst. cbn [concat] in Hl. rewrite app_assoc in *.
    pose proof (sha_write_ok h m d Hr Hd1 ltac:(rewrite !length_app in *; lia)) as Hw.
    apply Returns_exists in Hw. destruct Hw as (h' & E & Hr'). cbn [bind ret]. rewrite E. apply IH; assumption.
Qed.

(** C39: the context of SHA-256 streams.  Initialized over a buffer with any
    content and written to in any pieces, of any sizes, that make up a message of
    fewer than 2^61 bytes, it gives the digest that FIPS 180-4 defines for the
    message. *)
Theorem sha256_correct h pieces : length (sha_buf h) = 64%nat -> Forall (Forall is_byte) pieces ->
  Z.of_nat (length (concat pieces)) < 2 ^ 61 ->
  Returns (sha256_run h pieces) (fun out => out = SHA256 (concat pieces)).
Proof.
  intros Hb Hp Hl. unfold sha256_run.
  eapply Returns_bind; [apply (sha_writes_ok _ [] pieces (sha_initialize_ok h Hb) Hp); cbn [app]; lia|]. intros h' Hh.
  eapply Returns_bind; [apply (sha_finalize_ok h' _ Hh Hl)|]. intros [h'' out] [-> _]. reflexivity.
Qed.

(** "abc" in two pieces, with its published digest. *)
Lemma sha256_witness : Returns (sha256_run sha_garbage [[0x61]; [0x62; 0x63]]) (fun out =>
  out = be_bytes 32 0xba7816bf8f01cfea414140de5dae2223b00361a396177a9cb410ff61f20015ad).
Proof.
  refine (Returns_mono _ _ _ (sha256_correct sha_garbage [[0x61]; [0x62; 0x63]] eq_refl _ eq_refl) _).
  - repeat constructor; discriminate.
  - intros out ->. vm_compute. reflexivity.
Defined.

(** The unrolled transformation of the code, which keeps its eight variables
    in place and sixteen words of the schedule, is the compression function of the
    standard: 64 rounds with the schedule expanded to 64 words. *)
Theorem sha256_transform_correct s buf : bytes_of_len 64 buf ->
  secp256k1_sha256_transform s (load32 buf) = fips_compress s (fips_words buf).
Proof. exact (transform_words s buf). Qed.

Lemma sha256_transform_witness : bytes_of_len 64 (repeat 0x5A 64) /\
  secp256k1_sha256_transform fips_init (load32 (repeat 0x5A 64)) = fips_compress fips_init (fips_words (repeat 0x5A 64)).
Proof.
  assert (bytes_of_len 64 (repeat 0x5A 64)) as H by (split; [reflexivity | repeat constructor; discriminate]).
  exact (conj H (sha256_transform_correct fips_init (repeat 0x5A 64) H)).
Defined.

(** HMAC-SHA-256 of a message written in pieces is the one RFC 2104 defines,
    for keys of any length, those longer than a block included, which are hashed
    first. *)
Theorem hmac_sha256_correct h sha key pieces : hmac_bufs h -> length (sha_buf sha) = 64%nat ->
  Forall is_byte key -> Z.of_nat (length key) < 2 ^ 61 ->
  Forall (Forall is_byte) pieces -> Z.of_nat (64 + length (concat pieces)) < 2 ^ 61 ->
  Returns (hmac_run h sha key pieces) (fun out => out = HMAC key (concat pieces)).
Proof.
  intros Hh Hs Hk Hkl Hp Hl. unfold hmac_run.
  eapply Returns_bind; [apply (hmac_initialize_ok h sha key Hh Hs Hk Hkl)|]. intros h1 H1.
  eapply Returns_bind; [apply (hmac_writes_ok h1 key [] pieces Hk Hp Hl H1)|]. intros h2 H2.
  eapply Returns_bind; [apply (hmac_finalize_ok h2 key _ H2 Hl Hk)|]. intros [h3 out] [-> _]. reflexivity.
Qed.

(** Test case 6 of RFC 4231: a key of 131 bytes. *)
Lemma hmac_sha256_witness : Returns (hmac_run hmac_garbage sha_garbage (repeat 0xaa 131)
    [[0x54; 0x65; 0x73; 0x74; 0x20; 0x55; 0x73; 0x69; 0x6e; 0x67; 0x20; 0x4c; 0x61; 0x72; 0x67; 0x65; 0x72; 0x20; 0x54; 0x68; 0x61; 0x6e; 0x20];
     [0x42; 0x6c; 0x6f; 0x63; 0x6b; 0x2d; 0x53; 0x69; 0x7a; 0x65; 0x20; 0x4b; 0x65; 0x79; 0x20; 0x2d; 0x20];
     [0x48; 0x61; 0x73; 0x68; 0x20; 0x4b; 0x65; 0x79; 0x20; 0x46; 0x69; 0x72; 0x73; 0x74]])
  (fun out => out = be_bytes 32 0x60e431591ee0b67f0d8a26aacbf5b77f8e0bc6213728c5140546040f0ee37f54).
Proof.
  refine (Returns_mono _ _ _ (hmac_sha256_correct hmac_garbage sha_garbage (repeat 0xaa 131) _ (conj eq_refl eq_refl) eq_refl _ eq_refl _ _) _).
  - repeat constructor; discriminate.
  - repeat constructor; discriminate.
  - reflexivity.
  - intros out ->. vm_compute. reflexivity.
Defined.

Lemma rng_reads_ok hmac sha key k len : hmac_bufs hmac -> length (sha_buf sha) = 64%nat -> Z.of_nat len < 2 ^ 31 ->
  forall rng i outs, rng_at rng key len i ->
  Returns (repeat_checked k (fun '(rng, outs) =>
      ' (rng, out) <- secp256k1_rfc6979_hmac_sha256_generate hmac sha rng len;; ret (rng, outs ++ [out])) (rng, outs))
    (fun '(_, outs') => outs' = outs ++ map (RFC6979_read key len) (seq i k)).
Proof.
  intros Hh Hs Hl. induction k as [|k IH]; intros rng i outs Hr; cbn [repeat_checked seq map].
  - cbn. rewrite app_nil_r. reflexivity.
  - pose proof (rng_at_read hmac sha Hh Hs rng key len i Hr Hl) as Hg.
    apply Returns_exists in Hg. destruct Hg as ([rng' out] & E & -> & Hr'). cbn [bind]. rewrite E. cbn [bind ret].
    refine (Returns_mono _ _ _ (IH rng' (S i) _ Hr') _). intros [rng2 outs'] ->. rewrite <- app_assoc. reflexivity.
Qed.

(** C40: the deterministic generator: seeded with any key material and read any
    number of times, it gives the bytes of the HMAC generator of RFC 6979, 3.2,
    with the update of step h between two reads. *)
Theorem rfc6979_correct hmac sha key k len : hmac_bufs hmac -> length (sha_buf sha) = 64%nat ->
  Forall is_byte key -> Z.of_nat (length key) < 2 ^ 60 -> Z.of_nat len < 2 ^ 31 ->
  Returns (rng_run hmac sha key k len) (fun outs => outs = map (RFC6979_read key len) (seq 0 k)).
Proof.
  intros Hh Hs Hk Hkl Hl. unfold rng_run.
  eapply Returns_bind; [apply (rng_at_start hmac sha Hh Hs key len Hk Hkl)|]. intros rng Hr.
  eapply Returns_bind; [apply (rng_reads_ok hmac sha key k len Hh Hs Hl rng 0 [] Hr)|]. intros [rng2 outs] ->. reflexivity.
Qed.

Lemma rfc6979_witness : Returns (rng_run hmac_garbage sha_garbage (repeat 0x01 64) 2 40) (fun outs =>
  outs = [RFC6979_read (repeat 0x01 64) 40 0; RFC6979_read (repeat 0x01 64) 40 1]).
Proof.
  apply (rfc6979_correct hmac_garbage sha_garbage (repeat 0x01 64) 2 40 (conj eq_refl eq_refl) eq_refl); [|reflexivity|reflexivity].
  repeat constructor; discriminate.
Defined.
