(* ===== verification/EcmultTheorems.v ===== *)
(** * Properties of the multiplications of points and of the contexts *)

From Stdlib Require Import String ZArith Lia List Bool.
From S2P Require Import Prelude Modulus Bytes Field FieldReprs FieldImpl Curve CurveGroup CurveOrder Group GroupConv Scalar ScalarReprs ScalarImpl Hash HashSpec Nums Ecmult Wnaf EcmultSpec EcmultGen EcmultGenSpec EcmultConst EcmultConstSpec Objects Buffer Eckey Ecdsa Secp256k1 Recovery Ecdh Der Signatures EcdsaSpec EckeySpec ApiSpec ApiKeys ApiSign ApiEcdh ContextSpec Build.
Import ListNotations.

#[local] Open Scope Z_scope.
#[local] Open Scope checked_scope.

Section Properties.
Context {F : FieldOps} {L : FieldLaws F} {SO : ScalarOps} {SL : ScalarLaws SO} {Ob : Objects F SO} {OL : ObjectLaws L SL Ob} {M : Memory F SO} {H : HashMemory} {A : ApiMemory}.

(** C5: [secp256k1_ecmult], with its tables of odd multiples, wNAF digits and scaled
    coordinates, computes [na * A + ng * G] on the curve, for every finite point and all
    scalars, in the build with the endomorphism and in the one without it. *)
Theorem ecmult_correct ctx a P na ng : ecmult_ready ctx -> gej_ok a P -> on_curve P -> P <> Infinity -> sc_wf na -> sc_wf ng ->
  Returns (secp256k1_ecmult ctx a na ng) (fun r => gej_ok r (padd (pmul (sc_Z na) P) (pmul (sc_Z ng) G))).
Proof. intros Hctx Ha HP Hfin. exact (ecmult_ok ctx a P na ng Hctx Ha HP (gej_ok_finite _ _ Ha Hfin)). Qed.

(** C9: the three multiplications agree: the blinded comb of [secp256k1_ecmult_gen],
    the constant-time windows of [secp256k1_ecmult_const] and the variable-time wNAF
    of [secp256k1_ecmult] give the same multiple of the base point, in the build with
    the endomorphism and in the one without it. *)
Theorem multiplications_agree ctx gen k zero : ecmult_ready ctx -> gen_ready gen -> sc_wf k -> sc_ok zero Zmod.zero ->
  Returns (g <- secp256k1_gej_set_ge secp256k1_ge_const_g;;
           r1 <- secp256k1_ecmult ctx g k zero;;
           r2 <- secp256k1_ecmult ctx g zero k;;
           r3 <- secp256k1_ecmult_gen gen k;;
           r4 <- secp256k1_ecmult_const secp256k1_ge_const_g k;;
           ret [r1; r2; r3; r4]) (Forall (fun r => gej_ok r (pmul (sc_Z k) G))).
Proof.
  intros Hctx Hgen Hk [Hz Ez]. assert (Hfin : G <> Infinity) by discriminate.
  eapply Returns_bind; [exact (gej_set_ge_ok _ _ ge_const_g_ok)|]. intros g Hg. pose proof (gej_ok_finite _ _ Hg Hfin) as Ig.
  eapply Returns_bind; [exact (ecmult_ok ctx g G k zero Hctx Hg G_on_curve Ig Hk Hz)|]. intros r1 H1. eapply Returns_bind; [exact (ecmult_ok ctx g G zero k Hctx Hg G_on_curve Ig Hz Hk)|]. intros r2 H2.
  eapply Returns_bind; [exact (ecmult_gen_ok gen k Hgen Hk)|]. intros r3 H3. eapply Returns_bind; [exact (ecmult_const_ok _ G k ge_const_g_ok (ge_ok_finite _ _ ge_const_g_ok Hfin) G_on_curve Hfin Hk)|].
  intros r4 H4. change (Zmod.to_Z Zmod.zero) with 0 in Ez. rewrite Ez, padd_infinity_r in H1. rewrite Ez in H2. apply Returns_ret. repeat apply Forall_cons; try apply Forall_nil; assumption.
Qed.

(** C22: the blinding does not change what is computed: a context and the same context
    with a new blinding from any seed give the same multiple. *)
Theorem ecmult_gen_blinding fuel ctx seed gn : gen_ready ctx -> seed_ok seed -> sc_wf gn ->
  blind_reads_ok fuel (blind_key (match seed with Some _ => sc_Z (blind ctx) | None => 1 end) seed) ->
  Returns (ctx' <- secp256k1_ecmult_gen_blind fuel ctx seed;;
           r <- secp256k1_ecmult_gen ctx gn;;
           r' <- secp256k1_ecmult_gen ctx' gn;;
           ret (r, r')) (fun '(r, r') => gej_ok r (pmul (sc_Z gn) G) /\ gej_ok r' (pmul (sc_Z gn) G)).
Proof.
  intros Hc Hs Hg Hr. pose proof Hc as ((rows & E & Hl & Hrows) & _).
  eapply Returns_bind; [exact (ecmult_gen_blind_ok fuel ctx seed rows E Hl Hrows Hs (fun _ => Hc) Hr)|]. intros ctx' [Hc' _].
  eapply Returns_bind; [exact (ecmult_gen_ok ctx gn Hc Hg)|]. intros r H1. eapply Returns_bind; [exact (ecmult_gen_ok ctx' gn Hc' Hg)|]. intros r' H2. split; assumption.
Qed.

(** The wNAF of a scalar: the digits are odd or zero and below [2^(w-1)], two
    nonzero digits are at least [w] places apart, they are worth the scalar modulo the
    order, and the returned count is the place after the last nonzero digit. *)
Theorem wnaf_correct len a w : sc_wf a -> 1 <= len <= 256 -> 2 <= w <= 30 -> Z.abs (wnaf_signed (sc_Z a)) < 2 ^ (len - 1) ->
  Returns (secp256k1_ecmult_wnaf len a w) (fun '(l, bits) => Z.of_nat (length l) = len /\ naf_value l mod n = sc_Z a /\ wnaf_ok w l /\
    0 <= bits <= len /\ (0 < bits -> nth (Z.to_nat (bits - 1)) l 0 <> 0) /\ (forall i, bits <= Z.of_nat i -> nth i l 0 = 0)).
Proof.
  intros Ha Hl Hw HV. eapply Returns_mono; [exact (ecmult_wnaf_ok len a w Ha Hl Hw HV)|]. intros [l bits] (H1 & H2 & H3). split; [exact H1|]. split; [|exact H3].
  rewrite H2, wnaf_signed_mod. apply Z.mod_small, sc_range, Ha.
Qed.

(** C23: [secp256k1_context_create] makes the tables its flags ask for, and no other,
    without a failure of its assertions; it aborts on flags of another type. *)
Theorem context_create_correct fuel flags : (0 < fuel)%nat ->
  if Z.land flags SECP256K1_FLAGS_TYPE_MASK =? SECP256K1_FLAGS_TYPE_CONTEXT then
    Quiet (secp256k1_context_create fuel flags) (fun o => exists ctx, o = Some ctx /\ context_ok (sign_flag flags) (verify_flag flags) ctx)
  else secp256k1_context_create fuel flags = None.
Proof.
  intros Hf. destruct (Z.eqb_spec (Z.land flags SECP256K1_FLAGS_TYPE_MASK) SECP256K1_FLAGS_TYPE_CONTEXT) as [E|E].
  - eapply Quiet_mono; [exact (context_create_ok fuel flags E Hf)|]. intros o (ctx & Eo & Hc & _). exists ctx. auto.
  - unfold secp256k1_context_create. rewrite (proj2 (Z.eqb_neq _ _) E). reflexivity.
Qed.

(** C15: what recovery returns, verification accepts: if
    [secp256k1_ext_ecdsa_recover] finds a key for a signature,
    [secp256k1_ext_ecdsa_verify] accepts the signature under that key, as encoded,
    exactly when its [s] is low. *)
Theorem ext_recover_verify ctx out a b i msg : verify_ready ctx -> bytes_of_len 65 out -> bytes_of_len 32 a -> bytes_of_len 32 b -> bytes_of_len 32 msg -> 0 <= i < 4 ->
  Quiet (' (key, ok) <~ secp256k1_ext_ecdsa_recover ctx out (a ++ b ++ [i]) msg;;
         ok' <~ secp256k1_ext_ecdsa_verify ctx (a ++ b) msg key;;
         done (ok, ok')) (fun '(ok, ok') => ok = true -> (ok' = true <-> low_s (residue b))).
Proof.
  intros Hv Hout Ha Hb Hm Hi. eapply Quiet_bind; [exact (ext_ecdsa_recover_ok ctx out a b i msg Hv (proj1 Hout) Ha Hb Hm Hi)|]. intros [key ok] Hkey.
  assert (Hbytes : is_bytes key) by (destruct ok; [destruct Hkey as (_ & _ & x & y & _ & ->); apply (encode_point_bytes false) | destruct Hkey as [-> _]; apply Hout]).
  eapply Quiet_bind; [exact (ext_ecdsa_verify_ok ctx a b msg key Hv Ha Hb Hm Hbytes)|]. intros ok' Hok. apply Quiet_done. intros ->. rewrite Hok.
  destruct Hkey as (Hra & Hrb & x & y & (Hr & Hs & R & HR & EQ & Hfin) & ->). split; [intros (_ & _ & Q & _ & HL & _); exact HL|]. intros HL.
  assert (HC : on_curve (Affine x y)). { rewrite EQ. apply padd_closed; apply fmul_on_curve; [destruct HR as (? & ? & _ & HC & _); exact HC | apply G_on_curve]. }
  split; [exact Hra|]. split; [exact Hrb|]. exists (Affine x y). split; [exact (encode_point_encodes false x y HC)|]. split; [exact HL|]. rewrite EQ. exact (ecdsa_valid_recovered R _ _ _ i Hr Hs HR).
Qed.

End Properties.

(** ** Witnesses *)

(** The scalar 1 and the sample context. *)
Lemma ecmult_witness : exists (ctx : secp256k1_context) (g : secp256k1_gej),
  Returns (secp256k1_ecmult (ecmult_ctx ctx) g (secp256k1_scalar_set_int 1) (secp256k1_scalar_set_int 2)) (fun r => gej_ok r (padd (pmul 1 G) (pmul 2 G))).
Proof.
  sample_ctx. pose proof (gej_set_ge_ok _ _ ge_const_g_ok) as HG. destruct (secp256k1_gej_set_ge secp256k1_ge_const_g) as [g|]; [|contradiction]. exists g.
  destruct (sc_set_int_law 1 ltac:(lia)) as [H1 E1]. destruct (sc_set_int_law 2 ltac:(lia)) as [H2 E2].
  refine (Returns_mono _ _ _ (ecmult_correct (ecmult_ctx ctx) g G _ _ Hverify HG G_on_curve ltac:(discriminate) H1 H2) _). intros r Hr. rewrite E1, E2 in Hr. exact Hr.
Defined.

Lemma multiplications_agree_witness : exists (ctx : secp256k1_context) (k : secp256k1_scalar),
  Returns (g <- secp256k1_gej_set_ge secp256k1_ge_const_g;;
           r1 <- secp256k1_ecmult (ecmult_ctx ctx) g k (secp256k1_scalar_set_int 0);;
           r2 <- secp256k1_ecmult (ecmult_ctx ctx) g (secp256k1_scalar_set_int 0) k;;
           r3 <- secp256k1_ecmult_gen (ecmult_gen_ctx ctx) k;;
           r4 <- secp256k1_ecmult_const secp256k1_ge_const_g k;;
           ret [r1; r2; r3; r4]) (Forall (fun r => gej_ok r (pmul (sc_Z k) G))).
Proof.
  sample_ctx. exists (secp256k1_scalar_set_int 7).
  refine (multiplications_agree (ecmult_ctx ctx) (ecmult_gen_ctx ctx) (secp256k1_scalar_set_int 7) (secp256k1_scalar_set_int 0) Hverify Hsign _ (sc_set_int_ok 0 ltac:(lia))).
  exact (proj1 (sc_set_int_law 7 ltac:(lia))).
Defined.

(** The blinding of a new context. *)
Lemma ecmult_gen_blinding_witness : exists ctx : secp256k1_context,
  Returns (ctx' <- secp256k1_ecmult_gen_blind 1 (ecmult_gen_ctx ctx) None;;
           r <- secp256k1_ecmult_gen (ecmult_gen_ctx ctx) (secp256k1_scalar_set_int 7);;
           r' <- secp256k1_ecmult_gen ctx' (secp256k1_scalar_set_int 7);;
           ret (r, r')) (fun '(r, r') => gej_ok r (pmul 7 G) /\ gej_ok r' (pmul 7 G)).
Proof.
  sample_ctx. destruct (sc_set_int_law 7 ltac:(lia)) as [H7 E7].
  refine (Returns_mono _ _ _ (ecmult_gen_blinding 1 (ecmult_gen_ctx ctx) None _ Hsign I H7 (reads_check_ok 1 _ default_reads (le_n 1))) _).
  intros [r r'] HQ. rewrite E7 in HQ. exact HQ.
Defined.

Lemma wnaf_witness : Returns (secp256k1_ecmult_wnaf 256 (secp256k1_scalar_set_int 23) 5) (fun '(l, bits) => naf_value l mod n = 23 /\ wnaf_ok 5 l).
Proof.
  destruct (sc_set_int_law 23 ltac:(lia)) as [H23 E]. refine (Returns_mono _ _ _ (wnaf_correct 256 _ 5 H23 ltac:(lia) ltac:(lia) _) _); [rewrite E; reflexivity|].
  intros [l bits] (_ & HV & HW & _). rewrite E in HV. exact (conj HV HW).
Defined.

Lemma context_create_witness : Quiet (secp256k1_context_create 1 sample_flags) (fun o => exists ctx, o = Some ctx /\ context_ok true true ctx).
Proof.
  pose proof (context_create_correct 1 sample_flags (le_n 1)) as HC.
  assert (E : (Z.land sample_flags SECP256K1_FLAGS_TYPE_MASK =? SECP256K1_FLAGS_TYPE_CONTEXT) = true) by reflexivity.
  assert (Es : sign_flag sample_flags = true) by reflexivity. assert (Ev : verify_flag sample_flags = true) by reflexivity. rewrite E, Es, Ev in HC. exact HC.
Defined.

(** The recovery of a key from arbitrary bytes. *)
Lemma ext_recover_verify_witness : exists ctx : secp256k1_context,
  Quiet (' (key, ok) <~ secp256k1_ext_ecdsa_recover ctx (4 :: blank64) (sample_msg ++ sample_msg ++ [0]) sample_msg;;
         ok' <~ secp256k1_ext_ecdsa_verify ctx (sample_msg ++ sample_msg) sample_msg key;;
         done (ok, ok')) (fun '(ok, ok') => ok = true -> (ok' = true <-> low_s (residue sample_msg))).
Proof.
  sample_ctx. refine (ext_recover_verify ctx (4 :: blank64) sample_msg sample_msg 0 sample_msg Hverify _ sample_msg_bytes sample_msg_bytes sample_msg_bytes ltac:(lia)).
  destruct blank64_bytes as [H1 H2]. split; [cbn [length]; rewrite H1; reflexivity | apply Forall_cons; [unfold is_byte; lia | exact H2]].
Defined.
