(* ===== verification/ApiTheorems.v ===== *)
(** * Properties of signing, verifying and recovering *)

From Stdlib Require Import String ZArith Lia List Bool.
From S2P Require Import Prelude Modulus Bytes Field FieldReprs FieldImpl Curve CurveGroup CurveOrder Group GroupConv Scalar ScalarReprs ScalarImpl Hash HashSpec Ecmult EcmultSpec EcmultGen EcmultGenSpec EcmultConst Objects Buffer Eckey Ecdsa Secp256k1 Recovery Ecdh Der Signatures EcdsaSpec EckeySpec ApiSpec ApiKeys ApiSign ApiEcdh ContextSpec Build.
Import ListNotations.

#[local] Open Scope Z_scope.
#[local] Open Scope checked_scope.

Section Programs.
Context {F : FieldOps} {SO : ScalarOps} {Ob : Objects F SO} {M : Memory F SO} {H : HashMemory} {A : ApiMemory}.

(** Make the public key of a secret, sign a message with the secret, verify. *)
Definition sign_then_verify (fuel : nat) (ctx : secp256k1_context) (pk0 sig0 msg seckey : list Z) (data : option (list Z)) : api bool :=
  ' (pk, _) <~ secp256k1_ec_pubkey_create ctx (Some pk0) (Some seckey);;
  ' (sig, _) <~ secp256k1_ecdsa_sign fuel ctx (Some sig0) (Some msg) (Some seckey) None data;;
  secp256k1_ecdsa_verify ctx sig (Some msg) pk.

(** Make the public key of a secret, sign a message with the secret, recover the key
    from the signature. *)
Definition sign_then_recover (fuel : nat) (ctx : secp256k1_context) (pk0 sig0 msg seckey : list Z) (data : option (list Z)) :
    api (option (list Z) * option (list Z) * bool) :=
  ' (pk, _) <~ secp256k1_ec_pubkey_create ctx (Some pk0) (Some seckey);;
  ' (sig, _) <~ secp256k1_ecdsa_sign_recoverable fuel ctx (Some sig0) (Some msg) (Some seckey) None data;;
  ' (pk', ok) <~ secp256k1_ecdsa_recover ctx (Some pk0) sig (Some msg);;
  done (pk, pk', ok).

End Programs.

Section Properties.
Context {F : FieldOps} {L : FieldLaws F} {SO : ScalarOps} {SL : ScalarLaws SO} {Ob : Objects F SO} {OL : ObjectLaws L SL Ob} {M : Memory F SO} {H : HashMemory} {A : ApiMemory}.

(** C1: [secp256k1_ecdsa_verify] decides the verification equation of ECDSA.  On a
    context with its table, a signature object, 32 bytes and a valid public key it
    returns, calls no callback, and answers 1 exactly when [s] is in the lower half
    and the equation holds on the curve. *)
Theorem ecdsa_verify_correct ctx r s msg pk Q : verify_ready ctx -> bytes_of_len 32 msg -> valid_pubkey pk Q ->
  Quiet (secp256k1_ecdsa_verify ctx (Some (sig_obj r s)) (Some msg) (Some pk)) (fun ok => ok = true <-> low_s s /\ ecdsa_valid Q (residue msg) r s).
Proof. exact (ecdsa_verify_ok ctx r s msg pk Q). Qed.

(** C2: what [secp256k1_ecdsa_sign] returns, [secp256k1_ecdsa_verify] accepts, with
    the public key that [secp256k1_ec_pubkey_create] makes of the secret.  The
    hypotheses are that the secret is valid and that one of the first [fuel] numbers
    of RFC 6979 is accepted as a nonce; those in range have an abscissa between 0 and
    the order, as the code asserts. *)
Theorem ecdsa_sign_verify fuel ctx pk0 sig0 msg seckey data r s i : sign_ready ctx -> verify_ready ctx -> bytes_of_len 32 msg -> seckey_of seckey (residue seckey) ->
  optional_bytes 32 data -> Z.of_nat fuel < 2 ^ 32 - 1 -> nonces_usable (rfc6979_nonces fuel seckey msg data) ->
  first_signature (residue seckey) (residue msg) (rfc6979_nonces fuel seckey msg data) = Some (r, s, i) ->
  Quiet (sign_then_verify fuel ctx pk0 sig0 msg seckey data) (fun ok => ok = true).
Proof.
  intros Hs Hv Hm Hk Hd Hf HU HS. unfold sign_then_verify. eapply Quiet_bind; [exact (ec_pubkey_create_ok ctx pk0 seckey Hs (proj1 Hk))|].
  intros [o ok] [-> HP]. rewrite (seckey_of_ok _ _ Hk) in HP. destruct HP as (pk & -> & Hpk).
  eapply Quiet_bind; [exact (ecdsa_sign_ok fuel ctx sig0 msg seckey data r s i Hs Hm Hk Hd Hf HU HS)|]. intros [o ret] [_ ->].
  eapply Quiet_mono; [exact (ecdsa_verify_ok ctx r s msg pk _ Hv Hm Hpk)|]. intros ok ->.
  destruct (first_signature_nonce _ _ _ _ _ _ HS) as (v & _ & _ & Hsig). destruct (ecdsa_sign_valid _ _ _ _ _ _ Hsig). auto.
Qed.

(** C3: [secp256k1_ecdsa_recover] gives back the public key of the secret that
    [secp256k1_ecdsa_sign_recoverable] signed with, byte for byte the object that
    [secp256k1_ec_pubkey_create] makes. *)
Theorem ecdsa_sign_recover fuel ctx pk0 sig0 msg seckey data r s i : sign_ready ctx -> verify_ready ctx -> bytes_of_len 32 msg -> seckey_of seckey (residue seckey) ->
  optional_bytes 32 data -> Z.of_nat fuel < 2 ^ 32 - 1 -> nonces_usable (rfc6979_nonces fuel seckey msg data) ->
  first_signature (residue seckey) (residue msg) (rfc6979_nonces fuel seckey msg data) = Some (r, s, i) ->
  Quiet (sign_then_recover fuel ctx pk0 sig0 msg seckey data) (fun '(pk, pk', ok) => ok = true /\ pk' = pk).
Proof.
  intros Hs Hv Hm Hk Hd Hf HU HS. unfold sign_then_recover. eapply Quiet_bind; [exact (ec_pubkey_create_ok ctx pk0 seckey Hs (proj1 Hk))|].
  intros [o ok] [-> HP]. rewrite (seckey_of_ok _ _ Hk) in HP. destruct HP as (pk & -> & Hpk).
  eapply Quiet_bind; [exact (ecdsa_sign_recoverable_ok fuel ctx sig0 msg seckey data r s i Hs Hm Hk Hd Hf HU HS)|]. intros [o ret] [_ ->].
  destruct (first_signature_nonce _ _ _ _ _ _ HS) as (v & _ & _ & Hsig). destruct (ecdsa_recover_signed _ _ _ _ _ _ Hsig) as (R & HR & EQ).
  destruct (ecdsa_sign_with_inv _ _ _ _ _ _ Hsig) as (x & y & s0 & _ & _ & _ & Hr & _ & Hs0 & -> & ->).
  destruct (recid_bits (n <=? Zmod.to_Z x) (Z.odd (Zmod.to_Z y)) (n / 2 <? Zmod.to_Z s0)) as (_ & _ & Hi). set (i := Z.lxor _ _) in *.
  assert (Hrec : recovers r (lower_s s0) (residue msg) i (fmul (residue seckey) G)).
  { split; [exact Hr|]. split; [apply lower_s_nonzero, Hs0|]. exists R. rewrite EQ. split; [exact HR|]. split; [reflexivity | exact (valid_pubkey_finite _ _ Hpk)]. }
  eapply Quiet_bind; [exact (ecdsa_recover_ok ctx pk0 msg r (lower_s s0) i Hv Hm Hi)|]. intros [o' ok'] HQ. apply Quiet_done. destruct ok'.
  - split; [reflexivity|]. destruct HQ as (b & Q & -> & [Hb _] & _ & _ & R' & HR' & EQ' & _). rewrite (recid_point_unique _ _ _ _ HR' HR), EQ in EQ'. subst Q.
    f_equal. exact (pubkey_obj_unique _ _ _ Hb (proj1 Hpk)).
  - exfalso. destruct HQ as [_ HQ]. exact (HQ _ Hrec).
Qed.

(** C7: signing terminates.  With a valid secret it returns 1 as soon as the numbers
    of RFC 6979 contain an acceptable nonce, and the object holds the signature with
    the first one; with an invalid secret it returns 0 and clears the object. *)
Theorem ecdsa_sign_terminates fuel ctx sig0 msg seckey data : sign_ready ctx -> bytes_of_len 32 msg -> bytes_of_len 32 seckey ->
  optional_bytes 32 data -> Z.of_nat fuel < 2 ^ 32 - 1 -> nonces_usable (rfc6979_nonces fuel seckey msg data) ->
  if seckey_ok seckey then forall r s i, first_signature (residue seckey) (residue msg) (rfc6979_nonces fuel seckey msg data) = Some (r, s, i) ->
    Quiet (secp256k1_ecdsa_sign fuel ctx (Some sig0) (Some msg) (Some seckey) None data) (fun '(o, ret) => ret = 1 /\ o = Some (sig_obj r s)) /\
    Quiet (secp256k1_ecdsa_sign_recoverable fuel ctx (Some sig0) (Some msg) (Some seckey) None data) (fun '(o, ret) => ret = 1 /\ o = Some (recoverable_obj r s i))
  else Quiet (secp256k1_ecdsa_sign fuel ctx (Some sig0) (Some msg) (Some seckey) None data) (fun '(o, ret) => ret = 0 /\ o = Some zero_signature) /\
    Quiet (secp256k1_ecdsa_sign_recoverable fuel ctx (Some sig0) (Some msg) (Some seckey) None data) (fun '(o, ret) => ret = 0 /\ o = Some zero_recoverable).
Proof.
  intros Hs Hm Hb Hd Hf HU. destruct (seckey_ok seckey) eqn:Hk.
  - intros r s i HS. pose proof (seckey_ok_of seckey Hb Hk) as Hk'. split; [exact (ecdsa_sign_ok fuel ctx sig0 msg seckey data r s i Hs Hm Hk' Hd Hf HU HS) |
      exact (ecdsa_sign_recoverable_ok fuel ctx sig0 msg seckey data r s i Hs Hm Hk' Hd Hf HU HS)].
  - split; [unfold secp256k1_ecdsa_sign | unfold secp256k1_ecdsa_sign_recoverable]; (apply Quiet_arg; [apply sign_ready_built, Hs|]); cbn [ARG_PTR];
      (eapply Quiet_step; [exact (sign_inner_fail fuel ctx msg seckey None data _ Hb Hk)|]); intros [[[ret r] s] rec] ->; apply Quiet_done; auto.
Qed.

(** C17: [nonce_function_rfc6979] is the generator of RFC 6979 keyed with the secret,
    the message and the optional data and algorithm name, read [counter + 1] times;
    at the largest counter of all, where the loop counter wraps around, it never
    returns. *)
Theorem nonce_function_correct fuel nonce32 msg key algo data counter : bytes_of_len 32 msg -> bytes_of_len 32 key -> optional_bytes 32 data -> optional_bytes 16 algo ->
  0 <= counter < 2 ^ 32 -> counter < Z.of_nat fuel ->
  if counter =? 2 ^ 32 - 1 then nonce_function_rfc6979 fuel nonce32 msg key algo data counter = None
  else Returns (nonce_function_rfc6979 fuel nonce32 msg key algo data counter) (fun '(ret, out) => ret = 1 /\ out = RFC6979_read (nonce_key key msg data algo) 32 (Z.to_nat counter)).
Proof.
  intros Hm Hk Hd Ha Hc Hf. destruct (Z.eqb_spec counter (2 ^ 32 - 1)) as [->|Hne].
  - unfold nonce_function_rfc6979. destruct (secp256k1_rfc6979_hmac_sha256_initialize uninit_hmac uninit_sha _) as [rng|]; [|reflexivity]. cbn [bind].
    rewrite (nonce_loop_diverges fuel 0 rng nonce32 ltac:(lia)). reflexivity.
  - apply nonce_function_ok; auto. lia.
Qed.

(** C18: a signature with a high [s] is brought into the form that verification
    accepts: a valid signature stays valid, and the result tells whether it was
    changed. *)
Theorem ecdsa_normalize_verify ctx r s msg pk Q out : verify_ready ctx -> bytes_of_len 32 msg -> valid_pubkey pk Q -> ecdsa_valid Q (residue msg) r s ->
  Quiet (' (sig, high) <~ secp256k1_ecdsa_signature_normalize ctx (Some out) (Some (sig_obj r s));;
         ok <~ secp256k1_ecdsa_verify ctx sig (Some msg) (Some pk);;
         done (high, ok)) (fun '(high, ok) => ok = true /\ (high = 1 <-> ~ low_s s)).
Proof.
  intros Hv Hm Hpk HV. eapply Quiet_bind; [exact (signature_normalize_ok ctx (Some out) r s)|]. intros [o high] [-> ->].
  eapply Quiet_bind; [exact (ecdsa_verify_ok ctx r (lower_s s) msg pk Q Hv Hm Hpk)|]. intros ok Hok. apply Quiet_done. split.
  - apply Hok. split; [apply lower_s_low | apply ecdsa_valid_lower; [apply Hpk | exact HV]].
  - unfold low_s. destruct (Z.ltb_spec (n / 2) (Zmod.to_Z s)); cbn [Z.b2z]; lia.
Qed.

End Properties.

(** The sample signature verifies. *)
Lemma ecdsa_verify_witness : exists (ctx : secp256k1_context) pk r s, Quiet (secp256k1_ecdsa_verify ctx (Some (sig_obj r s)) (Some sample_msg) (Some pk)) (fun ok => ok = true).
Proof.
  sample_ctx. destruct sample_pubkey as [pk Hpk]. exists pk. destruct sample_signature as (r & s & i & HS). exists r, s.
  refine (Quiet_mono _ _ _ (ecdsa_verify_correct ctx r s sample_msg pk _ Hverify sample_msg_bytes Hpk) _). intros ok Hok. apply Hok.
  destruct (first_signature_nonce _ _ _ _ _ _ HS) as (v & _ & _ & Hsig). destruct (ecdsa_sign_valid _ _ _ _ _ _ Hsig) as [HV HL]. exact (conj HL HV).
Defined.

Lemma ecdsa_sign_verify_witness : exists ctx : secp256k1_context, Quiet (sign_then_verify 1 ctx blank64 blank64 sample_msg sample_key None) (fun ok => ok = true).
Proof.
  sample_ctx. destruct sample_signature as (r & s & i & HS).
  exact (ecdsa_sign_verify 1 ctx blank64 blank64 sample_msg sample_key None r s i Hsign Hverify sample_msg_bytes sample_key_of I eq_refl sample_usable HS).
Defined.

Lemma ecdsa_sign_recover_witness : exists ctx : secp256k1_context,
  Quiet (sign_then_recover 1 ctx blank64 blank64 sample_msg sample_key None) (fun '(pk, pk', ok) => ok = true /\ pk' = pk).
Proof.
  sample_ctx. destruct sample_signature as (r & s & i & HS).
  exact (ecdsa_sign_recover 1 ctx blank64 blank64 sample_msg sample_key None r s i Hsign Hverify sample_msg_bytes sample_key_of I eq_refl sample_usable HS).
Defined.

(** The sample key signs; 32 zero bytes do not. *)
Lemma ecdsa_sign_terminates_witness : exists ctx : secp256k1_context,
  (exists r s, Quiet (secp256k1_ecdsa_sign 1 ctx (Some blank64) (Some sample_msg) (Some sample_key) None None) (fun '(o, ret) => ret = 1 /\ o = Some (sig_obj r s))) /\
  Quiet (secp256k1_ecdsa_sign 0 ctx (Some blank64) (Some sample_msg) (Some (repeat 0 32)) None None) (fun '(o, ret) => ret = 0 /\ o = Some zero_signature).
Proof.
  sample_ctx. destruct sample_signature as (r & s & i & HS). split.
  - exists r, s. pose proof (ecdsa_sign_terminates 1 ctx blank64 sample_msg sample_key None Hsign sample_msg_bytes (proj1 sample_key_of) I eq_refl sample_usable) as HT.
    rewrite (seckey_of_ok _ _ sample_key_of) in HT. exact (proj1 (HT r s i HS)).
  - assert (E : seckey_ok (repeat 0 32) = false) by reflexivity.
    pose proof (ecdsa_sign_terminates 0 ctx blank64 sample_msg (repeat 0 32) None Hsign sample_msg_bytes (be_bytes_wf 32 0) I eq_refl (Forall_nil _)) as HT. rewrite E in HT. exact (proj1 HT).
Defined.

(** The first number, and the counter that never returns. *)
Lemma nonce_function_witness :
  Returns (nonce_function_rfc6979 1 (repeat 0 32) sample_msg sample_key None None 0) (fun '(ret, out) => ret = 1 /\ be_value out = sample_nonce) /\
  forall fuel, 2 ^ 32 - 1 < Z.of_nat fuel -> nonce_function_rfc6979 fuel (repeat 0 32) sample_msg sample_key None None (2 ^ 32 - 1) = None.
Proof.
  assert (E0 : (0 =? 2 ^ 32 - 1) = false) by reflexivity. assert (E1 : (2 ^ 32 - 1 =? 2 ^ 32 - 1) = true) by reflexivity. split.
  - pose proof (nonce_function_correct 1 (repeat 0 32) sample_msg sample_key None None 0 sample_msg_bytes (proj1 sample_key_of) I I ltac:(lia) ltac:(lia)) as HN.
    rewrite E0 in HN. refine (Returns_mono _ _ _ HN _). intros [ret out] [-> ->]. split; [reflexivity | exact sample_nonce_read].
  - intros fuel Hf. pose proof (nonce_function_correct fuel (repeat 0 32) sample_msg sample_key None None (2 ^ 32 - 1) sample_msg_bytes (proj1 sample_key_of) I I ltac:(lia) Hf) as HN.
    rewrite E1 in HN. exact HN.
Defined.

(** The sample signature with the other [s]. *)
Lemma ecdsa_normalize_witness : exists (ctx : secp256k1_context) pk r s,
  Quiet (' (sig, high) <~ secp256k1_ecdsa_signature_normalize ctx (Some blank64) (Some (sig_obj r (- s)%Zmod));;
         ok <~ secp256k1_ecdsa_verify ctx sig (Some sample_msg) (Some pk);;
         done (high, ok)) (fun '(high, ok) => ok = true /\ (high = 1 <-> ~ low_s (- s)%Zmod)).
Proof.
  sample_ctx. destruct sample_pubkey as [pk Hpk]. exists pk. destruct sample_signature as (r & s & i & HS). exists r, s.
  destruct (first_signature_nonce _ _ _ _ _ _ HS) as (v & _ & _ & Hsig). destruct (ecdsa_sign_valid _ _ _ _ _ _ Hsig) as [HV _].
  exact (ecdsa_normalize_verify ctx r (- s)%Zmod sample_msg pk _ blank64 Hverify sample_msg_bytes Hpk (ecdsa_valid_opp _ _ _ _ (proj2 Hpk) HV)).
Defined.
