(* ===== verification/KeyTheorems.v ===== *)
(** * Properties of the encodings, the keys and the contexts *)

From Stdlib Require Import String ZArith Lia List Bool.
From S2P Require Import Prelude Modulus Bytes Field FieldReprs FieldImpl Curve CurveGroup CurveOrder Group GroupConv Scalar ScalarReprs ScalarImpl Hash HashSpec Ecmult EcmultSpec EcmultGen EcmultGenSpec EcmultConst Objects Buffer Eckey Ecdsa Secp256k1 Recovery Ecdh Der Signatures EcdsaSpec EckeySpec ApiSpec ApiKeys ApiSign ApiEcdh ContextSpec Build.
Import ListNotations.

#[local] Open Scope Z_scope.
#[local] Open Scope checked_scope.

(** ** Programs over the library *)

Section Programs.
Context {F : FieldOps} {SO : ScalarOps} {Ob : Objects F SO} {M : Memory F SO} {H : HashMemory} {A : ApiMemory}.

(** Serialize a signature into a buffer and parse what was written. *)
Definition der_there_and_back (ctx : secp256k1_context) (out : list Z) (sig0 sig : list Z) : api (option (list Z) * bool) :=
  ' (o, l, _) <~ secp256k1_ecdsa_signature_serialize_der ctx (Some out) (Some (Z.of_nat (length out))) (Some sig);;
  match o, l with
  | Some o, Some l => secp256k1_ecdsa_signature_parse_der ctx (Some sig0) (Some (firstn (Z.to_nat l) o))
  | _, _ => done (None, false)
  end.

(** Serialize a public key in one of the two forms and parse it. *)
Definition key_there_and_back (ctx : secp256k1_context) (out pk0 pk : list Z) (flags : Z) : api (option (list Z) * bool) :=
  ' (o, l, _) <~ secp256k1_ec_pubkey_serialize ctx (Some out) (Some (Z.of_nat (length out))) (Some pk) flags;;
  match o, l with
  | Some o, Some l => secp256k1_ec_pubkey_parse ctx (Some pk0) (Some (firstn (Z.to_nat l) o))
  | _, _ => done (None, false)
  end.

(** Tweak a public key, and tweak its secret and make the public key of the result. *)
Definition tweak_both_ways (tweak_pub : option (list Z) -> option (list Z) -> api (option (list Z) * bool))
    (tweak_priv : option (list Z) -> option (list Z) -> api (option (list Z) * bool)) (ctx : secp256k1_context) (pk0 seckey tweak : list Z) :
    api (option (list Z) * bool * option (list Z) * bool) :=
  ' (pk, _) <~ secp256k1_ec_pubkey_create ctx (Some pk0) (Some seckey);;
  ' (pk1, ok1) <~ tweak_pub pk (Some tweak);;
  ' (key2, _) <~ tweak_priv (Some seckey) (Some tweak);;
  ' (pk2, ok2) <~ secp256k1_ec_pubkey_create ctx (Some pk0) key2;;
  done (pk1, ok1, pk2, ok2).

(** Two parties make their public keys and the secret they share. *)
Definition exchange (ctx : secp256k1_context) (pk0 res0 a b : list Z) : api (option (list Z) * option (list Z)) :=
  ' (pka, _) <~ secp256k1_ec_pubkey_create ctx (Some pk0) (Some a);;
  ' (pkb, _) <~ secp256k1_ec_pubkey_create ctx (Some pk0) (Some b);;
  ' (sa, _) <~ secp256k1_ecdh ctx (Some res0) pkb (Some a);;
  ' (sb, _) <~ secp256k1_ecdh ctx (Some res0) pka (Some b);;
  done (sa, sb).

End Programs.

Section Properties.
Context {F : FieldOps} {L : FieldLaws F} {SO : ScalarOps} {SL : ScalarLaws SO} {Ob : Objects F SO} {OL : ObjectLaws L SL Ob} {M : Memory F SO} {H : HashMemory} {A : ApiMemory}.

(** C4: the parser of signatures accepts exactly the distinguished encodings of
    pairs of integers, of any length below 2^31, and its scalars are the integers, or
    zero for those that are negative or not below the order. *)
Theorem der_parse_correct rr rs sig : is_bytes sig -> Z.of_nat (length sig) < 2 ^ 31 ->
  Returns (secp256k1_ecdsa_sig_parse rr rs sig) (fun '(ok, r, s) =>
    (ok = true -> exists c d, der_int c /\ der_int d /\ sig = der_signature c d) /\
    (forall c d, der_int c -> der_int d -> sig = der_signature c d -> ok = true /\ sc_wf r /\ sc_Z r = der_scalar c /\ sc_wf s /\ sc_Z s = der_scalar d)).
Proof.
  intros Hb Hl. pose proof (ecdsa_sig_parse_spec rr rs sig Hb Hl) as HP. pose proof (ecdsa_sig_parse_encoded rr rs) as HE.
  destruct (secp256k1_ecdsa_sig_parse rr rs sig) as [[[ok r] s]|] eqn:E; [|contradiction]. cbn [Returns] in *. split.
  - intros ->. destruct (HP eq_refl) as (c & d & Hc & Hd & Es & _). exists c, d. auto.
  - intros c d [Hc Hmc] [Hd Hmd] ->. specialize (HE c d Hc Hmc Hd Hmd Hl). rewrite E in HE. exact HE.
Qed.

(** C11: signatures survive the way to DER and back, in a buffer of 72 bytes; and an
    encoding that the parser reads as two nonzero scalars is the one the serializer
    writes, so no signature has two encodings. *)
Theorem der_roundtrip ctx out sig0 r s : (72 <= length out)%nat -> Z.of_nat (length out) < 2 ^ 31 ->
  Quiet (der_there_and_back ctx out sig0 (sig_obj r s)) (fun '(o, ok) => ok = true /\ o = Some (sig_obj r s)) /\
  forall input, is_bytes input -> Z.of_nat (length input) < 2 ^ 31 -> r <> Zmod.zero -> s <> Zmod.zero ->
    Quiet (secp256k1_ecdsa_signature_parse_der ctx (Some sig0) (Some input)) (fun '(o, ok) => ok = true -> o = Some (sig_obj r s) -> input = der_encode (Zmod.to_Z r) (Zmod.to_Z s)).
Proof.
  intros Ho Hl. pose proof (Fn_range r) as Rr. pose proof (Fn_range s) as Rs. split.
  - destruct (der_content_spec _ Rr) as (Bc & Mc & _ & Vc & Lc). destruct (der_content_spec _ Rs) as (Bd & Md & _ & Vd & Ld).
    unfold der_there_and_back. eapply Quiet_bind; [apply (signature_serialize_der_ok ctx out (Z.of_nat (length out)) r s); lia|]. intros [[o l] ok0] [-> HQ].
    assert (Le : length (der_encode (Zmod.to_Z r) (Zmod.to_Z s)) = (6 + length (der_content (Zmod.to_Z s)) + length (der_content (Zmod.to_Z r)))%nat)
      by (apply length_der_signature; lia).
    rewrite (proj2 (Z.ltb_ge _ _)) in HQ by lia. destruct HQ as [_ ->]. rewrite Nat2Z.id, firstn_exact by reflexivity.
    unfold secp256k1_ecdsa_signature_parse_der. cbn [ARG_PTR]. eapply Quiet_step; [apply (ecdsa_sig_parse_encoded uninit_scalar uninit_scalar _ _ Bc Mc Bd Md); unfold der_encode in Le; lia|].
    intros [[ok r'] s'] (-> & Wr & Er & Ws & Es). apply Quiet_done. split; [reflexivity|].
    rewrite (signature_save_ok _ _ r s); [reflexivity | split; [exact Wr | rewrite Er; exact Vc] | split; [exact Ws | rewrite Es; exact Vd]].
  - intros input Hb Hli Hr Hs. eapply Quiet_mono; [exact (signature_parse_der_ok ctx sig0 input Hb Hli)|]. intros [o ok] [HQ _] E1 E2.
    destruct (HQ E1) as (c & d & Bc & Mc & Bd & Md & -> & Eo). rewrite E2 in Eo. apply some_inj, sig_obj_inj in Eo as [Er Es].
    assert (HV : forall (v : Fn) c, v <> Zmod.zero -> is_bytes c -> der_minimal c -> v = toFn (der_scalar c) -> c = der_content (Zmod.to_Z v)).
    { clear. intros v c Hv Bc Mc E. unfold der_scalar in E. destruct ((0 <=? der_integer c) && (der_integer c <? n)) eqn:Ei; [|destruct (Hv E)].
      apply andb_true_iff in Ei. rewrite Z.leb_le, Z.ltb_lt in Ei. rewrite E, toFn_small by exact Ei. apply der_content_unique; assumption. }
    unfold der_encode. rewrite <- (HV r c Hr Bc Mc Er), <- (HV s d Hs Bd Md Es). reflexivity.
Qed.

(** C8: the functions that read encoded bytes from outside return on every input
    and call no callback: they read nothing outside their buffers, and the object
    they leave is a well-formed one, all zero or a valid point for a public key. *)
Theorem untrusted_input_safe ctx sig0 pk0 input : is_bytes input -> Z.of_nat (length input) < 2 ^ 31 ->
  Quiet (secp256k1_ecdsa_signature_parse_der ctx (Some sig0) (Some input)) (fun '(o, ok) => exists r s, o = Some (sig_obj r s) /\ (ok = false -> r = Zmod.zero /\ s = Zmod.zero)) /\
  Quiet (secp256k1_ec_pubkey_parse ctx (Some pk0) (Some input)) (fun '(o, ok) => if ok then exists b P, o = Some b /\ valid_pubkey b P else o = Some zero_pubkey) /\
  (length input = 64%nat -> Quiet (secp256k1_ecdsa_signature_parse_compact ctx (Some sig0) (Some input)) (fun '(o, ok) => exists r s, o = Some (sig_obj r s) /\ (ok = false -> r = Zmod.zero /\ s = Zmod.zero))).
Proof.
  intros Hb Hl. split; [|split].
  - eapply Quiet_mono; [exact (signature_parse_der_ok ctx sig0 input Hb Hl)|]. intros [o ok] [H1 H2]. destruct ok.
    + destruct (H1 eq_refl) as (c & d & _ & _ & _ & _ & _ & ->). eexists _, _. split; [reflexivity | discriminate].
    + rewrite (H2 eq_refl). exists Zmod.zero, Zmod.zero. split; [rewrite zero_signature_obj; reflexivity | auto].
  - eapply Quiet_mono; [exact (ec_pubkey_parse_ok ctx pk0 input Hb)|]. intros [o ok]. destruct ok; [|tauto]. intros (b & P & E & HP & _). eauto.
  - intros H64. rewrite <- (firstn_skipn 32 input). set (a := firstn 32 input). set (b := skipn 32 input).
    assert (Ha : bytes_of_len 32 a) by (apply (bytes_of_len_firstn 32 64); [split; [exact H64 | exact Hb] | lia]). assert (Hb' : bytes_of_len 32 b) by (apply (bytes_of_len_skipn 32 32); split; [exact H64 | exact Hb]).
    eapply Quiet_mono; [exact (signature_parse_compact_ok ctx sig0 a b Ha Hb')|]. intros [o ok] [-> ->]. destruct ((be_value a <? n) && (be_value b <? n)).
    + eexists _, _. split; [reflexivity | discriminate].
    + exists Zmod.zero, Zmod.zero. split; [rewrite zero_signature_obj; reflexivity | auto].
Qed.

(** C12: a public key survives serialization in either form; and the parser accepts
    exactly the compressed, uncompressed and hybrid encodings of points of the curve,
    each encoding of one point only. *)
Theorem pubkey_roundtrip ctx out pk0 pk P (c : bool) : valid_pubkey pk P -> (65 <= length out)%nat ->
  Quiet (key_there_and_back ctx out pk0 pk (if c then SECP256K1_EC_COMPRESSED else SECP256K1_EC_UNCOMPRESSED)) (fun '(o, ok) => ok = true /\ o = Some pk) /\
  forall input, is_bytes input -> Quiet (secp256k1_ec_pubkey_parse ctx (Some pk0) (Some input)) (fun '(o, ok) => (ok = true <-> exists Q, encodes input Q) /\ (encodes input P <-> ok = true /\ o = Some pk)).
Proof.
  intros Hpk Ho. assert (HParse : forall input, is_bytes input -> Quiet (secp256k1_ec_pubkey_parse ctx (Some pk0) (Some input)) (fun '(o, ok) =>
    (ok = true <-> exists Q, encodes input Q) /\ (encodes input P <-> ok = true /\ o = Some pk))).
  { intros input Hb. eapply Quiet_mono; [exact (ec_pubkey_parse_ok ctx pk0 input Hb)|]. intros [o ok]. destruct ok.
    - intros (b & Q & -> & [HQ _] & He). split; [split; [exists Q; exact He | reflexivity]|]. split.
      + intros He'. rewrite (encodes_unique _ _ _ He He') in HQ. rewrite (pubkey_obj_unique _ _ _ HQ (proj1 Hpk)). auto.
      + intros [_ E]. apply some_inj in E. subst b. rewrite (pubkey_obj_inj _ _ _ (proj1 Hpk) HQ). exact He.
    - intros [-> Hn]. split; [split; [discriminate | intros [Q HQ]; destruct (Hn Q HQ)]|]. split; [intros He; destruct (Hn P He) | intros [E _]; discriminate]. }
  split; [|exact HParse]. pose proof Hpk as [(x & y & EP & _) HP]. rewrite EP in *. unfold key_there_and_back.
  assert (Le : length (encode_point c x y) = if c then 33%nat else 65%nat) by apply length_encode_point.
  eapply Quiet_bind; [apply (ec_pubkey_serialize_ok ctx out (Z.of_nat (length out)) pk x y c Hpk); rewrite Le; destruct c; lia|]. intros [[o l] ok] (_ & -> & ->).
  rewrite Nat2Z.id, firstn_exact by reflexivity. eapply Quiet_mono; [exact (HParse _ (encode_point_bytes c x y))|]. intros [o ok'] [_ HQ]. apply HQ, encode_point_encodes, HP.
Qed.

(** C13: tweaking a public key is tweaking its secret: both ways succeed together and
    make the same public key, by addition and by multiplication. *)
Theorem tweak_commutes ctx pk0 seckey tweak : sign_ready ctx -> verify_ready ctx -> seckey_of seckey (residue seckey) -> bytes_of_len 32 tweak ->
  Quiet (tweak_both_ways (secp256k1_ec_pubkey_tweak_add ctx) (secp256k1_ec_privkey_tweak_add ctx) ctx pk0 seckey tweak) (fun '(pk1, ok1, pk2, ok2) => ok1 = ok2 /\ pk1 = pk2) /\
  Quiet (tweak_both_ways (secp256k1_ec_pubkey_tweak_mul ctx) (secp256k1_ec_privkey_tweak_mul ctx) ctx pk0 seckey tweak) (fun '(pk1, ok1, pk2, ok2) => ok1 = ok2 /\ pk1 = pk2).
Proof.
  intros Hs Hv Hk Ht.
  assert (HC : forall k (ok : bool) d, k = Some (if ok then be_bytes 32 (Zmod.to_Z d) else repeat 0 32) -> (ok = true -> d <> Zmod.zero) ->
    Quiet (secp256k1_ec_pubkey_create ctx (Some pk0) k) (fun '(o, ok') => ok' = ok /\ if ok then exists b, o = Some b /\ valid_pubkey b (fmul d G) else o = Some zero_pubkey)).
  { intros k ok d -> Hd. destruct ok.
    - assert (Hdk : seckey_of (be_bytes 32 (Zmod.to_Z d)) d) by (split; [apply be_bytes_wf | split; [apply be_value_bytes, Fn_le_range | apply Hd; reflexivity]]).
      eapply Quiet_mono; [exact (ec_pubkey_create_ok ctx pk0 _ Hs (be_bytes_wf _ _))|]. intros [o ok'] [-> HQ]. rewrite (seckey_of_ok _ _ Hdk), (seckey_residue _ _ Hdk) in *. auto.
    - eapply Quiet_mono; [exact (ec_pubkey_create_ok ctx pk0 (repeat 0 32) Hs (be_bytes_wf 32 0))|]. intros [o ok'] [-> HQ]. auto. }
  assert (HU : forall (ok : bool) P o o', (if ok then exists b, o = Some b /\ valid_pubkey b P else o = Some zero_pubkey) -> (if ok then exists b, o' = Some b /\ valid_pubkey b P else o' = Some zero_pubkey) -> o = o').
  { intros [] P o o'; [|congruence]. intros (b & -> & Hb & _) (b' & -> & Hb' & _). rewrite (pubkey_obj_unique _ _ _ Hb Hb'). reflexivity. }
  split; unfold tweak_both_ways; (eapply Quiet_bind; [exact (ec_pubkey_create_ok ctx pk0 seckey Hs (proj1 Hk))|]; intros [o ok] [-> HP]; rewrite (seckey_of_ok _ _ Hk) in HP; destruct HP as (pk & -> & Hpk)).
  - eapply Quiet_bind; [exact (ec_pubkey_tweak_add_ok ctx pk _ tweak Hv Hpk Ht)|]. intros [pk1 ok1] [E1 H1].
    eapply Quiet_bind; [exact (ec_privkey_tweak_add_ok ctx seckey tweak (proj1 Hk) Ht)|]. intros [k2 ok2] [E2 H2]. rewrite <- fmul_add in E1, H1 by apply G_on_curve.
    set (d := (residue seckey + residue tweak)%Zmod) in *. assert (Hfin : is_finite (fmul d G) = negb (Zmod.eqb d Zmod.zero)).
    { destruct (Zmod.eqb_spec d Zmod.zero) as [->|Hd]; [reflexivity|]. pose proof (fmul_finite d G G_on_curve ltac:(discriminate) Hd). destruct (fmul d G); [contradiction | reflexivity]. }
    rewrite Hfin, <- E2 in E1. subst ok1. eapply Quiet_bind; [apply (HC k2 ok2 d H2); intros ->; symmetry in E2; apply andb_true_iff in E2 as [_ E2]; destruct (Zmod.eqb_spec d Zmod.zero); [discriminate | assumption]|].
    intros [pk2 ok2'] [-> H3]. apply Quiet_done. split; [reflexivity | exact (HU ok2 _ _ _ H1 H3)].
  - eapply Quiet_bind; [exact (ec_pubkey_tweak_mul_ok ctx pk _ tweak Hv Hpk Ht)|]. intros [pk1 ok1] [-> H1].
    eapply Quiet_bind; [exact (ec_privkey_tweak_mul_ok ctx seckey tweak (proj1 Hk) Ht)|]. intros [k2 ok2] [-> H2].
    rewrite <- fmul_mul in H1 by apply G_on_curve. replace (residue tweak * residue seckey)%Zmod with (residue seckey * residue tweak)%Zmod in H1 by ring.
    eapply Quiet_bind; [apply (HC k2 (seckey_ok tweak) (residue seckey * residue tweak)%Zmod H2); intros E; apply Fn_mul_nonzero; [apply Hk | apply (seckey_ok_of tweak Ht E)]|].
    intros [pk2 ok2'] [-> H3]. apply Quiet_done. split; [reflexivity | exact (HU _ _ _ _ H1 H3)].
Qed.

(** C14: two parties that exchange public keys compute the same secret, the digest of
    the compressed form of their common point. *)
Theorem ecdh_agreement ctx pk0 res0 a b : sign_ready ctx -> seckey_of a (residue a) -> seckey_of b (residue b) -> bytes_of_len 32 res0 ->
  Quiet (exchange ctx pk0 res0 a b) (fun '(sa, sb) => sa = sb /\ sa = Some (ecdh_secret (fmul (residue a * residue b)%Zmod G))).
Proof.
  intros Hs Ha Hb Hr. unfold exchange. eapply Quiet_bind; [exact (ec_pubkey_create_ok ctx pk0 a Hs (proj1 Ha))|]. intros [o ok] [-> HP]. rewrite (seckey_of_ok _ _ Ha) in HP. destruct HP as (pka & -> & Hpa).
  eapply Quiet_bind; [exact (ec_pubkey_create_ok ctx pk0 b Hs (proj1 Hb))|]. intros [o ok] [-> HP]. rewrite (seckey_of_ok _ _ Hb) in HP. destruct HP as (pkb & -> & Hpb).
  eapply Quiet_bind; [exact (ecdh_ok ctx res0 pkb _ a Hpb (proj1 Ha) Hr)|]. intros [sa ok] [-> ->]. eapply Quiet_bind; [exact (ecdh_ok ctx res0 pka _ b Hpa (proj1 Hb) Hr)|]. intros [sb ok] [-> ->].
  rewrite (seckey_of_ok _ _ Ha), (seckey_of_ok _ _ Hb), <- !fmul_mul by apply G_on_curve. apply Quiet_done.
  replace (residue b * residue a)%Zmod with (residue a * residue b)%Zmod by ring. auto.
Qed.

End Properties.

(** ** Witnesses *)

(** The encoding of the integers 1 and 2. *)
Lemma der_parse_witness : Returns (secp256k1_ecdsa_sig_parse (S := Scalar_8x32) uninit_scalar uninit_scalar [0x30; 6; 0x02; 1; 1; 0x02; 1; 2])
  (fun '(ok, r, s) => ok = true /\ sc_Z r = 1 /\ sc_Z s = 2).
Proof.
  assert (Hb : is_bytes [0x30; 6; 0x02; 1; 1; 0x02; 1; 2]) by (repeat constructor; lia).
  refine (Returns_mono _ _ _ (der_parse_correct uninit_scalar uninit_scalar _ Hb eq_refl) _). intros [[ok r] s] [_ HQ].
  assert (H1 : forall v, 0 <= v < 256 -> der_int [v]) by (intros v Hv; split; [repeat constructor; apply Hv | exact I]).
  destruct (HQ [1] [2] (H1 1 ltac:(lia)) (H1 2 ltac:(lia)) eq_refl) as (E & _ & Er & _ & Es). split; [exact E|]. split; [exact Er | exact Es].
Defined.

Lemma der_roundtrip_witness : exists (ctx : secp256k1_context) r s, Quiet (der_there_and_back ctx (repeat 0 72) blank64 (sig_obj r s)) (fun '(o, ok) => ok = true /\ o = Some (sig_obj r s)).
Proof.
  sample_ctx. destruct sample_signature as (r & s & i & _). exists r, s. refine (proj1 (der_roundtrip ctx (repeat 0 72) blank64 r s _ _)); rewrite repeat_length; lia.
Defined.

Lemma untrusted_input_witness : exists ctx : secp256k1_context,
  Quiet (secp256k1_ec_pubkey_parse ctx (Some blank64) (Some [2; 3])) (fun '(o, ok) => if ok then exists b P, o = Some b /\ valid_pubkey b P else o = Some zero_pubkey).
Proof.
  sample_ctx. assert (Hb : is_bytes [2; 3]) by (repeat constructor; lia). exact (proj1 (proj2 (untrusted_input_safe ctx blank64 blank64 [2; 3] Hb eq_refl))).
Defined.

Lemma pubkey_roundtrip_witness : exists (ctx : secp256k1_context) pk, Quiet (key_there_and_back ctx (repeat 0 65) blank64 pk SECP256K1_EC_COMPRESSED) (fun '(o, ok) => ok = true /\ o = Some pk).
Proof.
  sample_ctx. destruct sample_pubkey as [pk Hpk]. exists pk. refine (proj1 (pubkey_roundtrip ctx (repeat 0 65) blank64 pk _ true Hpk _)). rewrite repeat_length. lia.
Defined.

Lemma tweak_commutes_witness : exists ctx : secp256k1_context,
  Quiet (tweak_both_ways (secp256k1_ec_pubkey_tweak_add ctx) (secp256k1_ec_privkey_tweak_add ctx) ctx blank64 sample_key sample_msg) (fun '(pk1, ok1, pk2, ok2) => ok1 = ok2 /\ pk1 = pk2).
Proof. sample_ctx. exact (proj1 (tweak_commutes ctx blank64 sample_key sample_msg Hsign Hverify sample_key_of sample_msg_bytes)). Defined.

Lemma ecdh_agreement_witness : exists ctx : secp256k1_context, Quiet (exchange ctx blank64 sample_msg sample_key sample_key)
  (fun '(sa, sb) => sa = sb /\ sa = Some (ecdh_secret (fmul (residue sample_key * residue sample_key)%Zmod G))).
Proof. sample_ctx. exact (ecdh_agreement ctx blank64 sample_msg sample_key sample_key Hsign sample_key_of sample_key_of sample_msg_bytes). Defined.

(** Twice the sample key. *)
Lemma pubkey_combine_witness : exists (ctx : secp256k1_context) pk, let Q := psum [fmul (residue sample_key) G; fmul (residue sample_key) G] in
  Quiet (secp256k1_ec_pubkey_combine ctx (Some blank64) (Some [pk; pk]) 2) (fun '(o, ok) => ok = is_finite Q /\ if ok then exists b, o = Some b /\ valid_pubkey b Q else o = Some zero_pubkey).
Proof.
  sample_ctx. destruct sample_pubkey as [pk Hpk]. exists pk.
  exact (ec_pubkey_combine_ok ctx blank64 [pk; pk] [fmul (residue sample_key) G; fmul (residue sample_key) G] (Forall2_cons _ _ Hpk (Forall2_cons _ _ Hpk (Forall2_nil _))) ltac:(discriminate)).
Defined.

(** A clone of a new context. *)
Lemma context_reachable_witness : exists ctx : secp256k1_context, context_ok (sign_flag sample_flags) (verify_flag sample_flags) (secp256k1_context_clone ctx).
Proof.
  destruct sample_context as (ctx & _ & E). exists ctx.
  exact (context_reachable_ok sample_flags _ (reach_step sample_flags ctx _ (reach_create sample_flags 1 [] ctx (le_n 1) E) (step_clone ctx))).
Defined.
