(* ===== verification/ErrorTheorems.v ===== *)
(** * Properties of the error paths: illegal arguments and unusable objects *)

From Stdlib Require Import String ZArith Lia List Bool.
From S2P Require Import Prelude Modulus Bytes Field FieldReprs FieldImpl Curve CurveGroup CurveOrder Group GroupConv Scalar ScalarReprs ScalarImpl Hash HashSpec Ecmult EcmultSpec EcmultGen EcmultGenSpec EcmultConst Objects Buffer Eckey Ecdsa Secp256k1 Recovery Ecdh Der Signatures EcdsaSpec EckeySpec ApiSpec ApiKeys ApiSign ApiEcdh ContextSpec Build.
Import ListNotations.

#[local] Open Scope Z_scope.
#[local] Open Scope checked_scope.

(** The function that is applied. *)
Ltac head_of t := lazymatch t with ?f _ => head_of f | _ => t end.

(** A callback that returns. *)
Definition quiet_callback : option (string -> Z -> checked unit) := Some (fun _ _ => Some tt).

(** The answer alone of a call. *)
Definition answer {A} (f : A -> bool) (m : api A) : api bool := ' (t, x) <- m;; ret (t, f x).

Definition nonzero (r : Z) : bool := negb (r =? 0).

(** The text reported for a key whose abscissa is zero. *)
Definition zero_x : string := "!secp256k1_fe_is_zero(&ge->x)".

Definition gen_text : string := "secp256k1_ecmult_gen_context_is_built(&ctx->ecmult_gen_ctx)".
Definition ecmult_text : string := "secp256k1_ecmult_context_is_built(&ctx->ecmult_ctx)".

(** The call reports [text] to the callback, once, and if that returns it answers 0. *)
Definition rejected (cb : secp256k1_callback) (m : api bool) (text : string) : Prop :=
  m = (secp256k1_callback_call cb text;; ret ([text], false)).

(** The functions that check their arguments, with all their arguments but the
    context. *)
Inductive api_call : Type :=
  | Pubkey_parse (pubkey input : option (list Z))
  | Pubkey_serialize (output : option (list Z)) (outputlen : option Z) (pubkey : option (list Z)) (flags : Z)
  | Signature_parse_der (sig input : option (list Z))
  | Signature_parse_compact (sig input64 : option (list Z))
  | Signature_serialize_der (output : option (list Z)) (outputlen : option Z) (sig : option (list Z))
  | Signature_serialize_compact (output64 sig : option (list Z))
  | Signature_normalize (sigout sigin : option (list Z))
  | Verify (sig msg32 pubkey : option (list Z))
  | Sign (signature msg32 seckey : option (list Z)) (noncefp : option secp256k1_nonce_function) (noncedata : option (list Z))
  | Seckey_verify (seckey : option (list Z))
  | Pubkey_create (pubkey seckey : option (list Z))
  | Privkey_tweak_add (seckey tweak : option (list Z))
  | Pubkey_tweak_add (pubkey tweak : option (list Z))
  | Privkey_tweak_mul (seckey tweak : option (list Z))
  | Pubkey_tweak_mul (pubkey tweak : option (list Z))
  | Randomize (seed32 : option (list Z))
  | Pubkey_combine (pubnonce : option (list Z)) (pubnonces : option (list (list Z))) (n : Z)
  | Recoverable_parse_compact (sig input64 : option (list Z)) (recid : Z)
  | Recoverable_serialize_compact (output64 : option (list Z)) (recid : option Z) (sig : option (list Z))
  | Recoverable_convert (sig sigin : option (list Z))
  | Sign_recoverable (signature msg32 seckey : option (list Z)) (noncefp : option secp256k1_nonce_function) (noncedata : option (list Z))
  | Recover (pubkey signature msg32 : option (list Z))
  | Shared_secret (result point scalar : option (list Z))
  | Scalar_mul (point scalar : option (list Z)).

Section Calls.
Context {F : FieldOps} {SO : ScalarOps} {Ob : Objects F SO} {M : Memory F SO} {H : HashMemory} {A : ApiMemory}.
Variables (fuel : nat) (ctx : secp256k1_context).

Definition call (c : api_call) : api bool :=
  match c with
  | Pubkey_parse pubkey input => answer snd (secp256k1_ec_pubkey_parse ctx pubkey input)
  | Pubkey_serialize output outputlen pubkey flags => answer snd (secp256k1_ec_pubkey_serialize ctx output outputlen pubkey flags)
  | Signature_parse_der sig input => answer snd (secp256k1_ecdsa_signature_parse_der ctx sig input)
  | Signature_parse_compact sig input64 => answer snd (secp256k1_ecdsa_signature_parse_compact ctx sig input64)
  | Signature_serialize_der output outputlen sig => answer snd (secp256k1_ecdsa_signature_serialize_der ctx output outputlen sig)
  | Signature_serialize_compact output64 sig => answer snd (secp256k1_ecdsa_signature_serialize_compact ctx output64 sig)
  | Signature_normalize sigout sigin => answer (fun r => nonzero (snd r)) (secp256k1_ecdsa_signature_normalize ctx sigout sigin)
  | Verify sig msg32 pubkey => secp256k1_ecdsa_verify ctx sig msg32 pubkey
  | Sign signature msg32 seckey noncefp noncedata => answer (fun r => nonzero (snd r)) (secp256k1_ecdsa_sign fuel ctx signature msg32 seckey noncefp noncedata)
  | Seckey_verify seckey => secp256k1_ec_seckey_verify ctx seckey
  | Pubkey_create pubkey seckey => answer snd (secp256k1_ec_pubkey_create ctx pubkey seckey)
  | Privkey_tweak_add seckey tweak => answer snd (secp256k1_ec_privkey_tweak_add ctx seckey tweak)
  | Pubkey_tweak_add pubkey tweak => answer snd (secp256k1_ec_pubkey_tweak_add ctx pubkey tweak)
  | Privkey_tweak_mul seckey tweak => answer snd (secp256k1_ec_privkey_tweak_mul ctx seckey tweak)
  | Pubkey_tweak_mul pubkey tweak => answer snd (secp256k1_ec_pubkey_tweak_mul ctx pubkey tweak)
  | Randomize seed32 => answer snd (secp256k1_context_randomize fuel ctx seed32)
  | Pubkey_combine pubnonce pubnonces n => answer snd (secp256k1_ec_pubkey_combine ctx pubnonce pubnonces n)
  | Recoverable_parse_compact sig input64 recid => answer snd (secp256k1_ecdsa_recoverable_signature_parse_compact ctx sig input64 recid)
  | Recoverable_serialize_compact output64 recid sig => answer snd (secp256k1_ecdsa_recoverable_signature_serialize_compact ctx output64 recid sig)
  | Recoverable_convert sig sigin => answer snd (secp256k1_ecdsa_recoverable_signature_convert ctx sig sigin)
  | Sign_recoverable signature msg32 seckey noncefp noncedata =>
      answer (fun r => nonzero (snd r)) (secp256k1_ecdsa_sign_recoverable fuel ctx signature msg32 seckey noncefp noncedata)
  | Recover pubkey signature msg32 => answer snd (secp256k1_ecdsa_recover ctx pubkey signature msg32)
  | Shared_secret result point scalar => answer snd (secp256k1_ecdh ctx result point scalar)
  | Scalar_mul point scalar => answer snd (secp256k1_ext_scalar_mul ctx point scalar)
  end.

#[local] Open Scope string_scope.

Definition set {T} (p : option T) : bool := match p with Some _ => true | None => false end.

Definition gen_built : bool * string := (secp256k1_ecmult_gen_context_is_built (ecmult_gen_ctx ctx), gen_text).
Definition ecmult_built : bool * string := (secp256k1_ecmult_context_is_built (ecmult_ctx ctx), ecmult_text).

(** What the arguments of a call must satisfy, in the order in which the functions
    look at them: the header's list of arguments that must not be NULL, the lengths
    and the ranges, and the tables of the context. *)
Definition requirements (c : api_call) : list (bool * string) :=
  match c with
  | Pubkey_parse pubkey input => [(set pubkey, "pubkey != NULL"); (set input, "input != NULL")]
  | Pubkey_serialize output outputlen pubkey flags =>
      [(set outputlen, "outputlen != NULL");
       (match outputlen with Some len => ((if Z.testbit flags 8 then 33 else 65) <=? len)%Z | None => false end,
        "*outputlen >= ((flags & SECP256K1_FLAGS_BIT_COMPRESSION) ? 33 : 65)");
       (set output, "output != NULL"); (set pubkey, "pubkey != NULL");
       ((flags mod 256 =? 2)%Z, "(flags & SECP256K1_FLAGS_TYPE_MASK) == SECP256K1_FLAGS_TYPE_COMPRESSION")]
  | Signature_parse_der sig input => [(set sig, "sig != NULL"); (set input, "input != NULL")]
  | Signature_parse_compact sig input64 => [(set sig, "sig != NULL"); (set input64, "input64 != NULL")]
  | Signature_serialize_der output outputlen sig => [(set output, "output != NULL"); (set outputlen, "outputlen != NULL"); (set sig, "sig != NULL")]
  | Signature_serialize_compact output64 sig => [(set output64, "output64 != NULL"); (set sig, "sig != NULL")]
  | Signature_normalize _ sigin => [(set sigin, "sigin != NULL")]
  | Verify sig msg32 pubkey => [ecmult_built; (set msg32, "msg32 != NULL"); (set sig, "sig != NULL"); (set pubkey, "pubkey != NULL")]
  | Sign signature msg32 seckey _ _ | Sign_recoverable signature msg32 seckey _ _ =>
      [gen_built; (set msg32, "msg32 != NULL"); (set signature, "signature != NULL"); (set seckey, "seckey != NULL")]
  | Seckey_verify seckey => [(set seckey, "seckey != NULL")]
  | Pubkey_create pubkey seckey => [(set pubkey, "pubkey != NULL"); gen_built; (set seckey, "seckey != NULL")]
  | Privkey_tweak_add seckey tweak | Privkey_tweak_mul seckey tweak => [(set seckey, "seckey != NULL"); (set tweak, "tweak != NULL")]
  | Pubkey_tweak_add pubkey tweak | Pubkey_tweak_mul pubkey tweak => [ecmult_built; (set pubkey, "pubkey != NULL"); (set tweak, "tweak != NULL")]
  | Randomize _ => [gen_built]
  | Pubkey_combine pubnonce pubnonces n => [(set pubnonce, "pubnonce != NULL"); ((1 <=? n)%Z, "n >= 1"); (set pubnonces, "pubnonces != NULL")]
  | Recoverable_parse_compact sig input64 recid =>
      [(set sig, "sig != NULL"); (set input64, "input64 != NULL"); (((0 <=? recid) && (recid <=? 3))%Z, "recid >= 0 && recid <= 3")]
  | Recoverable_serialize_compact output64 recid sig => [(set output64, "output64 != NULL"); (set sig, "sig != NULL"); (set recid, "recid != NULL")]
  | Recoverable_convert sig sigin => [(set sig, "sig != NULL"); (set sigin, "sigin != NULL")]
  | Recover pubkey signature msg32 => [ecmult_built; (set msg32, "msg32 != NULL"); (set signature, "signature != NULL"); (set pubkey, "pubkey != NULL")]
  | Shared_secret result point scalar => [(set result, "result != NULL"); (set point, "point != NULL"); (set scalar, "scalar != NULL")]
  | Scalar_mul point scalar => [(set point, "point != NULL"); (set scalar, "scalar != NULL")]
  end.

(** The buffer has the length that the caller says. *)
Definition in_bounds (c : api_call) : Prop :=
  match c with
  | Pubkey_serialize (Some output) (Some len) _ _ => len <= Z.of_nat (length output)
  | _ => True
  end.

(** The functions that need the table of the generator, and the one for sums of
    multiples. *)
Definition needs_gen (c : api_call) : bool :=
  match c with Sign _ _ _ _ _ | Sign_recoverable _ _ _ _ _ | Randomize _ | Pubkey_create (Some _) _ => true | _ => false end.

Definition needs_ecmult (c : api_call) : bool :=
  match c with Verify _ _ _ | Pubkey_tweak_add _ _ | Pubkey_tweak_mul _ _ | Recover _ _ _ => true | _ => false end.

End Calls.

Fixpoint first_failed (l : list (bool * string)) : option string :=
  match l with
  | [] => None
  | (true, _) :: l' => first_failed l'
  | (false, text) :: _ => Some text
  end.

(** ** What a call reports *)

(** The call reports at most keys whose abscissa is zero. *)
Definition reports_keys {T} (m : api T) : Prop := forall texts x, m = Some (texts, x) -> Forall (eq zero_x) texts.

Section Reports.

Lemma reports_done {T} (x : T) : reports_keys (done x).
Proof. intros texts y [= <- _]. constructor. Qed.

Lemma reports_none {T} : reports_keys (None : api T).
Proof. intros texts x E. discriminate. Qed.

Lemma reports_bind {T U} (m : checked U) (k : U -> api T) : (forall x, reports_keys (k x)) -> reports_keys (bind m k).
Proof. intros Hk texts x. destruct m as [y|]; [apply Hk | discriminate]. Qed.

Lemma reports_api_bind {T U} (m : api U) (k : U -> api T) : reports_keys m -> (forall x, reports_keys (k x)) -> reports_keys (api_bind m k).
Proof.
  intros Hm Hk texts x. unfold api_bind. destruct m as [[t y]|]; [|discriminate]. cbn [bind]. specialize (Hm t y eq_refl).
  pose proof (Hk y) as Hy. destruct (k y) as [[t' z]|]; [|discriminate]. intros [= <- <-]. apply Forall_app. split; [exact Hm | exact (Hy t' z eq_refl)].
Qed.

Lemma reports_answer {T} (f : T -> bool) (m : api T) : reports_keys m -> reports_keys (answer f m).
Proof. intros Hm texts x. unfold answer. destruct m as [[t y]|]; [|discriminate]. intros [= <- _]. exact (Hm t y eq_refl). Qed.

Lemma reports_if {T} (b : bool) (m m' : api T) : reports_keys m -> reports_keys m' -> reports_keys (if b then m else m').
Proof. destruct b; auto. Qed.

End Reports.

Create HintDb reports.
#[export] Hint Resolve reports_done reports_none : reports.

(** Goes through the code of a function. *)
Ltac reports_step :=
  match goal with
  | |- reports_keys (match ?x with pair _ _ => _ end) => destruct x
  | |- reports_keys (match ?x with Some _ => _ | None => _ end) => destruct x
  | |- reports_keys (bind _ _) => apply reports_bind; intro
  | |- reports_keys (api_bind _ _) => apply reports_api_bind; [|intro]
  | |- reports_keys (if _ then _ else _) => apply reports_if
  | |- reports_keys _ => auto with reports; fail
  end.

Ltac reports := repeat (cbv beta zeta; reports_step).

Section Properties.
Context {F : FieldOps} {L : FieldLaws F} {SO : ScalarOps} {SL : ScalarLaws SO} {Ob : Objects F SO} {OL : ObjectLaws L SL Ob} {M : Memory F SO} {H : HashMemory} {A : ApiMemory}.

Lemma answer_illegal {T} (f : T -> bool) cb text early : f early = false -> rejected cb (answer f (illegal cb text early)) text.
Proof. intros E. unfold rejected, answer, illegal. destruct (secp256k1_callback_call cb text) as [[]|]; [|reflexivity]. cbn [bind ret]. rewrite E. reflexivity. Qed.

Lemma reports_load ctx pubkey : reports_keys (secp256k1_pubkey_load ctx pubkey).
Proof.
  unfold secp256k1_pubkey_load. apply reports_bind. intros ge. apply reports_bind. intros z. destruct z; cbn [negb ARG_CHECK]; [|apply reports_done].
  intros texts x. unfold illegal. destruct (secp256k1_callback_call _ _); [|discriminate]. intros [= <- _]. repeat constructor.
Qed.

#[local] Hint Resolve reports_load : reports.

Lemma reports_combine_loop ctx n pubnonces Qj : reports_keys (combine_loop n ctx pubnonces Qj).
Proof. revert pubnonces Qj. induction n as [|n IH]; intros [|pk pubnonces] Qj; cbn [combine_loop]; auto with reports. reports. Qed.

#[local] Hint Resolve reports_combine_loop : reports.

Lemma compression_bit flags : negb (Z.land flags SECP256K1_FLAGS_BIT_COMPRESSION =? 0) = Z.testbit flags 8.
Proof.
  change SECP256K1_FLAGS_BIT_COMPRESSION with (2 ^ 8). destruct (Z.testbit flags 8) eqn:E.
  - destruct (Z.eqb_spec (Z.land flags (2 ^ 8)) 0) as [E0|]; [|reflexivity]. apply (f_equal (fun x => Z.testbit x 8)) in E0.
    rewrite Z.land_spec, E, Z.pow2_bits_true in E0 by lia. discriminate.
  - replace (Z.land flags (2 ^ 8)) with 0; [reflexivity|]. symmetry. apply Z.bits_inj'. intros i Hi. rewrite Z.land_spec, Z.bits_0, Z.pow2_bits_eqb by lia.
    destruct (Z.eqb_spec 8 i) as [<-|]; [rewrite E; reflexivity | apply andb_false_r].
Qed.

Lemma compression_type flags : (Z.land flags SECP256K1_FLAGS_TYPE_MASK =? SECP256K1_FLAGS_TYPE_COMPRESSION) = (flags mod 256 =? 2).
Proof. change SECP256K1_FLAGS_TYPE_MASK with (Z.ones 8). rewrite Z.land_ones by lia. reflexivity. Qed.

(** The whole of a call, by the first requirement that fails. *)
Definition checks_arguments (cb : secp256k1_callback) (l : list (bool * string)) (m : api bool) : Prop :=
  match first_failed l with
  | Some text => rejected cb m text
  | None => reports_keys m
  end.

Lemma checks_cond {T} cb (f : T -> bool) cond text early k l : f early = false -> (cond = true -> checks_arguments cb l (answer f k)) ->
  checks_arguments cb ((cond, text) :: l) (answer f (ARG_CHECK cb cond text early k)).
Proof. intros E Hk. unfold checks_arguments, ARG_CHECK in *. destruct cond; cbn [first_failed]; [apply Hk; reflexivity | apply answer_illegal, E]. Qed.

Lemma checks_ptr {T P} cb (f : T -> bool) (p : option P) text early k l : f early = false -> (forall x, p = Some x -> checks_arguments cb l (answer f (k x))) ->
  checks_arguments cb ((set p, text) :: l) (answer f (ARG_PTR cb p text early k)).
Proof. intros E Hk. unfold checks_arguments, ARG_PTR in *. destruct p; cbn [set first_failed]; [apply Hk; reflexivity | apply answer_illegal, E]. Qed.

Lemma checks_end {T} cb (f : T -> bool) (m : api T) : reports_keys m -> checks_arguments cb [] (answer f m).
Proof. exact (reports_answer f m). Qed.

(** A function whose result is its answer. *)
Lemma answer_id (m : api bool) : answer (fun b => b) m = m.
Proof. destruct m as [[t b]|]; reflexivity. Qed.

Ltac checks :=
  repeat (first [apply checks_cond; [reflexivity | intros _] | apply checks_ptr; [reflexivity | intros ? ->]]);
  apply checks_end; unfold sign_inner; reports.

Lemma pubkey_serialize_checks ctx output outputlen pubkey flags : in_bounds (Pubkey_serialize output outputlen pubkey flags) ->
  checks_arguments (illegal_callback ctx) (requirements ctx (Pubkey_serialize output outputlen pubkey flags)) (answer snd (secp256k1_ec_pubkey_serialize ctx output outputlen pubkey flags)).
Proof.
  intros Hb. unfold secp256k1_ec_pubkey_serialize. rewrite compression_bit, compression_type. apply checks_ptr; [reflexivity|]. intros len ->. cbv zeta.
  apply checks_cond; [reflexivity|]. intros _. apply checks_ptr; [reflexivity|]. intros out ->. cbn [in_bounds] in Hb.
  assert (exists b, store out 0 (repeat 0 (Z.to_nat len)) = Some b) as [b ->].
  { unfold store. rewrite repeat_length, (proj2 (Nat.leb_le _ _)) by lia. eexists. reflexivity. }
  cbn [bind]. apply checks_ptr; [reflexivity|]. intros pk ->. apply checks_cond; [reflexivity|]. intros _. apply checks_end. reports.
Qed.

Lemma call_checks fuel ctx c : in_bounds c -> checks_arguments (illegal_callback ctx) (requirements ctx c) (call fuel ctx c).
Proof.
  intros Hb. destruct c; cbn [call requirements]; [| exact (pubkey_serialize_checks ctx _ _ _ _ Hb) |..];
    lazymatch goal with |- checks_arguments _ _ (answer _ _) => idtac | |- checks_arguments _ _ ?m => rewrite <- (answer_id m) end.
  all: match goal with |- checks_arguments _ _ (answer _ ?m) => let f := head_of m in unfold f end.
  all: checks.
Qed.

(** C10: every function of the programming interface that checks its arguments, on any
    arguments, looks at the requirements of its call in order.  If one fails (a pointer
    that is NULL, a buffer too short, a number out of range, flags of another type, a
    table that is missing), it reports the text of the first that fails to the illegal
    argument callback of the context, exactly once, and answers 0 if the callback
    returns.  If none fails, it reports nothing, but for key objects whose abscissa is
    zero.  (The buffer for a serialized key has the length the caller states.) *)
Theorem illegal_arguments fuel ctx c : in_bounds c ->
  match first_failed (requirements ctx c) with
  | Some text => rejected (illegal_callback ctx) (call fuel ctx c) text
  | None => reports_keys (call fuel ctx c)
  end.
Proof. exact (call_checks fuel ctx c). Qed.

(** ** A table that is missing *)

Definition rejects_table (ctx : secp256k1_context) (text : string) (m : api bool) : Prop :=
  rejected (illegal_callback ctx) m text /\ (illegal_callback ctx = default_illegal_callback -> m = None).

Definition never_accepts (m : api bool) : Prop := forall texts, m <> Some (texts, true).

Lemma rejected_table ctx text m : rejected (illegal_callback ctx) m text -> rejects_table ctx text m.
Proof. intros E. split; [exact E|]. intros Ed. rewrite E, Ed. reflexivity. Qed.

Lemma rejected_never cb m text : rejected cb m text -> never_accepts m.
Proof. intros -> texts. destruct (secp256k1_callback_call cb text); discriminate. Qed.

Lemma first_failed_rejected fuel ctx c text : in_bounds c -> first_failed (requirements ctx c) = Some text -> rejects_table ctx text (call fuel ctx c).
Proof. intros Hb E. pose proof (call_checks fuel ctx c Hb) as Hc. unfold checks_arguments in Hc. rewrite E in Hc. exact (rejected_table _ _ _ Hc). Qed.

(** The answer of a call that goes on with what another one returned. *)
Lemma answer_api_bind {T U} (f : U -> bool) (m : api T) (k : T -> api U) x : m = done x -> answer f (api_bind m k) = answer f (k x).
Proof. intros ->. unfold answer, api_bind. cbn [done ret bind app]. destruct (k x) as [[t y]|]; reflexivity. Qed.

Lemma never_api_bind {T U} (f : U -> bool) (m : api T) (k : T -> api U) : (forall x, never_accepts (answer f (k x))) -> never_accepts (answer f (api_bind m k)).
Proof.
  intros Hk texts. unfold answer, api_bind. destruct m as [[t x]|]; [|discriminate]. cbn [bind]. specialize (Hk x). unfold answer in Hk.
  destruct (k x) as [[t' y]|]; [|discriminate]. cbn [bind ret] in *. intros [= <- E]. apply (Hk t'). rewrite E. reflexivity.
Qed.

(** The functions of the Go package on a context without the table. *)
Section Ext.
Context (ctx : secp256k1_context) (Hno : secp256k1_ecmult_context_is_built (ecmult_ctx ctx) = false).

Lemma recover_rejected pubkey signature msg32 {T} (f : T -> bool) (k : option (list Z) -> api T) (early : T) : f early = false ->
  rejected (illegal_callback ctx) (answer f (' (pk, ok) <~ secp256k1_ecdsa_recover ctx pubkey signature msg32;; if negb ok then done early else k pk)) ecmult_text.
Proof.
  intros E. unfold secp256k1_ecdsa_recover, rejected. rewrite Hno. cbn [ARG_CHECK]. unfold illegal, answer, api_bind.
  change "secp256k1_ecmult_context_is_built(&ctx->ecmult_ctx)"%string with ecmult_text.
  destruct (secp256k1_callback_call (illegal_callback ctx) ecmult_text); [|reflexivity]. cbn [bind ret negb done app]. rewrite E. reflexivity.
Qed.

Lemma ext_recover_missing out sigdata msgdata :
  never_accepts (answer snd (secp256k1_ext_ecdsa_recover ctx out sigdata msgdata)) /\
  forall sig, secp256k1_ecdsa_recoverable_signature_parse_compact ctx (Some zero_recoverable) (Some sigdata) (nth 64 sigdata 0) = done (sig, true) ->
    rejects_table ctx ecmult_text (answer snd (secp256k1_ext_ecdsa_recover ctx out sigdata msgdata)).
Proof.
  unfold secp256k1_ext_ecdsa_recover. split.
  - apply never_api_bind. intros [sig ok]. destruct ok; cbn [negb]; [|intros texts; discriminate].
    eapply rejected_never, recover_rejected. reflexivity.
  - intros sig E. rewrite (answer_api_bind _ _ _ _ E). cbn [negb]. apply rejected_table, recover_rejected. reflexivity.
Qed.

Lemma verify_rejected sig msg32 pubkey : rejected (illegal_callback ctx) (secp256k1_ecdsa_verify ctx sig msg32 pubkey) ecmult_text.
Proof. unfold secp256k1_ecdsa_verify. rewrite Hno. reflexivity. Qed.

Lemma ext_verify_missing sigdata msgdata pubkeydata :
  never_accepts (secp256k1_ext_ecdsa_verify ctx sigdata msgdata pubkeydata) /\
  forall sig pubkey, secp256k1_ecdsa_signature_parse_compact ctx (Some zero_signature) (Some sigdata) = done (sig, true) ->
    secp256k1_ec_pubkey_parse ctx (Some zero_pubkey) (Some pubkeydata) = done (pubkey, true) ->
    rejects_table ctx ecmult_text (secp256k1_ext_ecdsa_verify ctx sigdata msgdata pubkeydata).
Proof.
  rewrite <- (answer_id (secp256k1_ext_ecdsa_verify _ _ _ _)). unfold secp256k1_ext_ecdsa_verify. split.
  - apply never_api_bind. intros [sig ok]. destruct ok; cbn [negb]; [|intros texts; discriminate].
    apply never_api_bind. intros [pk ok]. destruct ok; cbn [negb]; [|intros texts; discriminate]. rewrite answer_id. exact (rejected_never _ _ _ (verify_rejected _ _ _)).
  - intros sig pk E E'. rewrite (answer_api_bind _ _ _ _ E). cbn [negb]. rewrite (answer_api_bind _ _ _ _ E'). cbn [negb]. rewrite answer_id. apply rejected_table, verify_rejected.
Qed.

End Ext.

(** C19: a context that was made without a table rejects the operations that need it,
    whatever their other arguments are: both signing functions, the blinding and (for a
    pubkey pointer that is not NULL, which is looked at first) the public key of a
    secret one without the table for signing, verification, recovery and both tweaks of
    a public key without the table for verifying.  The report is one of the table, the
    answer 0, and with the callbacks a new context has, the process aborts instead.
    [secp256k1_ext_ecdsa_recover] and [secp256k1_ext_ecdsa_verify] never answer 1
    without the table, and report it whenever they can parse their inputs. *)
Theorem missing_table fuel ctx sign verify : context_ok sign verify ctx ->
  (sign = false -> forall c, needs_gen c = true -> rejects_table ctx gen_text (call fuel ctx c)) /\
  (verify = false ->
    (forall c, needs_ecmult c = true -> rejects_table ctx ecmult_text (call fuel ctx c)) /\
    (forall out sigdata msgdata, never_accepts (answer snd (secp256k1_ext_ecdsa_recover ctx out sigdata msgdata)) /\
       forall sig, secp256k1_ecdsa_recoverable_signature_parse_compact ctx (Some zero_recoverable) (Some sigdata) (nth 64 sigdata 0) = done (sig, true) ->
         rejects_table ctx ecmult_text (answer snd (secp256k1_ext_ecdsa_recover ctx out sigdata msgdata))) /\
    (forall sigdata msgdata pubkeydata, never_accepts (secp256k1_ext_ecdsa_verify ctx sigdata msgdata pubkeydata) /\
       forall sig pubkey, secp256k1_ecdsa_signature_parse_compact ctx (Some zero_signature) (Some sigdata) = done (sig, true) ->
         secp256k1_ec_pubkey_parse ctx (Some zero_pubkey) (Some pubkeydata) = done (pubkey, true) ->
         rejects_table ctx ecmult_text (secp256k1_ext_ecdsa_verify ctx sigdata msgdata pubkeydata))).
Proof.
  intros [Hs Hv]. split.
  - intros -> c Hc. assert (secp256k1_ecmult_gen_context_is_built (ecmult_gen_ctx ctx) = false) as E by (unfold secp256k1_ecmult_gen_context_is_built; rewrite Hs; reflexivity).
    apply first_failed_rejected; destruct c as [| | | | | | | | | |[?|] ?| | | | | | | | | | | | |]; try discriminate; try exact I; cbn [requirements first_failed set]; unfold gen_built; rewrite E; reflexivity.
  - intros ->. assert (secp256k1_ecmult_context_is_built (ecmult_ctx ctx) = false) as E by (unfold secp256k1_ecmult_context_is_built; rewrite Hv; reflexivity).
    split; [|split; [exact (ext_recover_missing ctx E) | exact (ext_verify_missing ctx E)]]. intros c Hc.
    apply first_failed_rejected; destruct c; try discriminate; try exact I; cbn [requirements first_failed]; unfold ecmult_built; rewrite E; reflexivity.
Qed.

(** ** A key of zero bytes *)

(** The call answers [Q]; the report of the key is made when [reported]. *)
Definition zero_key_fails {T} (m : api T) (reported : bool) (Q : T -> Prop) : Prop := Returns m (fun '(texts, x) => texts = (if reported then [zero_x] else []) /\ Q x).

Lemma load_zero ctx {T} (k : bool * secp256k1_ge -> api T) Q : (forall text, secp256k1_callback_call (illegal_callback ctx) text = Some tt) ->
  (forall ge, Quiet (k (false, ge)) Q) -> zero_key_fails (api_bind (secp256k1_pubkey_load ctx zero_pubkey) k) true Q.
Proof.
  intros Hcb Hk. unfold zero_key_fails, api_bind. eapply Returns_bind with (P := fun '(t, (ok, _)) => t = [zero_x] /\ ok = false).
  - apply (pubkey_load_point ctx zero_pubkey Zmod.zero Zmod.zero); [exists Zmod.zero, Zmod.zero; split; reflexivity|]. intros ge _ _.
    change (negb (Zmod.eqb Zmod.zero Zmod.zero)) with false. unfold ARG_CHECK, illegal. rewrite Hcb. split; reflexivity.
  - intros [t [ok ge]] [-> ->]. eapply Returns_bind; [exact (Hk ge)|]. intros [t' x] [-> HQ]. split; [reflexivity | exact HQ].
Qed.

(** The key is only looked at when an earlier test [o] passes. *)
Lemma load_zero_guarded ctx {T} (o : Z) (passes : bool) (k : bool * secp256k1_ge -> api T) (early : T) (Q : T -> Prop) :
  (forall text, secp256k1_callback_call (illegal_callback ctx) text = Some tt) -> (o =? 0) = passes -> Q early -> (forall ge, Quiet (k (false, ge)) Q) ->
  zero_key_fails (if negb (o =? 0) then done early else api_bind (secp256k1_pubkey_load ctx zero_pubkey) k) passes Q.
Proof. intros Hcb -> HQ Hk. destruct passes; cbn [negb]; [exact (load_zero ctx k Q Hcb Hk) | split; [reflexivity | exact HQ]]. Qed.

(** C20: the object that a failed function leaves in place of a public key, 64 zero
    bytes, is not taken for a key.  On a context with the table for verifying and a
    callback that returns, verification answers 0 for every signature and message, and
    reports the key unless it stops earlier, at an s above n / 2; both tweaks fail for
    every tweak and leave the object as it is, and report the key unless they stop
    earlier, at a tweak that is not below n; serialization into a buffer that is large
    enough fails, with the length 0, and reports the key. *)
Theorem zero_pubkey_rejected ctx r s msg tweak out len (c : bool) : (forall text, secp256k1_callback_call (illegal_callback ctx) text = Some tt) ->
  verify_ready ctx -> bytes_of_len 32 msg -> bytes_of_len 32 tweak -> (if c then 33 else 65) <= len <= Z.of_nat (length out) ->
  zero_key_fails (secp256k1_ecdsa_verify ctx (Some (sig_obj r s)) (Some msg) (Some zero_pubkey)) (Zmod.to_Z s <=? n / 2) (fun ok => ok = false) /\
  zero_key_fails (secp256k1_ec_pubkey_tweak_add ctx (Some zero_pubkey) (Some tweak)) (be_value tweak <? n) (fun '(o, ok) => o = Some zero_pubkey /\ ok = false) /\
  zero_key_fails (secp256k1_ec_pubkey_tweak_mul ctx (Some zero_pubkey) (Some tweak)) (be_value tweak <? n) (fun '(o, ok) => o = Some zero_pubkey /\ ok = false) /\
  zero_key_fails (secp256k1_ec_pubkey_serialize ctx (Some out) (Some len) (Some zero_pubkey) (if c then SECP256K1_EC_COMPRESSED else SECP256K1_EC_UNCOMPRESSED)) true
    (fun '(_, l, ok) => l = Some 0 /\ ok = false).
Proof.
  intros Hcb Hv Hm Ht Hlen. split; [|split; [|split]].
  - unfold secp256k1_ecdsa_verify. apply ARG_CHECK_ok; [apply verify_ready_built, Hv|]. cbn [ARG_PTR]. eapply Returns_bind; [exact (sc_set_b32_ok msg Hm)|]. intros [o m] _.
    eapply Returns_bind; [exact (signature_load_ok r s)|]. intros [a b] [_ Hb]. apply load_zero_guarded; [exact Hcb | | reflexivity | intros ge; apply Quiet_done; reflexivity].
    rewrite (sc_is_high_ok _ _ Hb), Z.leb_antisym. destruct (_ <? _); reflexivity.
  - unfold secp256k1_ec_pubkey_tweak_add. apply ARG_CHECK_ok; [apply verify_ready_built, Hv|]. cbn [ARG_PTR]. eapply Returns_bind; [exact (set_seckey_ok tweak Ht)|]. intros [o t] (_ & _ & Eo).
    apply load_zero_guarded; [exact Hcb | exact Eo | split; reflexivity | intros ge; apply Quiet_done; split; reflexivity].
  - unfold secp256k1_ec_pubkey_tweak_mul. apply ARG_CHECK_ok; [apply verify_ready_built, Hv|]. cbn [ARG_PTR]. eapply Returns_bind; [exact (set_seckey_ok tweak Ht)|]. intros [o t] (_ & _ & Eo).
    apply load_zero_guarded; [exact Hcb | exact Eo | split; reflexivity | intros ge; apply Quiet_done; split; reflexivity].
  - unfold secp256k1_ec_pubkey_serialize. cbn [ARG_PTR]. apply ARG_CHECK_ok; [apply Z.leb_le; destruct c; exact (proj1 Hlen)|].
    eapply Returns_bind with (P := fun _ => True); [apply store_ok; [rewrite repeat_length; destruct c; lia | exact I]|]. intros b _. apply ARG_CHECK_ok; [destruct c; reflexivity|].
    apply load_zero; [exact Hcb|]. intros ge. apply Quiet_done. split; reflexivity.
Qed.

End Properties.

(** ** Witnesses *)

(** A recovery id of 4, and a serialization of a missing key, whose length is cleared first. *)
Lemma illegal_arguments_witness : exists ctx : secp256k1_context, 
  rejected (illegal_callback ctx) (call 1 ctx (Recoverable_parse_compact (Some blank64) (Some blank64) 4)) "recid >= 0 && recid <= 3" /\
  rejected (illegal_callback ctx) (call 1 ctx (Pubkey_serialize (Some (repeat 0 65)) (Some 65) None SECP256K1_EC_UNCOMPRESSED)) "pubkey != NULL".
Proof.
  sample_ctx. split.
  - exact (illegal_arguments 1 ctx (Recoverable_parse_compact (Some blank64) (Some blank64) 4) I).
  - apply (illegal_arguments 1 ctx (Pubkey_serialize (Some (repeat 0 65)) (Some 65) None SECP256K1_EC_UNCOMPRESSED)). cbn. lia.
Defined.

(** A context made with no flags. *)
Lemma missing_table_witness : exists ctx : secp256k1_context, secp256k1_context_create 1 SECP256K1_CONTEXT_NONE = Some ([], Some ctx) /\
  call 1 ctx (Verify (Some blank64) (Some sample_msg) (Some blank64)) = None /\ call 1 ctx (Pubkey_create (Some blank64) None) = None.
Proof.
  pose (ctx := mk_context secp256k1_ecmult_context_init (secp256k1_ecmult_gen_context_init (mk_ecmult_gen_context None uninit_scalar uninit_gej)) default_illegal_callback default_error_callback).
  exists ctx. split; [reflexivity|]. assert (Hc : context_ok false false ctx) by (split; reflexivity).
  destruct (missing_table 1 ctx false false Hc) as [HS HV]. destruct (HV eq_refl) as [HV' _].
  exact (conj (proj2 (HV' (Verify (Some blank64) (Some sample_msg) (Some blank64)) eq_refl) eq_refl) (proj2 (HS eq_refl (Pubkey_create (Some blank64) None) eq_refl) eq_refl)).
Defined.

Lemma zero_pubkey_witness : exists ctx : secp256k1_context,
  zero_key_fails (secp256k1_ecdsa_verify (secp256k1_context_set_illegal_callback ctx quiet_callback 0) (Some (sig_obj Zmod.one Zmod.one)) (Some sample_msg) (Some zero_pubkey)) true
    (fun ok => ok = false).
Proof.
  sample_ctx.
  exact (proj1 (zero_pubkey_rejected (secp256k1_context_set_illegal_callback ctx quiet_callback 0) Zmod.one Zmod.one sample_msg sample_msg (repeat 0 65) 65 true (fun _ => eq_refl) Hverify
    sample_msg_bytes sample_msg_bytes ltac:(rewrite repeat_length; lia))).
Defined.
