(* ===== verification/LaxTheorems.v ===== *)
(** * Properties of the lax parsers *)

From Stdlib Require Import String ZArith Lia List Bool.
From S2P Require Import Prelude Modulus Bytes Field FieldReprs FieldImpl Curve CurveGroup CurveOrder Group Scalar ScalarReprs ScalarImpl Ecmult Hash EcmultGen EcmultGenSpec Objects Buffer Ecdsa Secp256k1 Der Signatures EckeySpec ApiSpec ApiKeys ApiSign ApiEcdh Build Lax LaxSpec.
Import ListNotations.

#[local] Open Scope Z_scope.
#[local] Open Scope checked_scope.

Section Properties.
Context {F : FieldOps} {L : FieldLaws F} {SO : ScalarOps} {SL : ScalarLaws SO} {Ob : Objects F SO} {OL : ObjectLaws L SL Ob} {M : Memory F SO} {H : HashMemory} {A : ApiMemory}.

(** A nonnegative integer in DER is worth its bytes. *)
Lemma der_integer_nonnegative c : der_int c -> 0 <= der_integer c -> der_integer c = be_value c.
Proof.
  intros [Hb _] Hc. unfold der_integer in *. destruct (0x80 <=? hd 0 c); [|lia]. pose proof (be_value_bound c Hb). lia.
Qed.

(** C24: the lax parser of signatures.  It returns on every input, with a well-formed
    object.  Behind the headers of a signature it takes any two strings of bytes,
    minimal or not, negative or empty, for the nonnegative integers they write, and
    ignores what follows; out of range they make the zero signature.  On the
    signatures that the strict parser accepts with both integers in range, the two
    parsers make the same object. *)
Theorem lax_der_correct ctx sig0 :
  (forall input, is_bytes input -> Quiet (ecdsa_signature_parse_der_lax ctx sig0 input)
     (fun '(o, ok) => exists r s, o = Some (sig_obj r s) /\ (ok = false -> r = Zmod.zero /\ s = Zmod.zero))) /\
  (forall c d g, is_bytes c -> is_bytes d -> is_bytes g -> Z.of_nat (length (der_signature c d)) < 2 ^ 31 ->
     Quiet (ecdsa_signature_parse_der_lax ctx sig0 (der_signature c d ++ g)) (fun '(o, ok) => ok = true /\
       o = Some (if (be_value c <? n) && (be_value d <? n) then sig_obj (residue c) (residue d) else zero_signature))) /\
  (forall c d, der_int c -> der_int d -> 0 <= der_integer c < n -> 0 <= der_integer d < n -> Z.of_nat (length (der_signature c d)) < 2 ^ 31 ->
     Quiet (' (o, ok) <~ secp256k1_ecdsa_signature_parse_der ctx (Some sig0) (Some (der_signature c d));;
            ' (o', ok') <~ ecdsa_signature_parse_der_lax ctx sig0 (der_signature c d);;
            done (o, ok, o', ok')) (fun '(o, ok, o', ok') => ok = true /\ ok' = true /\ o = o')).
Proof.
  split; [exact (parse_der_lax_total ctx sig0)|]. split; [exact (parse_der_lax_encoded ctx sig0)|]. intros c d Hc Hd Rc Rd Hl. unfold secp256k1_ecdsa_signature_parse_der. cbn [ARG_PTR].
  eapply Quiet_bind with (P := fun '(o, ok) => ok = true /\ o = Some (lax_obj c d)).
  - eapply Quiet_step; [exact (ecdsa_sig_parse_encoded uninit_scalar uninit_scalar c d (proj1 Hc) (proj2 Hc) (proj1 Hd) (proj2 Hd) Hl)|]. intros [[ok r] s] (-> & Wr & Er & Ws & Es). apply Quiet_done.
    split; [reflexivity|]. unfold lax_obj. rewrite <- (der_integer_nonnegative c Hc), <- (der_integer_nonnegative d Hd) by lia. rewrite !(proj2 (Z.ltb_lt _ _)) by lia. cbn [andb].
    assert (HS : forall c, der_int c -> 0 <= der_integer c < n -> der_scalar c = Zmod.to_Z (residue c)).
    { intros c' Hc' Rc'. unfold der_scalar, residue. rewrite (proj2 (Z.leb_le 0 _)), (proj2 (Z.ltb_lt _ n)) by lia. cbn [andb]. rewrite <- (der_integer_nonnegative c' Hc') by lia. rewrite toFn_small; [reflexivity | exact Rc']. }
    rewrite (signature_save_ok r s (residue c) (residue d)); [reflexivity | split; [exact Wr | rewrite Er; apply HS; assumption] | split; [exact Ws | rewrite Es; apply HS; assumption]].
  - intros [o ok] [-> ->]. eapply Quiet_bind; [rewrite <- (app_nil_r (der_signature c d)); exact (parse_der_lax_encoded ctx sig0 c d [] (proj1 Hc) (proj1 Hd) (Forall_nil _) Hl)|].
    intros [o' ok'] [-> ->]. apply Quiet_done. auto.
Qed.

(** C25: private keys.  A valid secret survives export and import, in both forms, in a
    buffer of 279 bytes; the import gives a valid secret or 32 zero bytes for every
    input. *)
Theorem privkey_der_roundtrip ctx pk0 buf key (c : bool) : sign_ready ctx -> seckey_of key (residue key) -> (279 <= length buf)%nat ->
  Quiet (' (o, l, ok) <~ ec_privkey_export_der ctx pk0 buf key c;;
         ' (key', ok') <~ ec_privkey_import_der ctx (firstn (Z.to_nat l) o);;
         done (l, ok, key', ok')) (fun '(l, ok, key', ok') => l = (if c then 214 else 279) /\ ok = true /\ ok' = true /\ key' = key) /\
  forall input, is_bytes input -> Quiet (ec_privkey_import_der ctx input) (fun '(o, ok) => bytes_of_len 32 o /\ if ok then seckey_ok o = true else o = repeat 0 32).
Proof.
  intros Hs Hk Hl. split; [|exact (privkey_import_total ctx)].
  eapply Quiet_bind; [exact (privkey_export_ok ctx pk0 buf key c Hs (proj1 Hk) ltac:(destruct c; unfold export_size; lia))|]. intros [[o l] ok] [-> HE]. rewrite (seckey_of_ok _ _ Hk) in *.
  destruct HE as (x & y & _ & -> & ->). rewrite Nat2Z.id, firstn_exact by (apply length_exported, Hk).
  eapply Quiet_bind; [exact (privkey_import_exported ctx key x y c Hk)|]. intros [key' ok'] [-> ->]. apply Quiet_done. split; [destruct c; reflexivity | auto].
Qed.

End Properties.

(** ** Witnesses *)

(** The integers 1 and 2, the second padded, and a byte after them. *)
Lemma lax_der_witness : exists ctx : secp256k1_context,
  Quiet (ecdsa_signature_parse_der_lax ctx blank64 (der_signature [1] [0; 0; 2] ++ [9])) (fun '(o, ok) => ok = true /\ o = Some (sig_obj (residue [1]) (residue [0; 0; 2]))).
Proof.
  sample_ctx. assert (Hb : is_bytes [1] /\ is_bytes [0; 0; 2] /\ is_bytes [9]) by (repeat split; repeat constructor; lia). destruct Hb as (H1 & H2 & H3).
  assert (E : (be_value [1] <? n) && (be_value [0; 0; 2] <? n) = true) by reflexivity.
  pose proof (proj1 (proj2 (lax_der_correct ctx blank64)) [1] [0; 0; 2] [9] H1 H2 H3 eq_refl) as HL. rewrite E in HL. exact HL.
Defined.

Lemma privkey_der_witness : exists ctx : secp256k1_context,
  Quiet (' (o, l, ok) <~ ec_privkey_export_der ctx blank64 (repeat 0 279) sample_key true;;
         ' (key', ok') <~ ec_privkey_import_der ctx (firstn (Z.to_nat l) o);;
         done (l, ok, key', ok')) (fun '(l, ok, key', ok') => l = 214 /\ ok = true /\ ok' = true /\ key' = sample_key).
Proof.
  sample_ctx. refine (proj1 (privkey_der_roundtrip ctx blank64 (repeat 0 279) sample_key true Hsign sample_key_of _)). rewrite repeat_length. lia.
Defined.
