(* ===== verification/AsmTheorems.v ===== *)
(** * Properties of the build with x86-64 assembly

    The assembly computes what the C code computes, so the laws of the field and of
    the scalars hold of it, and with them every theorem on the library that is stated
    over the interfaces.  The last theorem is about the operands of the first
    statement of [secp256k1_scalar_reduce_512]. *)

From Stdlib Require Import String ZArith Lia List Bool.
From S2P Require Import Prelude Modulus Bytes X86 Operands Field5x52 Field FieldReprs FieldAsm FieldImpl Curve CurveGroup CurveOrder Group GroupConv ScalarAcc ScalarWords Scalar4x64 Scalar ScalarReprs ScalarAsm ScalarImpl Hash HashSpec Ecmult EcmultSpec EcmultGen EcmultGenSpec EcmultConst Objects Buffer Eckey Ecdsa Secp256k1 Recovery Ecdh Der Signatures EcdsaSpec EckeySpec ApiSpec ApiKeys ApiSign ApiEcdh ContextSpec Build.
Import ListNotations.

#[local] Open Scope Z_scope.
#[local] Open Scope checked_scope.

(** ** Objects of the build *)

Definition Objects_asm (lo : leftover) (pl : placements) : Objects (Field_5x52_asm lo) (Scalar_4x64_asm lo pl) :=
  @Build_Objects (Field_5x52_asm lo) (Scalar_4x64_asm lo pl) (4 * 8) (4 * 8)
    (object_bytes 8 storage52_words) (bytes_object 8 4 (words4 Field5x52.mk_storage))
    (object_bytes 8 Scalar4x64.limbs) (bytes_object 8 4 (words4 Scalar4x64.S4)).

#[export] Instance ObjectLaws_asm (lo : leftover) (pl : placements) : ObjectLaws (Laws_5x52_asm lo) (Laws_4x64_asm lo pl) (Objects_asm lo pl) :=
  @Build_ObjectLaws _ _ (Laws_5x52_asm lo) (Laws_4x64_asm lo pl) (Objects_asm lo pl) eq_refl eq_refl
    (object_bytes_spec 8 4 _ _ _ _ eq_refl storage52_wf storage52_value words4_storage52)
    (bytes_object_spec 8 4 _ _ _ _ eq_refl storage52_value storage52_of_words)
    (fun a Ha => object_bytes_spec 8 4 _ _ _ _ eq_refl scalar64_wf scalar64_value words4_scalar64 a (proj1 Ha))
    (fun b Hb => scalar_from_bytes _ _ _ _ (bytes_object_spec 8 4 _ _ _ _ eq_refl scalar64_value scalar64_of_words b Hb)).

(** Registers and memory that hold anything. *)
Definition sample_leftover : leftover := mk_leftover (mk_registers 1 2 3 4 5 6 7 8 9 10 11 12 13 14 15 16 true) (fun k => Z.of_nat k).

(** Operands in registers: [m0] in [rbx], [p3] in the register of the input [m3], [c] in
    the register of [r]. *)
Definition sample_512 : placement := mk_placement (fun k => match k with O => InReg rbx | 7%nat => InReg rsi | 8%nat => Const (Int SECP256K1_N_C_0) | 9%nat => Const (Int SECP256K1_N_C_1) | _ => Slot k end) 7.



Lemma sample_outside : outside_rsi sample_512.
Proof. intros k Hk. do 3 (destruct k as [|k]; [discriminate|]). lia. Qed.


(** The first statement with [m0] in the register of [l]. *)
Definition sample_clash : placement := mk_placement (fun k => match k with O => InReg rsi | 7%nat => InReg rsi | 8%nat => Const (Int SECP256K1_N_C_0) | 9%nat => Const (Int SECP256K1_N_C_1) | _ => Slot k end) 7.


Section Programs.
Context {F : FieldOps} {SO : ScalarOps} {Ob : Objects F SO} {M : Memory F SO} {H : HashMemory} {A : ApiMemory}.


End Programs.

(** ** Properties *)




(** C26: the assembly of [secp256k1_fe_mul_inner] and [secp256k1_fe_sqr_inner] returns, and
    computes the limbs that the C code computes, on every pair of operands of
    magnitude 8; it writes them to [r] and leaves the rest of memory as it was, also
    where [r] is [a], and whatever the registers and the stack frame held. *)
Theorem fe_asm_refines lo m r a b A B R : limbs_mag 16 A -> limbs_mag 16 B ->
  block m a = Some (limb_list A) -> block m b = Some (limb_list B) -> block m r = Some (limb_list R) -> r <> b ->
  (exists L, Field5x52.secp256k1_fe_mul_inner A B = Some L /\ fe_mul_inner_x86 lo m r a b = Some (set_block m r (limb_list L))) /\
  (exists L, Field5x52.secp256k1_fe_sqr_inner A = Some L /\ fe_sqr_inner_x86 lo m r a = Some (set_block m r (limb_list L))).
Proof.
  intros HA HB Ha Hb Hr Hrb. split.
  - destruct (proj1 (Returns_exists _ _) (fe52_mul_inner_spec A B HA HB)) as (L & EL & _). exists L. split; [exact EL|].
    exact (run_mem _ _ _ _ (fe_mul_inner_x86_run lo m r a b A B R L Ha Hb Hr Hrb EL)).
  - destruct (proj1 (Returns_exists _ _) (fe52_sqr_inner_spec A HA)) as (L & EL & _). exists L. split; [exact EL|].
    exact (run_mem _ _ _ _ (fe_sqr_inner_x86_run lo m r a A R L Ha Hr EL)).
Qed.

(** A multiplication in place. *)
Lemma fe_asm_refines_witness : exists L, fe_mul_inner_x86 sample_leftover [[1; 2; 3; 4; 5]; [2 ^ 52 - 1; 7; 8; 9; 1]] 0 0 1 = Some [limb_list L; [2 ^ 52 - 1; 7; 8; 9; 1]].
Proof.
  destruct (fe_asm_refines sample_leftover [[1; 2; 3; 4; 5]; [2 ^ 52 - 1; 7; 8; 9; 1]] 0 0 1 (L5 1 2 3 4 5) (L5 (2 ^ 52 - 1) 7 8 9 1) (L5 1 2 3 4 5)) as [(L & _ & E) _];
    [unfold limbs_mag; cbn; lia | unfold limbs_mag; cbn; lia | reflexivity | reflexivity | reflexivity | discriminate | exists L; exact E].
Defined.



(** C34: the first statement of [secp256k1_scalar_reduce_512] works exactly when [m0],
    [m1] and [m2] are outside [rsi], for every choice of places that its constraints
    permit: then it returns seven words with the residue of [l] modulo n, and otherwise
    it has no result, as the store of an output overwrites the pointer [l] and the next
    load takes a number for an address.  The constraints permit such a choice, as the
    outputs have no early clobber. *)
Theorem reduce_512_placements lo pl l : permitted reduce_512_statement pl -> words_ok 64 8 l ->
  (outside_rsi pl -> exists m, reduce_512_385_x86 lo pl l = Some m /\ words_ok 64 7 m /\ words_Z 64 m mod n = words_Z 64 l mod n) /\
  (~ outside_rsi pl -> reduce_512_385_x86 lo pl l = None) /\
  exists pl', permitted reduce_512_statement pl' /\ ~ outside_rsi pl'.
Proof.
  intros Hpl Hl. split; [|split].
  - intros Hr. destruct (proj1 (Returns_exists _ _) (reduce_512_385_x86_spec lo pl l Hpl Hr Hl)) as (m & E & Hm & _ & En & _). exists m. auto.
  - intros HN. destruct (not_outside_rsi pl HN) as (j & Hj & E). exact (reduce_512_385_clash lo pl l j Hj Hpl E Hl).
  - exists sample_clash. split; [apply permittedb_permitted; reflexivity|]. intros H. exact (H O ltac:(lia) eq_refl).
Qed.

Lemma reduce_512_placements_witness :
  (exists m, reduce_512_385_x86 sample_leftover sample_512 [1; 2; 3; 4; 5; 6; 7; 8] = Some m) /\ reduce_512_385_x86 sample_leftover sample_clash [1; 2; 3; 4; 5; 6; 7; 8] = None.
Proof.
  assert (words_ok 64 8 [1; 2; 3; 4; 5; 6; 7; 8]) as Hl by close_word_list. split.
  - destruct (reduce_512_placements sample_leftover sample_512 _ (permittedb_permitted reduce_512_statement sample_512 eq_refl) Hl) as (H & _). destruct (H sample_outside) as (m & E & _). exists m. exact E.
  - apply (reduce_512_placements sample_leftover sample_clash _ (permittedb_permitted reduce_512_statement sample_clash eq_refl) Hl). intros H. exact (H O ltac:(lia) eq_refl).
Defined.
