(* ===== verification/Gfp.v ===== *)
(** * The field of the pairing curve ([bn256/cloudflare/gfp.go])

    A field element is four 64-bit words in memory, and a [*gfP] the block it is in.
    The sums, differences, opposites and Montgomery products are declared in
    [gfp_decl.go] and written in assembly: here they are a class, with what they
    promise, and the functions of [gfp.go] are written with them.  The products of all
    processors are Montgomery products, so that [montEncode], [montDecode], [newGFp]
    and [Invert] do not depend on the processor. *)

From Stdlib Require Import ZArith Lia List Bool.
From S2P Require Import Prelude Modulus Bytes ScalarWords X86.
Import ListNotations.

#[local] Open Scope Z_scope.
#[local] Open Scope checked_scope.

(** ** Constants *)

Definition p2_words : list Z := [0x3c208c16d87cfd47; 0x97816a916871ca8d; 0xb85045b68181585d; 0x30644e72e131a029].
Definition np_words : list Z := [0x87d20782e4866389; 0x9ede7d651eca6ac9; 0xd8afcbd01833da80; 0xf57a22b791888c6b].

(** The inverse, the square and the cube of [2^256] modulo the modulus. *)
Definition rN1 : list Z := [0xed84884a014afa37; 0xeb2022850278edf8; 0xcf63e9cfb74492d9; 0x2e67157159e5c639].
Definition r2 : list Z := [0xf32cfc5b538afa89; 0xb5e71911d44501fb; 0x47ab1eff0a417ff6; 0x06d89f71cab8351f].
Definition r3 : list Z := [0xb1cd6dafda1530df; 0x62f210e6a7283db6; 0xef7f0b0c0ada0afb; 0x20fd6e902d592544].

(** The modulus. *)
Definition P : Z := 0x30644e72e131a029b85045b68181585d97816a916871ca8d3c208c16d87cfd47.

(** The inverse of the opposite of the modulus, modulo [2^256]. *)
Definition NP : Z := 0xf57a22b791888c6bd8afcbd01833da809ede7d651eca6ac987d20782e4866389.

(** ** Operations *)

(** [gfpNeg(c, a)], [gfpAdd(c, a, b)], [gfpSub(c, a, b)] and [gfpMul(c, a, b)] *)
Class GfpOps : Type := {
  gfp_neg : list (list Z) -> nat -> nat -> checked (list (list Z));
  gfp_add : list (list Z) -> nat -> nat -> nat -> checked (list (list Z));
  gfp_sub : list (list Z) -> nat -> nat -> nat -> checked (list (list Z));
  gfp_mul : list (list Z) -> nat -> nat -> nat -> checked (list (list Z))
}.

(** The blocks of [rN1], [r2] and [r3], which are variables of the package. *)
Definition rN1_ptr : nat := 0.
Definition r2_ptr : nat := 1.
Definition r3_ptr : nat := 2.

(** [e.Set(f)] *)
Definition gfP_Set (m : list (list Z)) (e f : nat) : checked (list (list Z)) :=
  l <- block m f;; _ <- block m e;; ret (set_block m e l).

(** A new element, and where it is. *)
Definition gfP_new (m : list (list Z)) (l : list Z) : list (list Z) * nat := (m ++ [l], length m).

Section Functions.
Context {G : GfpOps}.

Definition montEncode (m : list (list Z)) (c a : nat) : checked (list (list Z)) := gfp_mul m c a r2_ptr.

Definition montDecode (m : list (list Z)) (c a : nat) : checked (list (list Z)) :=
  let '(m, one) := gfP_new m [1; 0; 0; 0] in
  gfp_mul m c a one.

(** [x] is an [int64]; the opposite of the least of them is itself. *)
Definition newGFp (m : list (list Z)) (x : Z) : checked (list (list Z) * nat) :=
  m_out <- (if 0 <=? x then ret (gfP_new m [u64 x; 0; 0; 0])
            else let '(m, out) := gfP_new m [u64 (i64 (- x)); 0; 0; 0] in m <- gfp_neg m out out;; ret (m, out));;
  let '(m, out) := m_out in
  m <- montEncode m out out;;
  ret (m, out).

(** One bit of the exponent, and the bits of a word. *)
Definition Invert_bit (sum power : nat) (w : Z) (m : list (list Z)) (bit : nat) : checked (list (list Z)) :=
  m <- (if Z.land (Z.shiftr w (Z.of_nat bit)) 1 =? 1 then gfp_mul m sum sum power else ret m);;
  gfp_mul m power power power.

Fixpoint foldM {A B} (f : A -> B -> checked A) (a : A) (l : list B) : checked A :=
  match l with
  | [] => ret a
  | x :: l' => a <- f a x;; foldM f a l'
  end.

Definition Invert_word (sum power : nat) (m : list (list Z)) (w : Z) : checked (list (list Z)) :=
  foldM (Invert_bit sum power w) m (seq 0 64).

Definition Invert_bits : list Z := [0x3c208c16d87cfd45; 0x97816a916871ca8d; 0xb85045b68181585d; 0x30644e72e131a029].

Definition Invert (m : list (list Z)) (e f : nat) : checked (list (list Z)) :=
  let '(m, sum) := gfP_new m [0; 0; 0; 0] in
  let '(m, power) := gfP_new m [0; 0; 0; 0] in
  m <- gfP_Set m sum rN1_ptr;;
  m <- gfP_Set m power f;;
  m <- foldM (Invert_word sum power) m Invert_bits;;
  m <- gfp_mul m sum sum r3_ptr;;
  gfP_Set m e sum.

End Functions.

(** ** Words *)

(** [x0 + 2^64 x1 + 2^128 x2 + 2^192 x3], and the same of eight words *)
Abbreviation val4 x0 x1 x2 x3 := (x0 + 2 ^ 64 * (x1 + 2 ^ 64 * (x2 + 2 ^ 64 * x3))).
Abbreviation val5 x0 x1 x2 x3 x4 := (x0 + 2 ^ 64 * (x1 + 2 ^ 64 * (x2 + 2 ^ 64 * (x3 + 2 ^ 64 * x4)))).

(** A row of a product. *)
Lemma row_sum x b0 b1 b2 b3 : val4 (times x b0) (times x b1) (times x b2) (times x b3) = x * val4 b0 b1 b2 b3.
Proof. unfold times. ring. Qed.

Lemma rows_sum x0 x1 x2 x3 r0 r1 r2 r3 B : r0 = x0 * B -> r1 = x1 * B -> r2 = x2 * B -> r3 = x3 * B ->
  r0 + 2 ^ 64 * r1 + 2 ^ 128 * r2 + 2 ^ 192 * r3 = val4 x0 x1 x2 x3 * B.
Proof. intros -> -> -> ->. ring. Qed.

(** Eight words in two halves. *)
Lemma halves p t0 t1 t2 t3 t4 t5 t6 t7 : p = val4 t0 t1 t2 (t3 + 2 ^ 64 * val4 t4 t5 t6 t7) -> p = val4 t0 t1 t2 t3 + 2 ^ 256 * val4 t4 t5 t6 t7.
Proof. intros ->. ring. Qed.

(** The words of an element. *)
Lemma words_Z_val4 a0 a1 a2 a3 : words_Z 64 [a0; a1; a2; a3] = val4 a0 a1 a2 a3.
Proof. cbn [words_Z]. ring. Qed.

(** The products that have a word below [2^256], and all of them. *)
Lemma low_sum n0 n1 n2 n3 t0 t1 t2 t3 m q :
  val4 (times n0 t0) (times n0 t1) (times n0 t2) (times n0 t3) + 2 ^ 64 * (times n1 t0 + 2 ^ 64 * (times n1 t1 + 2 ^ 64 * times n1 t2)) +
    2 ^ 128 * (times n2 t0 + 2 ^ 64 * times n2 t1) + 2 ^ 192 * times n3 t0 = m + 2 ^ 256 * q ->
  val4 n0 n1 n2 n3 * val4 t0 t1 t2 t3 = m + 2 ^ 256 * (q + n1 * t3 + n2 * (t2 + 2 ^ 64 * t3) + n3 * (t1 + 2 ^ 64 * (t2 + 2 ^ 64 * t3))).
Proof.
  intros K. transitivity (m + 2 ^ 256 * q + 2 ^ 256 * (n1 * t3 + n2 * (t2 + 2 ^ 64 * t3) + n3 * (t1 + 2 ^ 64 * (t2 + 2 ^ 64 * t3)))); [|ring].
  rewrite <- K. unfold times. ring.
Qed.

Lemma word_if (b : bool) x y : word x -> word y -> word (if b then x else y).
Proof. destruct b; auto. Qed.

(** [q] is whatever overflows. *)
Ltac overflow_name q K := let v := fresh "q" in set (v := q) in K; clearbody v.

(** The eight words of a product. *)
Ltac name_words K t0 t1 t2 t3 t4 t5 t6 t7 :=
  match type of K with _ = val4 ?x0 ?x1 ?x2 (?x3 + 2 ^ 64 * val4 ?x4 ?x5 ?x6 ?x7) =>
    rename x0 into t0, x1 into t1, x2 into t2, x3 into t3, x4 into t4, x5 into t5, x6 into t6, x7 into t7 end.

(** The products that have no word below [2^256]. *)
Ltac low_complete n0 n1 n2 n3 t0 t1 t2 t3 K KM :=
  match type of K with ?u = ?m + _ * ?q =>
    pose proof (low_sum n0 n1 n2 n3 t0 t1 t2 t3 m q K : id _) as KM;
    match type of KM with id (_ = _ + _ * ?q') => let v := fresh "q" in set (v := q') in KM; clearbody v; clear K q end
  end.

(** The elements of a list of a known length. *)
Ltac split_list l H :=
  let x := fresh "z" in let l' := fresh "l" in
  destruct l as [|x l']; [try discriminate H | first [discriminate H | split_list l' H]].

(** The words of the modulus and of its inverse. *)
Definition gfp_modulus (P0 P1 P2 P3 N0 N1 N2 N3 : Z) : Prop :=
  word P0 /\ word P1 /\ word P2 /\ word P3 /\ word N0 /\ word N1 /\ word N2 /\ word N3 /\ val4 P0 P1 P2 P3 = P /\ val4 N0 N1 N2 N3 = NP.

Lemma gfp_modulus_words : gfp_modulus (nth 0 p2_words 0) (nth 1 p2_words 0) (nth 2 p2_words 0) (nth 3 p2_words 0) (nth 0 np_words 0) (nth 1 np_words 0) (nth 2 np_words 0) (nth 3 np_words 0).
Proof. unfold gfp_modulus, word. cbn [nth p2_words np_words]. repeat split; vm_compute; congruence. Qed.

(** ** What the operations promise *)

(** The arguments of a call: two reduced elements and a place for the result, which may
    be one of them. *)
Definition gfp_args (m : list (list Z)) (c a b : nat) (A B : list Z) : Prop :=
  block m a = Some A /\ block m b = Some B /\ words_ok 64 4 A /\ words_ok 64 4 B /\ words_Z 64 A < P /\ words_Z 64 B < P /\ exists C, block m c = Some C /\ length C = 4%nat.

(** The element [r] in [c], and nothing changed but the blocks of [ds]. *)
Definition gfp_result (m : list (list Z)) (c : nat) (ds : list nat) (r : Z) (m' : list (list Z)) : Prop :=
  (exists R, block m' c = Some R /\ words_ok 64 4 R /\ words_Z 64 R = r) /\ length m' = length m /\ forall d, ~ In d ds -> block m' d = block m d.

Lemma gfp_result_intro m c C r0 r1 r2 r3 r : block m c = Some C -> word r0 -> word r1 -> word r2 -> word r3 ->
  val4 r0 r1 r2 r3 = r -> gfp_result m c [c] r (set_block m c [r0; r1; r2; r3]).
Proof.
  intros Hc W0 W1 W2 W3 HR. split; [|split; [apply set_block_length | intros d Hd; apply block_set_other; intros ->; apply Hd; left; reflexivity]]. exists [r0; r1; r2; r3].
  split; [exact (block_set_same _ _ _ _ Hc)|]. split; [unfold word in *; close_word_list | rewrite words_Z_val4; exact HR].
Qed.

(** The words of the arguments. *)
Ltac gfp_open HP H :=
  let C := fresh "C" in let HC := fresh "HC" in
  destruct HP as (WP0 & WP1 & WP2 & WP3 & WN0 & WN1 & WN2 & WN3 & EP & EN); destruct H as (Ha & Hb & HA & HB & HAP & HBP & C & Hc & HC);
  open_list HA; open_list HB; split_list C HC; rewrite words_Z_val4 in HAP, HBP; rewrite ?words_Z_val4;
  rename w into a0, w0 into a1, w1 into a2, w2 into a3, w3 into b0, w4 into b1, w5 into b2, w6 into b3.

(** More memory, and the memory that was there before. *)
Lemma block_push m m' b l : block m b = Some l -> block (m ++ m') b = Some l.
Proof. intros H. unfold block in *. rewrite nth_error_app1; [exact H|]. apply nth_error_Some. rewrite H. discriminate. Qed.

Lemma block_lt m b l : block m b = Some l -> (b < length m)%nat.
Proof. intros H. apply nth_error_Some. unfold block in H. rewrite H. discriminate. Qed.

Lemma gfp_args_push m m' c a b A B : gfp_args m c a b A B -> gfp_args (m ++ m') c a b A B.
Proof. intros (Ha & Hb & H1 & H2 & H3 & H4 & C & Hc & HC). repeat split; try assumption; try (apply block_push; assumption); try apply H1; try apply H2. exists C. split; [apply block_push; exact Hc | exact HC]. Qed.

Lemma block_firstn k m b : (b < k)%nat -> block (firstn k m) b = block m b.
Proof. intros H. unfold block. rewrite nth_error_firstn. destruct (Nat.ltb_spec b k); [reflexivity | lia]. Qed.

Lemma gfp_result_pop m S c C ds r m' : block m c = Some C -> (forall d, In d ds -> d = c \/ d = length m) -> gfp_result (m ++ [S]) c ds r m' -> gfp_result m c [c] r (firstn (length m) m').
Proof.
  intros Hc Hds ((R & HR & HRr) & Hl & Hm). rewrite length_app in Hl. cbn [length] in Hl. split.
  { exists R. split; [rewrite block_firstn by exact (block_lt _ _ _ Hc); exact HR | exact HRr]. }
  split; [rewrite firstn_length_le; lia|]. intros d Hd. destruct (Nat.ltb_spec d (length m)) as [H|H].
  - rewrite block_firstn by exact H. rewrite Hm; [unfold block; apply nth_error_app1; exact H|]. intros Hi. destruct (Hds d Hi) as [-> | ->]; [apply Hd; left; reflexivity | lia].
  - unfold block. rewrite !(proj2 (nth_error_None _ _)); [reflexivity | exact H | rewrite firstn_length_le; lia].
Qed.

(** The laws of the operations. *)
Class GfpLaws (G : GfpOps) : Prop := {
  gfp_neg_law : forall m c a A, gfp_args m c a a A A -> Returns (gfp_neg m c a) (gfp_result m c [c] (- words_Z 64 A mod P));
  gfp_add_law : forall m c a b A B, gfp_args m c a b A B -> Returns (gfp_add m c a b) (gfp_result m c [c] ((words_Z 64 A + words_Z 64 B) mod P));
  gfp_sub_law : forall m c a b A B, gfp_args m c a b A B -> Returns (gfp_sub m c a b) (gfp_result m c [c] ((words_Z 64 A - words_Z 64 B) mod P));
  gfp_mul_law : forall m c a b A B, gfp_args m c a b A B -> Returns (gfp_mul m c a b) (gfp_result m c [c] ((words_Z 64 A * words_Z 64 B * words_Z 64 rN1) mod P))
}.

(** ** Montgomery reduction *)

Lemma P_NP : P * NP = -1 + 2 ^ 256 * ((P * NP + 1) / 2 ^ 256).
Proof. vm_compute. reflexivity. Qed.

Lemma R_RN1 : (2 ^ 256 * words_Z 64 rN1) mod P = 1.
Proof. vm_compute. reflexivity. Qed.

Lemma montgomery_inverse U AB : (U * 2 ^ 256) mod P = AB mod P -> U mod P = (AB * words_Z 64 rN1) mod P.
Proof.
  intros E. rewrite <- (Z.mul_mod_idemp_l AB) by discriminate. rewrite <- E, Z.mul_mod_idemp_l by discriminate.
  rewrite <- Z.mul_assoc, <- Z.mul_mod_idemp_r by discriminate. rewrite R_RN1, Z.mul_1_r. reflexivity.
Qed.

(** [T + M P] is a multiple of [2^256], and [U] the quotient. *)
Lemma montgomery A B p p' TL TH M Q L U : 0 <= A < P -> 0 <= B < P -> 0 <= M < 2 ^ 256 -> 0 <= L < 2 ^ 256 -> p = A * B -> p = TL + 2 ^ 256 * TH ->
  NP * TL = M + 2 ^ 256 * Q -> p' = P * M -> p + p' = L + 2 ^ 256 * U -> 0 <= U < 2 * P /\ U mod P = (A * B * words_Z 64 rN1) mod P.
Proof.
  intros HA HB HM HL -> HT HQ -> HU. assert (L = 0) as ->.
  { assert (L = 2 ^ 256 * ((P * NP + 1) / 2 ^ 256 * TL + TH - P * Q - U)) as E.
    { pose proof P_NP as HP. set (k := (P * NP + 1) / 2 ^ 256) in *. clearbody k. replace L with (A * B + P * M - 2 ^ 256 * U) by lia. rewrite HT.
      replace M with (NP * TL - 2 ^ 256 * Q) by lia. replace (P * (NP * TL - 2 ^ 256 * Q)) with (P * NP * TL - P * 2 ^ 256 * Q) by ring. rewrite HP. ring. }
    set (k := (_ - P * Q - U)) in E. clearbody k. lia. }
  assert (A * B <= (P - 1) * (P - 1)) as HAB by nia. assert (0 <= A * B) as H0 by nia. split; [unfold P in *; lia|].
  apply montgomery_inverse. replace (U * 2 ^ 256) with (A * B + M * P) by lia. apply Z.mod_add. discriminate.
Qed.

(** One subtraction of the modulus reduces a number below twice the modulus: what
    [gfpCarry] leaves of [u], where [d] is the difference and [c] its borrow. *)
Lemma carry_reduced (c : bool) u0 u1 u2 u3 u4 d0 d1 d2 d3 d4 : word u0 -> word u1 -> word u2 -> word u3 -> word u4 -> word d0 -> word d1 -> word d2 -> word d3 -> word d4 ->
  0 <= val5 u0 u1 u2 u3 u4 < 2 * P -> val5 u0 u1 u2 u3 u4 - P = val5 d0 d1 d2 d3 d4 - 2 ^ 320 * Z.b2z c ->
  val4 (if c then u0 else d0) (if c then u1 else d1) (if c then u2 else d2) (if c then u3 else d3) = val5 u0 u1 u2 u3 u4 mod P.
Proof.
  intros U0 U1 U2 U3 U4 D0 D1 D2 D3 D4 HU HD. unfold word, P in *. destruct c; cbn [Z.b2z] in HD; [apply (Z.mod_unique _ _ 0) | apply (Z.mod_unique _ _ 1)]; lia.
Qed.


(** The same of four words. *)
Lemma carry_reduced4 (c : bool) u0 u1 u2 u3 d0 d1 d2 d3 : word u0 -> word u1 -> word u2 -> word u3 -> word d0 -> word d1 -> word d2 -> word d3 ->
  0 <= val4 u0 u1 u2 u3 < 2 * P -> val4 u0 u1 u2 u3 - P = val4 d0 d1 d2 d3 - 2 ^ 256 * Z.b2z c ->
  val4 (if c then u0 else d0) (if c then u1 else d1) (if c then u2 else d2) (if c then u3 else d3) = val4 u0 u1 u2 u3 mod P.
Proof.
  intros U0 U1 U2 U3 D0 D1 D2 D3 HU HD. unfold word, P in *. destruct c; cbn [Z.b2z] in HD; [apply (Z.mod_unique _ _ 0) | apply (Z.mod_unique _ _ 1)]; lia.
Qed.

(** ** Elements in memory *)

(** The element [v] in [c]. *)
Definition gfp_val (m : list (list Z)) (c : nat) (v : Z) : Prop := exists R, block m c = Some R /\ words_ok 64 4 R /\ words_Z 64 R = v /\ v < P.

(** Nothing changed but the blocks of [ds]. *)
Definition unchanged (m m' : list (list Z)) (ds : list nat) : Prop := length m' = length m /\ forall d, ~ In d ds -> block m' d = block m d.

(** The variables of the package. *)
Definition globals (m : list (list Z)) : Prop := block m rN1_ptr = Some rN1 /\ block m r2_ptr = Some r2 /\ block m r3_ptr = Some r3.

Lemma mod_P x : 0 <= x mod P < P.
Proof. apply Z.mod_pos_bound. reflexivity. Qed.

Lemma gfp_val_range m c v : gfp_val m c v -> 0 <= v < P.
Proof. intros (R & _ & HR & <- & HP). split; [|exact HP]. open_list HR. rewrite words_Z_val4. unfold word in *. lia. Qed.

Lemma gfp_val_unchanged m m' ds c v : gfp_val m c v -> unchanged m m' ds -> ~ In c ds -> gfp_val m' c v.
Proof. intros (R & HR & H) [_ Hm] Hc. exists R. split; [rewrite Hm by exact Hc; exact HR | exact H]. Qed.

Lemma gfp_val_push m m' c v : gfp_val m c v -> gfp_val (m ++ m') c v.
Proof. intros (R & HR & H). exists R. split; [apply block_push; exact HR | exact H]. Qed.

Lemma unchanged_refl m ds : unchanged m m ds.
Proof. split; reflexivity. Qed.

Lemma unchanged_trans m m' m'' ds ds' ds'' : unchanged m m' ds -> unchanged m' m'' ds' -> incl ds ds'' -> incl ds' ds'' -> unchanged m m'' ds''.
Proof. intros [L H] [L' H'] I I'. split; [congruence|]. intros d Hd. rewrite H', H by (intros Hi; apply Hd; auto). reflexivity. Qed.

Lemma gfp_result_val m c r m' : 0 <= r < P -> gfp_result m c [c] r m' -> gfp_val m' c r /\ unchanged m m' [c].
Proof. intros Hr ((R & HR & Hw & E) & HL & HM). split; [exists R; split; [exact HR|]; split; [exact Hw|]; split; [exact E | lia] | split; assumption]. Qed.

Lemma gfp_args_val m c a b A B C : gfp_val m a A -> gfp_val m b B -> gfp_val m c C -> exists lA lB, gfp_args m c a b lA lB /\ words_Z 64 lA = A /\ words_Z 64 lB = B.
Proof.
  intros (lA & Ha & WA & <- & PA) (lB & Hb & WB & <- & PB) (lC & Hc & WC & <- & PC). exists lA, lB. split; [|split; reflexivity].
  repeat (split; [assumption|]). exists lC. split; [exact Hc | apply WC].
Qed.

(** The words of a literal. *)
Ltac words_literal := split; [reflexivity|]; repeat (apply Forall_cons; [split; vm_compute; congruence|]); apply Forall_nil.

Lemma gfp_const m c l : block m c = Some l -> words_ok 64 4 l -> words_Z 64 l < P -> gfp_val m c (words_Z 64 l).
Proof. intros H H1 H2. exists l. auto. Qed.

Lemma gfP_Set_val m e f E F : gfp_val m e E -> gfp_val m f F -> Returns (gfP_Set m e f) (fun m' => gfp_val m' e F /\ unchanged m m' [e]).
Proof.
  intros (lE & HE & _) (lF & HF & H). unfold gfP_Set. rewrite HF, HE. cbn [bind ret Returns]. split.
  - exists lF. split; [exact (block_set_same _ _ _ _ HE) | exact H].
  - split; [apply set_block_length|]. intros d Hd. apply block_set_other. intros ->. apply Hd. left. reflexivity.
Qed.

Lemma block_new m l : block (m ++ [l]) (length m) = Some l.
Proof. unfold block. rewrite nth_error_app2, Nat.sub_diag by lia. reflexivity. Qed.

Lemma nth_error_push_other {A} (m : list A) x y d : d <> length m -> nth_error (m ++ [x]) d = nth_error (m ++ [y]) d.
Proof.
  intros Hd. destruct (Nat.ltb_spec d (length m)); [rewrite !nth_error_app1 by assumption; reflexivity|]. rewrite !nth_error_app2 by assumption.
  destruct (d - length m)%nat as [|[|k]] eqn:E; [lia | reflexivity | reflexivity].
Qed.

(** ** The prime field *)

Lemma prime_q133 : Z.prime 13427688667394608761327070753331941386769.
Proof. prime_by_factors 3 [1853641; 4562087; 173171039]; prime_by_trial. Qed.

Lemma P_prime : Z.prime P.
Proof. prime_by_factors 3 [13427688667394608761327070753331941386769]. exact prime_q133. Qed.

Definition toG (x : Z) : Zmod P := Zmod.of_Z P x.

(** [2^256] and its inverse. *)
Definition mont : Zmod P := toG (2 ^ 256).
Definition mont_inv : Zmod P := toG (words_Z 64 rN1).

Add Ring G_ring : (Zmod.ring_theory P).

Lemma mont_cancel : (mont * mont_inv)%Zmod = Zmod.one.
Proof. apply Zmod.to_Z_inj. vm_compute. reflexivity. Qed.

Section Clients.
Context {G : GfpOps} {L : GfpLaws G}.

Lemma gfp_mul_val m c a b A B C : gfp_val m a A -> gfp_val m b B -> gfp_val m c C ->
  Returns (gfp_mul m c a b) (fun m' => gfp_val m' c ((A * B * words_Z 64 rN1) mod P) /\ unchanged m m' [c]).
Proof.
  intros Ha Hb Hc. destruct (gfp_args_val _ _ _ _ _ _ _ Ha Hb Hc) as (lA & lB & H & <- & <-).
  apply (Returns_mono _ _ _ (gfp_mul_law _ _ _ _ _ _ H)). intros m' Hm. apply gfp_result_val; [apply mod_P | exact Hm].
Qed.

Lemma gfp_neg_val m c a A C : gfp_val m a A -> gfp_val m c C -> Returns (gfp_neg m c a) (fun m' => gfp_val m' c (- A mod P) /\ unchanged m m' [c]).
Proof.
  intros Ha Hc. destruct (gfp_args_val _ _ _ _ _ _ _ Ha Ha Hc) as (lA & lB & H & EA & EB). assert (lB = lA) as -> by (destruct H as (H1 & H2 & _); congruence). rewrite <- EA.
  apply (Returns_mono _ _ _ (gfp_neg_law _ _ _ _ H)). intros m' Hm. apply gfp_result_val; [apply mod_P | exact Hm].
Qed.

(** ** The Montgomery form *)

Lemma r2_value : (words_Z 64 r2 * words_Z 64 rN1) mod P = 2 ^ 256 mod P.
Proof. vm_compute. reflexivity. Qed.

Lemma r2_val m : globals m -> gfp_val m r2_ptr (words_Z 64 r2).
Proof. intros (_ & H & _). apply (gfp_const _ _ _ H); [words_literal | vm_compute; reflexivity]. Qed.

Lemma montEncode_val m c a A C : globals m -> gfp_val m a A -> gfp_val m c C ->
  Returns (montEncode m c a) (fun m' => gfp_val m' c ((A * 2 ^ 256) mod P) /\ unchanged m m' [c]).
Proof.
  intros Hg Ha Hc. apply (Returns_mono _ _ _ (gfp_mul_val _ _ _ _ _ _ _ Ha (r2_val m Hg) Hc)). intros m' H.
  rewrite <- (Z.mul_mod_idemp_r A (2 ^ 256)), <- r2_value, Z.mul_mod_idemp_r, Z.mul_assoc by discriminate. exact H.
Qed.

Lemma montDecode_val m c a A C : gfp_val m a A -> gfp_val m c C ->
  Returns (montDecode m c a) (fun m' => gfp_val m' c ((A * words_Z 64 rN1) mod P) /\ forall d, (d < length m)%nat -> d <> c -> block m' d = block m d).
Proof.
  intros Ha Hc. unfold montDecode, gfP_new. assert (gfp_val (m ++ [[1; 0; 0; 0]]) (length m) 1) as H1.
  { exists [1; 0; 0; 0]. split; [apply block_new|]. split; [words_literal | split; vm_compute; reflexivity]. }
  apply (Returns_mono _ _ _ (gfp_mul_val _ _ _ _ _ _ _ (gfp_val_push _ _ _ _ Ha) H1 (gfp_val_push _ _ _ _ Hc))). intros m' [HV HU]. rewrite Z.mul_1_r in HV.
  split; [exact HV|]. intros d Hd Hdc. rewrite (proj2 HU) by (intros [-> | []]; contradiction). unfold block. apply nth_error_app1. exact Hd.
Qed.

Lemma u64_i64 x : u64 (i64 x) = u64 x.
Proof. unfold u64, i64. rewrite Zminus_mod_idemp_l. f_equal. lia. Qed.

Lemma small_val m x : 0 <= x < 2 ^ 64 -> gfp_val (m ++ [[u64 x; 0; 0; 0]]) (length m) x.
Proof.
  intros Hx. rewrite u64_of_word by exact Hx. exists [x; 0; 0; 0]. split; [apply block_new|]. split; [unfold word in *; close_word_list | rewrite words_Z_val4; split; [lia | unfold P; lia]].
Qed.

Lemma globals_push m m' : globals m -> globals (m ++ m').
Proof. intros (H1 & H2 & H3). split; [|split]; apply block_push; assumption. Qed.

Lemma globals_unchanged m m' ds : globals m -> unchanged m m' ds -> (forall d, In d ds -> (2 < d)%nat) -> globals m'.
Proof.
  intros (H1 & H2 & H3) [_ H] Hd. unfold globals. rewrite !H; [auto|..]; intros Hi; apply Hd in Hi; unfold rN1_ptr, r2_ptr, r3_ptr in Hi; lia.
Qed.

Lemma globals_length m : globals m -> (2 < length m)%nat.
Proof. intros (_ & _ & H). exact (block_lt _ _ _ H). Qed.

(** A new element is the Montgomery form of the integer. *)
Lemma newGFp_val m x : globals m -> - 2 ^ 63 <= x < 2 ^ 63 ->
  Returns (newGFp m x) (fun '(m', out) => gfp_val m' out ((x * 2 ^ 256) mod P) /\ forall d, (d < length m)%nat -> block m' d = block m d).
Proof.
  intros Hg Hx. unfold newGFp. apply (Returns_bind _ _ (fun '(m', out) => out = length m /\ gfp_val m' out (x mod P) /\ unchanged (m ++ [[0; 0; 0; 0]]) m' [out])).
  { destruct (Z.leb_spec 0 x) as [H|H].
    - apply Returns_ret. unfold gfP_new. split; [reflexivity|]. rewrite Z.mod_small by (unfold P; lia). split; [apply small_val; lia|].
      split; [rewrite !length_app; reflexivity|]. intros d Hd. unfold block. apply nth_error_push_other. intros ->. apply Hd. left. reflexivity.
    - unfold gfP_new. rewrite u64_i64. pose proof (small_val m (- x) ltac:(lia)) as HV. apply (Returns_bind _ _ _ _ (gfp_neg_val _ _ _ _ _ HV HV)). intros m' [Hv HU]. apply Returns_ret.
      rewrite Z.opp_involutive in Hv. split; [reflexivity|]. split; [exact Hv|]. apply (unchanged_trans _ (m ++ [[u64 (- x); 0; 0; 0]]) _ [length m] [length m]); [|exact HU | apply incl_refl | apply incl_refl].
      split; [rewrite !length_app; reflexivity|]. intros d Hd. unfold block. apply nth_error_push_other. intros ->. apply Hd. left. reflexivity. }
  intros [m' out] (-> & Hv & HU). assert (globals m') as Hg'.
  { apply (globals_unchanged _ _ _ (globals_push m [[0; 0; 0; 0]] Hg) HU). intros d [<- | []]. exact (globals_length m Hg). }
  apply (Returns_bind _ _ _ _ (montEncode_val _ _ _ _ _ Hg' Hv Hv)). intros m'' [Hv' HU']. apply Returns_ret. rewrite Z.mul_mod_idemp_l in Hv' by discriminate. split; [exact Hv'|].
  intros d Hd. destruct HU as [_ HU], HU' as [_ HU']. rewrite HU', HU by (intros [<- | []]; lia). unfold block. apply nth_error_app1. exact Hd.
Qed.

(** ** The inverse *)

(** The sum and the power after [k] bits of the exponent, whose value so far is [e]: the
    sum is a power of the element that [F] is the Montgomery form of, and so is the
    power, in Montgomery form. *)
Definition Invert_inv (m0 : list (list Z)) (sum power : nat) (F : Z) (k e : Z) (m : list (list Z)) : Prop :=
  exists S W, gfp_val m sum S /\ gfp_val m power W /\ unchanged m0 m [sum; power] /\
    toG W = (Zmod.pow (toG F * mont_inv) (2 ^ k) * mont)%Zmod /\ toG S = (mont_inv * Zmod.pow (toG F * mont_inv) e)%Zmod.

Lemma toG_mod x : toG (x mod P) = toG x.
Proof. apply Zmod.of_Z_inj. apply Z.mod_mod. discriminate. Qed.

Lemma toG_mul x y : toG (x * y) = (toG x * toG y)%Zmod.
Proof. apply Zmod.of_Z_mul. Qed.

Lemma bit_test w k : 0 <= k -> (Z.land (Z.shiftr w k) 1 =? 1) = Z.testbit w k.
Proof.
  intros Hk. rewrite <- (Z.add_0_l k) at 2. rewrite <- Z.shiftr_spec, Z.bit0_odd by lia. change 1 with (Z.ones 1) at 1. rewrite Z.land_ones by lia.
  rewrite Zmod_odd. destruct (Z.odd _); reflexivity.
Qed.

(** The Montgomery product of two elements, in the field. *)
Lemma toG_product A B : toG ((A * B * words_Z 64 rN1) mod P) = (toG A * toG B * mont_inv)%Zmod.
Proof. rewrite toG_mod, !toG_mul. reflexivity. Qed.

Lemma Invert_bit_ok m0 sum power F k e w m bit : sum <> power -> 0 <= k -> 0 <= e -> Invert_inv m0 sum power F k e m ->
  Returns (Invert_bit sum power w m bit) (Invert_inv m0 sum power F (k + 1) (e + 2 ^ k * Z.b2z (Z.testbit w (Z.of_nat bit)))).
Proof.
  intros Hsp Hk He (S & W & HS & HW & HU & EW & ES). unfold Invert_bit. rewrite bit_test by lia. set (f := (toG F * mont_inv)%Zmod) in *.
  apply (Returns_bind _ _ (fun m' => exists S', gfp_val m' sum S' /\ gfp_val m' power W /\ unchanged m0 m' [sum; power] /\
    toG S' = (mont_inv * Zmod.pow f (e + 2 ^ k * Z.b2z (Z.testbit w (Z.of_nat bit))))%Zmod)).
  { destruct (Z.testbit w (Z.of_nat bit)); cbn [Z.b2z].
    - apply (Returns_mono _ _ _ (gfp_mul_val _ _ _ _ _ _ _ HS HW HS)). intros m' [HV HU']. eexists. split; [exact HV|]. split; [apply (gfp_val_unchanged _ _ _ _ _ HW HU'); intros [E | []]; congruence|].
      split; [apply (unchanged_trans _ _ _ _ _ _ HU HU'); [apply incl_refl | intros d [<- | []]; left; reflexivity]|].
      rewrite toG_product, ES, EW, Z.mul_1_r, Zmod.pow_add_r_nonneg by lia. transitivity (mont_inv * (Zmod.pow f e * Zmod.pow f (2 ^ k)) * (mont * mont_inv))%Zmod; [ring | rewrite mont_cancel; ring].
    - apply Returns_ret. exists S. rewrite Z.mul_0_r, Z.add_0_r. auto. }
  intros m' (S' & HS' & HW' & HU' & ES'). apply (Returns_mono _ _ _ (gfp_mul_val _ _ _ _ _ _ _ HW' HW' HW')). intros m'' [HV HU'']. exists S'. eexists.
  split; [apply (gfp_val_unchanged _ _ _ _ _ HS' HU''); intros [E | []]; congruence|]. split; [exact HV|].
  split; [apply (unchanged_trans _ _ _ _ _ _ HU' HU''); [apply incl_refl | intros d [<- | []]; right; left; reflexivity]|]. split; [|exact ES'].
  fold f. rewrite toG_product, EW. replace (2 ^ (k + 1)) with (2 ^ k + 2 ^ k) by (rewrite Z.pow_add_r by lia; lia). rewrite Zmod.pow_add_r_nonneg by lia.
  transitivity (Zmod.pow f (2 ^ k) * Zmod.pow f (2 ^ k) * mont * (mont * mont_inv))%Zmod; [ring | rewrite mont_cancel; ring].
Qed.

(** The bits of a word, and the words. *)
Lemma Returns_foldM {A B} (f : A -> B -> checked A) (I : nat -> A -> Prop) l : forall i a, (forall j x a, nth_error l j = Some x -> I (i + j)%nat a -> Returns (f a x) (I (S (i + j)))) ->
  I i a -> Returns (foldM f a l) (I (i + length l)%nat).
Proof.
  induction l as [|x l IH]; intros i a Hf Ha; cbn [foldM length]; [rewrite Nat.add_0_r; exact Ha|].
  apply (Returns_bind _ _ (I (S i))); [rewrite <- (Nat.add_0_r i); apply Hf; [reflexivity | rewrite Nat.add_0_r; exact Ha]|].
  intros a' Ha'. replace (i + S (length l))%nat with (S i + length l)%nat by lia. apply IH; [|exact Ha'].
  intros j y b Hj Hb. replace (S (S i + j)) with (S (i + S j)) by lia. apply Hf; [exact Hj|]. replace (i + S j)%nat with (S i + j)%nat by lia. exact Hb.
Qed.

Lemma nth_error_seq_some k j x : nth_error (seq 0 k) j = Some x -> x = j /\ (j < k)%nat.
Proof.
  intros H. assert (j < k)%nat as Hj by (rewrite <- (length_seq k 0); apply nth_error_Some; rewrite H; discriminate). split; [|exact Hj].
  apply (nth_error_nth _ _ 0%nat) in H. rewrite seq_nth in H by exact Hj. lia.
Qed.

Lemma low_bits_step w j : 0 <= j -> w mod 2 ^ (j + 1) = w mod 2 ^ j + 2 ^ j * Z.b2z (Z.testbit w j).
Proof.
  intros Hj. rewrite Z.testbit_spec' by exact Hj. rewrite Z.pow_add_r, Z.pow_1_r by lia. pose proof (Z.pow_pos_nonneg 2 j ltac:(lia) Hj). apply Z.rem_mul_r; lia.
Qed.

Lemma Invert_word_ok m0 sum power F k e w m : sum <> power -> 0 <= k -> 0 <= e -> word w -> Invert_inv m0 sum power F k e m ->
  Returns (Invert_word sum power m w) (Invert_inv m0 sum power F (k + 64) (e + 2 ^ k * w)).
Proof.
  intros Hsp Hk He Hw HI. set (I := fun j : nat => Invert_inv m0 sum power F (k + Z.of_nat j) (e + 2 ^ k * (w mod 2 ^ Z.of_nat j))).
  assert (Returns (Invert_word sum power m w) (I (0 + length (seq 0 64))%nat)) as HR.
  { apply Returns_foldM; [|unfold I; rewrite Z.mod_1_r, Z.mul_0_r, !Z.add_0_r; exact HI]. intros j x a Hj Ha. apply nth_error_seq_some in Hj as [-> Hj]. unfold I in *. cbn [Nat.add] in *.
    replace (Z.of_nat (Datatypes.S j)) with (Z.of_nat j + 1) by lia. rewrite low_bits_step, Z.mul_add_distr_l, Z.mul_assoc, <- Z.pow_add_r, !Z.add_assoc by lia.
    apply Invert_bit_ok; [exact Hsp | lia | | exact Ha]. pose proof (Z.pow_pos_nonneg 2 k ltac:(lia) Hk). pose proof (Z.mod_pos_bound w (2 ^ Z.of_nat j) ltac:(apply Z.pow_pos_nonneg; lia)). nia. }
  unfold I in HR. rewrite length_seq in HR. change (Z.of_nat (0 + 64)) with 64 in HR. rewrite Z.mod_small in HR by exact Hw. exact HR.
Qed.

Lemma Invert_words_ok m0 sum power F l : sum <> power -> Forall word l -> forall k e m, 0 <= k -> 0 <= e -> Invert_inv m0 sum power F k e m ->
  Returns (foldM (Invert_word sum power) m l) (Invert_inv m0 sum power F (k + 64 * Z.of_nat (length l)) (e + 2 ^ k * words_Z 64 l)).
Proof.
  intros Hsp. induction l as [|w l IH]; intros Hl k e m Hk He HI; cbn [foldM length words_Z]; [rewrite !Z.mul_0_r, !Z.add_0_r; apply Returns_ret; exact HI|].
  apply Forall_cons_iff in Hl as [Hw Hl]. apply (Returns_bind _ _ _ _ (Invert_word_ok _ _ _ _ _ _ _ _ Hsp Hk He Hw HI)). intros m' HI'.
  replace (k + 64 * Z.of_nat (Datatypes.S (length l))) with (k + 64 + 64 * Z.of_nat (length l)) by lia.
  rewrite Z.mul_add_distr_l, Z.mul_assoc, <- Z.pow_add_r, Z.add_assoc by lia. apply IH; [exact Hl | lia | pose proof (Z.pow_pos_nonneg 2 k ltac:(lia) Hk); unfold word in Hw; nia | exact HI'].
Qed.

Lemma Invert_loop_ok m0 sum power F m : sum <> power -> Invert_inv m0 sum power F 0 0 m ->
  Returns (foldM (Invert_word sum power) m Invert_bits) (Invert_inv m0 sum power F 256 (P - 2)).
Proof.
  intros Hsp HI. apply (Invert_words_ok m0 sum power F Invert_bits Hsp) in HI; [exact HI | | lia | lia].
  repeat (apply Forall_cons; [split; vm_compute; congruence|]). apply Forall_nil.
Qed.

Lemma G_pow_inv (v : Zmod P) : Zmod.pow v (P - 2) = Zmod.inv v.
Proof.
  destruct (Zmod.eqb_spec v Zmod.zero) as [->|Hv].
  - rewrite Zmod.inv_0. apply Zmod.pow_0_l. discriminate.
  - apply Zmod.fermat_inv; [exact Hv | exact P_prime].
Qed.

Lemma rN1_val m : globals m -> gfp_val m rN1_ptr (words_Z 64 rN1).
Proof. intros (H & _). apply (gfp_const _ _ _ H); [words_literal | vm_compute; reflexivity]. Qed.

Lemma r3_val m : globals m -> gfp_val m r3_ptr (words_Z 64 r3).
Proof. intros (_ & _ & H). apply (gfp_const _ _ _ H); [words_literal | vm_compute; reflexivity]. Qed.

Lemma r3_value : (mont_inv * toG (words_Z 64 r3) * mont_inv)%Zmod = mont.
Proof. apply Zmod.to_Z_inj. vm_compute. reflexivity. Qed.

Lemma zero_val m : gfp_val (m ++ [[0; 0; 0; 0]]) (length m) 0.
Proof. exact (small_val m 0 ltac:(lia)). Qed.

(** The inverse in Montgomery form. *)
Lemma Invert_val m e f E F : globals m -> gfp_val m e E -> gfp_val m f F ->
  Returns (Invert m e f) (fun m' => (exists V, gfp_val m' e V /\ toG V = (Zmod.inv (toG F * mont_inv) * mont)%Zmod) /\ forall d, (d < length m)%nat -> d <> e -> block m' d = block m d).
Proof.
  intros Hg He Hf. assert (e < length m)%nat as He' by (destruct He as (R & HR & _); exact (block_lt _ _ _ HR)). assert (f < length m)%nat as Hf' by (destruct Hf as (R & HR & _); exact (block_lt _ _ _ HR)).
  pose proof (globals_length m Hg) as Hl. unfold Invert, gfP_new. set (m0 := (m ++ [[0; 0; 0; 0]]) ++ [[0; 0; 0; 0]]). rewrite (length_app m). cbn [length].
  set (sum := length m) in *. set (power := (sum + 1)%nat). assert (sum <> power) as Hsp by (subst power; lia).
  assert (globals m0) as Hg0 by (apply globals_push, globals_push, Hg). assert (gfp_val m0 sum 0) as HS by (apply gfp_val_push, zero_val).
  assert (gfp_val m0 power 0) as HW by (pose proof (zero_val (m ++ [[0; 0; 0; 0]])) as H; rewrite length_app in H; exact H).
  apply (Returns_bind _ _ _ _ (gfP_Set_val _ _ _ _ _ HS (rN1_val _ Hg0))). intros m1 [HS1 HU1].
  apply (Returns_bind _ _ _ _ (gfP_Set_val m1 power f 0 F (gfp_val_unchanged _ _ _ _ _ HW HU1 ltac:(intros [H | []]; congruence))
    (gfp_val_unchanged _ _ _ _ _ (gfp_val_push _ _ _ _ (gfp_val_push _ _ _ _ Hf)) HU1 ltac:(intros [H | []]; lia)))). intros m2 [HW2 HU2].
  assert (Invert_inv m0 sum power F 0 0 m2) as HI.
  { exists (words_Z 64 rN1), F. split; [apply (gfp_val_unchanged _ _ _ _ _ HS1 HU2); intros [H | []]; congruence|]. split; [exact HW2|].
    split; [apply (unchanged_trans _ _ _ _ _ _ HU1 HU2); intros d [<- | []]; [left | right; left]; reflexivity|]. rewrite Zmod.pow_1_r, Zmod.pow_0_r. split; [|unfold mont_inv; ring].
    transitivity (toG F * (mont * mont_inv))%Zmod; [rewrite mont_cancel; ring | ring]. }
  apply (Returns_bind _ _ _ _ (Invert_loop_ok _ _ _ _ _ Hsp HI)). intros m3 (S & W & HS3 & HW3 & HU3 & _ & ES).
  assert (globals m3) as Hg3 by (apply (globals_unchanged _ _ _ Hg0 HU3); intros d [<- | [<- | []]]; subst power; lia).
  apply (Returns_bind _ _ _ _ (gfp_mul_val _ _ _ _ _ _ _ HS3 (r3_val _ Hg3) HS3)). intros m4 [HS4 HU4].
  pose proof (unchanged_trans _ _ _ _ _ [sum; power] HU3 HU4 (incl_refl _) ltac:(intros d [<- | []]; left; reflexivity)) as HU.
  assert (gfp_val m4 e E) as He4 by (apply (gfp_val_unchanged m0 _ [sum; power]); [apply gfp_val_push, gfp_val_push; exact He | exact HU | intros [H | [H | []]]; subst power; lia]).
  apply (Returns_mono _ _ _ (gfP_Set_val _ _ _ _ _ He4 HS4)). intros m5 [HV HU5]. split.
  - eexists. split; [exact HV|]. rewrite toG_product, ES, G_pow_inv. rewrite <- r3_value. ring.
  - intros d Hd Hde. rewrite (proj2 HU5), (proj2 HU) by (cbn [In]; subst power; lia). subst m0. unfold block. rewrite !nth_error_app1; [reflexivity | exact Hd | rewrite length_app; lia].
Qed.

End Clients.
