(* ===== verification/GfpAmd64.v ===== *)
(** * The x86-64 field arithmetic of the pairing curve ([bn256/cloudflare])

    [gfp_amd64.s] and the macros of [mul_amd64.h] and [mul_bmi2_amd64.h]: sums,
    differences and Montgomery products of field elements of four 64-bit words.  A
    macro is a function of its operands; [0+r], [8+r], ... are the words of a region
    of memory.  The modulus [p2] and its negative inverse [np] are read from the data
    of the program, the arguments of a function from its frame, and the products have
    twenty words of stack. *)

From Stdlib Require Import ZArith Lia List Bool.
From S2P Require Import Prelude Modulus Bytes ScalarWords X86 Gfp.
Import ListNotations.

#[local] Open Scope Z_scope.
#[local] Open Scope checked_scope.

(** ** Operands *)

#[local] Open Scope nat_scope.

(** [p2+8k(SB)], [np+8k(SB)], [c+0(FP)], [a+8(FP)] and [b+16(FP)] *)
Definition p2 (k : nat) : operand := Arg k.
Definition np (k : nat) : operand := Arg (4 + k).
Definition c_FP : operand := Arg 8.
Definition a_FP : operand := Arg 9.
Definition b_FP : operand := Arg 10.

(** Where they are, with the words [p] of the modulus and [n] of its inverse. *)
Definition gfp_operands (p n : list Z) (c a b : nat) (k : nat) : place :=
  if k <? 4 then Const (Int (nth k p 0%Z))
  else if k <? 8 then Const (Int (nth (k - 4) n 0%Z))
  else if k =? 8 then Const (Ptr c) else if k =? 9 then Const (Ptr a) else Const (Ptr b).

(** The words from a pointer on. *)
Definition words (base : reg) (k : nat) : operand := Mem k base.

(** ** Macros *)

(** Four words to memory. *)
Definition storeBlock (a0 a1 a2 a3 : operand) (r : nat -> operand) : list instr :=
  [movq a0 (r 0); movq a1 (r 1); movq a2 (r 2); movq a3 (r 3)].

(** Four words from memory. *)
Definition loadBlock (r : nat -> operand) (a0 a1 a2 a3 : operand) : list instr :=
  [movq (r 0) a0; movq (r 1) a1; movq (r 2) a2; movq (r 3) a3].

(** The number in [a], less the modulus if it is not below it. *)
Definition gfpCarry (a0 a1 a2 a3 a4 b0 b1 b2 b3 b4 : operand) : list instr :=
  [(* b = a-p *) movq a0 b0; movq a1 b1; movq a2 b2; movq a3 b3; movq a4 b4;
   subq (p2 0) b0; sbbq (p2 1) b1; sbbq (p2 2) b2; sbbq (p2 3) b3; sbbq (Imm 0) b4;
   (* if b is negative then return a, else return b *) cmovccq b0 a0; cmovccq b1 a1; cmovccq b2 a2; cmovccq b3 a3].

(** The product of [a] and [rb] in eight words of [stack]. *)
Definition mul (a0 a1 a2 a3 : operand) (rb stack : nat -> operand) : list instr :=
  [movq a0 (Reg rax); mulq (rb 0); movq (Reg rax) (Reg r8); movq (Reg rdx) (Reg r9);
   movq a0 (Reg rax); mulq (rb 1); addq (Reg rax) (Reg r9); adcq (Imm 0) (Reg rdx); movq (Reg rdx) (Reg r10);
   movq a0 (Reg rax); mulq (rb 2); addq (Reg rax) (Reg r10); adcq (Imm 0) (Reg rdx); movq (Reg rdx) (Reg r11);
   movq a0 (Reg rax); mulq (rb 3); addq (Reg rax) (Reg r11); adcq (Imm 0) (Reg rdx); movq (Reg rdx) (Reg r12)] ++
  storeBlock (Reg r8) (Reg r9) (Reg r10) (Reg r11) stack ++
  [movq (Reg r12) (stack 4);
   movq a1 (Reg rax); mulq (rb 0); movq (Reg rax) (Reg r8); movq (Reg rdx) (Reg r9);
   movq a1 (Reg rax); mulq (rb 1); addq (Reg rax) (Reg r9); adcq (Imm 0) (Reg rdx); movq (Reg rdx) (Reg r10);
   movq a1 (Reg rax); mulq (rb 2); addq (Reg rax) (Reg r10); adcq (Imm 0) (Reg rdx); movq (Reg rdx) (Reg r11);
   movq a1 (Reg rax); mulq (rb 3); addq (Reg rax) (Reg r11); adcq (Imm 0) (Reg rdx); movq (Reg rdx) (Reg r12);
   addq (stack 1) (Reg r8); adcq (stack 2) (Reg r9); adcq (stack 3) (Reg r10); adcq (stack 4) (Reg r11);
   adcq (Imm 0) (Reg r12)] ++
  storeBlock (Reg r8) (Reg r9) (Reg r10) (Reg r11) (fun k => stack (1 + k)) ++
  [movq (Reg r12) (stack 5);
   movq a2 (Reg rax); mulq (rb 0); movq (Reg rax) (Reg r8); movq (Reg rdx) (Reg r9);
   movq a2 (Reg rax); mulq (rb 1); addq (Reg rax) (Reg r9); adcq (Imm 0) (Reg rdx); movq (Reg rdx) (Reg r10);
   movq a2 (Reg rax); mulq (rb 2); addq (Reg rax) (Reg r10); adcq (Imm 0) (Reg rdx); movq (Reg rdx) (Reg r11);
   movq a2 (Reg rax); mulq (rb 3); addq (Reg rax) (Reg r11); adcq (Imm 0) (Reg rdx); movq (Reg rdx) (Reg r12);
   addq (stack 2) (Reg r8); adcq (stack 3) (Reg r9); adcq (stack 4) (Reg r10); adcq (stack 5) (Reg r11);
   adcq (Imm 0) (Reg r12)] ++
  storeBlock (Reg r8) (Reg r9) (Reg r10) (Reg r11) (fun k => stack (2 + k)) ++
  [movq (Reg r12) (stack 6);
   movq a3 (Reg rax); mulq (rb 0); movq (Reg rax) (Reg r8); movq (Reg rdx) (Reg r9);
   movq a3 (Reg rax); mulq (rb 1); addq (Reg rax) (Reg r9); adcq (Imm 0) (Reg rdx); movq (Reg rdx) (Reg r10);
   movq a3 (Reg rax); mulq (rb 2); addq (Reg rax) (Reg r10); adcq (Imm 0) (Reg rdx); movq (Reg rdx) (Reg r11);
   movq a3 (Reg rax); mulq (rb 3); addq (Reg rax) (Reg r11); adcq (Imm 0) (Reg rdx); movq (Reg rdx) (Reg r12);
   addq (stack 3) (Reg r8); adcq (stack 4) (Reg r9); adcq (stack 5) (Reg r10); adcq (stack 6) (Reg r11);
   adcq (Imm 0) (Reg r12)] ++
  storeBlock (Reg r8) (Reg r9) (Reg r10) (Reg r11) (fun k => stack (3 + k)) ++
  [movq (Reg r12) (stack 7)].

(** The Montgomery reduction of the eight words of [stack], in [R12] to [R15]. *)
Definition gfpReduce (stack : nat -> operand) : list instr :=
  [(* m = (T * N') mod R, store m in R8:R9:R10:R11 *) movq (np 0) (Reg rax); mulq (stack 0); movq (Reg rax) (Reg r8);
   movq (Reg rdx) (Reg r9);
   movq (np 0) (Reg rax); mulq (stack 1); addq (Reg rax) (Reg r9); adcq (Imm 0) (Reg rdx); movq (Reg rdx) (Reg r10);
   movq (np 0) (Reg rax); mulq (stack 2); addq (Reg rax) (Reg r10); adcq (Imm 0) (Reg rdx); movq (Reg rdx) (Reg r11);
   movq (np 0) (Reg rax); mulq (stack 3); addq (Reg rax) (Reg r11);
   movq (np 1) (Reg rax); mulq (stack 0); movq (Reg rax) (Reg r12); movq (Reg rdx) (Reg r13);
   movq (np 1) (Reg rax); mulq (stack 1); addq (Reg rax) (Reg r13); adcq (Imm 0) (Reg rdx); movq (Reg rdx) (Reg r14);
   movq (np 1) (Reg rax); mulq (stack 2); addq (Reg rax) (Reg r14);
   addq (Reg r12) (Reg r9); adcq (Reg r13) (Reg r10); adcq (Reg r14) (Reg r11);
   movq (np 2) (Reg rax); mulq (stack 0); movq (Reg rax) (Reg r12); movq (Reg rdx) (Reg r13);
   movq (np 2) (Reg rax); mulq (stack 1); addq (Reg rax) (Reg r13);
   addq (Reg r12) (Reg r10); adcq (Reg r13) (Reg r11);
   movq (np 3) (Reg rax); mulq (stack 0); addq (Reg rax) (Reg r11)] ++
  storeBlock (Reg r8) (Reg r9) (Reg r10) (Reg r11) (fun k => stack (8 + k)) ++
  (* m * N *) mul (p2 0) (p2 1) (p2 2) (p2 3) (fun k => stack (8 + k)) (fun k => stack (12 + k)) ++
  (* Add the 512-bit intermediate to m*N *) loadBlock (fun k => stack (12 + k)) (Reg r8) (Reg r9) (Reg r10) (Reg r11) ++
  loadBlock (fun k => stack (16 + k)) (Reg r12) (Reg r13) (Reg r14) (Reg r15) ++
  [movq (Imm 0) (Reg rax); addq (stack 0) (Reg r8); adcq (stack 1) (Reg r9); adcq (stack 2) (Reg r10);
   adcq (stack 3) (Reg r11); adcq (stack 4) (Reg r12); adcq (stack 5) (Reg r13); adcq (stack 6) (Reg r14);
   adcq (stack 7) (Reg r15); adcq (Imm 0) (Reg rax)] ++
  gfpCarry (Reg r12) (Reg r13) (Reg r14) (Reg r15) (Reg rax) (Reg r8) (Reg r9) (Reg r10) (Reg r11) (Reg rbx).

(** The product of [a] and [rb] in [R8] to [R15]. *)
Definition mulBMI2 (a0 a1 a2 a3 : operand) (rb : nat -> operand) : list instr :=
  [movq a0 (Reg rdx); movq (Imm 0) (Reg r13);
   mulxq (rb 0) (Reg r8) (Reg r9);
   mulxq (rb 1) (Reg rax) (Reg r10); addq (Reg rax) (Reg r9);
   mulxq (rb 2) (Reg rax) (Reg r11); adcq (Reg rax) (Reg r10);
   mulxq (rb 3) (Reg rax) (Reg r12); adcq (Reg rax) (Reg r11); adcq (Imm 0) (Reg r12); adcq (Imm 0) (Reg r13);
   movq a1 (Reg rdx); movq (Imm 0) (Reg r14);
   mulxq (rb 0) (Reg rax) (Reg rbx); addq (Reg rax) (Reg r9); adcq (Reg rbx) (Reg r10);
   mulxq (rb 2) (Reg rax) (Reg rbx); adcq (Reg rax) (Reg r11); adcq (Reg rbx) (Reg r12); adcq (Imm 0) (Reg r13);
   mulxq (rb 1) (Reg rax) (Reg rbx); addq (Reg rax) (Reg r10); adcq (Reg rbx) (Reg r11);
   mulxq (rb 3) (Reg rax) (Reg rbx); adcq (Reg rax) (Reg r12); adcq (Reg rbx) (Reg r13); adcq (Imm 0) (Reg r14);
   movq a2 (Reg rdx); movq (Imm 0) (Reg r15);
   mulxq (rb 0) (Reg rax) (Reg rbx); addq (Reg rax) (Reg r10); adcq (Reg rbx) (Reg r11);
   mulxq (rb 2) (Reg rax) (Reg rbx); adcq (Reg rax) (Reg r12); adcq (Reg rbx) (Reg r13); adcq (Imm 0) (Reg r14);
   mulxq (rb 1) (Reg rax) (Reg rbx); addq (Reg rax) (Reg r11); adcq (Reg rbx) (Reg r12);
   mulxq (rb 3) (Reg rax) (Reg rbx); adcq (Reg rax) (Reg r13); adcq (Reg rbx) (Reg r14); adcq (Imm 0) (Reg r15);
   movq a3 (Reg rdx);
   mulxq (rb 0) (Reg rax) (Reg rbx); addq (Reg rax) (Reg r11); adcq (Reg rbx) (Reg r12);
   mulxq (rb 2) (Reg rax) (Reg rbx); adcq (Reg rax) (Reg r13); adcq (Reg rbx) (Reg r14); adcq (Imm 0) (Reg r15);
   mulxq (rb 1) (Reg rax) (Reg rbx); addq (Reg rax) (Reg r12); adcq (Reg rbx) (Reg r13);
   mulxq (rb 3) (Reg rax) (Reg rbx); adcq (Reg rax) (Reg r14); adcq (Reg rbx) (Reg r15)].

(** The Montgomery reduction of the eight words on the stack. *)
Definition gfpReduceBMI2 : list instr :=
  [(* m = (T * N') mod R, store m in R8:R9:R10:R11 *) movq (np 0) (Reg rdx);
   mulxq (Mem 0 rsp) (Reg r8) (Reg r9);
   mulxq (Mem 1 rsp) (Reg rax) (Reg r10); addq (Reg rax) (Reg r9);
   mulxq (Mem 2 rsp) (Reg rax) (Reg r11); adcq (Reg rax) (Reg r10);
   mulxq (Mem 3 rsp) (Reg rax) (Reg rbx); adcq (Reg rax) (Reg r11);
   movq (np 1) (Reg rdx);
   mulxq (Mem 0 rsp) (Reg rax) (Reg rbx); addq (Reg rax) (Reg r9); adcq (Reg rbx) (Reg r10);
   mulxq (Mem 2 rsp) (Reg rax) (Reg rbx); adcq (Reg rax) (Reg r11);
   mulxq (Mem 1 rsp) (Reg rax) (Reg rbx); addq (Reg rax) (Reg r10); adcq (Reg rbx) (Reg r11);
   movq (np 2) (Reg rdx);
   mulxq (Mem 0 rsp) (Reg rax) (Reg rbx); addq (Reg rax) (Reg r10); adcq (Reg rbx) (Reg r11);
   mulxq (Mem 1 rsp) (Reg rax) (Reg rbx); addq (Reg rax) (Reg r11);
   movq (np 3) (Reg rdx);
   mulxq (Mem 0 rsp) (Reg rax) (Reg rbx); addq (Reg rax) (Reg r11)] ++
  storeBlock (Reg r8) (Reg r9) (Reg r10) (Reg r11) (fun k => Mem (8 + k) rsp) ++
  (* m * N *) mulBMI2 (p2 0) (p2 1) (p2 2) (p2 3) (fun k => Mem (8 + k) rsp) ++
  [(* Add the 512-bit intermediate to m*N *) movq (Imm 0) (Reg rax); addq (Mem 0 rsp) (Reg r8); adcq (Mem 1 rsp) (Reg r9);
   adcq (Mem 2 rsp) (Reg r10); adcq (Mem 3 rsp) (Reg r11); adcq (Mem 4 rsp) (Reg r12); adcq (Mem 5 rsp) (Reg r13);
   adcq (Mem 6 rsp) (Reg r14); adcq (Mem 7 rsp) (Reg r15); adcq (Imm 0) (Reg rax)] ++
  gfpCarry (Reg r12) (Reg r13) (Reg r14) (Reg r15) (Reg rax) (Reg r8) (Reg r9) (Reg r10) (Reg r11) (Reg rbx).

(** ** Functions *)

(** The opposite. *)
Definition gfpNeg : list instr :=
  [movq (p2 0) (Reg r8); movq (p2 1) (Reg r9); movq (p2 2) (Reg r10); movq (p2 3) (Reg r11);
   movq a_FP (Reg rdi); subq (Mem 0 rdi) (Reg r8); sbbq (Mem 1 rdi) (Reg r9); sbbq (Mem 2 rdi) (Reg r10);
   sbbq (Mem 3 rdi) (Reg r11);
   movq (Imm 0) (Reg rax)] ++
  gfpCarry (Reg r8) (Reg r9) (Reg r10) (Reg r11) (Reg rax) (Reg r12) (Reg r13) (Reg r14) (Reg r15) (Reg rbx) ++
  [movq c_FP (Reg rdi)] ++
  storeBlock (Reg r8) (Reg r9) (Reg r10) (Reg r11) (words rdi).

(** The sum. *)
Definition gfpAdd : list instr :=
  [movq a_FP (Reg rdi); movq b_FP (Reg rsi)] ++
  loadBlock (words rdi) (Reg r8) (Reg r9) (Reg r10) (Reg r11) ++
  [movq (Imm 0) (Reg r12);
   addq (Mem 0 rsi) (Reg r8); adcq (Mem 1 rsi) (Reg r9); adcq (Mem 2 rsi) (Reg r10); adcq (Mem 3 rsi) (Reg r11);
   adcq (Imm 0) (Reg r12)] ++
  gfpCarry (Reg r8) (Reg r9) (Reg r10) (Reg r11) (Reg r12) (Reg r13) (Reg r14) (Reg r15) (Reg rax) (Reg rbx) ++
  [movq c_FP (Reg rdi)] ++
  storeBlock (Reg r8) (Reg r9) (Reg r10) (Reg r11) (words rdi).

(** The difference. *)
Definition gfpSub : list instr :=
  [movq a_FP (Reg rdi); movq b_FP (Reg rsi)] ++
  loadBlock (words rdi) (Reg r8) (Reg r9) (Reg r10) (Reg r11) ++
  [movq (p2 0) (Reg r12); movq (p2 1) (Reg r13); movq (p2 2) (Reg r14); movq (p2 3) (Reg r15);
   movq (Imm 0) (Reg rax);
   subq (Mem 0 rsi) (Reg r8); sbbq (Mem 1 rsi) (Reg r9); sbbq (Mem 2 rsi) (Reg r10); sbbq (Mem 3 rsi) (Reg r11);
   cmovccq (Reg rax) (Reg r12); cmovccq (Reg rax) (Reg r13); cmovccq (Reg rax) (Reg r14); cmovccq (Reg rax) (Reg r15);
   addq (Reg r12) (Reg r8); adcq (Reg r13) (Reg r9); adcq (Reg r14) (Reg r10); adcq (Reg r15) (Reg r11);
   movq c_FP (Reg rdi)] ++
  storeBlock (Reg r8) (Reg r9) (Reg r10) (Reg r11) (words rdi).

(** The product.  [hasBMI2] tells whether the processor has [MULX]. *)
Definition gfpMul (hasBMI2 : bool) : list instr :=
  [movq a_FP (Reg rdi); movq b_FP (Reg rsi)] ++
  (if hasBMI2 then
     mulBMI2 (Mem 0 rdi) (Mem 1 rdi) (Mem 2 rdi) (Mem 3 rdi) (words rsi) ++
     storeBlock (Reg r8) (Reg r9) (Reg r10) (Reg r11) (words rsp) ++
     storeBlock (Reg r12) (Reg r13) (Reg r14) (Reg r15) (fun k => Mem (4 + k) rsp) ++
     gfpReduceBMI2
   else
     mul (Mem 0 rdi) (Mem 1 rdi) (Mem 2 rdi) (Mem 3 rdi) (words rsi) (words rsp) ++
     gfpReduce (words rsp)) ++
  [movq c_FP (Reg rdi)] ++ storeBlock (Reg r12) (Reg r13) (Reg r14) (Reg r15) (words rdi).

(** A call, with a frame of so many words on the stack. *)
Definition gfp_call (lo : leftover) (frame : nat) (prog : list instr) (m : list (list Z)) (c a b : nat) : checked (list (list Z)) :=
  s <- run (gfp_operands p2_words np_words c a b) prog (enter lo [(rsp, Ptr (length m))] [] (m ++ [junk_words lo frame]));;
  ret (firstn (length m) (mem s)).

#[export] Instance Gfp_amd64 (lo : leftover) (hasBMI2 : bool) : GfpOps := {
  gfp_neg m c a := gfp_call lo 0 gfpNeg m c a a;
  gfp_add := gfp_call lo 0 gfpAdd;
  gfp_sub := gfp_call lo 0 gfpSub;
  gfp_mul := gfp_call lo 20 (gfpMul hasBMI2)
}.

#[local] Open Scope Z_scope.

(** ** Arithmetic *)

Ltac gfp_unfold := unfold gfpMul, gfpAdd, gfpSub, gfpNeg, gfpReduce, gfpReduceBMI2, mul, mulBMI2, gfpCarry, storeBlock, loadBlock, words, p2, np, c_FP, a_FP, b_FP; cbn [app Nat.add]; x86_enter.

Ltac gfp_eval := x86_eval; cbv [gfp_operands nth Nat.ltb Nat.leb Nat.eqb Nat.sub].

Ltac gfp_step := eapply Returns_step; [gfp_eval; repeat (mem_step; gfp_eval); reflexivity|]; try chain_step.

(** The five words in [R8] to [R12]. *)
Ltac row_regs k :=
  match goal with |- context [mk_state [_; _; _; _; _; _; Int ?x0; Int ?x1; Int ?x2; Int ?x3; Int ?x4; _; _; _; _; _]] => k x0 x1 x2 x3 x4 end.

(** A row of [mul]: the five words of [x * b]. *)
Ltac mul_row x b0 b1 b2 b3 K R :=
  do 19 gfp_step;
  row_regs ltac:(fun z0 z1 z2 z3 z4 =>
    chain_gives (val4 (times x b0) (times x b1) (times x b2) (times x b3) = val5 z0 z1 z2 z3 z4 /\
      val4 (times x b0) (times x b1) (times x b2) (times x b3) <= (2 ^ 64 - 1) * (2 ^ 256 - 1)) as K);
  let B := fresh "B" in destruct K as [K B]; name_sum (row_sum x b0 b1 b2 b3) in K as R.

(** The four rows, summed up in memory: eight words that are the product. *)
Ltac mul_rows x0 x1 x2 x3 b0 b1 b2 b3 K R :=
  let K1 := fresh "K1" in let K' := fresh "K" in let R0 := fresh "R" in let R1 := fresh "R" in let R2 := fresh "R" in let R3 := fresh "R" in
  mul_row x0 b0 b1 b2 b3 K R0; do 5 gfp_step; mul_row x1 b0 b1 b2 b3 K1 R1; do 5 gfp_step;
  row_regs ltac:(fun z0 z1 z2 z3 z4 => match type of K with ?v = ?y0 + _ => match type of K1 with ?r = _ => chain_gives (v + 2 ^ 64 * r = y0 + 2 ^ 64 * val5 z0 z1 z2 z3 z4) as K' end end);
  clear K K1; rename K' into K; chain_clear; do 5 gfp_step; mul_row x2 b0 b1 b2 b3 K1 R2; do 5 gfp_step;
  row_regs ltac:(fun z0 z1 z2 z3 z4 => match type of K with ?v = ?y0 + _ * (?y1 + _) => match type of K1 with ?r = _ => chain_gives (v + 2 ^ 128 * r = y0 + 2 ^ 64 * (y1 + 2 ^ 64 * val5 z0 z1 z2 z3 z4)) as K' end end);
  clear K K1; rename K' into K; chain_clear; do 5 gfp_step; mul_row x3 b0 b1 b2 b3 K1 R3; do 5 gfp_step;
  row_regs ltac:(fun z0 z1 z2 z3 z4 => match type of K with ?v = ?y0 + _ * (?y1 + _ * (?y2 + _)) => match type of K1 with ?r = _ =>
    chain_gives (v + 2 ^ 192 * r = y0 + 2 ^ 64 * (y1 + 2 ^ 64 * (y2 + 2 ^ 64 * val5 z0 z1 z2 z3 z4))) as K' end end);
  clear K K1; rename K' into K; chain_clear; do 5 gfp_step;
  match type of K with ?v = _ =>
    assert (id (v = val4 x0 x1 x2 x3 * val4 b0 b1 b2 b3)) as R by exact (rows_sum _ _ _ _ _ _ _ _ _ R0 R1 R2 R3);
    let p := fresh "p" in set (p := v) in *; clearbody p; clear R0 R1 R2 R3 end.

(** The registers that the reduction sums up in, and the flag. *)
Ltac state_regs k :=
  match goal with |- context [mk_state [_; Int ?bx; _; Int ?dx; _; _; Int ?x0; Int ?x1; Int ?x2; Int ?x3; ?y0; ?y1; ?y2; ?y3; _; _] ?c] => k bx dx c x0 x1 x2 x3 y0 y1 y2 y3 end.

(** The low product of [t] and [NP] by rows: the sum in [R8] to [R11], modulo [2^256]. *)
Ltac low_product n0 n1 n2 n3 t0 t1 t2 t3 KM :=
  let KA := fresh "KA" in let KB := fresh "KB" in let KC := fresh "KC" in
  do 17 gfp_step;
  state_regs ltac:(fun bx dx c x0 x1 x2 x3 y0 y1 y2 y3 =>
    chain_gives (val4 (times n0 t0) (times n0 t1) (times n0 t2) (times n0 t3) = val4 x0 x1 x2 x3 + 2 ^ 256 * (dx + Z.b2z c)) as KA; overflow_name (dx + Z.b2z c) KA);
  do 12 gfp_step;
  state_regs ltac:(fun bx dx c x0 x1 x2 x3 y0 y1 y2 y3 => match constr:((y0, y1, y2)) with (Int ?z0, Int ?z1, Int ?z2) =>
    chain_gives (times n1 t0 + 2 ^ 64 * (times n1 t1 + 2 ^ 64 * times n1 t2) = z0 + 2 ^ 64 * (z1 + 2 ^ 64 * z2) + 2 ^ 192 * (dx + Z.b2z c)) as KB; overflow_name (dx + Z.b2z c) KB end);
  do 3 gfp_step;
  state_regs ltac:(fun bx dx c x0 x1 x2 x3 y0 y1 y2 y3 => match constr:((KA, KB)) with _ => match type of KA with ?u = _ + _ * ?q => match type of KB with ?v = _ + _ * ?q' =>
    chain_gives (u + 2 ^ 64 * v = val4 x0 x1 x2 x3 + 2 ^ 256 * (q + q' + Z.b2z c)) as KC; overflow_name (q + q' + Z.b2z c) KC end end end); clear KA KB;
  do 7 gfp_step;
  state_regs ltac:(fun bx dx c x0 x1 x2 x3 y0 y1 y2 y3 => match constr:((y0, y1)) with (Int ?z0, Int ?z1) =>
    chain_gives (times n2 t0 + 2 ^ 64 * times n2 t1 = z0 + 2 ^ 64 * z1 + 2 ^ 128 * (dx + Z.b2z c)) as KA; overflow_name (dx + Z.b2z c) KA end);
  do 2 gfp_step;
  state_regs ltac:(fun bx dx c x0 x1 x2 x3 y0 y1 y2 y3 => match type of KC with ?u = _ + _ * ?q => match type of KA with ?v = _ + _ * ?q' =>
    chain_gives (u + 2 ^ 128 * v = val4 x0 x1 x2 x3 + 2 ^ 256 * (q + q' + Z.b2z c)) as KB; overflow_name (q + q' + Z.b2z c) KB end end); clear KA KC;
  do 3 gfp_step;
  state_regs ltac:(fun bx dx c x0 x1 x2 x3 y0 y1 y2 y3 => match type of KB with ?u = _ + _ * ?q =>
    chain_gives (u + 2 ^ 192 * times n3 t0 = val4 x0 x1 x2 x3 + 2 ^ 256 * (q + dx + Z.b2z c)) as KC; overflow_name (q + dx + Z.b2z c) KC end); clear KB;
  low_complete n0 n1 n2 n3 t0 t1 t2 t3 KC KM; chain_clear.

(** The registers [RBX] and [R8] to [R15], and the flag. *)
Ltac bmi_regs k :=
  match goal with |- context [mk_state [_; Int ?bx; _; _; _; _; Int ?x0; Int ?x1; Int ?x2; Int ?x3; ?x4; ?x5; ?x6; ?x7; _; _] ?c] => k bx c x0 x1 x2 x3 x4 x5 x6 x7 end.

(** Zero words, as they are. *)
Ltac zero_word H := match type of H with ?x = 0 => try subst x end.

(** The row [x * b] of [mulBMI2] added at the [k]th word, where [K] is the sum so far and
    [z] the word above it, which is zero again. *)
Ltac bmi_row x b0 b1 b2 b3 sum K R :=
  let K' := fresh "K" in let B := fresh "B" in let H0 := fresh "Hz" in
  bmi_regs ltac:(fun bx c z0 z1 z2 z3 z4 z5 z6 z7 =>
    let e := sum (val4 (times x b0) (times x b1) (times x b2) (times x b3)) z0 z1 z2 z3 z4 z5 z6 z7 in
    chain_gives (e /\ val4 (times x b0) (times x b1) (times x b2) (times x b3) <= (2 ^ 64 - 1) * (2 ^ 256 - 1)) as K');
  try clear K; destruct K' as [[K H0] B]; zero_word H0; name_sum (row_sum x b0 b1 b2 b3) in K as R.

(** The four rows of [mulBMI2]: eight words that are the product. *)
Ltac bmi_rows x0 x1 x2 x3 b0 b1 b2 b3 K R :=
  let R0 := fresh "R" in let R1 := fresh "R" in let R2 := fresh "R" in let R3 := fresh "R" in
  do 11 gfp_step;
  bmi_row x0 b0 b1 b2 b3 ltac:(fun r z0 z1 z2 z3 z4 z5 z6 z7 => match constr:((z4, z5)) with (Int ?y4, Int ?y5) => constr:(r = val5 z0 z1 z2 z3 y4 /\ y5 = 0) end) K R0;
  do 16 gfp_step;
  bmi_row x1 b0 b1 b2 b3 ltac:(fun r z0 z1 z2 z3 z4 z5 z6 z7 => match constr:((z4, z5, z6)) with (Int ?y4, Int ?y5, Int ?y6) =>
    match type of K with ?v = _ => constr:(v + 2 ^ 64 * r = val5 z0 z1 z2 z3 (y4 + 2 ^ 64 * y5) /\ y6 = 0) end end) K R1;
  do 16 gfp_step;
  bmi_row x2 b0 b1 b2 b3 ltac:(fun r z0 z1 z2 z3 z4 z5 z6 z7 => match constr:((z4, z5, z6, z7)) with (Int ?y4, Int ?y5, Int ?y6, Int ?y7) =>
    match type of K with ?v = _ => constr:(v + 2 ^ 128 * r = val5 z0 z1 z2 z3 (y4 + 2 ^ 64 * (y5 + 2 ^ 64 * y6)) /\ y7 = 0) end end) K R2;
  do 14 gfp_step;
  bmi_row x3 b0 b1 b2 b3 ltac:(fun r z0 z1 z2 z3 z4 z5 z6 z7 => match constr:((z4, z5, z6, z7)) with (Int ?y4, Int ?y5, Int ?y6, Int ?y7) =>
    match type of K with ?v = _ => constr:(v + 2 ^ 192 * r = val5 z0 z1 z2 z3 (val4 y4 y5 y6 y7) /\ 0 = 0) end end) K R3;
  match type of K with ?v = _ =>
    assert (id (v = val4 x0 x1 x2 x3 * val4 b0 b1 b2 b3)) as R by exact (rows_sum _ _ _ _ _ _ _ _ _ R0 R1 R2 R3);
    let p := fresh "p" in set (p := v) in *; clearbody p; clear R0 R1 R2 R3 end.

(** [K] and the next products of [gfpReduceBMI2]: what it says of [R8] to [R11], with all
    that overflows. *)
Ltac bmi_low u q K :=
  let K' := fresh "K" in
  bmi_regs ltac:(fun bx c x0 x1 x2 x3 x4 x5 x6 x7 => let e := q bx c in
    chain_gives (u = val4 x0 x1 x2 x3 + 2 ^ 256 * e) as K'; overflow_name e K'); try clear K; rename K' into K.

Ltac bmi_low_next d high K :=
  match type of K with ?u = _ + _ * ?q => bmi_low constr:(u + d) ltac:(fun bx c => match high with true => constr:(q + bx + Z.b2z c) | false => constr:(q + Z.b2z c) end) K end.

(** The low product of [t] and [NP] by [MULX]. *)
Ltac bmi_low_product n0 n1 n2 n3 t0 t1 t2 t3 KM :=
  let K := fresh "K" in let K' := fresh "K" in
  do 8 gfp_step; bmi_low constr:(val4 (times n0 t0) (times n0 t1) (times n0 t2) (times n0 t3)) ltac:(fun bx c => constr:(bx + Z.b2z c)) K;
  do 6 gfp_step; bmi_low_next constr:(2 ^ 64 * (times n1 t0 + 2 ^ 128 * times n1 t2)) true K;
  do 3 gfp_step; bmi_low_next constr:(2 ^ 128 * times n1 t1) false K;
  do 4 gfp_step; bmi_low_next constr:(2 ^ 128 * times n2 t0) false K;
  do 2 gfp_step; bmi_low_next constr:(2 ^ 192 * times n2 t1) true K;
  do 3 gfp_step; bmi_low_next constr:(2 ^ 192 * times n3 t0) true K;
  match type of K with _ = ?m => assert (val4 (times n0 t0) (times n0 t1) (times n0 t2) (times n0 t3) + 2 ^ 64 * (times n1 t0 + 2 ^ 64 * (times n1 t1 + 2 ^ 64 * times n1 t2)) +
    2 ^ 128 * (times n2 t0 + 2 ^ 64 * times n2 t1) + 2 ^ 192 * times n3 t0 = m) as K' by (clear - K; lia) end;
  clear K; low_complete n0 n1 n2 n3 t0 t1 t2 t3 K' KM.

(** The sum of the product and [M P]. *)
Ltac reduce_sum KS :=
  match goal with |- context [mk_state [Int ?y4; _; _; _; _; _; Int ?x0; Int ?x1; Int ?x2; Int ?x3; Int ?y0; Int ?y1; Int ?y2; Int ?y3; _; _]] =>
    match goal with K : ?p = val4 _ _ _ (_ + _ * val4 _ _ _ _), K' : ?p' = val4 _ _ _ (_ + _ * val4 _ _ _ _) |- _ => chain_gives (p + p' = val4 x0 x1 x2 x3 + 2 ^ 256 * val5 y0 y1 y2 y3 y4) as KS end
  end.

(** Ltac for [gfpCarry], on the five words of an equation. *)
Ltac reduce_carry p u KD :=
  do 10 gfp_step;
  match u with val5 ?u0 ?u1 ?u2 ?u3 ?u4 =>
    match goal with |- context [mk_state [_; Int ?d4; _; _; _; _; Int ?d0; Int ?d1; Int ?d2; Int ?d3; _; _; _; _; _; _] ?c] =>
      chain_gives (u - p = val5 d0 d1 d2 d3 d4 - 2 ^ 320 * Z.b2z c) as KD end
  end; do 4 gfp_step.

(** ** Calls *)

Definition gfp_stack (m : list (list Z)) (c a b stack : nat) : Prop :=
  (exists S, block m stack = Some S /\ length S = 20%nat) /\ stack <> a /\ stack <> b /\ stack <> c.

Lemma gfp_result_stack m c stack S r m' : stack <> c -> gfp_result (set_block m stack S) c [c] r m' -> gfp_result m c [c; stack] r m'.
Proof.
  intros Hs (HR & Hl & Hm). split; [exact HR|]. split; [rewrite Hl; apply set_block_length|].
  intros d Hd. rewrite Hm; [apply block_set_other|]; intros H; apply Hd; [right; left; exact H|]. destruct H as [<- | []]. left. reflexivity.
Qed.

(** The result to [c]. *)
Ltac gfp_store := do 5 gfp_step; apply Returns_ret; cbn [mem].

(** The same past a stack that is another block. *)
Ltac gfp_store_stack c sp Hc Nc :=
  match type of Hc with _ = ?o =>
    match goal with |- context [set_block ?m sp ?S] => let H := fresh "Hm" in assert (block (set_block m sp S) c = o) as H by (rewrite block_set_other by exact Nc; exact Hc) end
  end; gfp_store.

(** The end of a product. *)
Ltac mont_close EP EN KM RT RP K KS KD HAP HBP Hm Nc :=
  unfold id in KM, RT, RP; rewrite EP in KD, RP; rewrite EN in KM;
  match type of KD with val5 ?u0 ?u1 ?u2 ?u3 ?u4 - _ = val5 ?d0 ?d1 ?d2 ?d3 ?d4 - _ * Z.b2z ?c =>
    match type of KS with _ = ?L + _ => match type of KM with NP * ?TL = ?M + _ * ?Q => match type of RT with ?p = ?A * ?B => match type of RP with ?p' = _ =>
    match type of K with _ = _ + _ * (_ + _ * (_ + _ * (_ + _ * ?TH))) =>
      destruct (montgomery A B p p' TL TH M Q L (val5 u0 u1 u2 u3 u4)) as [HU EU];
        [unfold word in *; lia | unfold word in *; lia | unfold word in *; lia | unfold word in *; lia | exact RT | exact (halves _ _ _ _ _ _ _ _ _ K) | exact KM | exact RP | exact KS |];
      eapply gfp_result_stack; [exact Nc|]; apply (gfp_result_intro _ _ _ _ _ _ _ _ Hm); [apply word_if; assumption | apply word_if; assumption | apply word_if; assumption | apply word_if; assumption |];
      rewrite (carry_reduced c u0 u1 u2 u3 u4 d0 d1 d2 d3 d4) by assumption; exact EU
    end end end end end
  end.

Lemma gfpMul_mul_run P0 P1 P2 P3 N0 N1 N2 N3 lo m c a b sp A B : gfp_modulus P0 P1 P2 P3 N0 N1 N2 N3 -> gfp_args m c a b A B -> gfp_stack m c a b sp ->
  Returns (run (gfp_operands [P0; P1; P2; P3] [N0; N1; N2; N3] c a b) (gfpMul false) (enter lo [(rsp, Ptr sp)] [] m))
    (fun s => gfp_result m c [c; sp] ((words_Z 64 A * words_Z 64 B * words_Z 64 rN1) mod P) (mem s)).
Proof.
  intros HP H ((S & Hs & HS) & Na & Nb & Nc). gfp_open HP H. split_list S HS.
  gfp_unfold. do 2 gfp_step. mul_rows a0 a1 a2 a3 b0 b1 b2 b3 K RT. name_words K t0 t1 t2 t3 t4 t5 t6 t7.
  low_product N0 N1 N2 N3 t0 t1 t2 t3 KM. do 4 gfp_step.
  match type of KM with id (_ = val4 ?x0 ?x1 ?x2 ?x3 + _) => mul_rows P0 P1 P2 P3 x0 x1 x2 x3 KP RP end.
  do 18 gfp_step. reduce_sum KS. match type of KS with _ = _ + _ * ?u => reduce_carry (val4 P0 P1 P2 P3) u KD end.
  gfp_store_stack c sp Hc Nc. mont_close EP EN KM RT RP K KS KD HAP HBP Hm Nc.
Qed.

Lemma gfpMul_bmi2_run P0 P1 P2 P3 N0 N1 N2 N3 lo m c a b sp A B : gfp_modulus P0 P1 P2 P3 N0 N1 N2 N3 -> gfp_args m c a b A B -> gfp_stack m c a b sp ->
  Returns (run (gfp_operands [P0; P1; P2; P3] [N0; N1; N2; N3] c a b) (gfpMul true) (enter lo [(rsp, Ptr sp)] [] m))
    (fun s => gfp_result m c [c; sp] ((words_Z 64 A * words_Z 64 B * words_Z 64 rN1) mod P) (mem s)).
Proof.
  intros HP H ((S & Hs & HS) & Na & Nb & Nc). gfp_open HP H. split_list S HS.
  gfp_unfold. do 2 gfp_step. bmi_rows a0 a1 a2 a3 b0 b1 b2 b3 K RT. name_words K t0 t1 t2 t3 t4 t5 t6 t7. do 8 gfp_step.
  bmi_low_product N0 N1 N2 N3 t0 t1 t2 t3 KM. do 4 gfp_step.
  match type of KM with id (_ = val4 ?x0 ?x1 ?x2 ?x3 + _) => bmi_rows P0 P1 P2 P3 x0 x1 x2 x3 KP RP end.
  do 10 gfp_step. reduce_sum KS. match type of KS with _ = _ + _ * ?u => reduce_carry (val4 P0 P1 P2 P3) u KD end.
  gfp_store_stack c sp Hc Nc. mont_close EP EN KM RT RP K KS KD HAP HBP Hm Nc.
Qed.

(** [gfpCarry] of the words of [u], whose difference to the modulus is in [d], and the
    result to [c]. *)
Ltac carry_close EP Hc p u0 u1 u2 u3 u4 d0 d1 d2 d3 d4 cf :=
  let KD := fresh "KD" in
  chain_gives (val5 u0 u1 u2 u3 u4 - p = val5 d0 d1 d2 d3 d4 - 2 ^ 320 * Z.b2z cf) as KD; rewrite EP in KD;
  do 4 gfp_step; gfp_store; apply (gfp_result_intro _ _ _ _ _ _ _ _ Hc); [apply word_if; word_bound | apply word_if; word_bound | apply word_if; word_bound | apply word_if; word_bound |];
  rewrite (carry_reduced cf u0 u1 u2 u3 u4 d0 d1 d2 d3 d4); [|word_bound ..| |exact KD].

Lemma gfpAdd_run P0 P1 P2 P3 N0 N1 N2 N3 lo m c a b sp A B : gfp_modulus P0 P1 P2 P3 N0 N1 N2 N3 -> gfp_args m c a b A B ->
  Returns (run (gfp_operands [P0; P1; P2; P3] [N0; N1; N2; N3] c a b) gfpAdd (enter lo [(rsp, Ptr sp)] [] m))
    (fun s => gfp_result m c [c] ((words_Z 64 A + words_Z 64 B) mod P) (mem s)).
Proof.
  intros HP H. gfp_open HP H. gfp_unfold. do 12 gfp_step.
  match goal with |- context [mk_state [_; _; _; _; _; _; Int ?u0; Int ?u1; Int ?u2; Int ?u3; Int ?u4; _; _; _; _; _]] =>
    chain_gives (val4 a0 a1 a2 a3 + val4 b0 b1 b2 b3 = val5 u0 u1 u2 u3 u4) as KS end.
  do 10 gfp_step.
  match goal with |- context [mk_state [Int ?d3; Int ?d4; _; _; _; _; Int ?u0; Int ?u1; Int ?u2; Int ?u3; Int ?u4; Int ?d0; Int ?d1; Int ?d2; _; _] ?cf] =>
    carry_close EP Hc (val4 P0 P1 P2 P3) u0 u1 u2 u3 u4 d0 d1 d2 d3 d4 cf end.
  - rewrite KS. reflexivity.
  - rewrite <- KS. unfold word in *. lia.
Qed.

Lemma gfpNeg_run P0 P1 P2 P3 N0 N1 N2 N3 lo m c a b sp A B : gfp_modulus P0 P1 P2 P3 N0 N1 N2 N3 -> gfp_args m c a b A B ->
  Returns (run (gfp_operands [P0; P1; P2; P3] [N0; N1; N2; N3] c a b) gfpNeg (enter lo [(rsp, Ptr sp)] [] m))
    (fun s => gfp_result m c [c] (- words_Z 64 A mod P) (mem s)).
Proof.
  intros HP H. gfp_open HP H. gfp_unfold. do 10 gfp_step.
  match goal with |- context [mk_state [_; _; _; _; _; _; Int ?u0; Int ?u1; Int ?u2; Int ?u3; _; _; _; _; _; _]] =>
    chain_gives (P - val4 a0 a1 a2 a3 = val5 u0 u1 u2 u3 0) as KS end.
  do 10 gfp_step.
  match goal with |- context [mk_state [Int ?u4; Int ?d4; _; _; _; _; Int ?u0; Int ?u1; Int ?u2; Int ?u3; Int ?d0; Int ?d1; Int ?d2; Int ?d3; _; _] ?cf] =>
    carry_close EP Hc (val4 P0 P1 P2 P3) u0 u1 u2 u3 u4 d0 d1 d2 d3 d4 cf end.
  - rewrite <- KS. replace (P - val4 a0 a1 a2 a3) with (- val4 a0 a1 a2 a3 + 1 * P) by ring. apply Z.mod_add. discriminate.
  - rewrite <- KS. unfold word in *. lia.
Qed.

Lemma gfpSub_run P0 P1 P2 P3 N0 N1 N2 N3 lo m c a b sp A B : gfp_modulus P0 P1 P2 P3 N0 N1 N2 N3 -> gfp_args m c a b A B ->
  Returns (run (gfp_operands [P0; P1; P2; P3] [N0; N1; N2; N3] c a b) gfpSub (enter lo [(rsp, Ptr sp)] [] m))
    (fun s => gfp_result m c [c] ((words_Z 64 A - words_Z 64 B) mod P) (mem s)).
Proof.
  intros HP H. gfp_open HP H. gfp_unfold. do 15 gfp_step.
  match goal with |- context [mk_state [_; _; _; _; _; _; Int ?u0; Int ?u1; Int ?u2; Int ?u3; _; _; _; _; _; _] ?cf] =>
    chain_gives (val4 a0 a1 a2 a3 - val4 b0 b1 b2 b3 = val4 u0 u1 u2 u3 - 2 ^ 256 * Z.b2z cf) as KS; destruct cf; cbn [Z.b2z] in KS end; do 8 gfp_step.
  - match goal with |- context [mk_state [_; _; _; _; _; _; Int ?u0; Int ?u1; Int ?u2; Int ?u3; _; _; _; _; _; _]] =>
      chain_gives (val4 u0 u1 u2 u3 = val4 a0 a1 a2 a3 - val4 b0 b1 b2 b3 + val4 P0 P1 P2 P3) as KR end.
    gfp_store. apply (gfp_result_intro _ _ _ _ _ _ _ _ Hc); [assumption ..|]. apply (Z.mod_unique _ _ (-1)); [|rewrite KR, EP; ring]. unfold word in *. lia.
  - match goal with |- context [mk_state [_; _; _; _; _; _; Int ?u0; Int ?u1; Int ?u2; Int ?u3; _; _; _; _; _; _]] =>
      chain_gives (val4 u0 u1 u2 u3 = val4 a0 a1 a2 a3 - val4 b0 b1 b2 b3) as KR end.
    gfp_store. apply (gfp_result_intro _ _ _ _ _ _ _ _ Hc); [assumption ..|]. rewrite KR. symmetry. apply Z.mod_small. unfold word in *. lia.
Qed.

(** ** The calls *)

(** A run on a memory with a frame is a call. *)
Lemma gfp_call_ok lo frame prog m c a b ds r C : block m c = Some C -> (forall d, In d ds -> d = c \/ d = length m) ->
  Returns (run (gfp_operands p2_words np_words c a b) prog (enter lo [(rsp, Ptr (length m))] [] (m ++ [junk_words lo frame]))) (fun s => gfp_result (m ++ [junk_words lo frame]) c ds r (mem s)) ->
  Returns (gfp_call lo frame prog m c a b) (gfp_result m c [c] r).
Proof. intros Hc Hds HR. unfold gfp_call. apply (Returns_bind _ _ _ _ HR). intros s Hs. apply Returns_ret. exact (gfp_result_pop _ _ _ _ _ _ _ Hc Hds Hs). Qed.

Lemma gfp_frame m c a b A B lo : gfp_args m c a b A B -> gfp_stack (m ++ [junk_words lo 20]) c a b (length m).
Proof.
  intros (Ha & Hb & _ & _ & _ & _ & C & Hc & _). apply block_lt in Ha, Hb, Hc. split; [|lia]. exists (junk_words lo 20).
  split; [unfold block; rewrite nth_error_app2, Nat.sub_diag by lia; reflexivity | reflexivity].
Qed.

Ltac gfp_call_by H lem :=
  let C := fresh "C" in let Hc := fresh "Hc" in destruct (proj2 (proj2 (proj2 (proj2 (proj2 (proj2 H)))))) as (C & Hc & _);
  eapply gfp_call_ok; [exact Hc | | exact lem]; cbn [In]; intuition.

#[export] Instance GfpLaws_amd64 lo hasBMI2 : GfpLaws (Gfp_amd64 lo hasBMI2).
Proof.
  constructor; intros m c a.
  - intros A H. gfp_call_by H (gfpNeg_run _ _ _ _ _ _ _ _ lo _ c a a (length m) A A gfp_modulus_words (gfp_args_push _ [junk_words lo 0] _ _ _ _ _ H)).
  - intros b A B H. gfp_call_by H (gfpAdd_run _ _ _ _ _ _ _ _ lo _ c a b (length m) A B gfp_modulus_words (gfp_args_push _ [junk_words lo 0] _ _ _ _ _ H)).
  - intros b A B H. gfp_call_by H (gfpSub_run _ _ _ _ _ _ _ _ lo _ c a b (length m) A B gfp_modulus_words (gfp_args_push _ [junk_words lo 0] _ _ _ _ _ H)).
  - intros b A B H. destruct hasBMI2.
    + gfp_call_by H (gfpMul_bmi2_run _ _ _ _ _ _ _ _ lo _ c a b (length m) A B gfp_modulus_words (gfp_args_push _ [junk_words lo 20] _ _ _ _ _ H) (gfp_frame _ _ _ _ _ _ lo H)).
    + gfp_call_by H (gfpMul_mul_run _ _ _ _ _ _ _ _ lo _ c a b (length m) A B gfp_modulus_words (gfp_args_push _ [junk_words lo 20] _ _ _ _ _ H) (gfp_frame _ _ _ _ _ _ lo H)).
Qed.
