(* ===== verification/GfpArm64.v ===== *)
(** * The arm64 field arithmetic of the pairing curve ([bn256/cloudflare])

    [gfp_arm64.s] and the macros of [mul_arm64.h], on a machine with the registers [R0]
    to [R29], the carry flag and memory in blocks of words, as in [X86].  After a
    subtraction the carry flag is set when there was no borrow, as the processor has
    it. *)

From Stdlib Require Import ZArith Lia List Bool.
From S2P Require Import Prelude Modulus Bytes ScalarWords X86 Gfp.
Import ListNotations.

#[local] Open Scope Z_scope.
#[local] Open Scope checked_scope.

Module Arm64.

(** ** The machine *)

(** [At k r] is the word at [8 * k(Rr)]; [Sym v] the value of a symbol or of an
    argument. *)
Inductive operand : Type :=
  | R (k : nat)
  | ZR
  | At (k base : nat)
  | Sym (k : nat).

(** Destinations come last; where the source has two operands, the second is also the
    destination.  [SUBS a b c] is [c := b - a], and [CSEL_CS a b c] is [CSEL CS, a, b, c]. *)
Inductive instr : Type :=
  | MOVD (src dst : operand)
  | MUL (a b dst : operand)
  | UMULH (a b dst : operand)
  | ADDS (a b dst : operand)
  | ADCS (a b dst : operand)
  | SUBS (a b dst : operand)
  | SBCS (a b dst : operand)
  | CSEL_CS (a b dst : operand).

Record state : Type := mk_state { regs : list val; flag : bool; mem : list (list Z) }.

Section Machine.
Variable symbols : nat -> val.

Definition read (s : state) (o : operand) : checked val :=
  match o with
  | R k => nth_error (regs s) k
  | ZR => ret (Int 0)
  | At k base =>
      match nth_error (regs s) base with
      | Some (Ptr b) => l <- block (mem s) b;; x <- nth_error l k;; ret (Int x)
      | _ => None
      end
  | Sym k => ret (symbols k)
  end.

Definition read_int (s : state) (o : operand) : checked Z :=
  v <- read s o;;
  match v with
  | Int x => ret x
  | Ptr _ => None
  end.

Definition write (s : state) (o : operand) (v : val) : checked state :=
  match o with
  | R k => l <- put (regs s) k v;; ret (mk_state l (flag s) (mem s))
  | At k base =>
      match nth_error (regs s) base, v with
      | Some (Ptr b), Int x => l <- block (mem s) b;; l <- put l k x;; ret (mk_state (regs s) (flag s) (set_block (mem s) b l))
      | _, _ => None
      end
  | ZR | Sym _ => None
  end.

(** An instruction with a result in [dst] and a carry flag. *)
Definition result (s : state) (dst : operand) (x : Z) (c : bool) : checked state :=
  s <- write s dst (Int x);; ret (mk_state (regs s) c (mem s)).

Definition exec (i : instr) (s : state) : checked state :=
  match i with
  | MOVD src dst => v <- read s src;; write s dst v
  | MUL a b dst => x <- read_int s a;; y <- read_int s b;; write s dst (Int (u64 (x * y)))
  | UMULH a b dst => x <- read_int s a;; y <- read_int s b;; write s dst (Int (u64 (Z.shiftr (x * y) 64)))
  | ADDS a b dst => x <- read_int s a;; y <- read_int s b;; result s dst (u64 (y + x)) (carry (y + x))
  | ADCS a b dst =>
      x <- read_int s a;; y <- read_int s b;;
      result s dst (u64 (y + x + Z.b2z (flag s))) (carry (y + x + Z.b2z (flag s)))
  | SUBS a b dst => x <- read_int s a;; y <- read_int s b;; result s dst (u64 (y - x)) (negb (borrow (y - x)))
  | SBCS a b dst =>
      x <- read_int s a;; y <- read_int s b;;
      result s dst (u64 (y - x - Z.b2z (negb (flag s)))) (negb (borrow (y - x - Z.b2z (negb (flag s)))))
  | CSEL_CS a b dst => x <- read_int s a;; y <- read_int s b;; write s dst (Int (if flag s then x else y))
  end.

Fixpoint run (p : list instr) (s : state) : checked state :=
  match p with
  | [] => ret s
  | i :: p' => s <- exec i s;; run p' s
  end.

End Machine.

(** ** Operands *)

#[local] Open Scope nat_scope.

(** [p2+8k(SB)], [np+8k(SB)], [c+0(FP)], [a+8(FP)] and [b+16(FP)] *)
Definition p2 (k : nat) : operand := Sym k.
Definition np (k : nat) : operand := Sym (4 + k).
Definition c_FP : operand := Sym 8.
Definition a_FP : operand := Sym 9.
Definition b_FP : operand := Sym 10.

Definition gfp_symbols (p n : list Z) (c a b : nat) (k : nat) : val :=
  if k <? 4 then Int (nth k p 0%Z)
  else if k <? 8 then Int (nth (k - 4) n 0%Z)
  else if k =? 8 then Ptr c else if k =? 9 then Ptr a else Ptr b.

(** ** Macros *)

(** Four words to memory. *)
Definition storeBlock (a0 a1 a2 a3 : operand) (r : nat) : list instr :=
  [MOVD a0 (At 0 r); MOVD a1 (At 1 r); MOVD a2 (At 2 r); MOVD a3 (At 3 r)].

(** Four words from memory. *)
Definition loadBlock (r : nat) (a0 a1 a2 a3 : operand) : list instr :=
  [MOVD (At 0 r) a0; MOVD (At 1 r) a1; MOVD (At 2 r) a2; MOVD (At 3 r) a3].

(** The modulus. *)
Definition loadModulus (p0 p1 p2' p3 : operand) : list instr :=
  [MOVD (p2 0) p0; MOVD (p2 1) p1; MOVD (p2 2) p2'; MOVD (p2 3) p3].

(** The product of [R1] to [R4] and [R5] to [R8], in eight registers. *)
Definition mul (c0 c1 c2 c3 c4 c5 c6 c7 : operand) : list instr :=
  [MUL (R 1) (R 5) c0; UMULH (R 1) (R 5) c1; MUL (R 1) (R 6) (R 0); ADDS (R 0) c1 c1; UMULH (R 1) (R 6) c2;
   MUL (R 1) (R 7) (R 0); ADCS (R 0) c2 c2; UMULH (R 1) (R 7) c3; MUL (R 1) (R 8) (R 0); ADCS (R 0) c3 c3;
   UMULH (R 1) (R 8) c4; ADCS ZR c4 c4; MUL (R 2) (R 5) (R 1); UMULH (R 2) (R 5) (R 26); MUL (R 2) (R 6) (R 0);
   ADDS (R 0) (R 26) (R 26); UMULH (R 2) (R 6) (R 27); MUL (R 2) (R 7) (R 0); ADCS (R 0) (R 27) (R 27);
   UMULH (R 2) (R 7) (R 29); MUL (R 2) (R 8) (R 0); ADCS (R 0) (R 29) (R 29); UMULH (R 2) (R 8) c5; ADCS ZR c5 c5;
   ADDS (R 1) c1 c1; ADCS (R 26) c2 c2; ADCS (R 27) c3 c3; ADCS (R 29) c4 c4; ADCS ZR c5 c5; MUL (R 3) (R 5) (R 1);
   UMULH (R 3) (R 5) (R 26); MUL (R 3) (R 6) (R 0); ADDS (R 0) (R 26) (R 26); UMULH (R 3) (R 6) (R 27); MUL (R 3) (R 7) (R 0);
   ADCS (R 0) (R 27) (R 27); UMULH (R 3) (R 7) (R 29); MUL (R 3) (R 8) (R 0); ADCS (R 0) (R 29) (R 29); UMULH (R 3) (R 8) c6;
   ADCS ZR c6 c6; ADDS (R 1) c2 c2; ADCS (R 26) c3 c3; ADCS (R 27) c4 c4; ADCS (R 29) c5 c5; ADCS ZR c6 c6;
   MUL (R 4) (R 5) (R 1); UMULH (R 4) (R 5) (R 26); MUL (R 4) (R 6) (R 0); ADDS (R 0) (R 26) (R 26); UMULH (R 4) (R 6) (R 27);
   MUL (R 4) (R 7) (R 0); ADCS (R 0) (R 27) (R 27); UMULH (R 4) (R 7) (R 29); MUL (R 4) (R 8) (R 0); ADCS (R 0) (R 29) (R 29);
   UMULH (R 4) (R 8) c7; ADCS ZR c7 c7; ADDS (R 1) c3 c3; ADCS (R 26) c4 c4; ADCS (R 27) c5 c5; ADCS (R 29) c6 c6;
   ADCS ZR c7 c7].

(** The Montgomery reduction of [R9] to [R16], in [R1] to [R4]. *)
Definition gfpReduce : list instr :=
  [MOVD (np 0) (R 17); MOVD (np 1) (R 25); MOVD (np 2) (R 19); MOVD (np 3) (R 20); MUL (R 9) (R 17) (R 1);
   UMULH (R 9) (R 17) (R 2); MUL (R 9) (R 25) (R 0); ADDS (R 0) (R 2) (R 2); UMULH (R 9) (R 25) (R 3); MUL (R 9) (R 19) (R 0);
   ADCS (R 0) (R 3) (R 3); UMULH (R 9) (R 19) (R 4); MUL (R 9) (R 20) (R 0); ADCS (R 0) (R 4) (R 4); MUL (R 10) (R 17) (R 21);
   UMULH (R 10) (R 17) (R 22); MUL (R 10) (R 25) (R 0); ADDS (R 0) (R 22) (R 22); UMULH (R 10) (R 25) (R 23);
   MUL (R 10) (R 19) (R 0); ADCS (R 0) (R 23) (R 23); ADDS (R 21) (R 2) (R 2); ADCS (R 22) (R 3) (R 3);
   ADCS (R 23) (R 4) (R 4); MUL (R 11) (R 17) (R 21); UMULH (R 11) (R 17) (R 22); MUL (R 11) (R 25) (R 0);
   ADDS (R 0) (R 22) (R 22); ADDS (R 21) (R 3) (R 3); ADCS (R 22) (R 4) (R 4); MUL (R 12) (R 17) (R 21);
   ADDS (R 21) (R 4) (R 4)] ++
  loadModulus (R 5) (R 6) (R 7) (R 8) ++
  mul (R 17) (R 25) (R 19) (R 20) (R 21) (R 22) (R 23) (R 24) ++
  [MOVD ZR (R 0); ADDS (R 9) (R 17) (R 17); ADCS (R 10) (R 25) (R 25); ADCS (R 11) (R 19) (R 19); ADCS (R 12) (R 20) (R 20);
   ADCS (R 13) (R 21) (R 21); ADCS (R 14) (R 22) (R 22); ADCS (R 15) (R 23) (R 23); ADCS (R 16) (R 24) (R 24);
   ADCS ZR (R 0) (R 0); SUBS (R 5) (R 21) (R 10); SBCS (R 6) (R 22) (R 11); SBCS (R 7) (R 23) (R 12);
   SBCS (R 8) (R 24) (R 13); CSEL_CS (R 10) (R 21) (R 1); CSEL_CS (R 11) (R 22) (R 2); CSEL_CS (R 12) (R 23) (R 3);
   CSEL_CS (R 13) (R 24) (R 4)].

(** ** Functions *)

(** The opposite. *)
Definition gfpNeg : list instr :=
  [MOVD a_FP (R 0)] ++
  loadBlock 0 (R 1) (R 2) (R 3) (R 4) ++
  loadModulus (R 5) (R 6) (R 7) (R 8) ++
  [SUBS (R 1) (R 5) (R 1); SBCS (R 2) (R 6) (R 2); SBCS (R 3) (R 7) (R 3); SBCS (R 4) (R 8) (R 4); SUBS (R 5) (R 1) (R 5);
   SBCS (R 6) (R 2) (R 6); SBCS (R 7) (R 3) (R 7); SBCS (R 8) (R 4) (R 8); CSEL_CS (R 5) (R 1) (R 1);
   CSEL_CS (R 6) (R 2) (R 2); CSEL_CS (R 7) (R 3) (R 3); CSEL_CS (R 8) (R 4) (R 4); MOVD c_FP (R 0)] ++
  storeBlock (R 1) (R 2) (R 3) (R 4) 0.

(** The sum. *)
Definition gfpAdd : list instr :=
  [MOVD a_FP (R 0)] ++
  loadBlock 0 (R 1) (R 2) (R 3) (R 4) ++
  [MOVD b_FP (R 0)] ++
  loadBlock 0 (R 5) (R 6) (R 7) (R 8) ++
  loadModulus (R 9) (R 10) (R 11) (R 12) ++
  [MOVD ZR (R 0); ADDS (R 5) (R 1) (R 1); ADCS (R 6) (R 2) (R 2); ADCS (R 7) (R 3) (R 3); ADCS (R 8) (R 4) (R 4);
   ADCS ZR (R 0) (R 0); SUBS (R 9) (R 1) (R 5); SBCS (R 10) (R 2) (R 6); SBCS (R 11) (R 3) (R 7); SBCS (R 12) (R 4) (R 8);
   SBCS ZR (R 0) (R 0); CSEL_CS (R 5) (R 1) (R 1); CSEL_CS (R 6) (R 2) (R 2); CSEL_CS (R 7) (R 3) (R 3);
   CSEL_CS (R 8) (R 4) (R 4); MOVD c_FP (R 0)] ++
  storeBlock (R 1) (R 2) (R 3) (R 4) 0.

(** The difference. *)
Definition gfpSub : list instr :=
  [MOVD a_FP (R 0)] ++
  loadBlock 0 (R 1) (R 2) (R 3) (R 4) ++
  [MOVD b_FP (R 0)] ++
  loadBlock 0 (R 5) (R 6) (R 7) (R 8) ++
  loadModulus (R 9) (R 10) (R 11) (R 12) ++
  [SUBS (R 5) (R 1) (R 1); SBCS (R 6) (R 2) (R 2); SBCS (R 7) (R 3) (R 3); SBCS (R 8) (R 4) (R 4); CSEL_CS ZR (R 9) (R 9);
   CSEL_CS ZR (R 10) (R 10); CSEL_CS ZR (R 11) (R 11); CSEL_CS ZR (R 12) (R 12); ADDS (R 9) (R 1) (R 1);
   ADCS (R 10) (R 2) (R 2); ADCS (R 11) (R 3) (R 3); ADCS (R 12) (R 4) (R 4); MOVD c_FP (R 0)] ++
  storeBlock (R 1) (R 2) (R 3) (R 4) 0.

(** The product. *)
Definition gfpMul : list instr :=
  [MOVD a_FP (R 0)] ++
  loadBlock 0 (R 1) (R 2) (R 3) (R 4) ++
  [MOVD b_FP (R 0)] ++
  loadBlock 0 (R 5) (R 6) (R 7) (R 8) ++
  mul (R 9) (R 10) (R 11) (R 12) (R 13) (R 14) (R 15) (R 16) ++
  gfpReduce ++
  [MOVD c_FP (R 0)] ++
  storeBlock (R 1) (R 2) (R 3) (R 4) 0.


(** What the registers and the flag hold before a call. *)
Record leftover : Type := mk_leftover { left : nat -> Z; left_flag : bool }.

Definition enter (lo : leftover) (m : list (list Z)) : state := mk_state (map (fun k => Int (left lo k)) (seq 0 30)) (left_flag lo) m.

(** A call. *)
Definition gfp_call (lo : leftover) (prog : list instr) (m : list (list Z)) (c a b : nat) : checked (list (list Z)) :=
  s <- run (gfp_symbols p2_words np_words c a b) prog (enter lo m);;
  ret (mem s).

#[export] Instance Gfp_arm64 (lo : leftover) : GfpOps := {
  gfp_neg m c a := gfp_call lo gfpNeg m c a a;
  gfp_add := gfp_call lo gfpAdd;
  gfp_sub := gfp_call lo gfpSub;
  gfp_mul := gfp_call lo gfpMul
}.

#[local] Open Scope Z_scope.

(** ** Symbolic execution *)

Lemma arm_Returns_step sy i p s s' (Q : state -> Prop) : exec sy i s = Some s' -> Returns (run sy p s') Q -> Returns (run sy (i :: p) s) Q.
Proof. intros E. cbn [run]. rewrite E. exact (fun H => H). Qed.

Ltac arm_unfold := unfold gfpMul, gfpAdd, gfpSub, gfpNeg, gfpReduce, mul, storeBlock, loadBlock, loadModulus, p2, np, c_FP, a_FP, b_FP; unfold enter; cbn [app map seq Nat.add].

Ltac arm_eval := cbv [exec read read_int write result put bind ret nth_error regs flag mem gfp_symbols nth Nat.ltb Nat.leb Nat.eqb Nat.sub].

(** The low word of a product comes first, and the high word may follow. *)
Ltac arm_chain :=
  match goal with
  | Eh : ?h = u64 (Z.shiftr (?a * ?b) 64) |- context [u64 (Z.shiftr (?a * ?b) 64)] => rewrite <- Eh; clear Eh
  | |- context [u64 (?a * ?b)] =>
      let E := fresh "E" in let B := fresh "B" in let W := fresh "W" in let W' := fresh "W" in
      destruct (product_chain a b ltac:(word_bound) ltac:(word_bound)) as (E & B & W & W');
      let l := fresh "l" in let h := fresh "h" in let Eh := fresh "Eh" in
      set (l := u64 (a * b)) in *; set (h := u64 (Z.shiftr (a * b) 64)) in E, W'; assert (h = u64 (Z.shiftr (a * b) 64)) as Eh by reflexivity; clearbody l h
  | _ => chain_step
  end.

Ltac arm_step := eapply arm_Returns_step; [arm_eval; repeat (mem_step; arm_eval); reflexivity|]; rewrite ?negb_involutive, ?if_negb; try arm_chain.

(** The integer in a register, and the flag. *)
Ltac areg k c := match goal with |- context [mk_state ?l _ _] => let v := eval cbv [nth] in (nth k l (Int 0)) in match v with Int ?x => c x end end.
Ltac aflag c := match goal with |- context [mk_state _ ?f _] => c f end.

(** The high word of a product that only its low word was taken of. *)
Ltac high_word a b c := match goal with Eh : ?h = u64 (Z.shiftr (a * b) 64) |- _ => c h end.

(** A row of [mul]: the five words of [x * b], in the registers [k0] to [k4]. *)
Ltac arm_row x b0 b1 b2 b3 k0 k1 k2 k3 k4 K R :=
  do 12 arm_step;
  areg k0 ltac:(fun z0 => areg k1 ltac:(fun z1 => areg k2 ltac:(fun z2 => areg k3 ltac:(fun z3 => areg k4 ltac:(fun z4 =>
    chain_gives (val4 (times x b0) (times x b1) (times x b2) (times x b3) = val5 z0 z1 z2 z3 z4 /\
      val4 (times x b0) (times x b1) (times x b2) (times x b3) <= (2 ^ 64 - 1) * (2 ^ 256 - 1)) as K)))));
  let B := fresh "B" in destruct K as [K B]; name_sum (row_sum x b0 b1 b2 b3) in K as R.

(** The integers in five registers. *)
Ltac aregs k0 k1 k2 k3 k4 c := areg k0 ltac:(fun z0 => areg k1 ltac:(fun z1 => areg k2 ltac:(fun z2 => areg k3 ltac:(fun z3 => areg k4 ltac:(fun z4 => c z0 z1 z2 z3 z4))))).

(** The four rows, summed up in the registers [k0] to [k7]: the product. *)
Ltac arm_rows x0 x1 x2 x3 b0 b1 b2 b3 k0 k1 k2 k3 k4 k5 k6 k7 K R :=
  let K1 := fresh "K1" in let K' := fresh "K" in let R0 := fresh "R" in let R1 := fresh "R" in let R2 := fresh "R" in let R3 := fresh "R" in
  arm_row x0 b0 b1 b2 b3 k0 k1 k2 k3 k4 K R0; arm_row x1 b0 b1 b2 b3 1%nat 26%nat 27%nat 29%nat k5 K1 R1; do 5 arm_step;
  aregs k1 k2 k3 k4 k5 ltac:(fun z0 z1 z2 z3 z4 => match type of K with ?v = ?y0 + _ => match type of K1 with ?r = _ => chain_gives (v + 2 ^ 64 * r = y0 + 2 ^ 64 * val5 z0 z1 z2 z3 z4) as K' end end);
  clear K K1; rename K' into K; chain_clear; arm_row x2 b0 b1 b2 b3 1%nat 26%nat 27%nat 29%nat k6 K1 R2; do 5 arm_step;
  aregs k2 k3 k4 k5 k6 ltac:(fun z0 z1 z2 z3 z4 => match type of K with ?v = ?y0 + _ * (?y1 + _) => match type of K1 with ?r = _ => chain_gives (v + 2 ^ 128 * r = y0 + 2 ^ 64 * (y1 + 2 ^ 64 * val5 z0 z1 z2 z3 z4)) as K' end end);
  clear K K1; rename K' into K; chain_clear; arm_row x3 b0 b1 b2 b3 1%nat 26%nat 27%nat 29%nat k7 K1 R3; do 5 arm_step;
  aregs k3 k4 k5 k6 k7 ltac:(fun z0 z1 z2 z3 z4 => match type of K with ?v = ?y0 + _ * (?y1 + _ * (?y2 + _)) => match type of K1 with ?r = _ =>
    chain_gives (v + 2 ^ 192 * r = y0 + 2 ^ 64 * (y1 + 2 ^ 64 * (y2 + 2 ^ 64 * val5 z0 z1 z2 z3 z4))) as K' end end);
  clear K K1; rename K' into K; chain_clear;
  match type of K with ?v = _ =>
    assert (id (v = val4 x0 x1 x2 x3 * val4 b0 b1 b2 b3)) as R by exact (rows_sum _ _ _ _ _ _ _ _ _ R0 R1 R2 R3);
    let p := fresh "p" in set (p := v) in *; clearbody p; clear R0 R1 R2 R3 end.

(** The low product of [t] and [NP] by rows: the sum in [R1] to [R4], modulo [2^256]. *)
Ltac arm_low_product n0 n1 n2 n3 t0 t1 t2 t3 KM :=
  let KA := fresh "KA" in let KB := fresh "KB" in let KC := fresh "KC" in
  do 10 arm_step;
  aflag ltac:(fun c => high_word t0 n3 ltac:(fun h => aregs 1%nat 2%nat 3%nat 4%nat 4%nat ltac:(fun x0 x1 x2 x3 _x =>
    chain_gives (val4 (times t0 n0) (times t0 n1) (times t0 n2) (times t0 n3) = val4 x0 x1 x2 x3 + 2 ^ 256 * (h + Z.b2z c)) as KA; overflow_name (h + Z.b2z c) KA)));
  do 7 arm_step;
  aflag ltac:(fun c => high_word t1 n2 ltac:(fun h => aregs 21%nat 22%nat 23%nat 23%nat 23%nat ltac:(fun z0 z1 z2 _x _y =>
    chain_gives (times t1 n0 + 2 ^ 64 * (times t1 n1 + 2 ^ 64 * times t1 n2) = z0 + 2 ^ 64 * (z1 + 2 ^ 64 * z2) + 2 ^ 192 * (h + Z.b2z c)) as KB; overflow_name (h + Z.b2z c) KB)));
  do 3 arm_step;
  aflag ltac:(fun c => aregs 1%nat 2%nat 3%nat 4%nat 4%nat ltac:(fun x0 x1 x2 x3 _x => match type of KA with ?u = _ + _ * ?q => match type of KB with ?v = _ + _ * ?q' =>
    chain_gives (u + 2 ^ 64 * v = val4 x0 x1 x2 x3 + 2 ^ 256 * (q + q' + Z.b2z c)) as KC; overflow_name (q + q' + Z.b2z c) KC end end)); clear KA KB;
  do 4 arm_step;
  aflag ltac:(fun c => high_word t2 n1 ltac:(fun h => aregs 21%nat 22%nat 22%nat 22%nat 22%nat ltac:(fun z0 z1 _x _y _z =>
    chain_gives (times t2 n0 + 2 ^ 64 * times t2 n1 = z0 + 2 ^ 64 * z1 + 2 ^ 128 * (h + Z.b2z c)) as KA; overflow_name (h + Z.b2z c) KA)));
  do 2 arm_step;
  aflag ltac:(fun c => aregs 1%nat 2%nat 3%nat 4%nat 4%nat ltac:(fun x0 x1 x2 x3 _x => match type of KC with ?u = _ + _ * ?q => match type of KA with ?v = _ + _ * ?q' =>
    chain_gives (u + 2 ^ 128 * v = val4 x0 x1 x2 x3 + 2 ^ 256 * (q + q' + Z.b2z c)) as KB; overflow_name (q + q' + Z.b2z c) KB end end)); clear KA KC;
  do 2 arm_step;
  aflag ltac:(fun c => high_word t3 n0 ltac:(fun h => aregs 1%nat 2%nat 3%nat 4%nat 4%nat ltac:(fun x0 x1 x2 x3 _x => match type of KB with ?u = _ + _ * ?q =>
    chain_gives (u + 2 ^ 192 * times t3 n0 = val4 x0 x1 x2 x3 + 2 ^ 256 * (q + h + Z.b2z c)) as KC; overflow_name (q + h + Z.b2z c) KC end))); clear KB;
  low_complete t0 t1 t2 t3 n0 n1 n2 n3 KC KM; repeat match goal with Eh : _ = u64 (Z.shiftr _ 64) |- _ => clear Eh end; chain_clear.

(** The sum of the product and [M P]. *)
Ltac arm_sum p p' KS :=
  aregs 17%nat 25%nat 19%nat 20%nat 21%nat ltac:(fun x0 x1 x2 x3 y0 => aregs 22%nat 23%nat 24%nat 0%nat 0%nat ltac:(fun y1 y2 y3 y4 _x =>
    chain_gives (p + p' = val4 x0 x1 x2 x3 + 2 ^ 256 * val5 y0 y1 y2 y3 y4) as KS)).

(** The difference of four words to the modulus. *)
Ltac arm_carry p k0 k1 k2 k3 j0 j1 j2 j3 KD :=
  aregs k0 k1 k2 k3 k3 ltac:(fun u0 u1 u2 u3 _x => aregs j0 j1 j2 j3 j3 ltac:(fun d0 d1 d2 d3 _y => aflag ltac:(fun c => match c with negb ?c' =>
    chain_gives (val4 u0 u1 u2 u3 - p = val4 d0 d1 d2 d3 - 2 ^ 256 * Z.b2z c') as KD end))).

Ltac arm_store := do 5 arm_step; apply Returns_ret; cbn [mem].

(** The end of a product: the word above the sum is zero, and is left out. *)
Ltac arm_close EP EN KM RT RP K KS KD Hc :=
  unfold id in KM, RT, RP; rewrite EP in KD, RP; rewrite EN, Z.mul_comm in KM; rewrite Z.mul_comm in RP;
  match type of KS with _ = ?L + _ * val5 ?u0 ?u1 ?u2 ?u3 ?u4 => match type of KM with NP * ?TL = ?M + _ * ?Q => match type of RT with ?p = ?A * ?B => match type of RP with ?p' = _ =>
  match type of K with _ = _ + _ * (_ + _ * (_ + _ * (_ + _ * ?TH))) =>
    destruct (montgomery A B p p' TL TH M Q L (val5 u0 u1 u2 u3 u4)) as [HU EU];
      [unfold word in *; lia | unfold word in *; lia | unfold word in *; lia | unfold word in *; lia | exact RT | exact (halves _ _ _ _ _ _ _ _ _ K) | exact KM | exact RP | exact KS |];
    assert (val5 u0 u1 u2 u3 u4 = val4 u0 u1 u2 u3) as E0 by (unfold word, P in *; lia); rewrite E0 in HU, EU;
    apply (gfp_result_intro _ _ _ _ _ _ _ _ Hc); [apply word_if; assumption ..|]; erewrite carry_reduced4; [| | | | | | | | | | exact KD]; [exact EU | assumption .. | exact HU]
  end end end end end.

Lemma arm_mul_run P0 P1 P2 P3 N0 N1 N2 N3 lo m c a b A B : gfp_modulus P0 P1 P2 P3 N0 N1 N2 N3 -> gfp_args m c a b A B ->
  Returns (run (gfp_symbols [P0; P1; P2; P3] [N0; N1; N2; N3] c a b) gfpMul (enter lo m))
    (fun s => gfp_result m c [c] ((words_Z 64 A * words_Z 64 B * words_Z 64 rN1) mod P) (mem s)).
Proof.
  intros HP H. gfp_open HP H. arm_unfold. do 10 arm_step. arm_rows a0 a1 a2 a3 b0 b1 b2 b3 9%nat 10%nat 11%nat 12%nat 13%nat 14%nat 15%nat 16%nat K RT.
  name_words K t0 t1 t2 t3 t4 t5 t6 t7. do 4 arm_step. arm_low_product N0 N1 N2 N3 t0 t1 t2 t3 KM.
  do 4 arm_step. match type of KM with id (_ = val4 ?x0 ?x1 ?x2 ?x3 + _) => arm_rows x0 x1 x2 x3 P0 P1 P2 P3 17%nat 25%nat 19%nat 20%nat 21%nat 22%nat 23%nat 24%nat KP RP end.
  do 10 arm_step. arm_sum p p0 KS. do 4 arm_step. arm_carry (val4 P0 P1 P2 P3) 21%nat 22%nat 23%nat 24%nat 10%nat 11%nat 12%nat 13%nat KD. do 4 arm_step. arm_store.
  arm_close EP EN KM RT RP K KS KD Hc.
Qed.

Lemma arm_add_run P0 P1 P2 P3 N0 N1 N2 N3 lo m c a b A B : gfp_modulus P0 P1 P2 P3 N0 N1 N2 N3 -> gfp_args m c a b A B ->
  Returns (run (gfp_symbols [P0; P1; P2; P3] [N0; N1; N2; N3] c a b) gfpAdd (enter lo m))
    (fun s => gfp_result m c [c] ((words_Z 64 A + words_Z 64 B) mod P) (mem s)).
Proof.
  intros HP H. gfp_open HP H. arm_unfold. do 20 arm_step.
  aregs 1%nat 2%nat 3%nat 4%nat 0%nat ltac:(fun u0 u1 u2 u3 u4 => chain_gives (val4 a0 a1 a2 a3 + val4 b0 b1 b2 b3 = val5 u0 u1 u2 u3 u4) as KS).
  do 5 arm_step. match type of KS with _ = val5 ?u0 ?u1 ?u2 ?u3 ?u4 => aregs 5%nat 6%nat 7%nat 8%nat 0%nat ltac:(fun d0 d1 d2 d3 d4 => aflag ltac:(fun c => match c with negb ?c' =>
    chain_gives (val5 u0 u1 u2 u3 u4 - val4 P0 P1 P2 P3 = val5 d0 d1 d2 d3 d4 - 2 ^ 320 * Z.b2z c') as KD end)) end.
  rewrite EP in KD. do 4 arm_step. arm_store. apply (gfp_result_intro _ _ _ _ _ _ _ _ Hc); [apply word_if; assumption ..|].
  erewrite carry_reduced; [| | | | | | | | | | | | exact KD]; [rewrite KS; reflexivity | assumption .. | rewrite <- KS; unfold word in *; lia].
Qed.

Lemma arm_neg_run P0 P1 P2 P3 N0 N1 N2 N3 lo m c a b A B : gfp_modulus P0 P1 P2 P3 N0 N1 N2 N3 -> gfp_args m c a b A B ->
  Returns (run (gfp_symbols [P0; P1; P2; P3] [N0; N1; N2; N3] c a b) gfpNeg (enter lo m))
    (fun s => gfp_result m c [c] (- words_Z 64 A mod P) (mem s)).
Proof.
  intros HP H. gfp_open HP H. arm_unfold. do 13 arm_step.
  aregs 1%nat 2%nat 3%nat 4%nat 4%nat ltac:(fun u0 u1 u2 u3 _x => chain_gives (P - val4 a0 a1 a2 a3 = val4 u0 u1 u2 u3) as KS).
  do 4 arm_step. arm_carry (val4 P0 P1 P2 P3) 1%nat 2%nat 3%nat 4%nat 5%nat 6%nat 7%nat 8%nat KD. rewrite EP in KD. do 4 arm_step. arm_store.
  apply (gfp_result_intro _ _ _ _ _ _ _ _ Hc); [apply word_if; assumption ..|]. erewrite carry_reduced4; [| | | | | | | | | | exact KD]; [| assumption .. | rewrite <- KS; unfold word in *; lia].
  rewrite <- KS. replace (P - val4 a0 a1 a2 a3) with (- val4 a0 a1 a2 a3 + 1 * P) by ring. apply Z.mod_add. discriminate.
Qed.

Lemma arm_sub_run P0 P1 P2 P3 N0 N1 N2 N3 lo m c a b A B : gfp_modulus P0 P1 P2 P3 N0 N1 N2 N3 -> gfp_args m c a b A B ->
  Returns (run (gfp_symbols [P0; P1; P2; P3] [N0; N1; N2; N3] c a b) gfpSub (enter lo m))
    (fun s => gfp_result m c [c] ((words_Z 64 A - words_Z 64 B) mod P) (mem s)).
Proof.
  intros HP H. gfp_open HP H. arm_unfold. do 18 arm_step.
  aregs 1%nat 2%nat 3%nat 4%nat 4%nat ltac:(fun u0 u1 u2 u3 _x => aflag ltac:(fun c => match c with negb ?c' =>
    chain_gives (val4 a0 a1 a2 a3 - val4 b0 b1 b2 b3 = val4 u0 u1 u2 u3 - 2 ^ 256 * Z.b2z c') as KS; destruct c'; cbn [Z.b2z] in KS end)); do 8 arm_step.
  - aregs 1%nat 2%nat 3%nat 4%nat 4%nat ltac:(fun u0 u1 u2 u3 _x => chain_gives (val4 u0 u1 u2 u3 = val4 a0 a1 a2 a3 - val4 b0 b1 b2 b3 + val4 P0 P1 P2 P3) as KR).
    arm_store. apply (gfp_result_intro _ _ _ _ _ _ _ _ Hc); [assumption ..|]. apply (Z.mod_unique _ _ (-1)); [|rewrite KR, EP; ring]. unfold word in *. lia.
  - aregs 1%nat 2%nat 3%nat 4%nat 4%nat ltac:(fun u0 u1 u2 u3 _x => chain_gives (val4 u0 u1 u2 u3 = val4 a0 a1 a2 a3 - val4 b0 b1 b2 b3) as KR).
    arm_store. apply (gfp_result_intro _ _ _ _ _ _ _ _ Hc); [assumption ..|]. rewrite KR. symmetry. apply Z.mod_small. unfold word in *. lia.
Qed.

(** ** The calls *)

Lemma arm_call_ok lo prog m c a b r : Returns (run (gfp_symbols p2_words np_words c a b) prog (enter lo m)) (fun s => gfp_result m c [c] r (mem s)) ->
  Returns (gfp_call lo prog m c a b) (gfp_result m c [c] r).
Proof. intros HR. unfold gfp_call. apply (Returns_bind _ _ _ _ HR). intros s Hs. apply Returns_ret. exact Hs. Qed.

#[global] Instance GfpLaws_arm64 lo : GfpLaws (Gfp_arm64 lo).
Proof.
  constructor; intros m c a.
  - intros A H. apply arm_call_ok. exact (arm_neg_run _ _ _ _ _ _ _ _ lo m c a a A A gfp_modulus_words H).
  - intros b A B H. apply arm_call_ok. exact (arm_add_run _ _ _ _ _ _ _ _ lo m c a b A B gfp_modulus_words H).
  - intros b A B H. apply arm_call_ok. exact (arm_sub_run _ _ _ _ _ _ _ _ lo m c a b A B gfp_modulus_words H).
  - intros b A B H. apply arm_call_ok. exact (arm_mul_run _ _ _ _ _ _ _ _ lo m c a b A B gfp_modulus_words H).
Qed.

End Arm64.
