(* ===== verification/GfpTheorems.v ===== *)
(** * The field of the pairing curve: what its arithmetic guarantees

    The assembly of the two processors gives the same memory, with the sum, the
    difference, the opposite or the Montgomery product in it; the conversion to the
    Montgomery form is undone by the one from it; and the inversion gives inverses. *)

From Stdlib Require Import ZArith Lia List Bool.
From S2P Require Import Prelude Modulus Bytes ScalarWords X86 Gfp GfpAmd64 GfpArm64.
Import ListNotations.

#[local] Open Scope Z_scope.

(** ** Results are memories *)

Lemma gfp_result_unique m c r m1 m2 : gfp_result m c [c] r m1 -> gfp_result m c [c] r m2 -> m1 = m2.
Proof.
  intros ((R1 & B1 & W1 & E1) & _ & H1) ((R2 & B2 & W2 & E2) & _ & H2). apply nth_error_ext. intros d. destruct (Nat.eq_dec d c) as [->|Hd].
  - unfold block in B1, B2. rewrite B1, B2. f_equal. apply (words_Z_inj 4); congruence.
  - specialize (H1 d ltac:(intros [-> | []]; contradiction)). specialize (H2 d ltac:(intros [-> | []]; contradiction)). unfold block in H1, H2. congruence.
Qed.

(** Two computations with the same result. *)
Definition both_give (m : list (list Z)) (c : nat) (r : Z) (x y : checked (list (list Z))) : Prop :=
  exists m', x = Some m' /\ y = Some m' /\ gfp_result m c [c] r m'.

Lemma both_give_intro m c r x y : Returns x (gfp_result m c [c] r) -> Returns y (gfp_result m c [c] r) -> both_give m c r x y.
Proof.
  destruct x as [m1|]; [|contradiction]. destruct y as [m2|]; [|contradiction]. cbn [Returns]. intros H1 H2. exists m1. split; [reflexivity|]. split; [|exact H1].
  f_equal. exact (gfp_result_unique _ _ _ _ _ H2 H1).
Qed.

(** ** The Montgomery form *)

Lemma decode_encode A : ((A * 2 ^ 256) mod P * words_Z 64 rN1) mod P = A mod P.
Proof. rewrite Z.mul_mod_idemp_l by discriminate. rewrite <- Z.mul_assoc, <- Z.mul_mod_idemp_r, R_RN1, Z.mul_1_r by discriminate. reflexivity. Qed.

Lemma invert_cancel (f : Zmod P) : f <> Zmod.zero -> (Zmod.inv (f * mont_inv) * mont * f * mont_inv)%Zmod = mont.
Proof.
  intros Hf. assert (f * mont_inv <> Zmod.zero)%Zmod as H0.
  { intros H. apply Hf. transitivity (f * mont_inv * mont)%Zmod; [|rewrite H; ring]. transitivity (f * (mont * mont_inv))%Zmod; [rewrite mont_cancel; ring | ring]. }
  transitivity (Zmod.inv (f * mont_inv) * (f * mont_inv) * mont)%Zmod; [ring|]. rewrite Zmod.mul_inv_same_l_prime by (exact P_prime || exact H0). ring.
Qed.

(** ** Properties *)

(** C28: given two reduced field elements of four words, and whatever the registers
    and the stack held before, the x86-64 code, with [MULX] or without it, and the arm64
    code return the same memory.  It has the reduced sum, difference, opposite or
    Montgomery product [a b / 2^256] of the elements in the place of the result, which
    may be that of an operand, and is otherwise as before. *)
Theorem gfp_arithmetic (lo : leftover) (hasBMI2 : bool) (lo' : Arm64.leftover) m c a b A B : gfp_args m c a b A B ->
  let amd64 := Gfp_amd64 lo hasBMI2 in let arm64 := Arm64.Gfp_arm64 lo' in
  both_give m c ((words_Z 64 A + words_Z 64 B) mod P) (gfp_add (GfpOps := amd64) m c a b) (gfp_add (GfpOps := arm64) m c a b) /\
  both_give m c ((words_Z 64 A - words_Z 64 B) mod P) (gfp_sub (GfpOps := amd64) m c a b) (gfp_sub (GfpOps := arm64) m c a b) /\
  both_give m c (- words_Z 64 A mod P) (gfp_neg (GfpOps := amd64) m c a) (gfp_neg (GfpOps := arm64) m c a) /\
  exists ab, ab * 2 ^ 256 mod P = words_Z 64 A * words_Z 64 B mod P /\ 0 <= ab < P /\ both_give m c ab (gfp_mul (GfpOps := amd64) m c a b) (gfp_mul (GfpOps := arm64) m c a b).
Proof.
  intros H. cbv zeta. assert (gfp_args m c a a A A) as H' by (destruct H as (Ha & _ & WA & _ & PA & _ & HC); repeat (split; [assumption|]); exact HC).
  split; [apply both_give_intro; apply gfp_add_law; exact H|]. split; [apply both_give_intro; apply gfp_sub_law; exact H|]. split; [apply both_give_intro; apply gfp_neg_law; exact H'|].
  eexists. split; [|split; [apply mod_P | apply both_give_intro; apply gfp_mul_law; exact H]].
  rewrite Z.mul_mod_idemp_l by discriminate. rewrite <- Z.mul_assoc, <- Z.mul_mod_idemp_r by discriminate. rewrite (Z.mul_comm (words_Z 64 rN1)), R_RN1, Z.mul_1_r. reflexivity.
Qed.

Definition sample_words : list (list Z) := [rN1; r2; r3; [7; 8; 9; 10]; [3; 2; 1; 0x30644e72e131a029]].

Definition sample_lo : leftover := mk_leftover (mk_registers 1 2 3 4 5 6 7 8 9 10 11 12 13 14 15 16 true) (fun k => 77).

Definition sample_lo' : Arm64.leftover := Arm64.mk_leftover (fun k => 88) true.

Lemma gfp_arithmetic_witness :
  gfp_args sample_words 4 3 4 [7; 8; 9; 10] [3; 2; 1; 0x30644e72e131a029] /\
  both_give sample_words 4 ((words_Z 64 [7; 8; 9; 10] + words_Z 64 [3; 2; 1; 0x30644e72e131a029]) mod P)
    (gfp_add (GfpOps := Gfp_amd64 sample_lo true) sample_words 4 3 4) (gfp_add (GfpOps := Arm64.Gfp_arm64 sample_lo') sample_words 4 3 4).
Proof.
  assert (gfp_args sample_words 4 3 4 [7; 8; 9; 10] [3; 2; 1; 0x30644e72e131a029]) as H.
  { split; [reflexivity|]. split; [reflexivity|]. split; [words_literal|]. split; [words_literal|]. split; [vm_compute; reflexivity|]. split; [vm_compute; reflexivity|].
    exists [3; 2; 1; 0x30644e72e131a029]. split; reflexivity. }
  split; [exact H|]. exact (proj1 (gfp_arithmetic sample_lo true sample_lo' sample_words 4 3 4 _ _ H)).
Defined.

(** C30: with arithmetic that keeps its promises, a field element in Montgomery form is
    inverted by [Invert]: the Montgomery product of the result and the element is the
    Montgomery form of one, and zero has the inverse zero.  Nothing else that was in
    memory before has changed. *)
Theorem gfp_invert (G : GfpOps) (L : GfpLaws G) m e f E F : globals m -> gfp_val m e E -> gfp_val m f F ->
  Returns (Invert m e f) (fun m' =>
    (exists V, gfp_val m' e V /\ (V * F * words_Z 64 rN1) mod P = (if F =? 0 then 0 else 2 ^ 256 mod P) /\ (F = 0 -> V = 0)) /\
    forall d, (d < length m)%nat -> d <> e -> block m' d = block m d).
Proof.
  intros Hg He Hf. pose proof (gfp_val_range _ _ _ Hf) as HF. apply (Returns_mono _ _ _ (Invert_val m e f E F Hg He Hf)). intros m' [(V & HV & EV) HU]. split; [|exact HU].
  exists V. split; [exact HV|]. pose proof (gfp_val_range _ _ _ HV) as HVP. destruct (Z.eqb_spec F 0) as [->|HF0].
  - assert (V = 0) as ->; [|split; reflexivity]. apply (f_equal Zmod.to_Z) in EV. unfold toG in EV at 1. rewrite Zmod.to_Z_of_Z, Z.mod_small in EV by exact HVP. rewrite EV.
    vm_compute. reflexivity.
  - split; [|contradiction]. apply (proj1 (@Zmod.of_Z_inj P _ _)). change (toG (V * F * words_Z 64 rN1) = mont). rewrite !toG_mul, EV. apply invert_cancel.
    intros H0. apply HF0. apply (f_equal Zmod.to_Z) in H0. unfold toG in H0. rewrite Zmod.to_Z_of_Z, Z.mod_small in H0 by exact HF. exact H0.
Qed.

Lemma sample_globals : globals sample_words.
Proof. split; [|split]; reflexivity. Qed.

Lemma sample_val3 : gfp_val sample_words 3 (words_Z 64 [7; 8; 9; 10]).
Proof. apply gfp_const; [reflexivity | words_literal | vm_compute; reflexivity]. Qed.

Lemma sample_val4 : gfp_val sample_words 4 (words_Z 64 [3; 2; 1; 0x30644e72e131a029]).
Proof. apply gfp_const; [reflexivity | words_literal | vm_compute; reflexivity]. Qed.

Lemma gfp_invert_witness : Returns (Invert (G := Gfp_amd64 sample_lo true) sample_words 4 3) (fun m' =>
  (exists V, gfp_val m' 4 V /\ (V * words_Z 64 [7; 8; 9; 10] * words_Z 64 rN1) mod P = 2 ^ 256 mod P /\ (words_Z 64 [7; 8; 9; 10] = 0 -> V = 0)) /\
  forall d, (d < 5)%nat -> d <> 4%nat -> block m' d = block sample_words d).
Proof. exact (gfp_invert (Gfp_amd64 sample_lo true) _ sample_words 4 3 _ _ sample_globals sample_val4 sample_val3). Defined.

(** C31: with arithmetic that keeps its promises, decoding what was encoded gives the
    element back, whatever the element; and a new element made of an [int64] decodes to
    that integer modulo the modulus. *)
Theorem mont_roundtrip (G : GfpOps) (L : GfpLaws G) m c a A C x : globals m -> gfp_val m a A -> gfp_val m c C -> - 2 ^ 63 <= x < 2 ^ 63 ->
  Returns (bind (montEncode m c a) (fun m => montDecode m c c)) (fun m' => gfp_val m' c A) /\
  Returns (bind (newGFp m x) (fun '(m, out) => bind (montDecode m out out) (fun m => ret (m, out)))) (fun '(m', out) => gfp_val m' out (x mod P)).
Proof.
  intros Hg Ha Hc Hx. split.
  - apply (Returns_bind _ _ _ _ (montEncode_val m c a A C Hg Ha Hc)). intros m1 [H1 _]. apply (Returns_mono _ _ _ (montDecode_val m1 c c _ _ H1 H1)). intros m2 [H2 _].
    rewrite decode_encode, Z.mod_small in H2 by exact (gfp_val_range _ _ _ Ha). exact H2.
  - apply (Returns_bind _ _ _ _ (newGFp_val m x Hg Hx)). intros [m1 out] [H1 _]. apply (Returns_bind _ _ _ _ (montDecode_val m1 out out _ _ H1 H1)). intros m2 [H2 _].
    apply Returns_ret. rewrite decode_encode in H2. exact H2.
Qed.

Lemma mont_roundtrip_witness :
  Returns (bind (montEncode (G := Arm64.Gfp_arm64 sample_lo') sample_words 4 3) (fun m => montDecode (G := Arm64.Gfp_arm64 sample_lo') m 4 4)) (fun m' => gfp_val m' 4 (words_Z 64 [7; 8; 9; 10])) /\
  Returns (bind (newGFp (G := Arm64.Gfp_arm64 sample_lo') sample_words (-5)) (fun '(m, out) => bind (montDecode (G := Arm64.Gfp_arm64 sample_lo') m out out) (fun m => ret (m, out))))
    (fun '(m', out) => gfp_val m' out (-5 mod P)).
Proof. exact (mont_roundtrip (Arm64.Gfp_arm64 sample_lo') _ sample_words 4 3 _ _ (-5) sample_globals sample_val3 sample_val4 ltac:(lia)). Defined.
