(* ===== verification/Hostname.v ===== *)
(** * Names of a certificate ([go-openssl/hostname.c])

    The functions that compare the names of an X.509 certificate with a host name,
    an e-mail address or an IP address, for versions of OpenSSL that lack them.  A
    pointer and a length are a list of bytes.  What OpenSSL provides (the parsed
    names, the conversion to UTF-8 and the constants of its headers) is the class
    [Openssl], and what its documentation says of it the class [OpensslLaws]. *)

From Stdlib Require Import ZArith Lia List Bool.
From S2P Require Import Prelude.
Import ListNotations.

#[local] Open Scope Z_scope.
#[local] Open Scope checked_scope.

(** ** Comparing names *)

(** [if ('A' <= c && c <= 'Z') c = (c - 'A') + 'a';] *)
Definition to_lower (c : Z) : Z := if (65 <=? c) && (c <=? 90) then c - 65 + 97 else c.

(** The loop of [equal_nocase]. *)
Fixpoint equal_nocase_loop (pattern subject : list Z) : bool :=
  match pattern, subject with
  | l :: pattern', r :: subject' =>
      if l =? 0 then false
      else if negb (l =? r) && negb (to_lower l =? to_lower r) then false
      else equal_nocase_loop pattern' subject'
  | _, _ => true
  end.

Definition equal_nocase (pattern subject : list Z) : bool :=
  if negb (length pattern =? length subject)%nat then false else equal_nocase_loop pattern subject.

(** [memchr(s, c, len)]: the offset of the first [c]. *)
Fixpoint memchr (s : list Z) (c : Z) : option nat :=
  match s with
  | [] => None
  | x :: s' => if x =? c then Some O else option_map S (memchr s' c)
  end.

(** [!memcmp(a, b, len)] *)
Fixpoint memeq (a b : list Z) : bool :=
  match a, b with
  | x :: a', y :: b' => (x =? y) && memeq a' b'
  | _, _ => true
  end.

Definition equal_case (pattern subject : list Z) : bool :=
  match memchr pattern 0 with
  | Some _ => false
  | None => if negb (length pattern =? length subject)%nat then false else memeq pattern subject
  end.

(** The loop of [equal_email]: the [i] it ends with, unless it returns 0. *)
Fixpoint equal_email_loop (a b : list Z) (i : nat) : option nat :=
  match i with
  | O => Some O
  | S i' =>
      if (nth i' a 0 =? 64) || (nth i' b 0 =? 64)
      then if negb (equal_nocase (skipn i' a) (skipn i' b)) then None else Some i'
      else equal_email_loop a b i'
  end.

Definition equal_email (a b : list Z) : bool :=
  if negb (length a =? length b)%nat then false
  else match equal_email_loop a b (length a) with
       | None => false
       | Some i => let i := if (i =? 0)%nat then length a else i in equal_case (firstn i a) (firstn i b)
       end.

(** Letters, digits and [-]. *)
Definition label_character (c : Z) : bool :=
  ((48 <=? c) && (c <=? 57)) || ((65 <=? c) && (c <=? 90)) || ((97 <=? c) && (c <=? 122)) || (c =? 45).

(** The part of [subject] between the prefix and the suffix is the wildcard. *)
Definition wildcard_match (prefix suffix subject : list Z) : bool :=
  let wildcard_end := (length subject - length suffix)%nat in
  if (length subject <? length prefix + length suffix)%nat then false
  else if negb (equal_nocase prefix (firstn (length prefix) subject)) then false
  else if negb (equal_nocase (skipn wildcard_end subject) suffix) then false
  else if (length prefix =? wildcard_end)%nat then false
  else forallb label_character (firstn (wildcard_end - length prefix) (skipn (length prefix) subject)).

Definition valid_domain_characters (p : list Z) : bool := forallb (fun c => label_character c || (c =? 46)) p.

(** The loop that counts the dots of the suffix. *)
Fixpoint dot_count (s : list Z) : nat :=
  match s with
  | [] => O
  | c :: s' => if c =? 46 then S (dot_count s') else dot_count s'
  end.

(** The offset of the star. *)
Definition wildcard_find_star (pattern : list Z) : option nat :=
  match memchr pattern 42 with
  | None => None
  | Some star =>
      let suffix := skipn (S star) pattern in
      if negb (valid_domain_characters (firstn star pattern) && valid_domain_characters suffix) then None
      else if (dot_count suffix <? 2)%nat then None
      else Some star
  end.

Definition equal_wildcard (pattern subject : list Z) : bool :=
  match wildcard_find_star pattern with
  | None => equal_nocase pattern subject
  | Some star => wildcard_match (firstn star pattern) (skipn (S star) pattern) subject
  end.

(** ** OpenSSL *)

(** [ASN1_STRING]: a type and bytes, or no bytes. *)
Record asn1_string : Type := mk_asn1 { asn1_type : Z; asn1_data : option (list Z) }.

(** [GENERAL_NAME]: a type, and the member of the union that a name, an address or an
    e-mail address has. *)
Record general_name : Type := mk_general_name { gen_type : Z; gen_d : asn1_string }.

Class Openssl : Type := {
  X509 : Type;
  X509_NAME : Type;
  GEN_EMAIL : Z;
  GEN_DNS : Z;
  GEN_IPADD : Z;
  V_ASN1_IA5STRING : Z;
  V_ASN1_OCTET_STRING : Z;
  NID_pkcs9_emailAddress : Z;
  NID_commonName : Z;
  subject_alt_name : X509 -> option (list general_name);  (* X509_get_ext_d2i(x, NID_subject_alt_name, NULL, NULL) *)
  X509_get_subject_name : X509 -> X509_NAME;
  X509_NAME_get_index_by_NID : X509_NAME -> Z -> Z -> Z;
  X509_NAME_get_entry_data : X509_NAME -> Z -> asn1_string;  (* X509_NAME_ENTRY_get_data(X509_NAME_get_entry(name, i)) *)
  X509_NAME_entry_count : X509_NAME -> Z;
  ASN1_STRING_to_UTF8 : asn1_string -> option (list Z)  (* None: a negative value *)
}.

Definition X509_CHECK_FLAG_ALWAYS_CHECK_SUBJECT : Z := 0x1.
Definition X509_CHECK_FLAG_NO_WILDCARDS : Z := 0x2.

Section Checks.
Context {O : Openssl}.

Definition do_check_string (a : asn1_string) (cmp_type : Z) (equal : list Z -> list Z -> bool) (b : list Z) : Z :=
  match asn1_data a with
  | None | Some [] => 0
  | Some data =>
      if 0 <? cmp_type then
        if negb (cmp_type =? asn1_type a) then 0
        else if cmp_type =? V_ASN1_IA5STRING then Z.b2z (equal data b)
        else if (Z.of_nat (length data) =? i32 (Z.of_nat (length b))) && memeq data b then 1 else 0
      else
        match ASN1_STRING_to_UTF8 a with
        | None => -1
        | Some astr => Z.b2z (equal astr b)
        end
  end.

(** The object, the type of an alternative name and the comparison for a kind of
    check. *)
Definition check_kind (flags check_type : Z) : Z * Z * (list Z -> list Z -> bool) :=
  if check_type =? GEN_EMAIL then (NID_pkcs9_emailAddress, V_ASN1_IA5STRING, equal_email)
  else if check_type =? GEN_DNS then
    (NID_commonName, V_ASN1_IA5STRING, if negb (Z.land flags X509_CHECK_FLAG_NO_WILDCARDS =? 0) then equal_nocase else equal_wildcard)
  else (0, V_ASN1_OCTET_STRING, equal_case).

(** [for (i = 0; i < sk_GENERAL_NAME_num(gens); i++)] *)
Fixpoint check_alt_names (gens : list general_name) (check_type alt_type : Z) (equal : list Z -> list Z -> bool) (chk : list Z) : bool :=
  match gens with
  | [] => false
  | gen :: gens' =>
      if negb (gen_type gen =? check_type) then check_alt_names gens' check_type alt_type equal chk
      else if negb (do_check_string (gen_d gen) alt_type equal chk =? 0) then true
      else check_alt_names gens' check_type alt_type equal chk
  end.

(** [while ((i = X509_NAME_get_index_by_NID(name, cnid, i)) >= 0)], for up to [fuel]
    rounds. *)
Fixpoint check_subject (fuel : nat) (name : X509_NAME) (cnid i : Z) (equal : list Z -> list Z -> bool) (chk : list Z) : checked Z :=
  match fuel with
  | Datatypes.O => None
  | S fuel' =>
      let i := X509_NAME_get_index_by_NID name cnid i in
      if i <? 0 then ret 0
      else if negb (do_check_string (X509_NAME_get_entry_data name i) (-1) equal chk =? 0) then ret 1
      else check_subject fuel' name cnid i equal chk
  end.

(** [chk] is the memory from the pointer on; a string has its NUL in it. *)
Definition do_x509_check (fuel : nat) (x : X509) (chk : list Z) (chklen : nat) (flags check_type : Z) : checked Z :=
  let '(cnid, alt_type, equal) := check_kind flags check_type in
  chklen <- (if (chklen =? 0)%nat then memchr chk 0 else ret chklen);;
  chk <- (if (length chk <? chklen)%nat then None else ret (firstn chklen chk));;
  let subject := check_subject fuel (X509_get_subject_name x) cnid (-1) equal chk in
  match subject_alt_name x with
  | None => subject
  | Some gens =>
      if check_alt_names gens check_type alt_type equal chk then ret 1
      else if (Z.land flags X509_CHECK_FLAG_ALWAYS_CHECK_SUBJECT =? 0) || (cnid =? 0) then ret 0
      else subject
  end.

Definition X509_check_host (fuel : nat) (x : X509) (chk : list Z) (chklen : nat) (flags : Z) : checked Z := do_x509_check fuel x chk chklen flags GEN_DNS.



End Checks.

(** What the documentation says: the constants are different numbers above zero, and
    an index is the first one past the last that has the object, or negative. *)
Class OpensslLaws (O : Openssl) : Type := {
  entry_NID : X509_NAME -> Z -> Z;
  general_types : GEN_EMAIL <> GEN_DNS /\ GEN_EMAIL <> GEN_IPADD /\ GEN_DNS <> GEN_IPADD;
  asn1_types : 0 < V_ASN1_IA5STRING /\ 0 < V_ASN1_OCTET_STRING /\ V_ASN1_IA5STRING <> V_ASN1_OCTET_STRING;
  objects_nonzero : NID_commonName <> 0 /\ NID_pkcs9_emailAddress <> 0;
  entry_count_nonneg name : 0 <= X509_NAME_entry_count name;
  get_index_found name nid last : -1 <= last -> 0 <= X509_NAME_get_index_by_NID name nid last ->
    let i := X509_NAME_get_index_by_NID name nid last in
    last < i < X509_NAME_entry_count name /\ entry_NID name i = nid /\ forall j, last < j < i -> entry_NID name j <> nid;
  get_index_none name nid last : -1 <= last -> X509_NAME_get_index_by_NID name nid last < 0 ->
    forall j, last < j < X509_NAME_entry_count name -> entry_NID name j <> nid
}.

(** ** What the comparisons decide *)

(** The same characters, but for the case of letters. *)
Definition same_letters (a b : list Z) : Prop := map to_lower a = map to_lower b.

Definition is_domain_char (c : Z) : bool := label_character c || (c =? 46).

(** A pattern with a star: letters, digits, dashes and dots around it, and at least two
    dots after it. *)
Definition wildcard_pattern (p pre suf : list Z) : Prop :=
  p = pre ++ 42 :: suf /\ Forall (fun c => is_domain_char c = true) pre /\ Forall (fun c => is_domain_char c = true) suf /\ (2 <= dot_count suf)%nat.

(** The star stands for one or more characters of a label. *)
Definition host_matches (p s : list Z) : Prop :=
  (~ (exists pre suf, wildcard_pattern p pre suf) /\ ~ In 0 p /\ same_letters p s) \/
  exists pre suf a mid b, wildcard_pattern p pre suf /\ s = a ++ mid ++ b /\ same_letters pre a /\ same_letters suf b /\
    mid <> [] /\ Forall (fun c => label_character c = true) mid.


(** The name that a pointer and a length pass: a length of 0 stands for a string that
    ends at its first NUL. *)
Definition name_passed (chk : list Z) (chklen : nat) (name : list Z) : Prop :=
  if (chklen =? 0)%nat then ~ In 0 name /\ exists rest, chk = name ++ 0 :: rest else length name = chklen /\ exists rest, chk = name ++ rest.

Section Names.
Context {O : Openssl} {OL : OpensslLaws O}.

(** A name of a certificate and a host: the flag turns the wildcards off. *)
Definition name_matches (flags : Z) (p s : list Z) : Prop :=
  if Z.land flags X509_CHECK_FLAG_NO_WILDCARDS =? 0 then host_matches p s else ~ In 0 p /\ same_letters p s.

(** An alternative name of the type matches. *)
Definition alt_matches (x : X509) (check_type alt_type : Z) (matches : list Z -> list Z -> Prop) (name : list Z) : Prop :=
  exists gens gen data, subject_alt_name x = Some gens /\ In gen gens /\ gen_type gen = check_type /\ asn1_type (gen_d gen) = alt_type /\
    asn1_data (gen_d gen) = Some data /\ data <> [] /\ matches data name.

(** An entry of the subject with the object matches: it is not empty, and converts to a
    name that matches, or does not convert. *)
Definition subject_matches (x : X509) (nid : Z) (matches : list Z -> list Z -> Prop) (name : list Z) : Prop :=
  exists i data, 0 <= i < X509_NAME_entry_count (X509_get_subject_name x) /\ entry_NID (X509_get_subject_name x) i = nid /\
    let a := X509_NAME_get_entry_data (X509_get_subject_name x) i in
    asn1_data a = Some data /\ data <> [] /\ match ASN1_STRING_to_UTF8 a with Some u => matches u name | None => True end.

(** The subject counts when there are no alternative names, or the flag asks for it. *)
Definition subject_counts (x : X509) (flags : Z) : Prop := subject_alt_name x = None \/ Z.land flags X509_CHECK_FLAG_ALWAYS_CHECK_SUBJECT <> 0.

Definition names_host (x : X509) (flags : Z) (host : list Z) : Prop :=
  alt_matches x GEN_DNS V_ASN1_IA5STRING (name_matches flags) host \/ subject_counts x flags /\ subject_matches x NID_commonName (name_matches flags) host.



End Names.

(** ** Comparisons *)

Lemma to_lower_zero c : to_lower c = 0 -> c = 0.
Proof. unfold to_lower. destruct (Z.leb_spec 65 c), (Z.leb_spec c 90); cbn [andb]; lia. Qed.

Lemma equal_nocase_loop_spec p s : length p = length s -> (equal_nocase_loop p s = true <-> ~ In 0 p /\ same_letters p s).
Proof.
  unfold same_letters. revert s. induction p as [|l p IH]; intros [|r s] HL; try discriminate; [cbn; tauto|]. cbn [equal_nocase_loop map In].
  injection HL as HL. specialize (IH s HL). destruct (Z.eqb_spec l 0) as [->|N0]; [split; [discriminate | intros [H _]; exfalso; apply H; auto]|].
  destruct (Z.eqb_spec l r) as [->|N]; cbn [negb andb].
  - rewrite IH. split; [intros [H E]; split; [tauto | congruence] | intros [H E]; split; [tauto | injection E; auto]].
  - destruct (Z.eqb_spec (to_lower l) (to_lower r)) as [El|Nl]; cbn [negb].
    + rewrite IH. split; [intros [H E]; split; [tauto | congruence] | intros [H E]; split; [tauto | injection E; auto]].
    + split; [discriminate | intros [_ E]; injection E; contradiction].
Qed.

Lemma same_letters_length a b : same_letters a b -> length a = length b.
Proof. intros H. apply (f_equal (@length Z)) in H. rewrite !length_map in H. exact H. Qed.

Lemma equal_nocase_spec p s : equal_nocase p s = true <-> ~ In 0 p /\ same_letters p s.
Proof.
  unfold equal_nocase. destruct (Nat.eqb_spec (length p) (length s)) as [E|N]; cbn [negb]; [exact (equal_nocase_loop_spec p s E)|].
  split; [discriminate | intros [_ H]; apply same_letters_length in H; contradiction].
Qed.

Lemma same_letters_sym a b : same_letters a b -> same_letters b a.
Proof. exact (@eq_sym _ _ _). Qed.

Lemma same_letters_zero a b : same_letters a b -> In 0 a -> In 0 b.
Proof.
  intros H Ha. apply (in_map to_lower) in Ha. rewrite H in Ha. apply in_map_iff in Ha as (c & Ec & Hc). change (to_lower 0) with 0 in Ec.
  rewrite <- (to_lower_zero c Ec). exact Hc.
Qed.

(** [memchr] finds the first. *)
Lemma memchr_spec s c : match memchr s c with
  | None => ~ In c s
  | Some i => s = firstn i s ++ c :: skipn (S i) s /\ ~ In c (firstn i s)
  end.
Proof.
  induction s as [|x s IH]; [intros []|]. cbn [memchr]. destruct (Z.eqb_spec x c) as [->|N]; [split; [reflexivity | intros []]|].
  destruct (memchr s c) as [i|]; cbn [option_map firstn skipn app]; [|intros [E|H]; [contradiction | exact (IH H)]].
  destruct IH as [E H]. split; [f_equal; exact E | intros [E'|H']; [contradiction | exact (H H')]].
Qed.

Lemma memchr_app pre c suf : ~ In c pre -> memchr (pre ++ c :: suf) c = Some (length pre).
Proof.
  induction pre as [|x pre IH]; intros H; cbn [app memchr length]; [rewrite Z.eqb_refl; reflexivity|].
  destruct (Z.eqb_spec x c) as [E|_]; [exfalso; apply H; left; exact E|]. rewrite IH; [reflexivity | intros H'; apply H; right; exact H'].
Qed.

Lemma firstn_length_app {T} (l l' : list T) : firstn (length l) (l ++ l') = l.
Proof. rewrite firstn_app, Nat.sub_diag, firstn_O, app_nil_r. apply firstn_all. Qed.

Lemma skipn_length_app {T} (l l' : list T) : skipn (length l) (l ++ l') = l'.
Proof. rewrite skipn_app, Nat.sub_diag, skipn_all. reflexivity. Qed.

Lemma valid_domain_spec p : valid_domain_characters p = true <-> Forall (fun c => is_domain_char c = true) p.
Proof. unfold valid_domain_characters. rewrite forallb_forall, Forall_forall. reflexivity. Qed.

Lemma domain_without c p : is_domain_char c = false -> Forall (fun c => is_domain_char c = true) p -> ~ In c p.
Proof. intros Hc HF Hin. rewrite Forall_forall in HF. specialize (HF c Hin). congruence. Qed.

(** The star is found where the pattern has it. *)
Lemma wildcard_find_star_spec p : match wildcard_find_star p with
  | Some i => wildcard_pattern p (firstn i p) (skipn (S i) p)
  | None => ~ exists pre suf, wildcard_pattern p pre suf
  end.
Proof.
  unfold wildcard_find_star. pose proof (memchr_spec p 42) as HM.
  assert (forall pre suf, wildcard_pattern p pre suf -> memchr p 42 = Some (length pre) /\ firstn (length pre) p = pre /\ skipn (S (length pre)) p = suf) as HW.
  { intros pre suf (-> & Hpre & _). split; [apply memchr_app, (domain_without 42 pre eq_refl Hpre)|]. split; [apply firstn_length_app|].
    change (pre ++ 42 :: suf) with (pre ++ [42] ++ suf). rewrite app_assoc. replace (S (length pre)) with (length (pre ++ [42])) by (rewrite length_app; apply Nat.add_1_r). apply skipn_length_app. }
  destruct (memchr p 42) as [i|].
  - destruct HM as [E _]. assert (forall pre suf, wildcard_pattern p pre suf -> pre = firstn i p /\ suf = skipn (S i) p) as HU.
    { intros pre suf H. destruct (HW pre suf H) as (Ei & E1 & E2). injection Ei as ->. auto. }
    destruct (valid_domain_characters (firstn i p)) eqn:E1; cbn [andb negb]; [destruct (valid_domain_characters (skipn (S i) p)) eqn:E2; cbn [negb]|].
    + destruct (Nat.ltb_spec (dot_count (skipn (S i) p)) 2) as [Hd|Hd].
      * intros (pre & suf & H). destruct (HU pre suf H) as [_ ->]. destruct H as (_ & _ & _ & H). lia.
      * split; [exact E|]. rewrite <- !valid_domain_spec. auto.
    + intros (pre & suf & H). destruct (HU pre suf H) as [_ ->]. destruct H as (_ & _ & H & _). rewrite <- valid_domain_spec in H. congruence.
    + intros (pre & suf & H). destruct (HU pre suf H) as [-> _]. destruct H as (_ & H & _). rewrite <- valid_domain_spec in H. congruence.
  - intros (pre & suf & H). destruct (HW pre suf H) as [Ei _]. discriminate.
Qed.

Lemma wildcard_match_spec pre suf s : ~ In 0 pre -> ~ In 0 suf ->
  (wildcard_match pre suf s = true <-> exists a mid b, s = a ++ mid ++ b /\ same_letters pre a /\ same_letters suf b /\ mid <> [] /\ Forall (fun c => label_character c = true) mid).
Proof.
  intros Hp Hs. unfold wildcard_match. cbv zeta. split.
  - destruct (Nat.ltb_spec (length s) (length pre + length suf)) as [_|HL]; [discriminate|].
    destruct (equal_nocase pre _) eqn:E1; cbn [negb]; [|discriminate]. destruct (equal_nocase (skipn _ s) suf) eqn:E2; cbn [negb]; [|discriminate].
    destruct (Nat.eqb_spec (length pre) (length s - length suf)) as [_|HN]; [discriminate|]. intros HF.
    apply equal_nocase_spec in E1 as [_ E1], E2 as [_ E2]. exists (firstn (length pre) s), (firstn (length s - length suf - length pre) (skipn (length pre) s)), (skipn (length s - length suf) s).
    split; [|split; [exact E1 | split; [apply same_letters_sym, E2 | split]]].
    + rewrite <- (firstn_skipn (length pre) s) at 1. f_equal. rewrite <- (firstn_skipn (length s - length suf - length pre) (skipn (length pre) s)) at 1. f_equal.
      rewrite skipn_skipn. f_equal. lia.
    + intros E. apply (f_equal (@length Z)) in E. rewrite length_firstn, length_skipn in E. cbn [length] in E. lia.
    + rewrite forallb_forall in HF. apply Forall_forall. exact HF.
  - intros (a & mid & b & -> & Ea & Eb & Hm & HF). pose proof (same_letters_length _ _ Ea) as La. pose proof (same_letters_length _ _ Eb) as Lb.
    rewrite !length_app. destruct (Nat.ltb_spec (length a + (length mid + length b)) (length pre + length suf)) as [H|_]; [lia|].
    rewrite La, firstn_length_app. rewrite (proj2 (equal_nocase_spec pre a)) by auto. cbn [negb].
    replace (length a + (length mid + length b) - length suf)%nat with (length (a ++ mid)) by (rewrite length_app; lia).
    rewrite (app_assoc a mid b), skipn_length_app. rewrite (proj2 (equal_nocase_spec b suf)) by (split; [intros H0; apply Hs, (same_letters_zero b suf (same_letters_sym _ _ Eb) H0) | apply same_letters_sym, Eb]). cbn [negb].
    destruct (Nat.eqb_spec (length a) (length (a ++ mid))) as [E|_]; [rewrite length_app in E; destruct mid; [contradiction | cbn [length] in E; lia]|].
    rewrite <- app_assoc, skipn_length_app, length_app, Nat.add_comm, Nat.add_sub, firstn_length_app. apply forallb_forall, Forall_forall, HF.
Qed.

(** The first occurrence of a character splits a list in one way. *)
Lemma first_star (c : Z) l r l' r' : ~ In c l -> ~ In c l' -> l ++ c :: r = l' ++ c :: r' -> l = l' /\ r = r'.
Proof.
  intros H H' E. assert (length l = length l') as EL by (pose proof (f_equal (fun s => memchr s c) E) as EM; cbv beta in EM; rewrite !memchr_app in EM by assumption; congruence).
  split; [apply (f_equal (firstn (length l))) in E; rewrite firstn_length_app in E; rewrite E, EL; apply firstn_length_app|].
  apply (f_equal (skipn (length l))) in E. rewrite skipn_length_app, EL, skipn_length_app in E. congruence.
Qed.

Lemma equal_wildcard_spec p s : equal_wildcard p s = true <-> host_matches p s.
Proof.
  unfold equal_wildcard, host_matches. pose proof (wildcard_find_star_spec p) as HW. destruct (wildcard_find_star p) as [i|].
  - assert (~ In 0 (firstn i p) /\ ~ In 0 (skipn (S i) p)) as [H1 H2] by (destruct HW as (_ & H1 & H2 & _); split; apply (domain_without 0); auto).
    rewrite (wildcard_match_spec _ _ s H1 H2). split.
    + intros (a & mid & b & H). right. exists (firstn i p), (skipn (S i) p), a, mid, b. split; [exact HW | exact H].
    + intros [[HN _]|(pre & suf & a & mid & b & Hw & H)]; [exfalso; apply HN; eauto|]. exists a, mid, b.
      assert (pre = firstn i p /\ suf = skipn (S i) p) as [-> ->]; [|exact H]. destruct HW as (E & Hf & _), Hw as (E' & Hp & _). rewrite E in E'.
      apply (first_star _ _ _ _ _ (domain_without 42 _ eq_refl Hf) (domain_without 42 _ eq_refl Hp)) in E'. destruct E' as [-> ->]. auto.
  - rewrite equal_nocase_spec. split; [intros H; left; tauto|]. intros [[_ H]|(pre & suf & a & mid & b & Hw & _)]; [exact H|]. exfalso. eauto.
Qed.

(** ** Names with dots and with an [@] *)

Lemma dot_count_app a b : dot_count (a ++ b) = (dot_count a + dot_count b)%nat.
Proof. induction a as [|c a IH]; cbn [app dot_count]; [reflexivity|]. rewrite IH. destruct (c =? 46); reflexivity. Qed.

Lemma to_lower_dot c : (to_lower c =? 46) = (c =? 46).
Proof. unfold to_lower. destruct (Z.leb_spec 65 c), (Z.leb_spec c 90); cbn [andb]; lia. Qed.

Lemma dot_count_lower a : dot_count (map to_lower a) = dot_count a.
Proof. induction a as [|c a IH]; cbn [map dot_count]; [reflexivity|]. rewrite to_lower_dot, IH. reflexivity. Qed.

Lemma same_letters_dots a b : same_letters a b -> dot_count a = dot_count b.
Proof. intros H. rewrite <- (dot_count_lower a), <- (dot_count_lower b). f_equal. exact H. Qed.

Lemma label_no_dots l : Forall (fun c => label_character c = true) l -> dot_count l = O.
Proof.
  induction 1 as [|c l Hc _ IH]; cbn [dot_count]; [reflexivity|]. destruct (Z.eqb_spec c 46) as [->|_]; [discriminate | exact IH].
Qed.





Lemma same_letters_refl a : same_letters a a.
Proof. reflexivity. Qed.





Lemma equal_nocase_refl a : ~ In 0 a -> equal_nocase a a = true.
Proof. intros H. apply equal_nocase_spec. split; [exact H | reflexivity]. Qed.



(** ** Certificates *)

Section Certificates.
Context {O : Openssl} {OL : OpensslLaws O}.

Lemma b2z_true b : Z.b2z b <> 0 <-> b = true.
Proof. destruct b; cbn; split; congruence. Qed.

(** The string has bytes, as [do_check_string] asks first. *)
Lemma check_string_nonempty a cmp equal b : do_check_string a cmp equal b <> 0 -> exists data, asn1_data a = Some data /\ data <> [].
Proof. unfold do_check_string. destruct (asn1_data a) as [[|c data]|]; [congruence | intros _; exists (c :: data); split; [reflexivity | discriminate] | congruence]. Qed.

Lemma check_ia5 a equal b data : asn1_data a = Some data -> data <> [] ->
  (do_check_string a V_ASN1_IA5STRING equal b <> 0 <-> asn1_type a = V_ASN1_IA5STRING /\ equal data b = true).
Proof.
  intros E Hne. unfold do_check_string. destruct asn1_types as (H0 & _). rewrite E, (proj2 (Z.ltb_lt 0 _) H0), Z.eqb_refl. destruct data as [|c data]; [contradiction|].
  destruct (Z.eqb_spec V_ASN1_IA5STRING (asn1_type a)) as [Et|N]; cbn [negb]; [rewrite b2z_true; split; [auto | intros [_ H]; exact H] | split; [congruence | intros [H _]; congruence]].
Qed.


(** An entry of the subject matches also when it cannot be converted. *)
Lemma check_utf8 a equal b data : asn1_data a = Some data -> data <> [] ->
  (do_check_string a (-1) equal b <> 0 <-> match ASN1_STRING_to_UTF8 a with Some u => equal u b = true | None => True end).
Proof.
  intros E Hne. unfold do_check_string. rewrite E. change (0 <? -1) with false. cbv iota. destruct data as [|c data]; [contradiction|].
  destruct (ASN1_STRING_to_UTF8 a) as [u|]; [apply b2z_true | split; [auto | discriminate]].
Qed.

Lemma check_alt_names_spec gens check_type alt_type equal chk : check_alt_names gens check_type alt_type equal chk = true <->
  exists gen, In gen gens /\ gen_type gen = check_type /\ do_check_string (gen_d gen) alt_type equal chk <> 0.
Proof.
  induction gens as [|g gens IH]; cbn [check_alt_names In]; [split; [discriminate | intros (gen & [] & _)]|].
  destruct (Z.eqb_spec (gen_type g) check_type) as [E|N]; cbn [negb].
  - destruct (Z.eqb_spec (do_check_string (gen_d g) alt_type equal chk) 0) as [E0|N0]; cbn [negb]; [|split; [intros _; exists g; auto | reflexivity]].
    rewrite IH. split; intros (gen & Hin & H); exists gen; [tauto | destruct Hin as [<-|Hin]; [tauto | auto]].
  - rewrite IH. split; intros (gen & Hin & H); exists gen; [tauto | destruct Hin as [<-|Hin]; [tauto | auto]].
Qed.

(** The loop ends, and finds an entry past [last] that matches. *)
Lemma check_subject_spec fuel name cnid last equal chk : -1 <= last < X509_NAME_entry_count name \/ last = -1 -> X509_NAME_entry_count name - 1 - last < Z.of_nat fuel ->
  Returns (check_subject fuel name cnid last equal chk) (fun rv => (rv = 0 \/ rv = 1) /\
    (rv = 1 <-> exists i, last < i < X509_NAME_entry_count name /\ entry_NID name i = cnid /\ do_check_string (X509_NAME_get_entry_data name i) (-1) equal chk <> 0)).
Proof.
  revert last. induction fuel as [|fuel IH]; intros last Hl Hf; [pose proof (entry_count_nonneg name); lia|]. cbn [check_subject]. cbv zeta.
  assert (-1 <= last) as Hl' by lia. pose proof (get_index_found name cnid last Hl') as HF. pose proof (get_index_none name cnid last Hl') as HN. cbv zeta in HF.
  set (i := X509_NAME_get_index_by_NID name cnid last) in *. destruct (Z.ltb_spec i 0) as [Hi|Hi].
  - apply Returns_ret. split; [auto|]. split; [discriminate|]. intros (j & Hj & E & _). exfalso. exact (HN Hi j Hj E).
  - destruct (HF Hi) as (Hr & En & Hgap). destruct (Z.eqb_spec (do_check_string (X509_NAME_get_entry_data name i) (-1) equal chk) 0) as [E0|N0]; cbn [negb].
    + eapply Returns_mono; [apply IH; lia|]. intros rv [H01 HI]. split; [exact H01|]. rewrite HI. split; intros (j & Hj & Ej & Hc); exists j; (split; [|split; assumption]); [lia|].
      destruct (Z.lt_trichotomy j i) as [H|[->|H]]; [exfalso; apply (Hgap j); [lia | exact Ej] | contradiction | lia].
    + apply Returns_ret. split; [auto|]. split; [intros _; exists i; auto | reflexivity].
Qed.

(** The comparisons of a kind of check: what [do_check_string] finds among the
    alternative names, and in the subject. *)
Section Kind.
Variables (x : X509) (flags check_type cnid alt_type : Z) (equal : list Z -> list Z -> bool) (name : list Z).
Hypothesis kind : check_kind flags check_type = (cnid, alt_type, equal).

Definition alt_answers : Prop := exists gens, subject_alt_name x = Some gens /\ check_alt_names gens check_type alt_type equal name = true.

Lemma subject_answers fuel matches : X509_NAME_entry_count (X509_get_subject_name x) < Z.of_nat fuel -> (forall u, equal u name = true <-> matches u name) ->
  Returns (check_subject fuel (X509_get_subject_name x) cnid (-1) equal name) (fun rv => (rv = 0 \/ rv = 1) /\ (rv = 1 <-> subject_matches x cnid matches name)).
Proof.
  intros Hf Heq. eapply Returns_mono; [apply check_subject_spec; [auto | lia]|]. intros rv [H01 HI]. split; [exact H01|]. rewrite HI. unfold subject_matches. cbv zeta. split.
  - intros (i & Hi & En & Hc). destruct (check_string_nonempty _ _ _ _ Hc) as (data & Hd & Hne). exists i, data. split; [lia|]. split; [exact En|]. split; [exact Hd|]. split; [exact Hne|].
    apply (check_utf8 _ equal name data Hd Hne) in Hc. destruct (ASN1_STRING_to_UTF8 _); [apply Heq, Hc | exact I].
  - intros (i & data & Hi & En & Hd & Hne & Hc). exists i. split; [lia|]. split; [exact En|]. apply (check_utf8 _ equal name data Hd Hne).
    destruct (ASN1_STRING_to_UTF8 _); [apply Heq, Hc | exact I].
Qed.

Lemma alt_answers_matches matches :
  (forall a data, asn1_data a = Some data -> data <> [] -> (do_check_string a alt_type equal name <> 0 <-> asn1_type a = alt_type /\ matches data name)) ->
  (alt_answers <-> alt_matches x check_type alt_type matches name).
Proof.
  intros HC. unfold alt_answers, alt_matches. split.
  - intros (gens & Eg & H). apply check_alt_names_spec in H as (gen & Hin & Ht & Hc). destruct (check_string_nonempty _ _ _ _ Hc) as (data & Hd & Hne).
    destruct (proj1 (HC _ data Hd Hne) Hc) as [Ha Hm]. exists gens, gen, data. auto 8.
  - intros (gens & gen & data & Eg & Hin & Ht & Ha & Hd & Hne & Hm). exists gens. split; [exact Eg|]. apply check_alt_names_spec. exists gen. split; [exact Hin|]. split; [exact Ht|].
    apply (HC _ data Hd Hne). auto.
Qed.

Lemma name_passed_read chk chklen {T} (k : nat -> list Z -> checked T) : name_passed chk chklen name ->
  (chklen <- (if (chklen =? 0)%nat then memchr chk 0 else ret chklen);; chk <- (if (length chk <? chklen)%nat then None else ret (firstn chklen chk));; k chklen chk) = k (length name) name.
Proof.
  unfold name_passed. destruct (chklen =? 0)%nat.
  - intros [H0 (rest & ->)]. rewrite (memchr_app name 0 rest H0). cbn [bind]. rewrite (proj2 (Nat.ltb_ge _ _)) by (rewrite length_app; lia). rewrite firstn_length_app. reflexivity.
  - intros [<- (rest & ->)]. cbn [bind ret]. rewrite (proj2 (Nat.ltb_ge _ _)) by (rewrite length_app; lia). rewrite firstn_length_app. reflexivity.
Qed.

Lemma x509_check_decides fuel chk chklen matches : name_passed chk chklen name -> X509_NAME_entry_count (X509_get_subject_name x) < Z.of_nat fuel ->
  (forall u, equal u name = true <-> matches u name) ->
  Returns (do_x509_check fuel x chk chklen flags check_type) (fun rv => (rv = 0 \/ rv = 1) /\
    (rv = 1 <-> alt_answers \/ (subject_alt_name x = None \/ Z.land flags X509_CHECK_FLAG_ALWAYS_CHECK_SUBJECT <> 0 /\ cnid <> 0) /\ subject_matches x cnid matches name)).
Proof.
  intros Hp Hf Heq. unfold do_x509_check. rewrite kind. rewrite (name_passed_read chk chklen _ Hp). cbv beta zeta. pose proof (subject_answers fuel matches Hf Heq) as HS.
  unfold alt_answers. destruct (subject_alt_name x) as [gens|].
  - destruct (check_alt_names gens check_type alt_type equal name) eqn:EA; [apply Returns_ret; split; [auto|]; split; [eauto | reflexivity]|].
    assert (~ exists g, Some gens = Some g /\ check_alt_names g check_type alt_type equal name = true) as HN by (intros (g & [= <-] & H); congruence).
    destruct (Z.eqb_spec (Z.land flags X509_CHECK_FLAG_ALWAYS_CHECK_SUBJECT) 0) as [E0|N0], (Z.eqb_spec cnid 0) as [E1|N1]; cbn [orb].
    4: { eapply Returns_mono; [exact HS|]. intros rv [H01 HI]. split; [exact H01|]. rewrite HI. tauto. }
    all: apply Returns_ret; split; [auto|]; split; [discriminate|]; intros [H|[[H|H] _]]; [contradiction | discriminate | tauto].
  - eapply Returns_mono; [exact HS|]. intros rv [H01 HI]. split; [exact H01|]. rewrite HI. split; [auto|]. intros [(g & H & _)|[_ H]]; [discriminate | exact H].
Qed.

End Kind.

Lemma name_matches_spec flags u s : (if negb (Z.land flags X509_CHECK_FLAG_NO_WILDCARDS =? 0) then equal_nocase else equal_wildcard) u s = true <-> name_matches flags u s.
Proof. unfold name_matches. destruct (_ =? 0); cbn [negb]; [apply equal_wildcard_spec | apply equal_nocase_spec]. Qed.

End Certificates.

(** ** A certificate store *)

(** Certificates as lists of names, for the examples: a name of type 30 needs an even
    number of bytes to be converted. *)
Record sample_x509 : Type := mk_sample_x509 { san : option (list general_name); subject : list (Z * asn1_string) }.

Fixpoint next_index (l : list (Z * asn1_string)) (nid last pos : Z) : Z :=
  match l with
  | [] => -1
  | (k, _) :: l' => if (last <? pos) && (k =? nid) then pos else next_index l' nid last (pos + 1)
  end.

Definition sample_utf8 (a : asn1_string) : option (list Z) :=
  match asn1_data a with
  | None => None
  | Some data => if (asn1_type a =? 30) && Nat.odd (length data) then None else Some data
  end.

#[export] Instance sample_openssl : Openssl := {|
  X509 := sample_x509;
  X509_NAME := list (Z * asn1_string);
  GEN_EMAIL := 1;
  GEN_DNS := 2;
  GEN_IPADD := 7;
  V_ASN1_IA5STRING := 22;
  V_ASN1_OCTET_STRING := 4;
  NID_pkcs9_emailAddress := 48;
  NID_commonName := 13;
  subject_alt_name := san;
  X509_get_subject_name := subject;
  X509_NAME_get_index_by_NID name nid last := next_index name nid last 0;
  X509_NAME_get_entry_data name i := snd (nth (Z.to_nat i) name (0, mk_asn1 0 None));
  X509_NAME_entry_count name := Z.of_nat (length name);
  ASN1_STRING_to_UTF8 := sample_utf8
|}.

Definition sample_NID (name : list (Z * asn1_string)) (i : Z) : Z := fst (nth (Z.to_nat i) name (0, mk_asn1 0 None)).

Lemma next_index_spec name nid last pos : -1 <= last -> 0 <= pos -> let i := next_index name nid last pos in
  (0 <= i -> last < i /\ pos <= i < pos + Z.of_nat (length name) /\ sample_NID name (i - pos) = nid /\ forall j, last < j < i -> pos <= j -> sample_NID name (j - pos) <> nid) /\
  (i < 0 -> forall j, last < j -> pos <= j < pos + Z.of_nat (length name) -> sample_NID name (j - pos) <> nid).
Proof.
  cbv zeta. intros Hl. revert pos. induction name as [|[k a] name IH]; intros pos Hp; cbn [next_index length]; [split; [lia | intros _ j _ Hj; lia]|].
  destruct (IH (pos + 1) ltac:(lia)) as [IH1 IH2].
  assert (forall j, pos + 1 <= j -> sample_NID ((k, a) :: name) (j - pos) = sample_NID name (j - (pos + 1))) as Hshift.
  { intros j Hj. unfold sample_NID. replace (Z.to_nat (j - pos)) with (S (Z.to_nat (j - (pos + 1)))) by lia. reflexivity. }
  assert (sample_NID ((k, a) :: name) (pos - pos) = k) as Hhere by (rewrite Z.sub_diag; reflexivity).
  destruct ((last <? pos) && (k =? nid)) eqn:E.
  - apply andb_true_iff in E as [E1 E2]. apply Z.ltb_lt in E1. apply Z.eqb_eq in E2. split; [intros _|lia]. split; [exact E1|]. split; [lia|]. split; [congruence | intros j H1 H2; lia].
  - assert (last < pos -> k <> nid) as HN by (intros H1 ->; rewrite (proj2 (Z.ltb_lt _ _) H1), Z.eqb_refl in E; discriminate). split.
    + intros Hi. destruct (IH1 Hi) as (H1 & H2 & H3 & H4). split; [exact H1|]. split; [lia|]. split; [rewrite Hshift by lia; exact H3|].
      intros j Hj Hpj. destruct (Z.eq_dec j pos) as [->|]; [rewrite Hhere; apply HN; lia | rewrite Hshift by lia; apply H4; lia].
    + intros Hi j Hj Hpj. destruct (Z.eq_dec j pos) as [->|]; [rewrite Hhere; apply HN; lia | rewrite Hshift by lia; apply (IH2 Hi); lia].
Qed.

#[export] Instance sample_openssl_laws : OpensslLaws sample_openssl.
Proof.
  refine (Build_OpensslLaws sample_openssl sample_NID ltac:(cbn; lia) ltac:(cbn; lia) ltac:(cbn; lia) (fun name => Zle_0_nat _) _ _).
  - intros name nid last Hl. cbn. intros Hi. destruct (next_index_spec name nid last 0 Hl (Z.le_refl 0)) as [H _]. destruct (H Hi) as (H1 & H2 & H3 & H4). rewrite Z.sub_0_r in H3.
    split; [lia|]. split; [exact H3|]. intros j Hj. specialize (H4 j Hj ltac:(lia)). rewrite Z.sub_0_r in H4. exact H4.
  - intros name nid last Hl. cbn. intros Hi j Hj. destruct (next_index_spec name nid last 0 Hl (Z.le_refl 0)) as [_ H]. specialize (H Hi j ltac:(lia) ltac:(lia)). rewrite Z.sub_0_r in H. exact H.
Defined.

(** ** Properties *)

Section Properties.
Context {O : Openssl} {OL : OpensslLaws O}.

(** C29: [X509_check_host] always returns (its loop makes at most one round more than
    the subject has entries), with 1 when the certificate names the host and with 0
    otherwise, for every certificate, every name passed (with its length, or with length
    0 as a string with its NUL) and all flags.  The certificate names the host when an
    alternative name of type dNSName matches, or, without alternative names or with the
    flag that asks for the subject, a common name does; empty names do not count.  A
    name with one star among letters, digits, dashes and dots, and at least two dots
    after the star, is a pattern: it matches a host that has one or more letters, digits
    and dashes in the place of the star and is the same elsewhere but for the case of
    letters.  Any other name, and with the flag that turns wildcards off every name,
    matches when it has no NUL and is the host but for the case of letters.  A common
    name that cannot be converted to UTF-8 matches every host: [do_check_string] reports
    it with -1, which is not 0. *)
Theorem check_host_correct fuel x chk chklen host flags : name_passed chk chklen host -> X509_NAME_entry_count (X509_get_subject_name x) < Z.of_nat fuel ->
  Returns (X509_check_host fuel x chk chklen flags) (fun rv => (rv = 0 \/ rv = 1) /\ (rv = 1 <-> names_host x flags host)).
Proof.
  intros Hp Hf. destruct general_types as (N1 & _).
  assert (check_kind flags GEN_DNS = (NID_commonName, V_ASN1_IA5STRING, if negb (Z.land flags X509_CHECK_FLAG_NO_WILDCARDS =? 0) then equal_nocase else equal_wildcard)) as EK
    by (unfold check_kind; rewrite (proj2 (Z.eqb_neq GEN_DNS GEN_EMAIL)), Z.eqb_refl by congruence; reflexivity).
  eapply Returns_mono; [exact (x509_check_decides x flags _ _ _ _ host EK fuel chk chklen _ Hp Hf (fun u => name_matches_spec flags u host))|].
  intros rv [H01 HI]. split; [exact H01|]. rewrite HI. unfold names_host, subject_counts.
  rewrite (alt_answers_matches x GEN_DNS _ _ host (name_matches flags)) by (intros a data Hd Hne; rewrite (check_ia5 a _ host data Hd Hne), name_matches_spec; reflexivity).
  pose proof (proj1 objects_nonzero). tauto.
Qed.


(** C32: a match spans no dot: a host that matches a pattern has as many dots as the
    pattern, so a star stands for a part of one label only. *)
Theorem wildcard_one_label pattern subject : equal_wildcard pattern subject = true -> dot_count subject = dot_count pattern.
Proof.
  rewrite equal_wildcard_spec. intros [(_ & _ & H)|(pre & suf & a & mid & b & (-> & _) & -> & Ha & Hb & _ & Hm)]; [symmetry; exact (same_letters_dots _ _ H)|].
  rewrite !dot_count_app, (label_no_dots mid Hm), <- (same_letters_dots _ _ Ha), <- (same_letters_dots _ _ Hb). reflexivity.
Qed.

End Properties.

(** "*.example.com", "www.Example.com" and "host" *)
Definition star_example : list Z := [42; 46; 101; 120; 97; 109; 112; 108; 101; 46; 99; 111; 109].
Definition www_example : list Z := [119; 119; 119; 46; 69; 120; 97; 109; 112; 108; 101; 46; 99; 111; 109].

Definition star_cert : sample_x509 := mk_sample_x509 (Some [mk_general_name 2 (mk_asn1 22 (Some star_example))]) [(13, mk_asn1 12 (Some [104; 111; 115; 116]))].
Definition broken_cert : sample_x509 := mk_sample_x509 None [(6, mk_asn1 19 (Some [85; 83])); (13, mk_asn1 30 (Some [0; 104; 0]))].

Lemma check_host_correct_witness : X509_check_host 2 star_cert (www_example ++ [0]) 15 0 = Some 1 /\ names_host star_cert 0 www_example.
Proof.
  assert (X509_check_host 2 star_cert (www_example ++ [0]) 15 0 = Some 1) as E by reflexivity. split; [exact E|].
  pose proof (check_host_correct 2 star_cert (www_example ++ [0]) 15 www_example 0 ltac:(split; [reflexivity | exists [0]; reflexivity]) ltac:(reflexivity)) as H. rewrite E in H. apply H. reflexivity.
Defined.

(** A common name that does not convert, and no alternative names. *)
Lemma check_host_unconvertible : X509_check_host 3 broken_cert (www_example ++ [0]) 0 0 = Some 1 /\ X509_check_host 3 broken_cert (star_example ++ [0]) 0 X509_CHECK_FLAG_NO_WILDCARDS = Some 1.
Proof. split; reflexivity. Qed.

Lemma wildcard_one_label_witness : dot_count www_example = dot_count star_example.
Proof. apply (wildcard_one_label star_example www_example). reflexivity. Defined.



(** Without a local part the case of the domain counts: "@E" and "@e". *)
Lemma equal_email_no_local : equal_email [64; 69] [64; 101] = false /\ equal_nocase [64; 69] [64; 101] = true.
Proof. split; reflexivity. Qed.
